(* ===== verification/_CoqProject ===== *)
-Q . S2P
Prelude.v
Bytes.v
Float.v
FeedTypes.v
MainFeed.v
DepthFeed.v
OrderTypes.v
OrderLifecycle.v
OrderBudget.v
Reconciliation.v
CircuitBreaker.v
Correlations.v
ErrorTaxonomy.v
OrderReadiness.v
ApiClient.v
OmsEngine.v
RiskEngine.v
ExitRules.v
OmsExits.v
ExitSafety.v
ExitDispatch.v
TradingPipeline.v
DispatchSafety.v
PricePrecision.v
MarginGate.v
Candles.v
AggregatorCell.v
CandleVolume.v
CandleBars.v
SealRing.v
SpotBarStore.v
MultiTfAggregator.v
AggregatorSlots.v
AggregatorSteps.v
AggregatorVolume.v
TickGap.v
ConnectionBudget.v
ReconnectLadder.v
ConnectionSupervisor.v
SupervisorSafety.v
SupervisorTiming.v
SubscribeGuard.v
LiveCommands.v
LiveSafety.v
ConnectionLoop.v
ConnectionSafety.v
OverflowEpisode.v
OverflowSafety.v
OverflowTurns.v
Crc32.v
UnappliedRanges.v
WalRecords.v
WalSequence.v
WalWatermark.v
WatermarkSafety.v
WatermarkLag.v
