(* ===== verification/Prelude.v ===== *)
(** * The trading core of tickvault

    tickvault ingests the binary market feeds of the broker Dhan and runs an
    order path against the broker's REST API.  This development models the parts
    where a wrong byte or a wrong transition costs money: the wire parsers that
    turn frames into ticks and depth, the supervision of the sockets those frames
    arrive on, the candle engine that folds the ticks into bars, the log that keeps
    the frames until the database has them, and the synchronous core of the order
    path, from the pre-trade checks to the bookkeeping of fills.

    ** Parts, files and sources (all under [src/crates])

    - [Prelude], [Bytes], [Float]: outcomes of fallible code, machine integers,
      byte slices with checked indexing, IEEE 754 binary32 and binary64.
    - [FeedTypes]: wire constants and data types of the feeds
      ([common/src/constants.rs], [common/src/tick_types.rs],
      [core/src/parser/types.rs], [core/src/websocket/types.rs]).
    - The sockets ([core/src/websocket]).  [ConnectionBudget]: which sockets an
      account may open and the index each gets ([pool_budget.rs]).
      [ReconnectLadder]: redial delays and the idle watchdog
      ([reconnect_ladder.rs], [idle_watchdog.rs]).  The rest is
      [pool_supervisor.rs].  [ConnectionSupervisor]: the state machine of one
      connection ([on_event], [poll_with]); what a step tells process-wide state is
      a list of [PoolCall]s.  [SubscribeGuard]: the set a connection replays.
      [LiveCommands]: the changes to a live subscription and the first dispatch of
      the set, every read of the socket going through [on_event].
      [ConnectionLoop]: the loop that owns the three, one turn a step
      ([run_connection_with_commands], [drain]).  [OverflowEpisode]: the recovery
      from an 805, which the connections' calls reach and whose grants and re-park
      requests they read.  [SupervisorSafety], [SupervisorTiming], [LiveSafety],
      [ConnectionSafety], [OverflowSafety] and [OverflowTurns] have the theorems.
    - [MainFeed]: the main-feed parsers, the dispatcher and its counters, the
      walk for a stacked disconnect packet ([core/src/parser]: [read_helpers],
      [header], [ticker], [quote], [full_packet], [oi], [previous_close],
      [market_status], [disconnect], [dispatcher]).
    - [DepthFeed]: the 20- and 200-level depth parsers and the frame splitter
      ([core/src/parser/depth.rs]); [classify_frame] of
      [core/src/websocket/connection.rs], which decides from the bytes whether
      the socket is being closed.
    - [PricePrecision]: the conversion of wire prices to decimals
      ([common/src/price_precision.rs]).
    - [Candles]: the timeframes and the bar ([trading/src/candles]: [tf_index.rs],
      [live_candle_state.rs]).  [AggregatorCell]: the bars of one instrument
      ([aggregator_cell.rs]), with the conservation of volume in [CandleVolume]
      and the reference aggregate of a bar in [CandleBars].
    - [SealRing]: feed names ([common/src/feed.rs]) and the bounded ring between
      the fold and the writer ([candles/seal_ring.rs]).
    - [MultiTfAggregator]: the aggregator over all instruments
      ([candles/multi_tf_aggregator.rs]): [consume_tick] passes a tick through the
      gates [admit_*] to its instrument's slot ([slot_consume]), which unwraps the
      counter, classifies the volume and feeds every frame of the cell;
      [force_seal_all], [catch_up_seal_slots] and [finish_replay] sweep the slots.
      [AggregatorSlots] has the invariant of a slot, [AggregatorSteps] the
      operations as steps and their projection to one instrument,
      [AggregatorVolume] the volume of a day.
    - [TickGap]: arrival gaps, stale prices and backwards jumps
      ([trading/src/risk/tick_gap_tracker.rs]).
    - The frame log ([storage/src]).  [Crc32]: its checksum.  [WalRecords]: the
      record layouts and the replay of a segment ([ws_frame_spill.rs]:
      [write_record], [decode_record_at], [resync_from], [replay_segment_core]).
      [WalSequence]: frame and packet numbers, the probes that read the highest
      one back after a restart, the prune decision (same file).
      [UnappliedRanges]: the bounded set of ranges not yet in the database and
      its side file ([wal_unapplied_ranges.rs]).  [WalWatermark]: the applied
      watermark that decides what a replay may skip and a prune delete
      ([wal_applied_watermark.rs]); [WatermarkSafety] proves what it never
      forgets, [WatermarkLag] what it writes.
    - [OrderTypes]: segments, order enumerations, orders, fills, broker requests
      and replies ([common/src/types.rs], [common/src/order_types.rs],
      [trading/src/oms/types.rs]).
    - [OrderLifecycle]: [oms/state_machine.rs].  [OrderBudget]:
      [oms/rate_limiter.rs].  [Reconciliation]: [oms/reconciliation.rs].
      [CircuitBreaker]: [oms/circuit_breaker.rs].  [Correlations]:
      [oms/idempotency.rs].  [ErrorTaxonomy]: [oms/error_taxonomy.rs] and
      [oms/dh904_backoff.rs].  [OrderReadiness]: [oms/order_readiness.rs].
      [ApiClient]: [oms/api_client.rs].  (The prefix is [trading/src].)
    - [OmsEngine]: [trading/src/oms/engine.rs], which owns one of each of the
      order-path components above and composes them: [order_gates] spends the
      budget, asks the per-second limiter and the breaker; [live_call] runs one
      operation through [ApiClient.run_order_ladder] under the engine's error
      policy; [handle_order_update] applies [OrderLifecycle] to a live update
      and emits the fill event that the risk engine books; [reconcile] applies
      the corrections [Reconciliation] computes.
    - [RiskEngine]: [trading/src/risk/types.rs] and [trading/src/risk/engine.rs].
    - [MarginGate]: the margin check before an entry ([oms/margin_gate.rs]).
      [SpotBarStore]: the sealed bars kept in memory
      ([in_mem/spot_bar_store.rs]).
    - [ExitRules]: the pure rules of the exit orders ([oms/exit_rules.rs]).
      [OmsExits]: the engine's exit half ([oms/engine.rs] from
      [place_super_order] on): brackets and the change of one leg, forever
      orders, orders sliced at the freeze limit, the probe of an execution.  Its
      state wraps [OmsEngine]'s with the registry of brackets and a log of the
      requests sent.  [ExitSafety] has its theorems.
    - [ExitDispatch]: exit commands, the ladder of probes and the closing of one
      instrument ([app/src/exit_execution.rs]).  [TradingPipeline]: the loop that
      runs the order management system and the risk engine together
      ([app/src/trading_pipeline.rs]): signals, order updates, market close, daily
      reset, reconciliation.  [DispatchSafety] has the theorems of both.

    ** Conventions

    A struct is a record with the source's field names (prefixed where two
    structs share a name), an enum an inductive type with its constructors, a
    method [fn m(&mut self, a) -> R] a function from the state to the pair of
    [R] and the new state.  [Result] with the possibility of a panic is
    [Prelude.res], so an out-of-range slice index is the value [Panic] and "never
    panics" is a theorem.  A bounded integer is a [Z]; saturating, checked and
    wrapping operations are written with their width.  Floats are the Standard
    Library's executable [spec_float] at 24 or 53 bits of precision, every NaN
    identified.  Maps are [gmap]s; a set is a [gset].  Clock readings, UUID draws,
    token look-ups, HTTP outcomes and the per-second limiter's answers are
    arguments ([OmsEngine.Env], [OmsEngine.Live]): the theorems hold for every
    one of them.  Error texts drop the numbers the source formats into them.

    ** What the theorems show

    - Order path ([OmsEngine], [ApiClient], [OrderReadiness], [ErrorTaxonomy]):
      a request leaves only in live mode past the sandbox deadline, with no halt,
      a fresh good probe and every gate passed; all requests of an operation are
      the same one, at most ten (twelve for a cancel), resent only after replies
      that show it did not take effect (or, for a cancel, may be repeated); an
      account error halts the path; a cancel is attempted whatever is halted.
    - Bookkeeping ([OmsEngine], [OrderLifecycle], [Reconciliation]): whatever
      updates arrive, in whatever order, orders move along the lifecycle, their
      traded quantity never falls, no lot is booked twice, aliases are stable;
      reconciliation corrects without ever lowering a quantity.
    - Exits ([ExitRules], [ExitSafety], [DispatchSafety]): a bracket leaves only
      well formed (prices in the order of its side for a limit entry; those of a
      market entry are not ordered), within the freeze limit and through the gates,
      an entry leg is cancelled only while neither the registry nor the tracked
      order shows a fill, slices add up and are as few as possible, a fill is
      reported only where the broker reports it, the ladder of probes ends and
      leaves no order pending unflagged.  Three theorems show where
      parts disagree: exit placements pass a halted path, a late probe lowers a
      fill baseline and lets its lots be booked again, and an exit outside the
      index segment looks for its position in a row no fill is booked to.
    - Risk ([RiskEngine]): the derived indexes agree with the positions after any
      run, an approved order stays within limits, a halt is latched, the two
      daily-loss gates decide alike, the book is bounded.
    - Components: the breaker refines a three-state machine and lets one probe
      through under any interleaving; the budget bounds admissions; correlation
      ids are tracked as by a bounded map, never evicted and never reissued.
    - Feeds ([MainFeed], [DepthFeed]): the parsers compute exactly what the wire
      format prescribes for every frame, never panic, and round-trip with an
      encoder; the splitter ends, loses nothing and is what classifies a frame.

    - Candles ([AggregatorCell], [CandleVolume], [CandleBars], [AggregatorSteps],
      [AggregatorVolume]): every bar emitted is well formed, a bar is the
      reference aggregate of its ticks, bars come in order, a refused tick leaves
      no trace, and the volumes a timeframe stores add up to the growth of the
      exchange's counter, late ticks included; on a live day whose capture began
      before the 09:10 window, with the first counter under 2^32 and each within 2^28
      of the highest before it, so do those read through its wrapping 32-bit form.

    - Frame log ([WalRecords], [WalSequence], [UnappliedRanges], [WalWatermark]):
      a replay never panics, delivers every readable record that is not applied,
      marks the gaps and reports damage exactly where bytes were skipped or the end
      is more than a cut-off record; one bad byte costs one record; packet numbers
      grow strictly, across a restart too; a frame known to be missing from the database keeps its
      segment from being skipped or deleted through any run of the watermark and
      into the next process; the file vouches only for what was reached a minute
      before.

    - Connections ([SupervisorSafety], [SupervisorTiming], [ConnectionSafety]): over
      every interleaving of dials, replays, commands, closes and ticks, a parked
      connection stays parked unless an 805 probe is granted to it, an 805 never
      redials by itself, rejected logins end, fast redials are rare, a stop ends the
      loop within four turns, and the set the connection names is what its socket
      carries.  Changes to a live subscription ([LiveSafety]) subscribe nothing twice
      and never pass the cap, and their answer says what the set then names; two
      theorems show where a write that timed out breaks this.

    - Recovery from an 805 ([OverflowSafety], [OverflowTurns]): a window passes only
      when it was earned, probes are few and spaced, the two recoveries share one
      window, and the main feed opens no new connection from an 805 to the end of its
      recovery.

    - Stores and budgets: granted slots have distinct indexes ([ConnectionBudget]);
      the bar store serves the newest bars recorded ([SpotBarStore]); the
      margin gate, switched off in the code, asks the broker nothing and, were it on,
      would allow an entry only on both broker replies ([MarginGate]).

    ** Fuel

    Loops that are not structural run on fuel, and a theorem shows it suffices:
    the frame splitter and the two stacked-disconnect walks take at most one step
    per byte (the walks at most [MAX_PACKETS_PER_FRAME] packets); the back-off
    ladder at most six requests; the engine's retry loop two turns; the id pool's
    refill at most the pool's size; the ladder of probes one turn per attempt and
    one to end; the walk over a segment of the frame log, its
    resynchronisation and its probes one turn per byte.

    ** Not modelled, and why

    Sockets, HTTP, JSON decoding, storage, alerts, metrics and logs (I/O or
    third-party code: inputs of the model or left out); memory orders weaker than
    sequential consistency; event counters and the cache warm-up of the candle
    fold; the interleaving of the watermark's atomics, its file format, the queueing
    and file work of the frame log; the registers that ask a connection to repeat
    an unsubscribe or close a probe's socket (what they ask is an input of the
    loop).  Indicators and strategies end in a signal, and the session calendar in
    an answer: both are inputs, of any value.  The second vendor's feed is JSON
    decoding; the boot, the dashboards, the HTTP API and the cloud handlers steer
    nothing that is modelled. *)
From stdpp Require Export prelude gmap strings list.
From Stdlib Require Export ZArith Lia.

(** * Outcomes of fallible code

    A Rust function that returns [Result<A, E>] and may index a slice has three
    outcomes: a value, a typed error, or a panic.  [Panic] is kept apart from
    [Err] so that "this code never panics" is a statement about the model. *)

Inductive res (E A : Type) : Type :=
  | Ok (a : A)
  | Err (e : E)
  | Panic.
Global Arguments Ok {E A} a.
Global Arguments Err {E A} e.
Global Arguments Panic {E A}.

#[global] Instance res_ret E : MRet (res E) := fun A a => Ok a.
#[global] Instance res_bind E : MBind (res E) := fun A B f m =>
  match m with
  | Ok a => f a
  | Err e => Err e
  | Panic => Panic
  end.

(** [?] on an [Option] inside a function that returns a [Result]: [ok_or]. *)
Definition ok_or {E A} (e : E) (o : option A) : res E A :=
  match o with
  | Some a => Ok a
  | None => Err e
  end.

Definition is_Ok {E A} (r : res E A) : Prop := exists a, r = Ok a.
Definition is_Panic {E A} (r : res E A) : bool :=
  match r with Panic => true | _ => false end.

Section res_lemmas.
Context {E A B : Type}.
Implicit Types (m : res E A) (f : A -> res E B).

Lemma res_bind_ok a f : (Ok a ≫= f) = f a.
Proof. reflexivity. Qed.

Lemma res_bind_err e f : (Err e ≫= f) = Err e.
Proof. reflexivity. Qed.

Lemma res_bind_inv m f b :
    (m ≫= f) = Ok b -> exists a, m = Ok a /\ f a = Ok b.
Proof. destruct m; simpl; try discriminate. eauto. Qed.

Lemma res_bind_no_panic m f :
    m <> Panic -> (forall a, m = Ok a -> f a <> Panic) -> (m ≫= f) <> Panic.
Proof. destruct m; simpl; auto; congruence. Qed.
End res_lemmas.

Create HintDb tickdb discriminated.
Create Rewrite HintDb res.
#[export] Hint Rewrite @res_bind_ok @res_bind_err : res.

(** * Machine integers

    An unsigned [w]-bit integer is a [Z] in [0, 2^w); a signed one a [Z] in
    [-2^(w-1), 2^(w-1)).  Only the operations the source uses are defined. *)

Local Open Scope Z_scope.

Definition clamp (lo hi x : Z) : Z := Z.max lo (Z.min hi x).

Definition u32_max : Z := 4294967295.
Definition u64_max : Z := 18446744073709551615.
Definition usize_max : Z := u64_max.
Definition i32_min : Z := -2147483648.
Definition i32_max : Z := 2147483647.
Definition i64_min : Z := -9223372036854775808.
Definition i64_max : Z := 9223372036854775807.

Definition in_u8 (x : Z) : Prop := 0 <= x < 256.
Definition in_u16 (x : Z) : Prop := 0 <= x < 65536.
Definition in_u32 (x : Z) : Prop := 0 <= x <= u32_max.
Definition in_u64 (x : Z) : Prop := 0 <= x <= u64_max.
Definition in_i32 (x : Z) : Prop := i32_min <= x <= i32_max.
Definition in_i64 (x : Z) : Prop := i64_min <= x <= i64_max.

Definition u32_saturating_add (a b : Z) : Z := clamp 0 u32_max (a + b).
Definition u64_saturating_add (a b : Z) : Z := clamp 0 u64_max (a + b).
Definition u64_saturating_sub (a b : Z) : Z := clamp 0 u64_max (a - b).
Definition i32_saturating_add (a b : Z) : Z := clamp i32_min i32_max (a + b).
Definition i64_saturating_add (a b : Z) : Z := clamp i64_min i64_max (a + b).
Definition i64_saturating_sub (a b : Z) : Z := clamp i64_min i64_max (a - b).

(** [checked_add] and [checked_mul] on [usize]: [None] past the width. *)
Definition usize_checked_add (a b : Z) : option Z :=
  if a + b <=? usize_max then Some (a + b) else None.
Definition usize_checked_mul (a b : Z) : option Z :=
  if a * b <=? usize_max then Some (a * b) else None.
Definition usize_checked_sub (a b : Z) : option Z :=
  if b <=? a then Some (a - b) else None.

(** The unfolding tactic for goals about bounded integers. *)
Ltac unfold_ints :=
  unfold u32_saturating_add, u64_saturating_add, u64_saturating_sub,
    i32_saturating_add, i64_saturating_add, i64_saturating_sub,
    usize_checked_add, usize_checked_mul, usize_checked_sub, clamp,
    in_u8, in_u16, in_u32, in_u64, in_i32, in_i64, usize_max,
    u32_max, u64_max, i32_min, i32_max, i64_min, i64_max in *.
Ltac zints := unfold_ints; lia.

(** Case analysis on the boolean comparisons a definition branches on. *)
Ltac zcases :=
  repeat match goal with
  | |- context [?a <=? ?b] => destruct (Z.leb_spec a b)
  | |- context [?a <? ?b] => destruct (Z.ltb_spec a b)
  | |- context [?a =? ?b] => destruct (Z.eqb_spec a b)
  | H : context [?a <=? ?b] |- _ => destruct (Z.leb_spec a b)
  | H : context [?a <? ?b] |- _ => destruct (Z.ltb_spec a b)
  | H : context [?a =? ?b] |- _ => destruct (Z.eqb_spec a b)
  end; simpl in *.

Section saturating.
Lemma clamp_range lo hi x : lo <= hi -> lo <= clamp lo hi x <= hi.
Proof. unfold clamp. lia. Qed.

Lemma clamp_id lo hi x : lo <= x <= hi -> clamp lo hi x = x.
Proof. unfold clamp. lia. Qed.

Lemma u32_saturating_add_range a b : in_u32 (u32_saturating_add a b).
Proof. zints. Qed.

Lemma u32_saturating_add_exact a b :
    in_u32 (a + b) -> u32_saturating_add a b = a + b.
Proof. zints. Qed.

Lemma u32_saturating_add_mono a b : in_u32 a -> 0 <= b -> a <= u32_saturating_add a b.
Proof. zints. Qed.

Lemma u64_saturating_sub_le a b :
    0 <= b -> in_u64 a -> 0 <= u64_saturating_sub a b <= a.
Proof. zints. Qed.

Lemma i32_saturating_add_range a b : in_i32 (i32_saturating_add a b).
Proof. zints. Qed.
End saturating.
#[export] Hint Resolve u32_saturating_add_range i32_saturating_add_range : tickdb.
