(* ===== verification/Bytes.v ===== *)
(** Byte slices and little-endian integers: the part of Rust's slices and of
    [from_le_bytes] the wire parsers use.  A slice is a [list byte]; [usize]
    offsets and lengths are [Z].  [index] is [raw[i]] and panics out of range;
    [get], [get_from] and [get_range] are the fallible [slice::get] forms. *)
From S2P Require Import Prelude.
From Stdlib Require Import Strings.Byte.
Local Open Scope Z_scope.

Abbreviation byte := Byte.byte.

#[global] Instance byte_eq_dec : EqDecision byte := Byte.byte_eq_dec.

(** The value of a byte and the byte of a value (reduced modulo 256). *)
Definition byte_val (b : byte) : Z := Z.of_N (Byte.to_N b).
Definition byte_of (z : Z) : byte :=
  match Byte.of_N (Z.to_N (z mod 256)) with
  | Some b => b
  | None => Byte.x00
  end.
Definition bytes_of (l : list Z) : list byte := map byte_of l.

Definition zlen {A} (l : list A) : Z := Z.of_nat (length l).

(** [raw[i]]. *)
Definition index {E A} (raw : list A) (i : Z) : res E A :=
  if i <? 0 then Panic else
  match raw !! Z.to_nat i with
  | Some b => Ok b
  | None => Panic
  end.

(** [raw.get(i)], [raw.get(i..)], [raw.get(i..j)]. *)
Definition get {A} (raw : list A) (i : Z) : option A :=
  if i <? 0 then None else raw !! Z.to_nat i.
Definition get_from {A} (raw : list A) (i : Z) : option (list A) :=
  if (0 <=? i) && (i <=? zlen raw) then Some (drop (Z.to_nat i) raw) else None.
Definition get_range {A} (raw : list A) (i j : Z) : option (list A) :=
  if (0 <=? i) && (i <=? j) && (j <=? zlen raw)
  then Some (take (Z.to_nat (j - i)) (drop (Z.to_nat i) raw)) else None.

(** [uN::from_le_bytes] and its inverse [to_le_bytes]. *)
Fixpoint le_decode (bs : list byte) : Z :=
  match bs with
  | [] => 0
  | b :: t => byte_val b + 256 * le_decode t
  end.

Fixpoint le_encode (n : nat) (z : Z) : list byte :=
  match n with
  | O => []
  | S m => byte_of z :: le_encode m (z / 256)
  end.

(** Two's complement reading of an unsigned [w]-bit value. *)
Definition to_signed (w x : Z) : Z := if x <? 2 ^ (w - 1) then x else x - 2 ^ w.

(** The [n]-byte little-endian field at [off]: the wire-format reading of a
    packet, with no bounds check. *)
Definition le_field (raw : list byte) (off : Z) (n : nat) : Z :=
  le_decode (take n (drop (Z.to_nat off) raw)).

Lemma byte_val_range b : in_u8 (byte_val b).
Proof. unfold byte_val, in_u8. destruct b; vm_compute; intuition discriminate. Qed.

Lemma byte_val_of z : byte_val (byte_of z) = z mod 256.
Proof.
  unfold byte_val, byte_of.
  pose proof (Z.mod_pos_bound z 256 ltac:(lia)) as Hz.
  destruct (Byte.of_N (Z.to_N (z mod 256))) eqn:E.
  - apply Byte.to_of_N in E. rewrite E. lia.
  - apply Byte.of_N_None_iff in E. lia.
Qed.

Lemma byte_of_val b : byte_of (byte_val b) = b.
Proof.
  unfold byte_of. rewrite Z.mod_small by apply byte_val_range.
  unfold byte_val. rewrite N2Z.id, Byte.of_to_N. reflexivity.
Qed.

Lemma zlen_nonneg {A} (l : list A) : 0 <= zlen l.
Proof. unfold zlen. lia. Qed.

Lemma zlen_nil {A} : zlen (@nil A) = 0.
Proof. reflexivity. Qed.

Lemma zlen_cons {A} (x : A) l : zlen (x :: l) = 1 + zlen l.
Proof. unfold zlen. simpl. lia. Qed.

Lemma zlen_app {A} (l k : list A) : zlen (l ++ k) = zlen l + zlen k.
Proof. unfold zlen. rewrite length_app. lia. Qed.

Lemma zlen_drop {A} n (l : list A) : 0 <= n <= zlen l -> zlen (drop (Z.to_nat n) l) = zlen l - n.
Proof. unfold zlen. rewrite length_drop. lia. Qed.

Lemma zlen_take {A} n (l : list A) : 0 <= n <= zlen l -> zlen (take (Z.to_nat n) l) = n.
Proof. unfold zlen. rewrite length_take. lia. Qed.

Lemma length_le_encode n z : length (le_encode n z) = n.
Proof. revert z. induction n; simpl; auto. Qed.

Lemma zlen_le_encode n z : zlen (le_encode n z) = Z.of_nat n.
Proof. unfold zlen. by rewrite length_le_encode. Qed.

Lemma zlen_zero {A} (l : list A) : zlen l = 0 -> l = [].
Proof. destruct l; [done|]. rewrite zlen_cons. pose proof (zlen_nonneg l). lia. Qed.

(** ** Little-endian round trips *)

Lemma le_decode_range bs : 0 <= le_decode bs < 256 ^ Z.of_nat (length bs).
Proof.
  induction bs as [|b bs IH]; [simpl; lia|]. cbn [le_decode length].
  pose proof (byte_val_range b) as Hb. unfold in_u8 in Hb.
  rewrite Nat2Z.inj_succ, Z.pow_succ_r by lia. lia.
Qed.

Lemma le_decode_encode n z : le_decode (le_encode n z) = z mod 256 ^ Z.of_nat n.
Proof.
  revert z. induction n as [|n IH]; intros z; [by rewrite Z.mod_1_r|].
  cbn [le_encode le_decode]. rewrite IH, byte_val_of, Nat2Z.inj_succ, Z.pow_succ_r by lia.
  rewrite (Z.rem_mul_r z 256); lia.
Qed.

Lemma le_encode_decode bs : le_encode (length bs) (le_decode bs) = bs.
Proof.
  induction bs as [|b bs IH]; [reflexivity|]. cbn [length le_encode le_decode].
  pose proof (byte_val_range b) as Hb. unfold in_u8 in Hb.
  replace (byte_val b + 256 * le_decode bs) with (byte_val b + le_decode bs * 256) by lia.
  f_equal.
  - transitivity (byte_of (byte_val b)); [|apply byte_of_val].
    unfold byte_of. rewrite Z.mod_add by lia. done.
  - rewrite Z.div_add, Z.div_small, Z.add_0_l by lia. done.
Qed.

Lemma le_decode_inj a b : length a = length b -> le_decode a = le_decode b -> a = b.
Proof.
  intros Hl He. rewrite <- (le_encode_decode a), <- (le_encode_decode b). congruence.
Qed.

Lemma to_signed_range w x : 0 < w -> 0 <= x < 2 ^ w -> - 2 ^ (w - 1) <= to_signed w x < 2 ^ (w - 1).
Proof.
  intros Hw Hx. assert (2 ^ w = 2 * 2 ^ (w - 1)) by (rewrite <- Z.pow_succ_r; f_equal; lia).
  unfold to_signed. zcases; lia.
Qed.

(** ** Fields of a concatenation *)

Lemma le_field_range raw off n :
  0 <= off -> off + Z.of_nat n <= zlen raw -> 0 <= le_field raw off n < 256 ^ Z.of_nat n.
Proof.
  intros Ho Hn. unfold le_field, zlen in *.
  pose proof (le_decode_range (take n (drop (Z.to_nat off) raw))) as H.
  rewrite length_take, length_drop, Nat.min_l in H by lia. exact H.
Qed.

Lemma le_field_skip l r off n :
  zlen l <= off -> le_field (l ++ r) off n = le_field r (off - zlen l) n.
Proof.
  intros H. unfold le_field, zlen in *. rewrite drop_app_ge by lia.
  do 3 f_equal. lia.
Qed.

Lemma le_field_here n z r m :
  m = n -> le_field (le_encode n z ++ r) 0 m = z mod 256 ^ Z.of_nat n.
Proof.
  intros ->. unfold le_field. change (Z.to_nat 0) with 0%nat. rewrite drop_0.
  rewrite take_app_length' by (by rewrite length_le_encode). apply le_decode_encode.
Qed.

Lemma le_field_drop raw k off n :
  0 <= k -> 0 <= off -> le_field (drop (Z.to_nat k) raw) off n = le_field raw (k + off) n.
Proof.
  intros. unfold le_field. rewrite drop_drop. do 3 f_equal. lia.
Qed.

Lemma le_field_take raw k off n :
  0 <= off -> off + Z.of_nat n <= k -> le_field (take (Z.to_nat k) raw) off n = le_field raw off n.
Proof.
  intros. unfold le_field. rewrite !take_drop_commute, take_take, Nat.min_l by lia. done.
Qed.

(** ** Reads in bounds *)

Lemma index_ok {E A} (raw : list A) i :
  0 <= i < zlen raw -> exists b, raw !! Z.to_nat i = Some b /\ index (E:=E) raw i = Ok b.
Proof.
  intros H. unfold index, zlen in *. zcases; [lia|].
  destruct (lookup_lt_is_Some_2 raw (Z.to_nat i)) as [b Hb]; [lia|].
  rewrite Hb. eauto.
Qed.

Lemma index_panic {E A} (raw : list A) i : zlen raw <= i -> index (E:=E) raw i = Panic.
Proof.
  intros H. unfold index, zlen in *. zcases; [done|]. by rewrite lookup_ge_None_2 by lia.
Qed.

Lemma get_range_some {A} (raw : list A) i j :
  0 <= i <= j -> j <= zlen raw ->
  get_range raw i j = Some (take (Z.to_nat (j - i)) (drop (Z.to_nat i) raw)).
Proof. intros. unfold get_range. zcases; try lia. done. Qed.

Lemma get_from_some {A} (raw : list A) i :
  0 <= i <= zlen raw -> get_from raw i = Some (drop (Z.to_nat i) raw).
Proof. intros. unfold get_from. zcases; try lia. done. Qed.

Lemma take_lookup_cons {A} (raw : list A) k n b :
  raw !! k = Some b -> take (S n) (drop k raw) = b :: take n (drop (S k) raw).
Proof. intros H. by rewrite (drop_S _ _ _ H). Qed.

(** ** [struct.pack]

    The vendor documents each packet as a Python [struct] format: a list of
    field widths, packed little-endian with no padding. *)

Definition pack (fmt : list nat) (vals : list Z) : list byte :=
  concat (zip_with le_encode fmt vals).

Definition pack_ok (fmt : list nat) (vals : list Z) : Prop :=
  Forall2 (fun n v => 0 <= v < 256 ^ Z.of_nat n) fmt vals.

Definition fmt_size (fmt : list nat) : Z := Z.of_nat (sum_list fmt).

#[global] Instance pack_ok_dec fmt vals : Decision (pack_ok fmt vals).
Proof. unfold pack_ok. apply _. Defined.

Lemma zlen_pack fmt vals : pack_ok fmt vals -> zlen (pack fmt vals) = fmt_size fmt.
Proof.
  unfold fmt_size, pack. induction 1 as [|n v fmt vals _ _ IH]; [done|].
  cbn [zip_with concat]. rewrite zlen_app, zlen_le_encode, IH. simpl. lia.
Qed.

Lemma le_field_pack fmt vals r k off n :
  pack_ok fmt vals -> fmt !! k = Some n -> fmt_size (take k fmt) = off ->
  le_field (pack fmt vals ++ r) off n = nth k vals 0.
Proof.
  intros H. revert k off. unfold fmt_size, pack. induction H as [|m v fmt vals Hv _ IH]; [done|].
  intros [|k] off Hk Hoff; cbn [zip_with concat] in *; rewrite <- app_assoc.
  - simplify_eq/=. rewrite le_field_here by done. apply Z.mod_small. done.
  - simpl in Hk, Hoff. rewrite le_field_skip by (rewrite zlen_le_encode; lia).
    rewrite zlen_le_encode. apply (IH k); [done|lia].
Qed.
