(* ===== verification/Float.v ===== *)
(** IEEE 754 binary32 and binary64, as Rust's [f32] and [f64] compute them: the
    executable specification of the Standard Library ([SpecFloat]) at the two
    precisions, with round-to-nearest-even.  A NaN has no payload here; no
    modelled code reads one. *)
From S2P Require Import Prelude Bytes.
From Stdlib Require Export SpecFloat.
Local Open Scope Z_scope.

Abbreviation f32 := spec_float.
Abbreviation f64 := spec_float.

#[global] Instance spec_float_eq_dec : EqDecision spec_float.
Proof. solve_decision. Defined.

(** The two formats: mantissa and exponent widths of the interchange layout. *)
Definition prec32 : Z := 24.
Definition emax32 : Z := 128.
Definition prec64 : Z := 53.
Definition emax64 : Z := 1024.

(** [from_bits] at [mw] explicit mantissa bits and [ew] exponent bits: the
    decoding of sign, biased exponent and mantissa fields. *)
Definition sf_of_bits (mw ew bits : Z) : spec_float :=
  let s := 1 <=? (bits / 2 ^ (mw + ew)) mod 2 in
  let e := (bits / 2 ^ mw) mod 2 ^ ew in
  let m := bits mod 2 ^ mw in
  let emin := 3 - 2 ^ (ew - 1) - (mw + 1) in
  if e =? 2 ^ ew - 1 then (if m =? 0 then S754_infinity s else S754_nan)
  else match (if e =? 0 then m else m + 2 ^ mw) with
       | Zpos p => S754_finite s p (if e =? 0 then emin else emin + e - 1)
       | _ => S754_zero s
       end.

Definition f32_of_bits (bits : Z) : f32 := sf_of_bits 23 8 bits.
Definition f64_of_bits (bits : Z) : f64 := sf_of_bits 52 11 bits.

Definition f64_nan : f64 := S754_nan.
Definition f64_zero : f64 := S754_zero false.
Definition f32_zero : f32 := S754_zero false.

Definition is_nan (x : spec_float) : bool :=
  match x with S754_nan => true | _ => false end.
Definition is_infinite (x : spec_float) : bool :=
  match x with S754_infinity _ => true | _ => false end.
Definition is_finite (x : spec_float) : bool :=
  match x with S754_zero _ | S754_finite _ _ _ => true | _ => false end.

Definition f64_add : f64 -> f64 -> f64 := SFadd prec64 emax64.
Definition f64_sub : f64 -> f64 -> f64 := SFsub prec64 emax64.
Definition f64_mul : f64 -> f64 -> f64 := SFmul prec64 emax64.
Definition f64_div : f64 -> f64 -> f64 := SFdiv prec64 emax64.
Definition f64_abs : f64 -> f64 := SFabs.
Definition f64_ltb : f64 -> f64 -> bool := SFltb.
Definition f64_leb : f64 -> f64 -> bool := SFleb.
Definition f64_eqb : f64 -> f64 -> bool := SFeqb.

(** [n as f64] and [f64::from(n)] for an integer [n]: rounded to nearest, exact
    up to 53 bits. *)
Definition f64_of_Z (n : Z) : f64 := binary_normalize prec64 emax64 n 0 false.

(** [f64::from(x)] for [x : f32] (exact). *)
Definition f64_of_f32 (x : f32) : f64 :=
  match x with
  | S754_finite s m e => binary_round prec64 emax64 s m e
  | _ => x
  end.

(** A decimal literal [n / 10^k], correctly rounded. *)
Definition f64_lit (n k : Z) : f64 := f64_div (f64_of_Z n) (f64_of_Z (10 ^ k)).

(** [p.is_finite() && p > 0.0]. *)
Definition positive_price (p : f64) : bool := is_finite p && f64_ltb f64_zero p.

(** * Comparison and finiteness *)

Lemma positive_price_guard p :
  negb (is_finite p) || f64_leb p f64_zero = negb (positive_price p).
Proof. by destruct p as [[]|[]| |[] ? ?]. Qed.

Lemma is_finite_not_nan x : is_finite x = true -> is_nan x = false.
Proof. by destruct x. Qed.

Lemma not_finite_cases x : is_finite x = false -> is_nan x = true \/ is_infinite x = true.
Proof. destruct x; simpl; auto; discriminate. Qed.

Lemma f64_ltb_nan_l y : f64_ltb S754_nan y = false.
Proof. reflexivity. Qed.

Lemma f64_ltb_nan_r x : f64_ltb x S754_nan = false.
Proof. by destruct x as [[]|[]| |[] ? ?]. Qed.

Lemma f64_add_nan_l y : f64_add S754_nan y = S754_nan.
Proof. reflexivity. Qed.

Lemma f64_add_nan_r x : f64_add x S754_nan = S754_nan.
Proof. by destruct x. Qed.

Lemma f64_ltb_leb x y : f64_ltb x y = true -> f64_leb x y = true.
Proof. unfold f64_ltb, f64_leb, SFltb, SFleb. by destruct (SFcompare x y) as [[]|]. Qed.

(** A value is below zero exactly when it carries a minus sign and is not a
    zero or NaN. *)
Lemma f64_ltb_zero x :
  f64_ltb x f64_zero = true <->
  x = S754_infinity true \/ exists m e, x = S754_finite true m e.
Proof.
  destruct x as [[]|[]| |[] m e]; cbn; split; intros H; try discriminate; eauto;
    destruct H as [H|(?&?&H)]; discriminate.
Qed.

Lemma f64_abs_finite x : is_finite (f64_abs x) = is_finite x.
Proof. by destruct x. Qed.

(** * Bit patterns *)

Section bits.
Context (mw ew : Z) (Hmw : 0 < mw) (Hew : 1 < ew).

(** The exponent field alone decides finiteness. *)
Lemma sf_of_bits_finite bits :
  is_finite (sf_of_bits mw ew bits) = negb ((bits / 2 ^ mw) mod 2 ^ ew =? 2 ^ ew - 1).
Proof.
  unfold sf_of_bits. destruct (_ =? 2 ^ ew - 1); simpl.
  - by destruct (_ =? 0).
  - by destruct (if _ =? 0 then _ else _).
Qed.

Lemma digits2_log2 p : Z.pos (digits2_pos p) = Z.log2 (Z.pos p) + 1.
Proof.
  induction p as [p IH|p IH|]; cbn [digits2_pos]; [| |reflexivity].
  - rewrite Pos2Z.inj_succ, IH, Pos2Z.inj_xI, Z.log2_succ_double by lia. lia.
  - rewrite Pos2Z.inj_succ, IH, Pos2Z.inj_xO, Z.log2_double by lia. lia.
Qed.

(** Every bit pattern decodes to a canonical value of the format. *)
Lemma sf_of_bits_valid bits :
  valid_binary (mw + 1) (2 ^ (ew - 1)) (sf_of_bits mw ew bits) = true.
Proof.
  unfold sf_of_bits.
  set (e := (bits / 2 ^ mw) mod 2 ^ ew). set (m := bits mod 2 ^ mw).
  assert (He : 0 <= e < 2 ^ ew) by (apply Z.mod_pos_bound; lia).
  assert (Hm : 0 <= m < 2 ^ mw) by (apply Z.mod_pos_bound; lia).
  assert (Hp : 2 ^ ew = 2 * 2 ^ (ew - 1)) by (rewrite <- Z.pow_succ_r; f_equal; lia).
  assert (H2 : 2 <= 2 ^ (ew - 1)) by (apply (Z.pow_le_mono_r 2 1 (ew - 1)); lia).
  destruct (Z.eqb_spec e (2 ^ ew - 1)) as [|Hne]; [by destruct (m =? 0)|].
  destruct (Z.eqb_spec e 0) as [He0|He0].
  - destruct m as [|p|p] eqn:Em; [done| |done]. simpl.
    unfold bounded, canonical_mantissa, fexp, SpecFloat.emin. rewrite digits2_log2.
    assert (Z.log2 (Z.pos p) < mw) by (apply Z.log2_lt_pow2; lia).
    apply andb_true_intro; split; [apply Z.eqb_eq|apply Z.leb_le]; lia.
  - destruct (m + 2 ^ mw) as [|p|p] eqn:Em; [done| |done]. simpl.
    unfold bounded, canonical_mantissa, fexp, SpecFloat.emin. rewrite digits2_log2.
    assert (Z.log2 (Z.pos p) = mw) as ->.
    { apply Z.log2_unique; [lia|]. rewrite <- Em, Z.pow_succ_r; lia. }
    apply andb_true_intro; split; [apply Z.eqb_eq|apply Z.leb_le]; lia.
Qed.
End bits.

Example f64_one_bits : f64_of_bits 4607182418800017408 = f64_of_Z 1.
Proof. reflexivity. Qed.
Example f32_hundred_bits : f64_of_f32 (f32_of_bits 1120403456) = f64_of_Z 100.
Proof. reflexivity. Qed.
Example f64_half_paise : f64_lit 5 3 = f64_of_bits 4572414629676717179.
Proof. reflexivity. Qed.

(** * Order

    The comparison is lexicographic on (class, exponent, mantissa), mirrored
    below zero, hence transitive and total away from NaN. *)

Definition order_key (x : spec_float) : Z * Z * Z :=
  match x with
  | S754_nan => (0, 0, 0)
  | S754_zero _ => (0, 0, 0)
  | S754_infinity s => (if s then -2 else 2, 0, 0)
  | S754_finite s m e => if s then (-1, - e, - Zpos m) else (1, e, Zpos m)
  end.

Definition key_le (a b : Z * Z * Z) : Prop :=
  a.1.1 < b.1.1 \/ a.1.1 = b.1.1 /\ (a.1.2 < b.1.2 \/ a.1.2 = b.1.2 /\ a.2 <= b.2).

Lemma f64_leb_key x y :
  f64_leb x y = true <->
  is_nan x = false /\ is_nan y = false /\ key_le (order_key x) (order_key y).
Proof.
  unfold f64_leb, SFleb, key_le.
  destruct x as [[]|[]| |[] m e], y as [[]|[]| |[] m' e']; simpl;
    try change (Pos.compare_cont Eq m m') with (m ?= m')%positive;
    try destruct (Z.compare_spec e e'); try destruct (Pos.compare_spec m m'); simpl;
    split; intros Hxy; try discriminate Hxy; try (repeat split; lia);
    destruct Hxy as (? & ? & ?); first [discriminate|reflexivity|exfalso; lia].
Qed.

Lemma f64_ltb_negb x y : is_nan x = false -> is_nan y = false -> f64_ltb x y = negb (f64_leb y x).
Proof.
  intros Hx Hy. unfold f64_ltb, f64_leb, SFltb, SFleb.
  destruct x as [[]|[]| |[] m e], y as [[]|[]| |[] m' e']; try done; simpl;
    change (Pos.compare_cont Eq m m') with (m ?= m')%positive;
    change (Pos.compare_cont Eq m' m) with (m' ?= m)%positive;
    rewrite (Z.compare_antisym e' e), (Pos.compare_antisym m' m);
    destruct (e' ?= e), (m' ?= m)%positive; done.
Qed.

Lemma f64_ltb_not_nan x y : f64_ltb x y = true -> is_nan x = false /\ is_nan y = false.
Proof. intros H%f64_ltb_leb%f64_leb_key. tauto. Qed.

Lemma f64_leb_refl x : is_nan x = false -> f64_leb x x = true.
Proof. intros H. apply f64_leb_key. unfold key_le. repeat split; auto; lia. Qed.

Lemma f64_leb_trans x y z : f64_leb x y = true -> f64_leb y z = true -> f64_leb x z = true.
Proof. rewrite !f64_leb_key. unfold key_le. intros (?&?&?) (?&?&?). repeat split; auto; lia. Qed.

Lemma f64_leb_total x y : is_nan x = false -> is_nan y = false -> f64_ltb x y = false -> f64_leb y x = true.
Proof. intros Hx Hy. rewrite f64_ltb_negb by done. by intros H%negb_false_iff. Qed.

(** A positive value is ordered strictly: equal in the order means equal. *)
Lemma positive_antisym x y :
  f64_ltb f64_zero x = true -> f64_leb x y = true -> f64_leb y x = true -> x = y.
Proof.
  unfold f64_ltb, f64_leb, SFltb, SFleb.
  destruct x as [[]|[]| |[] m e], y as [[]|[]| |[] m' e']; try done; simpl; intros _;
    change (Pos.compare_cont Eq m m') with (m ?= m')%positive;
    change (Pos.compare_cont Eq m' m) with (m' ?= m)%positive;
    rewrite (Z.compare_antisym e' e), (Pos.compare_antisym m' m);
    destruct (Z.compare_spec e' e), (Pos.compare_spec m' m); by subst.
Qed.

Lemma positive_not_nan x : f64_ltb f64_zero x = true -> is_nan x = false.
Proof. intros H. by apply f64_ltb_not_nan in H as [_ ?]. Qed.

#[export] Hint Resolve f64_ltb_leb f64_leb_refl positive_not_nan : tickdb.
#[export] Hint Extern 1 (f64_leb ?x ?z = true) =>
  match goal with H : f64_leb x ?y = true |- _ => apply (f64_leb_trans x y z H) end : tickdb.
