(* ===== verification/FeedTypes.v ===== *)
(** Wire constants and data types of the Dhan feeds: packet sizes, response
    codes and field offsets ([constants.rs]), ticks and depth levels
    ([tick_types.rs]), parser results ([parser/types.rs]) and disconnect codes
    ([websocket/types.rs]). *)
From S2P Require Import Prelude Bytes Float.
Local Open Scope Z_scope.

(** * Packet sizes, response codes, offsets *)

Definition BINARY_HEADER_SIZE : Z := 8.
Definition TICKER_PACKET_SIZE : Z := 16.
Definition QUOTE_PACKET_SIZE : Z := 50.
Definition FULL_QUOTE_PACKET_SIZE : Z := 162.
Definition PREVIOUS_CLOSE_PACKET_SIZE : Z := 16.
Definition MARKET_STATUS_PACKET_SIZE : Z := 8.
Definition DISCONNECT_PACKET_SIZE : Z := 10.
Definition OI_PACKET_SIZE : Z := 12.

Definition RESPONSE_CODE_INDEX_TICKER : Z := 1.
Definition RESPONSE_CODE_TICKER : Z := 2.
Definition RESPONSE_CODE_MARKET_DEPTH : Z := 3.
Definition RESPONSE_CODE_QUOTE : Z := 4.
Definition RESPONSE_CODE_OI : Z := 5.
Definition RESPONSE_CODE_PREVIOUS_CLOSE : Z := 6.
Definition RESPONSE_CODE_MARKET_STATUS : Z := 7.
Definition RESPONSE_CODE_FULL : Z := 8.
Definition RESPONSE_CODE_DISCONNECT : Z := 50.

Definition HEADER_OFFSET_RESPONSE_CODE : Z := 0.
Definition HEADER_OFFSET_MESSAGE_LENGTH : Z := 1.
Definition HEADER_OFFSET_EXCHANGE_SEGMENT : Z := 3.
Definition HEADER_OFFSET_SECURITY_ID : Z := 4.

Definition TICKER_OFFSET_LTP : Z := 8.
Definition TICKER_OFFSET_LTT : Z := 12.

Definition QUOTE_OFFSET_LTP : Z := 8.
Definition QUOTE_OFFSET_LTQ : Z := 12.
Definition QUOTE_OFFSET_LTT : Z := 14.
Definition QUOTE_OFFSET_ATP : Z := 18.
Definition QUOTE_OFFSET_VOLUME : Z := 22.
Definition QUOTE_OFFSET_TOTAL_SELL_QTY : Z := 26.
Definition QUOTE_OFFSET_TOTAL_BUY_QTY : Z := 30.
Definition QUOTE_OFFSET_OPEN : Z := 34.
Definition QUOTE_OFFSET_CLOSE : Z := 38.
Definition QUOTE_OFFSET_HIGH : Z := 42.
Definition QUOTE_OFFSET_LOW : Z := 46.

Definition FULL_OFFSET_OI : Z := 34.
Definition FULL_OFFSET_OI_DAY_HIGH : Z := 38.
Definition FULL_OFFSET_OI_DAY_LOW : Z := 42.
Definition FULL_OFFSET_OPEN : Z := 46.
Definition FULL_OFFSET_CLOSE : Z := 50.
Definition FULL_OFFSET_HIGH : Z := 54.
Definition FULL_OFFSET_LOW : Z := 58.
Definition FULL_OFFSET_DEPTH_START : Z := 62.

Definition OI_OFFSET_VALUE : Z := 8.
Definition PREV_CLOSE_OFFSET_PRICE : Z := 8.
Definition PREV_CLOSE_OFFSET_OI : Z := 12.
Definition DISCONNECT_OFFSET_CODE : Z := 8.

Definition MARKET_DEPTH_LEVELS : nat := 5.
Definition MARKET_DEPTH_LEVEL_SIZE : Z := 20.
Definition DEPTH_LEVEL_OFFSET_BID_QTY : Z := 0.
Definition DEPTH_LEVEL_OFFSET_ASK_QTY : Z := 4.
Definition DEPTH_LEVEL_OFFSET_BID_ORDERS : Z := 8.
Definition DEPTH_LEVEL_OFFSET_ASK_ORDERS : Z := 10.
Definition DEPTH_LEVEL_OFFSET_BID_PRICE : Z := 12.
Definition DEPTH_LEVEL_OFFSET_ASK_PRICE : Z := 16.

Definition TWENTY_DEPTH_LEVELS : Z := 20.
Definition TWO_HUNDRED_DEPTH_LEVELS : Z := 200.
Definition DEEP_DEPTH_HEADER_SIZE : Z := 12.
Definition DEEP_DEPTH_LEVEL_SIZE : Z := 16.
Definition DEEP_DEPTH_LEVEL_OFFSET_PRICE : Z := 0.
Definition DEEP_DEPTH_LEVEL_OFFSET_QUANTITY : Z := 8.
Definition DEEP_DEPTH_LEVEL_OFFSET_ORDERS : Z := 12.
Definition DEEP_DEPTH_FEED_CODE_BID : Z := 41.
Definition DEEP_DEPTH_FEED_CODE_ASK : Z := 51.
Definition DEEP_DEPTH_HEADER_OFFSET_MSG_LENGTH : Z := 0.
Definition DEEP_DEPTH_HEADER_OFFSET_FEED_CODE : Z := 2.
Definition DEEP_DEPTH_HEADER_OFFSET_EXCHANGE_SEGMENT : Z := 3.
Definition DEEP_DEPTH_HEADER_OFFSET_SECURITY_ID : Z := 4.
Definition DEEP_DEPTH_HEADER_OFFSET_MSG_SEQUENCE : Z := 8.
Definition DEPTH_DISCONNECT_PACKET_SIZE : Z := DEEP_DEPTH_HEADER_SIZE + 2.
Definition DEPTH_DISCONNECT_OFFSET_REASON : Z := DEEP_DEPTH_HEADER_SIZE.

Definition MAX_PACKETS_PER_FRAME : Z := 70000.

(** Every constant above, for [cbn]. *)
Ltac unfold_wire :=
  cbv [BINARY_HEADER_SIZE TICKER_PACKET_SIZE QUOTE_PACKET_SIZE
    FULL_QUOTE_PACKET_SIZE PREVIOUS_CLOSE_PACKET_SIZE MARKET_STATUS_PACKET_SIZE
    DISCONNECT_PACKET_SIZE OI_PACKET_SIZE RESPONSE_CODE_INDEX_TICKER
    RESPONSE_CODE_TICKER RESPONSE_CODE_MARKET_DEPTH RESPONSE_CODE_QUOTE
    RESPONSE_CODE_OI RESPONSE_CODE_PREVIOUS_CLOSE RESPONSE_CODE_MARKET_STATUS
    RESPONSE_CODE_FULL RESPONSE_CODE_DISCONNECT HEADER_OFFSET_RESPONSE_CODE
    HEADER_OFFSET_MESSAGE_LENGTH HEADER_OFFSET_EXCHANGE_SEGMENT
    HEADER_OFFSET_SECURITY_ID TICKER_OFFSET_LTP TICKER_OFFSET_LTT
    QUOTE_OFFSET_LTP QUOTE_OFFSET_LTQ QUOTE_OFFSET_LTT QUOTE_OFFSET_ATP
    QUOTE_OFFSET_VOLUME QUOTE_OFFSET_TOTAL_SELL_QTY QUOTE_OFFSET_TOTAL_BUY_QTY
    QUOTE_OFFSET_OPEN QUOTE_OFFSET_CLOSE QUOTE_OFFSET_HIGH QUOTE_OFFSET_LOW
    FULL_OFFSET_OI FULL_OFFSET_OI_DAY_HIGH FULL_OFFSET_OI_DAY_LOW
    FULL_OFFSET_OPEN FULL_OFFSET_CLOSE FULL_OFFSET_HIGH FULL_OFFSET_LOW
    FULL_OFFSET_DEPTH_START OI_OFFSET_VALUE PREV_CLOSE_OFFSET_PRICE
    PREV_CLOSE_OFFSET_OI DISCONNECT_OFFSET_CODE MARKET_DEPTH_LEVELS
    MARKET_DEPTH_LEVEL_SIZE DEPTH_LEVEL_OFFSET_BID_QTY
    DEPTH_LEVEL_OFFSET_ASK_QTY DEPTH_LEVEL_OFFSET_BID_ORDERS
    DEPTH_LEVEL_OFFSET_ASK_ORDERS DEPTH_LEVEL_OFFSET_BID_PRICE
    DEPTH_LEVEL_OFFSET_ASK_PRICE TWENTY_DEPTH_LEVELS TWO_HUNDRED_DEPTH_LEVELS
    DEEP_DEPTH_HEADER_SIZE DEEP_DEPTH_LEVEL_SIZE DEEP_DEPTH_LEVEL_OFFSET_PRICE
    DEEP_DEPTH_LEVEL_OFFSET_QUANTITY DEEP_DEPTH_LEVEL_OFFSET_ORDERS
    DEEP_DEPTH_FEED_CODE_BID DEEP_DEPTH_FEED_CODE_ASK
    DEEP_DEPTH_HEADER_OFFSET_MSG_LENGTH DEEP_DEPTH_HEADER_OFFSET_FEED_CODE
    DEEP_DEPTH_HEADER_OFFSET_EXCHANGE_SEGMENT
    DEEP_DEPTH_HEADER_OFFSET_SECURITY_ID DEEP_DEPTH_HEADER_OFFSET_MSG_SEQUENCE
    DEPTH_DISCONNECT_PACKET_SIZE DEPTH_DISCONNECT_OFFSET_REASON] in *.

(** * Ticks and depth levels *)

Record ParsedTick : Type := mkTick {
  security_id : Z;
  exchange_segment_code : Z;
  last_traded_price : f32;
  last_trade_quantity : Z;
  exchange_timestamp : Z;
  received_at_nanos : Z;
  average_traded_price : f32;
  volume : Z;
  total_sell_quantity : Z;
  total_buy_quantity : Z;
  day_open : f32;
  day_close : f32;
  day_high : f32;
  day_low : f32;
  open_interest : Z;
  oi_day_high : Z;
  oi_day_low : Z;
  iv : f64;
  delta : f64;
  gamma : f64;
  theta : f64;
  vega : f64 }.

Definition default_tick : ParsedTick := {|
  security_id := 0; exchange_segment_code := 0; last_traded_price := f32_zero;
  last_trade_quantity := 0; exchange_timestamp := 0; received_at_nanos := 0;
  average_traded_price := f32_zero; volume := 0; total_sell_quantity := 0;
  total_buy_quantity := 0; day_open := f32_zero; day_close := f32_zero;
  day_high := f32_zero; day_low := f32_zero; open_interest := 0;
  oi_day_high := 0; oi_day_low := 0; iv := f64_nan; delta := f64_nan;
  gamma := f64_nan; theta := f64_nan; vega := f64_nan |}.

Record MarketDepthLevel : Type := mkLevel {
  bid_quantity : Z;
  ask_quantity : Z;
  bid_orders : Z;
  ask_orders : Z;
  bid_price : f32;
  ask_price : f32 }.

Record DeepDepthLevel : Type := mkDeepLevel {
  price : f64;
  quantity : Z;
  orders : Z }.

Definition default_deep_level : DeepDepthLevel :=
  {| price := f64_zero; quantity := 0; orders := 0 |}.

(** * Disconnect codes *)

Inductive DisconnectCode : Type :=
  | InternalServerError
  | InstrumentsExceedLimit
  | ExceededActiveConnections
  | DataApiSubscriptionRequired
  | AccessTokenExpired
  | AuthenticationFailed
  | AccessTokenInvalid
  | ClientIdInvalid
  | InvalidExpiryDate
  | InvalidDateFormat
  | InvalidSecurityId
  | InvalidRequest
  | Unknown (code : Z).

Definition from_u16 (code : Z) : DisconnectCode :=
  if code =? 800 then InternalServerError
  else if code =? 804 then InstrumentsExceedLimit
  else if code =? 805 then ExceededActiveConnections
  else if code =? 806 then DataApiSubscriptionRequired
  else if code =? 807 then AccessTokenExpired
  else if code =? 808 then AuthenticationFailed
  else if code =? 809 then AccessTokenInvalid
  else if code =? 810 then ClientIdInvalid
  else if code =? 811 then InvalidExpiryDate
  else if code =? 812 then InvalidDateFormat
  else if code =? 813 then InvalidSecurityId
  else if code =? 814 then InvalidRequest
  else Unknown code.

Definition as_u16 (c : DisconnectCode) : Z :=
  match c with
  | InternalServerError => 800
  | InstrumentsExceedLimit => 804
  | ExceededActiveConnections => 805
  | DataApiSubscriptionRequired => 806
  | AccessTokenExpired => 807
  | AuthenticationFailed => 808
  | AccessTokenInvalid => 809
  | ClientIdInvalid => 810
  | InvalidExpiryDate => 811
  | InvalidDateFormat => 812
  | InvalidSecurityId => 813
  | InvalidRequest => 814
  | Unknown code => code
  end.

Definition is_reconnectable (c : DisconnectCode) : bool :=
  match c with
  | InternalServerError | AccessTokenExpired => true
  | InstrumentsExceedLimit | ExceededActiveConnections
  | DataApiSubscriptionRequired | AuthenticationFailed | AccessTokenInvalid
  | ClientIdInvalid | InvalidExpiryDate | InvalidDateFormat
  | InvalidSecurityId | InvalidRequest => false
  | Unknown _ => true
  end.

Definition requires_token_refresh (c : DisconnectCode) : bool :=
  match c with AccessTokenExpired => true | _ => false end.

(** * Parser types *)

Record PacketHeader : Type := mkHeader {
  response_code : Z;
  message_length : Z;
  hdr_exchange_segment_code : Z;
  hdr_security_id : Z }.

Inductive ParsedFrame : Type :=
  | Tick (t : ParsedTick)
  | TickWithDepth (t : ParsedTick) (depth : list MarketDepthLevel)
  | OiUpdate (security_id exchange_segment_code open_interest : Z)
  | PreviousClose (security_id exchange_segment_code : Z)
      (previous_close : f32) (previous_oi : Z)
  | MarketStatus (security_id exchange_segment_code : Z)
  | Disconnect (code : DisconnectCode).

Inductive ParseError : Type :=
  | InsufficientBytes (expected actual : Z)
  | UnknownResponseCode (code : Z)
  | InvalidRowCount (actual max : Z).

(** * Endpoints *)

Inductive DhanEndpointType : Type :=
  | MainFeed
  | Depth20
  | Depth200
  | OrderUpdateFeed.

Inductive FrameClass : Type :=
  | FrameData
  | FrameDisconnect (c : DisconnectCode).

(** ** Disconnect codes round-trip *)

Module DisconnectCodes.
(** A disconnect code's number parses back to it. *)
Theorem as_u16_from_u16 code : as_u16 (from_u16 code) = code.
Proof. unfold from_u16. zcases; simpl; lia. Qed.
End DisconnectCodes.
