(* ===== verification/MainFeed.v ===== *)
(** The main-feed binary parsers ([core/src/parser]): little-endian read
    helpers, the 8-byte header, one parser per packet type, the dispatcher with
    its packet counters, the packet-length table and the walk that looks for a
    stacked disconnect packet.  Every slice index is a checked [index], so that
    "never panics" is a theorem. *)
From S2P Require Import Prelude Bytes Float FeedTypes.
Local Open Scope Z_scope.

(** * Read helpers *)

Definition read_u16_le {E} (raw : list byte) (offset : Z) : res E Z :=
  b0 ← index raw offset;
  b1 ← index raw (offset + 1);
  mret (le_decode [b0; b1]).

Definition read_u32_le {E} (raw : list byte) (offset : Z) : res E Z :=
  b0 ← index raw offset;
  b1 ← index raw (offset + 1);
  b2 ← index raw (offset + 2);
  b3 ← index raw (offset + 3);
  mret (le_decode [b0; b1; b2; b3]).

Definition read_f32_le {E} (raw : list byte) (offset : Z) : res E f32 :=
  b0 ← index raw offset;
  b1 ← index raw (offset + 1);
  b2 ← index raw (offset + 2);
  b3 ← index raw (offset + 3);
  mret (f32_of_bits (le_decode [b0; b1; b2; b3])).

Definition read_i32_le {E} (raw : list byte) (offset : Z) : res E Z :=
  b0 ← index raw offset;
  b1 ← index raw (offset + 1);
  b2 ← index raw (offset + 2);
  b3 ← index raw (offset + 3);
  mret (to_signed 32 (le_decode [b0; b1; b2; b3])).

Definition read_u64_le {E} (raw : list byte) (offset : Z) : res E Z :=
  b0 ← index raw offset;
  b1 ← index raw (offset + 1);
  b2 ← index raw (offset + 2);
  b3 ← index raw (offset + 3);
  b4 ← index raw (offset + 4);
  b5 ← index raw (offset + 5);
  b6 ← index raw (offset + 6);
  b7 ← index raw (offset + 7);
  mret (le_decode [b0; b1; b2; b3; b4; b5; b6; b7]).

Definition read_i64_le {E} (raw : list byte) (offset : Z) : res E Z :=
  v ← read_u64_le raw offset; mret (to_signed 64 v).

Definition read_f64_le {E} (raw : list byte) (offset : Z) : res E f64 :=
  v ← read_u64_le raw offset; mret (f64_of_bits v).

(** * Packet parsers *)

Definition parse_header (raw : list byte) : res ParseError PacketHeader :=
  if zlen raw <? BINARY_HEADER_SIZE
  then Err (InsufficientBytes BINARY_HEADER_SIZE (zlen raw)) else
  code ← index raw HEADER_OFFSET_RESPONSE_CODE;
  len ← read_u16_le raw HEADER_OFFSET_MESSAGE_LENGTH;
  seg ← index raw HEADER_OFFSET_EXCHANGE_SEGMENT;
  sid ← read_u32_le raw HEADER_OFFSET_SECURITY_ID;
  mret {| response_code := byte_val code;
          message_length := len;
          hdr_exchange_segment_code := byte_val seg;
          hdr_security_id := sid |}.

Definition parse_ticker_packet (raw : list byte) (header : PacketHeader)
    (received_at_nanos : Z) : res ParseError ParsedTick :=
  if zlen raw <? TICKER_PACKET_SIZE
  then Err (InsufficientBytes TICKER_PACKET_SIZE (zlen raw)) else
  ltp ← read_f32_le raw TICKER_OFFSET_LTP;
  ltt ← read_u32_le raw TICKER_OFFSET_LTT;
  mret {| security_id := hdr_security_id header;
          exchange_segment_code := hdr_exchange_segment_code header;
          last_traded_price := ltp;
          last_trade_quantity := last_trade_quantity default_tick;
          exchange_timestamp := ltt;
          received_at_nanos := received_at_nanos;
          average_traded_price := average_traded_price default_tick;
          volume := volume default_tick;
          total_sell_quantity := total_sell_quantity default_tick;
          total_buy_quantity := total_buy_quantity default_tick;
          day_open := day_open default_tick;
          day_close := day_close default_tick;
          day_high := day_high default_tick;
          day_low := day_low default_tick;
          open_interest := open_interest default_tick;
          oi_day_high := oi_day_high default_tick;
          oi_day_low := oi_day_low default_tick;
          iv := iv default_tick; delta := delta default_tick;
          gamma := gamma default_tick; theta := theta default_tick;
          vega := vega default_tick |}.

Definition parse_quote_packet (raw : list byte) (header : PacketHeader)
    (received_at_nanos : Z) : res ParseError ParsedTick :=
  if zlen raw <? QUOTE_PACKET_SIZE
  then Err (InsufficientBytes QUOTE_PACKET_SIZE (zlen raw)) else
  ltp ← read_f32_le raw QUOTE_OFFSET_LTP;
  ltq ← read_u16_le raw QUOTE_OFFSET_LTQ;
  ltt ← read_u32_le raw QUOTE_OFFSET_LTT;
  atp ← read_f32_le raw QUOTE_OFFSET_ATP;
  volume_ ← read_u32_le raw QUOTE_OFFSET_VOLUME;
  total_sell_qty ← read_u32_le raw QUOTE_OFFSET_TOTAL_SELL_QTY;
  total_buy_qty ← read_u32_le raw QUOTE_OFFSET_TOTAL_BUY_QTY;
  day_open_ ← read_f32_le raw QUOTE_OFFSET_OPEN;
  day_close_ ← read_f32_le raw QUOTE_OFFSET_CLOSE;
  day_high_ ← read_f32_le raw QUOTE_OFFSET_HIGH;
  day_low_ ← read_f32_le raw QUOTE_OFFSET_LOW;
  mret {| security_id := hdr_security_id header;
          exchange_segment_code := hdr_exchange_segment_code header;
          last_traded_price := ltp;
          last_trade_quantity := ltq;
          exchange_timestamp := ltt;
          received_at_nanos := received_at_nanos;
          average_traded_price := atp;
          volume := volume_;
          total_sell_quantity := total_sell_qty;
          total_buy_quantity := total_buy_qty;
          day_open := day_open_;
          day_close := day_close_;
          day_high := day_high_;
          day_low := day_low_;
          open_interest := open_interest default_tick;
          oi_day_high := oi_day_high default_tick;
          oi_day_low := oi_day_low default_tick;
          iv := iv default_tick; delta := delta default_tick;
          gamma := gamma default_tick; theta := theta default_tick;
          vega := vega default_tick |}.

(** The body of the depth loop of [parse_full_packet]. *)
Definition read_market_depth_level (raw : list byte) (i : nat)
    : res ParseError MarketDepthLevel :=
  let base := FULL_OFFSET_DEPTH_START + Z.of_nat i * MARKET_DEPTH_LEVEL_SIZE in
  bq ← read_u32_le raw (base + DEPTH_LEVEL_OFFSET_BID_QTY);
  aq ← read_u32_le raw (base + DEPTH_LEVEL_OFFSET_ASK_QTY);
  bo ← read_u16_le raw (base + DEPTH_LEVEL_OFFSET_BID_ORDERS);
  ao ← read_u16_le raw (base + DEPTH_LEVEL_OFFSET_ASK_ORDERS);
  bp ← read_f32_le raw (base + DEPTH_LEVEL_OFFSET_BID_PRICE);
  ap ← read_f32_le raw (base + DEPTH_LEVEL_OFFSET_ASK_PRICE);
  mret {| bid_quantity := bq; ask_quantity := aq; bid_orders := bo;
          ask_orders := ao; bid_price := bp; ask_price := ap |}.

(** [iter_mut().enumerate()]: run [f] on each index, in order. *)
Fixpoint for_each {E A} (f : nat -> res E A) (idxs : list nat) : res E (list A) :=
  match idxs with
  | [] => mret []
  | i :: idxs' => x ← f i; xs ← for_each f idxs'; mret (x :: xs)
  end.

Definition parse_full_packet (raw : list byte) (header : PacketHeader)
    (received_at_nanos : Z)
    : res ParseError (ParsedTick * list MarketDepthLevel) :=
  if zlen raw <? FULL_QUOTE_PACKET_SIZE
  then Err (InsufficientBytes FULL_QUOTE_PACKET_SIZE (zlen raw)) else
  ltp ← read_f32_le raw QUOTE_OFFSET_LTP;
  ltq ← read_u16_le raw QUOTE_OFFSET_LTQ;
  ltt ← read_u32_le raw QUOTE_OFFSET_LTT;
  atp ← read_f32_le raw QUOTE_OFFSET_ATP;
  volume_ ← read_u32_le raw QUOTE_OFFSET_VOLUME;
  total_sell_qty ← read_u32_le raw QUOTE_OFFSET_TOTAL_SELL_QTY;
  total_buy_qty ← read_u32_le raw QUOTE_OFFSET_TOTAL_BUY_QTY;
  open_interest_ ← read_u32_le raw FULL_OFFSET_OI;
  oi_day_high_ ← read_u32_le raw FULL_OFFSET_OI_DAY_HIGH;
  oi_day_low_ ← read_u32_le raw FULL_OFFSET_OI_DAY_LOW;
  day_open_ ← read_f32_le raw FULL_OFFSET_OPEN;
  day_close_ ← read_f32_le raw FULL_OFFSET_CLOSE;
  day_high_ ← read_f32_le raw FULL_OFFSET_HIGH;
  day_low_ ← read_f32_le raw FULL_OFFSET_LOW;
  depth ← for_each (read_market_depth_level raw) (seq 0 MARKET_DEPTH_LEVELS);
  mret ({| security_id := hdr_security_id header;
           exchange_segment_code := hdr_exchange_segment_code header;
           last_traded_price := ltp;
           last_trade_quantity := ltq;
           exchange_timestamp := ltt;
           received_at_nanos := received_at_nanos;
           average_traded_price := atp;
           volume := volume_;
           total_sell_quantity := total_sell_qty;
           total_buy_quantity := total_buy_qty;
           day_open := day_open_;
           day_close := day_close_;
           day_high := day_high_;
           day_low := day_low_;
           open_interest := open_interest_;
           oi_day_high := oi_day_high_;
           oi_day_low := oi_day_low_;
           iv := f64_nan; delta := f64_nan; gamma := f64_nan;
           theta := f64_nan; vega := f64_nan |}, depth).

Definition parse_oi_packet (raw : list byte) (header : PacketHeader) : res ParseError Z :=
  if zlen raw <? OI_PACKET_SIZE
  then Err (InsufficientBytes OI_PACKET_SIZE (zlen raw)) else
  read_u32_le raw OI_OFFSET_VALUE.

Record PreviousCloseData : Type := mkPrevClose {
  previous_close : f32;
  previous_oi : Z }.

Definition parse_previous_close_packet (raw : list byte) (header : PacketHeader)
    : res ParseError PreviousCloseData :=
  if zlen raw <? PREVIOUS_CLOSE_PACKET_SIZE
  then Err (InsufficientBytes PREVIOUS_CLOSE_PACKET_SIZE (zlen raw)) else
  prev_close ← read_f32_le raw PREV_CLOSE_OFFSET_PRICE;
  prev_oi ← read_u32_le raw PREV_CLOSE_OFFSET_OI;
  mret {| previous_close := prev_close; previous_oi := prev_oi |}.

Definition validate_market_status_packet (raw : list byte) : res ParseError unit :=
  if zlen raw <? MARKET_STATUS_PACKET_SIZE
  then Err (InsufficientBytes MARKET_STATUS_PACKET_SIZE (zlen raw)) else mret tt.

Definition parse_disconnect_packet (raw : list byte) (header : PacketHeader)
    : res ParseError DisconnectCode :=
  if zlen raw <? DISCONNECT_PACKET_SIZE
  then Err (InsufficientBytes DISCONNECT_PACKET_SIZE (zlen raw)) else
  code ← read_u16_le raw DISCONNECT_OFFSET_CODE;
  mret (from_u16 code).

(** * Dispatcher

    The process-wide metric counters are the state the dispatcher changes:
    a map from (metric name, label) to the count. *)

Abbreviation counters := (gmap (string * string) Z).

Definition increment (name label : string) (n : Z) (m : counters) : counters :=
  <[(name, label) := default 0 (m !! (name, label)) + n]> m.

Definition dispatcher_counter (code : Z) : string :=
  if code =? RESPONSE_CODE_INDEX_TICKER then "index_ticker"
  else if code =? RESPONSE_CODE_TICKER then "ticker"
  else if code =? RESPONSE_CODE_MARKET_DEPTH then "market_depth_v1"
  else if code =? RESPONSE_CODE_QUOTE then "quote"
  else if code =? RESPONSE_CODE_OI then "oi"
  else if code =? RESPONSE_CODE_PREVIOUS_CLOSE then "prev_close"
  else if code =? RESPONSE_CODE_MARKET_STATUS then "market_status"
  else if code =? RESPONSE_CODE_FULL then "full"
  else if code =? RESPONSE_CODE_DISCONNECT then "disconnect"
  else "unknown".

Definition increment_packets (code n : Z) : counters -> counters :=
  increment "tv_packets_by_response_code" (dispatcher_counter code) n.

Definition increment_unknown_response_codes : counters -> counters :=
  increment "tv_unknown_response_codes_total" "" 1.

Definition count_packets_by_response_code (code packets : Z) (m : counters) : counters :=
  if 0 <? packets then increment_packets code packets m else m.

Definition dispatch_parsed_header (raw : list byte) (header : PacketHeader)
    (received_at_nanos : Z) (m : counters) : res ParseError ParsedFrame * counters :=
  let code := response_code header in
  if (code =? RESPONSE_CODE_INDEX_TICKER) || (code =? RESPONSE_CODE_TICKER) then
    (tick ← parse_ticker_packet raw header received_at_nanos; mret (Tick tick), m)
  else if code =? RESPONSE_CODE_QUOTE then
    (tick ← parse_quote_packet raw header received_at_nanos; mret (Tick tick), m)
  else if code =? RESPONSE_CODE_FULL then
    ('(tick, depth) ← parse_full_packet raw header received_at_nanos;
     mret (TickWithDepth tick depth), m)
  else if code =? RESPONSE_CODE_OI then
    (oi ← parse_oi_packet raw header;
     mret (OiUpdate (hdr_security_id header) (hdr_exchange_segment_code header) oi), m)
  else if code =? RESPONSE_CODE_PREVIOUS_CLOSE then
    (data ← parse_previous_close_packet raw header;
     mret (PreviousClose (hdr_security_id header) (hdr_exchange_segment_code header)
             (previous_close data) (previous_oi data)), m)
  else if code =? RESPONSE_CODE_MARKET_STATUS then
    (_ ← validate_market_status_packet raw;
     mret (MarketStatus (hdr_security_id header) (hdr_exchange_segment_code header)), m)
  else if code =? RESPONSE_CODE_DISCONNECT then
    (c ← parse_disconnect_packet raw header; mret (Disconnect c), m)
  else (Err (UnknownResponseCode code), increment_unknown_response_codes m).

Definition dispatch_frame (raw : list byte) (received_at_nanos : Z) (m : counters)
    : res ParseError ParsedFrame * counters :=
  match parse_header raw with
  | Ok header =>
      dispatch_parsed_header raw header received_at_nanos
        (increment_packets (response_code header) 1 m)
  | Err e => (Err e, m)
  | Panic => (Panic, m)
  end.

Definition dispatch_frame_uncounted (raw : list byte) (received_at_nanos : Z)
    (m : counters) : res ParseError ParsedFrame * counters :=
  match parse_header raw with
  | Ok header => dispatch_parsed_header raw header received_at_nanos m
  | Err e => (Err e, m)
  | Panic => (Panic, m)
  end.

Definition main_feed_packet_len (bytes : list byte) : option Z :=
  code ← byte_val <$> get bytes 0;
  if code =? RESPONSE_CODE_INDEX_TICKER then Some TICKER_PACKET_SIZE
  else if code =? RESPONSE_CODE_TICKER then Some TICKER_PACKET_SIZE
  else if code =? RESPONSE_CODE_QUOTE then Some QUOTE_PACKET_SIZE
  else if code =? RESPONSE_CODE_OI then Some OI_PACKET_SIZE
  else if code =? RESPONSE_CODE_PREVIOUS_CLOSE then Some PREVIOUS_CLOSE_PACKET_SIZE
  else if code =? RESPONSE_CODE_MARKET_STATUS then Some MARKET_STATUS_PACKET_SIZE
  else if code =? RESPONSE_CODE_FULL then Some FULL_QUOTE_PACKET_SIZE
  else if code =? RESPONSE_CODE_DISCONNECT then Some DISCONNECT_PACKET_SIZE
  else None.

(** * The stacked-disconnect walk

    The [while] loop of [stacked_disconnect_reason].  [None] from [walk] is
    fuel exhaustion only; a returned [Some r] is the value the function
    returns (its early [return None]s and [?]s are [Some None]). *)

Definition is_disconnect_code (b : option byte) : bool :=
  match byte_val <$> b with
  | Some c => c =? RESPONSE_CODE_DISCONNECT
  | None => false
  end.

(** The reason field of the packet [rest[..len]]. *)
Definition trailing_reason (rest : list byte) (len : Z) : option Z :=
  start ← usize_checked_sub len 2;
  le_decode <$> get_range rest start len.

Fixpoint walk (fuel : nat) (frame : list byte) (max_packets offset packets : Z)
    (found : option Z) : option (option Z) :=
  match fuel with
  | O => None
  | S fuel' =>
    if offset <? zlen frame then
      let packets := u32_saturating_add packets 1 in
      if max_packets <? packets then Some None else
      match (rest ← get_from frame offset;
             len ← main_feed_packet_len rest;
             end_ ← usize_checked_add offset len;
             if zlen frame <? end_ then None else
             found' ← (match found with
                       | None => if is_disconnect_code (get rest 0)
                                 then Some <$> trailing_reason rest len
                                 else Some found
                       | Some _ => Some found
                       end);
             Some (end_, found')) with
      | Some (end_, found') => walk fuel' frame max_packets end_ packets found'
      | None => Some None
      end
    else Some found
  end.

Definition stacked_disconnect_reason (frame : list byte) (max_packets : Z) : option Z :=
  match walk (S (length frame)) frame max_packets 0 0 None with
  | Some r => r
  | None => None
  end.

(** * Reads in bounds never panic and return the wire field *)

Lemma index_drop {E A} (raw : list A) off k :
  0 <= off -> 0 <= k -> index (E:=E) raw (off + k) = index (drop (Z.to_nat off) raw) k.
Proof.
  intros. unfold index. zcases; try lia.
  rewrite lookup_drop, Z2Nat.inj_add by lia. done.
Qed.

Lemma index_drop0 {E A} (raw : list A) off :
  0 <= off -> index (E:=E) raw off = index (drop (Z.to_nat off) raw) 0.
Proof. intros. rewrite <- index_drop by lia. f_equal. lia. Qed.

(** Solve a fixed-width read: move every index to the window at [off], whose
    first bytes exist by the length hypothesis. *)
Ltac solve_read raw off :=
  unfold le_field; rewrite (index_drop0 raw off), ?(index_drop raw off) by lia;
  match goal with
  | H : off + ?n <= zlen raw |- _ =>
      assert (Hw : n <= zlen (drop (Z.to_nat off) raw)) by (rewrite zlen_drop; lia)
  end;
  generalize dependent (drop (Z.to_nat off) raw); clear;
  intros w Hw;
  repeat match goal with
  | Hw : ?n <= zlen ?w |- _ =>
      is_var w; destruct w as [|? w]; [rewrite zlen_nil in Hw; lia|];
      rewrite zlen_cons in Hw;
      lazymatch goal with
      | H : n <= 1 + zlen w |- _ =>
          apply (Z.sub_le_mono_r _ _ 1) in H; ring_simplify (1 + zlen w - 1) in H;
          let m := eval compute in (n - 1) in change (n - 1) with m in H
      end;
      lazymatch goal with H : 0 <= zlen _ |- _ => clear H | _ => idtac end
  end;
  reflexivity.

Lemma read_u16_le_ok {E} raw off :
  0 <= off -> off + 2 <= zlen raw -> read_u16_le (E:=E) raw off = Ok (le_field raw off 2).
Proof. intros. unfold read_u16_le. solve_read raw off. Qed.

Lemma read_u32_le_ok {E} raw off :
  0 <= off -> off + 4 <= zlen raw -> read_u32_le (E:=E) raw off = Ok (le_field raw off 4).
Proof. intros. unfold read_u32_le. solve_read raw off. Qed.

Lemma read_f32_le_ok {E} raw off :
  0 <= off -> off + 4 <= zlen raw ->
  read_f32_le (E:=E) raw off = Ok (f32_of_bits (le_field raw off 4)).
Proof. intros. unfold read_f32_le. solve_read raw off. Qed.

Lemma read_i32_le_ok {E} raw off :
  0 <= off -> off + 4 <= zlen raw ->
  read_i32_le (E:=E) raw off = Ok (to_signed 32 (le_field raw off 4)).
Proof. intros. unfold read_i32_le. solve_read raw off. Qed.

Lemma read_u64_le_ok {E} raw off :
  0 <= off -> off + 8 <= zlen raw -> read_u64_le (E:=E) raw off = Ok (le_field raw off 8).
Proof. intros. unfold read_u64_le. solve_read raw off. Qed.

Lemma read_f64_le_ok {E} raw off :
  0 <= off -> off + 8 <= zlen raw ->
  read_f64_le (E:=E) raw off = Ok (f64_of_bits (le_field raw off 8)).
Proof. intros. unfold read_f64_le. by rewrite read_u64_le_ok. Qed.

Lemma read_i64_le_ok {E} raw off :
  0 <= off -> off + 8 <= zlen raw ->
  read_i64_le (E:=E) raw off = Ok (to_signed 64 (le_field raw off 8)).
Proof. intros. unfold read_i64_le. by rewrite read_u64_le_ok. Qed.

Lemma index_byte_ok {E} (raw : list byte) off :
  0 <= off -> off + 1 <= zlen raw ->
  exists b, index (E:=E) raw off = Ok b /\ byte_val b = le_field raw off 1.
Proof.
  intros Ho Hn. destruct (index_ok (E:=E) raw off ltac:(lia)) as (b & Hb & Hi).
  exists b. split; [done|]. unfold le_field. rewrite (drop_S _ _ _ Hb). simpl. lia.
Qed.

Create Rewrite HintDb reads.
#[export] Hint Rewrite @read_u16_le_ok @read_u32_le_ok @read_f32_le_ok @read_i32_le_ok
  @read_u64_le_ok @read_f64_le_ok @read_i64_le_ok using lia : reads.

(** * The wire layout

    What each packet means, field by field, at the offsets of the vendor's
    [struct] formats; no bounds checks and none of the parser's constants. *)

Definition u16_at (raw : list byte) (off : Z) : Z := le_field raw off 2.
Definition u32_at (raw : list byte) (off : Z) : Z := le_field raw off 4.
Definition f32_at (raw : list byte) (off : Z) : f32 := f32_of_bits (le_field raw off 4).

(** [<BHBI] *)
Definition header_at (raw : list byte) : PacketHeader :=
  mkHeader (le_field raw 0 1) (u16_at raw 1) (le_field raw 3 1) (u32_at raw 4).

(** A tick with the fields a Ticker packet ([<BHBIfI]) carries. *)
Definition ticker_at (raw : list byte) (t : Z) : ParsedTick :=
  mkTick (u32_at raw 4) (le_field raw 3 1) (f32_at raw 8) 0 (u32_at raw 12) t
    f32_zero 0 0 0 f32_zero f32_zero f32_zero f32_zero 0 0 0
    f64_nan f64_nan f64_nan f64_nan f64_nan.

(** [<BHBIfHIfIIIffff]: open, close, high, low from offset 34. *)
Definition quote_at (raw : list byte) (t : Z) : ParsedTick :=
  mkTick (u32_at raw 4) (le_field raw 3 1) (f32_at raw 8) (u16_at raw 12)
    (u32_at raw 14) t (f32_at raw 18) (u32_at raw 22) (u32_at raw 26)
    (u32_at raw 30) (f32_at raw 34) (f32_at raw 38) (f32_at raw 42)
    (f32_at raw 46) 0 0 0 f64_nan f64_nan f64_nan f64_nan f64_nan.

(** [<IIHHff] at [62 + 20 i]. *)
Definition level_at (raw : list byte) (i : nat) : MarketDepthLevel :=
  let b := 62 + Z.of_nat i * 20 in
  mkLevel (u32_at raw b) (u32_at raw (b + 4)) (u16_at raw (b + 8))
    (u16_at raw (b + 10)) (f32_at raw (b + 12)) (f32_at raw (b + 16)).

(** [<BHBIfHIfIIIIIIffff100s]: OI at 34, OHLC shifted to 46, depth at 62. *)
Definition full_at (raw : list byte) (t : Z) : ParsedTick :=
  mkTick (u32_at raw 4) (le_field raw 3 1) (f32_at raw 8) (u16_at raw 12)
    (u32_at raw 14) t (f32_at raw 18) (u32_at raw 22) (u32_at raw 26)
    (u32_at raw 30) (f32_at raw 46) (f32_at raw 50) (f32_at raw 54)
    (f32_at raw 58) (u32_at raw 34) (u32_at raw 38) (u32_at raw 42)
    f64_nan f64_nan f64_nan f64_nan f64_nan.

(** The size and meaning of a packet, by its response code. *)
Definition frame_at (raw : list byte) (t : Z) : option (Z * ParsedFrame) :=
  let sid := u32_at raw 4 in
  let seg := le_field raw 3 1 in
  match le_field raw 0 1 with
  | 1 | 2 => Some (16, Tick (ticker_at raw t))
  | 4 => Some (50, Tick (quote_at raw t))
  | 5 => Some (12, OiUpdate sid seg (u32_at raw 8))
  | 6 => Some (16, PreviousClose sid seg (f32_at raw 8) (u32_at raw 12))
  | 7 => Some (8, MarketStatus sid seg)
  | 8 => Some (162, TickWithDepth (full_at raw t) (map (level_at raw) (seq 0 5)))
  | 50 => Some (10, Disconnect (from_u16 (u16_at raw 8)))
  | _ => None
  end.

(** * Each parser returns the layout's reading *)

(** Discharge a parser's length guard and run its reads. *)
Ltac run_parser :=
  unfold_wire;
  match goal with
  | |- context [?a <? ?b] => destruct (Z.ltb_spec a b); [lia|]
  end;
  autorewrite with reads; reflexivity.

Section parsers.
Context (raw : list byte) (t : Z).

Lemma parse_header_ok : 8 <= zlen raw -> parse_header raw = Ok (header_at raw).
Proof.
  intros H. unfold parse_header. unfold_wire.
  destruct (Z.ltb_spec (zlen raw) 8); [lia|].
  destruct (index_byte_ok (E:=ParseError) raw 0) as (b0 & -> & E0); [lia|lia|].
  destruct (index_byte_ok (E:=ParseError) raw 3) as (b3 & -> & E3); [lia|lia|].
  autorewrite with reads. cbn. by rewrite E0, E3.
Qed.

Lemma parse_ticker_ok :
  16 <= zlen raw -> parse_ticker_packet raw (header_at raw) t = Ok (ticker_at raw t).
Proof. intros. unfold parse_ticker_packet. run_parser. Qed.

Lemma parse_quote_ok :
  50 <= zlen raw -> parse_quote_packet raw (header_at raw) t = Ok (quote_at raw t).
Proof. intros. unfold parse_quote_packet. run_parser. Qed.

Lemma read_market_depth_level_ok i :
  (i < 5)%nat -> 162 <= zlen raw -> read_market_depth_level raw i = Ok (level_at raw i).
Proof.
  intros. unfold read_market_depth_level. unfold_wire. cbv zeta.
  autorewrite with reads. unfold level_at, u32_at, u16_at, f32_at.
  cbn. by rewrite Z.add_0_r.
Qed.

Lemma for_each_ok {E A} (f : nat -> res E A) g l :
  (forall i, i ∈ l -> f i = Ok (g i)) -> for_each f l = Ok (map g l).
Proof.
  induction l as [|i l IH]; intros H; [done|]. cbn [for_each map].
  rewrite H, IH by (intros; try apply H; set_solver). done.
Qed.

Lemma parse_full_ok :
  162 <= zlen raw ->
  parse_full_packet raw (header_at raw) t = Ok (full_at raw t, map (level_at raw) (seq 0 5)).
Proof.
  intros. unfold parse_full_packet.
  rewrite (for_each_ok _ (level_at raw)).
  - run_parser.
  - intros i Hi. apply read_market_depth_level_ok; [|done].
    unfold MARKET_DEPTH_LEVELS in Hi. apply elem_of_seq in Hi. lia.
Qed.

Lemma parse_oi_ok : 12 <= zlen raw -> parse_oi_packet raw (header_at raw) = Ok (u32_at raw 8).
Proof. intros. unfold parse_oi_packet. run_parser. Qed.

Lemma parse_previous_close_ok :
  16 <= zlen raw ->
  parse_previous_close_packet raw (header_at raw) = Ok (mkPrevClose (f32_at raw 8) (u32_at raw 12)).
Proof. intros. unfold parse_previous_close_packet. run_parser. Qed.

Lemma parse_disconnect_ok :
  10 <= zlen raw ->
  parse_disconnect_packet raw (header_at raw) = Ok (from_u16 (u16_at raw 8)).
Proof. intros. unfold parse_disconnect_packet. run_parser. Qed.
End parsers.

(** * The dispatcher *)

(** The response codes the table knows, and the case analysis on them. *)
Definition known_code (c : Z) : bool := bool_decide (c ∈ [1; 2; 4; 5; 6; 7; 8; 50]).

Lemma frame_at_unknown raw t :
  known_code (le_field raw 0 1) = false -> frame_at raw t = None.
Proof.
  unfold known_code, frame_at. intros H%bool_decide_eq_false.
  destruct (le_field raw 0 1) as [|p|p]; [done| |done].
  do 6 (destruct p as [p|p|]; try done; try (exfalso; apply H; rewrite !elem_of_cons; tauto)).
Qed.

Lemma known_code_cases c :
  known_code c = true -> c = 1 \/ c = 2 \/ c = 4 \/ c = 5 \/ c = 6 \/ c = 7 \/ c = 8 \/ c = 50.
Proof. unfold known_code. intros H%bool_decide_eq_true. rewrite !elem_of_cons, elem_of_nil in H. tauto. Qed.

Definition frame_result (raw : list byte) (t : Z) : res ParseError ParsedFrame :=
  if zlen raw <? 8 then Err (InsufficientBytes 8 (zlen raw))
  else match frame_at raw t with
       | None => Err (UnknownResponseCode (le_field raw 0 1))
       | Some (n, f) => if zlen raw <? n then Err (InsufficientBytes n (zlen raw)) else Ok f
       end.

Lemma dispatch_parsed_header_spec raw t m :
  8 <= zlen raw ->
  dispatch_parsed_header raw (header_at raw) t m =
  (frame_result raw t,
   if known_code (le_field raw 0 1) then m else increment_unknown_response_codes m).
Proof.
  intros H. unfold dispatch_parsed_header, frame_result.
  destruct (Z.ltb_spec (zlen raw) 8); [lia|].
  cbn [header_at response_code]. unfold_wire.
  destruct (known_code (le_field raw 0 1)) eqn:Hk.
  - apply known_code_cases in Hk. unfold frame_at.
    destruct Hk as [E|[E|[E|[E|[E|[E|[E|E]]]]]]]; rewrite E; cbn [Z.eqb Pos.eqb orb];
      match goal with |- context [zlen raw <? ?n] => destruct (Z.ltb_spec (zlen raw) n) end;
      rewrite ?parse_ticker_ok, ?parse_quote_ok, ?parse_full_ok, ?parse_oi_ok,
        ?parse_previous_close_ok, ?parse_disconnect_ok by lia; try reflexivity;
      unfold parse_ticker_packet, parse_quote_packet, parse_full_packet, parse_oi_packet,
        parse_previous_close_packet, validate_market_status_packet, parse_disconnect_packet;
      unfold_wire; zcases; try lia; reflexivity.
  - rewrite (frame_at_unknown raw t Hk).
    assert (Hn : forall c, c ∈ [1; 2; 4; 5; 6; 7; 8; 50] -> (le_field raw 0 1 =? c) = false).
    { intros c Hc. apply Z.eqb_neq. intros <-.
      unfold known_code in Hk. apply bool_decide_eq_false in Hk. done. }
    rewrite !Hn by (rewrite !elem_of_cons; tauto). reflexivity.
Qed.

Lemma dispatch_frame_result raw t m : fst (dispatch_frame raw t m) = frame_result raw t.
Proof.
  unfold dispatch_frame. destruct (Z.ltb_spec (zlen raw) 8).
  - unfold parse_header, frame_result. unfold_wire. destruct (Z.ltb_spec (zlen raw) 8); [done|lia].
  - rewrite parse_header_ok, dispatch_parsed_header_spec by lia. done.
Qed.

(** C30: Dispatching any frame gives exactly the result the wire format
    prescribes: the error of the first failing check or the parsed packet with
    every field at its documented offset; it never panics. *)
Theorem dispatch_frame_spec raw t m : fst (dispatch_frame raw t m) = frame_result raw t.
Proof. apply dispatch_frame_result. Qed.

(** No frame makes the dispatcher panic. *)
Theorem dispatch_never_panics raw t m : is_Panic (fst (dispatch_frame raw t m)) = false.
Proof.
  unfold dispatch_frame. destruct (Z.ltb_spec (zlen raw) 8).
  - unfold parse_header. unfold_wire. destruct (Z.ltb_spec (zlen raw) 8); [done|lia].
  - rewrite parse_header_ok, dispatch_parsed_header_spec by lia. unfold frame_result. simpl.
    zcases; try lia. destruct (frame_at raw t) as [[n f]|]; [|done]. by destruct (zlen raw <? n).
Qed.

(** ** The packet-length table agrees with the dispatcher *)

Lemma le_field_hd bytes : 1 <= zlen bytes -> byte_val <$> get bytes 0 = Some (le_field bytes 0 1).
Proof.
  intros H. destruct bytes as [|b r]; [rewrite zlen_nil in H; lia|].
  unfold get, le_field. simpl. f_equal. lia.
Qed.

Lemma main_feed_packet_len_spec bytes t :
  1 <= zlen bytes -> main_feed_packet_len bytes = fst <$> frame_at bytes t.
Proof.
  intros H. unfold main_feed_packet_len. rewrite le_field_hd by done. simpl. unfold_wire.
  destruct (known_code (le_field bytes 0 1)) eqn:Hk.
  - apply known_code_cases in Hk. unfold frame_at.
    destruct Hk as [E|[E|[E|[E|[E|[E|[E|E]]]]]]]; rewrite E; reflexivity.
  - rewrite (frame_at_unknown bytes t Hk).
    unfold known_code in Hk. apply bool_decide_eq_false in Hk.
    rewrite !elem_of_cons, elem_of_nil in Hk. zcases; try tauto.
Qed.

(** A packet of the length the packet table gives its code is dispatched
    without error. *)
Theorem sized_packet_dispatches bytes n t m :
  main_feed_packet_len bytes = Some n -> n <= zlen bytes ->
  8 <= n /\ is_Ok (fst (dispatch_frame bytes t m)).
Proof.
  intros Hlen Hn.
  assert (H1 : 1 <= zlen bytes).
  { destruct bytes as [|b r]; [done|]. rewrite zlen_cons. pose proof (zlen_nonneg r). lia. }
  rewrite (main_feed_packet_len_spec bytes t H1) in Hlen.
  rewrite dispatch_frame_result. unfold frame_result.
  destruct (frame_at bytes t) as [[n' f]|] eqn:Ef; [|done]. simplify_eq/=.
  assert (8 <= n) by (unfold frame_at in Ef; repeat case_match; simplify_eq; lia).
  split; [done|]. destruct (Z.ltb_spec (zlen bytes) 8); [lia|].
  destruct (Z.ltb_spec (zlen bytes) n); [lia|]. by eexists.
Qed.

(** ** Counting packets one by one or in batches *)

Lemma increment_add name label a b m :
  increment name label b (increment name label a m) = increment name label (a + b) m.
Proof.
  unfold increment. rewrite lookup_insert_eq. simpl.
  rewrite insert_insert_eq. f_equal. lia.
Qed.

Lemma increment_comm n1 l1 a n2 l2 b m :
  increment n1 l1 a (increment n2 l2 b m) = increment n2 l2 b (increment n1 l1 a m).
Proof.
  destruct (decide ((n1, l1) = (n2, l2))) as [E|Hne].
  - injection E as -> ->. rewrite !increment_add. f_equal. lia.
  - unfold increment. rewrite !lookup_insert_ne by congruence.
    apply insert_insert_ne. congruence.
Qed.

(** The dispatcher's result does not read the counters, and every increment
    commutes with the ones it makes. *)
Lemma dispatch_parsed_header_increment raw header t name label n m :
  dispatch_parsed_header raw header t (increment name label n m) =
  (fst (dispatch_parsed_header raw header t m),
   increment name label n (snd (dispatch_parsed_header raw header t m))).
Proof.
  unfold dispatch_parsed_header, increment_unknown_response_codes.
  repeat case_match; cbn [fst snd]; try reflexivity.
  by rewrite increment_comm.
Qed.

(** Dispatching a run of packets, with and without the per-packet count. *)
Definition dispatch_all (f : list byte -> Z -> counters -> res ParseError ParsedFrame * counters)
    (ps : list (list byte)) (t : Z) (m : counters)
    : list (res ParseError ParsedFrame) * counters :=
  foldl (fun acc p => let '(r, m') := f p t (snd acc) in (fst acc ++ [r], m')) ([], m) ps.

Lemma dispatch_frame_counts raw t m :
  8 <= zlen raw ->
  dispatch_frame raw t m =
  (fst (dispatch_frame_uncounted raw t m),
   increment_packets (le_field raw 0 1) 1 (snd (dispatch_frame_uncounted raw t m))).
Proof.
  intros H. unfold dispatch_frame, dispatch_frame_uncounted.
  rewrite parse_header_ok by done. unfold increment_packets.
  rewrite dispatch_parsed_header_increment. reflexivity.
Qed.

Lemma uncounted_increment raw t name label n m :
  8 <= zlen raw ->
  dispatch_frame_uncounted raw t (increment name label n m) =
  (fst (dispatch_frame_uncounted raw t m),
   increment name label n (snd (dispatch_frame_uncounted raw t m))).
Proof.
  intros H. unfold dispatch_frame_uncounted. rewrite parse_header_ok by done.
  apply dispatch_parsed_header_increment.
Qed.

Lemma dispatch_all_snoc f ps p t m :
  dispatch_all f (ps ++ [p]) t m =
  let '(r, m') := f p t (snd (dispatch_all f ps t m)) in (fst (dispatch_all f ps t m) ++ [r], m').
Proof. unfold dispatch_all. by rewrite foldl_app. Qed.

(** Dispatching a run of packets of one response code without counting and
    adding their number once gives the same results and the same counters as
    counting each packet. *)
Theorem batched_count_agrees code ps t m :
  Forall (fun p => 8 <= zlen p /\ le_field p 0 1 = code) ps ->
  dispatch_all dispatch_frame ps t m =
  (fst (dispatch_all dispatch_frame_uncounted ps t m),
   count_packets_by_response_code code (zlen ps)
     (snd (dispatch_all dispatch_frame_uncounted ps t m))).
Proof.
  induction ps as [|p ps IH] using rev_ind; intros H; [reflexivity|].
  apply Forall_app in H as [Hps [[Hlen Hcode] _]%Forall_cons_1].
  rewrite !dispatch_all_snoc, IH by done. cbn [fst snd].
  rewrite dispatch_frame_counts by done.
  destruct (dispatch_all dispatch_frame_uncounted ps t m) as [rs m'] eqn:E. cbn [fst snd].
  assert (Hl : zlen (ps ++ [p]) = zlen ps + 1) by (by rewrite zlen_app).
  unfold count_packets_by_response_code. rewrite Hl.
  pose proof (zlen_nonneg ps). destruct (Z.ltb_spec 0 (zlen ps + 1)); [|lia].
  destruct (Z.ltb_spec 0 (zlen ps)).
  - unfold increment_packets. rewrite uncounted_increment by done. cbn [fst snd].
    destruct (dispatch_frame_uncounted p t m') as [r m2]. cbn [fst snd].
    by rewrite Hcode, increment_add.
  - replace (zlen ps) with 0 by lia. destruct (dispatch_frame_uncounted p t m') as [r m2].
    cbn [fst snd]. by rewrite Hcode.
Qed.

(** * The stacked-disconnect walk finds exactly the stacked disconnects *)

(** A main-feed packet: its bytes are as many as its response code says. *)
Definition is_packet (p : list byte) : Prop := main_feed_packet_len p = Some (zlen p).

(** The reason a packet carries, when it is a disconnect packet. *)
Definition reason_of (p : list byte) : option Z :=
  if is_disconnect_code (get p 0) then Some (le_field p 8 2) else None.

Definition first_reason (ps : list (list byte)) : option Z := head (omap reason_of ps).

Lemma main_feed_packet_len_app p r :
  p <> [] -> main_feed_packet_len (p ++ r) = main_feed_packet_len p.
Proof. destruct p as [|b p]; [done|]. reflexivity. Qed.

Lemma main_feed_packet_len_range bytes n : main_feed_packet_len bytes = Some n -> 8 <= n <= 162.
Proof.
  unfold main_feed_packet_len. destruct (get bytes 0); [|done]. cbn. unfold_wire.
  repeat case_match; intros; simplify_eq; lia.
Qed.

Lemma main_feed_packet_len_disconnect bytes n :
  main_feed_packet_len bytes = Some n -> is_disconnect_code (get bytes 0) = true -> n = 10.
Proof.
  unfold main_feed_packet_len, is_disconnect_code. destruct (get bytes 0); [|done]. cbn.
  unfold_wire. intros H E%Z.eqb_eq. rewrite E in H. cbn in H. by simplify_eq.
Qed.

Lemma is_packet_nonempty p : is_packet p -> 8 <= zlen p.
Proof. intros H. apply main_feed_packet_len_range in H. lia. Qed.

Lemma get_take {A} (l : list A) n : 0 < n -> get (take (Z.to_nat n) l) 0 = get l 0.
Proof. intros. unfold get. simpl. destruct l, (Z.to_nat n) eqn:E; try done; lia. Qed.

(** One iteration of the loop, as a case analysis on the rest of the frame. *)
Lemma walk_step_ok frame offset found len :
  0 <= offset -> zlen frame <= usize_max ->
  main_feed_packet_len (drop (Z.to_nat offset) frame) = Some len ->
  offset + len <= zlen frame ->
  let p := take (Z.to_nat len) (drop (Z.to_nat offset) frame) in
  (rest ← get_from frame offset;
   len ← main_feed_packet_len rest;
   end_ ← usize_checked_add offset len;
   if zlen frame <? end_ then None else
   found' ← (match found with
             | None => if is_disconnect_code (get rest 0)
                       then Some <$> trailing_reason rest len
                       else Some found
             | Some _ => Some found
             end);
   Some (end_, found')) =
  Some (offset + len, match found with Some _ => found | None => reason_of p end).
Proof.
  intros Ho Hu Hlen Hend p. pose proof (main_feed_packet_len_range _ _ Hlen).
  rewrite get_from_some by lia. cbn [mbind option_bind]. rewrite Hlen. cbn [mbind option_bind].
  unfold usize_checked_add. destruct (Z.leb_spec (offset + len) usize_max); [|lia].
  cbn [mbind option_bind]. destruct (Z.ltb_spec (zlen frame) (offset + len)); [lia|].
  destruct found as [f|]; [reflexivity|]. unfold reason_of, p.
  rewrite get_take by lia.
  destruct (is_disconnect_code _) eqn:Hd; [|reflexivity].
  pose proof (main_feed_packet_len_disconnect _ _ Hlen Hd). subst len.
  unfold trailing_reason. change (usize_checked_sub 10 2) with (Some 8). cbn [mbind option_bind].
  rewrite get_range_some by (rewrite ?zlen_drop; lia). simpl.
  do 2 f_equal. symmetry. f_equal. apply (le_field_take _ 10 8 2); lia.
Qed.

Lemma is_packet_take frame len :
  main_feed_packet_len frame = Some len -> len <= zlen frame -> is_packet (take (Z.to_nat len) frame).
Proof.
  intros H Hle. pose proof (main_feed_packet_len_range _ _ H).
  unfold is_packet. rewrite zlen_take by lia.
  rewrite <- H. rewrite <- (take_drop (Z.to_nat len) frame) at 2.
  symmetry. apply main_feed_packet_len_app.
  intros Hnil. apply (f_equal zlen) in Hnil. rewrite zlen_take, zlen_nil in Hnil; lia.
Qed.

Section walk.
Context (frame : list byte) (max_packets : Z).
Context (Hframe : zlen frame <= usize_max) (Hmax : 0 <= max_packets < u32_max).

Lemma walk_terminates fuel offset packets found :
  0 <= offset <= zlen frame -> zlen frame - offset < Z.of_nat fuel ->
  is_Some (walk fuel frame max_packets offset packets found).
Proof using Hframe.
  revert offset packets found. induction fuel as [|fuel IH]; intros offset packets found Ho Hf.
  - cbn [walk]. lia.
  - cbn [walk]. destruct (Z.ltb_spec offset (zlen frame)); [|eauto].
    destruct (max_packets <? _); [eauto|].
    destruct (main_feed_packet_len (drop (Z.to_nat offset) frame)) as [len|] eqn:El.
    + pose proof (main_feed_packet_len_range _ _ El).
      destruct (Z.leb_spec (offset + len) (zlen frame)).
      * rewrite (walk_step_ok _ _ _ len) by (done || lia). apply IH; lia.
      * rewrite get_from_some by lia. cbn [mbind option_bind]. rewrite El. cbn.
        destruct (usize_checked_add offset len) as [e|] eqn:Ee; [|eauto]. cbn.
        unfold usize_checked_add in Ee. destruct (_ <=? usize_max); simplify_eq.
        destruct (Z.ltb_spec (zlen frame) (offset + len)); [eauto|lia].
    + rewrite get_from_some by lia. cbn [mbind option_bind]. rewrite El. cbn. eauto.
Qed.

Lemma walk_complete fuel ps offset packets found :
  0 <= offset <= zlen frame -> drop (Z.to_nat offset) frame = concat ps ->
  Forall is_packet ps -> 0 <= packets -> packets + zlen ps <= max_packets ->
  (length ps < fuel)%nat ->
  walk fuel frame max_packets offset packets found =
  Some (match found with Some _ => found | None => first_reason ps end).
Proof using Hframe Hmax.
  revert fuel offset packets found. induction ps as [|p ps IH];
    intros fuel offset packets found Ho Hd Hps Hp Hn Hf; (destruct fuel as [|fuel]; [simpl in *; lia|]).
  - assert (zlen frame - offset = 0) by (rewrite <- zlen_drop by lia; by rewrite Hd).
    cbn [walk]. destruct (Z.ltb_spec offset (zlen frame)); [lia|]. by destruct found.
  - apply Forall_cons_1 in Hps as [Hpk Hps]. pose proof (is_packet_nonempty p Hpk) as Hz.
    rewrite zlen_cons in Hn. pose proof (zlen_nonneg ps). cbn [concat] in Hd. simpl in Hf.
    assert (Htot : zlen frame - offset = zlen p + zlen (concat ps))
      by (rewrite <- zlen_drop by lia; by rewrite Hd, zlen_app).
    pose proof (zlen_nonneg (concat ps)).
    cbn [walk]. destruct (Z.ltb_spec offset (zlen frame)); [|lia].
    rewrite u32_saturating_add_exact by zints.
    destruct (Z.ltb_spec max_packets (packets + 1)); [lia|].
    assert (Hlen : main_feed_packet_len (drop (Z.to_nat offset) frame) = Some (zlen p)).
    { rewrite Hd, main_feed_packet_len_app; [done|]. intros ->. by rewrite zlen_nil in Hz. }
    rewrite (walk_step_ok _ _ _ (zlen p)) by (done || lia).
    rewrite Hd. replace (Z.to_nat (zlen p)) with (length p) by (unfold zlen; lia).
    rewrite take_app_length. rewrite IH.
    + unfold first_reason. cbn [omap list_omap].
      destruct found; [done|]. by destruct (reason_of p).
    + lia.
    + rewrite Z2Nat.inj_add, <- drop_drop, Hd by lia.
      apply drop_app_length'. unfold zlen; lia.
    + done.
    + lia.
    + lia.
    + lia.
Qed.

Lemma walk_sound fuel offset packets found r :
  0 <= offset <= zlen frame -> 0 <= packets <= max_packets ->
  walk fuel frame max_packets offset packets found = Some (Some r) ->
  exists ps, drop (Z.to_nat offset) frame = concat ps /\ Forall is_packet ps /\
    packets + zlen ps <= max_packets /\
    (match found with Some _ => found | None => first_reason ps end) = Some r.
Proof using Hframe Hmax.
  revert offset packets found. induction fuel as [|fuel IH];
    intros offset packets found Ho Hp Hw; [done|].
  cbn [walk] in Hw. destruct (Z.ltb_spec offset (zlen frame)).
  - rewrite u32_saturating_add_exact in Hw by zints.
    destruct (Z.ltb_spec max_packets (packets + 1)); [done|].
    destruct (main_feed_packet_len (drop (Z.to_nat offset) frame)) as [len|] eqn:El.
    + pose proof (main_feed_packet_len_range _ _ El).
      destruct (Z.leb_spec (offset + len) (zlen frame)).
      * rewrite (walk_step_ok _ _ _ len) in Hw by (done || lia).
        apply IH in Hw as (ps & Hd & Hps & Hn & Hr); [|lia|lia].
        exists (take (Z.to_nat len) (drop (Z.to_nat offset) frame) :: ps).
        split; [|split; [|split]].
        -- cbn [concat]. rewrite <- Hd, Z2Nat.inj_add, <- drop_drop by lia. by rewrite take_drop.
        -- constructor; [|done]. apply is_packet_take; [done|]. rewrite zlen_drop; lia.
        -- rewrite zlen_cons. lia.
        -- unfold first_reason in *. cbn [omap list_omap]. destruct found; [done|].
           by destruct (reason_of _).
      * rewrite get_from_some in Hw by lia. cbn [mbind option_bind] in Hw. rewrite El in Hw. cbn in Hw.
        destruct (usize_checked_add offset len) as [e|] eqn:Ee; [|done]. cbn in Hw.
        unfold usize_checked_add in Ee. destruct (_ <=? usize_max); simplify_eq.
        destruct (Z.ltb_spec (zlen frame) (offset + len)); [done|lia].
    + rewrite get_from_some in Hw by lia. cbn [mbind option_bind] in Hw. by rewrite El in Hw.
  - simplify_eq. exists []. rewrite drop_ge by (unfold zlen in *; lia).
    split; [done|]. split; [done|]. rewrite zlen_nil. split; [lia|done].
Qed.

Lemma stacked_disconnect_reason_spec r :
  stacked_disconnect_reason frame max_packets = Some r <->
  exists ps, frame = concat ps /\ Forall is_packet ps /\ zlen ps <= max_packets /\
    first_reason ps = Some r.
Proof using Hframe Hmax.
  unfold stacked_disconnect_reason. pose proof (zlen_nonneg frame). split.
  - destruct (walk _ _ _ _ _ _) as [o|] eqn:Hw; [|done]. intros ->.
    apply walk_sound in Hw as (ps & Hd & ? & ? & ?); [|lia|lia].
    exists ps. rewrite drop_0 in Hd. naive_solver.
  - intros (ps & Hd & Hps & Hn & Hr).
    rewrite (walk_complete _ ps); [done|lia|by rewrite drop_0|done|lia|lia|].
    enough (length ps <= length frame)%nat by lia. rewrite Hd. clear -Hps.
    induction Hps as [|p ps Hp _ IH]; [done|]. apply is_packet_nonempty in Hp.
    unfold zlen in Hp. cbn [concat length]. rewrite length_app. lia.
Qed.
End walk.

(** * Round trip: packing a packet by the vendor format and dispatching it *)

Definition fmt_header : list nat := [1; 2; 1; 4]%nat.
Definition fmt_quote : list nat := fmt_header ++ [4; 2; 4; 4; 4; 4; 4; 4; 4; 4; 4]%nat.
Definition fmt_level : list nat := [4; 4; 2; 2; 4; 4]%nat.
Definition fmt_full : list nat :=
  fmt_header ++ [4; 2; 4; 4; 4; 4; 4; 4; 4; 4; 4; 4; 4; 4]%nat ++
  fmt_level ++ fmt_level ++ fmt_level ++ fmt_level ++ fmt_level.

(** The tick and the five levels a list of packed values stands for. *)
Definition full_of (v : nat -> Z) (t : Z) : ParsedTick :=
  mkTick (v 3%nat) (v 2%nat) (f32_of_bits (v 4%nat)) (v 5%nat) (v 6%nat) t
    (f32_of_bits (v 7%nat)) (v 8%nat) (v 9%nat) (v 10%nat)
    (f32_of_bits (v 14%nat)) (f32_of_bits (v 15%nat)) (f32_of_bits (v 16%nat))
    (f32_of_bits (v 17%nat)) (v 11%nat) (v 12%nat) (v 13%nat)
    f64_nan f64_nan f64_nan f64_nan f64_nan.

Definition level_of (v : nat -> Z) (i : nat) : MarketDepthLevel :=
  let k := (18 + 6 * i)%nat in
  mkLevel (v k) (v (k + 1)%nat) (v (k + 2)%nat) (v (k + 3)%nat)
    (f32_of_bits (v (k + 4)%nat)) (f32_of_bits (v (k + 5)%nat)).

(** Replace every field read of a packed frame by the packed value. *)
Ltac unpack Hp :=
  repeat match type of Hp with
  | pack_ok ?fmt ?vals =>
    match goal with
    | |- context [le_field (pack fmt vals ++ ?r) ?off ?n] =>
      let rec try_k k l :=
        lazymatch l with
        | _ :: ?l' =>
          first [ rewrite (le_field_pack fmt vals r k off n Hp eq_refl eq_refl)
                | try_k (S k) l' ]
        end in
      let l := eval compute in fmt in try_k 0%nat l
    end
  end.

(** C31: A full packet encoded field by field in the documented layout, with
    anything after it, is dispatched to the tick and the five depth levels it was
    encoded from. *)
Theorem full_packet_roundtrip vals r t m :
  pack_ok fmt_full vals -> nth 0 vals 0 = 8 ->
  fst (dispatch_frame (pack fmt_full vals ++ r) t m) =
  Ok (TickWithDepth (full_of (fun k => nth k vals 0) t)
        (map (level_of (fun k => nth k vals 0)) (seq 0 5))).
Proof.
  intros Hp Hcode. rewrite dispatch_frame_result. unfold frame_result.
  assert (Hl : 162 <= zlen (pack fmt_full vals ++ r)).
  { rewrite zlen_app, (zlen_pack _ _ Hp). pose proof (zlen_nonneg r).
    change (fmt_size fmt_full) with 162. lia. }
  destruct (Z.ltb_spec (zlen (pack fmt_full vals ++ r)) 8); [lia|].
  unfold frame_at. cbv zeta.
  assert (H0 : le_field (pack fmt_full vals ++ r) 0 1 = 8) by (unpack Hp; done).
  rewrite H0. destruct (Z.ltb_spec (zlen (pack fmt_full vals ++ r)) 162); [lia|].
  unfold full_at, u32_at, u16_at, f32_at. f_equal. f_equal.
  - unpack Hp. reflexivity.
  - cbn [seq map]. unfold level_at, level_of, u32_at, u16_at, f32_at.
    cbn [Z.of_nat Z.mul Z.add Pos.mul Pos.add Pos.of_succ_nat Pos.succ Nat.mul Nat.add].
    unpack Hp. reflexivity.
Qed.

(** * Instances *)

(** A full packet of NSE F&O instrument 13: header, tick fields, five levels. *)
Definition sample_full_vals : list Z := [8; 162; 2; 13] ++ map Z.of_nat (seq 1 44).

Lemma full_packet_roundtrip_witness :
  fst (dispatch_frame (pack fmt_full sample_full_vals ++ [Byte.x00]) 7 ∅) =
  Ok (TickWithDepth (full_of (fun k => nth k sample_full_vals 0) 7)
        (map (level_of (fun k => nth k sample_full_vals 0)) (seq 0 5))).
Proof.
  apply full_packet_roundtrip; [|reflexivity].
  apply (bool_decide_unpack _). vm_compute. exact I.
Defined.

Definition sample_ticker : list byte := bytes_of ([2; 16; 0; 2; 13; 0; 0; 0] ++ repeat 0 8).
Definition sample_disconnect : list byte := bytes_of [50; 10; 0; 2; 0; 0; 0; 0; 37; 3].

Lemma batched_count_agrees_witness :
  snd (dispatch_all dispatch_frame [sample_ticker; sample_ticker] 7 ∅) =
  count_packets_by_response_code 2 2 ∅.
Proof.
  rewrite (batched_count_agrees 2 [sample_ticker; sample_ticker] 7 ∅).
  - vm_compute. reflexivity.
  - do 2 (constructor; [split; [vm_compute; discriminate|reflexivity]|]). constructor.
Defined.
