(* ===== verification/DepthFeed.v ===== *)
(** The depth-20 and depth-200 binary parsers ([core/src/parser/depth.rs]): the
    12-byte header, the derived packet length, the level decoder over a
    reusable buffer, the frame splitter (an iterator with a recorded stop
    reason) and the depth side of the stacked-disconnect walk. *)
From S2P Require Import Prelude Bytes Float FeedTypes MainFeed.
Local Open Scope Z_scope.

Inductive DepthFeedKind : Type :=
  | Twenty
  | TwoHundred.

Inductive DepthSide : Type :=
  | Bid
  | Ask.

Definition from_feed_code (code : Z) : option DepthSide :=
  if code =? DEEP_DEPTH_FEED_CODE_BID then Some Bid
  else if code =? DEEP_DEPTH_FEED_CODE_ASK then Some Ask
  else None.

Definition as_feed_code (s : DepthSide) : Z :=
  match s with
  | Bid => DEEP_DEPTH_FEED_CODE_BID
  | Ask => DEEP_DEPTH_FEED_CODE_ASK
  end.

Record DepthPacketHeader : Type := mkDepthHeader {
  dh_message_length : Z;
  dh_response_code : Z;
  dh_exchange_segment_code : Z;
  dh_security_id : Z;
  sequence_or_row_count : Z }.

Definition parse_depth_header (raw : list byte) : res ParseError DepthPacketHeader :=
  if zlen raw <? DEEP_DEPTH_HEADER_SIZE
  then Err (InsufficientBytes DEEP_DEPTH_HEADER_SIZE (zlen raw)) else
  len ← read_u16_le raw DEEP_DEPTH_HEADER_OFFSET_MSG_LENGTH;
  code ← index raw DEEP_DEPTH_HEADER_OFFSET_FEED_CODE;
  seg ← index raw DEEP_DEPTH_HEADER_OFFSET_EXCHANGE_SEGMENT;
  sid ← read_u32_le raw DEEP_DEPTH_HEADER_OFFSET_SECURITY_ID;
  rows ← read_u32_le raw DEEP_DEPTH_HEADER_OFFSET_MSG_SEQUENCE;
  mret {| dh_message_length := len;
          dh_response_code := byte_val code;
          dh_exchange_segment_code := byte_val seg;
          dh_security_id := sid;
          sequence_or_row_count := rows |}.

Definition depth_level_count (header : DepthPacketHeader) (kind : DepthFeedKind)
    : res ParseError Z :=
  match kind with
  | Twenty => Ok TWENTY_DEPTH_LEVELS
  | TwoHundred =>
      let rows := sequence_or_row_count header in
      if TWO_HUNDRED_DEPTH_LEVELS <? rows
      then Err (InvalidRowCount rows TWO_HUNDRED_DEPTH_LEVELS)
      else Ok rows
  end.

Definition depth_packet_len (header : DepthPacketHeader) (kind : DepthFeedKind)
    : res ParseError Z :=
  if dh_response_code header =? RESPONSE_CODE_DISCONNECT
  then Ok DEPTH_DISCONNECT_PACKET_SIZE
  else match from_feed_code (dh_response_code header) with
       | None => Err (UnknownResponseCode (dh_response_code header))
       | Some _ =>
           levels ← depth_level_count header kind;
           ok_or (InvalidRowCount (sequence_or_row_count header) TWO_HUNDRED_DEPTH_LEVELS)
             (body ← usize_checked_mul levels DEEP_DEPTH_LEVEL_SIZE;
              usize_checked_add body DEEP_DEPTH_HEADER_SIZE)
       end.

(** The caller-owned decode buffer, created once and reused. *)
Definition new_level_buffer : list DeepDepthLevel :=
  replicate (Z.to_nat TWO_HUNDRED_DEPTH_LEVELS) default_deep_level.

Inductive DepthPayload : Type :=
  | Levels (side : DepthSide) (levels : list DeepDepthLevel)
  | DepthDisconnect (reason_code : Z).

Record DepthPacket : Type := mkDepthPacket {
  dp_header : DepthPacketHeader;
  dp_payload : DepthPayload }.

Definition parse_depth_level (raw : list byte) (base : Z) : res ParseError DeepDepthLevel :=
  p ← read_f64_le raw (base + DEEP_DEPTH_LEVEL_OFFSET_PRICE);
  q ← read_u32_le raw (base + DEEP_DEPTH_LEVEL_OFFSET_QUANTITY);
  o ← read_u32_le raw (base + DEEP_DEPTH_LEVEL_OFFSET_ORDERS);
  mret {| price := p; quantity := q; orders := o |}.

(** [for (i, slot) in buf.levels.iter_mut().take(count).enumerate()]. *)
Fixpoint fill_levels (raw : list byte) (i : Z) (count : nat) (buf : list DeepDepthLevel)
    : res ParseError (list DeepDepthLevel) :=
  match count, buf with
  | S count', _ :: buf' =>
      l ← parse_depth_level raw (DEEP_DEPTH_HEADER_SIZE + i * DEEP_DEPTH_LEVEL_SIZE);
      ls ← fill_levels raw (i + 1) count' buf';
      mret (l :: ls)
  | _, _ => mret buf
  end.

(** Returns the packet and the buffer as the call leaves it. *)
Definition parse_depth_packet (raw : list byte) (kind : DepthFeedKind)
    (buf : list DeepDepthLevel) : res ParseError (DepthPacket * list DeepDepthLevel) :=
  header ← parse_depth_header raw;
  needed ← depth_packet_len header kind;
  if zlen raw <? needed then Err (InsufficientBytes needed (zlen raw)) else
  if dh_response_code header =? RESPONSE_CODE_DISCONNECT then
    code ← read_u16_le raw DEPTH_DISCONNECT_OFFSET_REASON;
    mret (mkDepthPacket header (DepthDisconnect code), buf)
  else
    side ← ok_or (UnknownResponseCode (dh_response_code header))
             (from_feed_code (dh_response_code header));
    count ← depth_level_count header kind;
    buf' ← fill_levels raw 0 (Z.to_nat count) buf;
    let levels := default [] (get_range buf' 0 count) in
    mret (mkDepthPacket header (Levels side levels), buf').

Definition depth_dispatcher_counter (code : Z) : string :=
  match from_feed_code code with
  | Some Bid => "depth_bid"
  | Some Ask => "depth_ask"
  | None => if code =? RESPONSE_CODE_DISCONNECT then "depth_disconnect" else "depth_unknown"
  end.

Definition dispatch_depth_packet (raw : list byte) (kind : DepthFeedKind)
    (buf : list DeepDepthLevel) (m : counters)
    : res ParseError (DepthPacket * list DeepDepthLevel) * counters :=
  let count_depth code := increment "tv_packets_by_response_code" (depth_dispatcher_counter code) 1 in
  match parse_depth_packet raw kind buf with
  | Ok (packet, buf') =>
      let code := match dp_payload packet with
                  | Levels side _ => as_feed_code side
                  | DepthDisconnect _ => RESPONSE_CODE_DISCONNECT
                  end in
      (Ok (packet, buf'), count_depth code m)
  | Err (UnknownResponseCode code) =>
      (Err (UnknownResponseCode code), increment_unknown_response_codes (count_depth code m))
  | Err e => (Err e, m)
  | Panic => (Panic, m)
  end.

(** * The frame splitter *)

Inductive DepthSplitStop : Type :=
  | Complete
  | TruncatedHeader (remaining : Z)
  | TruncatedBody (expected actual : Z)
  | StopUnknownResponseCode (code : Z)
  | StopInvalidRowCount (rows : Z).

Record DepthFrameIter : Type := mkIter {
  it_raw : list byte;
  it_kind : DepthFeedKind;
  it_offset : Z;
  it_stop : option DepthSplitStop;
  it_mismatches : Z }.

Definition set_stop (it : DepthFrameIter) (s : DepthSplitStop) : DepthFrameIter :=
  mkIter (it_raw it) (it_kind it) (it_offset it) (Some s) (it_mismatches it).

(** [Iterator::next]: the yielded packet, if any, and the iterator after. *)
Definition next (it : DepthFrameIter) : option (list byte) * DepthFrameIter :=
  match it_stop it with
  | Some _ => (None, it)
  | None =>
    match get_from (it_raw it) (it_offset it) with
    | None => (None, set_stop it Complete)
    | Some rest =>
      if zlen rest =? 0 then (None, set_stop it Complete) else
      match parse_depth_header rest with
      | Err _ | Panic => (None, set_stop it (TruncatedHeader (zlen rest)))
      | Ok header =>
        match depth_packet_len header (it_kind it) with
        | Err (UnknownResponseCode code) => (None, set_stop it (StopUnknownResponseCode code))
        | Err _ | Panic =>
            (None, set_stop it (StopInvalidRowCount (sequence_or_row_count header)))
        | Ok needed =>
          if needed =? 0 then
            (None, set_stop it (StopInvalidRowCount (sequence_or_row_count header)))
          else
          let mismatches := if dh_message_length header =? needed then it_mismatches it
                            else u32_saturating_add (it_mismatches it) 1 in
          let it := mkIter (it_raw it) (it_kind it) (it_offset it) (it_stop it) mismatches in
          match get_range rest 0 needed with
          | None => (None, set_stop it (TruncatedBody needed (zlen rest)))
          | Some packet =>
              (Some packet,
               mkIter (it_raw it) (it_kind it)
                 (u64_saturating_add (it_offset it) needed) (it_stop it) (it_mismatches it))
          end
        end
      end
    end
  end.

Definition split_depth_frame (raw : list byte) (kind : DepthFeedKind) : DepthFrameIter :=
  mkIter raw kind 0 None 0.

(** Exhaust an iterator: the packets yielded and the iterator after; [None] is
    fuel exhaustion. *)
Fixpoint collect (fuel : nat) (it : DepthFrameIter) : option (list (list byte) * DepthFrameIter) :=
  match fuel with
  | O => None
  | S fuel' =>
    match next it with
    | (None, it') => Some ([], it')
    | (Some p, it') => '(ps, it'') ← collect fuel' it'; Some (p :: ps, it'')
    end
  end.

(** * The depth side of the stacked-disconnect walk

    [None] is fuel exhaustion; [Some None] is an early [return None]. *)

Definition depth_reason (packet : list byte) : option Z :=
  end_ ← usize_checked_add DEPTH_DISCONNECT_OFFSET_REASON 2;
  le_decode <$> get_range packet DEPTH_DISCONNECT_OFFSET_REASON end_.

Fixpoint depth_walk (fuel : nat) (it : DepthFrameIter) (max_packets packets : Z)
    (found : option Z) : option (option (DepthFrameIter * option Z)) :=
  match fuel with
  | O => None
  | S fuel' =>
    match next it with
    | (None, it') => Some (Some (it', found))
    | (Some packet, it') =>
      let packets := u32_saturating_add packets 1 in
      if max_packets <? packets then Some None else
      match (match found with
             | None => if is_disconnect_code (get packet DEEP_DEPTH_HEADER_OFFSET_FEED_CODE)
                       then Some <$> depth_reason packet
                       else Some found
             | Some _ => Some found
             end) with
      | Some found' => depth_walk fuel' it' max_packets packets found'
      | None => Some None
      end
    end
  end.

Definition stacked_depth_disconnect_reason (frame : list byte) (kind : DepthFeedKind)
    (max_packets : Z) : option Z :=
  match depth_walk (S (length frame)) (split_depth_frame frame kind) max_packets 0 None with
  | Some (Some (it, found)) =>
      match it_stop it with
      | Some Complete => found
      | _ => None
      end
  | _ => None
  end.

(** * Frame classification ([connection.rs]) *)

Definition classify_frame (endpoint : DhanEndpointType) (frame : list byte) : FrameClass :=
  let '(expected_len, code_offset, reason_offset) :=
    match endpoint with
    | Depth20 | Depth200 =>
        (DEEP_DEPTH_HEADER_SIZE + 2, DEEP_DEPTH_HEADER_OFFSET_FEED_CODE, DEEP_DEPTH_HEADER_SIZE)
    | MainFeed | OrderUpdateFeed => (DISCONNECT_PACKET_SIZE, 0, DISCONNECT_PACKET_SIZE - 2)
    end in
  if negb (zlen frame =? expected_len) then
    let stacked :=
      match endpoint with
      | MainFeed => stacked_disconnect_reason frame MAX_PACKETS_PER_FRAME
      | Depth20 => stacked_depth_disconnect_reason frame Twenty MAX_PACKETS_PER_FRAME
      | Depth200 => stacked_depth_disconnect_reason frame TwoHundred MAX_PACKETS_PER_FRAME
      | OrderUpdateFeed => None
      end in
    match stacked with
    | Some reason => FrameDisconnect (from_u16 reason)
    | None => FrameData
    end
  else
    match get frame code_offset with
    | None => FrameData
    | Some code =>
      if negb (byte_val code =? RESPONSE_CODE_DISCONNECT) then FrameData
      else match get_range frame reason_offset (reason_offset + 2) with
           | None => FrameData
           | Some raw => FrameDisconnect (from_u16 (le_decode raw))
           end
    end.

(** * The wire layout of a depth packet *)

Definition depth_header_at (raw : list byte) : DepthPacketHeader :=
  mkDepthHeader (u16_at raw 0) (le_field raw 2 1) (le_field raw 3 1) (u32_at raw 4) (u32_at raw 8).

(** [<dII] at [12 + 16 i]. *)
Definition deep_level_at (raw : list byte) (i : nat) : DeepDepthLevel :=
  let b := 12 + Z.of_nat i * 16 in
  {| price := f64_of_bits (le_field raw b 8); quantity := u32_at raw (b + 8);
     orders := u32_at raw (b + 12) |}.

(** The size the header promises, or why the packet cannot be sized. *)
Definition depth_size (kind : DepthFeedKind) (raw : list byte) : res ParseError Z :=
  if zlen raw <? 12 then Err (InsufficientBytes 12 (zlen raw)) else
  match le_field raw 2 1 with
  | 50 => Ok 14
  | 41 | 51 =>
      match kind with
      | Twenty => Ok 332
      | TwoHundred => if 200 <? u32_at raw 8 then Err (InvalidRowCount (u32_at raw 8) 200)
                      else Ok (12 + 16 * u32_at raw 8)
      end
  | c => Err (UnknownResponseCode c)
  end.

Definition depth_count (kind : DepthFeedKind) (raw : list byte) : nat :=
  match kind with Twenty => 20%nat | TwoHundred => Z.to_nat (u32_at raw 8) end.

Definition depth_side_at (raw : list byte) : DepthSide :=
  if le_field raw 2 1 =? 41 then Bid else Ask.

(** A whole depth packet: exactly as many bytes as its header promises. *)
Definition is_depth_packet (kind : DepthFeedKind) (p : list byte) : Prop :=
  depth_size kind p = Ok (zlen p).

#[global] Instance is_Ok_dec {E A} (r : res E A) : Decision (is_Ok r).
Proof. destruct r; [left; eauto|right; intros [? ?]; congruence..]; by eexists. Defined.

Lemma parse_depth_header_ok raw :
  12 <= zlen raw -> parse_depth_header raw = Ok (depth_header_at raw).
Proof.
  intros H. unfold parse_depth_header. unfold_wire.
  destruct (Z.ltb_spec (zlen raw) 12); [lia|].
  destruct (index_byte_ok (E:=ParseError) raw 2) as (b2 & -> & E2); [lia|lia|].
  destruct (index_byte_ok (E:=ParseError) raw 3) as (b3 & -> & E3); [lia|lia|].
  autorewrite with reads. cbn. by rewrite E2, E3.
Qed.

(** The three response codes the depth parser sizes. *)
Inductive depth_code_view (c : Z) : Prop :=
  | view_disconnect : c = 50 -> depth_code_view c
  | view_bid : c = 41 -> depth_code_view c
  | view_ask : c = 51 -> depth_code_view c
  | view_other : c <> 50 -> c <> 41 -> c <> 51 -> depth_code_view c.

Lemma depth_code_cases c : depth_code_view c.
Proof.
  destruct (decide (c = 50)), (decide (c = 41)), (decide (c = 51));
    [by constructor..|by apply view_other].
Qed.

Lemma depth_size_unknown kind raw :
  12 <= zlen raw -> le_field raw 2 1 <> 50 -> le_field raw 2 1 <> 41 -> le_field raw 2 1 <> 51 ->
  depth_size kind raw = Err (UnknownResponseCode (le_field raw 2 1)).
Proof.
  intros H. unfold depth_size. destruct (Z.ltb_spec (zlen raw) 12); [lia|].
  destruct (le_field raw 2 1) as [|p|p]; try done.
  do 6 (destruct p as [p|p|]; try done).
Qed.

(** The parser's header and size computations return the layout's. *)
Lemma depth_packet_len_ok kind raw :
  12 <= zlen raw ->
  (header ← parse_depth_header raw; depth_packet_len header kind) = depth_size kind raw.
Proof.
  intros H. rewrite parse_depth_header_ok by done. cbn [mbind res_bind].
  unfold depth_packet_len, depth_level_count, from_feed_code, depth_header_at.
  cbn [dh_response_code sequence_or_row_count]. unfold_wire.
  assert (Hr : 0 <= u32_at raw 8) by (apply (le_field_range raw 8 4); lia).
  destruct (depth_code_cases (le_field raw 2 1)) as [E|E|E|E1 E2 E3];
    [..|by rewrite depth_size_unknown, !(proj2 (Z.eqb_neq _ _)) by done];
    unfold depth_size; destruct (Z.ltb_spec (zlen raw) 12); try lia; rewrite E; cbn [Z.eqb Pos.eqb];
    [reflexivity|..]; (destruct kind; [reflexivity|]);
    (destruct (Z.ltb_spec 200 (u32_at raw 8)); [reflexivity|]);
    cbn [mbind res_bind]; unfold usize_checked_mul, usize_checked_add;
    (destruct (Z.leb_spec (u32_at raw 8 * 16) usize_max); [|zints]); cbn [mbind option_bind];
    (destruct (Z.leb_spec (u32_at raw 8 * 16 + 12) usize_max); [|zints]); cbn [ok_or];
    f_equal; lia.
Qed.

Lemma depth_size_range kind raw n :
  depth_size kind raw = Ok n -> 12 <= zlen raw /\ 12 <= n <= 3212.
Proof.
  unfold depth_size. intros H. destruct (Z.ltb_spec (zlen raw) 12); [done|].
  assert (Hr : 0 <= u32_at raw 8) by (apply (le_field_range raw 8 4); lia).
  split; [lia|]. repeat case_match; simplify_eq; zcases; lia.
Qed.

Lemma depth_size_disconnect kind raw n :
  depth_size kind raw = Ok n -> le_field raw 2 1 = 50 -> n = 14.
Proof. unfold depth_size. intros H E. rewrite E in H. by destruct (_ <? _); simplify_eq. Qed.

(** Only the first twelve bytes are read. *)
Lemma depth_fields_app p r off n :
  12 <= zlen p -> 0 <= off -> off + Z.of_nat n <= 12 ->
  le_field (p ++ r) off n = le_field p off n.
Proof.
  intros Hp Ho Hn.
  rewrite <- (le_field_take (p ++ r) 12), <- (le_field_take p 12) by lia.
  f_equal. unfold zlen in Hp. by rewrite take_app_le by lia.
Qed.

Lemma depth_size_app kind p r :
  12 <= zlen p -> depth_size kind (p ++ r) = depth_size kind p.
Proof.
  intros H. unfold depth_size, u32_at. rewrite !depth_fields_app by lia.
  rewrite zlen_app. pose proof (zlen_nonneg r).
  destruct (Z.ltb_spec (zlen p + zlen r) 12), (Z.ltb_spec (zlen p) 12); try lia. done.
Qed.

Lemma depth_header_app p r : 12 <= zlen p -> depth_header_at (p ++ r) = depth_header_at p.
Proof.
  intros H. unfold depth_header_at, u16_at, u32_at. by rewrite !depth_fields_app by lia.
Qed.

Lemma is_depth_packet_take kind rest n :
  depth_size kind rest = Ok n -> n <= zlen rest -> is_depth_packet kind (take (Z.to_nat n) rest).
Proof.
  intros H Hn. pose proof (depth_size_range _ _ _ H).
  unfold is_depth_packet. rewrite zlen_take by lia. rewrite <- H.
  rewrite <- (take_drop (Z.to_nat n) rest) at 2.
  symmetry. apply depth_size_app. rewrite zlen_take; lia.
Qed.

(** * The packet parser *)

Lemma parse_depth_level_ok raw i :
  12 + Z.of_nat i * 16 + 16 <= zlen raw ->
  parse_depth_level raw (12 + Z.of_nat i * 16) = Ok (deep_level_at raw i).
Proof.
  intros H. unfold parse_depth_level. unfold_wire. autorewrite with reads.
  unfold deep_level_at, u32_at. cbn. by rewrite Z.add_0_r.
Qed.

Lemma fill_levels_ok raw count : forall i buf,
  (count <= length buf)%nat -> 12 + (Z.of_nat i + Z.of_nat count) * 16 <= zlen raw ->
  fill_levels raw (Z.of_nat i) count buf =
  Ok (map (deep_level_at raw) (seq i count) ++ drop count buf).
Proof.
  induction count as [|count IH]; intros i buf Hb Hl; [by destruct buf|].
  destruct buf as [|x buf]; [simpl in Hb; lia|]. cbn [fill_levels seq map]. simpl in Hb.
  unfold_wire. rewrite parse_depth_level_ok by lia. cbn [mbind res_bind].
  replace (Z.of_nat i + 1) with (Z.of_nat (S i)) by lia.
  rewrite IH by lia. reflexivity.
Qed.

Definition depth_levels_at (kind : DepthFeedKind) (raw : list byte) : list DeepDepthLevel :=
  map (deep_level_at raw) (seq 0 (depth_count kind raw)).

(** What one call of [parse_depth_packet] returns, read off the wire. *)
Definition depth_result (kind : DepthFeedKind) (raw : list byte) (buf : list DeepDepthLevel)
    : res ParseError (DepthPacket * list DeepDepthLevel) :=
  n ← depth_size kind raw;
  if zlen raw <? n then Err (InsufficientBytes n (zlen raw)) else
  if le_field raw 2 1 =? 50
  then Ok (mkDepthPacket (depth_header_at raw) (DepthDisconnect (u16_at raw 12)), buf)
  else Ok (mkDepthPacket (depth_header_at raw)
             (Levels (depth_side_at raw) (depth_levels_at kind raw)),
           depth_levels_at kind raw ++ drop (depth_count kind raw) buf).

Lemma depth_size_levels kind raw n :
  depth_size kind raw = Ok n -> le_field raw 2 1 <> 50 ->
  from_feed_code (le_field raw 2 1) = Some (depth_side_at raw) /\
  depth_level_count (depth_header_at raw) kind = Ok (Z.of_nat (depth_count kind raw)) /\
  (depth_count kind raw <= 200)%nat /\ n = 12 + 16 * Z.of_nat (depth_count kind raw).
Proof.
  intros H Hne. pose proof (depth_size_range _ _ _ H) as [Hl _].
  assert (Hr : 0 <= u32_at raw 8) by (apply (le_field_range raw 8 4); lia).
  destruct (depth_code_cases (le_field raw 2 1)) as [E|E|E|E1 E2 E3];
    [done|..|by rewrite depth_size_unknown in H by done];
    unfold depth_size, from_feed_code, depth_side_at, depth_level_count, depth_count in *;
    unfold_wire; rewrite E in *; (destruct (Z.ltb_spec (zlen raw) 12); [lia|]);
    cbn [Z.eqb Pos.eqb depth_header_at sequence_or_row_count] in *;
    (split; [done|]); destruct kind; simplify_eq; [split_and!; (done || lia)| |split_and!; (done || lia)|];
    (destruct (Z.ltb_spec 200 (u32_at raw 8)); simplify_eq; split_and!; [f_equal|..]; lia).
Qed.

Lemma get_range_prefix {A} (l r : list A) n :
  n = zlen l -> get_range (l ++ r) 0 n = Some l.
Proof.
  intros ->. pose proof (zlen_nonneg r). pose proof (zlen_nonneg l).
  rewrite get_range_some by (rewrite ?zlen_app; lia). simpl. f_equal.
  rewrite drop_0, Z.sub_0_r. unfold zlen. rewrite Nat2Z.id. apply take_app_length.
Qed.

Lemma parse_depth_packet_result raw kind buf :
  zlen buf = 200 -> parse_depth_packet raw kind buf = depth_result kind raw buf.
Proof.
  intros Hbuf. unfold parse_depth_packet, depth_result.
  destruct (Z.ltb_spec (zlen raw) 12).
  { unfold parse_depth_header, depth_size. unfold_wire.
    destruct (Z.ltb_spec (zlen raw) 12); [done|lia]. }
  pose proof (depth_packet_len_ok kind raw ltac:(lia)) as Hn.
  rewrite parse_depth_header_ok in * by lia. cbn [mbind res_bind] in *. rewrite Hn.
  destruct (depth_size kind raw) as [n|e|] eqn:En; [|done|done]. cbn [mbind res_bind].
  destruct (Z.ltb_spec (zlen raw) n); [done|].
  cbn [dh_response_code depth_header_at]. unfold_wire.
  destruct (Z.eqb_spec (le_field raw 2 1) 50) as [E|E].
  - pose proof (depth_size_disconnect _ _ _ En E). subst n.
    by rewrite read_u16_le_ok by lia.
  - pose proof (depth_size_levels _ _ _ En E) as (Hs & Hc & Hle & ->).
    rewrite Hs. cbn [ok_or mbind res_bind]. fold (depth_header_at raw). rewrite Hc.
    cbn [mbind res_bind]. rewrite Nat2Z.id.
    rewrite (fill_levels_ok raw _ 0) by (unfold zlen in *; lia). cbn [mbind res_bind].
    fold (depth_levels_at kind raw). rewrite get_range_prefix; [done|].
    unfold zlen, depth_levels_at. by rewrite length_map, length_seq.
Qed.

(** With a 200-level buffer, parsing any depth packet never panics and gives
    the error of the first failing check, the disconnect reason or exactly the
    counted levels at their documented offsets. *)
Theorem parse_depth_packet_spec raw kind buf :
  zlen buf = 200 ->
  parse_depth_packet raw kind buf = depth_result kind raw buf /\
  is_Panic (parse_depth_packet raw kind buf) = false.
Proof.
  intros Hb. rewrite parse_depth_packet_result by done. split; [done|].
  unfold depth_result. destruct (depth_size kind raw) as [n|e|] eqn:E; [|done|].
  - cbn [mbind res_bind]. destruct (_ <? _); [done|]. by destruct (_ =? _).
  - unfold depth_size in E. repeat case_match; simplify_eq.
Qed.

Lemma depth_result_buffer kind raw buf p buf' :
  zlen buf = 200 -> depth_result kind raw buf = Ok (p, buf') -> zlen buf' = 200.
Proof.
  intros Hb H. unfold depth_result in H. destruct (depth_size kind raw) as [n|?|] eqn:En; [|done|done].
  cbn [mbind res_bind] in H. destruct (_ <? _); [done|].
  destruct (Z.eqb_spec (le_field raw 2 1) 50); simplify_eq; [done|].
  pose proof (depth_size_levels _ _ _ En ltac:(done)) as (_ & _ & Hle & _).
  unfold zlen, depth_levels_at in *. rewrite length_app, length_map, length_seq, length_drop. lia.
Qed.

(** * The frame splitter decomposes the frame *)

(** What the splitter leaves undivided, and why. *)
Definition stop_at (kind : DepthFeedKind) (rest : list byte) : DepthSplitStop :=
  if zlen rest =? 0 then Complete else
  if zlen rest <? 12 then TruncatedHeader (zlen rest) else
  match depth_size kind rest with
  | Ok n => TruncatedBody n (zlen rest)
  | Err (UnknownResponseCode c) => StopUnknownResponseCode c
  | _ => StopInvalidRowCount (u32_at rest 8)
  end.

(** The tail starts no whole packet. *)
Definition unsplittable (kind : DepthFeedKind) (rest : list byte) : Prop :=
  match depth_size kind rest with Ok n => zlen rest < n | _ => True end.

Definition bump (kind : DepthFeedKind) (rest : list byte) (m : Z) : Z :=
  match depth_size kind rest with
  | Ok n => if u16_at rest 0 =? n then m else u32_saturating_add m 1
  | _ => m
  end.

Lemma depth_size_error kind rest e :
  12 <= zlen rest -> depth_size kind rest = Err e ->
  e = UnknownResponseCode (le_field rest 2 1) \/ e = InvalidRowCount (u32_at rest 8) 200.
Proof.
  intros H He. destruct (depth_code_cases (le_field rest 2 1)) as [E|E|E|E1 E2 E3];
    [..|rewrite depth_size_unknown in He by done; simplify_eq; by left];
    unfold depth_size in He; rewrite E in He; (destruct (Z.ltb_spec (zlen rest) 12); [lia|]);
    [done|..]; (destruct kind; [done|]); (destruct (_ <? _); [|done]); simplify_eq; by right.
Qed.

Section split.
Context (raw : list byte) (kind : DepthFeedKind) (Hraw : zlen raw <= usize_max).

(** One call of [next] on a live iterator: either a whole packet, or a stop. *)
Lemma next_packet off mm n :
  0 <= off <= zlen raw ->
  depth_size kind (drop (Z.to_nat off) raw) = Ok n -> n <= zlen raw - off ->
  next (mkIter raw kind off None mm) =
  (Some (take (Z.to_nat n) (drop (Z.to_nat off) raw)),
   mkIter raw kind (off + n) None (bump kind (drop (Z.to_nat off) raw) mm)).
Proof using Hraw.
  intros Ho Hs Hn. pose proof (depth_size_range _ _ _ Hs) as [Hl Hr].
  unfold next. cbn [it_stop it_raw it_offset it_kind it_mismatches].
  rewrite get_from_some by lia. destruct (Z.eqb_spec (zlen (drop (Z.to_nat off) raw)) 0); [lia|].
  pose proof (depth_packet_len_ok kind _ Hl) as Hp.
  rewrite parse_depth_header_ok in * by done. cbn [mbind res_bind] in Hp. rewrite Hp, Hs.
  destruct (Z.eqb_spec n 0); [lia|].
  rewrite get_range_some by (rewrite ?zlen_drop; lia).
  simpl. rewrite Z.sub_0_r. f_equal. f_equal.
  - zints.
  - unfold bump. by rewrite Hs.
Qed.

Lemma next_stop off mm :
  0 <= off <= zlen raw -> unsplittable kind (drop (Z.to_nat off) raw) ->
  next (mkIter raw kind off None mm) =
  (None, mkIter raw kind off (Some (stop_at kind (drop (Z.to_nat off) raw)))
           (bump kind (drop (Z.to_nat off) raw) mm)).
Proof using Hraw.
  intros Ho Hu. unfold next, stop_at, bump, set_stop.
  cbn [it_stop it_raw it_offset it_kind it_mismatches].
  rewrite get_from_some by lia. set (rest := drop (Z.to_nat off) raw) in *.
  pose proof (zlen_nonneg rest).
  destruct (Z.ltb_spec (zlen rest) 12) as [H12|H12].
  - replace (depth_size kind rest) with (Err (E:=ParseError) (A:=Z) (InsufficientBytes 12 (zlen rest)))
      by (unfold depth_size; destruct (Z.ltb_spec (zlen rest) 12); [done|lia]).
    destruct (Z.eqb_spec (zlen rest) 0); [done|].
    unfold parse_depth_header. unfold_wire. destruct (Z.ltb_spec (zlen rest) 12); [done|lia].
  - destruct (Z.eqb_spec (zlen rest) 0); [lia|].
    pose proof (depth_packet_len_ok kind _ H12) as Hp.
    rewrite parse_depth_header_ok in * by done. cbn [mbind res_bind] in Hp. rewrite Hp.
    unfold unsplittable in Hu. destruct (depth_size kind rest) as [need|e|] eqn:En.
    + pose proof (depth_size_range _ _ _ En). destruct (Z.eqb_spec need 0); [lia|].
      unfold get_range. destruct (Z.leb_spec need (zlen rest)); [lia|].
      rewrite andb_false_r. done.
    + by destruct (depth_size_error _ _ _ H12 En) as [-> | ->].
    + done.
Qed.

Lemma split_cases rest :
  unsplittable kind rest \/ exists n, depth_size kind rest = Ok n /\ n <= zlen rest.
Proof.
  unfold unsplittable. destruct (depth_size kind rest) as [n| |]; [|by left..].
  destruct (Z.ltb_spec (zlen rest) n); [by left|right; eauto].
Qed.

(** The frame is the packets yielded followed by an unsplittable tail. *)
Lemma collect_spec fuel : forall off mm,
  0 <= off <= zlen raw -> zlen raw - off < Z.of_nat fuel ->
  exists ps tail mm',
    collect fuel (mkIter raw kind off None mm) =
      Some (ps, mkIter raw kind (zlen raw - zlen tail) (Some (stop_at kind tail)) mm') /\
    drop (Z.to_nat off) raw = concat ps ++ tail /\
    Forall (is_depth_packet kind) ps /\ unsplittable kind tail.
Proof using Hraw.
  induction fuel as [|fuel IH]; intros off mm Ho Hf; [lia|]. cbn [collect].
  destruct (split_cases (drop (Z.to_nat off) raw)) as [Hu|(n & Hs & Hn)].
  - rewrite next_stop by done. exists [], (drop (Z.to_nat off) raw), (bump kind (drop (Z.to_nat off) raw) mm).
    split_and!; try done. rewrite zlen_drop by lia.
    by replace (zlen raw - (zlen raw - off)) with off by lia.
  - rewrite zlen_drop in Hn by lia. rewrite (next_packet _ _ n) by (done || lia).
    pose proof (depth_size_range _ _ _ Hs).
    destruct (IH (off + n) (bump kind (drop (Z.to_nat off) raw) mm))
      as (ps & tail & mm' & Hc & Hd & Hps & Hu); [lia|lia|].
    rewrite Hc. cbn [mbind option_bind]. eexists _, tail, mm'. split; [reflexivity|].
    split_and!; [..|done].
    + cbn [concat]. rewrite <- app_assoc, <- Hd, Z2Nat.inj_add, <- drop_drop by lia.
      by rewrite take_drop.
    + constructor; [|done]. apply is_depth_packet_take; [done|]. rewrite zlen_drop; lia.
Qed.

Lemma split_total :
  exists ps tail mm',
    collect (S (length raw)) (split_depth_frame raw kind) =
      Some (ps, mkIter raw kind (zlen raw - zlen tail) (Some (stop_at kind tail)) mm') /\
    raw = concat ps ++ tail /\ Forall (is_depth_packet kind) ps /\ unsplittable kind tail.
Proof using Hraw.
  pose proof (zlen_nonneg raw).
  destruct (collect_spec (S (length raw)) 0 0) as (ps & tail & mm' & Hc & Hd & H'); [lia|unfold zlen; lia|].
  exists ps, tail, mm'. by rewrite drop_0 in Hd.
Qed.
End split.

Lemma stop_at_complete kind tail : stop_at kind tail = Complete <-> tail = [].
Proof.
  unfold stop_at. split; [|by intros ->]. pose proof (zlen_nonneg tail).
  destruct (Z.eqb_spec (zlen tail) 0) as [E|E]; [intros _; by apply zlen_zero|].
  destruct (_ <? _); [done|]. destruct (depth_size kind tail) as [|[]|]; done.
Qed.

Lemma unsplittable_nil kind : unsplittable kind [].
Proof. done. Qed.

(** Depth packets are a prefix code: a frame decomposes in at most one way. *)
Lemma packet_prefix_unsplittable kind p r tail :
  is_depth_packet kind p -> unsplittable kind tail -> tail <> p ++ r.
Proof.
  intros Hp Hu ->. pose proof (depth_size_range _ _ _ Hp) as [Hl _].
  unfold unsplittable in Hu. rewrite depth_size_app, Hp, zlen_app in Hu by done.
  pose proof (zlen_nonneg r). lia.
Qed.

Lemma packet_prefix_eq kind p q r s :
  is_depth_packet kind p -> is_depth_packet kind q -> p ++ r = q ++ s -> p = q /\ r = s.
Proof.
  intros Hp Hq E. apply app_inj_1; [|done].
  pose proof (depth_size_range _ _ _ Hp) as [Hlp _].
  pose proof (depth_size_range _ _ _ Hq) as [Hlq _].
  pose proof (depth_size_app kind p r Hlp) as H1. rewrite E, depth_size_app in H1 by done.
  unfold is_depth_packet in *. rewrite Hp, Hq in H1. injection H1. unfold zlen. lia.
Qed.

Lemma split_unique kind ps qs t u :
  Forall (is_depth_packet kind) ps -> Forall (is_depth_packet kind) qs ->
  unsplittable kind t -> unsplittable kind u ->
  concat ps ++ t = concat qs ++ u -> ps = qs /\ t = u.
Proof.
  intros Hps. revert qs. induction Hps as [|p ps Hp _ IH]; intros qs Hqs Ht Hu E;
    destruct Hqs as [|q qs Hq Hqs]; cbn [concat app] in E; rewrite <- ?app_assoc in E.
  - done.
  - by destruct (packet_prefix_unsplittable _ _ _ _ Hq Ht E).
  - by destruct (packet_prefix_unsplittable _ _ _ _ Hp Hu (eq_sym E)).
  - destruct (packet_prefix_eq _ _ _ _ _ Hp Hq E) as [-> E'].
    by destruct (IH qs Hqs Ht Hu E') as [-> ->].
Qed.

(** C32: Splitting any depth frame ends after at most one step per byte,
    yields well-formed depth packets whose concatenation is a prefix of the frame,
    and stops for the reason the rest of the frame gives, complete exactly when
    nothing is left. *)
Theorem split_depth_frame_total raw kind :
  zlen raw <= usize_max ->
  exists ps tail it,
    collect (S (length raw)) (split_depth_frame raw kind) = Some (ps, it) /\
    raw = concat ps ++ tail /\ Forall (is_depth_packet kind) ps /\
    it_offset it = zlen (concat ps) /\ it_stop it = Some (stop_at kind tail) /\
    (it_stop it = Some Complete <-> tail = []).
Proof.
  intros H. destruct (split_total raw kind H) as (ps & tail & mm & Hc & Hd & Hps & _).
  exists ps, tail, (mkIter raw kind (zlen raw - zlen tail) (Some (stop_at kind tail)) mm).
  split_and!; try done; cbn [it_offset it_stop].
  - rewrite Hd at 1. rewrite zlen_app. lia.
  - rewrite <- (stop_at_complete kind tail). by split; [intros [= ->]|intros ->].
Qed.

(** Splitting the concatenation of well-formed depth packets and an
    unsplittable rest gives those packets back, in order, and the stop reason of
    the rest. *)
Theorem split_concat_roundtrip ps tail kind :
  zlen (concat ps ++ tail) <= usize_max ->
  Forall (is_depth_packet kind) ps -> unsplittable kind tail ->
  exists it,
    collect (S (length (concat ps ++ tail))) (split_depth_frame (concat ps ++ tail) kind)
      = Some (ps, it) /\ it_stop it = Some (stop_at kind tail).
Proof.
  intros H Hps Hu. destruct (split_total _ kind H) as (qs & u & mm & Hc & Hd & Hqs & Hu').
  destruct (split_unique kind ps qs tail u) as [-> ->]; try done.
  eexists. by rewrite Hc.
Qed.

(** * The stacked-disconnect walk over the splitter *)

Definition depth_reason_of (p : list byte) : option Z :=
  if le_field p 2 1 =? 50 then Some (u16_at p 12) else None.

Definition first_depth_reason (ps : list (list byte)) : option Z := head (omap depth_reason_of ps).

Lemma is_disconnect_code_at p i :
  0 <= i -> i + 1 <= zlen p -> is_disconnect_code (get p i) = (le_field p i 1 =? 50).
Proof.
  intros Hi Hl. destruct (index_byte_ok (E:=unit) p i Hi Hl) as (b & Hb & <-).
  unfold index in Hb. unfold is_disconnect_code, get.
  destruct (i <? 0); [done|]. destruct (p !! Z.to_nat i); by simplify_eq.
Qed.

Lemma depth_reason_packet kind p :
  is_depth_packet kind p -> le_field p 2 1 = 50 -> depth_reason p = Some (u16_at p 12).
Proof.
  intros Hp E. pose proof (depth_size_disconnect _ _ _ Hp E) as Hz.
  unfold depth_reason. unfold_wire. change (usize_checked_add 12 2) with (Some 14).
  cbn [mbind option_bind]. rewrite get_range_some by lia. reflexivity.
Qed.

(** The body of the loop: the first disconnect wins. *)
Lemma depth_found_step kind p found :
  is_depth_packet kind p ->
  (match found with
   | None => if is_disconnect_code (get p DEEP_DEPTH_HEADER_OFFSET_FEED_CODE)
             then Some <$> depth_reason p else Some found
   | Some _ => Some found
   end) = Some (match found with Some _ => found | None => depth_reason_of p end).
Proof.
  intros Hp. destruct found; [done|]. pose proof (depth_size_range _ _ _ Hp) as [Hl _].
  unfold_wire. rewrite is_disconnect_code_at by lia. unfold depth_reason_of.
  destruct (Z.eqb_spec (le_field p 2 1) 50) as [E|E]; [|done].
  by rewrite (depth_reason_packet kind).
Qed.

Lemma depth_walk_collect kind max_packets fuel : forall it packets found ps it',
  0 <= packets <= max_packets -> max_packets < u32_max ->
  collect fuel it = Some (ps, it') -> Forall (is_depth_packet kind) ps ->
  depth_walk fuel it max_packets packets found =
  Some (if max_packets <? packets + zlen ps then None
        else Some (it', match found with Some _ => found | None => first_depth_reason ps end)).
Proof.
  induction fuel as [|fuel IH]; intros it packets found ps it' Hp Hm Hc Hps; [done|].
  cbn [collect depth_walk] in *. destruct (next it) as [[p|] it1].
  - destruct (collect fuel it1) as [[qs it2]|] eqn:Hc'; [|done]. simplify_eq/=.
    apply Forall_cons_1 in Hps as [Hpk Hqs]. rewrite zlen_cons. pose proof (zlen_nonneg qs).
    rewrite u32_saturating_add_exact by zints.
    destruct (Z.ltb_spec max_packets (packets + 1)).
    { destruct (Z.ltb_spec max_packets (packets + (1 + zlen qs))); [done|lia]. }
    rewrite (depth_found_step kind) by done.
    rewrite (IH _ _ _ qs it') by (done || lia). rewrite Z.add_assoc.
    destruct (_ <? _); [done|]. unfold first_depth_reason. cbn [omap list_omap].
    destruct found; [done|]. by destruct (depth_reason_of p).
  - simplify_eq. rewrite zlen_nil. destruct (Z.ltb_spec max_packets (packets + 0)); [lia|].
    by destruct found.
Qed.

Section stacked_depth.
Context (frame : list byte) (kind : DepthFeedKind) (max_packets : Z).
Context (Hframe : zlen frame <= usize_max) (Hmax : 0 <= max_packets < u32_max).

Lemma stacked_depth_spec r :
  stacked_depth_disconnect_reason frame kind max_packets = Some r <->
  exists ps, frame = concat ps /\ Forall (is_depth_packet kind) ps /\ zlen ps <= max_packets /\
    first_depth_reason ps = Some r.
Proof using Hframe Hmax.
  destruct (split_total frame kind Hframe) as (ps & tail & mm & Hc & Hd & Hps & Hu).
  unfold stacked_depth_disconnect_reason.
  rewrite (depth_walk_collect kind max_packets _ _ 0 None ps _ ltac:(lia) ltac:(lia) Hc Hps).
  rewrite Z.add_0_l. split.
  - destruct (Z.ltb_spec max_packets (zlen ps)); [done|]. cbn [it_stop].
    destruct (stop_at kind tail) eqn:Hs; [|done..].
    apply stop_at_complete in Hs. subst tail. rewrite app_nil_r in Hd.
    intros ?. by exists ps.
  - intros (qs & Hq & Hqs & Hn & Hr).
    destruct (split_unique kind ps qs tail []) as [-> ->]; [done..|by rewrite app_nil_r, <- Hq|].
    destruct (Z.ltb_spec max_packets (zlen qs)); [lia|]. done.
Qed.
End stacked_depth.

(** * Frame classification equals the walk, on every frame *)

(** A frame just long enough for a disconnect packet and carrying one is that
    packet alone. *)
Lemma lone_packet (P : list byte -> Prop) (reason : list byte -> option Z) D ps r :
  (forall p, P p -> 0 < zlen p) -> (forall p k, P p -> reason p = Some k -> zlen p = D) ->
  Forall P ps -> zlen (concat ps) = D -> head (omap reason ps) = Some r ->
  P (concat ps) /\ reason (concat ps) = Some r.
Proof.
  intros Hpos HD Hps Hl Hr.
  assert (Hin : exists p, p ∈ ps /\ reason p = Some r).
  { clear -Hr. induction ps as [|p ps IH]; [done|]. cbn [omap list_omap] in Hr.
    destruct (reason p) eqn:E; simplify_eq/=; [exists p; split; [left|done]|].
    destruct (IH Hr) as (q & ? & ?). exists q. split; [by right|done]. }
  destruct Hin as (p & Hp & Hk). apply list_elem_of_split in Hp as (l1 & l2 & ->).
  apply Forall_app in Hps as [H1 [Hpp H2]%Forall_cons_1].
  pose proof (HD p r Hpp Hk) as Hz.
  assert (Hempty : forall l, Forall P l -> zlen (concat l) <= 0 -> l = []).
  { intros l Hfl Hc. destruct Hfl as [|q l Hq _]; [done|]. cbn [concat] in Hc.
    rewrite zlen_app in Hc. pose proof (Hpos q Hq). pose proof (zlen_nonneg (concat l)). lia. }
  rewrite concat_app, zlen_app in Hl. cbn [concat] in Hl. rewrite zlen_app in Hl.
  pose proof (zlen_nonneg (concat l1)). pose proof (zlen_nonneg (concat l2)).
  rewrite (Hempty l1), (Hempty l2) by (done || lia). cbn [concat app]. by rewrite app_nil_r.
Qed.

(** What a feed's frames decompose into, and the reason a packet carries. *)
Definition feed_packet (endpoint : DhanEndpointType) (p : list byte) : Prop :=
  match endpoint with
  | MainFeed => is_packet p
  | Depth20 => is_depth_packet Twenty p
  | Depth200 => is_depth_packet TwoHundred p
  | OrderUpdateFeed => False
  end.

Definition feed_reason (endpoint : DhanEndpointType) (p : list byte) : option Z :=
  match endpoint with
  | MainFeed => reason_of p
  | _ => depth_reason_of p
  end.

Definition feed_disconnect_len (endpoint : DhanEndpointType) : Z :=
  match endpoint with MainFeed | OrderUpdateFeed => 10 | _ => 14 end.

Lemma feed_packet_pos endpoint p : feed_packet endpoint p -> 0 < zlen p.
Proof.
  destruct endpoint; simpl; intros H; [by apply is_packet_nonempty in H; lia|..|done];
    apply depth_size_range in H; lia.
Qed.

Lemma feed_reason_len endpoint p k :
  feed_packet endpoint p -> feed_reason endpoint p = Some k ->
  zlen p = feed_disconnect_len endpoint.
Proof.
  destruct endpoint; simpl; [|..|done].
  - unfold reason_of. intros H E. destruct (is_disconnect_code (get p 0)) eqn:Ed; [|done].
    apply (main_feed_packet_len_disconnect p _ H Ed).
  - unfold depth_reason_of. intros H E. destruct (Z.eqb_spec (le_field p 2 1) 50); [|done].
    eapply depth_size_disconnect; [apply H|done].
  - unfold depth_reason_of. intros H E. destruct (Z.eqb_spec (le_field p 2 1) 50); [|done].
    eapply depth_size_disconnect; [apply H|done].
Qed.

Lemma get_byte raw i :
  0 <= i -> i + 1 <= zlen raw ->
  exists b, get raw i = Some b /\ byte_val b = le_field raw i 1.
Proof.
  intros Hi Hl. destruct (index_byte_ok (E:=unit) raw i Hi Hl) as (b & Hb & Hv).
  unfold index in Hb. unfold get. destruct (i <? 0); [done|].
  destruct (raw !! Z.to_nat i); simplify_eq. eauto.
Qed.

Lemma disconnect_packet_main frame :
  zlen frame = 10 -> le_field frame 0 1 = 50 -> is_packet frame.
Proof.
  intros Hl E. unfold is_packet. rewrite (main_feed_packet_len_spec _ 0) by lia.
  unfold frame_at. by rewrite E, Hl.
Qed.

Lemma disconnect_packet_depth kind frame :
  zlen frame = 14 -> le_field frame 2 1 = 50 -> is_depth_packet kind frame.
Proof. intros Hl E. unfold is_depth_packet, depth_size. by rewrite E, Hl. Qed.

(** The fast path: a frame of a disconnect packet's size. *)
Lemma classify_lone endpoint frame c :
  endpoint <> OrderUpdateFeed -> zlen frame = feed_disconnect_len endpoint ->
  classify_frame endpoint frame = FrameDisconnect c <->
  exists r, feed_packet endpoint frame /\ feed_reason endpoint frame = Some r /\ c = from_u16 r.
Proof.
  intros Hb Hl. destruct endpoint; [| | |done]; simpl in Hl; unfold classify_frame;
    unfold_wire; change (12 + 2) with 14; change (10 - 2) with 8;
    rewrite Hl; cbn [Z.eqb Pos.eqb negb]; cbn [feed_packet feed_reason].
  - destruct (get_byte frame 0) as (b & -> & Hv); [lia|lia|].
    unfold reason_of. rewrite is_disconnect_code_at, Hv by lia.
    rewrite get_range_some by lia.
    destruct (Z.eqb_spec (le_field frame 0 1) 50) as [E|E]; simpl; [|(split; [done|by intros (? & _ & ? & _)])].
    pose proof (disconnect_packet_main frame Hl E).
    split; [intros [= <-]; by eexists|by intros (r & _ & [= <-] & ->)].
  - destruct (get_byte frame 2) as (b & -> & Hv); [lia|lia|].
    unfold depth_reason_of. rewrite Hv, get_range_some by lia.
    destruct (Z.eqb_spec (le_field frame 2 1) 50) as [E|E]; simpl; [|(split; [done|by intros (? & _ & ? & _)])].
    pose proof (disconnect_packet_depth Twenty frame Hl E).
    split; [intros [= <-]; by eexists|by intros (r & _ & [= <-] & ->)].
  - destruct (get_byte frame 2) as (b & -> & Hv); [lia|lia|].
    unfold depth_reason_of. rewrite Hv, get_range_some by lia.
    destruct (Z.eqb_spec (le_field frame 2 1) 50) as [E|E]; simpl; [|(split; [done|by intros (? & _ & ? & _)])].
    pose proof (disconnect_packet_depth TwoHundred frame Hl E).
    split; [intros [= <-]; by eexists|by intros (r & _ & [= <-] & ->)].
Qed.

(** The slow path: every other size. *)
Lemma classify_stacked endpoint frame c :
  endpoint <> OrderUpdateFeed -> zlen frame <= usize_max ->
  zlen frame <> feed_disconnect_len endpoint ->
  classify_frame endpoint frame = FrameDisconnect c <->
  exists ps r, frame = concat ps /\ Forall (feed_packet endpoint) ps /\ zlen ps <= 70000 /\
    head (omap (feed_reason endpoint) ps) = Some r /\ c = from_u16 r.
Proof.
  intros Hb Hu Hl. unfold classify_frame.
  assert (Hm : 0 <= MAX_PACKETS_PER_FRAME < u32_max) by (unfold MAX_PACKETS_PER_FRAME; zints).
  assert (Hs : forall (o : option Z) (P : Z -> Prop), (forall r, o = Some r <-> P r) ->
    match o with Some r => FrameDisconnect (from_u16 r) | None => FrameData end = FrameDisconnect c <->
    exists r, P r /\ c = from_u16 r).
  { intros o P Hop. destruct o as [r|].
    - split; [intros [= <-]; exists r; by rewrite <- Hop|].
      intros (r' & Hr' & ->). apply Hop in Hr'. by simplify_eq.
    - split; [done|]. intros (r & Hr & _). by apply Hop in Hr. }
  destruct endpoint; [| | |done]; simpl in Hl; unfold_wire;
    change (12 + 2) with 14; change (10 - 2) with 8;
    rewrite (proj2 (Z.eqb_neq _ _) Hl); cbn [negb];
    (rewrite (Hs _ _ (stacked_disconnect_reason_spec frame _ Hu Hm))
     || rewrite (Hs _ _ (stacked_depth_spec frame _ _ Hu Hm)));
    (split; [intros (r & (ps & ? & ? & ? & ?) & ->); by exists ps, r
            |intros (ps & r & ? & ? & ? & ? & ->); exists r; split; [by exists ps|done]]).
Qed.

(** A frame of the main or a depth feed is classified as a disconnect exactly
    when it is a clean concatenation of at most 70,000 packets with a disconnect
    among them, and the code is the first one's. *)
Theorem classify_frame_iff endpoint frame c :
  endpoint <> OrderUpdateFeed -> zlen frame <= usize_max ->
  classify_frame endpoint frame = FrameDisconnect c <->
  exists ps r, frame = concat ps /\ Forall (feed_packet endpoint) ps /\ zlen ps <= 70000 /\
    head (omap (feed_reason endpoint) ps) = Some r /\ c = from_u16 r.
Proof.
  intros Hb Hu. destruct (decide (zlen frame = feed_disconnect_len endpoint)) as [Hl|Hl];
    [|by apply classify_stacked].
  rewrite classify_lone by done. split.
  - intros (r & Hp & Hr & ->). exists [frame], r. cbn [concat].
    split_and!; [by rewrite app_nil_r|by constructor|done| |done].
    cbn [omap list_omap]. by rewrite Hr.
  - intros (ps & r & -> & Hps & _ & Hr & ->). exists r.
    destruct (lone_packet (feed_packet endpoint) (feed_reason endpoint)
      (feed_disconnect_len endpoint) ps r) as [? ?]; try done.
    + apply feed_packet_pos.
    + apply feed_reason_len.
Qed.

(** ** Driving the parser with the splitter *)

Lemma is_depth_packet_parses kind p buf :
  is_depth_packet kind p -> zlen buf = 200 ->
  exists pkt buf', depth_result kind p buf = Ok (pkt, buf') /\ zlen buf' = 200.
Proof.
  intros Hp Hb. assert (H : exists pkt buf', depth_result kind p buf = Ok (pkt, buf')).
  { unfold depth_result. rewrite Hp. cbn [mbind res_bind].
    destruct (Z.ltb_spec (zlen p) (zlen p)); [lia|]. destruct (_ =? _); eauto. }
  destruct H as (pkt & buf' & H). exists pkt, buf'. split; [done|].
  by eapply depth_result_buffer.
Qed.

(** Every packet the splitter yields is accepted by the depth packet parser.
    *)
Theorem split_packets_parse raw kind fuel ps it buf :
  zlen raw <= usize_max -> zlen buf = 200 ->
  (length raw < fuel)%nat -> collect fuel (split_depth_frame raw kind) = Some (ps, it) ->
  Forall (fun p => exists pkt buf',
    parse_depth_packet p kind buf = Ok (pkt, buf') /\ zlen buf' = 200) ps.
Proof.
  intros Hr Hb Hf Hc. pose proof (zlen_nonneg raw).
  destruct (collect_spec raw kind Hr fuel 0 0) as (qs & tail & mm & Hq & _ & Hqs & _);
    [lia|unfold zlen; lia|].
  unfold split_depth_frame in Hc. rewrite Hc in Hq. simplify_eq.
  eapply Forall_impl; [exact Hqs|]. intros p Hp.
  destruct (is_depth_packet_parses kind p buf Hp Hb) as (pkt & buf' & Hres & Hl).
  exists pkt, buf'. by rewrite parse_depth_packet_result.
Qed.

(** * Instances *)

Definition sample_bids : list byte := bytes_of ([76; 1; 41; 2; 13; 0; 0; 0; 1; 0; 0; 0] ++ repeat 0 320).
Definition sample_depth_disconnect : list byte := bytes_of [14; 0; 50; 2; 0; 0; 0; 0; 0; 0; 0; 0; 37; 3].
Definition sample_depth_frame : list byte := sample_bids ++ sample_depth_disconnect.

Lemma sample_bids_packet : is_depth_packet Twenty sample_bids.
Proof. vm_compute. reflexivity. Qed.

Lemma sample_depth_disconnect_packet : is_depth_packet Twenty sample_depth_disconnect.
Proof. vm_compute. reflexivity. Qed.

Lemma parse_depth_packet_spec_witness :
  parse_depth_packet sample_bids Twenty new_level_buffer = depth_result Twenty sample_bids new_level_buffer.
Proof. apply (parse_depth_packet_spec sample_bids Twenty new_level_buffer). vm_compute. reflexivity. Defined.

Lemma split_depth_frame_total_witness :
  exists ps tail it,
    collect (S (length sample_depth_frame)) (split_depth_frame sample_depth_frame Twenty) = Some (ps, it) /\
    sample_depth_frame = concat ps ++ tail.
Proof.
  destruct (split_depth_frame_total sample_depth_frame Twenty) as (ps & tail & it & H & E & _).
  - vm_compute. discriminate.
  - exists ps, tail, it. split; [exact H|exact E].
Defined.

Lemma split_concat_roundtrip_witness :
  exists it,
    collect 348 (split_depth_frame (concat [sample_bids; sample_depth_disconnect] ++ [Byte.x01]) Twenty) =
    Some ([sample_bids; sample_depth_disconnect], it).
Proof.
  destruct (split_concat_roundtrip [sample_bids; sample_depth_disconnect] [Byte.x01] Twenty) as (it & H & _).
  - vm_compute. discriminate.
  - constructor; [apply sample_bids_packet|]. constructor; [apply sample_depth_disconnect_packet|constructor].
  - vm_compute. exact I.
  - exists it. exact H.
Defined.

Lemma split_packets_parse_witness :
  match collect 400 (split_depth_frame sample_depth_frame Twenty) with
  | Some (ps, _) => Forall (fun p => exists pkt buf',
      parse_depth_packet p Twenty new_level_buffer = Ok (pkt, buf') /\ zlen buf' = 200) ps
  | None => False
  end.
Proof.
  destruct (collect 400 (split_depth_frame sample_depth_frame Twenty)) as [[ps it]|] eqn:E.
  - apply (split_packets_parse sample_depth_frame Twenty 400 ps it new_level_buffer);
      [vm_compute; discriminate|vm_compute; reflexivity|vm_compute; lia|exact E].
  - vm_compute in E. discriminate E.
Defined.

(** A ticker followed by a disconnect, and a book followed by one. *)
Lemma classify_frame_iff_witness :
  classify_frame MainFeed (sample_ticker ++ sample_disconnect) = FrameDisconnect (from_u16 805) /\
  classify_frame Depth20 sample_depth_frame = FrameDisconnect (from_u16 805).
Proof.
  split; apply classify_frame_iff; try discriminate; try (vm_compute; discriminate).
  - exists [sample_ticker; sample_disconnect], 805. repeat split; try (vm_compute; reflexivity).
    + constructor; [vm_compute; reflexivity|]. constructor; [vm_compute; reflexivity|constructor].
    + vm_compute. discriminate.
  - exists [sample_bids; sample_depth_disconnect], 805. repeat split; try (vm_compute; reflexivity).
    + constructor; [apply sample_bids_packet|]. constructor; [apply sample_depth_disconnect_packet|constructor].
    + vm_compute. discriminate.
Defined.
