(* ===== verification/OrderTypes.v ===== *)
(** Data types of the order side: exchange segments ([common/src/types.rs]),
    order enumerations and the live order update ([common/src/order_types.rs]),
    the OMS's own order record, fill event, broker response and reconciliation
    report ([trading/src/oms/types.rs]).  Field names carry a prefix where two
    structs share one ([mo_] managed order, [ou_] order update, [dor_] broker
    response, [fe_] fill event). *)
From S2P Require Import Prelude Float.
Local Open Scope Z_scope.

(** * Exchange segments *)

Inductive ExchangeSegment : Type :=
  | IdxI
  | NseEquity
  | NseFno
  | NseCurrency
  | BseEquity
  | McxComm
  | BseCurrency
  | BseFno.

#[global] Instance ExchangeSegment_eq_dec : EqDecision ExchangeSegment.
Proof. solve_decision. Defined.

Definition segment_as_str (s : ExchangeSegment) : string :=
  match s with
  | IdxI => "IDX_I"
  | NseEquity => "NSE_EQ"
  | NseFno => "NSE_FNO"
  | NseCurrency => "NSE_CURRENCY"
  | BseEquity => "BSE_EQ"
  | McxComm => "MCX_COMM"
  | BseCurrency => "BSE_CURRENCY"
  | BseFno => "BSE_FNO"
  end.

Definition binary_code (s : ExchangeSegment) : Z :=
  match s with
  | IdxI => 0
  | NseEquity => 1
  | NseFno => 2
  | NseCurrency => 3
  | BseEquity => 4
  | McxComm => 5
  | BseCurrency => 7
  | BseFno => 8
  end.

Definition from_byte (code : Z) : option ExchangeSegment :=
  if code =? 0 then Some IdxI
  else if code =? 1 then Some NseEquity
  else if code =? 2 then Some NseFno
  else if code =? 3 then Some NseCurrency
  else if code =? 4 then Some BseEquity
  else if code =? 5 then Some McxComm
  else if code =? 7 then Some BseCurrency
  else if code =? 8 then Some BseFno
  else None.

(** The counted, logged refusal is the [None]; the metric is not modelled. *)
Definition resolve_order_segment_code (segment_code security_id : Z) : option ExchangeSegment :=
  from_byte segment_code.

Definition resolve_order_segment_str (wire_segment : string) (security_id : Z)
    : option ExchangeSegment :=
  if decide (wire_segment = "IDX_I") then Some IdxI
  else if decide (wire_segment = "NSE_EQ") then Some NseEquity
  else if decide (wire_segment = "NSE_FNO") then Some NseFno
  else if decide (wire_segment = "NSE_CURRENCY") then Some NseCurrency
  else if decide (wire_segment = "BSE_EQ") then Some BseEquity
  else if decide (wire_segment = "MCX_COMM") then Some McxComm
  else if decide (wire_segment = "BSE_CURRENCY") then Some BseCurrency
  else if decide (wire_segment = "BSE_FNO") then Some BseFno
  else None.

Definition SEGMENT_CODE_UNKNOWN : Z := 255.

Definition parse_segment_chars (exchange segment : string) : option ExchangeSegment :=
  if decide ((exchange, segment) = ("NSE", "D")) then Some NseFno
  else if decide ((exchange, segment) = ("BSE", "D")) then Some BseFno
  else if decide ((exchange, segment) = ("NSE", "E")) then Some NseEquity
  else if decide ((exchange, segment) = ("BSE", "E")) then Some BseEquity
  else if decide (segment = "I") then Some IdxI
  else None.

(** * Order enumerations *)

Inductive OrderStatus : Type :=
  | Transit
  | Pending
  | Confirmed
  | PartTraded
  | Traded
  | Cancelled
  | Rejected
  | Expired
  | Closed
  | Triggered.

#[global] Instance OrderStatus_eq_dec : EqDecision OrderStatus.
Proof. solve_decision. Defined.

Definition status_as_str (s : OrderStatus) : string :=
  match s with
  | Transit => "TRANSIT"
  | Pending => "PENDING"
  | Confirmed => "CONFIRMED"
  | PartTraded => "PART_TRADED"
  | Traded => "TRADED"
  | Cancelled => "CANCELLED"
  | Rejected => "REJECTED"
  | Expired => "EXPIRED"
  | Closed => "CLOSED"
  | Triggered => "TRIGGERED"
  end.

Inductive TransactionType : Type := Buy | Sell.

#[global] Instance TransactionType_eq_dec : EqDecision TransactionType.
Proof. solve_decision. Defined.

Inductive ProductType : Type := Cnc | Intraday | Margin | Mtf | Co | Bo.

#[global] Instance ProductType_eq_dec : EqDecision ProductType.
Proof. solve_decision. Defined.

Inductive OrderType : Type := Limit | Market | StopLoss | StopLossMarket.

#[global] Instance OrderType_eq_dec : EqDecision OrderType.
Proof. solve_decision. Defined.

Inductive OrderValidity : Type := Day | Ioc.

#[global] Instance OrderValidity_eq_dec : EqDecision OrderValidity.
Proof. solve_decision. Defined.

Definition transaction_type_as_str (t : TransactionType) : string :=
  match t with Buy => "BUY" | Sell => "SELL" end.

Definition product_type_as_str (p : ProductType) : string :=
  match p with
  | Cnc => "CNC"
  | Intraday => "INTRADAY"
  | Margin => "MARGIN"
  | Mtf => "MTF"
  | Co => "CO"
  | Bo => "BO"
  end.

Definition order_type_as_str (t : OrderType) : string :=
  match t with
  | Limit => "LIMIT"
  | Market => "MARKET"
  | StopLoss => "STOP_LOSS"
  | StopLossMarket => "STOP_LOSS_MARKET"
  end.

Definition validity_as_str (v : OrderValidity) : string :=
  match v with Day => "DAY" | Ioc => "IOC" end.

(** * The live order update *)

Record OrderUpdate : Type := mkOrderUpdate {
  ou_exchange : string;
  ou_segment : string;
  ou_security_id : string;
  ou_client_id : string;
  ou_order_no : string;
  ou_exch_order_no : string;
  ou_product : string;
  ou_txn_type : string;
  ou_order_type : string;
  ou_validity : string;
  ou_quantity : Z;
  ou_traded_qty : Z;
  ou_remaining_quantity : Z;
  ou_price : f64;
  ou_trigger_price : f64;
  ou_traded_price : f64;
  ou_avg_traded_price : f64;
  ou_status : string;
  ou_symbol : string;
  ou_display_name : string;
  ou_correlation_id : string;
  ou_remarks : string;
  ou_reason_description : string;
  ou_order_date_time : string;
  ou_exch_order_time : string;
  ou_last_updated_time : string;
  ou_instrument : string;
  ou_lot_size : Z;
  ou_strike_price : f64;
  ou_expiry_date : string;
  ou_opt_type : string;
  ou_isin : string;
  ou_disc_quantity : Z;
  ou_disc_qty_rem : Z;
  ou_leg_no : Z;
  ou_product_name : string;
  ou_ref_ltp : f64;
  ou_tick_size : f64;
  ou_source : string;
  ou_off_mkt_flag : string;
  ou_algo_ord_no : string;
  ou_mkt_type : string;
  ou_series : string;
  ou_good_till_days_date : string;
  ou_algo_id : string;
  ou_multiplier : Z }.

(** [#[serde(default)]] on every field, with the fields the OMS reads given. *)
Definition order_update (order_no correlation_id status exchange segment : string)
    (traded_qty : Z) (avg_traded_price : f64) : OrderUpdate := {|
  ou_exchange := exchange; ou_segment := segment; ou_security_id := "";
  ou_client_id := ""; ou_order_no := order_no; ou_exch_order_no := "";
  ou_product := ""; ou_txn_type := ""; ou_order_type := ""; ou_validity := "";
  ou_quantity := 0; ou_traded_qty := traded_qty; ou_remaining_quantity := 0;
  ou_price := f64_zero; ou_trigger_price := f64_zero; ou_traded_price := f64_zero;
  ou_avg_traded_price := avg_traded_price; ou_status := status; ou_symbol := "";
  ou_display_name := ""; ou_correlation_id := correlation_id; ou_remarks := "";
  ou_reason_description := ""; ou_order_date_time := ""; ou_exch_order_time := "";
  ou_last_updated_time := ""; ou_instrument := ""; ou_lot_size := 0;
  ou_strike_price := f64_zero; ou_expiry_date := ""; ou_opt_type := ""; ou_isin := "";
  ou_disc_quantity := 0; ou_disc_qty_rem := 0; ou_leg_no := 0; ou_product_name := "";
  ou_ref_ltp := f64_zero; ou_tick_size := f64_zero; ou_source := "";
  ou_off_mkt_flag := ""; ou_algo_ord_no := ""; ou_mkt_type := ""; ou_series := "";
  ou_good_till_days_date := ""; ou_algo_id := ""; ou_multiplier := 0 |}.

(** * The OMS's records *)

Record ManagedOrder : Type := mkManagedOrder {
  mo_order_id : string;
  mo_correlation_id : string;
  mo_security_id : Z;
  mo_exchange_segment : ExchangeSegment;
  mo_transaction_type : TransactionType;
  mo_order_type : OrderType;
  mo_product_type : ProductType;
  mo_validity : OrderValidity;
  mo_quantity : Z;
  mo_price : f64;
  mo_trigger_price : f64;
  mo_status : OrderStatus;
  mo_traded_qty : Z;
  mo_avg_traded_price : f64;
  mo_lot_size : Z;
  mo_created_at_us : Z;
  mo_updated_at_us : Z;
  mo_needs_reconciliation : bool;
  mo_modification_count : Z }.

Definition MAX_MODIFICATIONS_PER_ORDER : Z := 25.

Definition is_terminal_status (s : OrderStatus) : bool :=
  match s with
  | Traded | Cancelled | Rejected | Expired | Closed => true
  | Transit | Pending | Confirmed | PartTraded | Triggered => false
  end.

Definition is_terminal (o : ManagedOrder) : bool := is_terminal_status (mo_status o).

(** Assignments to single fields. *)
Definition set_status (o : ManagedOrder) (s : OrderStatus) : ManagedOrder :=
  mkManagedOrder (mo_order_id o) (mo_correlation_id o) (mo_security_id o)
    (mo_exchange_segment o) (mo_transaction_type o) (mo_order_type o) (mo_product_type o)
    (mo_validity o) (mo_quantity o) (mo_price o) (mo_trigger_price o) s (mo_traded_qty o)
    (mo_avg_traded_price o) (mo_lot_size o) (mo_created_at_us o) (mo_updated_at_us o)
    (mo_needs_reconciliation o) (mo_modification_count o).
Definition set_traded_qty (o : ManagedOrder) (q : Z) : ManagedOrder :=
  mkManagedOrder (mo_order_id o) (mo_correlation_id o) (mo_security_id o)
    (mo_exchange_segment o) (mo_transaction_type o) (mo_order_type o) (mo_product_type o)
    (mo_validity o) (mo_quantity o) (mo_price o) (mo_trigger_price o) (mo_status o) q
    (mo_avg_traded_price o) (mo_lot_size o) (mo_created_at_us o) (mo_updated_at_us o)
    (mo_needs_reconciliation o) (mo_modification_count o).
Definition set_avg_traded_price (o : ManagedOrder) (p : f64) : ManagedOrder :=
  mkManagedOrder (mo_order_id o) (mo_correlation_id o) (mo_security_id o)
    (mo_exchange_segment o) (mo_transaction_type o) (mo_order_type o) (mo_product_type o)
    (mo_validity o) (mo_quantity o) (mo_price o) (mo_trigger_price o) (mo_status o)
    (mo_traded_qty o) p (mo_lot_size o) (mo_created_at_us o) (mo_updated_at_us o)
    (mo_needs_reconciliation o) (mo_modification_count o).
Definition set_updated_at_us (o : ManagedOrder) (t : Z) : ManagedOrder :=
  mkManagedOrder (mo_order_id o) (mo_correlation_id o) (mo_security_id o)
    (mo_exchange_segment o) (mo_transaction_type o) (mo_order_type o) (mo_product_type o)
    (mo_validity o) (mo_quantity o) (mo_price o) (mo_trigger_price o) (mo_status o)
    (mo_traded_qty o) (mo_avg_traded_price o) (mo_lot_size o) (mo_created_at_us o) t
    (mo_needs_reconciliation o) (mo_modification_count o).
Definition set_needs_reconciliation (o : ManagedOrder) (b : bool) : ManagedOrder :=
  mkManagedOrder (mo_order_id o) (mo_correlation_id o) (mo_security_id o)
    (mo_exchange_segment o) (mo_transaction_type o) (mo_order_type o) (mo_product_type o)
    (mo_validity o) (mo_quantity o) (mo_price o) (mo_trigger_price o) (mo_status o)
    (mo_traded_qty o) (mo_avg_traded_price o) (mo_lot_size o) (mo_created_at_us o)
    (mo_updated_at_us o) b (mo_modification_count o).

Record FillEvent : Type := mkFillEvent {
  fe_security_id : Z;
  fe_segment_code : Z;
  fe_fill_lots : Z;
  fe_avg_price : f64;
  fe_lot_size : Z;
  fe_order_id : string }.

(** [GET /orders], one row. *)
Record DhanOrderResponse : Type := mkDhanOrder {
  dor_order_id : string;
  dor_correlation_id : string;
  dor_order_status : string;
  dor_transaction_type : string;
  dor_exchange_segment : string;
  dor_product_type : string;
  dor_order_type : string;
  dor_validity : string;
  dor_security_id : string;
  dor_quantity : Z;
  dor_price : f64;
  dor_trigger_price : f64;
  dor_traded_quantity : Z;
  dor_traded_price : f64;
  dor_remaining_quantity : Z;
  dor_filled_qty : Z;
  dor_average_traded_price : f64;
  dor_exchange_order_id : string;
  dor_exchange_time : string;
  dor_create_time : string;
  dor_update_time : string;
  dor_rejection_reason : string;
  dor_tag : string;
  dor_oms_error_code : string;
  dor_oms_error_description : string;
  dor_trading_symbol : string;
  dor_drv_expiry_date : string;
  dor_drv_option_type : string;
  dor_drv_strike_price : f64 }.

Definition dhan_order (order_id order_status : string) (traded_quantity : Z)
    (average_traded_price : f64) : DhanOrderResponse :=
  mkDhanOrder order_id "" order_status "" "" "" "" "" "" 0 f64_zero f64_zero
    traded_quantity f64_zero 0 0 average_traded_price "" "" "" "" "" "" "" "" "" "" "" f64_zero.

Record ReconciliationReport : Type := mkReport {
  total_checked : Z;
  mismatches_found : Z;
  missing_from_oms : Z;
  missing_from_dhan : Z;
  mismatched_order_ids : list string }.

Definition default_report : ReconciliationReport := mkReport 0 0 0 0 [].

(** * OMS errors

    The message text of [RiskRejected] is kept without the numbers it
    interpolates; dates are day numbers. *)
Inductive OmsError : Type :=
  | RiskRejected (reason : string)
  | RateLimited
  | OrderBookFull (tracked max : Z)
  | OrderBudgetExhausted (tier : string) (limit retry_after_secs : Z)
  | CircuitBreakerOpen
  | OrderNotFound (order_id : string)
  | OrderTerminal (order_id status : string)
  | InvalidTransition (order_id from to : string)
  | DhanApiError (status_code : Z) (message : string)
  | DhanRateLimited
  | NoToken
  | TokenExpired
  | HttpError (message : string)
  | JsonError (message : string)
  | SandboxEnforcement
  | ExpiredContract (security_id expiry_date : Z)
  | UnknownExchangeSegment (security_id : Z)
  | MaxModificationsExceeded (order_id : string) (max : Z)
  | OrderReadinessRefused (reason : string)
  | OrderPathHalted (cause : string)
  | StopAllCooldown (remaining_secs : Z)
  | AlertsSurfaceDisarmed (operation : string).

(** * Round trips of the segment codes *)

Module Segments.

(** Segment codes and segment texts are inverse to their parsers, and no
    segment has the unknown code. *)
Theorem segment_codes_roundtrip c s sid :
  (from_byte c = Some s <-> binary_code s = c) /\
  (forall w, resolve_order_segment_str w sid = Some s <-> segment_as_str s = w) /\
  binary_code s <> SEGMENT_CODE_UNKNOWN.
Proof.
  split; [|split].
  - unfold from_byte. split; [repeat case_match; intros; simplify_eq/=; lia|].
    intros <-. by destruct s.
  - intros w. unfold resolve_order_segment_str. split.
    + intros H. repeat case_decide; simplify_eq; done.
    + intros <-. by destruct s.
  - by destruct s.
Qed.
End Segments.
