(* ===== verification/OrderLifecycle.v ===== *)
(** The order lifecycle ([oms/state_machine.rs]): the table of valid
    transitions and the case-insensitive parser of the broker's status
    spellings.  The theorems show that the table is acyclic, that its final
    states are exactly the terminal ones, and that the parser inverts
    [as_str] up to case. *)
From Stdlib Require Import Ascii.
From S2P Require Import Prelude OrderTypes.
Local Open Scope Z_scope.

Definition is_valid_transition (from to : OrderStatus) : bool :=
  match from, to with
  | Transit, Pending
  | Transit, Rejected
  | Pending, Confirmed
  | Pending, PartTraded
  | Pending, Traded
  | Pending, Cancelled
  | Pending, Rejected
  | Pending, Expired
  | Confirmed, PartTraded
  | Confirmed, Traded
  | Confirmed, Cancelled
  | Confirmed, Expired
  | PartTraded, Traded
  | PartTraded, Cancelled
  | PartTraded, Expired
  | Triggered, Pending
  | Triggered, Traded
  | Triggered, Cancelled
  | Triggered, Rejected
  | Pending, Closed
  | Confirmed, Closed
  | PartTraded, Closed
  | Triggered, Closed => true
  | _, _ => false
  end.

(** [u8::to_ascii_lowercase] and [str::eq_ignore_ascii_case]. *)
Definition to_ascii_lowercase (c : ascii) : ascii :=
  let n := N_of_ascii c in
  if (65 <=? n)%N && (n <=? 90)%N then ascii_of_N (n + 32) else c.

Fixpoint eq_ignore_ascii_case (a b : string) : bool :=
  match a, b with
  | EmptyString, EmptyString => true
  | String x a', String y b' =>
      bool_decide (to_ascii_lowercase x = to_ascii_lowercase y) && eq_ignore_ascii_case a' b'
  | _, _ => false
  end.

Definition ORDER_STATUS_SPELLINGS : list (string * OrderStatus) :=
  [("TRANSIT", Transit); ("PENDING", Pending); ("CONFIRMED", Confirmed);
   ("PART_TRADED", PartTraded); ("PARTIALLY_FILLED", PartTraded); ("TRADED", Traded);
   ("CANCELLED", Cancelled); ("REJECTED", Rejected); ("EXPIRED", Expired);
   ("CLOSED", Closed); ("TRIGGERED", Triggered); ("CONFIRM", Triggered)].

Definition parse_order_status (status_str : string) : option OrderStatus :=
  snd <$> find (fun p => eq_ignore_ascii_case (fst p) status_str) ORDER_STATUS_SPELLINGS.

(** * The lifecycle as a relation *)

Definition transition (a b : OrderStatus) : Prop := is_valid_transition a b = true.

#[global] Instance transition_dec a b : Decision (transition a b).
Proof. unfold transition. apply _. Defined.

(** How far along its life an order in a state is. *)
Definition rank (s : OrderStatus) : nat :=
  match s with
  | Transit | Triggered => 0
  | Pending => 1
  | Confirmed => 2
  | PartTraded => 3
  | Traded | Cancelled | Rejected | Expired | Closed => 4
  end.

Definition all_statuses : list OrderStatus :=
  [Transit; Pending; Confirmed; PartTraded; Traded; Cancelled; Rejected; Expired; Closed; Triggered].

Lemma all_statuses_complete s : s ∈ all_statuses.
Proof. unfold all_statuses. rewrite !elem_of_cons. destruct s; tauto. Qed.

Lemma transition_rank a b : transition a b -> (rank a < rank b)%nat.
Proof. unfold transition. destruct a, b; simpl; intros; try done; lia. Qed.

Lemma rank_le s : (rank s <= 4)%nat.
Proof. destruct s; simpl; lia. Qed.

(** A run of the lifecycle: consecutive states joined by valid transitions. *)
Inductive lifecycle : list OrderStatus -> Prop :=
  | lifecycle_one s : lifecycle [s]
  | lifecycle_step a b l : transition a b -> lifecycle (b :: l) -> lifecycle (a :: b :: l).

Lemma lifecycle_rank a l :
  lifecycle (a :: l) -> Forall (fun s => (rank a < rank s)%nat) l /\
  (rank a + length l <= 4)%nat.
Proof.
  revert a. induction l as [|b l IH]; intros a H; inversion H; subst; simpl.
  - split; [constructor|]. pose proof (rank_le a). lia.
  - destruct (IH b) as [Hf Hl]; [done|].
    match goal with Ht : transition a b |- _ => apply transition_rank in Ht end.
    split; [|lia]. constructor; [done|]. eapply Forall_impl; [exact Hf|]. simpl. lia.
Qed.

Lemma lifecycle_nodup l : lifecycle l -> NoDup l.
Proof.
  induction l as [|a l IH]; intros H; [inversion H|].
  pose proof (lifecycle_rank a l H) as [Hf _]. constructor.
  - intros Ha. rewrite Forall_forall in Hf. specialize (Hf a Ha). lia.
  - inversion H; subst; [constructor|]. by apply IH.
Qed.

Lemma transition_terminal a b : is_terminal_status a = true -> ~ transition a b.
Proof. unfold transition. by destruct a, b. Qed.

(** Every chain of valid order transitions visits no status twice and has at
    most five statuses. *)
Theorem lifecycle_bounded l : lifecycle l -> NoDup l /\ (length l <= 5)%nat.
Proof.
  intros H. split; [by apply lifecycle_nodup|]. destruct l as [|a l]; [inversion H|].
  pose proof (lifecycle_rank a l H) as [_ Hl]. simpl. lia.
Qed.

Lemma lifecycle_bounded_witness :
  NoDup [Transit; Pending; Confirmed; PartTraded; Traded] /\
  (length [Transit; Pending; Confirmed; PartTraded; Traded] <= 5)%nat.
Proof. apply (lifecycle_bounded [Transit; Pending; Confirmed; PartTraded; Traded]). repeat (constructor; try reflexivity). Defined.

(** The statuses without a successor are exactly the terminal ones. *)
Theorem terminal_iff_final a :
  (is_terminal_status a = true <-> forall b, is_valid_transition a b = false) /\
  (exists b, is_terminal_status b = true /\ rtc transition a b) /\
  is_valid_transition a Triggered = false /\ is_valid_transition a Transit = false.
Proof.
  split_and!; [|..|by destruct a|by destruct a].
  - split; [by intros ? []; destruct a|]. intros H.
    destruct a; try done; exfalso; specialize (H Rejected) as H1; specialize (H Expired) as H2; done.
  - destruct (is_terminal_status a) eqn:E; [exists a; split; [done|constructor]|].
    destruct a; try done;
      first [exists Rejected; split; [done|]; apply rtc_once; done
            |exists Expired; split; [done|]; apply rtc_once; done].
Qed.

(** * The spellings *)

Lemma eq_ignore_case_refl a : eq_ignore_ascii_case a a = true.
Proof. induction a; simpl; [done|]. rewrite bool_decide_true by done. done. Qed.

Lemma eq_ignore_case_trans a b c :
  eq_ignore_ascii_case a b = true -> eq_ignore_ascii_case b c = eq_ignore_ascii_case a c.
Proof.
  revert b c. induction a as [|x a IH]; intros [|y b] [|z c] H; try done. simpl in *.
  apply andb_true_iff in H as [Hx H]. apply bool_decide_eq_true in Hx.
  rewrite Hx. f_equal. by apply IH.
Qed.

Lemma eq_ignore_case_sym a b : eq_ignore_ascii_case a b = eq_ignore_ascii_case b a.
Proof.
  revert b. induction a as [|x a IH]; intros [|y b]; try done. simpl. rewrite IH. f_equal.
  apply bool_decide_ext. done.
Qed.

Lemma find_ext {A} (f g : A -> bool) l : (forall x, f x = g x) -> find f l = find g l.
Proof. intros H. induction l as [|x l IH]; simpl; [done|]. by rewrite H, IH. Qed.

(** A status text parses to a status exactly when it matches one of that
    status's spellings up to ASCII case, and every status's own text parses back
    to it. *)
Theorem parse_order_status_spec s st :
  (parse_order_status s = Some st <->
   exists spelling, (spelling, st) ∈ ORDER_STATUS_SPELLINGS /\
     eq_ignore_ascii_case spelling s = true) /\
  parse_order_status (status_as_str st) = Some st.
Proof.
  split; [|by destruct st]. unfold parse_order_status. split.
  - destruct (find _ _) as [[sp st']|] eqn:E; [|done]. simpl. intros [= ->].
    apply find_some in E as [Hin Heq]. exists sp. split; [by apply list_elem_of_In|done].
  - intros (sp & Hin & Heq).
    assert (Hf : forall q, eq_ignore_ascii_case q s = eq_ignore_ascii_case q sp).
    { intros q. rewrite (eq_ignore_case_sym q s), (eq_ignore_case_sym q sp). by apply eq_ignore_case_trans. }
    transitivity (snd <$> find (fun p => eq_ignore_ascii_case (fst p) sp) ORDER_STATUS_SPELLINGS).
    { f_equal. apply find_ext. intros p. apply Hf. }
    unfold ORDER_STATUS_SPELLINGS in Hin. rewrite !elem_of_cons, elem_of_nil in Hin.
    by repeat (destruct Hin as [Hin|Hin]; [injection Hin as -> ->; reflexivity|]).
Qed.
