(* ===== verification/OrderBudget.v ===== *)
(** The broker's per-minute, per-hour and per-day order ceilings
    ([oms/rate_limiter.rs], [OrderBudget]): three fixed-window counters checked
    in order, consumed all or nothing.  The per-second limiter beside it is a
    third-party GCRA implementation and is not modelled. *)
From S2P Require Import Prelude OrderTypes.
Local Open Scope Z_scope.

Record TierWindow : Type := mkTier {
  limit : Z;
  window_secs : Z;
  used : Z;
  window_start_secs : Z }.

Definition new_tier (limit window_secs : Z) : TierWindow := mkTier limit window_secs 0 0.

(** [would_admit] rolls an expired window forward as it answers. *)
Definition would_admit (w : TierWindow) (now_secs : Z) : bool * TierWindow :=
  let w' := if window_secs w <=? u64_saturating_sub now_secs (window_start_secs w)
            then mkTier (limit w) (window_secs w) 0 now_secs else w in
  (used w' <? limit w', w').

Definition consume (w : TierWindow) : TierWindow :=
  mkTier (limit w) (window_secs w) (u32_saturating_add (used w) 1) (window_start_secs w).

Definition reset_tier (w : TierWindow) : TierWindow := mkTier (limit w) (window_secs w) 0 0.

Record OrderBudget : Type := mkBudget {
  minute : TierWindow;
  hour : TierWindow;
  day : TierWindow }.

Definition MAX_PER_MINUTE : Z := 250.
Definition MAX_PER_HOUR : Z := 1000.
Definition MAX_PER_DAY : Z := 7000.

Definition new_budget : OrderBudget :=
  mkBudget (new_tier MAX_PER_MINUTE 60) (new_tier MAX_PER_HOUR 3600) (new_tier MAX_PER_DAY 86400).

Definition exhausted (tier : string) (w : TierWindow) (now_secs : Z) : OmsError :=
  OrderBudgetExhausted tier (limit w)
    (u64_saturating_sub (window_secs w) (u64_saturating_sub now_secs (window_start_secs w))).

(** The loop over the three tiers stops at the first refusal; the tiers it
    reached keep the window they rolled to. *)
Definition try_consume (b : OrderBudget) (now_secs : Z) : res OmsError unit * OrderBudget :=
  let '(ok, m) := would_admit (minute b) now_secs in
  if negb ok then (Err (exhausted "minute" m now_secs), mkBudget m (hour b) (day b)) else
  let '(ok, h) := would_admit (hour b) now_secs in
  if negb ok then (Err (exhausted "hour" h now_secs), mkBudget m h (day b)) else
  let '(ok, d) := would_admit (day b) now_secs in
  if negb ok then (Err (exhausted "day" d now_secs), mkBudget m h d) else
  (Ok tt, mkBudget (consume m) (consume h) (consume d)).

Definition reset_daily (b : OrderBudget) : OrderBudget :=
  mkBudget (reset_tier (minute b)) (reset_tier (hour b)) (reset_tier (day b)).

Definition used_today (b : OrderBudget) : Z := used (day b).

Lemma try_consume_no_panic b now : is_Panic (fst (try_consume b now)) = false.
Proof.
  unfold try_consume. destruct (would_admit (minute b) now) as [[] ?]; [|done].
  destruct (would_admit (hour b) now) as [[] ?]; [|done].
  by destruct (would_admit (day b) now) as [[] ?].
Qed.

(** * Runs

    Calls of [try_consume] at successive clock readings: the readings that
    were admitted, newest first, and the budget after. *)
Fixpoint admit_all (b : OrderBudget) (nows : list Z) (log : list Z) : list Z * OrderBudget :=
  match nows with
  | [] => (log, b)
  | now :: nows' =>
      match try_consume b now with
      | (Ok _, b') => admit_all b' nows' (now :: log)
      | (_, b') => admit_all b' nows' log
      end
  end.

Definition count_in (a w : Z) (log : list Z) : Z :=
  Z.of_nat (length (filter (fun t => a <= t < a + w) log)).

(** Each reading is at or after the one before it. *)
Inductive clock_from : Z -> list Z -> Prop :=
  | clock_nil t : clock_from t []
  | clock_cons t u l : t <= u <= u64_max -> clock_from u l -> clock_from t (u :: l).

(** * One tier against the log of what it let through *)

(** The log splits into the current window, the window before, and entries
    more than a window older than the current window's start. *)
Definition tier_ok (w : TierWindow) (now : Z) (log : list Z) : Prop :=
  0 < window_secs w /\ 0 <= limit w <= u32_max /\ 0 <= window_start_secs w <= now /\
  (forall a, count_in a (window_secs w) log <= 2 * limit w) /\
  exists cur prev rest, log = cur ++ prev ++ rest /\
    Z.of_nat (length cur) = used w /\ used w <= limit w /\ Z.of_nat (length prev) <= limit w /\
    Forall (fun t => window_start_secs w <= t < window_start_secs w + window_secs w) cur /\
    Forall (fun t => t < window_start_secs w) prev /\
    Forall (fun t => t + window_secs w < window_start_secs w) rest.

Lemma count_in_app a w l k : count_in a w (l ++ k) = count_in a w l + count_in a w k.
Proof. unfold count_in. rewrite filter_app, length_app. lia. Qed.

Lemma count_in_le a w l : count_in a w l <= Z.of_nat (length l).
Proof. unfold count_in. apply Nat2Z.inj_le, length_filter. Qed.

Lemma count_in_none a w l : Forall (fun t => ~ (a <= t < a + w)) l -> count_in a w l = 0.
Proof.
  unfold count_in. induction 1 as [|t l Ht _ IH]; [done|]. by rewrite filter_cons_False.
Qed.

Lemma count_in_cons a w t l :
  count_in a w (t :: l) = (if decide (a <= t < a + w) then 1 else 0) + count_in a w l.
Proof. unfold count_in. rewrite filter_cons. case_decide; simpl; lia. Qed.

Lemma tier_ok_later w now now' log : tier_ok w now log -> now <= now' -> tier_ok w now' log.
Proof. intros (? & ? & ? & ? & ?) ?. unfold tier_ok. split_and!; (done || lia). Qed.


(** Rolling keeps the log accounted for; a tier that then admits has room. *)
Lemma would_admit_ok w now last log :
  tier_ok w last log -> last <= now <= u64_max ->
  tier_ok (snd (would_admit w now)) now log /\
  now < window_start_secs (snd (would_admit w now)) + window_secs w /\
  limit (snd (would_admit w now)) = limit w /\ window_secs (snd (would_admit w now)) = window_secs w /\
  fst (would_admit w now) = (used (snd (would_admit w now)) <? limit w).
Proof.
  intros (Hw & Hl & Hs & Hall & cur & prev & rest & -> & Hc & Hu & Hp & Fc & Fp & Fr) Hnow.
  unfold would_admit.
  assert (Hsub : u64_saturating_sub now (window_start_secs w) = now - window_start_secs w) by zints.
  rewrite Hsub. destruct (Z.leb_spec (window_secs w) (now - window_start_secs w)); cbn.
  - split; [|split_and!; [lia|done..]]. split_and!; cbn; [lia..|done|].
    exists [], cur, (prev ++ rest). cbn. split_and!; try done; try lia.
    + eapply Forall_impl; [exact Fc|]. simpl. lia.
    + apply Forall_app. split; (eapply Forall_impl; [done|]); simpl; lia.
  - split; [|split_and!; [lia|done..]]. split_and!; [lia..|done|].
    exists cur, prev, rest. split_and!; done.
Qed.

(** Admitting at [now] into a tier that has room. *)
Lemma consume_ok w now log :
  tier_ok w now log -> now < window_start_secs w + window_secs w -> used w < limit w ->
  tier_ok (consume w) now (now :: log).
Proof.
  intros (Hw & Hl & Hs & Hall & cur & prev & rest & -> & Hc & Hu & Hp & Fc & Fp & Fr) Hnow Hroom.
  unfold consume. rewrite u32_saturating_add_exact by zints.
  split_and!; cbn; [lia..| |].
  - intros a. rewrite count_in_cons. case_decide as Ha; [|specialize (Hall a); lia].
    rewrite !count_in_app.
    rewrite (count_in_none a _ rest) by (eapply Forall_impl; [exact Fr|]; simpl; lia).
    pose proof (count_in_le a (window_secs w) cur). pose proof (count_in_le a (window_secs w) prev). lia.
  - exists (now :: cur), prev, rest. cbn. split_and!; try done; try lia.
    constructor; [lia|done].
Qed.

Definition budget_ok (b : OrderBudget) (now : Z) (log : list Z) : Prop :=
  tier_ok (minute b) now log /\ tier_ok (hour b) now log /\ tier_ok (day b) now log.

Definition limits (b : OrderBudget) : list (Z * Z) :=
  [(limit (minute b), window_secs (minute b)); (limit (hour b), window_secs (hour b));
   (limit (day b), window_secs (day b))].

Lemma try_consume_ok b last now log :
  budget_ok b last log -> last <= now <= u64_max ->
  limits (snd (try_consume b now)) = limits b /\
  match try_consume b now with
  | (Ok _, b') => budget_ok b' now (now :: log)
  | (_, b') => budget_ok b' now log
  end.
Proof.
  intros (Hm & Hh & Hd) Hnow. unfold try_consume, budget_ok, limits.
  destruct (would_admit_ok _ _ _ _ Hm Hnow) as (Hm' & Hmn & Hml & Hmw & Hmo).
  destruct (would_admit_ok _ _ _ _ Hh Hnow) as (Hh' & Hhn & Hhl & Hhw & Hho).
  destruct (would_admit_ok _ _ _ _ Hd Hnow) as (Hd' & Hdn & Hdl & Hdw & Hdo).
  pose proof (tier_ok_later _ _ now _ Hh ltac:(lia)). pose proof (tier_ok_later _ _ now _ Hd ltac:(lia)).
  destruct (would_admit (minute b) now) as [om m], (would_admit (hour b) now) as [oh h],
    (would_admit (day b) now) as [od d]. cbn [fst snd] in *.
  destruct om; cbn; [|rewrite Hml, Hmw; done].
  destruct oh; cbn; [|rewrite Hml, Hmw, Hhl, Hhw; done].
  destruct od; cbn; rewrite Hml, Hmw, Hhl, Hhw, Hdl, Hdw; [|done].
  split; [done|]. symmetry in Hmo, Hho, Hdo. apply Z.ltb_lt in Hmo, Hho, Hdo.
  split_and!; apply consume_ok; (done || lia).
Qed.

Lemma admit_all_ok nows : forall b last log,
  budget_ok b last log -> clock_from last nows ->
  limits (snd (admit_all b nows log)) = limits b /\
  exists now, budget_ok (snd (admit_all b nows log)) now (fst (admit_all b nows log)).
Proof.
  induction nows as [|now nows IH]; intros b last log Hb Hc; [split; [done|by exists last]|].
  inversion Hc; subst. cbn [admit_all].
  destruct (try_consume_ok b last now log Hb) as [Hl Hok]; [lia|].
  destruct (try_consume b now) as [[u|e|] b']; cbn [snd] in *; rewrite <- Hl; by apply (IH b' now).
Qed.

Lemma new_budget_ok : budget_ok new_budget 0 [].
Proof.
  unfold budget_ok, new_budget, new_tier, tier_ok, MAX_PER_MINUTE, MAX_PER_HOUR, MAX_PER_DAY.
  cbn. unfold u32_max.
  split_and!; try lia; try (intros; unfold count_in; simpl; lia); by exists [], [], [].
Qed.

(** Against a clock that does not run backwards, the budget admits in any
    interval of a minute, an hour or a day at most twice the tier's limit. *)
Theorem budget_bounds_admissions nows a :
  clock_from 0 nows ->
  let log := fst (admit_all new_budget nows []) in
  count_in a 60 log <= 500 /\ count_in a 3600 log <= 2000 /\ count_in a 86400 log <= 14000.
Proof.
  intros Hc log. destruct (admit_all_ok nows new_budget 0 [] new_budget_ok Hc) as [Hl (now & Hb)].
  fold log in Hb. unfold limits in Hl. cbn in Hl. destruct Hb as ((_ & _ & _ & Hm & _) & (_ & _ & _ & Hh & _) & (_ & _ & _ & Hd & _)).
  injection Hl as E1 E2 E3 E4 E5 E6. specialize (Hm a). specialize (Hh a). specialize (Hd a).
  rewrite E1, E2 in Hm. rewrite E3, E4 in Hh. rewrite E5, E6 in Hd.
  unfold MAX_PER_MINUTE, MAX_PER_HOUR, MAX_PER_DAY in *. lia.
Qed.

(** ** Refusals *)

(** A tier after a call that refused: its count as it was, or zero if the call
    rolled its window. *)
Definition not_charged (w w' : TierWindow) : Prop :=
  w' = w \/ (used w' = 0 /\ limit w' = limit w /\ window_secs w' = window_secs w).

Definition tier_clock (now : Z) (w : TierWindow) : Prop :=
  0 < limit w /\ 0 < window_secs w /\ 0 <= window_start_secs w <= now.

Lemma would_admit_not_charged w now : not_charged w (snd (would_admit w now)).
Proof. unfold would_admit, not_charged. destruct (_ <=? _); cbn; auto. Qed.

(** A refusing tier says how long until its window rolls, and then admits. *)
Lemma refusing_tier w now :
  tier_clock now w -> now + window_secs w <= u64_max -> fst (would_admit w now) = false ->
  let w' := snd (would_admit w now) in
  let retry := u64_saturating_sub (window_secs w') (u64_saturating_sub now (window_start_secs w')) in
  0 < retry <= window_secs w' /\
  forall later, now + retry <= later <= u64_max -> fst (would_admit w' later) = true.
Proof.
  intros (Hl & Hw & Hs) Hmax. unfold would_admit at 1 2.
  assert (Hsub : u64_saturating_sub now (window_start_secs w) = now - window_start_secs w) by zints.
  rewrite Hsub. destruct (Z.leb_spec (window_secs w) (now - window_start_secs w)); cbn.
  { destruct (Z.ltb_spec 0 (limit w)); [done|lia]. }
  intros _. rewrite Hsub.
  assert (Hr : u64_saturating_sub (window_secs w) (now - window_start_secs w) =
    window_secs w - (now - window_start_secs w)) by zints.
  rewrite Hr. split; [lia|]. intros later Hlater. unfold would_admit.
  destruct (Z.leb_spec (window_secs w) (u64_saturating_sub later (window_start_secs w))); [|zints].
  cbn. by apply Z.ltb_lt.
Qed.

(** A refused order charges none of the three tiers, and the refusal names a
    spent tier and a delay after which that tier admits again. *)
Theorem refusal_is_free b now e b' :
  tier_clock now (minute b) -> tier_clock now (hour b) -> tier_clock now (day b) ->
  now + window_secs (minute b) <= u64_max -> now + window_secs (hour b) <= u64_max ->
  now + window_secs (day b) <= u64_max -> try_consume b now = (Err e, b') ->
  (not_charged (minute b) (minute b') /\ not_charged (hour b) (hour b') /\
   not_charged (day b) (day b')) /\
  exists name w' retry,
    (name, w') ∈ [("minute", minute b'); ("hour", hour b'); ("day", day b')] /\
    e = OrderBudgetExhausted name (limit w') retry /\ 0 < retry <= window_secs w' /\
    forall later, now + retry <= later <= u64_max -> fst (would_admit w' later) = true.
Proof.
  intros Hm Hh Hd Mm Mh Md. unfold try_consume, exhausted.
  pose proof (would_admit_not_charged (minute b) now) as Nm.
  pose proof (would_admit_not_charged (hour b) now) as Nh.
  pose proof (would_admit_not_charged (day b) now) as Nd.
  assert (Nr : forall w, not_charged w w) by (intros; by left).
  pose proof (refusing_tier _ _ Hm Mm) as Rm. pose proof (refusing_tier _ _ Hh Mh) as Rh.
  pose proof (refusing_tier _ _ Hd Md) as Rd.
  destruct (would_admit (minute b) now) as [om m], (would_admit (hour b) now) as [oh h],
    (would_admit (day b) now) as [od d]. cbn [fst snd] in *. cbv zeta in *.
  destruct om; cbn; [|intros [= <- <-]; split; [done|]; specialize (Rm eq_refl); do 3 eexists;
    split; [|split; [reflexivity|exact Rm]]; cbn; rewrite !elem_of_cons; tauto].
  destruct oh; cbn; [|intros [= <- <-]; split; [done|]; specialize (Rh eq_refl); do 3 eexists;
    split; [|split; [reflexivity|exact Rh]]; cbn; rewrite !elem_of_cons; tauto].
  destruct od; cbn; [done|]. intros [= <- <-]; split; [done|]; specialize (Rd eq_refl); do 3 eexists.
  split; [|split; [reflexivity|exact Rd]]. cbn. rewrite !elem_of_cons. tauto.
Qed.

(** ** The fixed window over a day boundary *)

(** A thousand orders from [t]: 250 at the start of each of four minutes. *)
Definition thousand_from (t : Z) : list Z :=
  replicate 250 t ++ replicate 250 (t + 60) ++ replicate 250 (t + 120) ++ replicate 250 (t + 180).

(** One order opens the day window, 6,999 fill it, 7,000 more follow as soon as
    it rolls: fourteen hours in all. *)
Definition day_boundary_schedule : list Z :=
  [100000] ++ concat (map (fun k => thousand_from (160000 + 3600 * Z.of_nat k)) (seq 0 6)) ++
  take 999 (thousand_from 181600) ++
  concat (map (fun k => thousand_from (186400 + 3600 * Z.of_nat k)) (seq 0 7)).

(** A schedule around a window boundary gets 13,999 orders through the day
    tier within 24 hours, so the fixed window does not bound every rolling day by
    7,000. *)
Theorem day_tier_admits_twice_its_limit :
  count_in 160000 86400 (fst (admit_all new_budget day_boundary_schedule [])) = 13999.
Proof. vm_compute. reflexivity. Qed.

(** * Instances *)

Lemma budget_bounds_admissions_witness :
  count_in 3 60 (fst (admit_all new_budget [1; 2; 5; 5; 90] [])) <= 500.
Proof.
  apply (budget_bounds_admissions [1; 2; 5; 5; 90] 3).
  repeat (constructor; [unfold u64_max; lia|]). constructor.
Defined.

(** A spent minute: the refusal charges nothing and says when to come back. *)
Definition spent_minute : OrderBudget :=
  mkBudget (mkTier 250 60 250 100) (mkTier 1000 3600 250 100) (mkTier 7000 86400 250 100).

Lemma refusal_is_free_witness :
  let '(r, b') := try_consume spent_minute 130 in
  r = Err (OrderBudgetExhausted "minute" 250 30) /\ not_charged (hour spent_minute) (hour b').
Proof.
  split; [vm_compute; reflexivity|].
  apply (refusal_is_free spent_minute 130 (OrderBudgetExhausted "minute" 250 30));
    [unfold tier_clock; cbn; lia..|cbn; unfold u64_max; lia|cbn; unfold u64_max; lia|cbn; unfold u64_max; lia|
     vm_compute; reflexivity].
Defined.
