(* ===== verification/Reconciliation.v ===== *)
(** Reconciliation against the broker's order list ([oms/reconciliation.rs]):
    one pass over the broker's rows and one over the tracked orders, producing
    a report and the corrections to apply.  Logs and metrics are not modelled. *)
From S2P Require Import Prelude Float OrderTypes OrderLifecycle.
Local Open Scope Z_scope.

Record ReconciliationUpdate : Type := mkUpdate {
  ru_order_id : string;
  ru_status : OrderStatus;
  ru_traded_qty : Z;
  ru_avg_traded_price : f64 }.

(** 0.005 *)
Definition PRICE_EQ_TOLERANCE_RUPEES : f64 := f64_lit 5 3.

Definition prices_equal_within_paise (a b : f64) : bool :=
  if negb (is_finite a) || negb (is_finite b) then false
  else f64_leb (f64_abs (f64_sub a b)) PRICE_EQ_TOLERANCE_RUPEES.

Abbreviation order_book := (gmap string ManagedOrder).

(** The body of the loop over the broker's rows. *)
Definition reconcile_row (oms_orders : order_book)
    (acc : ReconciliationReport * list ReconciliationUpdate) (d : DhanOrderResponse)
    : ReconciliationReport * list ReconciliationUpdate :=
  let '(report, updates) := acc in
  match parse_order_status (dor_order_status d) with
  | None => (report, updates)
  | Some dhan_status =>
    let report := mkReport (u32_saturating_add (total_checked report) 1) (mismatches_found report)
                    (missing_from_oms report) (missing_from_dhan report)
                    (mismatched_order_ids report) in
    match oms_orders !! dor_order_id d with
    | Some o =>
        let status_mismatch := negb (bool_decide (mo_status o = dhan_status)) in
        let fill_mismatch := negb (mo_traded_qty o =? dor_traded_quantity d) ||
          negb (prices_equal_within_paise (mo_avg_traded_price o) (dor_average_traded_price d)) in
        let report :=
          if status_mismatch then
            mkReport (total_checked report) (u32_saturating_add (mismatches_found report) 1)
              (missing_from_oms report) (missing_from_dhan report)
              (mismatched_order_ids report ++ [dor_order_id d])
          else report in
        let updates :=
          if status_mismatch || fill_mismatch then
            updates ++ [mkUpdate (dor_order_id d) dhan_status (dor_traded_quantity d)
                          (dor_average_traded_price d)]
          else updates in
        (report, updates)
    | None =>
        (mkReport (total_checked report) (mismatches_found report)
           (u32_saturating_add (missing_from_oms report) 1) (missing_from_dhan report)
           (mismatched_order_ids report), updates)
    end
  end.

(** The body of the reverse loop: a live order the broker does not list. *)
Definition ghost (dhan_order_ids : gset string) (e : string * ManagedOrder) : bool :=
  negb (is_terminal (snd e)) && bool_decide (fst e ∉ dhan_order_ids).

Definition ghost_row (dhan_order_ids : gset string) (report : ReconciliationReport)
    (e : string * ManagedOrder) : ReconciliationReport :=
  if ghost dhan_order_ids e then
    mkReport (total_checked report) (mismatches_found report) (missing_from_oms report)
      (u32_saturating_add (missing_from_dhan report) 1) (mismatched_order_ids report)
  else report.

Definition reconcile_orders (oms_orders : order_book) (dhan_orders : list DhanOrderResponse)
    : ReconciliationReport * list ReconciliationUpdate :=
  let '(report, updates) := foldl (reconcile_row oms_orders) (default_report, []) dhan_orders in
  let dhan_order_ids : gset string := list_to_set (map dor_order_id dhan_orders) in
  (foldl (ghost_row dhan_order_ids) report (map_to_list oms_orders), updates).

(** * What a pass reports *)

(** A broker row whose status is known. *)
Definition recognised (d : DhanOrderResponse) : option OrderStatus :=
  parse_order_status (dor_order_status d).

Definition status_differs (m : order_book) (d : DhanOrderResponse) : bool :=
  match recognised d, m !! dor_order_id d with
  | Some st, Some o => negb (bool_decide (mo_status o = st))
  | _, _ => false
  end.

Definition agrees (o : ManagedOrder) (st : OrderStatus) (d : DhanOrderResponse) : Prop :=
  mo_status o = st /\ mo_traded_qty o = dor_traded_quantity d /\
  prices_equal_within_paise (mo_avg_traded_price o) (dor_average_traded_price d) = true.

#[global] Instance agrees_dec o st d : Decision (agrees o st d).
Proof. unfold agrees. apply _. Defined.

Definition correction (m : order_book) (d : DhanOrderResponse) : option ReconciliationUpdate :=
  st ← recognised d;
  o ← m !! dor_order_id d;
  if decide (agrees o st d) then None
  else Some (mkUpdate (dor_order_id d) st (dor_traded_quantity d) (dor_average_traded_price d)).

Definition untracked (m : order_book) (d : DhanOrderResponse) : bool :=
  match recognised d, m !! dor_order_id d with Some _, None => true | _, _ => false end.

Definition known_row (d : DhanOrderResponse) : bool :=
  match recognised d with Some _ => true | None => false end.

Definition tally {A} (f : A -> bool) (l : list A) : Z := Z.of_nat (length (List.filter f l)).

Lemma tally_app {A} (f : A -> bool) l k : tally f (l ++ k) = tally f l + tally f k.
Proof. unfold tally. rewrite List.filter_app, length_app. lia. Qed.

Lemma tally_nonneg {A} (f : A -> bool) l : 0 <= tally f l.
Proof. unfold tally. lia. Qed.

Lemma tally_one {A} (f : A -> bool) a : tally f [a] = if f a then 1 else 0.
Proof. unfold tally. simpl. by destruct (f a). Qed.

Lemma tally_zero {A} (f : A -> bool) l : tally f l = 0 <-> Forall (fun a => f a = false) l.
Proof.
  unfold tally. induction l as [|a l IH]; [by split|].
  simpl. destruct (f a) eqn:E; simpl.
  - split; [lia|]. intros [? _]%Forall_cons_1. congruence.
  - rewrite IH. split; [by constructor|by intros [_ ?]%Forall_cons_1].
Qed.

(** A counter bumped by saturating adds is the count, clamped. *)
Definition sat (n : Z) : Z := Z.min u32_max n.

Lemma sat_bump n : 0 <= n -> u32_saturating_add (sat n) 1 = sat (n + 1).
Proof. unfold sat. intros. zints. Qed.

Lemma reconcile_row_spec m l :
  foldl (reconcile_row m) (default_report, []) l =
  (mkReport (sat (tally known_row l)) (sat (tally (status_differs m) l))
     (sat (tally (untracked m) l)) 0
     (map dor_order_id (List.filter (status_differs m) l)), omap (correction m) l).
Proof.
  induction l as [|d l IH] using rev_ind; [reflexivity|].
  rewrite foldl_app, IH. cbn [foldl]. unfold reconcile_row.
  rewrite !tally_app, !tally_one, List.filter_app, map_app, omap_app.
  cbn [List.filter omap list_omap]. unfold known_row, status_differs, untracked, correction, recognised.
  pose proof (tally_nonneg known_row l). pose proof (tally_nonneg (status_differs m) l).
  pose proof (tally_nonneg (untracked m) l).
  destruct (parse_order_status (dor_order_status d)) as [st|]; cbn.
  2:{ by rewrite !Z.add_0_r, !app_nil_r. }
  destruct (m !! dor_order_id d) as [o|]; cbn.
  2:{ rewrite !Z.add_0_r, !app_nil_r. f_equal. by f_equal; apply sat_bump. }
  rewrite Z.add_0_r. case_bool_decide as Hst; cbn.
  - rewrite Z.add_0_r, !app_nil_r. rewrite sat_bump by done. f_equal.
    case_decide as Ha.
    + destruct Ha as (_ & -> & ->). rewrite Z.eqb_refl. cbn. by rewrite app_nil_r.
    + destruct (Z.eqb_spec (mo_traded_qty o) (dor_traded_quantity d)); cbn; [|done].
      destruct (prices_equal_within_paise _ _) eqn:Hp; cbn; [|done]. by destruct Ha.
  - rewrite !sat_bump by done. rewrite decide_False; [done|]. by intros (? & _).
Qed.

Lemma ghost_row_spec ids l : forall r,
  0 <= missing_from_dhan r ->
  foldl (ghost_row ids) (mkReport (total_checked r) (mismatches_found r) (missing_from_oms r)
    (sat (missing_from_dhan r)) (mismatched_order_ids r)) l =
  mkReport (total_checked r) (mismatches_found r) (missing_from_oms r)
    (sat (missing_from_dhan r + tally (ghost ids) l)) (mismatched_order_ids r).
Proof.
  induction l as [|e l IH]; intros r Hr; cbn [foldl].
  - unfold tally. cbn. by rewrite Z.add_0_r.
  - unfold ghost_row at 2. cbn. rewrite (tally_app _ [e] l : tally (ghost ids) (e :: l) = _), tally_one.
    destruct (ghost ids e).
    + rewrite sat_bump by done. rewrite Z.add_assoc.
      apply (IH (mkReport (total_checked r) (mismatches_found r) (missing_from_oms r)
        (missing_from_dhan r + 1) (mismatched_order_ids r))). cbn. lia.
    + rewrite Z.add_0_l. by apply IH.
Qed.

Lemma reconcile_orders_result m l :
  reconcile_orders m l =
  (mkReport (sat (tally known_row l)) (sat (tally (status_differs m) l))
     (sat (tally (untracked m) l))
     (sat (tally (ghost (list_to_set (map dor_order_id l))) (map_to_list m)))
     (map dor_order_id (List.filter (status_differs m) l)), omap (correction m) l).
Proof.
  unfold reconcile_orders. rewrite reconcile_row_spec. f_equal.
  apply (ghost_row_spec _ _ (mkReport _ _ _ 0 _)). done.
Qed.

(** A reconciliation pass reports exactly the recognised rows, the status
    mismatches with their ids, the untracked rows and the non-terminal orders the
    broker does not list, and emits one correction per tracked row that differs in
    status or fill. *)
Theorem reconcile_orders_report m l :
  reconcile_orders m l =
  (mkReport (sat (tally known_row l)) (sat (tally (status_differs m) l))
     (sat (tally (untracked m) l))
     (sat (tally (ghost (list_to_set (map dor_order_id l))) (map_to_list m)))
     (map dor_order_id (List.filter (status_differs m) l)), omap (correction m) l).
Proof. apply reconcile_orders_result. Qed.

Lemma omap_nil {A B} (f : A -> option B) l : omap f l = [] <-> Forall (fun a => f a = None) l.
Proof.
  induction l as [|a l IH]; [by split|]. cbn. destruct (f a) eqn:E.
  - split; [done|]. intros [? _]%Forall_cons_1. congruence.
  - rewrite IH. split; [by constructor|by intros [_ ?]%Forall_cons_1].
Qed.

Lemma sat_zero n : 0 <= n -> sat n = 0 <-> n = 0.
Proof. unfold sat. zints. Qed.

Lemma correction_none m d :
  correction m d = None <->
  forall st o, recognised d = Some st -> m !! dor_order_id d = Some o -> agrees o st d.
Proof.
  unfold correction. destruct (recognised d) as [st|]; cbn; [|by split].
  destruct (m !! dor_order_id d) as [o|]; cbn; [|by split]. case_decide as Ha.
  - split; [|done]. intros _ st' o' [= <-] [= <-]. done.
  - split; [done|]. intros H. by destruct Ha, (H st o).
Qed.

Lemma no_ghosts m l :
  Forall (fun e => ghost (list_to_set (map dor_order_id l)) e = false) (map_to_list m) <->
  forall k o, m !! k = Some o -> is_terminal o = false -> exists d, d ∈ l /\ dor_order_id d = k.
Proof.
  rewrite Forall_forall. unfold ghost. split.
  - intros H k o Hm Ht. specialize (H (k, o)). cbn in H. rewrite elem_of_map_to_list in H.
    specialize (H Hm). rewrite Ht in H. cbn in H. apply bool_decide_eq_false in H.
    apply dec_stable in H. rewrite elem_of_list_to_set in H.
    apply list_elem_of_fmap in H as (d & -> & Hd). by exists d.
  - intros H [k o] Hm. apply elem_of_map_to_list in Hm. cbn.
    destruct (is_terminal o) eqn:Ht; [done|]. cbn. apply bool_decide_eq_false.
    intros Hk. apply Hk. rewrite elem_of_list_to_set. apply list_elem_of_fmap.
    destruct (H k o Hm Ht) as (d & Hd & <-). by exists d.
Qed.

(** A pass reports no divergence exactly when every recognised row of a
    tracked order agrees with it and every non-terminal order is listed. *)
Theorem reconcile_clean_iff m l :
  let '(report, updates) := reconcile_orders m l in
  (updates = [] <->
   forall d st o, d ∈ l -> recognised d = Some st -> m !! dor_order_id d = Some o -> agrees o st d) /\
  (missing_from_dhan report = 0 <->
   forall k o, m !! k = Some o -> is_terminal o = false -> exists d, d ∈ l /\ dor_order_id d = k).
Proof.
  rewrite reconcile_orders_result. cbn [missing_from_dhan]. split.
  - rewrite omap_nil, Forall_forall. split.
    + intros H d st o Hd. by apply correction_none, H.
    + intros H d Hd. apply correction_none. intros st o. by apply H.
  - rewrite sat_zero by apply tally_nonneg. rewrite tally_zero. apply no_ghosts.
Qed.
