(* ===== verification/CircuitBreaker.v ===== *)
(** The order circuit breaker ([oms/circuit_breaker.rs]).  [Section sequential]
    of definitions models each method run alone, the clock readings it makes as
    arguments; the abstract breaker [abs_*] is what they refine.  [pc] and
    [step] model the same methods one atomic access at a time, for any number
    of threads interleaving under sequential consistency.  Metrics and logs are
    not modelled. *)
From S2P Require Import Prelude.
Local Open Scope Z_scope.

Definition OMS_CIRCUIT_BREAKER_FAILURE_THRESHOLD : Z := 3.
Definition OMS_CIRCUIT_BREAKER_RESET_SECS : Z := 30.

Inductive CircuitState : Type :=
  | StateClosed
  | StateOpen
  | StateHalfOpen.

#[global] Instance CircuitState_eq_dec : EqDecision CircuitState.
Proof. solve_decision. Defined.

Record OrderCircuitBreaker : Type := mkBreaker {
  consecutive_failures : Z;
  failure_threshold : Z;
  opened_at_secs : Z;
  reset_timeout : Z;
  half_open_probe_sent : bool }.

Definition new_breaker : OrderCircuitBreaker :=
  mkBreaker 0 OMS_CIRCUIT_BREAKER_FAILURE_THRESHOLD 0 OMS_CIRCUIT_BREAKER_RESET_SECS false.

Definition set_failures (b : OrderCircuitBreaker) (n : Z) : OrderCircuitBreaker :=
  mkBreaker n (failure_threshold b) (opened_at_secs b) (reset_timeout b) (half_open_probe_sent b).
Definition set_opened_at (b : OrderCircuitBreaker) (t : Z) : OrderCircuitBreaker :=
  mkBreaker (consecutive_failures b) (failure_threshold b) t (reset_timeout b) (half_open_probe_sent b).
Definition set_probe (b : OrderCircuitBreaker) (p : bool) : OrderCircuitBreaker :=
  mkBreaker (consecutive_failures b) (failure_threshold b) (opened_at_secs b) (reset_timeout b) p.

(** The arithmetic part of [state]: what one reading of the two counters and
    the clock means. *)
Definition state_of (b : OrderCircuitBreaker) (failures opened_at now : Z) : CircuitState :=
  if failures <? failure_threshold b then StateClosed
  else if opened_at =? 0 then StateClosed
  else if reset_timeout b <=? u64_saturating_sub now opened_at then StateHalfOpen
  else StateOpen.

Definition state (b : OrderCircuitBreaker) (now : Z) : CircuitState :=
  state_of b (consecutive_failures b) (opened_at_secs b) now.

(** [check]: [true] is [Ok(())], [false] is [Err(CircuitBreakerOpen)].  [now1]
    and [now2] are the readings of its two calls of [state]. *)
Definition check (now1 now2 : Z) (b : OrderCircuitBreaker) : bool * OrderCircuitBreaker :=
  match state b now1 with
  | StateClosed => (true, b)
  | StateHalfOpen =>
      if half_open_probe_sent b then (false, b)
      else
        let b := set_probe b true in
        if decide (state b now2 = StateHalfOpen) then (true, b)
        else (false, set_probe b false)
  | StateOpen => (false, b)
  end.

Definition record_success (b : OrderCircuitBreaker) : OrderCircuitBreaker :=
  set_probe (set_opened_at (set_failures b 0) 0) false.

(** [fetch_add] wraps; the count it is compared by does not. *)
Definition u32_wrapping_add (a b : Z) : Z := (a + b) mod 4294967296.

Definition record_failure (now : Z) (b : OrderCircuitBreaker) : OrderCircuitBreaker :=
  let new_count := u32_saturating_add (consecutive_failures b) 1 in
  let b := set_failures b (u32_wrapping_add (consecutive_failures b) 1) in
  if failure_threshold b <=? new_count then
    if opened_at_secs b =? 0 then set_probe (set_opened_at b now) false
    else if half_open_probe_sent b then set_probe (set_opened_at b now) false
    else b
  else b.

Definition failure_count (b : OrderCircuitBreaker) : Z := consecutive_failures b.

Definition was_previously_open (b : OrderCircuitBreaker) (prev_failures : Z) : bool :=
  failure_threshold b <=? prev_failures.

Definition reset (b : OrderCircuitBreaker) : OrderCircuitBreaker :=
  set_probe (set_opened_at (set_failures b 0) 0) false.

(** * One atomic access at a time *)

(** Where a thread running one method is; [Clock] points hold the value the
    preceding load returned, [Arm] and [Store] the clock reading. *)
Inductive pc : Type :=
  | CheckFailures
  | CheckOpened (failures : Z)
  | CheckClock (failures opened : Z)
  | CheckClaim
  | RecheckFailures
  | RecheckOpened (failures : Z)
  | RecheckClock (failures opened : Z)
  | CheckRelease
  | FailAdd
  | FailClock
  | FailArm (now : Z)
  | FailFreeFirst
  | FailLoadProbe (now : Z)
  | FailStore (now : Z)
  | FailFree
  | SuccessSwap
  | SuccessStore
  | SuccessFree
  | Done (admitted : option bool).

Definition step (now : Z) (p : pc) (b : OrderCircuitBreaker) : pc * OrderCircuitBreaker :=
  match p with
  | CheckFailures =>
      let f := consecutive_failures b in
      (if f <? failure_threshold b then Done (Some true) else CheckOpened f, b)
  | CheckOpened f =>
      (if opened_at_secs b =? 0 then Done (Some true) else CheckClock f (opened_at_secs b), b)
  | CheckClock f o =>
      (match state_of b f o now with
       | StateClosed => Done (Some true)
       | StateHalfOpen => CheckClaim
       | StateOpen => Done (Some false)
       end, b)
  | CheckClaim =>
      if half_open_probe_sent b then (Done (Some false), b)
      else (RecheckFailures, set_probe b true)
  | RecheckFailures =>
      let f := consecutive_failures b in
      (if f <? failure_threshold b then CheckRelease else RecheckOpened f, b)
  | RecheckOpened f =>
      (if opened_at_secs b =? 0 then CheckRelease else RecheckClock f (opened_at_secs b), b)
  | RecheckClock f o =>
      (if decide (state_of b f o now = StateHalfOpen) then Done (Some true) else CheckRelease, b)
  | CheckRelease => (Done (Some false), set_probe b false)
  | FailAdd =>
      let n := u32_saturating_add (consecutive_failures b) 1 in
      (if failure_threshold b <=? n then FailClock else Done None,
       set_failures b (u32_wrapping_add (consecutive_failures b) 1))
  | FailClock => (FailArm now, b)
  | FailArm t =>
      if opened_at_secs b =? 0 then (FailFreeFirst, set_opened_at b t) else (FailLoadProbe t, b)
  | FailFreeFirst => (Done None, set_probe b false)
  | FailLoadProbe t => (if half_open_probe_sent b then FailStore t else Done None, b)
  | FailStore t => (FailFree, set_opened_at b t)
  | FailFree => (Done None, set_probe b false)
  | SuccessSwap => (SuccessStore, set_failures b 0)
  | SuccessStore => (SuccessFree, set_opened_at b 0)
  | SuccessFree => (Done None, set_probe b false)
  | Done r => (Done r, b)
  end.

(** A thread run alone, with one clock value throughout. *)
Fixpoint run (fuel : nat) (now : Z) (p : pc) (b : OrderCircuitBreaker) : pc * OrderCircuitBreaker :=
  match fuel with
  | O => (p, b)
  | S fuel' => let '(p', b') := step now p b in run fuel' now p' b'
  end.

(** Threads interleave: one thread takes one step, at some clock reading. *)
Inductive sys_step (clock : Z -> Prop) :
    list pc * OrderCircuitBreaker -> list pc * OrderCircuitBreaker -> Prop :=
  | sys_step_intro ts b i p now :
      ts !! i = Some p -> clock now ->
      sys_step clock (ts, b) (<[i := fst (step now p b)]> ts, snd (step now p b)).

(** ** A method run alone is its sequential definition *)

Lemma run_check_alone now b :
  run 8 now CheckFailures b = (Done (Some (fst (check now now b))), snd (check now now b)).
Proof.
  destruct b as [f th o rt p].
  destruct (f <? th) eqn:E1, (o =? 0) eqn:E2, (rt <=? u64_saturating_sub now o) eqn:E3, p;
    unfold run, check, state, set_probe; cbn -[state_of];
    repeat (rewrite ?E1, ?E2; cbn -[state_of]); unfold state_of; cbn; rewrite ?E1, ?E2, ?E3;
    cbn; rewrite ?E1; cbn; rewrite ?E2; cbn; unfold state_of; cbn; by rewrite ?E1, ?E2, ?E3.
Qed.

Lemma run_failure_alone now b : run 6 now FailAdd b = (Done None, record_failure now b).
Proof.
  destruct b as [f th o rt p]. unfold record_failure, run. cbn.
  destruct (th <=? u32_saturating_add f 1) eqn:E1; cbn; [|done].
  destruct (o =? 0) eqn:E2; cbn; [done|]. by destruct p.
Qed.

Lemma run_success_alone now b : run 3 now SuccessSwap b = (Done None, record_success b).
Proof. by destruct b. Qed.

(** * The abstract breaker

    Counting failures while closed; open since a time, with the probe of the
    half-open phase spent or not. *)

Inductive abs_breaker : Type :=
  | AbsClosed (failures : Z)
  | AbsOpen (since : Z) (probing : bool).

Inductive op : Type :=
  | OpCheck (now : Z)
  | OpSuccess
  | OpFailure (now : Z)
  | OpReset.

Definition abs_check (timeout now : Z) (a : abs_breaker) : bool * abs_breaker :=
  match a with
  | AbsClosed n => (true, AbsClosed n)
  | AbsOpen since probing =>
      if now <? since + timeout then (false, a)
      else if probing then (false, a)
      else (true, AbsOpen since true)
  end.

Definition abs_failure (threshold now : Z) (a : abs_breaker) : abs_breaker :=
  match a with
  | AbsClosed n => if n + 1 <? threshold then AbsClosed (n + 1) else AbsOpen now false
  | AbsOpen since probing => if probing then AbsOpen now false else a
  end.

(** One operation: the admission it reports, if it is a check. *)
Definition abs_op (threshold timeout : Z) (o : op) (a : abs_breaker) : option bool * abs_breaker :=
  match o with
  | OpCheck now => let '(r, a') := abs_check timeout now a in (Some r, a')
  | OpSuccess | OpReset => (None, AbsClosed 0)
  | OpFailure now => (None, abs_failure threshold now a)
  end.

Definition run_op (o : op) (b : OrderCircuitBreaker) : option bool * OrderCircuitBreaker :=
  match o with
  | OpCheck now => let '(r, b') := check now now b in (Some r, b')
  | OpSuccess => (None, record_success b)
  | OpReset => (None, reset b)
  | OpFailure now => (None, record_failure now b)
  end.

Fixpoint run_ops {S} (f : op -> S -> option bool * S) (ops : list op) (s : S)
    : list (option bool) * S :=
  match ops with
  | [] => ([], s)
  | o :: ops' => let '(r, s') := f o s in let '(rs, s'') := run_ops f ops' s' in (r :: rs, s'')
  end.

Definition op_clock (o : op) : Prop :=
  match o with OpCheck now | OpFailure now => 0 < now <= i64_max | _ => True end.

(** The concrete breaker stands for an abstract one; [budget] failures are
    left before the 32-bit counter could wrap. *)
Definition refines (budget : Z) (b : OrderCircuitBreaker) (a : abs_breaker) : Prop :=
  0 < failure_threshold b <= u32_max /\ 0 < reset_timeout b <= i64_max /\
  consecutive_failures b + budget <= u32_max /\
  match a with
  | AbsClosed n =>
      consecutive_failures b = n /\ 0 <= n < failure_threshold b /\ opened_at_secs b = 0
  | AbsOpen since probing =>
      failure_threshold b <= consecutive_failures b /\ opened_at_secs b = since /\
      0 < since <= i64_max /\ half_open_probe_sent b = probing
  end.

Lemma refines_op budget o b a :
  refines budget b a -> op_clock o -> 1 <= budget ->
  fst (run_op o b) = fst (abs_op (failure_threshold b) (reset_timeout b) o a) /\
  refines (budget - 1) (snd (run_op o b)) (snd (abs_op (failure_threshold b) (reset_timeout b) o a)) /\
  failure_threshold (snd (run_op o b)) = failure_threshold b /\
  reset_timeout (snd (run_op o b)) = reset_timeout b.
Proof.
  destruct b as [f th op_at rt p]. unfold refines. cbn.
  intros (Hth & Hrt & Hbud & Ha) Hc Hb.
  assert (Hf0 : 0 <= f) by (destruct a; lia).
  destruct o as [now| |now|]; cbn in Hc; cbn [run_op abs_op].
  - unfold check, state, state_of. cbn.
    destruct a as [n|since pr]; cbn.
    + destruct Ha as (-> & Hn & ->). destruct (Z.ltb_spec n th); [|lia]. cbn. split_and!; try done; lia.
    + destruct Ha as (Hf & -> & Hs & ->). destruct (Z.ltb_spec f th); [lia|].
      destruct (Z.eqb_spec since 0); [lia|].
      destruct (Z.ltb_spec now (since + rt)), (Z.leb_spec rt (u64_saturating_sub now since));
        try (exfalso; zints).
      * cbn. split_and!; try done; lia.
      * destruct pr; cbn; [split_and!; try done; lia|].
        destruct (Z.ltb_spec f th); [lia|]. destruct (Z.eqb_spec since 0); [lia|].
        destruct (Z.leb_spec rt (u64_saturating_sub now since)); [|lia].
        rewrite decide_True by done. cbn. split_and!; try done; lia.
  - cbn. split_and!; try done; lia.
  - unfold record_failure. cbn. unfold u32_wrapping_add.
    rewrite u32_saturating_add_exact by zints. rewrite Z.mod_small by zints.
    destruct a as [n|since pr]; cbn.
    + destruct Ha as (-> & Hn & ->). destruct (Z.ltb_spec (n + 1) th), (Z.leb_spec th (n + 1)); try lia;
        cbn; split_and!; try done; lia.
    + destruct Ha as (Hf & -> & Hs & ->). destruct (Z.leb_spec th (f + 1)); [|lia].
      destruct (Z.eqb_spec since 0); [lia|]. destruct pr; cbn; split_and!; try done; lia.
  - cbn. split_and!; try done; lia.
Qed.


Lemma refines_ops ops : forall budget b a,
  refines budget b a -> Forall op_clock ops -> Z.of_nat (length ops) <= budget ->
  fst (run_ops run_op ops b) =
    fst (run_ops (abs_op (failure_threshold b) (reset_timeout b)) ops a) /\
  refines (budget - Z.of_nat (length ops)) (snd (run_ops run_op ops b))
    (snd (run_ops (abs_op (failure_threshold b) (reset_timeout b)) ops a)).
Proof.
  induction ops as [|o ops IH]; intros budget b a Hr Hc Hl.
  - cbn. split; [done|]. by rewrite Z.sub_0_r.
  - apply Forall_cons_1 in Hc as [Ho Hc]. cbn [length run_ops] in *.
    destruct (refines_op budget o b a Hr Ho ltac:(lia)) as (E1 & Hr' & Eth & Ert).
    destruct (run_op o b) as [r b'], (abs_op _ _ o a) as [r' a']. cbn [fst snd] in *. subst r'.
    destruct (IH (budget - 1) b' a' Hr' Hc ltac:(lia)) as [E2 Hr''].
    rewrite Eth, Ert in E2, Hr''.
    destruct (run_ops run_op ops b'), (run_ops (abs_op _ _) ops a'). cbn [fst snd] in *.
    split; [by f_equal|]. by replace (budget - Z.of_nat (S (length ops)))
      with (budget - 1 - Z.of_nat (length ops)) by lia.
Qed.

(** C39: Run alone, the breaker's counters answer every sequence of checks,
    successes, failures and resets exactly as the three-state machine closed,
    open, probing does. *)
Theorem breaker_refines_abstract ops :
  Forall op_clock ops -> Z.of_nat (length ops) <= u32_max ->
  fst (run_ops run_op ops new_breaker) = fst (run_ops (abs_op 3 30) ops (AbsClosed 0)).
Proof.
  intros Hc Hl. apply (refines_ops ops u32_max new_breaker (AbsClosed 0)); [|done..].
  unfold refines, new_breaker, OMS_CIRCUIT_BREAKER_FAILURE_THRESHOLD, OMS_CIRCUIT_BREAKER_RESET_SECS.
  cbn. unfold_ints. split_and!; lia.
Qed.

(** ** What the abstract breaker promises *)

Lemma abs_closed_failures thr rt nows : forall n,
  n + Z.of_nat (length nows) < thr ->
  snd (run_ops (abs_op thr rt) (map OpFailure nows) (AbsClosed n)) =
  AbsClosed (n + Z.of_nat (length nows)).
Proof.
  induction nows as [|t nows IH]; intros n H; cbn [map run_ops length] in *.
  - cbn. f_equal. lia.
  - cbn [abs_op abs_failure]. destruct (Z.ltb_spec (n + 1) thr); [|lia].
    specialize (IH (n + 1) ltac:(lia)).
    destruct (run_ops _ _ (AbsClosed (n + 1))). cbn in *. rewrite IH. f_equal. lia.
Qed.

(** While open with the probe spent, checks never pass and never change it. *)
Lemma abs_probing_checks thr rt since nows :
  run_ops (abs_op thr rt) (map OpCheck nows) (AbsOpen since true) =
  (replicate (length nows) (Some false), AbsOpen since true).
Proof.
  induction nows as [|t nows IH]; [done|]. cbn [map run_ops abs_op abs_check length replicate].
  destruct (t <? since + rt); rewrite IH; done.
Qed.

Lemma run_ops_app {S} (f : op -> S -> option bool * S) ops1 ops2 s :
  run_ops f (ops1 ++ ops2) s =
  (fst (run_ops f ops1 s) ++ fst (run_ops f ops2 (snd (run_ops f ops1 s))),
   snd (run_ops f ops2 (snd (run_ops f ops1 s)))).
Proof.
  revert s. induction ops1 as [|o ops1 IH]; intros s; cbn [app run_ops fst snd].
  - by destruct (run_ops f ops2 s).
  - destruct (f o s) as [r s']. rewrite IH. by destruct (run_ops f ops1 s').
Qed.

(** While open and inside the window, checks are refused. *)
Lemma abs_open_checks thr rt since pr nows :
  Forall (fun t => t < since + rt) nows ->
  run_ops (abs_op thr rt) (map OpCheck nows) (AbsOpen since pr) =
  (replicate (length nows) (Some false), AbsOpen since pr).
Proof.
  induction 1 as [|t nows Ht _ IH]; [done|]. cbn [map run_ops abs_op abs_check length replicate].
  destruct (Z.ltb_spec t (since + rt)); [|lia]. by rewrite IH.
Qed.

(** Three failures open the circuit: requests are refused for thirty seconds,
    then one probe passes and the others wait; a failed probe closes the window
    again for thirty seconds from that failure, after which the next probe passes.
    *)
Theorem breaker_blocks_then_probes t1 t2 t3 blocked p1 spent f blocked' p2 :
  let ops := map OpFailure [t1; t2; t3] ++ map OpCheck blocked ++ [OpCheck p1] ++
    map OpCheck spent ++ [OpFailure f] ++ map OpCheck blocked' ++ [OpCheck p2] in
  Forall op_clock ops -> Z.of_nat (length ops) <= u32_max ->
  Forall (fun t => t < t3 + 30) blocked -> t3 + 30 <= p1 ->
  Forall (fun t => t < f + 30) blocked' -> f + 30 <= p2 ->
  fst (run_ops run_op ops new_breaker) =
  [None; None; None] ++ replicate (length blocked) (Some false) ++ [Some true] ++
  replicate (length spent) (Some false) ++ [None] ++
  replicate (length blocked') (Some false) ++ [Some true].
Proof.
  intros ops Hc Hl Hb Hp1 Hb' Hp2.
  assert (Hr : refines u32_max new_breaker (AbsClosed 0)).
  { unfold refines, new_breaker, OMS_CIRCUIT_BREAKER_FAILURE_THRESHOLD, OMS_CIRCUIT_BREAKER_RESET_SECS.
    cbn. unfold_ints. split_and!; lia. }
  destruct (refines_ops ops u32_max _ _ Hr Hc Hl) as [-> _].
  change (failure_threshold new_breaker) with 3. change (reset_timeout new_breaker) with 30.
  unfold ops. rewrite !run_ops_app.
  assert (H3 : run_ops (abs_op 3 30) (map OpFailure [t1; t2; t3]) (AbsClosed 0) =
    ([None; None; None], AbsOpen t3 false)) by reflexivity.
  rewrite H3. cbn [fst snd]. rewrite abs_open_checks by done. cbn [fst snd run_ops abs_op abs_check].
  destruct (Z.ltb_spec p1 (t3 + 30)); [lia|]. cbn [fst snd].
  rewrite abs_probing_checks. cbn [fst snd abs_failure].
  rewrite abs_open_checks by done. cbn [fst snd abs_check].
  destruct (Z.ltb_spec p2 (f + 30)); [lia|]. reflexivity.
Qed.

(** * Interleaved threads: one probe per half-open window *)

Definition count (f : pc -> nat) (ts : list pc) : nat := sum_list (map f ts).

Lemma count_insert f ts i p q :
  ts !! i = Some p -> (count f (<[i := q]> ts) + f p = count f ts + f q)%nat.
Proof.
  unfold count. revert i. induction ts as [|t ts IH]; intros [|i] H; simpl in *; simplify_eq; [lia|].
  specialize (IH i H). lia.
Qed.

Lemma count_lookup f ts i p : ts !! i = Some p -> (f p <= count f ts)%nat.
Proof.
  unfold count. revert i. induction ts as [|t ts IH]; intros [|i] H; simpl in *; simplify_eq; [lia|].
  specialize (IH i H). lia.
Qed.

Lemma count_le (f g : pc -> nat) ts : (forall p, f p <= g p)%nat -> (count f ts <= count g ts)%nat.
Proof. intros H. unfold count. induction ts as [|t ts IH]; simpl; [lia|]. specialize (H t). lia. Qed.

Section window.
(** A breaker already open since [old], whose window is over at every clock
    reading the threads make; the readings span less than one window. *)
Context (old t0 : Z) (th rt : Z).
Context (Hold : 0 < old) (Ht0 : old + rt <= t0) (Hrt : 0 < rt) (Hth : 0 < th).
Context (Hmax : t0 + rt <= u64_max).

Definition in_window (now : Z) : Prop := t0 <= now < t0 + rt.

(** Threads that own the probe flag; that will be admitted on what they have
    read; that will free a flag; that have a failure still to count. *)
Definition owner (p : pc) : nat :=
  match p with
  | RecheckFailures | RecheckOpened _ | RecheckClock _ _ | CheckRelease | Done (Some true) => 1
  | _ => 0
  end.
Definition committed (p : pc) : nat :=
  match p with
  | RecheckClock _ o => if o =? old then 1 else 0
  | Done (Some true) => 1
  | _ => 0
  end.
Definition freeing (p : pc) : nat :=
  match p with
  | CheckRelease | FailFree | FailFreeFirst => 1
  | RecheckClock _ o => if o =? old then 0 else 1
  | _ => 0
  end.
Definition failing (p : pc) : nat := match p with FailAdd => 1 | _ => 0 end.

(** What each thread has read, or carries. *)
Definition pc_ok (p : pc) : Prop :=
  match p with
  | CheckOpened f | RecheckOpened f => th <= f
  | CheckClock f o | RecheckClock f o => th <= f /\ (o = old \/ in_window o)
  | FailArm t | FailLoadProbe t | FailStore t => in_window t
  | SuccessStore | SuccessFree => False
  | _ => True
  end.

(** [p0] is 1 when the flag was taken before the threads started. *)
Definition window_inv (p0 : nat) (s : list pc * OrderCircuitBreaker) : Prop :=
  let '(ts, b) := s in
  failure_threshold b = th /\ reset_timeout b = rt /\
  th <= consecutive_failures b /\
  consecutive_failures b + Z.of_nat (count failing ts) <= u32_max /\
  Forall pc_ok ts /\
  ((opened_at_secs b = old /\ count freeing ts = 0%nat /\
    (count owner ts + p0 = Nat.b2n (half_open_probe_sent b))%nat) \/
   (in_window (opened_at_secs b) /\ (count committed ts + p0 <= 1)%nat)).

Lemma committed_le_owner p : (committed p <= owner p)%nat.
Proof. destruct p as [| | | | | |f o| | | | | | | | | | | |[[]|]]; simpl; try lia. destruct (_ =? _); lia. Qed.

Lemma state_of_old b f now :
  failure_threshold b = th -> reset_timeout b = rt -> th <= f -> in_window now ->
  state_of b f old now = StateHalfOpen.
Proof using Hold Ht0 Hmax Hth Hrt.
  intros Eth Ert Hf [Hl Hu]. unfold state_of. rewrite Eth, Ert.
  destruct (Z.ltb_spec f th); [lia|]. destruct (Z.eqb_spec old 0); [lia|].
  destruct (Z.leb_spec rt (u64_saturating_sub now old)); [done|]. zints.
Qed.

Lemma state_of_new b f o now :
  failure_threshold b = th -> reset_timeout b = rt -> th <= f -> in_window o -> in_window now ->
  state_of b f o now = StateOpen.
Proof using Hold Ht0 Hmax Hth Hrt.
  intros Eth Ert Hf [Hl Hu] [Hl' Hu']. unfold state_of. rewrite Eth, Ert.
  destruct (Z.ltb_spec f th); [lia|]. destruct (Z.eqb_spec o 0); [lia|].
  destruct (Z.leb_spec rt (u64_saturating_sub now o)); [|done]. zints.
Qed.

Ltac close_local :=
  cbn [set_failures set_probe set_opened_at failure_threshold reset_timeout opened_at_secs
    consecutive_failures half_open_probe_sent pc_ok failing freeing owner committed Nat.b2n] in *;
  split_and!; try done; try lia; try (by left); try (by right); intros;
  try match goal with E : half_open_probe_sent _ = _ |- _ => rewrite ?E end;
  try (case_decide; try split; cbn; try done; zcases; try done; try lia; congruence);
  try (zcases; done || lia || congruence).

(** How one step changes the thread's own weights and the breaker. *)
Lemma step_local now p b :
  failure_threshold b = th -> reset_timeout b = rt -> th <= consecutive_failures b ->
  consecutive_failures b + Z.of_nat (failing p) <= u32_max ->
  opened_at_secs b = old \/ in_window (opened_at_secs b) -> pc_ok p -> p <> SuccessSwap -> in_window now ->
  let '(q, b') := step now p b in
  failure_threshold b' = th /\ reset_timeout b' = rt /\ pc_ok q /\
  consecutive_failures b' + Z.of_nat (failing q) = consecutive_failures b + Z.of_nat (failing p) /\
  th <= consecutive_failures b' /\
  (opened_at_secs b' = opened_at_secs b \/ in_window (opened_at_secs b')) /\
  (opened_at_secs b <> old -> (committed q <= committed p)%nat) /\
  (opened_at_secs b = old -> freeing p = 0%nat ->
   if decide (opened_at_secs b' = old) then
     freeing q = 0%nat /\
     (owner q + Nat.b2n (half_open_probe_sent b) = owner p + Nat.b2n (half_open_probe_sent b'))%nat
   else (committed q <= owner p)%nat).
Proof using Hold Ht0 Hmax Hth Hrt.
  intros Eth Ert Hf Hbud Ho Hp Hsw Hnow.
  assert (Hne : opened_at_secs b <> 0) by (unfold in_window in Ho; lia).
  assert (Hw : forall t, in_window t -> t <> old) by (unfold in_window; lia).
  destruct p as [|f|f o| | |f|f o| | | |t| |t|t| | | | |r]; cbn [step].
  all: try (rewrite (proj2 (Z.eqb_neq _ _) Hne)).
  all: try (rewrite Eth; destruct (Z.ltb_spec (consecutive_failures b) th); [lia|]).
  all: cbn [pc_ok] in Hp.
  1-2: close_local.
  - (* CheckClock *)
    destruct Hp as [Hpf [->|Hpo]].
    + rewrite state_of_old by done. close_local.
    + rewrite state_of_new by done. close_local.
  - (* CheckClaim *) destruct (half_open_probe_sent b) eqn:Epr; close_local.
  - close_local.
  - close_local.
  - (* RecheckClock *)
    destruct Hp as [Hpf [->|Hpo]].
    + rewrite state_of_old by done. rewrite decide_True by done. close_local.
    + pose proof (Hw o Hpo). rewrite state_of_new by done. rewrite decide_False by done. close_local.
  - close_local.
  - (* FailAdd *)
    cbn [failing] in Hbud. rewrite u32_saturating_add_exact by zints.
    unfold u32_wrapping_add. rewrite Z.mod_small by zints.
    rewrite ?Eth. destruct (Z.leb_spec th (consecutive_failures b + 1)); [|lia]. close_local.
  - close_local.
  - close_local.
  - close_local.
  - destruct (half_open_probe_sent b) eqn:Epr; close_local.
  - pose proof (Hw t Hp). close_local.
  - close_local.
  - done.
  - done.
  - done.
  - close_local.
Qed.

Lemma window_inv_step p0 s s' :
  window_inv p0 s -> sys_step in_window s s' ->
  (forall i, s.1 !! i = Some SuccessSwap -> s'.1 !! i = Some SuccessSwap) -> window_inv p0 s'.
Proof using Hold Ht0 Hmax Hth Hrt.
  intros Hinv Hs Hnone. destruct Hs as [ts b i p now Hi Hnow].
  assert (Hsw : p <> SuccessSwap).
  { intros ->. specialize (Hnone i Hi). cbn [fst] in Hnone.
    rewrite list_lookup_insert_eq in Hnone by (by eapply lookup_lt_Some). done. }
  destruct Hinv as (Eth & Ert & Hf & Hbud & Hpcs & Hphase).
  assert (Hp : pc_ok p) by (by eapply Forall_lookup_1).
  pose proof (count_lookup failing ts i p Hi) as Hfp.
  assert (Ho : opened_at_secs b = old \/ in_window (opened_at_secs b))
    by (destruct Hphase as [[? _]|[? _]]; auto).
  pose proof (step_local now p b Eth Ert Hf ltac:(lia) Ho Hp Hsw Hnow) as Hl.
  destruct (step now p b) as [q b'] eqn:Est. cbn [fst snd].
  destruct Hl as (Eth' & Ert' & Hq & Hbq & Hf' & Ho' & Hnew & Hold').
  pose proof (count_insert failing ts i p q Hi). pose proof (count_insert owner ts i p q Hi).
  pose proof (count_insert committed ts i p q Hi). pose proof (count_insert freeing ts i p q Hi).
  assert (Hne : forall t, in_window t -> t <> old) by (unfold in_window; lia).
  split_and!; [done|done|done|lia|by apply Forall_insert|].
  destruct Hphase as [(Eo & Hfree & Hown)|(Hwin & Hcom)].
  - pose proof (count_lookup freeing ts i p Hi).
    specialize (Hold' Eo ltac:(lia)). destruct (decide (opened_at_secs b' = old)) as [Eo'|Eo'].
    + left. destruct Hold' as [Hfq Hoq]. split_and!; [done|lia|lia].
    + right. split; [destruct Ho' as [Ho'|Ho']; [congruence|done]|].
      pose proof (count_le committed owner ts committed_le_owner).
      pose proof (count_le committed owner (<[i := q]> ts) committed_le_owner).
      pose proof (count_lookup owner ts i p Hi).
      assert (Nat.b2n (half_open_probe_sent b) <= 1)%nat by (destruct (half_open_probe_sent b); simpl; lia).
      assert (count committed ts - committed p <= count owner ts - owner p)%nat.
      { clear -Hi. revert i Hi. unfold count. induction ts as [|t ts IH]; intros [|i] Hi; [done..| |].
        - cbn in *. simplify_eq. cbn.
          pose proof (count_le committed owner ts committed_le_owner). unfold count in *. lia.
        - cbn in *. specialize (IH i Hi). pose proof (committed_le_owner t).
          pose proof (count_lookup committed ts i p Hi). pose proof (count_lookup owner ts i p Hi).
          unfold count in *. lia. }
      lia.
  - right. specialize (Hnew (Hne _ Hwin)). split; [|lia].
    destruct Ho' as [->|Ho']; done.
Qed.

Definition admitted (p : pc) : nat := match p with Done (Some true) => 1 | _ => 0 end.

Lemma window_inv_admitted p0 ts b :
  window_inv p0 (ts, b) -> (count admitted ts + p0 <= 1)%nat.
Proof using Type.
  intros (_ & _ & _ & _ & _ & Hphase).
  assert (count admitted ts <= count committed ts)%nat.
  { apply count_le. intros p. by destruct p as [| | | | | | | | | | | | | | | | | |[[]|]]; simpl; lia. }
  pose proof (count_le committed owner ts committed_le_owner).
  destruct Hphase as [(_ & _ & Hown)|[_ Hcom]]; [|lia].
  destruct (half_open_probe_sent b); simpl in Hown; lia.
Qed.
End window.

(** Threads about to call [check], [record_failure], or [record_success] or [reset],
    which both begin by clearing the count. *)
Definition starts (p : pc) : Prop := p = CheckFailures \/ p = FailAdd \/ p = SuccessSwap.

Lemma count_starts (f : pc -> nat) ts :
  f CheckFailures = 0%nat -> f FailAdd = 0%nat -> f SuccessSwap = 0%nat -> Forall starts ts -> count f ts = 0%nat.
Proof.
  intros H1 H2 H3. unfold count. induction 1 as [|p ts [->|[->| ->]] _ IH]; simpl; lia.
Qed.

(** A thread past its first access does not come back to it. *)
Lemma begun_stays clock i s s' : rtc (sys_step clock) s s' -> s'.1 !! i = Some SuccessSwap -> s.1 !! i = Some SuccessSwap.
Proof.
  induction 1 as [s|s1 s2 s3 Hs _ IH]; [done|]. intros H%IH. destruct Hs as [ts b j p now Hj _]. cbn [fst] in *.
  destruct (decide (i = j)) as [->|Hne]; [|by rewrite list_lookup_insert_ne in H].
  rewrite list_lookup_insert_eq in H by (by eapply lookup_lt_Some). exfalso. injection H as H. revert H. unfold step.
  destruct p; try done; repeat case_match; done.
Qed.

(** C29: When any number of threads run check, record_failure, record_success
    and reset one atomic access at a time on an expired open circuit, for one more
    reset timeout and until a success or a reset makes its first access, which
    closes the circuit, at most one request gets through, the probe already sent
    included. *)
Theorem single_probe_interleaved b t0 ts ts' b' :
  0 < failure_threshold b <= consecutive_failures b ->
  consecutive_failures b + Z.of_nat (length ts) <= u32_max ->
  0 < opened_at_secs b -> 0 < reset_timeout b ->
  opened_at_secs b + reset_timeout b <= t0 -> t0 + reset_timeout b <= u64_max ->
  Forall starts ts ->
  (forall i, ts !! i = Some SuccessSwap -> ts' !! i = Some SuccessSwap) ->
  rtc (sys_step (fun now => t0 <= now < t0 + reset_timeout b)) (ts, b) (ts', b') ->
  (count admitted ts' + Nat.b2n (half_open_probe_sent b) <= 1)%nat.
Proof.
  intros Hth Hbud Ho Hrt Ht0 Hmax Hts Hnone Hrtc.
  assert (Hinit : window_inv (opened_at_secs b) t0 (failure_threshold b) (reset_timeout b)
    (Nat.b2n (half_open_probe_sent b)) (ts, b)).
  { split_and!; try done; [lia| | |].
    - assert (count failing ts <= length ts)%nat; [|lia].
      unfold count. clear. induction ts as [|p ts IH]; simpl; [lia|]. destruct p; simpl; lia.
    - eapply Forall_impl; [exact Hts|]. by intros p [->|[->| ->]].
    - left. rewrite !count_starts by done. split_and!; done. }
  apply (window_inv_admitted (opened_at_secs b) t0 (failure_threshold b) (reset_timeout b) _ ts' b').
  generalize dependent Hinit. generalize (Nat.b2n (half_open_probe_sent b)).
  intros p0 Hinit. change ts with (ts, b).1 in Hnone. change ts' with (ts', b').1 in Hnone.
  remember (ts, b) as s eqn:Es. remember (ts', b') as s' eqn:Es'.
  clear Es Es' Hts Hbud. induction Hrtc as [s|s1 s2 s3 Hs Hrest IH]; [done|].
  assert (H12 : forall i, s1.1 !! i = Some SuccessSwap -> s2.1 !! i = Some SuccessSwap)
    by (intros i Hi; by apply (begun_stays _ i _ _ Hrest), Hnone).
  apply IH.
  - intros i Hi. apply Hnone, (begun_stays _ i s1 s2 (rtc_once _ _ Hs) Hi).
  - eapply window_inv_step; [..|exact Hinit|exact Hs|exact H12]; lia.
Qed.

(** * Instances *)

Lemma breaker_refines_abstract_witness :
  let ops := [OpFailure 10; OpFailure 11; OpFailure 12; OpCheck 20; OpCheck 42; OpCheck 43; OpFailure 44;
              OpCheck 60; OpCheck 74] in
  fst (run_ops run_op ops new_breaker) = fst (run_ops (abs_op 3 30) ops (AbsClosed 0)).
Proof.
  intros ops. apply breaker_refines_abstract; [|vm_compute; discriminate].
  repeat constructor; cbn; unfold i64_max; lia.
Defined.

Lemma breaker_blocks_then_probes_witness :
  fst (run_ops run_op (map OpFailure [10; 11; 12] ++ map OpCheck [20; 41] ++ [OpCheck 42] ++
         map OpCheck [43] ++ [OpFailure 44] ++ map OpCheck [50; 73] ++ [OpCheck 74]) new_breaker) =
  [None; None; None] ++ [Some false; Some false] ++ [Some true] ++ [Some false] ++ [None] ++
  [Some false; Some false] ++ [Some true].
Proof.
  apply (breaker_blocks_then_probes 10 11 12 [20; 41] 42 [43] 44 [50; 73] 74);
    [repeat constructor; cbn; unfold i64_max; lia|vm_compute; discriminate|repeat constructor; lia|lia|
     repeat constructor; lia|lia].
Defined.

(** One atomic access by thread [i] at time [t]. *)
Ltac advance i t :=
  eapply rtc_l; [eapply (sys_step_intro _ _ _ i _ t); [reflexivity|cbn; lia]|cbn].

(** Two threads check an expired open circuit, their accesses interleaved, while a
    third is about to report a success; one probe gets through. *)
Lemma single_probe_interleaved_witness :
  let b := mkBreaker 3 3 100 30 false in
  let ts := [Done (Some true); Done (Some false); SuccessSwap] in
  rtc (sys_step (fun now => 200 <= now < 200 + reset_timeout b))
    ([CheckFailures; CheckFailures; SuccessSwap], b) (ts, set_probe b true) /\
  count admitted ts = 1%nat /\ (count admitted ts + Nat.b2n (half_open_probe_sent b) <= 1)%nat.
Proof.
  intros b ts.
  assert (Hrun : rtc (sys_step (fun now => 200 <= now < 200 + reset_timeout b))
    ([CheckFailures; CheckFailures; SuccessSwap], b) (ts, set_probe b true)).
  { do 4 (advance 0%nat 200; advance 1%nat 201). do 3 advance 0%nat 202.
    apply rtc_refl. }
  split; [exact Hrun|]. split; [reflexivity|].
  apply (single_probe_interleaved b 200 [CheckFailures; CheckFailures; SuccessSwap] ts (set_probe b true));
    [cbn; lia|cbn; unfold u32_max; lia|cbn; lia|cbn; lia|cbn; lia|cbn; unfold u64_max; lia|
     repeat constructor; unfold starts; tauto|by intros [|[|[|]]]|exact Hrun].
Defined.
