(* ===== verification/Correlations.v ===== *)
(** Correlation ids ([oms/idempotency.rs]): the inline 30-byte key, the bounded
    tracker that refuses rather than evicts, and the pool of ids drawn ahead of
    use.  The UUID library is a parameter: [draw n] is the 32-character
    hyphen-less lowercase hexadecimal form of the [n]-th UUID the process
    draws; the tracker counts its draws. *)
From Stdlib Require Import Strings.Byte.
From S2P Require Import Prelude Bytes.
Local Open Scope Z_scope.

Definition MAX_TRACKED_CORRELATIONS : Z := 50000.
Definition CORRELATION_ID_POOL_SIZE : nat := 256.
Definition DHAN_CORRELATION_ID_MAX_LENGTH : nat := 30.

Inductive TrackOutcome : Type :=
  | Tracked
  | Replaced
  | CapacityExhausted
  | IdTooLong.

#[global] Instance TrackOutcome_eq_dec : EqDecision TrackOutcome.
Proof. solve_decision. Defined.

(** * The inline key *)

Record CorrelationKey : Type := mkKey {
  key_len : Z;
  key_bytes : list byte }.

#[global] Instance CorrelationKey_eq_dec : EqDecision CorrelationKey.
Proof. solve_decision. Defined.

#[global] Instance byte_countable : Countable byte :=
  inj_countable Byte.to_N Byte.of_N Byte.of_to_N.

#[global] Instance CorrelationKey_countable : Countable CorrelationKey.
Proof.
  refine (inj_countable' (fun k => (key_len k, key_bytes k)) (fun p => mkKey (fst p) (snd p)) _).
  by intros [? ?].
Defined.

(** [CorrelationKey::new]: the id's bytes, zero-padded to the fixed width;
    [None] when they do not fit. *)
Definition new_key (id : string) : option CorrelationKey :=
  let src := String.list_byte_of_string id in
  if zlen src >? Z.of_nat DHAN_CORRELATION_ID_MAX_LENGTH then None
  else Some (mkKey (zlen src)
    (src ++ replicate (DHAN_CORRELATION_ID_MAX_LENGTH - length src) Byte.x00)).

(** * The tracker *)

Record CorrelationTracker : Type := mkTracker {
  index_map : gmap CorrelationKey string;
  id_pool : list (list byte);
  drawn : nat }.

Definition with_index (t : CorrelationTracker) (m : gmap CorrelationKey string) : CorrelationTracker :=
  mkTracker m (id_pool t) (drawn t).

Definition track_ref (correlation_id order_id : string) (t : CorrelationTracker)
    : TrackOutcome * CorrelationTracker :=
  match new_key correlation_id with
  | None => (IdTooLong, t)
  | Some key =>
      match index_map t !! key with
      | Some _ => (Replaced, with_index t (<[key := order_id]> (index_map t)))
      | None =>
          if MAX_TRACKED_CORRELATIONS <=? Z.of_nat (size (index_map t))
          then (CapacityExhausted, t)
          else (Tracked, with_index t (<[key := order_id]> (index_map t)))
      end
  end.

Definition track (correlation_id order_id : string) (t : CorrelationTracker)
    : TrackOutcome * CorrelationTracker := track_ref correlation_id order_id t.

Definition get_order_id (t : CorrelationTracker) (correlation_id : string) : option string :=
  key ← new_key correlation_id; index_map t !! key.

Definition contains (t : CorrelationTracker) (correlation_id : string) : bool :=
  match new_key correlation_id with
  | Some key => bool_decide (is_Some (index_map t !! key))
  | None => false
  end.

Definition tracker_len (t : CorrelationTracker) : Z := Z.of_nat (size (index_map t)).
Definition tracker_is_empty (t : CorrelationTracker) : bool := tracker_len t =? 0.

(** ** Ids *)

Definition correlation_id_bytes (hex : list byte) : list byte :=
  take DHAN_CORRELATION_ID_MAX_LENGTH hex.

Definition correlation_id_string (bytes : list byte) : string := String.string_of_list_byte bytes.

Section uuid.
Context (draw : nat -> list byte).

Definition generate_id (t : CorrelationTracker) : string * CorrelationTracker :=
  (correlation_id_string (correlation_id_bytes (draw (drawn t))),
   mkTracker (index_map t) (id_pool t) (S (drawn t))).

(** [while self.id_pool.len() < CORRELATION_ID_POOL_SIZE { push }]. *)
Fixpoint refill_loop (fuel : nat) (t : CorrelationTracker) : CorrelationTracker :=
  match fuel with
  | O => t
  | S fuel' =>
      if (length (id_pool t) <? CORRELATION_ID_POOL_SIZE)%nat
      then refill_loop fuel' (mkTracker (index_map t)
             (id_pool t ++ [correlation_id_bytes (draw (drawn t))]) (S (drawn t)))
      else t
  end.

Definition refill_id_pool (t : CorrelationTracker) : CorrelationTracker :=
  refill_loop (S CORRELATION_ID_POOL_SIZE) t.

(** [Vec::pop] takes the last element. *)
Definition next_id (t : CorrelationTracker) : string * CorrelationTracker :=
  match last (id_pool t) with
  | Some bytes =>
      (correlation_id_string bytes,
       mkTracker (index_map t) (take (length (id_pool t) - 1) (id_pool t)) (drawn t))
  | None => generate_id t
  end.

(** [prefault_index]: placeholder keys in, then cleared. *)
Definition prefault_index (capacity : nat) (t : CorrelationTracker) : CorrelationTracker :=
  let n := Nat.min capacity CORRELATION_ID_POOL_SIZE in
  let filled := foldl (fun m i =>
    <[mkKey 8 (le_encode 8 (Z.of_nat i) ++ replicate 22 Byte.x00) := ""]> m)
    (index_map t) (seq 0 n) in
  with_index (with_index t filled) ∅.

Definition new_tracker (capacity : nat) : CorrelationTracker :=
  prefault_index capacity (refill_id_pool (mkTracker ∅ [] 0)).

Definition clear (t : CorrelationTracker) : CorrelationTracker :=
  refill_id_pool (with_index t ∅).
End uuid.

(** * The key is the id: no truncation, no collision *)

Lemma new_key_none id : new_key id = None <-> (30 < String.length id)%nat.
Proof.
  assert (H : forall l, String.length (String.string_of_list_byte l) = length l).
  { intros l. unfold String.string_of_list_byte. induction l as [|b l IH]; [done|]. simpl. by rewrite IH. }
  pose proof (H (String.list_byte_of_string id)) as Hl.
  rewrite String.string_of_list_byte_of_string in Hl. rewrite Hl.
  unfold new_key, DHAN_CORRELATION_ID_MAX_LENGTH, zlen. rewrite Z.gtb_ltb.
  zcases; split; intros; try done; lia.
Qed.

Lemma new_key_inj a b k : new_key a = Some k -> new_key b = Some k -> a = b.
Proof.
  unfold new_key. destruct (_ >? _) eqn:Ea; [done|]. destruct (zlen (String.list_byte_of_string b) >? _) eqn:Eb; [done|].
  intros <- [= Hl Hb]. rewrite <- (String.string_of_list_byte_of_string a).
  rewrite <- (String.string_of_list_byte_of_string b). f_equal.
  assert (Hlen : length (String.list_byte_of_string a) = length (String.list_byte_of_string b))
    by (unfold zlen in Hl; lia).
  rewrite Hlen in Hb. by apply app_inv_tail in Hb.
Qed.

Lemma new_key_ne a b ka kb : new_key a = Some ka -> new_key b = Some kb -> a <> b -> ka <> kb.
Proof. intros Ha Hb Hne ->. apply Hne. by eapply new_key_inj. Qed.

(** * The tracker against an abstract map

    The contract: a partial map from ids to order ids with a capacity; a
    refusal leaves it as it is. *)

Abbreviation abs_tracker := (gmap string string).

Definition abs_track (cid oid : string) (m : abs_tracker) : TrackOutcome * abs_tracker :=
  if (30 <? String.length cid)%nat then (IdTooLong, m)
  else if decide (is_Some (m !! cid)) then (Replaced, <[cid := oid]> m)
  else if 50000 <=? Z.of_nat (size m) then (CapacityExhausted, m)
  else (Tracked, <[cid := oid]> m).

(** Same entries, key for id. *)
Definition tracks (t : CorrelationTracker) (m : abs_tracker) : Prop :=
  (forall cid, get_order_id t cid = m !! cid) /\ size (index_map t) = size m.

Lemma tracks_insert t m cid oid key :
  tracks t m -> new_key cid = Some key ->
  tracks (with_index t (<[key := oid]> (index_map t))) (<[cid := oid]> m).
Proof.
  intros [Hg Hs] Hk. assert (Hkey : index_map t !! key = m !! cid).
  { rewrite <- Hg. unfold get_order_id. by rewrite Hk. }
  split.
  - intros cid'. unfold get_order_id. cbn [index_map with_index].
    destruct (decide (cid' = cid)) as [->|Hne].
    + rewrite Hk. cbn. by rewrite !lookup_insert_eq.
    + rewrite lookup_insert_ne by done. rewrite <- Hg. unfold get_order_id.
      destruct (new_key cid') as [k'|] eqn:Hk'; [|done]. cbn.
      apply lookup_insert_ne. by eapply new_key_ne.
  - cbn [index_map with_index]. rewrite !map_size_insert, Hkey, Hs. done.
Qed.

Lemma track_refines t m cid oid :
  tracks t m ->
  fst (track_ref cid oid t) = fst (abs_track cid oid m) /\
  tracks (snd (track_ref cid oid t)) (snd (abs_track cid oid m)).
Proof.
  intros Ht. pose proof Ht as [Hg Hs]. unfold track_ref, abs_track, MAX_TRACKED_CORRELATIONS.
  destruct (new_key cid) as [key|] eqn:Hk.
  - assert ((30 <? String.length cid)%nat = false) as ->.
    { apply Nat.ltb_ge. destruct (le_lt_dec (String.length cid) 30); [done|].
      apply new_key_none in l. congruence. }
    specialize (Hg cid). unfold get_order_id in Hg. rewrite Hk in Hg. cbn in Hg. rewrite Hg.
    destruct (m !! cid) as [o|] eqn:Hm.
    + rewrite decide_True by eauto. split; [done|]. by apply tracks_insert.
    + rewrite decide_False by (by intros [? ?]). rewrite Hs.
      destruct (_ <=? _); [done|]. split; [done|]. by apply tracks_insert.
  - apply new_key_none in Hk. by rewrite (proj2 (Nat.ltb_lt _ _) Hk).
Qed.

Fixpoint track_all {S} (f : string -> string -> S -> TrackOutcome * S)
    (l : list (string * string)) (s : S) : list TrackOutcome * S :=
  match l with
  | [] => ([], s)
  | (c, o) :: l' => let '(r, s') := f c o s in let '(rs, s'') := track_all f l' s' in (r :: rs, s'')
  end.

Lemma track_all_refines l : forall t m,
  tracks t m ->
  fst (track_all track_ref l t) = fst (track_all abs_track l m) /\
  tracks (snd (track_all track_ref l t)) (snd (track_all abs_track l m)).
Proof.
  induction l as [|[c o] l IH]; intros t m Ht; [done|]. cbn [track_all].
  destruct (track_refines t m c o Ht) as [E1 Ht'].
  destruct (track_ref c o t) as [r t'], (abs_track c o m) as [r' m']. cbn [fst snd] in *. subst r'.
  destruct (IH t' m' Ht') as [E2 Ht''].
  destruct (track_all track_ref l t'), (track_all abs_track l m'). cbn [fst snd] in *.
  by subst.
Qed.

Lemma abs_track_size cid oid m :
  Z.of_nat (size m) <= 50000 -> Z.of_nat (size (snd (abs_track cid oid m))) <= 50000.
Proof.
  intros H. unfold abs_track. destruct (_ <? _)%nat; [done|].
  case_decide as Hm.
  - cbn. rewrite map_size_insert. by destruct Hm as [x ->].
  - destruct (Z.leb_spec 50000 (Z.of_nat (size m))); [done|]. cbn.
    rewrite map_size_insert. destruct (m !! cid); simpl; lia.
Qed.

Lemma abs_track_keeps cid oid m c o :
  m !! c = Some o -> c <> cid -> snd (abs_track cid oid m) !! c = Some o.
Proof.
  intros Hm Hne. unfold abs_track. destruct (_ <? _)%nat; [done|]. case_decide.
  - cbn. by rewrite lookup_insert_ne.
  - destruct (_ <=? _); [done|]. cbn. by rewrite lookup_insert_ne.
Qed.

Lemma abs_all_size l : forall m,
  Z.of_nat (size m) <= 50000 -> Z.of_nat (size (snd (track_all abs_track l m))) <= 50000.
Proof.
  induction l as [|[c o] l IH]; intros m H; [done|]. cbn [track_all].
  pose proof (abs_track_size c o m H) as H'. destruct (abs_track c o m) as [r m']. cbn [snd] in H'.
  specialize (IH m' H'). by destruct (track_all abs_track l m').
Qed.

Lemma abs_all_keeps l : forall m c o,
  m !! c = Some o -> Forall (fun p => fst p <> c) l ->
  snd (track_all abs_track l m) !! c = Some o.
Proof.
  induction l as [|[c' o'] l IH]; intros m c o Hm Hl; [done|]. apply Forall_cons_1 in Hl as [Hne Hl].
  cbn [track_all]. cbn in Hne.
  pose proof (abs_track_keeps c' o' m c o Hm ltac:(congruence)) as Hm'.
  destruct (abs_track c' o' m) as [r m']. cbn [snd] in Hm'. specialize (IH m' c o Hm' Hl).
  by destruct (track_all abs_track l m').
Qed.

Section fresh.
Context (draw : nat -> list byte).

Lemma refill_index fuel t : index_map (refill_loop draw fuel t) = index_map t.
Proof.
  revert t. induction fuel as [|fuel IH]; intros t; [done|]. cbn [refill_loop].
  destruct (_ <? _)%nat; [|done]. by rewrite IH.
Qed.

Lemma new_tracker_index capacity : index_map (new_tracker draw capacity) = ∅.
Proof. reflexivity. Qed.

Lemma new_tracker_tracks capacity : tracks (new_tracker draw capacity) ∅.
Proof.
  split; [|by rewrite new_tracker_index]. intros cid. unfold get_order_id.
  rewrite new_tracker_index. destruct (new_key cid); [|done]. cbn. by rewrite !lookup_empty.
Qed.

(** The tracker with inline fixed-size keys behaves as a bounded map from
    correlation ids to order ids: same outcomes, same lookups, same size, never
    more than 50,000 entries. *)
Theorem tracker_refines_map capacity l :
  let t := snd (track_all track_ref l (new_tracker draw capacity)) in
  let m := snd (track_all abs_track l (∅ : abs_tracker)) in
  fst (track_all track_ref l (new_tracker draw capacity)) = fst (track_all abs_track l ∅) /\
  (forall cid, get_order_id t cid = m !! cid) /\ (forall cid, contains t cid = bool_decide (is_Some (m !! cid))) /\
  tracker_len t = Z.of_nat (size m) /\ tracker_len t <= 50000.
Proof.
  intros t m. destruct (track_all_refines l _ _ (new_tracker_tracks capacity)) as [E [Hg Hs]].
  fold t m in Hg, Hs. split_and!; [done|done| |unfold tracker_len; by rewrite Hs|].
  - intros cid. rewrite <- Hg. unfold contains, get_order_id.
    by destruct (new_key cid).
  - unfold tracker_len. rewrite Hs. apply abs_all_size. rewrite map_size_empty. lia.
Qed.

(** A tracked correlation id keeps its order id whatever else is tracked
    afterwards, at capacity too. *)
Theorem tracked_never_evicted capacity before after cid oid :
  let t := snd (track_all track_ref before (new_tracker draw capacity)) in
  get_order_id t cid = Some oid -> Forall (fun p => fst p <> cid) after ->
  get_order_id (snd (track_all track_ref after t)) cid = Some oid.
Proof.
  intros t Hcid Hafter.
  destruct (track_all_refines before _ _ (new_tracker_tracks capacity)) as [_ Ht]. fold t in Ht.
  destruct (track_all_refines after _ _ Ht) as [_ [Hg _]]. rewrite Hg.
  apply abs_all_keeps; [|done]. by rewrite <- (proj1 Ht).
Qed.

(** ** Every id is drawn once and handed out once *)

Definition id_of (n : nat) : list byte := correlation_id_bytes (draw n).

(** What the tracker drew, split into ids handed out and ids in the pool. *)
Definition accounts (issued : list (list byte)) (t : CorrelationTracker) : Prop :=
  issued ++ id_pool t ≡ₚ map id_of (seq 0 (drawn t)).

Lemma seq_S_map n : map id_of (seq 0 (S n)) = map id_of (seq 0 n) ++ [id_of n].
Proof. by rewrite seq_S, map_app. Qed.

Lemma refill_accounts fuel issued t :
  accounts issued t -> accounts issued (refill_loop draw fuel t).
Proof.
  revert t. induction fuel as [|fuel IH]; intros t H; [done|]. cbn [refill_loop].
  destruct (_ <? _)%nat; [|done]. apply IH. unfold accounts in *. cbn [id_pool drawn].
  rewrite seq_S_map, app_assoc, H. done.
Qed.

Inductive id_op : Type :=
  | OpNext
  | OpClear
  | OpTrack (cid oid : string).

Definition id_step (o : id_op) (t : CorrelationTracker) : option string * CorrelationTracker :=
  match o with
  | OpNext => let '(s, t') := next_id draw t in (Some s, t')
  | OpClear => (None, clear draw t)
  | OpTrack c oid => (None, snd (track_ref c oid t))
  end.

Fixpoint issue (ops : list id_op) (t : CorrelationTracker) : list string * CorrelationTracker :=
  match ops with
  | [] => ([], t)
  | o :: ops' =>
      let '(s, t') := id_step o t in
      let '(l, t'') := issue ops' t' in
      (match s with Some x => x :: l | None => l end, t'')
  end.

Lemma next_id_accounts issued t :
  accounts issued t -> exists b,
  fst (next_id draw t) = correlation_id_string b /\ accounts (issued ++ [b]) (snd (next_id draw t)).
Proof.
  intros H. unfold next_id. destruct (last (id_pool t)) as [b|] eqn:Hl.
  - exists b. split; [done|]. unfold accounts in *. cbn [id_pool drawn].
    apply last_Some in Hl as [l Hl]. rewrite Hl in *.
    rewrite length_app, Nat.add_sub, take_app_length. rewrite <- H.
    rewrite <- app_assoc. apply Permutation_app_head. apply Permutation_app_comm.
  - exists (id_of (drawn t)). split; [done|]. unfold accounts in *. cbn [id_pool drawn generate_id snd].
    apply last_None in Hl. rewrite Hl in *. rewrite seq_S_map, <- H. rewrite !app_nil_r. done.
Qed.

Lemma track_ref_accounts issued c o t : accounts issued t -> accounts issued (snd (track_ref c o t)).
Proof.
  intros H. unfold track_ref. destruct (new_key c); [|done].
  destruct (index_map t !! _); [done|]. by destruct (_ <=? _).
Qed.

Lemma issue_accounts ops : forall issued t,
  accounts issued t -> exists bs,
  fst (issue ops t) = map correlation_id_string bs /\ accounts (issued ++ bs) (snd (issue ops t)).
Proof.
  induction ops as [|o ops IH]; intros issued t H.
  - exists []. by rewrite app_nil_r.
  - cbn [issue]. destruct o as [| |c oid]; cbn [id_step].
    + destruct (next_id_accounts issued t H) as (b & E & H').
      destruct (next_id draw t) as [s t'].
      cbn [fst snd] in *. destruct (IH _ _ H') as (bs & E' & H''). destruct (issue ops t') as [l t'']. cbn [fst snd] in *.
      exists (b :: bs). subst. split; [done|]. by rewrite <- app_assoc in H''.
    + specialize (IH issued (clear draw t)). destruct (issue ops (clear draw t)). apply IH.
      unfold clear, refill_id_pool. by apply refill_accounts.
    + specialize (IH issued (snd (track_ref c oid t))). destruct (issue ops (snd (track_ref c oid t))).
      apply IH. by apply track_ref_accounts.
Qed.

Lemma correlation_id_string_inj a b : correlation_id_string a = correlation_id_string b -> a = b.
Proof.
  unfold correlation_id_string. intros H.
  rewrite <- (String.list_byte_of_string_of_list_byte a), H.
  apply String.list_byte_of_string_of_list_byte.
Qed.

Lemma accounts_empty : accounts [] (mkTracker ∅ [] 0).
Proof. apply Permutation_refl. Qed.

Lemma with_index_accounts issued t m : accounts issued t -> accounts issued (with_index t m).
Proof. done. Qed.

Lemma new_tracker_accounts capacity : accounts [] (new_tracker draw capacity).
Proof.
  unfold new_tracker, prefault_index, refill_id_pool.
  apply with_index_accounts, with_index_accounts, refill_accounts, accounts_empty.
Qed.

(** Across placements, tracking and daily clears no correlation id is issued
    twice, provided the identifier source does not repeat itself; pooled ids are
    neither lost nor reused. *)
Theorem issued_ids_distinct capacity ops :
  let t := snd (issue ops (new_tracker draw capacity)) in
  NoDup (map id_of (seq 0 (drawn t))) ->
  NoDup (fst (issue ops (new_tracker draw capacity))) /\
  Forall (fun s => exists n, (n < drawn t)%nat /\ s = correlation_id_string (id_of n))
    (fst (issue ops (new_tracker draw capacity))).
Proof.
  intros t Hnd. destruct (issue_accounts ops [] _ (new_tracker_accounts capacity)) as (bs & -> & H).
  fold t in H. unfold accounts in H. rewrite app_nil_l in H. split.
  - rewrite <- H in Hnd. apply NoDup_app in Hnd as (Hb & _ & _).
    apply NoDup_fmap_2; [|done]. intros x y. apply correlation_id_string_inj.
  - apply Forall_forall. intros s Hs. apply list_elem_of_fmap in Hs as (b & -> & Hb).
    assert (Hin : b ∈ map id_of (seq 0 (drawn t))) by (rewrite <- H; set_solver).
    apply list_elem_of_fmap in Hin as (n & -> & Hn). exists n.
    split; [|done]. apply elem_of_seq in Hn. lia.
Qed.
End fresh.

(** * Instances *)

(** A UUID source that counts, for the instances. *)
Definition counting_draw (n : nat) : list byte := le_encode 32 (Z.of_nat n).

Lemma tracked_never_evicted_witness :
  get_order_id (snd (track_all track_ref [("c2", "o2"); ("c3", "o3")]
    (snd (track_all track_ref [("c1", "o1")] (new_tracker counting_draw 8))))) "c1" = Some "o1".
Proof.
  apply (tracked_never_evicted counting_draw 8 [("c1", "o1")] [("c2", "o2"); ("c3", "o3")] "c1" "o1");
    [vm_compute; reflexivity|by repeat constructor].
Defined.

Lemma issued_ids_distinct_witness :
  NoDup (fst (issue counting_draw [OpNext; OpTrack "c" "o"; OpNext; OpClear; OpNext]
    (new_tracker counting_draw 8))).
Proof.
  apply (issued_ids_distinct counting_draw 8 [OpNext; OpTrack "c" "o"; OpNext; OpClear; OpNext]).
  apply (bool_decide_unpack _). vm_compute. exact I.
Defined.
