(* ===== verification/ErrorTaxonomy.v ===== *)
(** The order-path error taxonomy ([oms/error_taxonomy.rs]): the shape-gated
    classification of a broker error, the policy table per endpoint, what trips
    the circuit breaker, the DATA-805 stop-all latch, and the DH-904 back-off
    table ([oms/dh904_backoff.rs]).  The JSON parse of an error body is
    [serde_json]'s and is a parameter.  Metric labels and error-code strings for
    the logs are not modelled. *)
From Stdlib Require Import Ascii.
From S2P Require Import Prelude OrderTypes OrderLifecycle.
Local Open Scope Z_scope.

Inductive OrderEndpoint : Type :=
  | Place
  | Modify
  | Cancel.

#[global] Instance OrderEndpoint_eq_dec : EqDecision OrderEndpoint.
Proof. solve_decision. Defined.

Inductive DhanErrorClass : Type :=
  | Dh901 | Dh902 | Dh903 | Dh904 | Dh905 | Dh906 | Dh907 | Dh908 | Dh909 | Dh910
  | Data800 | Data804 | Data805 | Data806 | Data807 | Data808 | Data809 | Data810
  | Data811 | Data812 | Data813 | Data814
  | Http429NoCode | AuthNoCode | ServerErrorNoCode | ClientErrorNoCode | UnknownCode | Transport.

#[global] Instance DhanErrorClass_eq_dec : EqDecision DhanErrorClass.
Proof. solve_decision. Defined.

Inductive OrderErrorPolicy : Type :=
  | RotateRetryOnceThenHalt
  | HaltAndAlert
  | BackoffLadder
  | NeverRetry
  | CheckParamsNoRetry
  | CancelSingleRetry
  | LogAndAlert
  | PolicyStopAllCooldown
  | TokenRefreshRetryOnce
  | AlertOnlyPoisonReadiness.

#[global] Instance OrderErrorPolicy_eq_dec : EqDecision OrderErrorPolicy.
Proof. solve_decision. Defined.

(** * The stop-all latch

    [deadline_ms] is in milliseconds since the latch's anchor, 0 for never
    engaged; the clock readings are arguments. *)

Definition engage (now secs deadline_ms : Z) : bool * Z :=
  let new_deadline := u64_saturating_add now (clamp 0 u64_max (secs * 1000)) in
  (deadline_ms <=? now, Z.max deadline_ms new_deadline).

Definition div_ceil (a b : Z) : Z := (a + b - 1) / b.

Definition remaining_secs (now deadline_ms : Z) : option Z :=
  if deadline_ms =? 0 then None
  else if now <? deadline_ms then Some (div_ceil (deadline_ms - now) 1000)
  else None.

(** * Strings

    A Rust string is its UTF-8 bytes. *)

Definition is_char_boundary (s : string) (i : nat) : bool :=
  match String.get i s with
  | Some c => negb ((128 <=? N_of_ascii c)%N && (N_of_ascii c <? 192)%N)
  | None => (i =? String.length s)%nat
  end.

Fixpoint boundary_at_most (s : string) (end_ : nat) : nat :=
  match end_ with
  | O => O
  | S e => if is_char_boundary s end_ then end_ else boundary_at_most s e
  end.

Definition safe_prefix (body : string) (cap : nat) : string :=
  if (String.length body <=? cap)%nat then body
  else String.substring 0 (boundary_at_most body cap) body.

(** The code points [char::is_whitespace] accepts, encoded. *)
Definition whitespace_encodings : list (list ascii) :=
  map (map ascii_of_N)
    ([[9]; [10]; [11]; [12]; [13]; [32]; [194; 133]; [194; 160]; [225; 154; 128]]%N ++
     map (fun b => [226; 128; b]%N) [128; 129; 130; 131; 132; 133; 134; 135; 136; 137; 138; 168; 169; 175]%N ++
     [[226; 129; 159]; [227; 128; 128]]%N).

Fixpoint strip_prefix_list (p l : list ascii) : option (list ascii) :=
  match p, l with
  | [], _ => Some l
  | x :: p', y :: l' => if decide (x = y) then strip_prefix_list p' l' else None
  | _ :: _, [] => None
  end.

Fixpoint strip_any (ps : list (list ascii)) (l : list ascii) : option (list ascii) :=
  match ps with
  | [] => None
  | p :: ps' => match strip_prefix_list p l with Some r => Some r | None => strip_any ps' l end
  end.

Fixpoint trim_start (fuel : nat) (ps : list (list ascii)) (l : list ascii) : list ascii :=
  match fuel with
  | O => l
  | S fuel' => match strip_any ps l with Some r => trim_start fuel' ps r | None => l end
  end.

Definition trim (s : string) : string :=
  let l := String.list_ascii_of_string s in
  let l := trim_start (length l) whitespace_encodings l in
  String.string_of_list_ascii (rev (trim_start (length l) (map (@rev ascii) whitespace_encodings) (rev l))).

Definition to_ascii_uppercase (c : ascii) : ascii :=
  let n := N_of_ascii c in
  if (97 <=? n)%N && (n <=? 122)%N then ascii_of_N (n - 32) else c.

Fixpoint ascii_uppercase (s : string) : string :=
  match s with
  | EmptyString => EmptyString
  | String c s' => String (to_ascii_uppercase c) (ascii_uppercase s')
  end.

Definition strip_data_prefix (s : string) : string :=
  match strip_prefix_list (String.list_ascii_of_string "DATA-") (String.list_ascii_of_string s) with
  | Some r => String.string_of_list_ascii r
  | None => s
  end.

Fixpoint parse_digits (l : list ascii) (acc : Z) : option Z :=
  match l with
  | [] => Some acc
  | c :: l' =>
      let d := Z.of_N (N_of_ascii c) - 48 in
      if (0 <=? d) && (d <=? 9) then
        let acc := acc * 10 + d in if acc <=? 65535 then parse_digits l' acc else None
      else None
  end.

(** [str::parse::<u16>]: an optional plus sign, then decimal digits in range. *)
Definition parse_u16 (s : string) : option Z :=
  let l := String.list_ascii_of_string s in
  match l with
  | [] => None
  | [_] => parse_digits l 0
  | c :: digits => if decide (c = "+"%char) then parse_digits digits 0 else parse_digits l 0
  end.

(** * Classification *)

Definition dh_class (up : string) : option DhanErrorClass :=
  snd <$> find (fun p => bool_decide (fst p = up))
    [("DH-901", Dh901); ("DH-902", Dh902); ("DH-903", Dh903); ("DH-904", Dh904); ("DH-905", Dh905);
     ("DH-906", Dh906); ("DH-907", Dh907); ("DH-908", Dh908); ("DH-909", Dh909); ("DH-910", Dh910)].

Definition data_class (n : Z) : option DhanErrorClass :=
  snd <$> find (fun p => fst p =? n)
    [(800, Data800); (804, Data804); (805, Data805); (806, Data806); (807, Data807); (808, Data808);
     (809, Data809); (810, Data810); (811, Data811); (812, Data812); (813, Data813); (814, Data814)].

Definition class_for_code_token (raw : string) : option DhanErrorClass :=
  let up := ascii_uppercase (trim raw) in
  match dh_class up with
  | Some dh => Some dh
  | None => n ← parse_u16 (strip_data_prefix up); data_class n
  end.

Definition classify_status (status : Z) : DhanErrorClass :=
  if status =? 429 then Http429NoCode
  else if (status =? 401) || (status =? 403) then AuthNoCode
  else if (500 <=? status) && (status <=? 599) then ServerErrorNoCode
  else ClientErrorNoCode.

(** A JSON value, as far as [value_to_code_token] looks at one; a number is
    its printed form. *)
Inductive CodeValue : Type :=
  | CodeString (s : string)
  | CodeNumber (printed : string)
  | CodeOther.

Definition value_to_code_token (v : CodeValue) : option string :=
  match v with
  | CodeString s | CodeNumber s => Some s
  | CodeOther => None
  end.

Definition DHAN_ERROR_BODY_SCAN_CAP_BYTES : nat := 4096.

Section classify.
(** [serde_json::from_str::<DhanErrorBody>]: [None] when the text does not
    parse as that shape, else its [errorCode]. *)
Context (error_body : string -> option (option CodeValue)).

Definition classify_dhan_error (status : Z) (body : string) : DhanErrorClass :=
  let prefix := safe_prefix body DHAN_ERROR_BODY_SCAN_CAP_BYTES in
  match (parsed ← error_body prefix; parsed ≫= value_to_code_token) with
  | Some token => default UnknownCode (class_for_code_token token)
  | None => classify_status status
  end.

Definition classify_oms_error (err : OmsError) : option DhanErrorClass :=
  match err with
  | DhanApiError status_code message => Some (classify_dhan_error status_code message)
  | DhanRateLimited => Some Http429NoCode
  | HttpError _ => Some Transport
  | StopAllCooldown _ => Some Data805
  | _ => None
  end.
End classify.

(** * Policy *)

Definition ambiguous_policy (endpoint : OrderEndpoint) : OrderErrorPolicy :=
  match endpoint with
  | Cancel => CancelSingleRetry
  | Place | Modify => NeverRetry
  end.

Definition policy_for (class : DhanErrorClass) (endpoint : OrderEndpoint) : OrderErrorPolicy :=
  match class with
  | Dh901 => RotateRetryOnceThenHalt
  | Dh902 | Dh903 | Data810 => HaltAndAlert
  | Dh904 | Http429NoCode => BackoffLadder
  | Dh907 | Data804 => CheckParamsNoRetry
  | Data805 => PolicyStopAllCooldown
  | Data806 => AlertOnlyPoisonReadiness
  | Data807 | Data808 | Data809 => TokenRefreshRetryOnce
  | Dh910 | UnknownCode => LogAndAlert
  | Dh905 | Dh906 | Data811 | Data812 | Data813 | Data814 | AuthNoCode | ClientErrorNoCode => NeverRetry
  | Dh908 | Dh909 | Data800 | ServerErrorNoCode | Transport => ambiguous_policy endpoint
  end.

Definition trips_circuit_breaker (class : DhanErrorClass) : bool :=
  match class with
  | Dh901 | Dh902 | Dh903 | Data810 | Dh904 | Http429NoCode | Data805 | Data806
  | Data807 | Data808 | Data809 => false
  | _ => true
  end.

(** * The DH-904 back-off table *)

Definition DH904_BACKOFF_SECS : list Z := [10; 20; 40; 80].
Definition DATA_805_STOP_ALL_COOLDOWN_SECS : Z := 60.

Definition compute_dh904_backoff (attempts_so_far : nat) : option Z :=
  if (length DH904_BACKOFF_SECS <=? attempts_so_far)%nat then None
  else DH904_BACKOFF_SECS !! attempts_so_far.

Definition is_dh904_budget_exhausted (attempts_so_far : nat) : bool :=
  (length DH904_BACKOFF_SECS <=? attempts_so_far)%nat.

Lemma compute_dh904_backoff_some n d : compute_dh904_backoff n = Some d -> (n < 4)%nat.
Proof.
  unfold compute_dh904_backoff. destruct (Nat.leb_spec (length DH904_BACKOFF_SECS) n); [done|].
  intros _. cbn in *. lia.
Qed.

(** * Properties *)

(** The latch after a sequence of engagements [(now, secs)]. *)
Definition latch_after (l : list (Z * Z)) : Z :=
  foldl (fun d p => snd (engage (fst p) (snd p) d)) 0 l.

Lemma latch_after_app l p : latch_after (l ++ [p]) = snd (engage (fst p) (snd p) (latch_after l)).
Proof. unfold latch_after. by rewrite foldl_app. Qed.

Lemma engaged_deadline t now secs :
  0 <= t < u64_max -> 0 <= now -> 0 <= secs ->
  t < u64_saturating_add now (clamp 0 u64_max (secs * 1000)) <-> t < now + secs * 1000.
Proof. zints. Qed.

Lemma remaining_some t d : 0 <= t -> is_Some (remaining_secs t d) <-> t < d.
Proof.
  intros Ht. unfold remaining_secs. destruct (Z.eqb_spec d 0), (Z.ltb_spec t d);
    split; intros Hx; try lia; try (by eexists); by destruct Hx.
Qed.

(** After any engagements the stop-all latch refuses at a time exactly when
    some engagement still covers it, reports the remaining time rounded up to
    seconds, and reports a rising edge exactly when it was clear. *)
Theorem stop_all_latch_holds l t :
  0 <= t < u64_max -> Forall (fun p => 0 <= fst p /\ 0 <= snd p) l ->
  (is_Some (remaining_secs t (latch_after l)) <->
   Exists (fun p => t < fst p + snd p * 1000) l) /\
  (forall r, remaining_secs t (latch_after l) = Some r ->
     t + (r - 1) * 1000 < latch_after l <= t + r * 1000) /\
  (forall secs, fst (engage t secs (latch_after l)) = bool_decide (remaining_secs t (latch_after l) = None)).
Proof.
  intros Ht Hl. split; [|split].
  - rewrite remaining_some by lia. induction l as [|p l IH] using rev_ind.
    + cbn. split; [lia|by intros ?%Exists_nil].
    + apply Forall_app in Hl as [Hl Hp]. apply Forall_singleton in Hp as [Hn Hs].
      rewrite latch_after_app, Exists_app, Exists_cons, <- IH by done.
      unfold engage. cbn [snd]. rewrite <- (engaged_deadline t (fst p) (snd p)) by lia.
      split; [|intros [?|[?|Hn']]; [lia|lia|by apply Exists_nil in Hn']].
      intros H. destruct (Z.lt_ge_cases t (latch_after l)); [by left|right; left; lia].
  - intros r H. unfold remaining_secs, div_ceil in H.
    destruct (Z.eqb_spec (latch_after l) 0); [done|].
    destruct (Z.ltb_spec t (latch_after l)); [|done]. injection H as <-.
    pose proof (Z.div_mod (latch_after l - t + 1000 - 1) 1000 ltac:(lia)).
    pose proof (Z.mod_pos_bound (latch_after l - t + 1000 - 1) 1000 ltac:(lia)). lia.
  - intros secs. unfold engage, remaining_secs. cbn [fst].
    destruct (Z.eqb_spec (latch_after l) 0) as [->|]; [by destruct (Z.leb_spec 0 t); [|lia]|].
    destruct (Z.leb_spec (latch_after l) t), (Z.ltb_spec t (latch_after l)); try lia; done.
Qed.

Lemma stop_all_latch_holds_witness :
  is_Some (remaining_secs 65000 (latch_after [(1000, 60); (10000, 60); (11000, 5)])) /\
  remaining_secs 70000 (latch_after [(1000, 60); (10000, 60); (11000, 5)]) = None.
Proof.
  pose proof (stop_all_latch_holds [(1000, 60); (10000, 60); (11000, 5)] 65000) as [H _].
  { unfold u64_max. lia. }
  { repeat constructor; cbn; lia. }
  split; [apply H; apply Exists_cons; right; apply Exists_cons; left; cbn; lia|vm_compute; reflexivity].
Defined.

(** An error reply without a well-formed broker code is classified by its HTTP
    status alone: whatever its text quotes, it never rotates tokens, halts, pauses
    or poisons, backs off only on 429, and is retried only for a cancel on a
    server error. *)
Theorem unshaped_error_never_steers error_body status body endpoint :
  (parsed ← error_body (safe_prefix body DHAN_ERROR_BODY_SCAN_CAP_BYTES); parsed ≫= value_to_code_token) = None ->
  let class := classify_dhan_error error_body status body in
  class = classify_status status /\
  policy_for class endpoint <> RotateRetryOnceThenHalt /\ policy_for class endpoint <> HaltAndAlert /\
  policy_for class endpoint <> TokenRefreshRetryOnce /\ policy_for class endpoint <> PolicyStopAllCooldown /\
  policy_for class endpoint <> AlertOnlyPoisonReadiness /\
  (policy_for class endpoint = BackoffLadder <-> status = 429) /\
  (policy_for class endpoint = CancelSingleRetry <-> endpoint = Cancel /\ 500 <= status <= 599).
Proof.
  intros H class. assert (E : class = classify_status status)
    by (unfold class, classify_dhan_error; cbv zeta; by rewrite H).
  split; [done|]. rewrite E. unfold classify_status. clear H class E.
  destruct (Z.eqb_spec status 429), (Z.eqb_spec status 401), (Z.eqb_spec status 403),
    (Z.leb_spec 500 status), (Z.leb_spec status 599), endpoint; cbn;
    intuition (congruence || lia).
Qed.

Lemma unshaped_error_never_steers_witness :
  policy_for (classify_dhan_error (fun _ => None) 403 "<html>DH-901</html>") Place <> RotateRetryOnceThenHalt.
Proof. apply (unshaped_error_never_steers (fun _ => None) 403 "<html>DH-901</html>" Place). reflexivity. Defined.
