(* ===== verification/OrderReadiness.v ===== *)
(** The order-readiness gate of the live order path ([oms/order_readiness.rs]):
    the probe snapshot, the per-order evaluation, the refresh step and the
    probe schedule.  The probe itself is an asynchronous call and enters as its
    outcome; the refresher task, its supervisor, metrics and logs are not
    modelled, nor is [segment_has_derivative], which the probe's owner calls. *)
From S2P Require Import Prelude.
Local Open Scope Z_scope.

Definition ORDER_READINESS_PREMARKET_TRIGGER_SECS_OF_DAY_IST : Z := 31500.
Definition ORDER_READINESS_MAX_AGE_SECS : Z := 2100.
Definition ORDER_TOKEN_HEADROOM_MIN_SECS : Z := 14400.
Definition TICK_PERSIST_END_SECS_OF_DAY_IST : Z := 56400.
Definition SECONDS_PER_DAY : Z := 86400.

Record ProbeOutcome : Type := mkProbe {
  pb_profile_ok : bool;
  pb_token_headroom_secs : Z }.

Record OrderReadinessState : Type := mkReadiness {
  profile_ok : bool;
  last_ok_epoch_s : Z;
  last_attempt_epoch_s : Z;
  headroom_packed : Z;
  refusal_latched : bool }.

Definition pack_headroom (headroom_secs stamped_epoch_s : Z) : Z :=
  let h := if u32_max <? headroom_secs then u32_max else headroom_secs in
  let s := if u32_max <? stamped_epoch_s then u32_max else stamped_epoch_s in
  Z.lor (Z.shiftl h 32) s.

Definition unpack_headroom (packed : Z) : Z * Z :=
  (Z.shiftr packed 32, Z.land packed 4294967295).

Definition new_readiness : OrderReadinessState := mkReadiness false 0 0 0 false.

Definition poison_profile (st : OrderReadinessState) : OrderReadinessState :=
  mkReadiness false (last_ok_epoch_s st) (last_attempt_epoch_s st) (headroom_packed st) (refusal_latched st).

Definition set_refusal_latched (st : OrderReadinessState) (b : bool) : OrderReadinessState :=
  mkReadiness (profile_ok st) (last_ok_epoch_s st) (last_attempt_epoch_s st) (headroom_packed st) b.

Definition latch_refusal (st : OrderReadinessState) : bool * OrderReadinessState :=
  (negb (refusal_latched st), set_refusal_latched st true).

Definition clear_refusal_latch (st : OrderReadinessState) : bool * OrderReadinessState :=
  (refusal_latched st, set_refusal_latched st false).

Inductive ReadinessRefusal : Type :=
  | NeverProbed
  | Stale (age_secs : Z)
  | ProfileInvalid
  | TokenHeadroomLow (effective_secs : Z).

Definition slug (r : ReadinessRefusal) : string :=
  match r with
  | NeverProbed => "no_probe"
  | Stale _ => "stale"
  | ProfileInvalid => "profile_invalid"
  | TokenHeadroomLow _ => "token_headroom"
  end.

Definition evaluate_order_readiness (st : OrderReadinessState) (now_epoch_s : Z) : res ReadinessRefusal unit :=
  if (last_attempt_epoch_s st =? 0) || (last_ok_epoch_s st =? 0) then Err NeverProbed else
  let age := u64_saturating_sub now_epoch_s (last_ok_epoch_s st) in
  if ORDER_READINESS_MAX_AGE_SECS <? age then Err (Stale age) else
  if negb (profile_ok st) then Err ProfileInvalid else
  let '(headroom, stamped) := unpack_headroom (headroom_packed st) in
  let elapsed := u64_saturating_sub now_epoch_s stamped in
  let effective := u64_saturating_sub headroom elapsed in
  if effective <? ORDER_TOKEN_HEADROOM_MIN_SECS then Err (TokenHeadroomLow effective) else Ok tt.

Definition apply_probe_outcome (st : OrderReadinessState) (outcome : ProbeOutcome) (now_epoch_s : Z)
    : OrderReadinessState :=
  let stamp := Z.max now_epoch_s 1 in
  mkReadiness (pb_profile_ok outcome)
    (if pb_profile_ok outcome then stamp else last_ok_epoch_s st)
    stamp (pack_headroom (pb_token_headroom_secs outcome) now_epoch_s) (refusal_latched st).

Definition is_ready (st : OrderReadinessState) (now : Z) : bool :=
  match evaluate_order_readiness st now with Ok _ => true | _ => false end.

(** [refresh_order_readiness], the probe's outcome an argument. *)
Definition refresh_order_readiness (outcome : ProbeOutcome) (now : Z) (st : OrderReadinessState)
    : bool * OrderReadinessState :=
  let was_ready := is_ready st now in
  let st := apply_probe_outcome st outcome now in
  let now_ready := is_ready st now in
  (now_ready, if negb was_ready && now_ready then snd (clear_refusal_latch st) else st).

Definition next_readiness_probe_wait_secs (now_ist_secs_of_day : Z) : Z :=
  let trigger := ORDER_READINESS_PREMARKET_TRIGGER_SECS_OF_DAY_IST in
  let close := TICK_PERSIST_END_SECS_OF_DAY_IST in
  if now_ist_secs_of_day <? trigger then trigger - now_ist_secs_of_day
  else if now_ist_secs_of_day <? close then 0
  else (SECONDS_PER_DAY - now_ist_secs_of_day) + trigger.

(** * Properties *)

Lemma unpack_pack h s :
  0 <= h -> 0 <= s -> unpack_headroom (pack_headroom h s) = (Z.min h u32_max, Z.min s u32_max).
Proof.
  intros Hh Hs. unfold pack_headroom, unpack_headroom. cbv zeta.
  assert (E : forall x, 0 <= x -> (if u32_max <? x then u32_max else x) = Z.min x u32_max)
    by (intros x Hx; destruct (Z.ltb_spec u32_max x); lia).
  rewrite !E by done. set (a := Z.min h u32_max). set (b := Z.min s u32_max).
  assert (Hb : 0 <= b < 2 ^ 32) by (unfold b, u32_max; lia).
  assert (Hb32 : Z.shiftr b 32 = 0) by (rewrite Z.shiftr_div_pow2 by lia; apply Z.div_small; lia).
  f_equal.
  - rewrite Z.shiftr_lor, Z.shiftr_shiftl_l, Hb32, Z.lor_0_r by lia. apply Z.shiftl_0_r.
  - rewrite Z.land_lor_distr_l. change 4294967295 with (Z.ones 32). rewrite !Z.land_ones by lia.
    rewrite Z.shiftl_mul_pow2, Z.mod_mul, Z.lor_0_l by lia. apply Z.mod_small. lia.
Qed.

(** What may happen to the snapshot. *)
Inductive readiness_event : Type :=
  | Refresh (outcome : ProbeOutcome) (now : Z)
  | Poison
  | Refusal.

Definition readiness_step (st : OrderReadinessState) (ev : readiness_event) : OrderReadinessState :=
  match ev with
  | Refresh outcome now => snd (refresh_order_readiness outcome now st)
  | Poison => poison_profile st
  | Refusal => snd (latch_refusal st)
  end.

Definition readiness_after (evs : list readiness_event) : OrderReadinessState :=
  foldl readiness_step new_readiness evs.

(** Events that leave the probe's verdict alone. *)
Definition quiet (ev : readiness_event) : bool :=
  match ev with Refusal => true | _ => false end.

Definition event_in_range (ev : readiness_event) : Prop :=
  match ev with Refresh o t => 0 <= t /\ 0 <= pb_token_headroom_secs o | _ => True end.

(** The last probe of a history, its verdict neither replaced nor poisoned. *)
Definition standing_probe (evs : list readiness_event) (o : ProbeOutcome) (t : Z) : Prop :=
  exists l1 l2, evs = l1 ++ Refresh o t :: l2 /\ Forall (fun ev => quiet ev = true) l2.

Lemma quiet_frame l : forall st,
  Forall (fun ev => quiet ev = true) l ->
  is_ready (foldl readiness_step st l) = is_ready st.
Proof.
  induction l as [|ev l IH]; intros st H; [done|]. apply Forall_cons in H as [Hq H].
  cbn [foldl]. rewrite IH by done. by destruct ev.
Qed.

Lemma refresh_ready_frame o t st :
  is_ready (snd (refresh_order_readiness o t st)) = is_ready (apply_probe_outcome st o t).
Proof. unfold refresh_order_readiness. cbn [snd]. by destruct (_ && _). Qed.

Lemma probe_age now t : 0 <= now <= u64_max -> 0 <= t ->
  (ORDER_READINESS_MAX_AGE_SECS <? u64_saturating_sub now (Z.max t 1)) = false <->
  now - Z.max t 1 <= ORDER_READINESS_MAX_AGE_SECS.
Proof. intros. unfold ORDER_READINESS_MAX_AGE_SECS. rewrite Z.ltb_ge. zints. Qed.

Lemma probe_headroom now t h : 0 <= now <= u64_max -> 0 <= t -> 0 <= h ->
  (u64_saturating_sub (Z.min h u32_max) (u64_saturating_sub now (Z.min t u32_max))
     <? ORDER_TOKEN_HEADROOM_MIN_SECS) = false <->
  ORDER_TOKEN_HEADROOM_MIN_SECS <= Z.min h u32_max - Z.max 0 (now - Z.min t u32_max).
Proof. intros. unfold ORDER_TOKEN_HEADROOM_MIN_SECS. rewrite Z.ltb_ge. zints. Qed.

(** The gate right after a probe, spelled out. *)
Lemma probe_ready st o t now :
  0 <= t -> 0 <= pb_token_headroom_secs o -> 0 <= now <= u64_max ->
  is_ready (apply_probe_outcome st o t) now = true <->
  pb_profile_ok o = true /\ now - Z.max t 1 <= ORDER_READINESS_MAX_AGE_SECS /\
  ORDER_TOKEN_HEADROOM_MIN_SECS <=
    Z.min (pb_token_headroom_secs o) u32_max - Z.max 0 (now - Z.min t u32_max).
Proof.
  intros Ht Hh Hnow. rewrite <- (probe_age now t), <- (probe_headroom now t) by done.
  unfold is_ready, evaluate_order_readiness, apply_probe_outcome.
  cbn [last_attempt_epoch_s last_ok_epoch_s profile_ok headroom_packed].
  rewrite unpack_pack by done. assert (E1 : (Z.max t 1 =? 0) = false) by (apply Z.eqb_neq; lia).
  rewrite E1. destruct (pb_profile_ok o); cbn [negb orb].
  - rewrite E1. destruct (_ <? u64_saturating_sub now _); [split; [discriminate|by intros (_ & ? & _)]|].
    destruct (_ <? _); split; try discriminate; by intros (_ & _ & ?) || done.
  - split; [|by intros [? _]]. destruct (last_ok_epoch_s st =? 0); [done|]. by destruct (_ <? _).
Qed.

(** After any history of refreshes, poisonings and refusals the gate is open
    exactly when the last probe succeeded, was not poisoned since, is at most
    2,100 seconds old and leaves at least four hours of token life. *)
Theorem ready_means_fresh_good_probe evs now :
  Forall event_in_range evs -> 0 <= now <= u64_max ->
  is_ready (readiness_after evs) now = true <->
  exists o t, standing_probe evs o t /\ pb_profile_ok o = true /\
    now - Z.max t 1 <= ORDER_READINESS_MAX_AGE_SECS /\
    ORDER_TOKEN_HEADROOM_MIN_SECS <=
      Z.min (pb_token_headroom_secs o) u32_max - Z.max 0 (now - Z.min t u32_max).
Proof.
  intros Hr Hnow. unfold readiness_after. split.
  - induction evs as [|ev evs IH] using rev_ind; [done|]. rewrite foldl_app. cbn [foldl].
    apply Forall_app in Hr as [Hr Hev]. rewrite Forall_singleton in Hev. destruct ev as [o t| |].
    + cbn [readiness_step]. rewrite refresh_ready_frame. destruct Hev as [Ht Hh].
      intros H. apply probe_ready in H; [|done..]. exists o, t. split; [|done].
      exists evs, []. split; [done|constructor].
    + unfold is_ready, evaluate_order_readiness, poison_profile. cbn.
      destruct (_ || _); [done|]. by destruct (_ <? _).
    + intros H. destruct (IH Hr H) as (o & t & (l1 & l2 & -> & Hq) & Hrest). exists o, t. split; [|done].
      exists l1, (l2 ++ [Refusal]). split; [by rewrite <- app_assoc|].
      apply Forall_app. split; [done|by repeat constructor].
  - intros (o & t & (l1 & l2 & -> & Hq) & Hrest).
    apply Forall_app in Hr as [_ Hr]. apply Forall_cons in Hr as [[Ht Hh] _].
    rewrite foldl_app. cbn [foldl]. rewrite quiet_frame by done. cbn [readiness_step].
    rewrite refresh_ready_frame. by apply probe_ready.
Qed.

Lemma ready_means_fresh_good_probe_witness :
  let evs := [Refresh (mkProbe false 0) 900; Refresh (mkProbe true 50000) 1800; Refusal] in
  is_ready (readiness_after evs) 3000 = true /\ is_ready (readiness_after (evs ++ [Poison])) 3000 = false.
Proof.
  intros evs. split; [|vm_compute; reflexivity].
  apply (ready_means_fresh_good_probe evs 3000).
  - repeat constructor; cbn; lia.
  - unfold u64_max. lia.
  - exists (mkProbe true 50000), 1800. split; [exists [Refresh (mkProbe false 0) 900], [Refusal]; split; [done|by repeat constructor]|].
    vm_compute. split; [done|split; discriminate].
Defined.

(** The probe schedule waits less than a day, to the first moment inside the
    probe window, where it waits no more. *)
Theorem probe_wait_lands_in_window now :
  0 <= now < SECONDS_PER_DAY ->
  let wait := next_readiness_probe_wait_secs now in
  let at_ := (now + wait) mod SECONDS_PER_DAY in
  0 <= wait < SECONDS_PER_DAY /\
  ORDER_READINESS_PREMARKET_TRIGGER_SECS_OF_DAY_IST <= at_ < TICK_PERSIST_END_SECS_OF_DAY_IST /\
  next_readiness_probe_wait_secs at_ = 0 /\
  (forall d, 0 <= d < wait ->
     ~ (ORDER_READINESS_PREMARKET_TRIGGER_SECS_OF_DAY_IST <= (now + d) mod SECONDS_PER_DAY
        < TICK_PERSIST_END_SECS_OF_DAY_IST)).
Proof.
  unfold next_readiness_probe_wait_secs, SECONDS_PER_DAY, ORDER_READINESS_PREMARKET_TRIGGER_SECS_OF_DAY_IST,
    TICK_PERSIST_END_SECS_OF_DAY_IST. intros Hn. cbv zeta.
  assert (Hmod : forall x, 0 <= x < 86400 -> x mod 86400 = x) by (intros; by apply Z.mod_small).
  assert (Hwrap : forall x, 86400 <= x < 172800 -> x mod 86400 = x - 86400).
  { intros x Hx. symmetry. apply (Z.mod_unique x 86400 1); lia. }
  destruct (Z.ltb_spec now 31500); [|destruct (Z.ltb_spec now 56400)].
  - replace (now + (31500 - now)) with 31500 by lia. change (31500 mod 86400) with 31500.
    split_and!; try lia; [done|]. intros d Hd. rewrite Hmod by lia. lia.
  - rewrite Z.add_0_r, Hmod by lia.
    destruct (Z.ltb_spec now 31500), (Z.ltb_spec now 56400); try lia. split_and!; try lia.
  - replace (now + (86400 - now + 31500)) with (31500 + 1 * 86400) by lia.
    rewrite Z.mod_add by lia. change (31500 mod 86400) with 31500.
    split_and!; try lia; [done|]. intros d Hd.
    destruct (Z.lt_ge_cases (now + d) 86400); [rewrite Hmod by lia|rewrite Hwrap by lia]; lia.
Qed.

Lemma probe_wait_lands_in_window_witness :
  next_readiness_probe_wait_secs ((80000 + next_readiness_probe_wait_secs 80000) mod SECONDS_PER_DAY) = 0.
Proof. apply (probe_wait_lands_in_window 80000). unfold SECONDS_PER_DAY. lia. Defined.
