(* ===== verification/ApiClient.v ===== *)
(** The order endpoints of the REST client ([oms/api_client.rs]): how an HTTP
    outcome becomes a reply, and the driver that runs one order operation under
    the stop-all latch, the DH-904 back-off ladder and the cancel-only retry.
    The HTTP exchange itself and the JSON decoding are parameters: [reply n] is
    what the operation's [n]-th request comes back with.  [wire] is a ghost
    field, the requests sent so far, newest first. *)
From S2P Require Import Prelude OrderTypes ErrorTaxonomy.
Local Open Scope Z_scope.

Definition HTTP_TOO_MANY_REQUESTS : Z := 429.

(** A transport failure, or a status with the body's text if it could be read. *)
Inductive HttpOutcome : Type :=
  | SendFailed (err : string)
  | Responded (status : Z) (body : string + string).

Record DhanPlaceOrderResponse : Type := mkPlaced {
  dpr_order_id : string;
  dpr_order_status : string;
  dpr_correlation_id : string }.

Definition is_success (status : Z) : bool := (200 <=? status) && (status <? 300).

Definition check_rate_limit (status : Z) : bool := negb (status =? HTTP_TOO_MANY_REQUESTS).

(** [OrderApiClient::place_order], from the response on. *)
Definition place_order (parse : string -> string + DhanPlaceOrderResponse) (out : HttpOutcome)
    : OmsError + DhanPlaceOrderResponse :=
  match out with
  | SendFailed err => inl (HttpError err)
  | Responded status body =>
      if negb (check_rate_limit status) then inl DhanRateLimited else
      match body with
      | inl err => inl (HttpError err)
      | inr text =>
          if negb (is_success status) then inl (DhanApiError status text) else
          match parse text with
          | inl err => inl (JsonError err)
          | inr resp => inr resp
          end
      end
  end.

(** [modify_order] and [cancel_order], which read the body only of an error. *)
Definition modify_order (out : HttpOutcome) : OmsError + unit :=
  match out with
  | SendFailed err => inl (HttpError err)
  | Responded status body =>
      if negb (check_rate_limit status) then inl DhanRateLimited
      else if negb (is_success status) then
        match body with
        | inl err => inl (HttpError err)
        | inr text => inl (DhanApiError status text)
        end
      else inr tt
  end.

Definition cancel_order (out : HttpOutcome) : OmsError + unit := modify_order out.

Record OrderApiClient : Type := mkClient {
  cooldown : Z;
  wire : list (OrderEndpoint * string) }.

Definition new_client : OrderApiClient := mkClient 0 [].

Definition check_stop_all_latch (now : Z) (c : OrderApiClient) : res OmsError unit :=
  match remaining_secs now (cooldown c) with
  | Some remaining => Err (StopAllCooldown remaining)
  | None => Ok tt
  end.

Section ladder.
Context {T : Type} (error_body : string -> option (option CodeValue)).
Context (endpoint : OrderEndpoint) (tag : string).
(** Replies, and the latch clock at the check before and the engagement after
    the [n]-th request. *)
Context (reply : nat -> OmsError + T) (check_ms engage_ms : nat -> Z).

(** The loop's [attempts] and [cancel_retry_used], the index of the next
    request, the client.  Out of fuel is [Panic], which [ladder_fuel] excludes. *)
Fixpoint ladder_loop (fuel attempts : nat) (cancel_retry_used : bool) (n : nat) (c : OrderApiClient)
    : res OmsError T * nat * OrderApiClient :=
  match fuel with
  | O => (Panic, n, c)
  | S fuel' =>
    match check_stop_all_latch (check_ms n) c with
    | Err e => (Err e, n, c)
    | Panic => (Panic, n, c)
    | Ok _ =>
      let c := mkClient (cooldown c) ((endpoint, tag) :: wire c) in
      match reply n with
      | inr value => (Ok value, S n, c)
      | inl err =>
        match classify_oms_error error_body err with
        | None => (Err err, S n, c)
        | Some class =>
          match policy_for class endpoint with
          | PolicyStopAllCooldown =>
              (Err err, S n,
               mkClient (snd (engage (engage_ms n) DATA_805_STOP_ALL_COOLDOWN_SECS (cooldown c))) (wire c))
          | BackoffLadder =>
              match compute_dh904_backoff attempts with
              | Some _ => ladder_loop fuel' (S attempts) cancel_retry_used (S n) c
              | None => (Err err, S n, c)
              end
          | CancelSingleRetry =>
              if cancel_retry_used then (Err err, S n, c)
              else ladder_loop fuel' attempts true (S n) c
          | _ => (Err err, S n, c)
          end
        end
      end
    end
  end.

Definition ladder_fuel : nat := 6.

Definition run_order_ladder (n : nat) (c : OrderApiClient) : res OmsError T * nat * OrderApiClient :=
  ladder_loop ladder_fuel 0 false n c.

(** * Properties *)

(** A reply after which the request may be sent again. *)
Definition resendable (r : OmsError + T) : Prop :=
  exists err class, r = inl err /\ classify_oms_error error_body err = Some class /\
    (policy_for class endpoint = BackoffLadder \/ policy_for class endpoint = CancelSingleRetry).

(** What a result says about the last reply. *)
Definition result_of_last (r : res OmsError T) (n n' : nat) : Prop :=
  match r with
  | Ok v => exists m, n' = S m /\ reply m = inr v
  | Err e => (exists m, n' = S m /\ reply m = inl e) \/ exists s, e = StopAllCooldown s
  | Panic => False
  end.

Definition sent_by (n n' : nat) (c c' : OrderApiClient) : Prop :=
  wire c' = replicate (n' - n) (endpoint, tag) ++ wire c.

Lemma cancel_retry_endpoint class : policy_for class endpoint = CancelSingleRetry -> endpoint = Cancel.
Proof. by destruct class, endpoint. Qed.

Lemma engage_grows now secs d : d <= snd (engage now secs d).
Proof. unfold engage. cbn [snd]. lia. Qed.

(** Requests a loop state has left. *)
Definition budget (attempts : nat) (cancel_retry_used : bool) : nat :=
  (5 - attempts) + (if decide (endpoint = Cancel) then if cancel_retry_used then 0 else 1 else 0).

Lemma ladder_loop_ok fuel : forall attempts used n c,
  (attempts <= 4)%nat -> (budget attempts used <= fuel)%nat ->
  let '(r, n', c') := ladder_loop fuel attempts used n c in
  (n <= n' <= n + budget attempts used)%nat /\ sent_by n n' c c' /\ cooldown c <= cooldown c' /\
  result_of_last r n n' /\ (forall j, (n <= j)%nat -> (S j < n')%nat -> resendable (reply j)).
Proof.
  induction fuel as [|fuel IH]; intros attempts used n c Ha Hf; [unfold budget in Hf; lia|].
  assert (Hb : (1 <= budget attempts used)%nat) by (unfold budget; lia).
  cbn [ladder_loop]. unfold check_stop_all_latch.
  destruct (remaining_secs (check_ms n) (cooldown c)) as [s|].
  { split_and!; try lia; [by unfold sent_by; rewrite Nat.sub_diag|cbn; eauto]. }
  set (c1 := mkClient _ _).
  assert (H1 : sent_by n (S n) c c1).
  { unfold sent_by. by replace (S n - n)%nat with 1%nat by lia. }
  assert (Hc1 : cooldown c1 = cooldown c) by done.
  assert (Hstop : forall r c2, wire c2 = wire c1 -> cooldown c1 <= cooldown c2 ->
    result_of_last r n (S n) ->
    (n <= S n <= n + budget attempts used)%nat /\ sent_by n (S n) c c2 /\ cooldown c <= cooldown c2 /\
    result_of_last r n (S n) /\ (forall j, (n <= j)%nat -> (S j < S n)%nat -> resendable (reply j))).
  { intros r c2 Hw Hcd Hr. split_and!; try lia; [by unfold sent_by in *; rewrite Hw|done]. }
  clearbody c1. destruct (reply n) as [err|v] eqn:Hr.
  2:{ apply Hstop; [done|lia|]. by exists n. }
  assert (Herr : result_of_last (Err err) n (S n)) by (left; by exists n).
  assert (Hgo : forall attempts' used', (attempts' <= 4)%nat ->
    (S (budget attempts' used') <= budget attempts used)%nat -> resendable (reply n) ->
    let '(r, n', c') := ladder_loop fuel attempts' used' (S n) c1 in
    (n <= n' <= n + budget attempts used)%nat /\ sent_by n n' c c' /\ cooldown c <= cooldown c' /\
    result_of_last r n n' /\ (forall j, (n <= j)%nat -> (S j < n')%nat -> resendable (reply j))).
  { intros attempts' used' Ha' Hb' Hres. pose proof (IH attempts' used' (S n) c1 Ha' ltac:(lia)) as H.
    destruct (ladder_loop fuel attempts' used' (S n) c1) as [[r n'] c'].
    destruct H as (Hn' & Hs & Hcd & Hl & Hj). split_and!; try lia; [|done|].
    - unfold sent_by in *. rewrite Hs, H1. rewrite app_assoc, <- replicate_add. do 2 f_equal. lia.
    - intros j Hj1 Hj2. destruct (decide (j = n)) as [->|]; [done|]. apply Hj; lia. }
  destruct (classify_oms_error error_body err) as [class|] eqn:Hcl; [|apply Hstop; lia || done].
  destruct (policy_for class endpoint) eqn:Hp; try (apply Hstop; lia || done).
  - destruct (compute_dh904_backoff attempts) as [d|] eqn:Hd; [|apply Hstop; lia || done].
    apply compute_dh904_backoff_some in Hd. apply Hgo; [lia|unfold budget; lia|].
    exists err, class. auto.
  - destruct used; [apply Hstop; lia || done|]. apply Hgo; [lia| |exists err, class; auto].
    apply cancel_retry_endpoint in Hp. unfold budget. destruct (decide (endpoint = Cancel)); [lia|done].
  - apply Hstop; [done|apply engage_grows|done].
Qed.

(** A reply that leaves open whether the request took effect. *)
Definition ambiguous (r : OmsError + T) : Prop :=
  exists err class, r = inl err /\ classify_oms_error error_body err = Some class /\
    class ∈ [Dh908; Dh909; Data800; ServerErrorNoCode; Transport].

Lemma ambiguous_not_backoff n err class :
  reply n = inl err -> classify_oms_error error_body err = Some class -> policy_for class endpoint = BackoffLadder ->
  ~ ambiguous (reply n).
Proof.
  intros Hr Hc Hp (err' & class' & Hr' & Hc' & Hin). rewrite Hr in Hr'. injection Hr' as <-.
  rewrite Hc in Hc'. injection Hc' as <-. rewrite !elem_of_cons, elem_of_nil in Hin.
  destruct Hin as [->|[->|[->|[->|[->|[]]]]]]; by destruct endpoint.
Qed.

(** The retry after an ambiguous reply is spent once. *)
Lemma ladder_loop_once fuel : forall attempts used n c,
  let '(_, n', _) := ladder_loop fuel attempts used n c in
  (used = true -> forall j, (n <= j)%nat -> (S j < n')%nat -> ~ ambiguous (reply j)) /\
  (forall i j, (n <= i)%nat -> (S i < n')%nat -> (n <= j)%nat -> (S j < n')%nat ->
     ambiguous (reply i) -> ambiguous (reply j) -> i = j).
Proof.
  induction fuel as [|fuel IH]; intros attempts used n c; [split; intros; lia|].
  cbn [ladder_loop]. destruct (check_stop_all_latch _ _); [|split; intros; lia..].
  set (c1 := mkClient _ _). clearbody c1.
  destruct (reply n) as [err|v] eqn:Hr; [|split; intros; lia].
  destruct (classify_oms_error error_body err) as [class|] eqn:Hc; [|split; intros; lia].
  destruct (policy_for class endpoint) eqn:Hp; try (split; intros; lia).
  - destruct (compute_dh904_backoff attempts); [|split; intros; lia].
    pose proof (ambiguous_not_backoff n err class Hr Hc Hp) as Hn.
    specialize (IH (S attempts) used (S n) c1). destruct (ladder_loop _ _ _ _ _) as [[r n'] c'].
    destruct IH as [I1 I2]. split.
    + intros Hu j Hj1 Hj2. destruct (decide (j = n)) as [->|]; [done|]. apply I1; [done|lia|done].
    + intros i j Hi1 Hi2 Hj1 Hj2 Ai Aj.
      destruct (decide (i = n)) as [->|]; [done|]. destruct (decide (j = n)) as [->|]; [done|].
      apply I2; done || lia.
  - destruct used; [split; intros; lia|].
    specialize (IH attempts true (S n) c1). destruct (ladder_loop _ _ _ _ _) as [[r n'] c'].
    destruct IH as [I1 _]. split; [done|]. intros i j Hi1 Hi2 Hj1 Hj2 Ai Aj.
    destruct (decide (i = n)) as [->|]; [|exfalso; apply (I1 eq_refl i); done || lia].
    destruct (decide (j = n)) as [->|]; [done|exfalso; apply (I1 eq_refl j); done || lia].
Qed.

Lemma run_order_ladder_ok n c :
  let '(r, n', c') := run_order_ladder n c in
  (n <= n' <= n + (if decide (endpoint = Cancel) then 6 else 5))%nat /\
  sent_by n n' c c' /\ cooldown c <= cooldown c' /\ result_of_last r n n' /\
  (forall j, (n <= j)%nat -> (S j < n')%nat -> resendable (reply j)).
Proof.
  unfold run_order_ladder.
  pose proof (ladder_loop_ok ladder_fuel 0 false n c ltac:(lia)) as H.
  destruct (ladder_loop ladder_fuel 0 false n c) as [[r n'] c'].
  destruct H as (Hn & H); [unfold budget, ladder_fuel; case_decide; lia|].
  split; [|done]. unfold budget in Hn. case_decide; lia.
Qed.

Lemma ladder_latched n c s :
  remaining_secs (check_ms n) (cooldown c) = Some s -> run_order_ladder n c = (Err (StopAllCooldown s), n, c).
Proof.
  intros Hs. unfold run_order_ladder, ladder_fuel. cbn [ladder_loop]. unfold check_stop_all_latch. by rewrite Hs.
Qed.

Lemma ladder_loop_mono fuel : forall attempts used n c,
  (n <= snd (fst (ladder_loop fuel attempts used n c)))%nat.
Proof.
  induction fuel as [|fuel IH]; intros attempts used n c; [done|]. cbn [ladder_loop].
  destruct (check_stop_all_latch _ _); cbn; [|lia..].
  destruct (reply n); cbn; [|lia]. destruct (classify_oms_error error_body _); cbn; [|lia].
  destruct (policy_for _ _); cbn; try lia.
  - destruct (compute_dh904_backoff _); [|cbn; lia]. etransitivity; [|apply IH]. lia.
  - destruct used; [cbn; lia|]. etransitivity; [|apply IH]. lia.
Qed.

(** A clear latch lets the next request out. *)
Lemma ladder_loop_sends fuel attempts used n c :
  remaining_secs (check_ms n) (cooldown c) = None ->
  (n < snd (fst (ladder_loop (S fuel) attempts used n c)))%nat.
Proof.
  intros Hs. cbn [ladder_loop]. unfold check_stop_all_latch. rewrite Hs.
  destruct (reply n); cbn; [|lia]. destruct (classify_oms_error error_body _); cbn; [|lia].
  destruct (policy_for _ _); cbn; try lia.
  - destruct (compute_dh904_backoff _); [apply ladder_loop_mono|cbn; lia].
  - destruct used; [cbn; lia|apply ladder_loop_mono].
Qed.

Lemma ladder_sends n c :
  remaining_secs (check_ms n) (cooldown c) = None -> (n < snd (fst (run_order_ladder n c)))%nat.
Proof. apply (ladder_loop_sends 5). Qed.

(** A reply that is final at this endpoint ends the operation. *)
Lemma ladder_final n c err class :
  remaining_secs (check_ms n) (cooldown c) = None -> reply n = inl err ->
  classify_oms_error error_body err = Some class ->
  policy_for class endpoint = RotateRetryOnceThenHalt \/ policy_for class endpoint = HaltAndAlert ->
  run_order_ladder n c = (Err err, S n, mkClient (cooldown c) ((endpoint, tag) :: wire c)).
Proof.
  intros Hs Hr Hc Hp. unfold run_order_ladder, ladder_fuel. cbn [ladder_loop]. unfold check_stop_all_latch.
  rewrite Hs, Hr, Hc. by destruct Hp as [-> | ->].
Qed.
End ladder.

