(* ===== verification/OmsEngine.v ===== *)
(** The order management system ([oms/engine.rs]): the tracked orders, the
    broker order-number aliases; placement, modification and cancellation, in
    paper mode and, past the sandbox deadline, live through [ApiClient] with the
    engine's error policy; live order updates with the fill bridge;
    reconciliation's corrections; the halt latch and the daily reset.

    What the code reads from outside is an argument: [Env] holds the clock, the
    date and the per-second limiter's answer, [Live] the token look-ups, HTTP
    outcomes and clock readings of one live operation; [error_body] and
    [parse_placed] are [serde_json]'s decodings, [draw] the UUID source.  The
    method's [self.api_client.wire] is the ghost log of the requests sent.  Super
    and forever orders and the probe of an execution are in [OmsExits], the ladder of
    probes in [ExitDispatch]; alerts and metrics are left out. *)
From Stdlib Require Import Ascii.
From S2P Require Import Prelude Bytes Float OrderTypes OrderLifecycle Correlations.
From S2P Require Import OrderBudget CircuitBreaker Reconciliation ErrorTaxonomy OrderReadiness ApiClient.
Local Open Scope Z_scope.

(** * State *)

Record OrderManagementSystem : Type := mkOms {
  orders : order_book;
  order_no_aliases : gmap string string;
  correlations : CorrelationTracker;
  api_client : OrderApiClient;
  order_budget : OrderBudget;
  circuit_breaker : OrderCircuitBreaker;
  client_id : string;
  total_placed : Z;
  total_updates : Z;
  dry_run : bool;
  paper_order_counter : Z;
  readiness : option OrderReadinessState;
  halt : option string;
  never_probed_latched : bool;
  stop_all_alert_latched : bool }.

Definition MAX_TRACKED_ORDERS : Z := 25000.
Definition MAX_TRACKED_ORDER_ALIASES : Z := 25000.
Definition SANDBOX_DEADLINE_EPOCH_SECS : Z := 4102358400.

(** Assignments to one field. *)
Definition with_orders (s : OrderManagementSystem) (m : order_book) : OrderManagementSystem :=
  mkOms m (order_no_aliases s) (correlations s) (api_client s) (order_budget s)
    (circuit_breaker s) (client_id s) (total_placed s) (total_updates s) (dry_run s)
    (paper_order_counter s) (readiness s) (halt s) (never_probed_latched s)
    (stop_all_alert_latched s).
Definition with_aliases (s : OrderManagementSystem) (m : gmap string string) : OrderManagementSystem :=
  mkOms (orders s) m (correlations s) (api_client s) (order_budget s) (circuit_breaker s)
    (client_id s) (total_placed s) (total_updates s) (dry_run s) (paper_order_counter s)
    (readiness s) (halt s) (never_probed_latched s) (stop_all_alert_latched s).
Definition with_correlations (s : OrderManagementSystem) (c : CorrelationTracker) : OrderManagementSystem :=
  mkOms (orders s) (order_no_aliases s) c (api_client s) (order_budget s) (circuit_breaker s)
    (client_id s) (total_placed s) (total_updates s) (dry_run s) (paper_order_counter s)
    (readiness s) (halt s) (never_probed_latched s) (stop_all_alert_latched s).
Definition with_client (s : OrderManagementSystem) (c : OrderApiClient) : OrderManagementSystem :=
  mkOms (orders s) (order_no_aliases s) (correlations s) c (order_budget s) (circuit_breaker s)
    (client_id s) (total_placed s) (total_updates s) (dry_run s) (paper_order_counter s)
    (readiness s) (halt s) (never_probed_latched s) (stop_all_alert_latched s).
Definition with_budget (s : OrderManagementSystem) (b : OrderBudget) : OrderManagementSystem :=
  mkOms (orders s) (order_no_aliases s) (correlations s) (api_client s) b (circuit_breaker s)
    (client_id s) (total_placed s) (total_updates s) (dry_run s) (paper_order_counter s)
    (readiness s) (halt s) (never_probed_latched s) (stop_all_alert_latched s).
Definition with_breaker (s : OrderManagementSystem) (b : OrderCircuitBreaker) : OrderManagementSystem :=
  mkOms (orders s) (order_no_aliases s) (correlations s) (api_client s) (order_budget s) b
    (client_id s) (total_placed s) (total_updates s) (dry_run s) (paper_order_counter s)
    (readiness s) (halt s) (never_probed_latched s) (stop_all_alert_latched s).
Definition with_readiness (s : OrderManagementSystem) (r : option OrderReadinessState) : OrderManagementSystem :=
  mkOms (orders s) (order_no_aliases s) (correlations s) (api_client s) (order_budget s)
    (circuit_breaker s) (client_id s) (total_placed s) (total_updates s) (dry_run s)
    (paper_order_counter s) r (halt s) (never_probed_latched s) (stop_all_alert_latched s).
Definition with_halt (s : OrderManagementSystem) (h : option string) : OrderManagementSystem :=
  mkOms (orders s) (order_no_aliases s) (correlations s) (api_client s) (order_budget s)
    (circuit_breaker s) (client_id s) (total_placed s) (total_updates s) (dry_run s)
    (paper_order_counter s) (readiness s) h (never_probed_latched s) (stop_all_alert_latched s).
Definition with_never_probed_latched (s : OrderManagementSystem) (b : bool) : OrderManagementSystem :=
  mkOms (orders s) (order_no_aliases s) (correlations s) (api_client s) (order_budget s)
    (circuit_breaker s) (client_id s) (total_placed s) (total_updates s) (dry_run s)
    (paper_order_counter s) (readiness s) (halt s) b (stop_all_alert_latched s).
Definition with_stop_all_alert_latched (s : OrderManagementSystem) (b : bool) : OrderManagementSystem :=
  mkOms (orders s) (order_no_aliases s) (correlations s) (api_client s) (order_budget s)
    (circuit_breaker s) (client_id s) (total_placed s) (total_updates s) (dry_run s)
    (paper_order_counter s) (readiness s) (halt s) (never_probed_latched s) b.

(** [self.orders.get_mut(id)] and an assignment through it. *)
Definition update_order (s : OrderManagementSystem) (id : string) (f : ManagedOrder -> ManagedOrder)
    : OrderManagementSystem :=
  with_orders s (alter f id (orders s)).

(** What a call reads from its environment: the two clocks, the breaker's clock
    readings and the per-second limiter's verdict. *)
Record Env : Type := mkEnv {
  now_s : Z;
  now_us : Z;
  now_breaker : Z;
  per_second_ok : bool;
  today : Z }.

(** * Validation *)

Record PlaceOrderRequest : Type := mkPlace {
  pr_security_id : Z;
  pr_exchange_segment : ExchangeSegment;
  pr_transaction_type : TransactionType;
  pr_order_type : OrderType;
  pr_product_type : ProductType;
  pr_validity : OrderValidity;
  pr_quantity : Z;
  pr_price : f64;
  pr_trigger_price : f64;
  pr_lot_size : Z;
  pr_expiry_date : option Z }.

Record ModifyOrderRequest : Type := mkModify {
  mr_order_type : OrderType;
  mr_quantity : Z;
  mr_price : f64;
  mr_trigger_price : f64;
  mr_validity : OrderValidity;
  mr_disclosed_quantity : Z }.

Definition is_stop (t : OrderType) : bool :=
  match t with StopLoss | StopLossMarket => true | _ => false end.

Definition validate_order_fields (today : Z) (r : PlaceOrderRequest) : res OmsError unit :=
  if bool_decide (pr_order_type r = Market) && negb (f64_eqb (pr_price r) f64_zero)
  then Err (RiskRejected "MARKET order must have price=0.0")
  else if is_stop (pr_order_type r) && f64_eqb (pr_trigger_price r) f64_zero
  then Err (RiskRejected "STOP_LOSS/STOP_LOSS_MARKET orders require triggerPrice > 0")
  else match pr_expiry_date r with
       | Some expiry =>
           if expiry <? today then Err (ExpiredContract (pr_security_id r) expiry) else mret tt
       | None => mret tt
       end.

Definition validate_modify_fields (r : ModifyOrderRequest) : res OmsError unit :=
  if bool_decide (mr_order_type r = Market) && negb (f64_eqb (mr_price r) f64_zero)
  then Err (RiskRejected "MARKET order must have price=0.0")
  else if is_stop (mr_order_type r) && f64_eqb (mr_trigger_price r) f64_zero
  then Err (RiskRejected "STOP_LOSS/STOP_LOSS_MARKET orders require triggerPrice > 0")
  else mret tt.

Definition i64_saturating_mul (a b : Z) : Z := clamp i64_min i64_max (a * b).

Definition validate_disclosed_quantity (quantity disclosed_quantity : Z) : res OmsError unit :=
  if disclosed_quantity <=? 0 then mret tt
  else if disclosed_quantity <? Z.quot (i64_saturating_add (i64_saturating_mul quantity 3) 9) 10
  then Err (RiskRejected "disclosedQuantity must be >=30% of quantity")
  else mret tt.

Definition check_modification_limit (modification_count : Z) (order_id : string) : res OmsError unit :=
  if MAX_MODIFICATIONS_PER_ORDER <=? modification_count
  then Err (RiskRejected "order has reached max modifications") else mret tt.

Definition resolve_initial_status (response_status : string) : OrderStatus :=
  default Transit (parse_order_status response_status).

(** [paper_order_id_string]: decimal digits from the least significant. *)
Definition digit_char (d : Z) : ascii := ascii_of_N (Z.to_N (48 + d)).
Fixpoint digits_loop (fuel : nat) (rest : Z) (acc : string) : string :=
  match fuel with
  | O => acc
  | S fuel' =>
      let acc := String (digit_char (rest mod 10)) acc in
      if rest / 10 =? 0 then acc else digits_loop fuel' (rest / 10) acc
  end.
Definition paper_order_id_string (counter : Z) : string :=
  "PAPER-" +:+ digits_loop 20 counter "".

(** * Gates *)

Definition check_order_book_capacity (s : OrderManagementSystem) : res OmsError unit :=
  let tracked := Z.of_nat (size (orders s)) in
  if MAX_TRACKED_ORDERS <=? tracked then Err (OrderBookFull tracked MAX_TRACKED_ORDERS) else mret tt.

(** Capacity, budget, per-second limiter, circuit breaker, in this order; each
    leaves its own state as it found or changed it. *)
Definition order_gates (e : Env) (s : OrderManagementSystem) : res OmsError unit * OrderManagementSystem :=
  match check_order_book_capacity s with
  | Ok _ =>
      let '(r, b) := try_consume (order_budget s) (now_s e) in
      let s := with_budget s b in
      match r with
      | Ok _ =>
          if negb (per_second_ok e) then (Err RateLimited, s) else
          let '(ok, cb) := check (now_breaker e) (now_breaker e) (circuit_breaker s) in
          let s := with_breaker s cb in
          if ok then (Ok tt, s) else (Err CircuitBreakerOpen, s)
      | Err err => (Err err, s)
      | Panic => (Panic, s)
      end
  | Err err => (Err err, s)
  | Panic => (Panic, s)
  end.

(** * Records of orders *)

Definition paper_order (e : Env) (r : PlaceOrderRequest) (order_id correlation_id : string)
    (status : OrderStatus) : ManagedOrder := {|
  mo_order_id := order_id; mo_correlation_id := correlation_id;
  mo_security_id := pr_security_id r; mo_exchange_segment := pr_exchange_segment r;
  mo_transaction_type := pr_transaction_type r; mo_order_type := pr_order_type r;
  mo_product_type := pr_product_type r; mo_validity := pr_validity r;
  mo_quantity := pr_quantity r; mo_price := pr_price r; mo_trigger_price := pr_trigger_price r;
  mo_status := status; mo_traded_qty := 0; mo_avg_traded_price := f64_zero;
  mo_lot_size := pr_lot_size r; mo_created_at_us := now_us e; mo_updated_at_us := now_us e;
  mo_needs_reconciliation := false; mo_modification_count := 0 |}.

Definition apply_modify (now : Z) (r : ModifyOrderRequest) (o : ManagedOrder) : ManagedOrder := {|
  mo_order_id := mo_order_id o; mo_correlation_id := mo_correlation_id o;
  mo_security_id := mo_security_id o; mo_exchange_segment := mo_exchange_segment o;
  mo_transaction_type := mo_transaction_type o; mo_order_type := mr_order_type r;
  mo_product_type := mo_product_type o; mo_validity := mr_validity r;
  mo_quantity := mr_quantity r; mo_price := mr_price r; mo_trigger_price := mr_trigger_price r;
  mo_status := mo_status o; mo_traded_qty := mo_traded_qty o;
  mo_avg_traded_price := mo_avg_traded_price o; mo_lot_size := mo_lot_size o;
  mo_created_at_us := mo_created_at_us o; mo_updated_at_us := now;
  mo_needs_reconciliation := mo_needs_reconciliation o;
  mo_modification_count := u32_saturating_add (mo_modification_count o) 1 |}.

(** * The halt latch *)

Definition is_order_halted (s : OrderManagementSystem) : bool := bool_decide (is_Some (halt s)).

Definition engage_halt (cause : string) (s : OrderManagementSystem) : bool * OrderManagementSystem :=
  match halt s with
  | Some _ => (false, s)
  | None => (true, with_halt s (Some cause))
  end.

Definition clear_order_halt (s : OrderManagementSystem) : OrderManagementSystem :=
  match halt s with
  | Some _ =>
      with_budget (with_breaker (with_halt s None) (CircuitBreaker.reset (circuit_breaker s)))
        (OrderBudget.reset_daily (order_budget s))
  | None => s
  end.

(** * Placement, modification, cancellation *)

(** Requests as the broker receives them. *)
Record DhanPlaceOrderRequest : Type := mkPlaceReq {
  dq_dhan_client_id : string;
  dq_transaction_type : string;
  dq_exchange_segment : string;
  dq_product_type : string;
  dq_order_type : string;
  dq_validity : string;
  dq_security_id : string;
  dq_quantity : Z;
  dq_price : f64;
  dq_trigger_price : f64;
  dq_disclosed_quantity : Z;
  dq_after_market_order : bool;
  dq_correlation_id : string }.

Record DhanModifyOrderRequest : Type := mkModifyReq {
  dm_dhan_client_id : string;
  dm_order_id : string;
  dm_order_type : string;
  dm_leg_name : string;
  dm_quantity : Z;
  dm_price : f64;
  dm_trigger_price : f64;
  dm_validity : string;
  dm_disclosed_quantity : Z }.

Definition place_request (s : OrderManagementSystem) (r : PlaceOrderRequest) (correlation_id : string)
    : DhanPlaceOrderRequest := {|
  dq_dhan_client_id := client_id s;
  dq_transaction_type := transaction_type_as_str (pr_transaction_type r);
  dq_exchange_segment := segment_as_str (pr_exchange_segment r);
  dq_product_type := product_type_as_str (pr_product_type r);
  dq_order_type := order_type_as_str (pr_order_type r);
  dq_validity := validity_as_str (pr_validity r);
  dq_security_id := digits_loop 20 (pr_security_id r) "";
  dq_quantity := pr_quantity r; dq_price := pr_price r; dq_trigger_price := pr_trigger_price r;
  dq_disclosed_quantity := 0; dq_after_market_order := false;
  dq_correlation_id := correlation_id |}.

Definition modify_request (s : OrderManagementSystem) (order_id : string) (r : ModifyOrderRequest)
    : DhanModifyOrderRequest := {|
  dm_dhan_client_id := client_id s; dm_order_id := order_id;
  dm_order_type := order_type_as_str (mr_order_type r); dm_leg_name := "";
  dm_quantity := mr_quantity r; dm_price := mr_price r; dm_trigger_price := mr_trigger_price r;
  dm_validity := validity_as_str (mr_validity r); dm_disclosed_quantity := mr_disclosed_quantity r |}.

(** What a live operation reads: clocks, the token provider's answer at each
    engine attempt, the HTTP outcome of each request it sends. *)
Record Live (Req : Type) : Type := mkLive {
  lv_sandbox_s : Z;
  lv_gate_s : Z;
  lv_token : nat -> option OmsError;
  lv_http : Req -> nat -> HttpOutcome;
  lv_check_ms : nat -> Z;
  lv_engage_ms : nat -> Z;
  lv_breaker_s : nat -> Z;
  lv_done_us : Z }.
Global Arguments lv_sandbox_s {Req} _.
Global Arguments lv_gate_s {Req} _.
Global Arguments lv_token {Req} _ _.
Global Arguments lv_http {Req} _ _ _.
Global Arguments lv_check_ms {Req} _ _.
Global Arguments lv_engage_ms {Req} _ _.
Global Arguments lv_breaker_s {Req} _ _.
Global Arguments lv_done_us {Req} _.

(** * The live gate and the engine's error policy *)

Definition refuse_readiness (refusal : ReadinessRefusal) (s : OrderManagementSystem)
    : res OmsError unit * OrderManagementSystem :=
  (Err (OrderReadinessRefused (slug refusal)),
   match readiness s with
   | Some st => with_readiness s (Some (snd (latch_refusal st)))
   | None => with_never_probed_latched s true
   end).

Definition set_order_readiness (st : OrderReadinessState) (s : OrderManagementSystem) : OrderManagementSystem :=
  with_never_probed_latched (with_readiness s (Some st)) false.

Definition check_live_order_gates (now : Z) (s : OrderManagementSystem)
    : res OmsError unit * OrderManagementSystem :=
  match halt s with
  | Some cause => (Err (OrderPathHalted cause), s)
  | None =>
      match readiness s with
      | None => refuse_readiness NeverProbed s
      | Some st =>
          match evaluate_order_readiness st now with
          | Ok _ => (Ok tt, s)
          | Err refusal => refuse_readiness refusal s
          | Panic => (Panic, s)
          end
      end
  end.

Inductive EngineAction : Type :=
  | Retry
  | Halt (cause : string)
  | ReturnTokenExpired
  | PassThrough
  | PassThroughSilent.

Definition halt_cause_for (class : DhanErrorClass) : string :=
  match class with
  | Dh902 => "DH-902"
  | Dh903 => "DH-903"
  | Data810 => "DATA-810"
  | _ => "DH-910"
  end.

Section orders.
Context (draw : nat -> list Byte.byte).
(** The JSON decodings of [serde_json]: an error body's code, a placement's
    response. *)
Context (error_body : string -> option (option CodeValue)).
Context (parse_placed : string -> string + DhanPlaceOrderResponse).

(** [auth_retry_used] goes in and comes back. *)
Definition apply_engine_error_policy (breaker_now : Z) (err : OmsError) (endpoint : OrderEndpoint)
    (auth_retry_used : bool) (s : OrderManagementSystem) : EngineAction * bool * OrderManagementSystem :=
  let record_failure s := with_breaker s (record_failure breaker_now (circuit_breaker s)) in
  match classify_oms_error error_body err with
  | None => (PassThrough, auth_retry_used, record_failure s)
  | Some class =>
      let s := if trips_circuit_breaker class then record_failure s else s in
      let s := if decide (class = Data805) then s else with_stop_all_alert_latched s false in
      match policy_for class endpoint with
      | RotateRetryOnceThenHalt =>
          if negb auth_retry_used then (Retry, true, s)
          else (Halt "DH-901", auth_retry_used, snd (engage_halt "DH-901" s))
      | HaltAndAlert =>
          let cause := halt_cause_for class in
          (Halt cause, auth_retry_used, snd (engage_halt cause s))
      | TokenRefreshRetryOnce =>
          if negb auth_retry_used then (Retry, true, s) else (ReturnTokenExpired, auth_retry_used, s)
      | AlertOnlyPoisonReadiness =>
          (PassThrough, auth_retry_used, with_readiness s (poison_profile <$> readiness s))
      | BackoffLadder => (PassThroughSilent, auth_retry_used, s)
      | PolicyStopAllCooldown => (PassThroughSilent, auth_retry_used, with_stop_all_alert_latched s true)
      | _ => (PassThrough, auth_retry_used, s)
      end
  end.

Section live.
Context {Req T : Type} (lv : Live Req).
Context (endpoint : OrderEndpoint) (tag : string) (reply : nat -> OmsError + T).

(** The loop the three operations share: the engine attempt [a], the index [n]
    of the next request.  Out of fuel is [Panic], which two attempts exclude. *)
Fixpoint live_loop (fuel : nat) (auth_retry_used : bool) (a n : nat) (s : OrderManagementSystem)
    : res OmsError T * OrderManagementSystem :=
  match fuel with
  | O => (Panic, s)
  | S fuel' =>
    match lv_token lv a with
    | Some err => (Err err, s)
    | None =>
      let '(r, n', c) := run_order_ladder error_body endpoint tag reply (lv_check_ms lv) (lv_engage_ms lv)
                           n (api_client s) in
      let s := with_client s c in
      match r with
      | Ok resp =>
          (Ok resp, with_stop_all_alert_latched (with_breaker s (record_success (circuit_breaker s))) false)
      | Err err =>
          let '(action, used, s) :=
            apply_engine_error_policy (lv_breaker_s lv a) err endpoint auth_retry_used s in
          match action with
          | Retry => live_loop fuel' used (S a) n' s
          | Halt cause => (Err (OrderPathHalted cause), s)
          | ReturnTokenExpired => (Err TokenExpired, s)
          | PassThrough | PassThroughSilent => (Err err, s)
          end
      | Panic => (Panic, s)
      end
    end
  end.

Definition live_call (s : OrderManagementSystem) : res OmsError T * OrderManagementSystem :=
  live_loop 2 false 0 0 s.
End live.

(** The record a placement leaves in the book, under its id. *)
Definition book_order (order : ManagedOrder) (c : CorrelationTracker) (counter : Z)
    (s : OrderManagementSystem) : OrderManagementSystem :=
  mkOms (<[mo_order_id order := order]> (orders s)) (order_no_aliases s) c (api_client s)
    (order_budget s) (circuit_breaker s) (client_id s) (u64_saturating_add (total_placed s) 1)
    (total_updates s) (dry_run s) counter (readiness s) (halt s) (never_probed_latched s)
    (stop_all_alert_latched s).

Definition place_order (e : Env) (lv : Live DhanPlaceOrderRequest) (r : PlaceOrderRequest)
    (s : OrderManagementSystem) : res OmsError string * OrderManagementSystem :=
  match validate_order_fields (today e) r with
  | Ok _ =>
    match order_gates e s with
    | (Ok _, s) =>
      let '(correlation_id, c) := next_id draw (correlations s) in
      let s := with_correlations s c in
      if dry_run s then
        let counter := u64_saturating_add (paper_order_counter s) 1 in
        let paper_order_id := paper_order_id_string counter in
        let order := paper_order e r paper_order_id correlation_id Confirmed in
        let '(_, c) := track_ref correlation_id paper_order_id (correlations s) in
        (Ok paper_order_id, book_order order c counter s)
      else if lv_sandbox_s lv <? SANDBOX_DEADLINE_EPOCH_SECS then (Err SandboxEnforcement, s)
      else
        match check_live_order_gates (lv_gate_s lv) s with
        | (Ok _, s) =>
          let dhan_request := place_request s r correlation_id in
          match live_call lv Place correlation_id
                  (fun n => ApiClient.place_order parse_placed (lv_http lv dhan_request n)) s with
          | (Ok response, s) =>
              let initial_status := resolve_initial_status (dpr_order_status response) in
              let order := paper_order e r (dpr_order_id response) correlation_id initial_status in
              let '(_, c) := track correlation_id (dpr_order_id response) (correlations s) in
              (Ok (dpr_order_id response), book_order order c (paper_order_counter s) s)
          | (Err err, s) => (Err err, s)
          | (Panic, s) => (Panic, s)
          end
        | (Err err, s) => (Err err, s)
        | (Panic, s) => (Panic, s)
        end
    | (Err err, s) => (Err err, s)
    | (Panic, s) => (Panic, s)
    end
  | Err err => (Err err, s)
  | Panic => (Panic, s)
  end.

Definition modify_order (e : Env) (lv : Live DhanModifyOrderRequest) (order_id : string)
    (r : ModifyOrderRequest) (s : OrderManagementSystem) : res OmsError unit * OrderManagementSystem :=
  match orders s !! order_id with
  | None => (Err (OrderNotFound order_id), s)
  | Some order =>
    if is_terminal order then (Err (OrderTerminal order_id (status_as_str (mo_status order))), s) else
    match (check_modification_limit (mo_modification_count order) order_id ≫= fun _ =>
           validate_modify_fields r ≫= fun _ =>
           validate_disclosed_quantity (mr_quantity r) (mr_disclosed_quantity r)) with
    | Ok _ =>
      match order_gates e s with
      | (Ok _, s) =>
        if dry_run s then (Ok tt, update_order s order_id (apply_modify (now_us e) r)) else
        match check_live_order_gates (lv_gate_s lv) s with
        | (Ok _, s) =>
          match live_call lv Modify order_id
                  (fun n => ApiClient.modify_order (lv_http lv (modify_request s order_id r) n)) s with
          | (Ok _, s) => (Ok tt, update_order s order_id (apply_modify (lv_done_us lv) r))
          | (Err err, s) => (Err err, s)
          | (Panic, s) => (Panic, s)
          end
        | (Err err, s) => (Err err, s)
        | (Panic, s) => (Panic, s)
        end
      | (Err err, s) => (Err err, s)
      | (Panic, s) => (Panic, s)
      end
    | Err err => (Err err, s)
    | Panic => (Panic, s)
    end
  end.

(** A cancel is sent whatever the halt latch and the readiness gate say. *)
Definition cancel_order (e : Env) (lv : Live string) (order_id : string) (s : OrderManagementSystem)
    : res OmsError unit * OrderManagementSystem :=
  match orders s !! order_id with
  | None => (Err (OrderNotFound order_id), s)
  | Some order =>
    if is_terminal order then (Err (OrderTerminal order_id (status_as_str (mo_status order))), s) else
    match order_gates e s with
    | (Ok _, s) =>
      if dry_run s then
        (Ok tt, update_order s order_id (fun o => set_updated_at_us (set_status o Cancelled) (now_us e)))
      else
        match live_call lv Cancel order_id (fun n => ApiClient.cancel_order (lv_http lv order_id n)) s with
        | (Ok _, s) =>
            (Ok tt, update_order s order_id
                      (fun o => set_updated_at_us (set_needs_reconciliation o true) (lv_done_us lv)))
        | (Err err, s) => (Err err, s)
        | (Panic, s) => (Panic, s)
        end
    | (Err err, s) => (Err err, s)
    | (Panic, s) => (Panic, s)
    end
  end.

(** [OrderManagementSystem::new], in dry-run mode. *)
Definition new_oms (capacity : nat) (client : OrderApiClient) (id : string) : OrderManagementSystem :=
  mkOms ∅ ∅ (new_tracker draw capacity) client new_budget new_breaker id 0 0 true 0 None None false false.

Definition reset_daily (s : OrderManagementSystem) : OrderManagementSystem :=
  mkOms ∅ ∅ (clear draw (correlations s)) (api_client s) (order_budget s)
    (CircuitBreaker.reset (circuit_breaker s)) (client_id s) 0 0 (dry_run s) 0 (readiness s)
    (halt s) (never_probed_latched s) (stop_all_alert_latched s).
End orders.

(** * Live order updates *)

Definition i64_div (a b : Z) : Z := Z.quot a b.
Definition i32_saturating_neg (a : Z) : Z := clamp i32_min i32_max (- a).

Definition apply_fill_fields (now : Z) (o : ManagedOrder) (u : OrderUpdate) : ManagedOrder :=
  let o :=
    if mo_traded_qty o <=? ou_traded_qty u then
      let o := set_traded_qty o (ou_traded_qty u) in
      if positive_price (ou_avg_traded_price u) then set_avg_traded_price o (ou_avg_traded_price u) else o
    else o in
  set_updated_at_us o now.

(** The price of the slice between the tracked cumulative average and the
    update's. *)
Definition fill_delta_price (o : ManagedOrder) (u : OrderUpdate) : f64 :=
  let old_qty := Z.max (mo_traded_qty o) 0 in
  let new_qty := ou_traded_qty u in
  let old_avg := if positive_price (mo_avg_traded_price o) then mo_avg_traded_price o else f64_zero in
  f64_div (f64_sub (f64_mul (f64_of_Z new_qty) (ou_avg_traded_price u)) (f64_mul (f64_of_Z old_qty) old_avg))
    (f64_of_Z (i64_saturating_sub new_qty old_qty)).

Definition extract_fill_delta (o : ManagedOrder) (u : OrderUpdate) : option FillEvent :=
  let old_qty := Z.max (mo_traded_qty o) 0 in
  let new_qty := ou_traded_qty u in
  let qty_delta := i64_saturating_sub new_qty old_qty in
  if qty_delta <=? 0 then None else
  let lot_size := Z.max (mo_lot_size o) 1 in
  let lots_abs := i64_saturating_sub (i64_div new_qty lot_size) (i64_div old_qty lot_size) in
  if lots_abs <=? 0 then None else
  let delta_price := fill_delta_price o u in
  if negb (is_finite delta_price) || f64_leb delta_price f64_zero then None else
  let lots := if lots_abs <=? i32_max then lots_abs else i32_max in
  let fill_lots := match mo_transaction_type o with
                   | Buy => lots
                   | Sell => i32_saturating_neg lots
                   end in
  let segment_code := match parse_segment_chars (ou_exchange u) (ou_segment u) with
                      | Some seg => binary_code seg
                      | None => SEGMENT_CODE_UNKNOWN
                      end in
  Some (mkFillEvent (mo_security_id o) segment_code fill_lots delta_price lot_size (mo_order_id o)).

(** The one record an update is about: by its order number, by alias, or by
    correlation id. *)
Definition find_order_id (s : OrderManagementSystem) (u : OrderUpdate) : option string :=
  if decide (is_Some (orders s !! ou_order_no u)) then Some (ou_order_no u)
  else match order_no_aliases s !! ou_order_no u with
       | Some canonical => Some canonical
       | None =>
           if decide (ou_correlation_id u = "") then None
           else get_order_id (correlations s) (ou_correlation_id u)
       end.

(** Remember the broker's order number, unless the alias table is full. *)
Definition record_alias (s : OrderManagementSystem) (u : OrderUpdate) (order_id : string)
    : OrderManagementSystem :=
  if bool_decide (ou_order_no u <> order_id) && bool_decide (ou_order_no u <> "") &&
     bool_decide (is_Some (orders s !! order_id)) then
    let at_alias_ceiling :=
      bool_decide (order_no_aliases s !! ou_order_no u = None) &&
      (MAX_TRACKED_ORDER_ALIASES <=? Z.of_nat (size (order_no_aliases s))) in
    if at_alias_ceiling then s
    else with_aliases s (<[ou_order_no u := order_id]> (order_no_aliases s))
  else s.

Definition flag_reconciliation (o : ManagedOrder) : ManagedOrder := set_needs_reconciliation o true.

Definition bump_updates (s : OrderManagementSystem) : OrderManagementSystem :=
  mkOms (orders s) (order_no_aliases s) (correlations s) (api_client s) (order_budget s)
    (circuit_breaker s) (client_id s) (total_placed s) (u64_saturating_add (total_updates s) 1)
    (dry_run s) (paper_order_counter s) (readiness s) (halt s) (never_probed_latched s)
    (stop_all_alert_latched s).

(** What the update does to the one order it resolves to. *)
Definition apply_update (now : Z) (o : ManagedOrder) (u : OrderUpdate) (new_status : OrderStatus)
    (order_id : string) : res OmsError (option FillEvent) * ManagedOrder :=
  if decide (mo_status o = new_status) then
    if is_terminal o then
      (Ok None, if mo_traded_qty o <? ou_traded_qty u then flag_reconciliation o else o)
    else (Ok (extract_fill_delta o u), apply_fill_fields now o u)
  else if negb (is_valid_transition (mo_status o) new_status) then
    (Err (InvalidTransition order_id (status_as_str (mo_status o)) (status_as_str new_status)),
     flag_reconciliation o)
  else (Ok (extract_fill_delta o u), apply_fill_fields now (set_status o new_status) u).

Definition handle_order_update (now : Z) (u : OrderUpdate) (s : OrderManagementSystem)
    : res OmsError (option FillEvent) * OrderManagementSystem :=
  let s := bump_updates s in
  match find_order_id s u with
  | None => (Ok None, s)
  | Some order_id =>
    let s := record_alias s u order_id in
    match parse_order_status (ou_status u) with
    | None => (Ok None, update_order s order_id flag_reconciliation)
    | Some new_status =>
      match orders s !! order_id with
      | None => (Ok None, s)
      | Some o =>
          let '(r, o') := apply_update now o u new_status order_id in
          (r, with_orders s (<[order_id := o']> (orders s)))
      end
    end
  end.

(** * Reconciliation's corrections *)

Definition correct_order (now : Z) (o : ManagedOrder) (c : ReconciliationUpdate) : ManagedOrder :=
  if is_terminal o then
    let status_suppressed := negb (bool_decide (mo_status o = ru_status c)) in
    let o' := set_updated_at_us (set_avg_traded_price (set_traded_qty o (ru_traded_qty c))
                (ru_avg_traded_price c)) now in
    if status_suppressed then o' else set_needs_reconciliation o' false
  else
    let o := set_status o (ru_status c) in
    if ru_traded_qty c <? mo_traded_qty o then
      set_updated_at_us (set_needs_reconciliation o true) now
    else
      set_updated_at_us (set_needs_reconciliation
        (set_avg_traded_price (set_traded_qty o (ru_traded_qty c)) (ru_avg_traded_price c))
        false) now.

Definition apply_correction (now : Z) (m : order_book) (c : ReconciliationUpdate) : order_book :=
  match m !! ru_order_id c with
  | None => m
  | Some o => <[ru_order_id c := correct_order now o c]> m
  end.

(** [fetched] is what the token provider and the REST client return. *)
Definition reconcile (now : Z) (fetched : res OmsError (list DhanOrderResponse))
    (s : OrderManagementSystem) : res OmsError ReconciliationReport * OrderManagementSystem :=
  if dry_run s then (Ok default_report, s) else
  match fetched with
  | Ok dhan_orders =>
      let '(report, updates) := reconcile_orders (orders s) dhan_orders in
      (Ok report, with_orders s (foldl (apply_correction now) (orders s) updates))
  | Err e => (Err e, s)
  | Panic => (Panic, s)
  end.

(** * Accessors *)

Definition order (s : OrderManagementSystem) (order_id : string) : option ManagedOrder :=
  match orders s !! order_id with
  | Some o => Some o
  | None => canonical ← order_no_aliases s !! order_id; orders s !! canonical
  end.

Definition active_orders (s : OrderManagementSystem) : list ManagedOrder :=
  List.filter (fun o => negb (is_terminal o)) (map snd (map_to_list (orders s))).

Definition active_order_count (s : OrderManagementSystem) : Z := zlen (active_orders s).

(** * Order updates: lifecycle and fill accounting *)

(** Fields no update changes. *)
Definition same_identity (o o' : ManagedOrder) : Prop :=
  mo_order_id o' = mo_order_id o /\ mo_transaction_type o' = mo_transaction_type o /\
  mo_lot_size o' = mo_lot_size o /\ mo_security_id o' = mo_security_id o /\
  mo_exchange_segment o' = mo_exchange_segment o /\ mo_quantity o' = mo_quantity o.

(** How one update may move an order. *)
Definition evolves (o o' : ManagedOrder) : Prop :=
  same_identity o o' /\
  (mo_status o' = mo_status o \/ transition (mo_status o) (mo_status o')) /\
  mo_traded_qty o <= mo_traded_qty o' /\
  (is_terminal o = true ->
   mo_status o' = mo_status o /\ mo_traded_qty o' = mo_traded_qty o /\
   mo_avg_traded_price o' = mo_avg_traded_price o).

(** Whole lots filled so far. *)
Definition whole_lots (o : ManagedOrder) : Z :=
  Z.max (mo_traded_qty o) 0 / Z.max (mo_lot_size o) 1.

Definition fill_of (r : res OmsError (option FillEvent)) : option FillEvent :=
  match r with Ok (Some e) => Some e | _ => None end.

(** The magnitude of a fill. *)
Definition lots_of (e : option FillEvent) : Z :=
  match e with Some f => Z.abs (fe_fill_lots f) | None => 0 end.

(** What an event says about the order it comes from. *)
Definition event_ok (o : ManagedOrder) (e : option FillEvent) : Prop :=
  match e with
  | Some f =>
      fe_order_id f = mo_order_id o /\ fe_security_id f = mo_security_id o /\
      positive_price (fe_avg_price f) = true /\
      match mo_transaction_type o with Buy => 0 < fe_fill_lots f | Sell => fe_fill_lots f < 0 end
  | None => True
  end.

Lemma evolves_refl o : evolves o o.
Proof. unfold evolves, same_identity. split_and!; auto; lia. Qed.

Lemma evolves_flag o : evolves o (flag_reconciliation o).
Proof. destruct o. unfold evolves, same_identity; cbn. split_and!; auto; lia. Qed.

Lemma apply_fill_fields_qty now o u :
  mo_traded_qty (apply_fill_fields now o u) = Z.max (mo_traded_qty o) (ou_traded_qty u).
Proof.
  unfold apply_fill_fields. destruct (Z.leb_spec (mo_traded_qty o) (ou_traded_qty u));
    [destruct (positive_price _)|]; cbn; lia.
Qed.

Lemma apply_fill_fields_same now o u :
  same_identity o (apply_fill_fields now o u) /\ mo_status (apply_fill_fields now o u) = mo_status o.
Proof.
  unfold apply_fill_fields, same_identity.
  destruct (_ <=? _); [destruct (positive_price _)|]; by destruct o.
Qed.

Lemma i64_div_nonneg a b : 0 <= a -> 0 < b -> i64_div a b = a / b.
Proof. intros. unfold i64_div. apply Z.quot_div_nonneg; lia. Qed.

(** The branch structure of [extract_fill_delta] on machine integers. *)
Lemma extract_fill_delta_cases o u :
  in_i64 (mo_traded_qty o) -> in_i64 (ou_traded_qty u) ->
  let lots := ou_traded_qty u / Z.max (mo_lot_size o) 1 - whole_lots o in
  match extract_fill_delta o u with
  | Some f =>
      event_ok o (Some f) /\ Z.max (mo_traded_qty o) 0 < ou_traded_qty u /\ 0 < lots /\
      Z.abs (fe_fill_lots f) = Z.min lots i32_max /\ fe_avg_price f = fill_delta_price o u
  | None =>
      ou_traded_qty u <= Z.max (mo_traded_qty o) 0 \/ lots <= 0 \/
      positive_price (fill_delta_price o u) = false
  end.
Proof.
  intros Ho Hu lots. unfold extract_fill_delta. cbv zeta.
  assert (Hd : i64_saturating_sub (ou_traded_qty u) (Z.max (mo_traded_qty o) 0) =
    ou_traded_qty u - Z.max (mo_traded_qty o) 0 \/ ou_traded_qty u <= Z.max (mo_traded_qty o) 0)
    by zints.
  destruct (Z.leb_spec (i64_saturating_sub (ou_traded_qty u) (Z.max (mo_traded_qty o) 0)) 0).
  { left. destruct Hd; [lia|done]. }
  assert (Hpos : Z.max (mo_traded_qty o) 0 < ou_traded_qty u) by (destruct Hd; zints).
  rewrite !i64_div_nonneg by lia. fold (whole_lots o).
  pose proof (Z.div_le_mono (Z.max (mo_traded_qty o) 0) (ou_traded_qty u) (Z.max (mo_lot_size o) 1)
    ltac:(lia) ltac:(lia)) as Hmono. fold (whole_lots o) in Hmono.
  pose proof (Z.div_pos (Z.max (mo_traded_qty o) 0) (Z.max (mo_lot_size o) 1) ltac:(lia) ltac:(lia)) as Hw.
  fold (whole_lots o) in Hw.
  pose proof (Z.div_le_upper_bound (ou_traded_qty u) (Z.max (mo_lot_size o) 1) (ou_traded_qty u)
    ltac:(lia) ltac:(nia)) as Hup.
  assert (Hl : i64_saturating_sub (ou_traded_qty u / Z.max (mo_lot_size o) 1) (whole_lots o) = lots)
    by (unfold lots in *; zints).
  rewrite Hl. destruct (Z.leb_spec lots 0); [by right; left|].
  destruct (negb (is_finite (fill_delta_price o u)) || f64_leb (fill_delta_price o u) f64_zero) eqn:Hp.
  { right; right. unfold positive_price. apply orb_true_iff in Hp as [Hp|Hp].
    - by destruct (is_finite _).
    - destruct (is_finite _) eqn:Hf; [|done]. cbn. clear -Hp Hf.
      destruct (fill_delta_price o u) as [[]|[]| |[] ? ?]; done. }
  apply orb_false_iff in Hp as [Hf Hle]. apply negb_false_iff in Hf.
  assert (Hprice : positive_price (fill_delta_price o u) = true).
  { unfold positive_price. rewrite Hf. cbn. clear -Hle Hf.
    destruct (fill_delta_price o u) as [[]|[]| |[] ? ?]; done. }
  assert (Hi : (if lots <=? i32_max then lots else i32_max) = Z.min lots i32_max) by (zcases; lia).
  rewrite Hi. unfold event_ok. cbn [fe_order_id fe_security_id fe_avg_price fe_fill_lots].
  clearbody lots. split_and!; try done; unfold i32_saturating_neg; destruct (mo_transaction_type o); zints.
Qed.

Lemma whole_lots_fill now o u :
  in_i64 (mo_traded_qty o) -> in_i64 (ou_traded_qty u) ->
  whole_lots o + lots_of (extract_fill_delta o u) <= whole_lots (apply_fill_fields now o u).
Proof.
  intros Ho Hu. pose proof (extract_fill_delta_cases o u Ho Hu) as H. cbv zeta in H.
  assert (E : whole_lots (apply_fill_fields now o u) =
    Z.max (Z.max (mo_traded_qty o) (ou_traded_qty u)) 0 / Z.max (mo_lot_size o) 1).
  { unfold whole_lots. rewrite apply_fill_fields_qty.
    destruct (apply_fill_fields_same now o u) as [(_ & _ & -> & _) _]. done. }
  rewrite E. destruct (extract_fill_delta o u) as [f|]; cbn [lots_of].
  - destruct H as (_ & Hgt & Hl & -> & _). 
    replace (Z.max (Z.max (mo_traded_qty o) (ou_traded_qty u)) 0) with (ou_traded_qty u) by lia. lia.
  - unfold whole_lots. rewrite Z.add_0_r. apply Z.div_le_mono; lia.
Qed.

Lemma apply_update_ok now o u st id :
  in_i64 (mo_traded_qty o) -> in_i64 (ou_traded_qty u) ->
  let '(r, o') := apply_update now o u st id in
  evolves o o' /\ in_i64 (mo_traded_qty o') /\ event_ok o (fill_of r) /\
  whole_lots o + lots_of (fill_of r) <= whole_lots o' /\ is_Panic r = false.
Proof.
  intros Ho Hu. unfold apply_update.
  assert (Hflag : evolves o (flag_reconciliation o) /\ in_i64 (mo_traded_qty (flag_reconciliation o)) /\
    whole_lots o + 0 <= whole_lots (flag_reconciliation o)).
  { split; [apply evolves_flag|]. destruct o; cbn. split; [done|]. unfold whole_lots. cbn. lia. }
  assert (Hevent : event_ok o (extract_fill_delta o u)).
  { pose proof (extract_fill_delta_cases o u Ho Hu) as H. cbv zeta in H.
    destruct (extract_fill_delta o u); [by destruct H|done]. }
  assert (Hfill : forall r, fill_of (Ok r) = r) by (by intros [?|]).
  case_decide as Hst.
  - destruct (is_terminal o) eqn:Ht.
    + destruct (_ <? _); cbn [fill_of lots_of event_ok].
      * destruct Hflag as (? & ? & ?). done.
      * split_and!; try done; [apply evolves_refl|lia].
    + rewrite Hfill. pose proof (apply_fill_fields_same now o u) as [Hid Hs].
      split_and!; try done.
      * unfold evolves. rewrite apply_fill_fields_qty, Hs.
        split_and!; [done|by left|lia|congruence].
      * rewrite apply_fill_fields_qty. zints.
      * by apply whole_lots_fill.
  - destruct (is_valid_transition (mo_status o) st) eqn:Htr; cbn [negb].
    + rewrite Hfill. set (o1 := set_status o st).
      pose proof (apply_fill_fields_same now o1 u) as [Hid Hs].
      assert (Hq : mo_traded_qty o1 = mo_traded_qty o) by (by destruct o).
      assert (Hlot : whole_lots o1 = whole_lots o) by (by destruct o).
      assert (Hnt : is_terminal o = false).
      { unfold is_terminal. destruct (is_terminal_status (mo_status o)) eqn:E; [|done].
        by destruct (transition_terminal _ st E). }
      split_and!; try done.
      * unfold evolves. rewrite apply_fill_fields_qty, Hs, Hq.
        split_and!; [by destruct o|by right|lia|congruence..].
      * rewrite apply_fill_fields_qty, Hq. zints.
      * pose proof (whole_lots_fill now o1 u ltac:(by rewrite Hq) Hu) as Hw. rewrite Hlot in Hw.
        assert (Hb : lots_of (extract_fill_delta o u) = lots_of (extract_fill_delta o1 u))
          by (by destruct o). by rewrite Hb.
    + cbn [fill_of lots_of event_ok]. destruct Hflag as (? & ? & ?). done.
Qed.

(** The book's keys are its orders' ids, its quantities machine integers. *)
Definition book_ok (m : order_book) : Prop :=
  map_Forall (fun k o => mo_order_id o = k /\ in_i64 (mo_traded_qty o)) m.

Lemma record_alias_orders s u id : orders (record_alias s u id) = orders s.
Proof. unfold record_alias. destruct (_ && _ && _); [|done]. by destruct (_ && _). Qed.

(** One update moves at most the one order it resolves to. *)
Lemma handle_order_update_step now u s :
  book_ok (orders s) -> in_i64 (ou_traded_qty u) ->
  let '(r, s') := handle_order_update now u s in
  is_Panic r = false /\ book_ok (orders s') /\ dom (orders s') = dom (orders s) /\
  match fill_of r with Some f => is_Some (orders s !! fe_order_id f) | None => True end /\
  forall k o, orders s !! k = Some o ->
    exists o', orders s' !! k = Some o' /\ evolves o o' /\
    match fill_of r with
    | Some f => if decide (fe_order_id f = k) then
                  event_ok o (Some f) /\ whole_lots o + Z.abs (fe_fill_lots f) <= whole_lots o'
                else whole_lots o <= whole_lots o'
    | None => whole_lots o <= whole_lots o'
    end.
Proof.
  intros Hb Hu. unfold handle_order_update.
  assert (Hb' : orders (bump_updates s) = orders s) by done.
  assert (Hsame : forall k o, orders s !! k = Some o ->
    exists o', orders s !! k = Some o' /\ evolves o o' /\ whole_lots o <= whole_lots o').
  { intros k o Hk. exists o. split_and!; [done|apply evolves_refl|lia]. }
  destruct (find_order_id (bump_updates s) u) as [id|]; [|split_and!; done].
  assert (Hal : orders (record_alias (bump_updates s) u id) = orders s)
    by (by rewrite record_alias_orders).
  destruct (parse_order_status (ou_status u)) as [st|].
  2:{ cbn [fill_of]. unfold update_order. cbn [orders with_orders]. rewrite Hal. split_and!; try done.
      - intros k o' Hk. rewrite lookup_alter in Hk. case_decide.
        + subst k. destruct (orders s !! id) as [o|] eqn:Ho; [|done]. cbn in Hk. simplify_eq.
          by destruct (Hb id o Ho).
        + by apply Hb.
      - apply dom_alter_L.
      - intros k o Hk. rewrite lookup_alter. case_decide.
        + subst k. rewrite Hk. eexists. split; [reflexivity|]. split; [apply evolves_flag|].
          destruct o; unfold whole_lots; cbn; lia.
        + by apply Hsame. }
  rewrite Hal. destruct (orders s !! id) as [o|] eqn:Ho; [|split_and!; try done; by rewrite Hal].
  destruct (Hb id o Ho) as [Hid Hq]. pose proof (apply_update_ok now o u st id Hq Hu) as Hap.
  destruct (apply_update now o u st id) as [r o']. destruct Hap as (Hev & Hq' & Hevt & Hlots & Hpan).
  cbn [orders with_orders]. split_and!.
  - done.
  - apply map_Forall_insert_2; [|done]. destruct Hev as ((-> & _) & _). done.
  - apply dom_insert_lookup_L. by eexists.
  - destruct (fill_of r) as [f|]; [|done]. destruct Hevt as (-> & _). rewrite Hid. eauto.
  - intros k ok Hk. rewrite lookup_insert. case_decide.
    + subst k. assert (ok = o) as -> by congruence. exists o'. split; [done|]. split; [done|].
      destruct (fill_of r) as [f|]; cbn [lots_of] in Hlots; [|lia].
      destruct Hevt as (Ef & ?). rewrite Ef, Hid. rewrite decide_True by done.
      split; [|done]. by split.
    + destruct (Hsame k ok Hk) as (o2 & Hk2 & He & Hl). exists o2. split_and!; try done.
      destruct (fill_of r) as [f|]; [|done]. destruct Hevt as (Ef & _). rewrite Ef, Hid.
      by rewrite decide_False.
Qed.

Fixpoint run_updates (l : list (Z * OrderUpdate)) (s : OrderManagementSystem)
    : list (option FillEvent) * OrderManagementSystem :=
  match l with
  | [] => ([], s)
  | (now, u) :: l' =>
      let '(r, s') := handle_order_update now u s in
      let '(es, s'') := run_updates l' s' in
      (fill_of r :: es, s'')
  end.

(** Lots booked to order [k] by a run's events. *)
Definition booked_lots (k : string) (es : list (option FillEvent)) : Z :=
  foldr (fun e acc => match e with
                      | Some f => if decide (fe_order_id f = k) then Z.abs (fe_fill_lots f) + acc else acc
                      | None => acc
                      end) 0 es.

(** Every event a run books to [k] is about that order's instrument and side. *)
Definition events_of (k : string) (o : ManagedOrder) (es : list (option FillEvent)) : Prop :=
  Forall (fun e => match e with
                   | Some f => fe_order_id f = k -> event_ok o (Some f)
                   | None => True
                   end) es.

Definition evolves_to (o o' : ManagedOrder) : Prop :=
  same_identity o o' /\ rtc transition (mo_status o) (mo_status o') /\
  mo_traded_qty o <= mo_traded_qty o' /\
  (is_terminal o = true ->
   mo_status o' = mo_status o /\ mo_traded_qty o' = mo_traded_qty o /\
   mo_avg_traded_price o' = mo_avg_traded_price o).

Lemma evolves_to_step o o1 o2 : evolves o o1 -> evolves_to o1 o2 -> evolves_to o o2.
Proof.
  intros ((I1 & I2 & I3 & I4 & I5 & I6) & Hs & Hq & Ht) ((J1 & J2 & J3 & J4 & J5 & J6) & Hs' & Hq' & Ht').
  split_and!.
  - unfold same_identity. split_and!; congruence.
  - destruct Hs as [E|Hs]; [by rewrite <- E|by eapply rtc_l].
  - lia.
  - intros Hterm. destruct (Ht Hterm) as (Es & Eq & Ea).
    destruct Ht' as (Es' & Eq' & Ea'); [unfold is_terminal in *; by rewrite Es|].
    split_and!; congruence.
Qed.

Lemma event_ok_same o o' e : same_identity o o' -> event_ok o' e -> event_ok o e.
Proof.
  intros (I1 & I2 & _ & I4 & _) H. destruct e as [f|]; [|done].
  unfold event_ok in *. by rewrite <- I1, <- I2, <- I4.
Qed.

Lemma run_updates_ok l : forall s,
  book_ok (orders s) -> Forall (fun p => in_i64 (ou_traded_qty (snd p))) l ->
  let '(es, s') := run_updates l s in
  book_ok (orders s') /\ dom (orders s') = dom (orders s) /\
  forall k o, orders s !! k = Some o ->
    exists o', orders s' !! k = Some o' /\ evolves_to o o' /\ events_of k o es /\
      whole_lots o + booked_lots k es <= whole_lots o'.
Proof.
  induction l as [|[now u] l IH]; intros s Hb Hl; cbn [run_updates].
  - split_and!; [done|done|]. intros k o Hk. exists o. split_and!; [done| |constructor|cbn; lia].
    unfold evolves_to, same_identity. split_and!; done || lia.
  - apply Forall_cons_1 in Hl as [Hu Hl]. cbn in Hu.
    pose proof (handle_order_update_step now u s Hb Hu) as Hstep.
    destruct (handle_order_update now u s) as [r s1].
    destruct Hstep as (_ & Hb1 & Hd1 & _ & Hk1). specialize (IH s1 Hb1 Hl).
    destruct (run_updates l s1) as [es s2]. destruct IH as (Hb2 & Hd2 & Hk2).
    split_and!; [done|congruence|]. intros k o Hk.
    destruct (Hk1 k o Hk) as (o1 & Ho1 & Hev & Hf).
    destruct (Hk2 k o1 Ho1) as (o2 & Ho2 & Hev2 & Hes & Hw).
    exists o2. split_and!; [done|by eapply evolves_to_step| |].
    + constructor.
      * destruct (fill_of r) as [f|]; [|done]. intros Ef. rewrite decide_True in Hf by done.
        by destruct Hf.
      * eapply Forall_impl; [exact Hes|]. intros [f|]; [|done]. intros Hf' Ef.
        eapply event_ok_same; [by destruct Hev|auto].
    + cbn [booked_lots foldr]. fold (booked_lots k es). destruct (fill_of r) as [f|]; [|lia].
      case_decide; [destruct Hf|]; lia.
Qed.

(** C2: Over any sequence of order updates, duplicated, reordered or garbage,
    the lots of the fill events booked to an order never exceed the whole lots its
    record has gained, and every event is for that order's instrument, side and a
    positive price. *)
Theorem fills_never_double_counted l s k o :
  book_ok (orders s) -> Forall (fun p => in_i64 (ou_traded_qty (snd p))) l ->
  orders s !! k = Some o ->
  exists o', orders (snd (run_updates l s)) !! k = Some o' /\
    booked_lots k (fst (run_updates l s)) <= whole_lots o' - whole_lots o /\
    events_of k o (fst (run_updates l s)).
Proof.
  intros Hb Hl Hk. pose proof (run_updates_ok l s Hb Hl) as H.
  destruct (run_updates l s) as [es s']. destruct H as (_ & _ & H). cbn [fst snd].
  destruct (H k o Hk) as (o' & Ho' & _ & Hes & Hw). exists o'. split_and!; [done|lia|done].
Qed.

(** C3: Over any sequence of order updates no order appears or disappears,
    each order moves only along valid lifecycle transitions with its identity
    fields fixed, its traded quantity never falls, and a terminal order's status,
    quantity and price are frozen. *)
Theorem updates_follow_lifecycle l s k o :
  book_ok (orders s) -> Forall (fun p => in_i64 (ou_traded_qty (snd p))) l ->
  orders s !! k = Some o ->
  dom (orders (snd (run_updates l s))) = dom (orders s) /\
  exists o', orders (snd (run_updates l s)) !! k = Some o' /\ evolves_to o o'.
Proof.
  intros Hb Hl Hk. pose proof (run_updates_ok l s Hb Hl) as H.
  destruct (run_updates l s) as [es s']. destruct H as (_ & Hd & H). cbn [fst snd].
  split; [done|]. destruct (H k o Hk) as (o' & Ho' & He & _). by exists o'.
Qed.

(** An applied update sets the new status, raises the traded quantity to the
    larger of the two, and emits a fill of exactly the whole lots gained (clamped
    to 32 bits) at the slice's price, or none when no whole lot was gained or that
    price is not positive. *)
Theorem fill_delta_exact o u now st id :
  in_i64 (mo_traded_qty o) -> in_i64 (ou_traded_qty u) -> is_terminal o = false ->
  mo_status o = st \/ is_valid_transition (mo_status o) st = true ->
  let '(r, o') := apply_update now o u st id in
  mo_status o' = st /\ mo_traded_qty o' = Z.max (mo_traded_qty o) (ou_traded_qty u) /\
  match fill_of r with
  | Some f => Z.abs (fe_fill_lots f) = Z.min (whole_lots o' - whole_lots o) i32_max /\
              fe_avg_price f = fill_delta_price o u
  | None => whole_lots o' = whole_lots o \/ positive_price (fill_delta_price o u) = false
  end.
Proof.
  intros Ho Hu Ht Hst. unfold apply_update. rewrite Ht.
  assert (E : forall o1, mo_traded_qty o1 = mo_traded_qty o -> mo_lot_size o1 = mo_lot_size o ->
    whole_lots (apply_fill_fields now o1 u) =
    Z.max (Z.max (mo_traded_qty o) (ou_traded_qty u)) 0 / Z.max (mo_lot_size o) 1).
  { intros o1 Eq El. unfold whole_lots. rewrite apply_fill_fields_qty, Eq.
    destruct (apply_fill_fields_same now o1 u) as [(_ & _ & -> & _) _]. by rewrite El. }
  pose proof (extract_fill_delta_cases o u Ho Hu) as H. cbv zeta in H.
  assert (Hgoal : forall o1, mo_traded_qty o1 = mo_traded_qty o -> mo_lot_size o1 = mo_lot_size o ->
    match extract_fill_delta o u with
    | Some f => Z.abs (fe_fill_lots f) = Z.min (whole_lots (apply_fill_fields now o1 u) - whole_lots o) i32_max /\
                fe_avg_price f = fill_delta_price o u
    | None => whole_lots (apply_fill_fields now o1 u) = whole_lots o \/
              positive_price (fill_delta_price o u) = false
    end).
  { intros o1 Eq El. rewrite E by done. destruct (extract_fill_delta o u) as [f|].
    - destruct H as (_ & Hgt & _ & -> & Hp). split; [|done].
      by replace (Z.max (Z.max (mo_traded_qty o) (ou_traded_qty u)) 0) with (ou_traded_qty u) by lia.
    - destruct H as [H|[H|H]]; [..|by right]; left.
      + unfold whole_lots. f_equal. lia.
      + destruct (Z.le_gt_cases (ou_traded_qty u) (Z.max (mo_traded_qty o) 0)).
        * unfold whole_lots. f_equal. lia.
        * replace (Z.max (Z.max (mo_traded_qty o) (ou_traded_qty u)) 0) with (ou_traded_qty u) by lia.
          pose proof (Z.div_le_mono (Z.max (mo_traded_qty o) 0) (ou_traded_qty u) (Z.max (mo_lot_size o) 1)
            ltac:(lia) ltac:(lia)). unfold whole_lots in *. lia. }
  destruct (decide (mo_status o = st)) as [Es|Es].
  - destruct (apply_fill_fields_same now o u) as [_ Hs]. rewrite Hs, apply_fill_fields_qty.
    split_and!; [done|done|]. specialize (Hgoal o eq_refl eq_refl).
    by destruct (extract_fill_delta o u).
  - destruct Hst as [Hst|Hst]; [done|]. rewrite Hst. cbn [negb].
    destruct (apply_fill_fields_same now (set_status o st) u) as [_ Hs]. rewrite Hs, apply_fill_fields_qty.
    split_and!; [done|done|]. specialize (Hgoal (set_status o st) eq_refl eq_refl).
    by destruct (extract_fill_delta o u).
Qed.

(** * Broker order-number aliases *)

Definition aliases_bounded (s : OrderManagementSystem) : Prop :=
  Z.of_nat (size (order_no_aliases s)) <= MAX_TRACKED_ORDER_ALIASES.

Lemma record_alias_ok s u id :
  find_order_id s u = Some id -> aliases_bounded s ->
  aliases_bounded (record_alias s u id) /\
  forall n k, order_no_aliases s !! n = Some k -> order_no_aliases (record_alias s u id) !! n = Some k.
Proof.
  unfold aliases_bounded, record_alias, find_order_id. intros Hf Hb.
  destruct (bool_decide (ou_order_no u <> id)) eqn:Hne; cbn; [|done].
  destruct (bool_decide (ou_order_no u <> "")); cbn; [|done].
  destruct (bool_decide (is_Some (orders s !! id))); cbn; [|done].
  apply bool_decide_eq_true in Hne. case_decide as Hin; [congruence|].
  destruct (order_no_aliases s !! ou_order_no u) as [c|] eqn:Ha; cbn.
  - simplify_eq. rewrite map_size_insert, Ha. split; [done|]. intros n k Hk.
    rewrite lookup_insert. case_decide; [congruence|done].
  - destruct (Z.leb_spec MAX_TRACKED_ORDER_ALIASES (Z.of_nat (size (order_no_aliases s)))); cbn; [done|].
    rewrite map_size_insert, Ha. split; [cbn; lia|]. intros n k Hk.
    rewrite lookup_insert_ne; [done|congruence].
Qed.

Lemma handle_order_update_aliases now u s :
  aliases_bounded s ->
  aliases_bounded (snd (handle_order_update now u s)) /\
  forall n k, order_no_aliases s !! n = Some k ->
    order_no_aliases (snd (handle_order_update now u s)) !! n = Some k.
Proof.
  intros Hb. unfold handle_order_update.
  destruct (find_order_id (bump_updates s) u) as [id|] eqn:Hf; [|done].
  pose proof (record_alias_ok (bump_updates s) u id Hf Hb) as Hr.
  destruct (parse_order_status (ou_status u)); [|done].
  destruct (orders (record_alias (bump_updates s) u id) !! id); [|done].
  by destruct (apply_update _ _ _ _ _).
Qed.

Lemma run_updates_aliases l : forall s,
  aliases_bounded s ->
  aliases_bounded (snd (run_updates l s)) /\
  forall n k, order_no_aliases s !! n = Some k -> order_no_aliases (snd (run_updates l s)) !! n = Some k.
Proof.
  induction l as [|[now u] l IH]; intros s Hb; cbn [run_updates]; [done|].
  destruct (handle_order_update_aliases now u s Hb) as [Hb1 H1].
  destruct (handle_order_update now u s) as [r s1]. cbn [snd] in *.
  destruct (IH s1 Hb1) as [Hb2 H2]. destruct (run_updates l s1) as [es s2]. cbn [snd] in *.
  split; [done|]. intros n k Hk. auto.
Qed.

(** Over any sequence of order updates a recorded broker order number keeps
    resolving to the same order and the alias table stays within its ceiling. *)
Theorem aliases_are_stable l s n id :
  book_ok (orders s) -> Forall (fun p => in_i64 (ou_traded_qty (snd p))) l -> aliases_bounded s ->
  orders s !! n = None -> order_no_aliases s !! n = Some id ->
  aliases_bounded (snd (run_updates l s)) /\
  forall u, ou_order_no u = n -> find_order_id (snd (run_updates l s)) u = Some id.
Proof.
  intros Hb Hl Ha Hn Hid. pose proof (run_updates_aliases l s Ha) as [Ha' Hs].
  split; [done|]. intros u <-. unfold find_order_id.
  pose proof (run_updates_ok l s Hb Hl) as Hr. destruct (run_updates l s) as [es s']. cbn [snd] in *.
  destruct Hr as (_ & Hd & _). apply not_elem_of_dom in Hn. rewrite <- Hd in Hn.
  apply not_elem_of_dom in Hn. rewrite decide_False by (rewrite Hn; by intros [? ?]).
  by rewrite (Hs _ _ Hid).
Qed.

(** * Paper order ids *)

(** The number a string of decimal digits denotes. *)
Fixpoint digits_value (s : string) (acc : Z) : Z :=
  match s with
  | EmptyString => acc
  | String c s' => digits_value s' (10 * acc + (Z.of_N (N_of_ascii c) - 48))
  end.

Lemma digit_char_value d : 0 <= d < 10 -> Z.of_N (N_of_ascii (digit_char d)) - 48 = d.
Proof. intros. unfold digit_char. rewrite N_ascii_embedding by lia. lia. Qed.

Lemma digits_value_shift s a b :
  digits_value s (a + b) = a * 10 ^ Z.of_nat (String.length s) + digits_value s b.
Proof.
  revert a b. induction s as [|c s IH]; intros a b; cbn [digits_value String.length].
  - change (Z.of_nat 0) with 0. lia.
  - replace (10 * (a + b) + (Z.of_N (N_of_ascii c) - 48))
      with (10 * a + (10 * b + (Z.of_N (N_of_ascii c) - 48))) by lia.
    rewrite IH, Nat2Z.inj_succ, Z.pow_succ_r by lia. lia.
Qed.

Lemma digits_loop_value fuel : forall rest acc,
  (0 < fuel)%nat -> 0 <= rest < 10 ^ Z.of_nat fuel ->
  digits_value (digits_loop fuel rest acc) 0 =
  rest * 10 ^ Z.of_nat (String.length acc) + digits_value acc 0.
Proof.
  induction fuel as [|fuel IH]; intros rest acc Hf Hr; [lia|]. cbn [digits_loop].
  pose proof (Z.mod_pos_bound rest 10 ltac:(lia)) as Hm.
  pose proof (Z.div_mod rest 10 ltac:(lia)) as Hdm.
  assert (Hd : digits_value (String (digit_char (rest mod 10)) acc) 0 =
    (rest mod 10) * 10 ^ Z.of_nat (String.length acc) + digits_value acc 0).
  { cbn [digits_value]. rewrite digit_char_value by done.
    replace (10 * 0 + rest mod 10) with (rest mod 10 + 0) by lia. apply digits_value_shift. }
  destruct (Z.eqb_spec (rest / 10) 0).
  - rewrite Hd. do 2 f_equal. lia.
  - rewrite Nat2Z.inj_succ, Z.pow_succ_r in Hr by lia.
    assert (0 < rest / 10) by (pose proof (Z.div_pos rest 10); lia).
    assert (rest / 10 < 10 ^ Z.of_nat fuel) by (apply Z.div_lt_upper_bound; lia).
    destruct fuel as [|fuel]; [cbn in *; lia|].
    rewrite IH by lia. rewrite Hd. cbn [String.length]. rewrite Nat2Z.inj_succ, Z.pow_succ_r by lia.
    nia.
Qed.

Lemma paper_order_id_inj a b :
  in_u64 a -> in_u64 b -> paper_order_id_string a = paper_order_id_string b -> a = b.
Proof.
  intros Ha Hb H. unfold paper_order_id_string in H.
  assert (Hs : forall x y, "PAPER-" +:+ x = "PAPER-" +:+ y -> x = y) by (intros x y E; by injection E).
  apply Hs, (f_equal (fun s => digits_value s 0)) in H. cbv beta in H.
  assert (Hp : u64_max < 10 ^ Z.of_nat 20) by (vm_compute; done).
  unfold in_u64 in *.
  rewrite !digits_loop_value in H by lia. cbn [String.length digits_value] in H.
  change (10 ^ Z.of_nat 0) with 1 in H. lia.
Qed.

(** * Placement *)

(** A paper book: every tracked id is a paper id already handed out. *)
Definition paper_book (s : OrderManagementSystem) : Prop :=
  dry_run s = true /\ 0 <= paper_order_counter s /\
  Z.of_nat (size (orders s)) <= MAX_TRACKED_ORDERS /\
  forall k, k ∈ dom (orders s) -> exists n, 1 <= n <= paper_order_counter s /\ k = paper_order_id_string n.

(** Everything but the broker's client, the breaker, the readiness snapshot
    and the latches. *)
Definition same_book (s s' : OrderManagementSystem) : Prop :=
  orders s' = orders s /\ order_no_aliases s' = order_no_aliases s /\ correlations s' = correlations s /\
  dry_run s' = dry_run s /\ paper_order_counter s' = paper_order_counter s /\
  total_placed s' = total_placed s /\ client_id s' = client_id s.

Lemma same_book_refl s : same_book s s.
Proof. unfold same_book. split_and!; done. Qed.

Lemma same_book_trans s1 s2 s3 : same_book s1 s2 -> same_book s2 s3 -> same_book s1 s3.
Proof.
  intros (A1 & A2 & A3 & A4 & A5 & A6 & A7) (B1 & B2 & B3 & B4 & B5 & B6 & B7).
  unfold same_book. split_and!; congruence.
Qed.

Lemma order_gates_frame e s :
  let '(r, s') := order_gates e s in
  same_book s s' /\ api_client s' = api_client s /\ halt s' = halt s /\ readiness s' = readiness s /\
  is_Panic r = false /\
  (is_Ok r -> Z.of_nat (size (orders s)) < MAX_TRACKED_ORDERS /\
              fst (try_consume (order_budget s) (now_s e)) = Ok tt /\ per_second_ok e = true /\
              fst (check (now_breaker e) (now_breaker e) (circuit_breaker s)) = true).
Proof.
  unfold order_gates, check_order_book_capacity.
  destruct (Z.leb_spec MAX_TRACKED_ORDERS (Z.of_nat (size (orders s)))).
  { split_and!; try done. intros Hok; by destruct Hok. }
  cbn -[try_consume check]. destruct (try_consume (order_budget s) (now_s e)) as [[[]|err|] b] eqn:Eb.
  - destruct (per_second_ok e) eqn:Eps; cbn -[check];
      [|split_and!; try done; intros Hok; by destruct Hok].
    destruct (check _ _ _) as [[] cb]; cbn; split_and!; try done; intros Hok; by destruct Hok.
  - split_and!; try done; intros Hok; by destruct Hok.
  - pose proof (try_consume_no_panic (order_budget s) (now_s e)) as Hp. by rewrite Eb in Hp.
Qed.

Lemma validate_order_fields_no_panic d r : is_Panic (validate_order_fields d r) = false.
Proof.
  unfold validate_order_fields. destruct (_ && _); [done|]. destruct (_ && _); [done|].
  destruct (pr_expiry_date r) as [x|]; [|done]. by destruct (x <? d).
Qed.

(** * The live path *)

Section live_path.
Context {Req T : Type} (error_body : string -> option (option CodeValue)) (lv : Live Req).
Context (endpoint : OrderEndpoint) (tag : string) (reply : nat -> OmsError + T).

Abbreviation classify := (classify_oms_error error_body).

(** A reply the operation may follow with one more request. *)
Definition live_resendable (r : OmsError + T) : Prop :=
  exists err class, r = inl err /\ classify err = Some class /\
    policy_for class endpoint ∈ [BackoffLadder; CancelSingleRetry; RotateRetryOnceThenHalt; TokenRefreshRetryOnce].

Lemma engage_halt_frame cause s :
  let s' := snd (engage_halt cause s) in
  same_book s s' /\ api_client s' = api_client s /\ halt s' = Some (default cause (halt s)).
Proof. unfold engage_halt. destruct (halt s) eqn:E; cbn; split_and!; done. Qed.

Lemma error_policy_ok now err used s :
  let '(action, used', s') := apply_engine_error_policy error_body now err endpoint used s in
  same_book s s' /\ api_client s' = api_client s /\
  (forall c, halt s = Some c -> halt s' = Some c) /\
  match action with
  | Retry => used = false /\ used' = true /\ exists class, classify err = Some class /\
      policy_for class endpoint ∈ [RotateRetryOnceThenHalt; TokenRefreshRetryOnce]
  | Halt cause => is_order_halted s' = true
  | _ => True
  end.
Proof.
  unfold apply_engine_error_policy. destruct (classify err) as [class|]; [|by split_and!].
  set (s1 := if trips_circuit_breaker class then _ else s).
  assert (H1 : same_book s s1 /\ api_client s1 = api_client s /\ halt s1 = halt s)
    by (unfold s1; destruct (trips_circuit_breaker class); by split_and!).
  clearbody s1. set (s2 := if decide _ then s1 else _).
  assert (H2 : same_book s s2 /\ api_client s2 = api_client s /\ halt s2 = halt s)
    by (unfold s2; destruct (decide _); [done|]; destruct H1 as (B & ? & ?); split_and!; apply B || done).
  clearbody s2. destruct H2 as (B & Ec & Eh).
  assert (Hhalt : forall cause, same_book s (snd (engage_halt cause s2)) /\
    api_client (snd (engage_halt cause s2)) = api_client s /\
    (forall c, halt s = Some c -> halt (snd (engage_halt cause s2)) = Some c) /\
    is_order_halted (snd (engage_halt cause s2)) = true).
  { intros cause. destruct (engage_halt_frame cause s2) as (B' & Ec' & Eh'). split; [by eapply same_book_trans|].
    split; [congruence|]. unfold is_order_halted. rewrite Eh', Eh. split; [by intros c ->|done]. }
  assert (Hsame : forall s3, same_book s2 s3 -> api_client s3 = api_client s2 -> halt s3 = halt s2 ->
    same_book s s3 /\ api_client s3 = api_client s /\ (forall c, halt s = Some c -> halt s3 = Some c)).
  { intros s3 B3 E3 H3. split; [by eapply same_book_trans|]. split; [congruence|]. rewrite H3, Eh. done. }
  pose proof (Hsame s2 (same_book_refl s2) eq_refl eq_refl) as Hs2.
  destruct (policy_for class endpoint) eqn:Hp.
  1,9: destruct used; cbn [negb];
    [first [apply (Hhalt "DH-901")|destruct Hs2 as (? & ? & ?); done]|
     destruct Hs2 as (? & ? & ?); split; [done|]; split; [done|]; split; [done|];
     split; [done|]; split; [done|]; exists class; split; [done|]; rewrite Hp, !elem_of_cons; auto].
  1: apply (Hhalt (halt_cause_for class)).
  1-5: destruct Hs2 as (? & ? & ?); done.
  1-2: match goal with |- same_book _ ?s3 /\ _ =>
         destruct (Hsame s3) as (? & ? & ?); [by split_and!|done|done|done] end.
Qed.

Definition requests_per_attempt : nat := if decide (endpoint = Cancel) then 6 else 5.

(** What one live call does: it sends the same request up to a bound, resends
    only after a reply that allows it, and returns its last reply's value. *)
Definition live_effect (n : nat) (bound : nat) (s s' : OrderManagementSystem) (r : res OmsError T) (k : nat) : Prop :=
  is_Panic r = false /\ same_book s s' /\ (k <= bound)%nat /\
  wire (api_client s') = replicate k (endpoint, tag) ++ wire (api_client s) /\
  (forall v, r = Ok v -> exists m, (n + k)%nat = S m /\ reply m = inr v) /\
  (forall j, (n <= j)%nat -> (S j < n + k)%nat -> live_resendable (reply j)).

Lemma live_loop_ok fuel : forall (used : bool) (a n : nat) s,
  (1 + (if used then 0 else 1) <= fuel)%nat ->
  let '(r, s') := live_loop error_body lv endpoint tag reply fuel used a n s in
  exists k, live_effect n ((1 + (if used then 0 else 1)) * requests_per_attempt) s s' r k.
Proof.
  induction fuel as [|fuel IH]; intros used a n s Hf; [lia|]. cbn [live_loop].
  destruct (lv_token lv a) as [err|].
  { exists 0%nat. split_and!; try done; lia. }
  pose proof (run_order_ladder_ok error_body endpoint tag reply (lv_check_ms lv) (lv_engage_ms lv) n (api_client s)) as H.
  destruct (run_order_ladder _ _ _ _ _ _ n (api_client s)) as [[r n'] c].
  destruct H as (Hn & Hw & _ & Hl & Hj). fold requests_per_attempt in Hn.
  assert (Hres : forall j, (n <= j)%nat -> (S j < n')%nat -> live_resendable (reply j)).
  { intros j H1 H2. destruct (Hj j H1 H2) as (err & class & Hr & Hc & Hp). exists err, class.
    rewrite !elem_of_cons. split_and!; [done|done|]. destruct Hp as [-> | ->]; auto. }
  assert (Hk : (n + (n' - n))%nat = n') by lia. unfold sent_by in Hw.
  destruct r as [v|err|]; [| |done].
  - exists (n' - n)%nat. split_and!; try done; [lia| |by rewrite Hk].
    intros v' [= <-]. rewrite Hk. done.
  - pose proof (error_policy_ok (lv_breaker_s lv a) err used (with_client s c)) as Hp.
    destruct (apply_engine_error_policy _ _ _ _ _ _) as [[action used'] s1].
    destruct Hp as (B & Ec & _ & Hact).
    assert (Hstop : forall e, exists k, live_effect n ((1 + (if used then 0 else 1)) * requests_per_attempt) s s1 (Err e) k).
    { intros e. exists (n' - n)%nat. split_and!; try done; [apply B..|lia|by rewrite Ec|by rewrite Hk]. }
    destruct action; try apply Hstop.
    destruct Hact as (-> & -> & class & Hc & Hpol).
    assert (Hlast : exists m, n' = S m /\ reply m = inl err).
    { destruct Hl as [Hl|[w ->]]; [done|]. cbn in Hc. simplify_eq. cbn in Hpol.
      rewrite !elem_of_cons in Hpol. destruct Hpol as [?|[?|?%elem_of_nil]]; done. }
    destruct Hlast as (m & -> & Hm).
    specialize (IH true (S a) (S m) s1 ltac:(cbn; lia)).
    destruct (live_loop _ _ _ _ _ fuel true (S a) (S m) s1) as [r2 s2].
    destruct IH as (k2 & Hpan & B2 & Hb2 & Hw2 & Hv2 & Hj2). exists (S m - n + k2)%nat.
    assert (Ek : (n + (S m - n + k2))%nat = (S m + k2)%nat) by lia.
    unfold live_effect. rewrite Ek. split; [done|]. split; [by eapply same_book_trans; [exact B|]|].
    split; [cbn in *; lia|]. split; [|split; [done|]].
    + rewrite Hw2, Ec. cbn [api_client with_client]. rewrite Hw, app_assoc, <- replicate_add. do 2 f_equal. lia.
    + intros j H1 H2. destruct (Nat.lt_trichotomy (S j) (S m)) as [?|[E|?]]; [by apply Hres| |apply Hj2; lia].
      assert (j = m) as -> by lia. exists err, class. rewrite !elem_of_cons in *. split_and!; [done|done|].
      destruct Hpol as [->|[->|?%elem_of_nil]]; auto. done.
Qed.

Lemma live_call_ok s :
  let '(r, s') := live_call error_body lv endpoint tag reply s in
  exists k, live_effect 0 (2 * requests_per_attempt) s s' r k.
Proof. exact (live_loop_ok 2 false 0 0 s (le_n 2)). Qed.

(** With a token and a clear latch a live call sends at least one request. *)
Lemma live_call_sends s :
  lv_token lv 0 = None -> remaining_secs (lv_check_ms lv 0%nat) (cooldown (api_client s)) = None ->
  wire (api_client (snd (live_call error_body lv endpoint tag reply s))) <> wire (api_client s).
Proof.
  intros Ht Hc. unfold live_call. cbn [live_loop]. rewrite Ht.
  pose proof (ladder_sends error_body endpoint tag reply (lv_check_ms lv) (lv_engage_ms lv) 0 (api_client s) Hc) as Hs.
  pose proof (run_order_ladder_ok error_body endpoint tag reply (lv_check_ms lv) (lv_engage_ms lv) 0 (api_client s)) as H.
  destruct (run_order_ladder _ _ _ _ _ _ 0 (api_client s)) as [[r n'] c]. cbn [fst snd] in Hs.
  destruct H as (_ & Hw & _ & Hl & _). unfold sent_by in Hw.
  assert (Hlong : forall c' k, wire c' = replicate k (endpoint, tag) ++ wire c -> wire c' <> wire (api_client s)).
  { intros c' k E1 E2. rewrite E1, Hw in E2. apply (f_equal length) in E2.
    rewrite !length_app, !length_replicate in E2. lia. }
  destruct r as [v|err|]; [by apply (Hlong c 0%nat)| |done].
  pose proof (error_policy_ok (lv_breaker_s lv 0) err false (with_client s c)) as Hp.
  destruct (apply_engine_error_policy _ _ _ _ _ _) as [[action used'] s1]. destruct Hp as (_ & Ec & _ & Hact).
  cbn [api_client with_client] in Ec.
  destruct action; cbn [snd]; try (rewrite Ec; by apply (Hlong c 0%nat)).
  destruct Hact as (_ & -> & _).
  pose proof (live_loop_ok 1 true 1 n' s1 ltac:(cbn; lia)) as Hlp. cbn [live_loop] in Hlp.
  match goal with |- wire (api_client (snd ?x)) <> _ => destruct x as [r2 s2] end.
  destruct Hlp as (k & _ & _ & _ & Hwk & _). apply (Hlong _ k). cbn [snd]. by rewrite Hwk, Ec.
Qed.
End live_path.

Section placement.
Context (draw : nat -> list Byte.byte).
Context (error_body : string -> option (option CodeValue)).
Context (parse_placed : string -> string + DhanPlaceOrderResponse).

Abbreviation place := (place_order draw error_body parse_placed).

(** In paper mode a placement sends no request and either fails with the book
    unchanged or books exactly one confirmed order under the next paper id, which
    no tracked order has; the paper book stays within its capacity and its ids
    stay fresh. *)
Theorem paper_placement e lv r s :
  paper_book s -> paper_order_counter s < u64_max ->
  match place e lv r s with
  | (Ok id, s') =>
      id = paper_order_id_string (paper_order_counter s + 1) /\ orders s !! id = None /\
      (exists c, orders s' = <[id := paper_order e r id c Confirmed]> (orders s)) /\
      paper_book s' /\ paper_order_counter s' = paper_order_counter s + 1 /\
      wire (api_client s') = wire (api_client s)
  | (Err _, s') =>
      orders s' = orders s /\ paper_book s' /\ paper_order_counter s' = paper_order_counter s /\
      wire (api_client s') = wire (api_client s)
  | (Panic, _) => False
  end.
Proof.
  intros (Hd & Hc & Hsz & Hk) Hmax. unfold place_order.
  pose proof (validate_order_fields_no_panic (today e) r) as Hv.
  destruct (validate_order_fields (today e) r) as [u|err|]; [|split_and!; done|done].
  pose proof (order_gates_frame e s) as Hg.
  destruct (order_gates e s) as [res s1] eqn:Eg.
  destruct Hg as ((Eo & _ & _ & Edry & Ecnt & _) & Ew & _ & _ & Hpan & Hroom).
  assert (Hpb : paper_book s1) by (unfold paper_book; by rewrite Eo, Edry, Ecnt).
  destruct res as [u1|err|]; [|by rewrite Ew|done].
  destruct (Hroom ltac:(by eexists)) as [Hroom' _].
  destruct (next_id draw (correlations s1)) as [cid c1]. cbn [dry_run with_correlations].
  rewrite Edry, Hd. cbn [paper_order_counter with_correlations correlations orders].
  destruct (track_ref _ _ _) as [out c2]. cbn [mo_order_id paper_order]. unfold book_order.
  cbn [orders order_no_aliases api_client dry_run paper_order_counter with_correlations].
  cbn [mo_order_id paper_order]. rewrite Ecnt, Eo, Ew.
  assert (Hcount : u64_saturating_add (paper_order_counter s) 1 = paper_order_counter s + 1) by zints.
  rewrite Hcount.
  assert (Hfresh : orders s !! paper_order_id_string (paper_order_counter s + 1) = None).
  { apply not_elem_of_dom. intros Hin. apply Hk in Hin as (n & Hn & E).
    apply paper_order_id_inj in E; zints. }
  split_and!; [done|done|by exists cid| |done|done].
  unfold paper_book. cbn [dry_run paper_order_counter orders]. split_and!; [congruence|lia| |].
  - rewrite map_size_insert, Hfresh. cbn. lia.
  - intros k Hin. rewrite dom_insert_L in Hin. apply elem_of_union in Hin as [Hin|Hin].
    + apply elem_of_singleton in Hin as ->. exists (paper_order_counter s + 1). split; [lia|done].
    + apply Hk in Hin as (n & Hn & ->). exists n. split; [lia|done].
Qed.

(** The daily reset leaves the order budget and the halt latch alone; clearing
    a halt zeroes the budget. *)
Theorem daily_budget_reset_paths cap client id cause s :
  order_budget (reset_daily draw s) = order_budget s /\
  halt (reset_daily draw s) = halt s /\
  orders (reset_daily draw s) = ∅ /\
  order_budget (clear_order_halt (snd (engage_halt cause (new_oms draw cap client id)))) = new_budget /\
  used_today (order_budget (clear_order_halt (snd (engage_halt cause s)))) = 0 /\
  is_order_halted (clear_order_halt (snd (engage_halt cause s))) = false.
Proof.
  split_and!; try reflexivity; unfold engage_halt; destruct (halt s) eqn:E;
    unfold clear_order_halt, is_order_halted; cbn; by rewrite ?E.
Qed.

Lemma check_live_gates_ok now s :
  let '(r, s') := check_live_order_gates now s in
  same_book s s' /\ api_client s' = api_client s /\ is_Panic r = false /\
  (is_Ok r -> s' = s /\ halt s = None /\ exists st, readiness s = Some st /\ is_ready st now = true).
Proof.
  unfold check_live_order_gates, refuse_readiness.
  destruct (halt s) eqn:Eh; [split_and!; try done; intros Hok; by destruct Hok|].
  destruct (readiness s) as [st|] eqn:Er.
  2:{ split_and!; try done. intros Hok; by destruct Hok. }
  destruct (evaluate_order_readiness st now) as [[]|refusal|] eqn:Ev.
  - split_and!; try done. intros _. split_and!; [done|done|]. exists st. split; [done|].
    unfold is_ready. by rewrite Ev.
  - split_and!; try done. intros Hok; by destruct Hok.
  - exfalso. revert Ev. unfold evaluate_order_readiness.
    destruct (_ || _); [done|]. destruct (_ <? _); [done|]. destruct (negb _); [done|].
    destruct (unpack_headroom _). by destruct (_ <? _).
Qed.

(** What an order must have passed to reach the wire. *)
Definition gates_passed (e : Env) (gate_s : Z) (s : OrderManagementSystem) : Prop :=
  dry_run s = false /\ halt s = None /\
  (exists st, readiness s = Some st /\ is_ready st gate_s = true) /\
  Z.of_nat (size (orders s)) < MAX_TRACKED_ORDERS /\
  fst (try_consume (order_budget s) (now_s e)) = Ok tt /\ per_second_ok e = true /\
  fst (check (now_breaker e) (now_breaker e) (circuit_breaker s)) = true.

(** The classes of replies after which a place or modify request is resent. *)
Definition resend_classes : list DhanErrorClass := [Dh904; Http429NoCode; Dh901; Data807; Data808; Data809].

Lemma resendable_class {T} endpoint (r : OmsError + T) :
  endpoint <> Cancel -> live_resendable error_body endpoint r ->
  exists err class, r = inl err /\ classify_oms_error error_body err = Some class /\ class ∈ resend_classes.
Proof.
  intros He (err & class & Hr & Hc & Hp). exists err, class. split; [done|]. split; [done|].
  unfold resend_classes. rewrite !elem_of_cons in *.
  destruct class, endpoint; cbn in Hp; try done;
    destruct Hp as [?|[?|[?|[?|?%elem_of_nil]]]]; try done; tauto.
Qed.

Definition place_effect (e : Env) (lv : Live DhanPlaceOrderRequest) (r : PlaceOrderRequest)
    (s : OrderManagementSystem) (res : res OmsError string) (s' : OrderManagementSystem) (k : nat) : Prop :=
  let cid := fst (next_id draw (correlations s)) in
  let reply n := ApiClient.place_order parse_placed (lv_http lv (place_request s r cid) n) in
  is_Panic res = false /\ (k <= 10)%nat /\
  wire (api_client s') = replicate k (Place, cid) ++ wire (api_client s) /\
  ((0 < k)%nat -> gates_passed e (lv_gate_s lv) s /\ SANDBOX_DEADLINE_EPOCH_SECS <= lv_sandbox_s lv /\
                  validate_order_fields (today e) r = Ok tt) /\
  (forall j, (S j < k)%nat -> exists err class,
     reply j = inl err /\ classify_oms_error error_body err = Some class /\ class ∈ resend_classes) /\
  (dry_run s = false ->
   match res with
   | Ok id => exists m resp, k = S m /\ reply m = inr resp /\ id = dpr_order_id resp /\
       orders s' = <[id := paper_order e r id cid (resolve_initial_status (dpr_order_status resp))]> (orders s)
   | _ => orders s' = orders s
   end).

Lemma place_order_ok e lv r s : let '(res, s') := place e lv r s in exists k, place_effect e lv r s res s' k.
Proof.
  assert (Hearly : forall err s', orders s' = orders s -> api_client s' = api_client s ->
    exists k, place_effect e lv r s (Err err) s' k).
  { intros err s' Eo Ec. exists 0%nat. unfold place_effect. rewrite Ec. split_and!; try done; lia. }
  unfold place_order. pose proof (validate_order_fields_no_panic (today e) r) as Hv.
  destruct (validate_order_fields (today e) r) as [[]|err|] eqn:Ev; [|by apply Hearly|done].
  pose proof (order_gates_frame e s) as Hg. destruct (order_gates e s) as [res s1].
  destruct Hg as (B1 & Ec1 & Eh1 & Er1 & Hpan & Hpass).
  destruct res as [[]|err|]; [|apply Hearly; [apply B1|done]|done].
  specialize (Hpass ltac:(by eexists)). pose proof B1 as (Eo1 & _ & Ecor & Edry & _ & _ & Eid).
  rewrite Ecor. destruct (next_id draw (correlations s)) as [cid c1] eqn:Eid1.
  cbn [dry_run with_correlations]. rewrite Edry. destruct (dry_run s) eqn:Hdry.
  { destruct (track_ref _ _ _) as [out c2]. exists 0%nat. unfold place_effect. rewrite Hdry.
    split_and!; try done; [lia|by cbn; rewrite Ec1|lia..]. }
  destruct (Z.ltb_spec (lv_sandbox_s lv) SANDBOX_DEADLINE_EPOCH_SECS) as [?|Hsand]; [by apply Hearly|].
  pose proof (check_live_gates_ok (lv_gate_s lv) (with_correlations s1 c1)) as Hl.
  destruct (check_live_order_gates _ _) as [res2 s2]. destruct Hl as (B2 & Ec2 & Hpan2 & Hlive).
  cbn [api_client orders with_correlations halt readiness] in *.
  destruct res2 as [[]|err|]; [|apply Hearly; [destruct B2 as (-> & _); done|by rewrite Ec2]|done].
  destruct (Hlive ltac:(by eexists)) as (-> & Eh & st & Er & Hready).
  set (s2 := with_correlations s1 c1). set (reply := fun n => ApiClient.place_order _ _).
  pose proof (live_call_ok error_body lv Place cid reply s2) as Hcall.
  destruct (live_call _ lv Place cid reply s2) as [res3 s3].
  destruct Hcall as (k & Hpan3 & B3 & Hk & Hw & Hv3 & Hj).
  assert (Hreq : place_request s2 r cid = place_request s r cid) by (unfold place_request, s2; cbn; by rewrite Eid).
  assert (Hreply : forall n, reply n = ApiClient.place_order parse_placed (lv_http lv (place_request s r cid) n))
    by (intros n; unfold reply; by rewrite Hreq).
  clearbody reply. assert (Hk10 : (k <= 10)%nat) by exact Hk. cbn [api_client with_correlations s2] in Hw.
  assert (Hpassed : gates_passed e (lv_gate_s lv) s).
  { unfold gates_passed. rewrite <- Eh1, <- Er1. split_and!; try done; [by exists st|apply Hpass..]. }
  assert (Heff : forall id s', api_client s' = api_client s3 ->
    (forall j, (S j < k)%nat -> live_resendable error_body Place (reply j)) ->
    (is_Panic id = false) ->
    (match id with
     | Ok i => exists m resp, k = S m /\ reply m = inr resp /\ i = dpr_order_id resp /\
         orders s' = <[i := paper_order e r i cid (resolve_initial_status (dpr_order_status resp))]> (orders s)
     | _ => orders s' = orders s
     end) -> place_effect e lv r s id s' k).
  { intros id s' Ec' Hres Hp Hm. unfold place_effect. rewrite Eid1. cbn [fst]. split_and!; try done.
    - by rewrite Ec', Hw, Ec1.
    - intros j Hlt. rewrite <- Hreply. apply (resendable_class Place); [done|by apply Hres].
    - intros _. destruct id as [i|?|]; try done. destruct Hm as (m & resp & Hm). exists m, resp.
      by rewrite <- Hreply. }
  assert (Hres : forall j, (S j < k)%nat -> live_resendable error_body Place (reply j))
    by (intros j Hlt; apply Hj; lia).
  destruct B3 as (Eo3 & _). unfold s2 in Eo3. cbn [orders with_correlations] in Eo3.
  destruct res3 as [resp|err|]; [|exists k; apply Heff; [done|done|done|congruence]|done].
  destruct (track _ _ _) as [out c3]. exists k. apply Heff; [done|done|done|].
  destruct (Hv3 resp eq_refl) as (m & Em & Hm). exists m, resp.
  unfold book_order. cbn [orders with_correlations mo_order_id paper_order]. by rewrite Eo3, Eo1.
Qed.

(** C1: Placing an order never panics and sends the broker at most ten
    requests, all one placement under one correlation id; a request is sent only
    in live mode, past the sandbox deadline, with no halt engaged, a fresh good
    readiness probe, a valid request, room in the order book, order budget, per-
    second limiter and circuit breaker; a request is resent only after a rate-
    limit or authentication reply, never after an ambiguous one; the book gains
    exactly the broker's order on success and nothing on failure. *)
Theorem live_orders_gated e lv r s :
  let '(res, s') := place e lv r s in
  exists k, place_effect e lv r s res s' k.
Proof. apply place_order_ok. Qed.

Abbreviation modify := (modify_order error_body).
Abbreviation cancel := (cancel_order error_body).

Definition modify_effect (e : Env) (lv : Live DhanModifyOrderRequest) (id : string) (r : ModifyOrderRequest)
    (s : OrderManagementSystem) (res : res OmsError unit) (s' : OrderManagementSystem) (k : nat) : Prop :=
  is_Panic res = false /\ (k <= 10)%nat /\
  wire (api_client s') = replicate k (Modify, id) ++ wire (api_client s) /\
  ((0 < k)%nat -> gates_passed e (lv_gate_s lv) s /\
     exists o, orders s !! id = Some o /\ is_terminal o = false /\
       mo_modification_count o < MAX_MODIFICATIONS_PER_ORDER) /\
  (forall j, (S j < k)%nat -> exists err class,
     ApiClient.modify_order (lv_http lv (modify_request s id r) j) = inl err /\
     classify_oms_error error_body err = Some class /\ class ∈ resend_classes) /\
  match res with
  | Ok _ => exists now, orders s' = alter (apply_modify now r) id (orders s)
  | _ => orders s' = orders s
  end.

(** The checks a modification makes before the gates. *)
Lemma modify_checks count id r :
  match (check_modification_limit count id ≫= fun _ => validate_modify_fields r ≫= fun _ =>
         validate_disclosed_quantity (mr_quantity r) (mr_disclosed_quantity r)) with
  | Ok _ => count < MAX_MODIFICATIONS_PER_ORDER
  | Err _ => True
  | Panic => False
  end.
Proof.
  unfold check_modification_limit, validate_modify_fields, validate_disclosed_quantity.
  destruct (Z.leb_spec MAX_MODIFICATIONS_PER_ORDER count); cbn; [done|].
  destruct (_ && _); cbn; [done|]. destruct (_ && _); cbn; [done|].
  destruct (mr_disclosed_quantity r <=? 0); cbn; [done|]. by destruct (_ <? _).
Qed.

Lemma modify_order_ok e lv id r s :
  let '(res, s') := modify e lv id r s in exists k, modify_effect e lv id r s res s' k.
Proof.
  assert (Hearly : forall err s', orders s' = orders s -> api_client s' = api_client s ->
    exists k, modify_effect e lv id r s (Err err) s' k).
  { intros err s' Eo Ec. exists 0%nat. unfold modify_effect. rewrite Ec. split_and!; try done; lia. }
  unfold modify_order. destruct (orders s !! id) as [o|] eqn:Ho; [|by apply Hearly].
  destruct (is_terminal o) eqn:Ht; [by apply Hearly|].
  pose proof (modify_checks (mo_modification_count o) id r) as Hm.
  destruct (check_modification_limit _ _ ≫= _) as [[]|err|]; [|by apply Hearly|done].
  pose proof (order_gates_frame e s) as Hg. destruct (order_gates e s) as [res s1].
  destruct Hg as (B1 & Ec1 & Eh1 & Er1 & Hpan & Hpass).
  destruct res as [[]|err|]; [|apply Hearly; [apply B1|done]|done].
  specialize (Hpass ltac:(by eexists)). destruct B1 as (Eo1 & _ & _ & Edry & _ & _ & Eid).
  rewrite Edry. destruct (dry_run s) eqn:Hdry.
  { exists 0%nat. unfold modify_effect, update_order. cbn [orders api_client with_orders].
    rewrite Ec1, Eo1. split_and!; try done; [lia|lia|lia|by eexists]. }
  pose proof (check_live_gates_ok (lv_gate_s lv) s1) as Hl.
  destruct (check_live_order_gates _ _) as [res2 s2]. destruct Hl as (B2 & Ec2 & Hpan2 & Hlive).
  destruct res2 as [[]|err|]; [|apply Hearly; [destruct B2 as (-> & _); done|congruence]|done].
  destruct (Hlive ltac:(by eexists)) as (-> & Eh & st & Er & Hready).
  assert (Hreq : modify_request s1 id r = modify_request s id r) by (unfold modify_request; by rewrite Eid).
  rewrite Hreq. set (reply := fun n => ApiClient.modify_order _).
  pose proof (live_call_ok error_body lv Modify id reply s1) as Hcall.
  destruct (live_call _ lv Modify id reply s1) as [res3 s3].
  destruct Hcall as (k & Hpan3 & (Eo3 & _) & Hk & Hw & _ & Hj).
  assert (Heff : forall res s', is_Panic res = false -> api_client s' = api_client s3 ->
    match res with
    | Ok _ => exists now, orders s' = alter (apply_modify now r) id (orders s)
    | _ => orders s' = orders s
    end -> modify_effect e lv id r s res s' k).
  { intros res s' Hp Ec' Ho'. unfold modify_effect. split; [done|]. split; [exact Hk|].
    split; [by rewrite Ec', Hw, Ec1|]. split; [|split; [|done]].
    - intros _. split; [|by exists o]. unfold gates_passed. rewrite <- Eh1, <- Er1.
      split_and!; try done; [by exists st|apply Hpass..].
    - intros j Hlt. apply (resendable_class Modify); [done|]. apply Hj; lia. }
  destruct res3 as [[]|err|]; [|exists k; apply Heff; try done; congruence|done].
  exists k. apply Heff; [done|done|]. exists (lv_done_us lv). unfold update_order. cbn [orders with_orders].
  by rewrite Eo3, Eo1.
Qed.

(** A modification never panics, sends at most ten requests, all for that
    order, and only in live mode with no halt, a fresh good readiness probe and
    every gate passed, for a tracked non-terminal order under its modification
    limit; only an acknowledged modification changes the order. *)
Theorem live_modifies_gated e lv id r s :
  let '(res, s') := modify e lv id r s in exists k, modify_effect e lv id r s res s' k.
Proof. apply modify_order_ok. Qed.

(** A halted order path sends no placement and no modification. *)
Lemma halted_sends_nothing cause s :
  halt s = Some cause ->
  (forall e lv r, wire (api_client (snd (place e lv r s))) = wire (api_client s)) /\
  (forall e lv id r, wire (api_client (snd (modify e lv id r s))) = wire (api_client s)).
Proof.
  intros Hh. split.
  - intros e lv r. pose proof (place_order_ok e lv r s) as H. destruct (place e lv r s) as [res s'].
    destruct H as (k & _ & _ & Hw & Hg & _). cbn [snd]. rewrite Hw.
    destruct k; [done|]. destruct (Hg ltac:(lia)) as ((_ & Hn & _) & _). congruence.
  - intros e lv id r. pose proof (modify_order_ok e lv id r s) as H. destruct (modify e lv id r s) as [res s'].
    destruct H as (k & _ & _ & Hw & Hg & _). cbn [snd]. rewrite Hw.
    destruct k; [done|]. destruct (Hg ltac:(lia)) as ((_ & Hn & _) & _). congruence.
Qed.

(** A reply with an account error (DH-902, DH-903, DATA-810) ends the
    operation after one request and engages the halt with its cause; the halt
    survives the daily reset and no placement or modification sends a request
    while it is engaged. *)
Theorem account_error_halts_orders {Req T} (lv : Live Req) endpoint tag (reply : nat -> OmsError + T) s err class :
  lv_token lv 0 = None -> remaining_secs (lv_check_ms lv 0%nat) (cooldown (api_client s)) = None ->
  halt s = None -> reply 0%nat = inl err -> classify_oms_error error_body err = Some class ->
  class ∈ [Dh902; Dh903; Data810] ->
  let '(r, s') := live_call error_body lv endpoint tag reply s in
  let s2 := reset_daily draw s' in
  r = Err (OrderPathHalted (halt_cause_for class)) /\
  wire (api_client s') = (endpoint, tag) :: wire (api_client s) /\
  halt s2 = Some (halt_cause_for class) /\
  (forall e lv r, wire (api_client (snd (place e lv r s2))) = wire (api_client s')) /\
  (forall e lv id r, wire (api_client (snd (modify e lv id r s2))) = wire (api_client s')).
Proof.
  intros Ht Hc Hh Hr Hcl Hin. unfold live_call. cbn [live_loop]. rewrite Ht.
  assert (Hp : forall ep, policy_for class ep = HaltAndAlert).
  { intros ep. rewrite !elem_of_cons in Hin. destruct Hin as [->|[->|[->|?%elem_of_nil]]]; done. }
  rewrite (ladder_final error_body endpoint tag reply (lv_check_ms lv) (lv_engage_ms lv) 0 (api_client s) err class)
    by auto.
  unfold apply_engine_error_policy. rewrite Hcl, Hp. cbv zeta.
  set (s1 := if trips_circuit_breaker class then _ else _). set (s2 := if decide _ then s1 else _).
  assert (Hs2 : halt s2 = None /\ api_client s2 = mkClient (cooldown (api_client s)) ((endpoint, tag) :: wire (api_client s))).
  { unfold s2, s1. destruct (trips_circuit_breaker class), (decide (class = Data805)); done. }
  clearbody s2. destruct Hs2 as [Eh Ec]. unfold engage_halt. rewrite Eh. cbn [snd].
  set (s3 := reset_daily draw _).
  assert (Eh3 : halt s3 = Some (halt_cause_for class)) by done.
  destruct (halted_sends_nothing _ s3 Eh3) as [Hplace Hmodify].
  assert (Ew : wire (api_client s3) = (endpoint, tag) :: wire (api_client s)) by (unfold s3; cbn; by rewrite Ec).
  cbn [api_client with_halt]. rewrite Ec. cbn [wire].
  split; [done|]. split; [done|]. split; [done|]. split; intros; [by rewrite Hplace|by rewrite Hmodify].
Qed.

(** After an invalid-authentication reply the operation is sent exactly once
    more: a good second reply succeeds without a halt, a second DH-901 halts the
    order path. *)
Theorem auth_error_retries_once_then_halts {Req T} (lv : Live Req) endpoint tag (reply : nat -> OmsError + T)
    s err err' :
  lv_token lv 0 = None -> lv_token lv 1 = None ->
  remaining_secs (lv_check_ms lv 0%nat) (cooldown (api_client s)) = None ->
  remaining_secs (lv_check_ms lv 1%nat) (cooldown (api_client s)) = None ->
  reply 0%nat = inl err -> classify_oms_error error_body err = Some Dh901 ->
  let '(r, s') := live_call error_body lv endpoint tag reply s in
  (forall v, reply 1%nat = inr v ->
     r = Ok v /\ halt s' = halt s /\ wire (api_client s') = [(endpoint, tag); (endpoint, tag)] ++ wire (api_client s)) /\
  (reply 1%nat = inl err' -> classify_oms_error error_body err' = Some Dh901 ->
     r = Err (OrderPathHalted "DH-901") /\ halt s' = Some (default "DH-901" (halt s)) /\
     wire (api_client s') = [(endpoint, tag); (endpoint, tag)] ++ wire (api_client s)).
Proof.
  intros Ht0 Ht1 Hc0 Hc1 Hr0 Hcl0. unfold live_call. cbn [live_loop]. rewrite Ht0.
  rewrite (ladder_final error_body endpoint tag reply (lv_check_ms lv) (lv_engage_ms lv) 0 (api_client s) err Dh901)
    by auto.
  unfold apply_engine_error_policy at 1. rewrite Hcl0. cbn [policy_for negb trips_circuit_breaker].
  rewrite decide_False by done. cbn [live_loop]. rewrite Ht1.
  cbn [api_client with_client with_stop_all_alert_latched].
  set (c1 := mkClient _ _).
  assert (Hc1' : remaining_secs (lv_check_ms lv 1%nat) (cooldown c1) = None) by done.
  destruct (reply 1%nat) as [e1|v1] eqn:Hr1.
  - destruct (decide (classify_oms_error error_body e1 = Some Dh901)) as [Hcl1|Hne].
    2:{ match goal with |- context [run_order_ladder ?a ?b ?c ?d ?f ?g ?h ?i] =>
          destruct (run_order_ladder a b c d f g h i) as [[[v|er|] n'] c2] end; cbn;
        try destruct (apply_engine_error_policy _ _ _ _ _ _) as [[[] ?] ?];
        (split; [done|]); intros [= ->] ?; by destruct Hne. }
    rewrite (ladder_final error_body endpoint tag reply (lv_check_ms lv) (lv_engage_ms lv) 1 c1 e1 Dh901)
      by auto.
    unfold apply_engine_error_policy. rewrite Hcl1. cbn [policy_for negb trips_circuit_breaker].
    rewrite decide_False by done. split; [done|]. intros _ _.
    unfold engage_halt. cbn [halt with_client with_stop_all_alert_latched].
    by destruct (halt s) eqn:E.
  - unfold run_order_ladder at 1, ladder_fuel. cbn [ladder_loop]. unfold check_stop_all_latch.
    rewrite Hc1', Hr1. split; [by intros v [= ->]|done].
Qed.

(** A cancel of a live, non-terminal order whose gates pass sends at least one
    and at most twelve requests, whatever the halt latch and the readiness
    snapshot say. *)
Theorem cancel_is_always_attempted e lv id s o :
  dry_run s = false -> orders s !! id = Some o -> is_terminal o = false ->
  fst (order_gates e s) = Ok tt -> lv_token lv 0 = None ->
  remaining_secs (lv_check_ms lv 0%nat) (cooldown (api_client s)) = None ->
  forall h rd, let s0 := with_readiness (with_halt s h) rd in
  exists k, (0 < k <= 12)%nat /\
    wire (api_client (snd (cancel e lv id s0))) = replicate k (Cancel, id) ++ wire (api_client s).
Proof.
  intros Hdry Ho Ht Hg Htok Hc h rd s0. unfold cancel_order.
  change (orders s0) with (orders s). rewrite Ho, Ht.
  assert (Hg0 : fst (order_gates e s0) = Ok tt).
  { rewrite <- Hg. unfold order_gates, check_order_book_capacity. change (orders s0) with (orders s).
    change (order_budget s0) with (order_budget s). destruct (_ <=? _); [done|]. cbn -[try_consume check].
    destruct (try_consume _ _) as [[] b]; try done. destruct (negb _); [done|]. cbn -[check].
    by destruct (check _ _ _) as [[] cb]. }
  pose proof (order_gates_frame e s0) as Hf. destruct (order_gates e s0) as [r1 s1]. cbn [fst] in Hg0. subst r1.
  destruct Hf as ((_ & _ & _ & Edry & _) & Ec & _). change (dry_run s0) with (dry_run s) in Edry.
  change (api_client s0) with (api_client s) in Ec. rewrite Edry, Hdry.
  set (reply := fun n => ApiClient.cancel_order _).
  pose proof (live_call_sends error_body lv Cancel id reply s1 Htok ltac:(by rewrite Ec)) as Hsend.
  pose proof (live_call_ok error_body lv Cancel id reply s1) as Hcall.
  destruct (live_call _ lv Cancel id reply s1) as [r2 s2].
  destruct Hcall as (k & _ & _ & Hk & Hw & _). rewrite Ec in *. cbn [snd] in Hsend.
  exists k. assert (Hk0 : (0 < k)%nat) by (destruct k; [by rewrite Hw in Hsend|lia]).
  split; [split; [done|exact Hk]|]. by destruct r2.
Qed.
End placement.

(** * Reconciliation's corrections *)

Lemma apply_correction_lookup now m c k :
  apply_correction now m c !! k =
  if decide (ru_order_id c = k) then (fun o => correct_order now o c) <$> m !! k else m !! k.
Proof.
  unfold apply_correction. case_decide as Hk.
  - subst k. destruct (m !! ru_order_id c) as [o|] eqn:Ho; [|by rewrite Ho].
    by rewrite lookup_insert_eq.
  - destruct (m !! ru_order_id c) as [o|]; [|done]. by rewrite lookup_insert_ne.
Qed.

Lemma apply_corrections_other now cs : forall m k,
  Forall (fun c => ru_order_id c <> k) cs -> foldl (apply_correction now) m cs !! k = m !! k.
Proof.
  induction cs as [|c cs IH]; intros m k H; [done|]. apply Forall_cons_1 in H as [Hc H].
  cbn [foldl]. rewrite IH by done. by rewrite apply_correction_lookup, decide_False.
Qed.

Lemma apply_corrections_one now cs : forall m c,
  NoDup (map ru_order_id cs) -> c ∈ cs ->
  foldl (apply_correction now) m cs !! ru_order_id c =
  (fun o => correct_order now o c) <$> m !! ru_order_id c.
Proof.
  induction cs as [|c0 cs IH]; intros m c Hnd Hin; [by apply elem_of_nil in Hin|].
  cbn [map foldl] in *. apply NoDup_cons in Hnd as [Hn Hnd]. apply elem_of_cons in Hin as [->|Hin].
  - rewrite apply_corrections_other; [by rewrite apply_correction_lookup, decide_True|].
    apply Forall_forall. intros c' Hc' E. apply Hn. rewrite <- E. by apply list_elem_of_fmap_2.
  - rewrite IH by done. rewrite apply_correction_lookup, decide_False; [done|].
    intros E. apply Hn. rewrite E. by apply list_elem_of_fmap_2.
Qed.

(** Corrections come from rows, one each, in order. *)
Lemma corrections_ids m l :
  map ru_order_id (omap (correction m) l) = map dor_order_id (List.filter (fun d => bool_decide (is_Some (correction m d))) l).
Proof.
  induction l as [|d l IH]; [done|]. cbn [omap list_omap List.filter].
  destruct (correction m d) as [c|] eqn:E; cbn; [|done].
  f_equal; [|done]. unfold correction in E. destruct (recognised d); [|done]. cbn in E.
  destruct (m !! dor_order_id d); [|done]. cbn in E. case_decide; by simplify_eq.
Qed.

Lemma filter_ids_sublist (f : DhanOrderResponse -> bool) l :
  sublist (map dor_order_id (List.filter f l)) (map dor_order_id l).
Proof.
  induction l as [|d l IH]; [constructor|]. cbn. destruct (f d); cbn; by constructor.
Qed.

(** The order a pass leaves, from the tracked order and the broker's row. *)
Definition reconciled (now : Z) (o : ManagedOrder) (st : OrderStatus) (d : DhanOrderResponse) : ManagedOrder :=
  if decide (agrees o st d) then o
  else correct_order now o (mkUpdate (dor_order_id d) st (dor_traded_quantity d) (dor_average_traded_price d)).

Lemma reconcile_lookup now l m d st o :
  NoDup (map dor_order_id l) -> d ∈ l -> recognised d = Some st -> m !! dor_order_id d = Some o ->
  foldl (apply_correction now) m (omap (correction m) l) !! dor_order_id d =
  Some (reconciled now o st d).
Proof.
  intros Hnd Hd Hst Ho. unfold reconciled.
  assert (Hc : correction m d = if decide (agrees o st d) then None
    else Some (mkUpdate (dor_order_id d) st (dor_traded_quantity d) (dor_average_traded_price d)))
    by (unfold correction; by rewrite Hst, Ho).
  assert (Hnd' : NoDup (map ru_order_id (omap (correction m) l))).
  { rewrite corrections_ids. eapply sublist_NoDup; [exact Hnd|apply filter_ids_sublist]. }
  case_decide as Ha.
  - rewrite apply_corrections_other; [done|]. apply Forall_forall. intros c Hin E.
    apply list_elem_of_omap in Hin as (d' & Hd' & Hc').
    assert (dor_order_id d' = dor_order_id d) as E'.
    { unfold correction in Hc'. destruct (recognised d'); [|done]. cbn in Hc'.
      destruct (m !! dor_order_id d'); [|done]. cbn in Hc'. case_decide; by simplify_eq. }
    assert (d' = d) as ->; [|congruence]. clear -Hnd Hd Hd' E'.
    induction l as [|x l IH]; [by apply elem_of_nil in Hd|]. cbn in Hnd.
    apply NoDup_cons in Hnd as [Hn Hnd].
    apply elem_of_cons in Hd as [->|Hd], Hd' as [->|Hd']; [done| | |by apply IH].
    + destruct Hn. rewrite <- E'. by apply list_elem_of_fmap_2.
    + destruct Hn. rewrite E'. by apply list_elem_of_fmap_2.
  - set (c := mkUpdate _ _ _ _) in *.
    change (dor_order_id d) with (ru_order_id c) at 1.
    rewrite apply_corrections_one; [cbn; by rewrite Ho|done|].
    apply list_elem_of_omap. by exists d.
Qed.

(** Reconciling against the broker's orders leaves an order that agrees
    untouched, never changes a terminal order's status, brings a non-terminal
    order to the broker's status without ever lowering its traded quantity, copies
    the broker's fill otherwise, and flags the refused downward copy. *)
Theorem reconcile_corrects now l s d st o :
  dry_run s = false -> NoDup (map dor_order_id l) -> d ∈ l -> recognised d = Some st ->
  orders s !! dor_order_id d = Some o ->
  exists o', orders (snd (reconcile now (Ok l) s)) !! dor_order_id d = Some o' /\
    (agrees o st d -> o' = o) /\
    (is_terminal o = true -> mo_status o' = mo_status o) /\
    (is_terminal o = false -> mo_status o' = st /\ mo_traded_qty o <= mo_traded_qty o') /\
    (~ agrees o st d -> is_terminal o = true \/ mo_traded_qty o <= dor_traded_quantity d ->
     mo_traded_qty o' = dor_traded_quantity d /\ mo_avg_traded_price o' = dor_average_traded_price d) /\
    (~ agrees o st d -> is_terminal o = false -> dor_traded_quantity d < mo_traded_qty o ->
     mo_traded_qty o' = mo_traded_qty o /\ mo_needs_reconciliation o' = true).
Proof.
  intros Hdry Hnd Hd Hst Ho. unfold reconcile. rewrite Hdry, reconcile_orders_result.
  cbn [snd orders with_orders]. rewrite (reconcile_lookup now l _ d st o) by done.
  eexists. split; [reflexivity|]. unfold reconciled. case_decide as Ha.
  - pose proof Ha as (Hs & _ & _). split_and!; done.
  - unfold correct_order. cbn [ru_status ru_traded_qty ru_avg_traded_price].
    destruct (is_terminal o) eqn:Ht.
    + split_and!; try done; intros; destruct (negb _); destruct o; cbn in *; done.
    + assert (Hq : mo_traded_qty (set_status o st) = mo_traded_qty o) by (by destruct o).
      rewrite Hq. destruct (Z.ltb_spec (dor_traded_quantity d) (mo_traded_qty o));
        (split_and!; [done|done|..]); destruct o; cbn in *; intros; split_and?; try done; try lia;
        match goal with H : _ \/ _ |- _ => destruct H; [done|lia] end.
Qed.

(** * Instances *)

Definition sample_env : Env := mkEnv 1000 1000000 1000 true 20000.
Definition sample_request : PlaceOrderRequest :=
  mkPlace 13 NseFno Buy Limit Intraday Day 50 (f64_of_Z 100) f64_zero 25 None.
Definition sample_order : ManagedOrder := paper_order sample_env sample_request "O1" "c1" Confirmed.
Definition sample_oms : OrderManagementSystem := new_oms counting_draw 8 new_client "client".
Definition sample_book : OrderManagementSystem := with_orders sample_oms {["O1" := sample_order]}.
Definition sample_part : OrderUpdate := order_update "O1" "" "PART_TRADED" "NSE" "D" 25 (f64_of_Z 100).
Definition sample_traded : OrderUpdate := order_update "O1" "" "TRADED" "NSE" "D" 50 (f64_of_Z 101).
(** The broker's updates of one order, the first one delivered twice. *)
Definition sample_updates : list (Z * OrderUpdate) := [(1, sample_part); (2, sample_part); (3, sample_traded)].

Lemma sample_book_ok : book_ok (orders sample_book).
Proof. apply map_Forall_singleton. split; [reflexivity|]. cbn. zints. Qed.

Lemma sample_updates_ok : Forall (fun p => in_i64 (ou_traded_qty (snd p))) sample_updates.
Proof. repeat constructor; cbn; zints. Qed.

Lemma fills_never_double_counted_witness :
  booked_lots "O1" (fst (run_updates sample_updates sample_book)) = 2 /\
  exists o', orders (snd (run_updates sample_updates sample_book)) !! "O1" = Some o' /\
    booked_lots "O1" (fst (run_updates sample_updates sample_book)) <= whole_lots o' - whole_lots sample_order.
Proof.
  split; [vm_compute; reflexivity|].
  destruct (fills_never_double_counted sample_updates sample_book "O1" sample_order
    sample_book_ok sample_updates_ok eq_refl) as (o' & Ho & Hb & _). exists o'. split; [exact Ho|exact Hb].
Defined.

Lemma updates_follow_lifecycle_witness :
  exists o', orders (snd (run_updates sample_updates sample_book)) !! "O1" = Some o' /\ evolves_to sample_order o'.
Proof.
  apply (updates_follow_lifecycle sample_updates sample_book "O1" sample_order
    sample_book_ok sample_updates_ok eq_refl).
Defined.

Lemma fill_delta_exact_witness :
  let '(r, o') := apply_update 5 sample_order sample_traded Traded "O1" in
  mo_status o' = Traded /\ mo_traded_qty o' = 50 /\ lots_of (fill_of r) = 2.
Proof.
  pose proof (fill_delta_exact sample_order sample_traded 5 Traded "O1") as H.
  destruct (apply_update 5 sample_order sample_traded Traded "O1") as [r o'] eqn:E.
  destruct H as (Hs & Hq & _); [cbn; zints|cbn; zints|reflexivity|right; reflexivity|].
  split; [exact Hs|]. split; [exact Hq|]. apply (f_equal fst) in E. cbn [fst] in E. rewrite <- E.
  vm_compute. reflexivity.
Defined.

(** An update under the broker's own number, found by its correlation id. *)
Definition sample_aliased : OrderManagementSystem := with_aliases sample_book {["B77" := "O1"]}.

Lemma aliases_are_stable_witness :
  find_order_id (snd (run_updates sample_updates sample_aliased))
    (order_update "B77" "" "TRADED" "NSE" "D" 50 (f64_of_Z 101)) = Some "O1".
Proof.
  apply (aliases_are_stable sample_updates sample_aliased "B77" "O1" sample_book_ok sample_updates_ok);
    [vm_compute; discriminate|reflexivity|reflexivity|reflexivity].
Defined.

(** Decoders and a broker, for the instances. *)
Definition sample_error_body (body : string) : option (option CodeValue) := Some (Some (CodeString body)).
Definition sample_parse (body : string) : string + DhanPlaceOrderResponse := inr (mkPlaced body "PENDING" "").
Definition sample_live {Req} (http : Req -> nat -> HttpOutcome) : Live Req :=
  mkLive Req 5000000000 5000000000 (fun _ => None) http (fun _ => 1) (fun _ => 2) (fun _ => 3) 4.
Definition sample_live_oms : OrderManagementSystem :=
  mkOms {["O1" := sample_order]} ∅ (correlations sample_oms) new_client new_budget new_breaker "client"
    0 0 false 0 (Some (mkReadiness true 5000000000 5000000000 (pack_headroom 50000 5000000000) false))
    None false false.

Lemma paper_placement_witness :
  let lv := sample_live (fun _ _ => SendFailed "no network in paper mode") in
  let '(r, s') := place_order counting_draw sample_error_body sample_parse sample_env lv sample_request sample_oms in
  r = Ok "PAPER-1" /\ paper_book s' /\ wire (api_client s') = [].
Proof.
  intros lv.
  pose proof (paper_placement counting_draw sample_error_body sample_parse sample_env lv sample_request sample_oms) as H.
  destruct (place_order _ _ _ _ _ _ sample_oms) as [r s'] eqn:E.
  assert (Hr : r = Ok "PAPER-1") by (apply (f_equal fst) in E; vm_compute in E; symmetry; exact E).
  rewrite Hr in H. destruct H as (_ & _ & _ & Hp & _ & Hw).
  - split; [reflexivity|]. split; [vm_compute; discriminate|]. split; [vm_compute; discriminate|].
    intros k Hk. exfalso. change (orders sample_oms) with (∅ : order_book) in Hk.
    rewrite dom_empty_L in Hk. exact (not_elem_of_empty k Hk).
  - vm_compute. reflexivity.
  - split; [exact Hr|]. split; [exact Hp|exact Hw].
Defined.

Lemma account_error_halts_orders_witness :
  let lv := sample_live (fun (_ : string) _ => Responded 403 (inr "DH-902")) in
  let '(r, s') := live_call sample_error_body lv Cancel "O1"
                    (fun n => ApiClient.cancel_order (lv_http lv "O1" n)) sample_live_oms in
  r = Err (OrderPathHalted "DH-902") /\ wire (api_client s') = [(Cancel, "O1")] /\
  halt (reset_daily counting_draw s') = Some "DH-902".
Proof.
  intros lv.
  pose proof (account_error_halts_orders counting_draw sample_error_body sample_parse lv Cancel "O1"
    (fun n => ApiClient.cancel_order (lv_http lv "O1" n)) sample_live_oms (DhanApiError 403 "DH-902") Dh902) as H.
  destruct (live_call _ lv Cancel "O1" _ sample_live_oms) as [r s'].
  destruct H as (H1 & H2 & H3 & _); try (vm_compute; reflexivity); [left|].
  split; [exact H1|]. split; [exact H2|exact H3].
Defined.

Lemma auth_error_retries_once_then_halts_witness :
  let lv := sample_live (fun (_ : string) n =>
    if (n =? 0)%nat then Responded 401 (inr "DH-901") else Responded 200 (inr "")) in
  let reply n := ApiClient.cancel_order (lv_http lv "O1" n) in
  fst (live_call sample_error_body lv Cancel "O1" reply sample_live_oms) = Ok tt.
Proof.
  intros lv reply.
  pose proof (auth_error_retries_once_then_halts sample_error_body lv Cancel "O1" reply sample_live_oms
    (DhanApiError 401 "DH-901") (DhanApiError 401 "DH-901")) as H.
  destruct (live_call _ lv Cancel "O1" reply sample_live_oms) as [r s'].
  destruct H as (H1 & _); try (vm_compute; reflexivity).
  destruct (H1 tt) as (Hr & _); [vm_compute; reflexivity|exact Hr].
Defined.

(** A cancel goes out under a halt and without a readiness snapshot. *)
Lemma cancel_is_always_attempted_witness :
  let lv := sample_live (fun (_ : string) _ => Responded 200 (inr "")) in
  exists k, (0 < k <= 12)%nat /\
    wire (api_client (snd (cancel_order sample_error_body sample_env lv "O1"
      (with_readiness (with_halt sample_live_oms (Some "DH-902")) None)))) = replicate k (Cancel, "O1") ++ [].
Proof.
  intros lv.
  apply (cancel_is_always_attempted sample_error_body sample_env lv "O1" sample_live_oms sample_order);
    vm_compute; reflexivity.
Defined.

Lemma reconcile_corrects_witness :
  exists o', orders (snd (reconcile 9 (Ok [dhan_order "O1" "TRADED" 50 (f64_of_Z 101)]) sample_live_oms)) !! "O1" = Some o' /\
    mo_status o' = Traded /\ mo_traded_qty o' = 50.
Proof.
  destruct (reconcile_corrects 9 [dhan_order "O1" "TRADED" 50 (f64_of_Z 101)] sample_live_oms
    (dhan_order "O1" "TRADED" 50 (f64_of_Z 101)) Traded sample_order) as (o' & Ho & _ & _ & Hn & Hq & _).
  - reflexivity.
  - apply NoDup_singleton.
  - left.
  - vm_compute. reflexivity.
  - vm_compute. reflexivity.
  - exists o'. split; [exact Ho|]. split; [apply Hn; reflexivity|].
    apply Hq; [intros (Hs & _); discriminate Hs|right; cbn; lia].
Defined.
