(* ===== verification/RiskEngine.v ===== *)
(** The risk engine ([risk/types.rs], [risk/engine.rs]): per-instrument positions
    and marks keyed by (security id, segment), realised and unrealised profit
    and loss, the pre-trade check, the daily-loss evaluation and the halt latch,
    with the three derived indexes the engine maintains beside the positions.
    Metrics, logs and the alert sink are not modelled. *)
From S2P Require Import Prelude Float OrderTypes.
Local Open Scope Z_scope.

#[global] Instance ExchangeSegment_countable : Countable ExchangeSegment.
Proof.
  refine (inj_countable' binary_code (fun c => default IdxI (from_byte c)) _).
  by intros [].
Defined.

(** * Types *)

Inductive RiskBreach : Type :=
  | MaxDailyLossExceeded
  | PositionSizeLimitExceeded
  | ManualHalt
  | PositionCapacityExhausted.

(** The explanation text, which formats floats, is not modelled. *)
Inductive RiskCheck : Type :=
  | Approved
  | RejectedFor (breach : RiskBreach).

Definition is_approved (c : RiskCheck) : bool :=
  match c with Approved => true | _ => false end.

Record PositionInfo : Type := mkPosition {
  net_lots : Z;
  avg_entry_price : f64;
  realized_pnl : f64;
  lot_size : Z }.

Definition default_position : PositionInfo := mkPosition 0 f64_zero f64_zero 0.

Definition unrealized_at (p : PositionInfo) (mark : f64) : f64 :=
  if negb (is_finite mark) || negb (is_finite (avg_entry_price p)) then f64_zero
  else
    let lot := if lot_size p =? 0 then 1 else lot_size p in
    f64_mul (f64_mul (f64_sub mark (avg_entry_price p)) (f64_of_Z (net_lots p))) (f64_of_Z lot).

Abbreviation PositionKey := (Z * ExchangeSegment)%type.

Definition LEGACY_DEFAULT_SEGMENT : ExchangeSegment := IdxI.
Definition MAX_TRACKED_POSITIONS : Z := 25000.

Record RiskEngine : Type := mkRisk {
  max_daily_loss_fraction : f64;
  max_position_lots : Z;
  capital : f64;
  positions : gmap PositionKey PositionInfo;
  market_prices : gmap PositionKey f64;
  non_flat : gset PositionKey;
  by_sid : gmap Z Z;
  unrealized_by_key : gmap PositionKey f64;
  unrealized_total : f64;
  total_realized_pnl : f64;
  marks_rejected : Z;
  mark_capacity_reported : bool;
  halted : bool;
  halt_reason : option RiskBreach;
  total_checks : Z;
  total_rejections : Z }.

Definition new_risk (max_daily_loss_percent : f64) (max_lots : Z) (cap : f64) : RiskEngine := {|
  max_daily_loss_fraction := f64_div max_daily_loss_percent (f64_of_Z 100);
  max_position_lots := max_lots; capital := cap; positions := ∅; market_prices := ∅;
  non_flat := ∅; by_sid := ∅; unrealized_by_key := ∅; unrealized_total := f64_zero;
  total_realized_pnl := f64_zero; marks_rejected := 0; mark_capacity_reported := false;
  halted := false; halt_reason := None; total_checks := 0; total_rejections := 0 |}.

(** Assignments to the fields a method changes. *)
Definition with_checks (e : RiskEngine) (checks rejections : Z) : RiskEngine :=
  mkRisk (max_daily_loss_fraction e) (max_position_lots e) (capital e) (positions e)
    (market_prices e) (non_flat e) (by_sid e) (unrealized_by_key e) (unrealized_total e)
    (total_realized_pnl e) (marks_rejected e) (mark_capacity_reported e) (halted e)
    (halt_reason e) checks rejections.
Definition with_halt_state (e : RiskEngine) (h : bool) (r : option RiskBreach) : RiskEngine :=
  mkRisk (max_daily_loss_fraction e) (max_position_lots e) (capital e) (positions e)
    (market_prices e) (non_flat e) (by_sid e) (unrealized_by_key e) (unrealized_total e)
    (total_realized_pnl e) (marks_rejected e) (mark_capacity_reported e) h r
    (total_checks e) (total_rejections e).
Definition with_positions (e : RiskEngine) (m : gmap PositionKey PositionInfo) (realized : f64)
    (nf : gset PositionKey) (sids : gmap Z Z) : RiskEngine :=
  mkRisk (max_daily_loss_fraction e) (max_position_lots e) (capital e) m
    (market_prices e) nf sids (unrealized_by_key e) (unrealized_total e)
    realized (marks_rejected e) (mark_capacity_reported e) (halted e)
    (halt_reason e) (total_checks e) (total_rejections e).
Definition with_unrealized (e : RiskEngine) (m : gmap PositionKey f64) (total : f64) : RiskEngine :=
  mkRisk (max_daily_loss_fraction e) (max_position_lots e) (capital e) (positions e)
    (market_prices e) (non_flat e) (by_sid e) m total
    (total_realized_pnl e) (marks_rejected e) (mark_capacity_reported e) (halted e)
    (halt_reason e) (total_checks e) (total_rejections e).
Definition with_marks (e : RiskEngine) (m : gmap PositionKey f64) (rejected : Z) (reported : bool) : RiskEngine :=
  mkRisk (max_daily_loss_fraction e) (max_position_lots e) (capital e) (positions e)
    m (non_flat e) (by_sid e) (unrealized_by_key e) (unrealized_total e)
    (total_realized_pnl e) rejected reported (halted e)
    (halt_reason e) (total_checks e) (total_rejections e).

(** * The halt latch *)

Definition trigger_halt (breach : RiskBreach) (e : RiskEngine) : RiskEngine :=
  if halted e then e else with_halt_state e true (Some breach).

Definition manual_halt (e : RiskEngine) : RiskEngine := trigger_halt ManualHalt e.

Definition reset_halt (e : RiskEngine) : RiskEngine :=
  if halted e then with_halt_state e false None else e.

Definition reset_daily (e : RiskEngine) : RiskEngine :=
  mkRisk (max_daily_loss_fraction e) (max_position_lots e) (capital e) ∅ ∅ ∅ ∅ ∅ f64_zero
    f64_zero 0 false false None 0 0.

Definition is_halted (e : RiskEngine) : bool := halted e.

(** * Daily loss *)

Definition total_unrealized_pnl (e : RiskEngine) : f64 := unrealized_total e.

Definition daily_loss_state (e : RiskEngine) : f64 * f64 :=
  (f64_add (total_realized_pnl e) (total_unrealized_pnl e),
   f64_mul (capital e) (max_daily_loss_fraction e)).

Definition loss_breached (total_pnl max_loss : f64) : bool :=
  f64_ltb total_pnl f64_zero && f64_leb max_loss (f64_abs total_pnl).

Definition evaluate_daily_loss_halt (e : RiskEngine) : bool * RiskEngine :=
  if halted e then (true, e) else
  let '(total_pnl, max_loss) := daily_loss_state e in
  if negb (is_finite total_pnl) then (true, trigger_halt MaxDailyLossExceeded e)
  else if loss_breached total_pnl max_loss then (true, trigger_halt MaxDailyLossExceeded e)
  else (false, e).

(** * The pre-trade check *)

Definition check_order_in_segment (security_id : Z) (segment : ExchangeSegment) (order_lots : Z)
    (e : RiskEngine) : RiskCheck * RiskEngine :=
  let e := with_checks e (u64_saturating_add (total_checks e) 1) (total_rejections e) in
  let reject e := with_checks e (total_checks e) (u64_saturating_add (total_rejections e) 1) in
  if halted e then (RejectedFor (default ManualHalt (halt_reason e)), reject e) else
  let '(total_pnl, max_loss) := daily_loss_state e in
  if negb (is_finite total_pnl) then
    (RejectedFor MaxDailyLossExceeded, reject (trigger_halt MaxDailyLossExceeded e))
  else if loss_breached total_pnl max_loss then
    (RejectedFor MaxDailyLossExceeded, reject (trigger_halt MaxDailyLossExceeded e))
  else
  let current_pos := default default_position (positions e !! (security_id, segment)) in
  let new_net := i32_saturating_add (net_lots current_pos) order_lots in
  if max_position_lots e <? Z.abs new_net then (RejectedFor PositionSizeLimitExceeded, reject e)
  else (Approved, e).

Definition check_order (security_id order_lots : Z) (e : RiskEngine) : RiskCheck * RiskEngine :=
  check_order_in_segment security_id LEGACY_DEFAULT_SEGMENT order_lots e.

(** * Fills and marks *)

Definition contribution_of (e : RiskEngine) (key : PositionKey) : f64 :=
  match positions e !! key, market_prices e !! key with
  | Some pos, Some mark =>
      if negb (net_lots pos =? 0) then
        let unrealized := unrealized_at pos mark in
        if is_finite unrealized then unrealized else f64_zero
      else f64_zero
  | _, _ => f64_zero
  end.

Definition refresh_unrealized (key : PositionKey) (e : RiskEngine) : RiskEngine :=
  let contribution := contribution_of e key in
  let previous := default f64_zero (unrealized_by_key e !! key) in
  let m := if f64_eqb contribution f64_zero then delete key (unrealized_by_key e)
           else <[key := contribution]> (unrealized_by_key e) in
  if decide (m = ∅) then with_unrealized e m f64_zero
  else with_unrealized e m (f64_add (unrealized_total e) (f64_sub contribution previous)).

(** The row a fill leaves, and the realised amount it adds to the total. *)
Definition fill_position (pos : PositionInfo) (filled_lots : Z) (fill_price : f64) (lot : Z)
    : PositionInfo * option f64 :=
  let lot := Z.max lot 1 in
  let old_lots := net_lots pos in
  let entry := avg_entry_price pos in
  let is_reducing := ((0 <? old_lots) && (filled_lots <? 0)) || ((old_lots <? 0) && (0 <? filled_lots)) in
  let realized :=
    if is_reducing && f64_ltb f64_zero entry then
      let closing_lots := Z.min (Z.abs filled_lots) (Z.abs old_lots) in
      let pnl_per_lot := if 0 <? old_lots then f64_sub fill_price entry else f64_sub entry fill_price in
      let r := f64_mul (f64_mul pnl_per_lot (f64_of_Z closing_lots)) (f64_of_Z lot) in
      if is_finite r then Some r else None
    else None in
  let pnl := match realized with Some r => f64_add (realized_pnl pos) r | None => realized_pnl pos end in
  let new_lots := i32_saturating_add old_lots filled_lots in
  let avg :=
    if new_lots =? 0 then f64_zero
    else if ((0 <=? old_lots) && (0 <? filled_lots)) || ((old_lots <=? 0) && (filled_lots <? 0)) then
      let old_value := f64_mul entry (f64_of_Z (Z.abs old_lots)) in
      let new_value := f64_mul fill_price (f64_of_Z (Z.abs filled_lots)) in
      let denominator := f64_of_Z (Z.abs new_lots) in
      if f64_ltb f64_zero denominator then f64_div (f64_add old_value new_value) denominator else entry
    else entry in
  let avg := if ((0 <? old_lots) && (new_lots <? 0)) || ((old_lots <? 0) && (0 <? new_lots))
             then fill_price else avg in
  let avg := if negb (is_finite avg) then fill_price else avg in
  (mkPosition new_lots avg pnl lot, realized).

Definition record_fill_in_segment (security_id : Z) (segment : ExchangeSegment) (filled_lots : Z)
    (fill_price : f64) (lot : Z) (e : RiskEngine) : RiskEngine :=
  if negb (is_finite fill_price) || f64_leb fill_price f64_zero then e
  else if filled_lots =? 0 then e else
  let key := (security_id, segment) in
  let e := if bool_decide (positions e !! key = None) &&
              (MAX_TRACKED_POSITIONS <=? Z.of_nat (size (positions e)))
           then trigger_halt PositionCapacityExhausted e else e in
  let pos := default default_position (positions e !! key) in
  let '(pos', realized) := fill_position pos filled_lots fill_price lot in
  let total := match realized with
               | Some r => f64_add (total_realized_pnl e) r
               | None => total_realized_pnl e
               end in
  let nf := if negb (net_lots pos' =? 0) then {[key]} ∪ non_flat e else non_flat e ∖ {[key]} in
  let entry := default 0 (by_sid e !! security_id) in
  let sids := <[security_id := i64_saturating_add entry (net_lots pos' - net_lots pos)]> (by_sid e) in
  refresh_unrealized key (with_positions e (<[key := pos']> (positions e)) total nf sids).

Definition record_fill (security_id filled_lots : Z) (fill_price : f64) (lot : Z)
    (e : RiskEngine) : RiskEngine :=
  record_fill_in_segment security_id LEGACY_DEFAULT_SEGMENT filled_lots fill_price lot e.

Definition update_market_price_in_segment (security_id : Z) (segment : ExchangeSegment)
    (current_price : f64) (e : RiskEngine) : RiskEngine :=
  if negb (is_finite current_price) || f64_leb current_price f64_zero then
    with_marks e (market_prices e) (u64_saturating_add (marks_rejected e) 1) (mark_capacity_reported e)
  else
  let key := (security_id, segment) in
  if bool_decide (market_prices e !! key = None) &&
     (MAX_TRACKED_POSITIONS <=? Z.of_nat (size (market_prices e))) &&
     bool_decide (positions e !! key = None)
  then with_marks e (market_prices e) (marks_rejected e) true
  else refresh_unrealized key
         (with_marks e (<[key := current_price]> (market_prices e)) (marks_rejected e)
            (mark_capacity_reported e)).

Definition update_market_price (security_id : Z) (current_price : f64) (e : RiskEngine) : RiskEngine :=
  update_market_price_in_segment security_id LEGACY_DEFAULT_SEGMENT current_price e.

(** * Accessors *)

Definition net_lots_for_in_segment (e : RiskEngine) (security_id : Z) (segment : ExchangeSegment) : Z :=
  match positions e !! (security_id, segment) with Some p => net_lots p | None => 0 end.
Definition net_lots_for (e : RiskEngine) (security_id : Z) : Z :=
  net_lots_for_in_segment e security_id LEGACY_DEFAULT_SEGMENT.
Definition net_lots_for_any_segment (e : RiskEngine) (security_id : Z) : Z :=
  default 0 (by_sid e !! security_id).
Definition tracked_security_ids (e : RiskEngine) : gset Z := dom (by_sid e).
Definition position_keys (e : RiskEngine) : gset PositionKey := dom (positions e).
Definition position_security_ids (e : RiskEngine) : list Z :=
  map (fun r => fst (fst r)) (map_to_list (positions e)).
Definition position_in_segment (e : RiskEngine) (security_id : Z) (segment : ExchangeSegment)
    : option PositionInfo := positions e !! (security_id, segment).
Definition open_position_count (e : RiskEngine) : Z := Z.of_nat (size (non_flat e)).
Definition max_daily_loss_amount (e : RiskEngine) : f64 := f64_mul (capital e) (max_daily_loss_fraction e).

(** * The invariant *)

Definition all_segments : list ExchangeSegment :=
  [IdxI; NseEquity; NseFno; NseCurrency; BseEquity; McxComm; BseCurrency; BseFno].

(** Net lots of one id, summed over the segments it trades in. *)
Definition segment_sum (f : ExchangeSegment -> Z) : Z := foldr (fun s acc => f s + acc) 0 all_segments.

Definition row_ok (p : PositionInfo) : Prop :=
  in_i32 (net_lots p) /\ is_finite (avg_entry_price p) = true /\ 1 <= lot_size p.

Definition book_inv (e : RiskEngine) : Prop :=
  map_Forall (fun _ p => row_ok p) (positions e) /\
  map_Forall (fun _ m => positive_price m = true) (market_prices e) /\
  (forall k, k ∈ non_flat e <-> exists p, positions e !! k = Some p /\ net_lots p <> 0) /\
  (forall sid, net_lots_for_any_segment e sid = segment_sum (net_lots_for_in_segment e sid)) /\
  (forall sid, sid ∈ tracked_security_ids e <-> exists seg, (sid, seg) ∈ position_keys e) /\
  (halted e = true <-> is_Some (halt_reason e)).

(** One position's entry in the unrealised index is what its row and mark give. *)
Definition indexed (e : RiskEngine) (k : PositionKey) : Prop :=
  unrealized_by_key e !! k =
  if f64_eqb (contribution_of e k) f64_zero then None else Some (contribution_of e k).

Definition risk_inv (e : RiskEngine) : Prop :=
  book_inv e /\ (forall k, indexed e k) /\ (unrealized_by_key e = ∅ -> unrealized_total e = f64_zero).

Lemma all_segments_NoDup : NoDup all_segments.
Proof. apply (bool_decide_unpack _). by compute. Qed.

Lemma all_segments_complete s : s ∈ all_segments.
Proof. unfold all_segments. rewrite !elem_of_cons. destruct s; tauto. Qed.

Lemma segment_sum_update f g s :
  (forall t, t <> s -> g t = f t) -> segment_sum g = segment_sum f + (g s - f s).
Proof.
  intros H. pose proof (all_segments_complete s) as Hin. pose proof all_segments_NoDup as Hnd.
  unfold segment_sum. revert Hin Hnd. generalize all_segments as l.
  assert (Hout : forall l, s ∉ l -> foldr (fun t acc => g t + acc) 0 l = foldr (fun t acc => f t + acc) 0 l).
  { induction l as [|t l IH]; intros Hn; [done|]. cbn. apply not_elem_of_cons in Hn as [Hne Hn].
    rewrite (H t) by congruence. by rewrite IH. }
  induction l as [|t l IH]; intros Hin Hnd; [by apply elem_of_nil in Hin|].
  apply NoDup_cons in Hnd as [Hn Hnd]. cbn. apply elem_of_cons in Hin as [->|Hin].
  - rewrite Hout by done. lia.
  - rewrite IH by done. rewrite (H t) by (intros ->; done). lia.
Qed.

Lemma segment_sum_range f : (forall s, in_i32 (f s)) -> - 17179869184 <= segment_sum f <= 17179869176.
Proof.
  intros H. unfold segment_sum, all_segments. cbn [foldr].
  pose proof (H IdxI). pose proof (H NseEquity). pose proof (H NseFno). pose proof (H NseCurrency).
  pose proof (H BseEquity). pose proof (H McxComm). pose proof (H BseCurrency). pose proof (H BseFno). zints.
Qed.

Lemma net_lots_range e sid seg :
  map_Forall (fun _ p => row_ok p) (positions e) -> in_i32 (net_lots_for_in_segment e sid seg).
Proof.
  intros H. unfold net_lots_for_in_segment. destruct (positions e !! (sid, seg)) as [p|] eqn:E; [|zints].
  by destruct (H _ _ E).
Qed.

(** [refresh_unrealized] restores the index at its key and touches nothing else. *)
Lemma refresh_frame k e :
  let e' := refresh_unrealized k e in
  positions e' = positions e /\ market_prices e' = market_prices e /\ non_flat e' = non_flat e /\
  by_sid e' = by_sid e /\ halted e' = halted e /\ halt_reason e' = halt_reason e /\
  total_realized_pnl e' = total_realized_pnl e /\ max_position_lots e' = max_position_lots e /\
  capital e' = capital e /\ max_daily_loss_fraction e' = max_daily_loss_fraction e.
Proof. cbv zeta. unfold refresh_unrealized. case_decide; split_and!; done. Qed.

Lemma contribution_of_frame e e' k :
  positions e' = positions e -> market_prices e' = market_prices e ->
  contribution_of e' k = contribution_of e k.
Proof. unfold contribution_of. by intros -> ->. Qed.

Lemma book_inv_frame e e' :
  positions e' = positions e -> market_prices e' = market_prices e -> non_flat e' = non_flat e ->
  by_sid e' = by_sid e -> halted e' = halted e -> halt_reason e' = halt_reason e ->
  book_inv e -> book_inv e'.
Proof.
  intros E1 E2 E3 E4 E5 E6. unfold book_inv, net_lots_for_any_segment, net_lots_for_in_segment,
    tracked_security_ids, position_keys. by rewrite E1, E2, E3, E4, E5, E6.
Qed.

Lemma refresh_inv k e :
  book_inv e -> (forall k', k' <> k -> indexed e k') -> risk_inv (refresh_unrealized k e).
Proof.
  intros Hb Hi. destruct (refresh_frame k e) as (E1 & E2 & E3 & E4 & E5 & E6 & _).
  split; [by apply (book_inv_frame e)|]. split.
  - intros k'. unfold indexed. rewrite (contribution_of_frame e) by done.
    assert (E : unrealized_by_key (refresh_unrealized k e) =
      if f64_eqb (contribution_of e k) f64_zero then delete k (unrealized_by_key e)
      else <[k := contribution_of e k]> (unrealized_by_key e))
      by (unfold refresh_unrealized; case_decide; done).
    rewrite E. destruct (decide (k' = k)) as [->|Hne].
    + destruct (f64_eqb _ _); [by rewrite lookup_delete_eq|by rewrite lookup_insert_eq].
    + destruct (f64_eqb (contribution_of e k) f64_zero);
        [rewrite lookup_delete_ne by congruence|rewrite lookup_insert_ne by congruence]; by apply Hi.
  - unfold refresh_unrealized. case_decide; [done|]. done.
Qed.

Lemma fill_position_ok pos lots price lot :
  positive_price price = true -> in_i32 (net_lots pos) ->
  let p := fst (fill_position pos lots price lot) in
  row_ok p /\ net_lots p = i32_saturating_add (net_lots pos) lots.
Proof.
  intros Hp Hn. cbv zeta. unfold fill_position, row_ok. cbv zeta. cbn [fst net_lots avg_entry_price lot_size].
  assert (Hf : is_finite price = true) by (unfold positive_price in Hp; by destruct (is_finite price)).
  split; [|done]. split; [apply i32_saturating_add_range|]. split; [|lia].
  match goal with |- is_finite (if negb (is_finite ?a) then _ else _) = true =>
    destruct (is_finite a) eqn:E end; cbn; [exact E|exact Hf].
Qed.

Lemma trigger_halt_frame b e :
  let e' := trigger_halt b e in
  positions e' = positions e /\ market_prices e' = market_prices e /\ non_flat e' = non_flat e /\
  by_sid e' = by_sid e /\ unrealized_by_key e' = unrealized_by_key e /\
  unrealized_total e' = unrealized_total e /\ total_realized_pnl e' = total_realized_pnl e /\
  max_position_lots e' = max_position_lots e /\ halted e' = true.
Proof. cbv zeta. unfold trigger_halt. destruct (halted e) eqn:E; split_and!; done. Qed.

Lemma trigger_halt_inv b e : risk_inv e -> risk_inv (trigger_halt b e).
Proof.
  unfold trigger_halt. destruct (halted e) eqn:E; [done|].
  intros ((R1 & R2 & R3 & R4 & R5 & R6) & Hi & Ht). split; [|done].
  unfold book_inv. split_and!; done.
Qed.

Lemma with_checks_inv e c r : risk_inv e -> risk_inv (with_checks e c r).
Proof. done. Qed.

(** The book after a recorded fill, before the index is refreshed. *)
Lemma fill_book_inv e sid seg pos' total lots :
  book_inv e -> row_ok pos' ->
  net_lots pos' = i32_saturating_add (net_lots_for_in_segment e sid seg) lots ->
  let key := (sid, seg) in
  let nf := if negb (net_lots pos' =? 0) then {[key]} ∪ non_flat e else non_flat e ∖ {[key]} in
  let sids := <[sid := i64_saturating_add (net_lots_for_any_segment e sid)
                 (net_lots pos' - net_lots_for_in_segment e sid seg)]> (by_sid e) in
  book_inv (with_positions e (<[key := pos']> (positions e)) total nf sids).
Proof.
  intros (R1 & R2 & R3 & R4 & R5 & R6) Hrow Hlots key nf sids.
  unfold book_inv. cbn [positions market_prices non_flat by_sid halted halt_reason with_positions].
  split_and!; try done.
  - by apply map_Forall_insert_2.
  - intros k. unfold nf. rewrite lookup_insert. destruct (Z.eqb_spec (net_lots pos') 0) as [E|E]; cbn [negb].
    + rewrite elem_of_difference, elem_of_singleton, R3. case_decide as Hk.
      * subst k. split; [by intros [_ []]|]. intros (p & [= <-] & Hp). done.
      * split; [by intros [? _]|]. intros H. split; [done|]. congruence.
    + rewrite elem_of_union, elem_of_singleton, R3. case_decide as Hk.
      * subst k. split; [intros _; by exists pos'|by left].
      * split; [intros [->|?]; done|by right].
  - intros s. unfold net_lots_for_any_segment at 1. cbn [by_sid with_positions]. unfold sids.
    destruct (decide (s = sid)) as [->|Hne].
    + rewrite lookup_insert_eq. cbn [from_option id].
      set (e' := with_positions _ _ _ _ _).
      assert (Hother : forall t, t <> seg ->
        net_lots_for_in_segment e' sid t = net_lots_for_in_segment e sid t).
      { intros t Ht. unfold net_lots_for_in_segment, e'. cbn [positions with_positions].
        rewrite lookup_insert_ne by (unfold key; congruence). done. }
      rewrite (segment_sum_update (net_lots_for_in_segment e sid) _ seg Hother).
      assert (Hthis : net_lots_for_in_segment e' sid seg = net_lots pos').
      { unfold net_lots_for_in_segment, e'. cbn [positions with_positions]. by rewrite lookup_insert_eq. }
      rewrite Hthis, R4.
      pose proof (segment_sum_range (net_lots_for_in_segment e sid) (fun s => net_lots_range e sid s R1)) as Hs.
      pose proof (net_lots_range e sid seg R1). destruct Hrow as (Hrow & _). zints.
    + rewrite lookup_insert_ne by done. fold (net_lots_for_any_segment e s). rewrite R4.
      unfold segment_sum, all_segments. cbn [foldr].
      unfold net_lots_for_in_segment. cbn [positions with_positions].
      rewrite !lookup_insert_ne by (unfold key; congruence). done.
  - intros s. unfold tracked_security_ids, position_keys. cbn [by_sid positions with_positions].
    unfold sids. rewrite dom_insert_L, elem_of_union, elem_of_singleton.
    fold (tracked_security_ids e). rewrite R5. unfold position_keys. split.
    + intros [->|(t & Ht)]; [exists seg|exists t]; rewrite dom_insert_L, elem_of_union, elem_of_singleton;
        [by left|by right].
    + intros (t & Ht). rewrite dom_insert_L, elem_of_union, elem_of_singleton in Ht.
      destruct Ht as [[= -> ->]|Ht]; [by left|right; by exists t].
Qed.

Lemma net_lots_default e sid seg :
  net_lots (default default_position (positions e !! (sid, seg))) = net_lots_for_in_segment e sid seg.
Proof. unfold net_lots_for_in_segment. by destruct (positions e !! (sid, seg)). Qed.

Lemma record_fill_inv sid seg lots price lot e :
  risk_inv e -> risk_inv (record_fill_in_segment sid seg lots price lot e).
Proof.
  intros Hinv. unfold record_fill_in_segment. rewrite positive_price_guard.
  destruct (positive_price price) eqn:Hp; cbn [negb]; [|done].
  destruct (Z.eqb_spec lots 0); [done|].
  set (e1 := if bool_decide _ && _ then _ else e).
  assert (H1 : risk_inv e1) by (unfold e1; destruct (_ && _); [by apply trigger_halt_inv|done]).
  assert (Ep : positions e1 = positions e)
    by (unfold e1; destruct (_ && _); [apply trigger_halt_frame|done]).
  clearbody e1. destruct H1 as (Hb & Hi & _).
  set (pos := default default_position (positions e1 !! (sid, seg))).
  assert (Hpos : net_lots pos = net_lots_for_in_segment e1 sid seg) by apply net_lots_default.
  assert (Hr : in_i32 (net_lots pos)) by (rewrite Hpos; apply net_lots_range; by destruct Hb).
  pose proof (fill_position_ok pos lots price lot Hp Hr) as [Hrow Hlots].
  destruct (fill_position pos lots price lot) as [pos' realized]. cbn [fst] in *.
  rewrite Hpos in *. apply refresh_inv.
  - by apply (fill_book_inv e1 sid seg pos' _ lots).
  - intros k Hk. specialize (Hi k). unfold indexed, contribution_of in *.
    cbn [unrealized_by_key positions market_prices with_positions].
    by rewrite lookup_insert_ne by congruence.
Qed.

Lemma update_mark_inv sid seg price e :
  risk_inv e -> risk_inv (update_market_price_in_segment sid seg price e).
Proof.
  intros Hinv. unfold update_market_price_in_segment. rewrite positive_price_guard.
  destruct (positive_price price) eqn:Hp; cbn [negb]; [|done].
  destruct (_ && _ && _); [done|]. destruct Hinv as ((R1 & R2 & R3 & R4 & R5 & R6) & Hi & _).
  apply refresh_inv.
  - unfold book_inv. cbn [positions market_prices non_flat by_sid halted halt_reason with_marks].
    split_and!; try done. by apply map_Forall_insert_2.
  - intros k Hk. specialize (Hi k). unfold indexed, contribution_of in *.
    cbn [unrealized_by_key positions market_prices with_marks].
    by rewrite lookup_insert_ne by congruence.
Qed.

(** * Runs *)

Inductive risk_op : Type :=
  | OpCheckOrder (sid : Z) (seg : ExchangeSegment) (lots : Z)
  | OpFill (sid : Z) (seg : ExchangeSegment) (lots : Z) (price : f64) (lot : Z)
  | OpMark (sid : Z) (seg : ExchangeSegment) (price : f64)
  | OpEvaluate
  | OpManualHalt
  | OpResetHalt
  | OpResetDaily.

Definition risk_step (o : risk_op) (e : RiskEngine) : RiskEngine :=
  match o with
  | OpCheckOrder sid seg lots => snd (check_order_in_segment sid seg lots e)
  | OpFill sid seg lots price lot => record_fill_in_segment sid seg lots price lot e
  | OpMark sid seg price => update_market_price_in_segment sid seg price e
  | OpEvaluate => snd (evaluate_daily_loss_halt e)
  | OpManualHalt => manual_halt e
  | OpResetHalt => reset_halt e
  | OpResetDaily => reset_daily e
  end.

Definition risk_run (ops : list risk_op) (e : RiskEngine) : RiskEngine :=
  foldl (fun e o => risk_step o e) e ops.

Lemma empty_book_inv e :
  positions e = ∅ -> market_prices e = ∅ -> non_flat e = ∅ -> by_sid e = ∅ ->
  unrealized_by_key e = ∅ -> unrealized_total e = f64_zero ->
  halted e = false -> halt_reason e = None -> risk_inv e.
Proof.
  intros E1 E2 E3 E4 E5 E6 E7 E8. split; [|split].
  - unfold book_inv, net_lots_for_any_segment, net_lots_for_in_segment, tracked_security_ids, position_keys.
    rewrite E1, E2, E3, E4, E7, E8.
    split; [apply map_Forall_empty|]. split; [apply map_Forall_empty|].
    split; [|split; [|split]].
    + intros k. rewrite lookup_empty. split; [by intros ?%elem_of_empty|by intros (? & ? & _)].
    + intros sid. rewrite lookup_empty. unfold segment_sum, all_segments. cbn [foldr].
      by rewrite !lookup_empty.
    + intros sid. rewrite !dom_empty_L. split; [by intros ?%elem_of_empty|by intros (? & ?%elem_of_empty)].
    + split; [done|by intros [? ?]].
  - intros k. unfold indexed, contribution_of. by rewrite E1, E5, !lookup_empty.
  - done.
Qed.

Lemma check_order_inv sid seg lots e : risk_inv e -> risk_inv (snd (check_order_in_segment sid seg lots e)).
Proof.
  intros H. unfold check_order_in_segment.
  destruct (halted _); [by apply with_checks_inv|].
  destruct (daily_loss_state _) as [pnl ml].
  destruct (negb (is_finite pnl)); [by apply with_checks_inv, trigger_halt_inv|].
  destruct (loss_breached pnl ml); [by apply with_checks_inv, trigger_halt_inv|].
  destruct (_ <? _); by apply with_checks_inv.
Qed.

Lemma evaluate_inv e : risk_inv e -> risk_inv (snd (evaluate_daily_loss_halt e)).
Proof.
  intros H. unfold evaluate_daily_loss_halt. destruct (halted e); [done|].
  destruct (daily_loss_state e) as [pnl ml].
  destruct (negb _); [by apply trigger_halt_inv|]. destruct (loss_breached _ _); [by apply trigger_halt_inv|done].
Qed.

Lemma reset_halt_inv e : risk_inv e -> risk_inv (reset_halt e).
Proof.
  intros H. unfold reset_halt. destruct (halted e); [|done].
  destruct H as ((R1 & R2 & R3 & R4 & R5 & R6) & Hi & Ht). split; [|done].
  unfold book_inv. do 5 (split; [done|]). split; [done|by intros [? ?]].
Qed.

Lemma risk_step_inv o e : risk_inv e -> risk_inv (risk_step o e).
Proof.
  intros H. destruct o; cbn [risk_step].
  - by apply check_order_inv.
  - by apply record_fill_inv.
  - by apply update_mark_inv.
  - by apply evaluate_inv.
  - by apply trigger_halt_inv.
  - by apply reset_halt_inv.
  - by apply empty_book_inv.
Qed.

Lemma risk_run_inv ops : forall e, risk_inv e -> risk_inv (risk_run ops e).
Proof.
  induction ops as [|o ops IH]; intros e H; [done|]. apply IH. by apply risk_step_inv.
Qed.

Lemma new_risk_inv pct lots cap : risk_inv (new_risk pct lots cap).
Proof. by apply empty_book_inv. Qed.

(** C4: After any sequence of checks, fills, marks, evaluations, halts and
    resets the risk book is consistent: rows hold 32-bit lots, finite entry prices
    and positive lot sizes, marks are positive, the non-flat index and the per-id
    net-lots index agree with the rows, the unrealised index holds exactly the
    non-zero contributions, and a halt always has a reason. *)
Theorem risk_invariant ops pct lots cap : risk_inv (risk_run ops (new_risk pct lots cap)).
Proof. apply risk_run_inv, new_risk_inv. Qed.

(** * What the checks promise *)

Lemma record_fill_net sid seg lots price lot e s g :
  net_lots_for_in_segment (record_fill_in_segment sid seg lots price lot e) s g =
  if positive_price price && negb (lots =? 0) && bool_decide ((s, g) = (sid, seg))
  then i32_saturating_add (net_lots_for_in_segment e sid seg) lots
  else net_lots_for_in_segment e s g.
Proof.
  unfold record_fill_in_segment. rewrite positive_price_guard.
  destruct (positive_price price); cbn [negb andb]; [|done].
  destruct (lots =? 0); cbn [negb andb]; [done|].
  set (e1 := if bool_decide (positions e !! _ = None) && _ then _ else e).
  assert (Ep : positions e1 = positions e)
    by (unfold e1; destruct (_ && _); [apply trigger_halt_frame|done]).
  clearbody e1. rewrite Ep.
  assert (Hl : net_lots (fst (fill_position (default default_position (positions e !! (sid, seg))) lots price lot))
    = i32_saturating_add (net_lots_for_in_segment e sid seg) lots) by (rewrite <- net_lots_default; done).
  destruct (fill_position _ _ _ _) as [pos' realized]. cbn [fst] in Hl.
  unfold net_lots_for_in_segment at 1.
  destruct (refresh_frame (sid, seg) (with_positions e1 (<[(sid, seg) := pos']> (positions e))
    (match realized with Some r => f64_add (total_realized_pnl e1) r | None => total_realized_pnl e1 end)
    (if negb (net_lots pos' =? 0) then {[(sid, seg)]} ∪ non_flat e1 else non_flat e1 ∖ {[(sid, seg)]})
    (<[sid := i64_saturating_add (default 0 (by_sid e1 !! sid))
       (net_lots pos' - net_lots (default default_position (positions e !! (sid, seg))))]> (by_sid e1))))
    as [-> _].
  cbn [positions with_positions]. rewrite lookup_insert.
  case_bool_decide as Hk; case_decide as Hk'; try congruence; done.
Qed.

(** A recorded fill moves the net lots of its own instrument and segment by
    the filled lots, saturating, and no other; a fill at an invalid price changes
    nothing. *)
Theorem fill_moves_only_its_row sid seg lots price lot e :
  positive_price price = true -> lots <> 0 ->
  let e' := record_fill_in_segment sid seg lots price lot e in
  net_lots_for_in_segment e' sid seg = i32_saturating_add (net_lots_for_in_segment e sid seg) lots /\
  (forall s g, (s, g) <> (sid, seg) -> net_lots_for_in_segment e' s g = net_lots_for_in_segment e s g) /\
  (forall bad, positive_price bad = false -> record_fill_in_segment sid seg lots bad lot e = e).
Proof.
  intros Hp Hl e'. unfold e'. split; [|split].
  - rewrite record_fill_net, Hp. destruct (Z.eqb_spec lots 0); [done|]. by rewrite bool_decide_true.
  - intros s g Hne. rewrite record_fill_net, bool_decide_false by done. by rewrite andb_false_r.
  - intros bad Hb. unfold record_fill_in_segment. by rewrite positive_price_guard, Hb.
Qed.

Lemma check_order_cases sid seg lots e :
  let '(c, e') := check_order_in_segment sid seg lots e in
  let '(pnl, max_loss) := daily_loss_state e in
  positions e' = positions e /\ max_position_lots e' = max_position_lots e /\
  if halted e then c = RejectedFor (default ManualHalt (halt_reason e)) /\ halted e' = true
  else if negb (is_finite pnl) || loss_breached pnl max_loss
       then c = RejectedFor MaxDailyLossExceeded /\ halted e' = true
  else halted e' = false /\
       c = if max_position_lots e <? Z.abs (i32_saturating_add (net_lots_for_in_segment e sid seg) lots)
           then RejectedFor PositionSizeLimitExceeded else Approved.
Proof.
  unfold check_order_in_segment. cbn [halted with_checks].
  change (daily_loss_state (with_checks e _ _)) with (daily_loss_state e).
  destruct (daily_loss_state e) as [pnl max_loss].
  destruct (halted e) eqn:Hh; [split_and!; done|].
  destruct (negb (is_finite pnl)); cbn [orb].
  { unfold trigger_halt. cbn [halted with_checks]. rewrite Hh. split_and!; done. }
  destruct (loss_breached pnl max_loss).
  { unfold trigger_halt. cbn [halted with_checks]. rewrite Hh. split_and!; done. }
  cbn [positions max_position_lots with_checks]. rewrite net_lots_default.
  destruct (_ <? _); split_and!; done.
Qed.


(** C5: An approved order was checked on an engine that is not halted, has
    finite profit and loss and no daily-loss breach, and once filled leaves the
    instrument's net lots within the position limit. *)
Theorem approved_order_is_safe sid seg lots price lot e e' :
  check_order_in_segment sid seg lots e = (Approved, e') ->
  positive_price price = true -> lots <> 0 ->
  let filled := record_fill_in_segment sid seg lots price lot e' in
  let '(pnl, max_loss) := daily_loss_state e in
  halted e = false /\ halted e' = false /\ is_finite pnl = true /\ loss_breached pnl max_loss = false /\
  Z.abs (net_lots_for_in_segment filled sid seg) <= max_position_lots e.
Proof.
  intros Hc Hp Hl filled. pose proof (check_order_cases sid seg lots e) as Hcases. rewrite Hc in Hcases.
  destruct (daily_loss_state e) as [pnl max_loss]. destruct Hcases as (Epos & Emax & Hcases).
  destruct (halted e); [by destruct Hcases|].
  destruct (is_finite pnl); cbn [negb orb] in Hcases; [|by destruct Hcases].
  destruct (loss_breached pnl max_loss); [by destruct Hcases|].
  destruct Hcases as [Hh Hcases].
  assert (Enet : net_lots_for_in_segment e' sid seg = net_lots_for_in_segment e sid seg)
    by (unfold net_lots_for_in_segment; by rewrite Epos).
  unfold filled. rewrite record_fill_net, Hp, Enet.
  destruct (Z.eqb_spec lots 0); [done|]. cbn [negb andb]. rewrite bool_decide_true by done.
  destruct (Z.ltb_spec (max_position_lots e) (Z.abs (i32_saturating_add (net_lots_for_in_segment e sid seg) lots)));
    [done|]. done.
Qed.

Definition resets (o : risk_op) : bool :=
  match o with OpResetHalt | OpResetDaily => true | _ => false end.

Lemma record_fill_halt sid seg lots price lot e :
  let e' := record_fill_in_segment sid seg lots price lot e in
  (halted e = true -> halted e' = true /\ halt_reason e' = halt_reason e) /\
  (e' = e \/ halted e' = halted (if bool_decide (positions e !! (sid, seg) = None) &&
                         (MAX_TRACKED_POSITIONS <=? Z.of_nat (size (positions e)))
                      then trigger_halt PositionCapacityExhausted e else e) /\
             exists p, positions e' = <[(sid, seg) := p]> (positions e)).
Proof.
  cbv zeta. unfold record_fill_in_segment. destruct (_ || _); [by split; [|left]|].
  destruct (lots =? 0); [by split; [|left]|].
  set (e1 := if bool_decide _ && _ then _ else e).
  assert (Ep : positions e1 = positions e)
    by (unfold e1; destruct (_ && _); [apply trigger_halt_frame|done]).
  assert (Eh : halted e = true -> halted e1 = true /\ halt_reason e1 = halt_reason e).
  { intros H. unfold e1. destruct (_ && _); [|done]. unfold trigger_halt. by rewrite H. }
  clearbody e1. destruct (fill_position _ _ _ _) as [pos' realized].
  match goal with |- context[refresh_unrealized ?k ?x] =>
    destruct (refresh_frame k x) as (-> & _ & _ & _ & -> & -> & _) end.
  cbn [halted halt_reason positions with_positions]. split; [done|]. right. split; [done|].
  exists pos'. by rewrite Ep.
Qed.

Lemma update_mark_frame sid seg price e :
  let e' := update_market_price_in_segment sid seg price e in
  positions e' = positions e /\ halted e' = halted e /\ halt_reason e' = halt_reason e.
Proof.
  cbv zeta. unfold update_market_price_in_segment. destruct (_ || _); [done|].
  destruct (_ && _); [done|].
  match goal with |- context[refresh_unrealized ?k ?x] =>
    destruct (refresh_frame k x) as (-> & _ & _ & _ & -> & -> & _) end. done.
Qed.

Lemma risk_step_latched o e :
  resets o = false -> halted e = true ->
  halted (risk_step o e) = true /\ halt_reason (risk_step o e) = halt_reason e.
Proof.
  intros Hr Hh. destruct o; cbn [risk_step] in *; try done.
  - unfold check_order_in_segment. cbn [halted with_checks]. by rewrite Hh.
  - by apply record_fill_halt.
  - destruct (update_mark_frame sid seg price e) as (_ & -> & ->). done.
  - unfold evaluate_daily_loss_halt. by rewrite Hh.
  - unfold manual_halt, trigger_halt. by rewrite Hh.
Qed.

Lemma risk_run_latched ops : forall e,
  Forall (fun o => resets o = false) ops -> halted e = true ->
  halted (risk_run ops e) = true /\ halt_reason (risk_run ops e) = halt_reason e.
Proof.
  induction ops as [|o ops IH]; intros e Hf Hh; [done|]. apply Forall_cons in Hf as [Ho Hf].
  destruct (risk_step_latched o e Ho Hh) as [H1 H2]. cbn.
  destruct (IH (risk_step o e) Hf H1) as [H3 H4]. unfold risk_run in *. by rewrite H3, H4.
Qed.

(** Once halted, no sequence of checks, fills, marks, evaluations or further
    halts changes the halt or its reason, the daily-loss evaluation keeps
    answering halted and every order is rejected with that reason. *)
Theorem halt_is_latched ops e reason :
  halted e = true -> halt_reason e = Some reason ->
  Forall (fun o => resets o = false) ops ->
  let e' := risk_run ops e in
  halted e' = true /\ halt_reason e' = Some reason /\
  fst (evaluate_daily_loss_halt e') = true /\
  forall sid seg lots, fst (check_order_in_segment sid seg lots e') = RejectedFor reason.
Proof.
  intros Hh Hr Hf e'. destruct (risk_run_latched ops e Hf Hh) as [H1 H2]. fold e' in H1, H2.
  rewrite Hr in H2. split; [done|]. split; [done|]. split.
  - unfold evaluate_daily_loss_halt. by rewrite H1.
  - intros sid seg lots. unfold check_order_in_segment. cbn [halted halt_reason with_checks].
    by rewrite H1, H2.
Qed.

(** The periodic daily-loss evaluation and the pre-trade check take the same
    decision on the same state: both halt exactly when the engine is halted,
    profit and loss is not finite or the loss limit is reached; otherwise an order
    is approved exactly when the resulting net lots fit the limit. *)
Theorem daily_loss_gate_agrees e :
  let '(pnl, max_loss) := daily_loss_state e in
  let stop := halted e || negb (is_finite pnl) || loss_breached pnl max_loss in
  fst (evaluate_daily_loss_halt e) = stop /\
  halted (snd (evaluate_daily_loss_halt e)) = stop /\
  positions (snd (evaluate_daily_loss_halt e)) = positions e /\
  (forall sid seg lots,
    let '(c, e') := check_order_in_segment sid seg lots e in
    halted e' = stop /\
    (is_approved c = true <-> stop = false /\
       Z.abs (i32_saturating_add (net_lots_for_in_segment e sid seg) lots) <= max_position_lots e)).
Proof.
  pose proof (fun sid seg lots => check_order_cases sid seg lots e) as Hc.
  assert (He : evaluate_daily_loss_halt e = evaluate_daily_loss_halt e) by done.
  unfold evaluate_daily_loss_halt at 2 in He.
  destruct (daily_loss_state e) as [pnl max_loss]. cbv zeta.
  rewrite He. unfold trigger_halt. split; [|split; [|split]].
  - destruct (halted e), (negb (is_finite pnl)), (loss_breached pnl max_loss); done.
  - destruct (halted e) eqn:E, (negb (is_finite pnl)), (loss_breached pnl max_loss); done.
  - destruct (halted e), (negb (is_finite pnl)), (loss_breached pnl max_loss); done.
  - intros sid seg lots. specialize (Hc sid seg lots).
    destruct (check_order_in_segment sid seg lots e) as [c e'].
    destruct Hc as (_ & _ & Hc). rewrite <- orb_assoc.
    assert (Hstop : forall b c' h, c = RejectedFor b /\ h = true ->
      h = true /\ (is_approved c = true <-> true = false /\ c'))
      by (intros b c' h [-> ->]; split; [done|split; [discriminate|by intros [? _]]]).
    destruct (halted e); cbn [orb]; [by eapply Hstop|].
    destruct (negb (is_finite pnl) || loss_breached pnl max_loss); [by eapply Hstop|].
    destruct Hc as [-> ->]. split; [done|].
    destruct (Z.ltb_spec (max_position_lots e) (Z.abs (i32_saturating_add (net_lots_for_in_segment e sid seg) lots)))
      as [Hlt|Hle]; unfold is_approved; split; [discriminate|intros [_ ?]; lia|by intros _|by intros _].
Qed.

(** The capacity bound holds or the engine is halted. *)
Definition capacity_ok (e : RiskEngine) : Prop :=
  Z.of_nat (size (positions e)) <= MAX_TRACKED_POSITIONS \/ halted e = true.

Lemma check_order_positions sid seg lots e :
  positions (snd (check_order_in_segment sid seg lots e)) = positions e /\
  (halted e = true -> halted (snd (check_order_in_segment sid seg lots e)) = true).
Proof.
  pose proof (check_order_cases sid seg lots e) as H.
  destruct (check_order_in_segment sid seg lots e) as [c e'], (daily_loss_state e) as [pnl ml].
  destruct H as (Hp & _ & H). split; [done|]. intros Hh. rewrite Hh in H. by destruct H.
Qed.

Lemma risk_step_capacity o e : o <> OpResetHalt -> capacity_ok e -> capacity_ok (risk_step o e).
Proof.
  intros Ho Hcap. unfold capacity_ok in *. destruct o; cbn [risk_step]; try done.
  - destruct (check_order_positions sid seg lots e) as [-> Hh]. destruct Hcap; [by left|right; auto].
  - destruct (record_fill_halt sid seg lots price lot e) as [H1 H2].
    destruct Hcap as [Hcap|Hcap]; [|by right; apply H1].
    destruct H2 as [->|[H2 [p Hp]]]; [by left|]. rewrite Hp, H2.
    destruct (positions e !! (sid, seg)) as [q|] eqn:E.
    + left. by rewrite map_size_insert_Some.
    + rewrite bool_decide_true by done. rewrite map_size_insert_None by done. cbn [andb].
      destruct (Z.leb_spec MAX_TRACKED_POSITIONS (Z.of_nat (size (positions e))));
        [right; apply trigger_halt_frame|left; lia].
  - destruct (update_mark_frame sid seg price e) as (-> & -> & _). done.
  - unfold evaluate_daily_loss_halt. destruct (halted e) eqn:E; [by right|].
    destruct (daily_loss_state e). destruct (negb _); [right; apply trigger_halt_frame|].
    destruct (loss_breached _ _); [right; apply trigger_halt_frame|]. by destruct Hcap; [left|congruence].
  - right. apply trigger_halt_frame.
  - left. cbn. by rewrite map_size_empty.
Qed.

(** Unless an operator resets a halt, the engine either tracks at most 25,000
    positions or is halted and approves nothing. *)
Theorem position_book_bounded ops pct lots cap :
  Forall (fun o => o <> OpResetHalt) ops ->
  let e := risk_run ops (new_risk pct lots cap) in
  Z.of_nat (size (positions e)) <= MAX_TRACKED_POSITIONS \/
  (halted e = true /\ forall sid seg n, is_approved (fst (check_order_in_segment sid seg n e)) = false).
Proof.
  intros Hf e. assert (Hcap : capacity_ok e).
  { unfold e. assert (H0 : capacity_ok (new_risk pct lots cap)) by (left; cbn; by rewrite map_size_empty).
    revert H0 Hf. generalize (new_risk pct lots cap). induction ops as [|o ops IH]; intros e0 H0 Hf; [done|].
    apply Forall_cons in Hf as [Ho Hf]. apply IH; [by apply risk_step_capacity|done]. }
  destruct Hcap as [H|H]; [by left|right]. split; [done|]. intros sid seg n.
  unfold check_order_in_segment. cbn [halted with_checks]. by rewrite H.
Qed.

(** A price that is finite and positive, and large enough that two round trips overflow. *)
Definition huge_price : f64 := f64_mul (f64_of_Z 17) (f64_of_Z (10 ^ 307)).

Definition poisoning_fills : list risk_op :=
  let buy := OpFill 13 NseFno 1 (f64_of_Z 1) 1 in
  let sell := OpFill 13 NseFno (-1) huge_price 1 in
  [buy; sell; buy; sell].

(** Four fills at finite positive prices can make total profit and loss non-
    finite: each realised amount is finite but their sum overflows, and the fail-
    closed arms of the evaluation and the check then halt. *)
Theorem guarded_fills_can_poison_pnl :
  positive_price huge_price = true /\
  let e := risk_run poisoning_fills (new_risk (f64_of_Z 2) 100 (f64_of_Z 1000000)) in
  is_finite (fst (daily_loss_state e)) = false /\ halted e = false /\
  fst (evaluate_daily_loss_halt e) = true /\
  fst (check_order_in_segment 13 NseFno 1 e) = RejectedFor MaxDailyLossExceeded.
Proof. vm_compute. repeat split. Qed.

(** * Instances *)

Definition sample_risk : RiskEngine := new_risk (f64_of_Z 2) 10 (f64_of_Z 1000000).

Lemma fill_moves_only_its_row_witness :
  let e' := record_fill_in_segment 13 NseFno 3 (f64_of_Z 100) 50 sample_risk in
  net_lots_for_in_segment e' 13 NseFno = 3 /\ net_lots_for_in_segment e' 13 IdxI = 0.
Proof.
  destruct (fill_moves_only_its_row 13 NseFno 3 (f64_of_Z 100) 50 sample_risk) as (H & Ho & _);
    [vm_compute; reflexivity|discriminate|]. cbv zeta.
  split; [rewrite H; vm_compute; reflexivity|rewrite Ho by discriminate; vm_compute; reflexivity].
Defined.

Lemma approved_order_is_safe_witness :
  let '(c, e') := check_order_in_segment 13 NseFno 4 sample_risk in
  c = Approved /\
  Z.abs (net_lots_for_in_segment (record_fill_in_segment 13 NseFno 4 (f64_of_Z 100) 50 e') 13 NseFno)
    <= max_position_lots sample_risk.
Proof.
  destruct (check_order_in_segment 13 NseFno 4 sample_risk) as [c e'] eqn:E.
  assert (Hc : c = Approved) by (apply (f_equal fst) in E; vm_compute in E; symmetry; exact E).
  split; [exact Hc|]. rewrite Hc in E.
  pose proof (approved_order_is_safe 13 NseFno 4 (f64_of_Z 100) 50 sample_risk e' E) as H.
  destruct (daily_loss_state sample_risk) as [pnl ml].
  apply H; [vm_compute; reflexivity|discriminate].
Defined.

Lemma halt_is_latched_witness :
  let e := trigger_halt PositionCapacityExhausted sample_risk in
  fst (check_order_in_segment 13 NseFno 1
         (risk_run [OpMark 13 NseFno (f64_of_Z 100); OpManualHalt; OpFill 13 NseFno 1 (f64_of_Z 99) 1] e)) =
  RejectedFor PositionCapacityExhausted.
Proof.
  apply (halt_is_latched [OpMark 13 NseFno (f64_of_Z 100); OpManualHalt; OpFill 13 NseFno 1 (f64_of_Z 99) 1]
           (trigger_halt PositionCapacityExhausted sample_risk)); [reflexivity|reflexivity|].
  repeat constructor.
Defined.

Lemma position_book_bounded_witness :
  let e := risk_run [OpFill 13 NseFno 1 (f64_of_Z 99) 1; OpResetDaily; OpFill 14 NseFno 1 (f64_of_Z 99) 1] sample_risk in
  Z.of_nat (size (positions e)) <= MAX_TRACKED_POSITIONS \/
  (halted e = true /\ forall sid seg n, is_approved (fst (check_order_in_segment sid seg n e)) = false).
Proof.
  apply (position_book_bounded [OpFill 13 NseFno 1 (f64_of_Z 99) 1; OpResetDaily; OpFill 14 NseFno 1 (f64_of_Z 99) 1]).
  constructor; [discriminate|]. constructor; [discriminate|]. constructor; [discriminate|constructor].
Defined.
