(* ===== verification/ExitRules.v ===== *)
(** The pure rules of the exit orders ([oms/exit_rules.rs], the exit types of
    [oms/types.rs], [validate_super_order_prices] of [oms/engine.rs]): what a
    three-leg bracket and a forever order must look like to be sent, how an
    order over the exchange's freeze limit splits, which legs may still be
    cancelled or modified, how a probe of an order's execution is classified,
    and the waits between probes. *)
From Stdlib Require Import Ascii.
From S2P Require Import Prelude Bytes Float OrderTypes OrderLifecycle.
Local Open Scope Z_scope.

Definition VERIFY_BACKOFF_CAP_SECS : Z := 10.
Definition MAX_ORDER_SLICES : Z := 1000.
Definition VERIFY_RAW_NOT_IN_SUPER_LIST : string := "NOT_IN_SUPER_LIST".

(** * Requests and verdicts *)

Record PlaceSuperOrderRequest : Type := mkSuper {
  so_security_id : Z;
  so_transaction_type : TransactionType;
  so_order_type : OrderType;
  so_product_type : ProductType;
  so_quantity : Z;
  so_price : f64;
  so_target_price : f64;
  so_stop_loss_price : f64;
  so_trailing_jump : f64;
  so_lot_size : Z;
  so_expiry_date : option Z }.

Record OcoSecondLeg : Type := mkOcoLeg {
  oco_price : f64;
  oco_trigger_price : f64;
  oco_quantity : Z }.

Record PlaceForeverOcoRequest : Type := mkForever {
  fo_security_id : Z;
  fo_transaction_type : TransactionType;
  fo_product_type : ProductType;
  fo_order_type : OrderType;
  fo_validity : OrderValidity;
  fo_quantity : Z;
  fo_price : f64;
  fo_trigger_price : f64;
  fo_oco_leg : option OcoSecondLeg;
  fo_expiry_date : option Z }.

Inductive ModifySuperOrderLeg : Type :=
  | MEntry (order_type : OrderType) (quantity : Z) (price target_price stop_loss_price trailing_jump : f64)
  | MTarget (target_price : f64)
  | MStopLoss (stop_loss_price trailing_jump : f64).

Inductive ExecutionVerdict : Type :=
  | Filled (traded_qty : Z) (avg_price : f64)
  | PartiallyFilled (traded_qty remaining : Z)
  | StillPending (elapsed_secs : Z)
  | PendingAtLimit (elapsed_secs : Z)
  | Terminal (status : OrderStatus)
  | SimulatedFilled
  | Unknown (raw_status : string).

Inductive ExitCommand : Type :=
  | CloseAll (security_id : Z) (exchange_segment : ExchangeSegment) (freeze_limit : Z)
  | PlaceBracket (request : PlaceSuperOrderRequest)
  | TightenStop (order_id : string) (modify : ModifySuperOrderLeg)
  | CancelBracket (order_id : string)
  | PlaceOcoProtection (request : PlaceForeverOcoRequest)
  | VerifyExecution (order_id : string).

(** * Validation *)

(** The contract has not expired before [today]. *)
Definition expiry_gate (security_id : Z) (expiry_date : option Z) (today : Z) : res OmsError unit :=
  match expiry_date with
  | Some expiry => if expiry <? today then Err (ExpiredContract security_id expiry) else mret tt
  | None => mret tt
  end.

Definition limit_or_market (t : OrderType) : bool :=
  match t with Limit | Market => true | _ => false end.

Fixpoint all_finite (l : list (string * f64)) : res OmsError unit :=
  match l with
  | [] => mret tt
  | (label, value) :: l' =>
      if negb (is_finite value)
      then Err (RiskRejected ("super order " +:+ label +:+ " must be finite")) else all_finite l'
  end.

Definition validate_super_order_request (today : Z) (r : PlaceSuperOrderRequest) : res OmsError unit :=
  all_finite [("price", so_price r); ("targetPrice", so_target_price r);
              ("stopLossPrice", so_stop_loss_price r); ("trailingJump", so_trailing_jump r)] ≫= fun _ =>
  if negb (limit_or_market (so_order_type r))
  then Err (RiskRejected "super order entry leg must be LIMIT or MARKET")
  else if bool_decide (so_order_type r = Market) && negb (f64_eqb (so_price r) f64_zero)
  then Err (RiskRejected "MARKET super order must have price=0.0")
  else if so_quantity r <=? 0
  then Err (RiskRejected "super order quantity must be positive")
  else if (1 <? so_lot_size r) && negb (Z.rem (so_quantity r) (so_lot_size r) =? 0)
  then Err (RiskRejected "super order quantity is not a multiple of lot size")
  else if f64_ltb (so_trailing_jump r) f64_zero
  then Err (RiskRejected "super order trailingJump must be >= 0.0")
  else if negb (f64_eqb (so_trailing_jump r) f64_zero) &&
          f64_leb (f64_abs (f64_sub (so_price r) (so_stop_loss_price r))) (so_trailing_jump r)
  then Err (RiskRejected "super order trailingJump must be below |entry - stopLoss|")
  else expiry_gate (so_security_id r) (so_expiry_date r) today.

Fixpoint all_positive (what : string) (l : list (string * f64)) : res OmsError unit :=
  match l with
  | [] => mret tt
  | (label, value) :: l' =>
      if negb (positive_price value)
      then Err (RiskRejected (what +:+ " " +:+ label +:+ " must be positive and finite"))
      else all_positive what l'
  end.

Definition cnc_or_mtf (p : ProductType) : bool :=
  match p with Cnc | Mtf => true | _ => false end.

Definition validate_forever_oco (today : Z) (r : PlaceForeverOcoRequest) : res OmsError unit :=
  if negb (cnc_or_mtf (fo_product_type r))
  then Err (RiskRejected "forever/OCO orders accept CNC or MTF only")
  else if negb (limit_or_market (fo_order_type r))
  then Err (RiskRejected "forever/OCO order type must be LIMIT or MARKET")
  else
    all_positive "forever/OCO" [("price", fo_price r); ("triggerPrice", fo_trigger_price r)] ≫= fun _ =>
    if fo_quantity r <=? 0 then Err (RiskRejected "forever/OCO quantity must be positive")
    else
      match fo_oco_leg r with
      | Some leg =>
          all_positive "OCO second leg" [("price1", oco_price leg); ("triggerPrice1", oco_trigger_price leg)]
            ≫= fun _ =>
          if oco_quantity leg <=? 0 then Err (RiskRejected "OCO second leg quantity must be positive")
          else mret tt
      | None => mret tt
      end ≫= fun _ => expiry_gate (fo_security_id r) (fo_expiry_date r) today.

(** The order of the three prices of a LIMIT bracket. *)
Definition validate_super_order_prices (transaction_type : string) (price target_price stop_loss_price : f64)
    : res OmsError unit :=
  if f64_leb price f64_zero then Err (RiskRejected "super order entry price must be positive")
  else if f64_leb target_price f64_zero then Err (RiskRejected "super order target price must be positive")
  else if f64_leb stop_loss_price f64_zero then Err (RiskRejected "super order stop loss price must be positive")
  else if decide (transaction_type = "BUY") then
    if f64_leb target_price price then Err (RiskRejected "BUY super order target must exceed entry price")
    else if f64_leb price stop_loss_price
    then Err (RiskRejected "BUY super order stop loss must be below entry price") else mret tt
  else if decide (transaction_type = "SELL") then
    if f64_leb price target_price then Err (RiskRejected "SELL super order target must be below entry price")
    else if f64_leb stop_loss_price price
    then Err (RiskRejected "SELL super order stop loss must exceed entry price") else mret tt
  else Err (RiskRejected "unknown transaction type for super order").

(** * Slicing *)

Definition compute_slices (quantity freeze_limit : Z) : res OmsError (list Z) :=
  if freeze_limit <=? 0 then Err (RiskRejected "freeze limit must be positive")
  else if quantity <=? 0 then Err (RiskRejected "slice quantity must be positive")
  else
    let full_slices := Z.quot quantity freeze_limit in
    let remainder := Z.rem quantity freeze_limit in
    let slice_count := i64_saturating_add full_slices (if 0 <? remainder then 1 else 0) in
    if MAX_ORDER_SLICES <? slice_count then Err (RiskRejected "refusing runaway split")
    else Ok (replicate (Z.to_nat full_slices) freeze_limit ++ (if 0 <? remainder then [remainder] else [])).

Definition requires_slicing (quantity freeze_limit : Z) : bool := freeze_limit <? quantity.

(** * Leg gates and order ids *)

Definition entry_leg_cancel_allowed (entry_status_raw : string) : bool :=
  negb (bool_decide (entry_status_raw ∈ ["PART_TRADED"; "TRADED"])).

Definition entry_leg_modify_allowed (entry_status_raw : string) : bool :=
  bool_decide (entry_status_raw ∈ ["PENDING"; "PART_TRADED"; "TRANSIT"]).

Definition exit_leg_modify_allowed (leg_status_raw : string) : bool :=
  negb (bool_decide (leg_status_raw ∈ ["TRIGGERED"; "TRADED"; "CANCELLED"; "REJECTED"; "CLOSED"])).

Definition is_ascii_alphanumeric (b : Z) : bool :=
  (48 <=? b) && (b <=? 57) || (65 <=? b) && (b <=? 90) || (97 <=? b) && (b <=? 122).

Definition id_byte (c : ascii) : bool :=
  let b := Z.of_N (N_of_ascii c) in is_ascii_alphanumeric b || (b =? 95) || (b =? 45).

Definition is_valid_order_id (order_id : string) : bool :=
  let len := Z.of_nat (String.length order_id) in
  (1 <=? len) && (len <=? 64) && forallb id_byte (String.list_ascii_of_string order_id).

(** * Execution verdicts *)

Definition verify_verdict_decisive (verdict : ExecutionVerdict) (is_final_attempt : bool) : bool :=
  match verdict with
  | Filled _ _ | SimulatedFilled | Terminal _ | PendingAtLimit _ => true
  | Unknown raw_status => bool_decide (raw_status <> VERIFY_RAW_NOT_IN_SUPER_LIST) || is_final_attempt
  | StillPending _ | PartiallyFilled _ _ => false
  end.

Definition classify_mpp_verdict (status : option OrderStatus) (raw_status : string)
    (traded_qty quantity : Z) (avg_price : f64) (elapsed_secs deadline_secs : Z) : ExecutionVerdict :=
  match status with
  | None => Unknown raw_status
  | Some Traded => Filled traded_qty avg_price
  | Some PartTraded => PartiallyFilled traded_qty (Z.max (i64_saturating_sub quantity traded_qty) 0)
  | Some ((Rejected | Cancelled | Expired | Closed) as status) => Terminal status
  | Some (Transit | Pending | Confirmed | Triggered) =>
      if deadline_secs <=? elapsed_secs then PendingAtLimit elapsed_secs else StillPending elapsed_secs
  end.

(** The wait before probe [attempt], counted from 1. *)
Definition next_verify_backoff_secs (attempt max_attempts : Z) : option Z :=
  if (attempt =? 0) || (max_attempts <? attempt) then None
  else
    let exponent := attempt - 1 in
    let delay := if 4 <=? exponent then VERIFY_BACKOFF_CAP_SECS else Z.shiftl 1 exponent in
    Some (Z.min delay VERIFY_BACKOFF_CAP_SECS).

Example ladder_of_five :
  map (fun n => next_verify_backoff_secs n 5) [0; 1; 2; 3; 4; 5; 6] =
  [None; Some 1; Some 2; Some 4; Some 8; Some 10; None].
Proof. reflexivity. Qed.
Example slices_of_five_thousand : compute_slices 5000 1800 = Ok [1800; 1800; 1400].
Proof. reflexivity. Qed.
Example odd_ids : map is_valid_order_id ["112111182045"; "PAPER-SO-1"; ""; "a/b"; "a b"] = [true; true; false; false; false].
Proof. reflexivity. Qed.

(** * Brackets *)

Lemma f64_not_leb x y : is_nan x = false -> is_nan y = false -> f64_leb x y = false <-> f64_ltb y x = true.
Proof. intros Hx Hy. rewrite f64_ltb_negb by done. by destruct (f64_leb x y). Qed.

Lemma f64_leb_zero_not_nan x : f64_ltb f64_zero x = true -> is_nan x = false.
Proof. by intros []%f64_ltb_not_nan. Qed.

(** The three prices of a LIMIT entry, in the order of its side. *)
Definition prices_in_order (r : PlaceSuperOrderRequest) : Prop :=
  match so_transaction_type r with
  | Buy => f64_ltb f64_zero (so_stop_loss_price r) = true /\
           f64_ltb (so_stop_loss_price r) (so_price r) = true /\
           f64_ltb (so_price r) (so_target_price r) = true
  | Sell => f64_ltb f64_zero (so_target_price r) = true /\
            f64_ltb (so_target_price r) (so_price r) = true /\
            f64_ltb (so_price r) (so_stop_loss_price r) = true
  end.

Record well_formed_bracket (today : Z) (r : PlaceSuperOrderRequest) : Prop := {
  wb_finite : is_finite (so_price r) = true /\ is_finite (so_target_price r) = true /\
    is_finite (so_stop_loss_price r) = true /\ is_finite (so_trailing_jump r) = true;
  wb_type : so_order_type r = Limit \/
    so_order_type r = Market /\ f64_eqb (so_price r) f64_zero = true;
  wb_quantity : 0 < so_quantity r;
  wb_lots : 1 < so_lot_size r -> (so_lot_size r | so_quantity r);
  wb_trail : f64_eqb (so_trailing_jump r) f64_zero = true \/
    f64_ltb f64_zero (so_trailing_jump r) = true /\
    f64_leb (f64_abs (f64_sub (so_price r) (so_stop_loss_price r))) (so_trailing_jump r) = false;
  wb_expiry : match so_expiry_date r with Some d => today <= d | None => True end;
  wb_prices : so_order_type r = Limit -> prices_in_order r }.

Lemma expiry_gate_ok sid d today :
  expiry_gate sid d today = Ok tt <-> match d with Some d => today <= d | None => True end.
Proof. destruct d as [d|]; cbn; [|done]. zcases; split; done || lia. Qed.

Lemma all_finite_ok l : all_finite l = Ok tt <-> Forall (fun p => is_finite p.2 = true) l.
Proof.
  induction l as [|[n v] l IH]; [by split|]. cbn. rewrite Forall_cons. cbn.
  destruct (is_finite v); cbn; [rewrite IH; naive_solver|]. split; [done|by intros []].
Qed.

Lemma all_positive_ok w l : all_positive w l = Ok tt <-> Forall (fun p => positive_price p.2 = true) l.
Proof.
  induction l as [|[n v] l IH]; [by split|]. cbn. rewrite Forall_cons. cbn.
  destruct (positive_price v); cbn; [rewrite IH; naive_solver|]. split; [done|by intros []].
Qed.

Lemma bind_ok {E A B} (m : res E A) (f : A -> res E B) b :
  (m ≫= f) = Ok b <-> exists a, m = Ok a /\ f a = Ok b.
Proof. destruct m; cbn; naive_solver. Qed.

Lemma limit_or_market_spec t : limit_or_market t = true <-> t = Limit \/ t = Market.
Proof. destruct t; cbn; naive_solver. Qed.

(** A trail is either none or positive. *)
Lemma trail_sign x :
  is_finite x = true -> f64_ltb x f64_zero = false ->
  f64_eqb x f64_zero = true \/ f64_ltb f64_zero x = true.
Proof. destruct x as [[]|[]| |[] m e]; cbn; auto; discriminate. Qed.

Lemma trail_positive x : f64_ltb f64_zero x = true -> f64_ltb x f64_zero = false /\ f64_eqb x f64_zero = false.
Proof. destruct x as [[]|[]| |[] m e]; cbn; auto; discriminate. Qed.

Lemma trail_none x : f64_eqb x f64_zero = true -> f64_ltb x f64_zero = false.
Proof. destruct x as [[]|[]| |[] m e]; cbn; auto; discriminate. Qed.

Lemma super_order_prices_ok r :
  is_nan (so_price r) = false -> is_nan (so_target_price r) = false -> is_nan (so_stop_loss_price r) = false ->
  validate_super_order_prices (transaction_type_as_str (so_transaction_type r)) (so_price r)
    (so_target_price r) (so_stop_loss_price r) = Ok tt <->
  prices_in_order r.
Proof.
  intros Hp Ht Hs. unfold validate_super_order_prices, prices_in_order.
  set (p := so_price r) in *. set (t := so_target_price r) in *. set (l := so_stop_loss_price r) in *.
  clearbody p t l.
  assert (Htr : forall x y z, f64_ltb x y = true -> f64_ltb y z = true -> f64_ltb x z = true).
  { intros x y z H1 H2. pose proof (f64_ltb_not_nan _ _ H1) as [Hx Hy].
    pose proof (f64_ltb_not_nan _ _ H2) as [_ Hz]. apply f64_not_leb; [done..|].
    destruct (f64_leb z x) eqn:E; [|done].
    rewrite (f64_ltb_negb x y), negb_true_iff in H1 by done.
    rewrite (f64_leb_trans y z x) in H1; [done|by apply f64_ltb_leb|done]. }
  destruct (f64_leb p f64_zero) eqn:E1; destruct (f64_leb t f64_zero) eqn:E2;
    destruct (f64_leb l f64_zero) eqn:E3; rewrite ?f64_not_leb in * by done;
    destruct (so_transaction_type r); cbn;
    try (split; [done|]; intros (H1 & H2 & H3);
         pose proof (Htr _ _ _ H1 H2) as H4; pose proof (Htr _ _ _ H4 H3) as H5;
         apply f64_not_leb in H1, H4, H5; try done; congruence).
  - destruct (f64_leb t p) eqn:E4; [split; [done|]; intros (_ & _ & H); apply f64_not_leb in H; congruence|].
    destruct (f64_leb p l) eqn:E5; rewrite ?f64_not_leb in * by done; [|naive_solver].
    split; [done|]; intros (_ & H & _); apply f64_not_leb in H; congruence.
  - destruct (f64_leb p t) eqn:E4; [split; [done|]; intros (_ & H & _); apply f64_not_leb in H; congruence|].
    destruct (f64_leb l p) eqn:E5; rewrite ?f64_not_leb in * by done; [|naive_solver].
    split; [done|]; intros (_ & _ & H); apply f64_not_leb in H; congruence.
Qed.

(** What the two checks accept, and no more. *)
Lemma bracket_checks today r :
  (validate_super_order_request today r = Ok tt /\
   (so_order_type r = Limit ->
    validate_super_order_prices (transaction_type_as_str (so_transaction_type r)) (so_price r)
      (so_target_price r) (so_stop_loss_price r) = Ok tt)) <->
  well_formed_bracket today r.
Proof.
  unfold validate_super_order_request. rewrite bind_ok.
  split.
  - intros [([] & Hfin & H) Hp]. apply all_finite_ok in Hfin.
    rewrite !Forall_cons in Hfin. cbn [snd] in Hfin. destruct Hfin as (F1 & F2 & F3 & F4 & _).
    destruct (limit_or_market (so_order_type r)) eqn:Elm; [|done]. cbn [negb] in H.
    apply limit_or_market_spec in Elm.
    destruct (bool_decide _ && _) eqn:Em in H; [done|].
    destruct (Z.leb_spec (so_quantity r) 0); [done|].
    destruct ((1 <? _) && _) eqn:El in H; [done|].
    destruct (f64_ltb (so_trailing_jump r) f64_zero) eqn:Et; [done|].
    destruct (negb _ && _) eqn:Ej in H; [done|]. apply expiry_gate_ok in H.
    constructor; try done.
    + destruct Elm as [?|E]; [by left|right]. split; [done|]. rewrite bool_decide_true in Em by done.
      cbn in Em. by apply negb_false_iff in Em.
    + intros Hl. apply Z.ltb_lt in Hl as Hl'. rewrite Hl' in El. cbn in El.
      apply negb_false_iff, Z.eqb_eq in El. by apply Z.rem_divide; [lia|].
    + destruct (trail_sign _ F4 Et) as [E|E]; [by left|right]. split; [done|].
      rewrite (proj2 (trail_positive _ E)) in Ej. exact Ej.
    + intros E. apply super_order_prices_ok; auto using is_finite_not_nan.
  - intros [(F1 & F2 & F3 & F4) Hty Hq Hl Hj Hd Hp]. split.
    + exists tt. split; [apply all_finite_ok; rewrite !Forall_cons; cbn; auto|].
      assert (limit_or_market (so_order_type r) = true) as ->.
      { apply limit_or_market_spec. naive_solver. }
      assert (bool_decide (so_order_type r = Market) && negb (f64_eqb (so_price r) f64_zero) = false) as ->.
      { destruct Hty as [E|[_ ->]]; [by rewrite E|]. apply andb_false_r. }
      destruct (Z.leb_spec (so_quantity r) 0); [lia|].
      assert ((1 <? so_lot_size r) && negb (Z.rem (so_quantity r) (so_lot_size r) =? 0) = false) as ->.
      { destruct (Z.ltb_spec 1 (so_lot_size r)); [|done]. cbn. apply negb_false_iff, Z.eqb_eq.
        apply Z.rem_divide; [lia|auto]. }
      destruct Hj as [Hj|[Hj Hj']].
      * rewrite (trail_none _ Hj), Hj. cbn [negb andb]. by apply expiry_gate_ok.
      * rewrite (proj1 (trail_positive _ Hj)), Hj', andb_false_r. by apply expiry_gate_ok.
    + intros E. apply super_order_prices_ok; auto using is_finite_not_nan.
Qed.

(** * Slices *)

Lemma sum_replicate n x : foldr Z.add 0 (replicate n x) = Z.of_nat n * x.
Proof. induction n; cbn; lia. Qed.

Lemma sum_app l1 l2 : foldr Z.add 0 (l1 ++ l2) = foldr Z.add 0 l1 + foldr Z.add 0 l2.
Proof. induction l1 as [|x l1 IH]; cbn; lia. Qed.

Lemma sum_bound b l : Forall (fun x => x <= b) l -> foldr Z.add 0 l <= Z.of_nat (length l) * b.
Proof. induction 1; cbn; lia. Qed.

(** What a split into pieces an exchange accepts is. *)
Definition splits (quantity freeze_limit : Z) (l : list Z) : Prop :=
  foldr Z.add 0 l = quantity /\ Forall (fun x => 1 <= x <= freeze_limit) l.

Lemma splits_count q f l : 0 < f -> splits q f l -> q <= Z.of_nat (length l) * f.
Proof.
  intros Hf [<- Hl]. apply sum_bound. eapply Forall_impl; [exact Hl|]. cbn. lia.
Qed.

Lemma splits_nonneg q f l : splits q f l -> Z.of_nat (length l) <= q.
Proof. intros [<- Hl]. induction Hl; cbn; lia. Qed.

Lemma splits_degenerate q f l : splits q f l -> f <= 0 \/ q <= 0 -> l = [].
Proof.
  intros H Hd. pose proof (splits_nonneg _ _ _ H) as Hn. destruct H as [Hs Hl].
  destruct l as [|x l]; [done|]. apply Forall_cons in Hl as [Hx _]. cbn [length] in Hn. lia.
Qed.

Lemma count_minimal q f k (n : Z) :
  0 < f -> 0 < q -> q <= n * f -> k = Z.quot q f + (if 0 <? Z.rem q f then 1 else 0) -> k <= n.
Proof.
  intros Hf Hq Hn ->. pose proof (Z.quot_rem' q f). pose proof (Z.rem_bound_pos q f ltac:(lia) Hf).
  destruct (Z.ltb_spec 0 (Z.rem q f)); nia.
Qed.

(** What a split is, and what a refusal means. *)
Lemma compute_slices_spec q f :
  match compute_slices q f with
  | Ok l => splits q f l /\ (length l <= 1000)%nat /\
            forall l', splits q f l' -> (length l <= length l')%nat
  | Err _ => forall l', splits q f l' -> l' = [] \/ (1000 < length l')%nat
  | Panic => False
  end.
Proof.
  unfold compute_slices. destruct (Z.leb_spec f 0).
  { intros l' H'. left. eapply splits_degenerate; eauto. }
  destruct (Z.leb_spec q 0); [intros l' H'; left; eapply splits_degenerate; eauto|].
  pose proof (Z.quot_rem' q f) as Hqr. pose proof (Z.rem_bound_pos q f ltac:(lia) ltac:(lia)) as Hr.
  assert (Hq0 : 0 <= Z.quot q f) by (apply Z.quot_pos; lia).
  set (k := Z.quot q f + (if 0 <? Z.rem q f then 1 else 0)).
  assert (Hmin : forall l', splits q f l' -> k <= Z.of_nat (length l')).
  { intros l' H'. eapply (count_minimal q f); [lia|lia| |reflexivity]. by apply splits_count. }
  assert (Hk : 0 <= k) by (unfold k; destruct (_ <? _); lia).
  destruct (Z.ltb_spec MAX_ORDER_SLICES (i64_saturating_add (Z.quot q f) (if 0 <? Z.rem q f then 1 else 0))) as [Hc|Hc];
    fold k in Hc; unfold MAX_ORDER_SLICES, i64_saturating_add, clamp in Hc; fold k in Hc.
  { intros l' H'. right. specialize (Hmin l' H'). zints. }
  assert (Hlen : forall r : list Z, r = (if 0 <? Z.rem q f then [Z.rem q f] else []) ->
    Z.of_nat (length (replicate (Z.to_nat (Z.quot q f)) f ++ r)) = k).
  { intros r ->. rewrite length_app, length_replicate. unfold k. destruct (_ <? _); cbn [length]; lia. }
  specialize (Hlen _ eq_refl). split; [split|split].
  - rewrite sum_app, sum_replicate. destruct (Z.ltb_spec 0 (Z.rem q f)); cbn [foldr]; lia.
  - apply Forall_app. split; [apply Forall_replicate; lia|].
    destruct (Z.ltb_spec 0 (Z.rem q f)); repeat constructor; lia.
  - zints.
  - intros l' H'. specialize (Hmin l' H'). lia.
Qed.

(** An order over the freeze limit splits into pieces that add up to its
    quantity, each of one lot or more and none over the limit, in the fewest
    pieces possible and at most a thousand of them; a quantity no such split
    exists for is refused. *)
Theorem slices_are_minimal q f :
  match compute_slices q f with
  | Ok l => splits q f l /\ (length l <= 1000)%nat /\
            forall l', splits q f l' -> (length l <= length l')%nat
  | Err _ => forall l', splits q f l' -> l' = [] \/ (1000 < length l')%nat
  | Panic => False
  end.
Proof. apply compute_slices_spec. Qed.

(** * The ladder of probes *)

(** The waits of a ladder of [max] probes. *)
Definition ladder_waits (max_attempts : Z) : list Z :=
  omap (fun n => next_verify_backoff_secs n max_attempts) (seqZ 1 max_attempts).

Lemma backoff_in_range n m : 1 <= n <= m ->
  exists d, next_verify_backoff_secs n m = Some d /\ 1 <= d <= 10 /\
    (n <= 4 -> d = Z.min 10 (2 ^ (n - 1))) /\ (5 <= n -> d = 10).
Proof.
  intros Hn. unfold next_verify_backoff_secs, VERIFY_BACKOFF_CAP_SECS.
  destruct (Z.eqb_spec n 0); [lia|]. destruct (Z.ltb_spec m n); [lia|]. cbn [orb].
  destruct (Z.leb_spec 4 (n - 1)).
  - exists 10. split; [done|]. split; [lia|]. split; [lia|done].
  - assert (n = 1 \/ n = 2 \/ n = 3 \/ n = 4) as [-> | [-> | [-> | ->]]] by lia; eexists;
      (split; [reflexivity|]); (split; [vm_compute; split; discriminate|]); split; intros; reflexivity || lia.
Qed.

(** The waits of a ladder of m probes, m at least four, are exactly m,
    doubling from one second to eight and ten seconds from then on, so 10 m - 25
    seconds in all; five probes wait 25 seconds. *)
Theorem verify_ladder_waits m :
  4 <= m ->
  length (ladder_waits m) = Z.to_nat m /\
  take 4 (ladder_waits m) = [1; 2; 4; 8] /\
  (forall n, (4 <= n < Z.to_nat m)%nat -> ladder_waits m !! n = Some 10) /\
  foldr Z.add 0 (ladder_waits m) = 10 * m - 25 /\
  (forall n, n <= 0 \/ m < n -> 0 <= n -> next_verify_backoff_secs n m = None).
Proof.
  intros Hm. set (f := fun n => default 0 (next_verify_backoff_secs n m)).
  assert (Hw : ladder_waits m = map f (seqZ 1 m)).
  { unfold ladder_waits. assert (Hr : Forall (fun n => 1 <= n <= m) (seqZ 1 m)).
    { apply Forall_forall. intros n Hn%elem_of_seqZ. lia. }
    induction Hr as [|n l Hn _ IH]; [done|]. cbn. rewrite IH.
    destruct (backoff_in_range n m Hn) as (d & E & _). unfold f. by rewrite E. }
  assert (Hsplit : seqZ 1 m = [1; 2; 3; 4] ++ seqZ 5 (m - 4)).
  { replace m with (4 + (m - 4)) at 1 by lia. rewrite seqZ_app by lia. done. }
  assert (He : forall n, 1 <= n <= 4 -> f n = Z.min 10 (2 ^ (n - 1))).
  { intros n Hn. unfold f. destruct (backoff_in_range n m ltac:(lia)) as (d & -> & _ & Hd & _). cbn. apply Hd. lia. }
  assert (Hl : forall n, 5 <= n <= m -> f n = 10).
  { intros n Hn. unfold f. destruct (backoff_in_range n m ltac:(lia)) as (d & -> & _ & _ & Hd). cbn. apply Hd. lia. }
  assert (Hf : map f [1; 2; 3; 4] = [1; 2; 4; 8]) by (cbn [map]; rewrite !He by lia; reflexivity).
  assert (Hten : map f (seqZ 5 (m - 4)) = replicate (Z.to_nat (m - 4)) 10).
  { apply list_eq. intros i. rewrite list_lookup_fmap.
    destruct (decide (Z.of_nat i < m - 4)).
    - rewrite lookup_seqZ_lt by lia. cbn. rewrite lookup_replicate_2 by lia.
      f_equal. apply Hl. lia.
    - rewrite lookup_seqZ_ge by lia. symmetry. apply lookup_replicate_None. lia. }
  rewrite Hw, Hsplit, map_app, Hf, Hten. split_and!.
  - rewrite length_app, length_replicate. cbn [length]. lia.
  - done.
  - intros n Hn. rewrite lookup_app_r by (cbn; lia). cbn [length]. by rewrite lookup_replicate_2 by lia.
  - rewrite sum_app, sum_replicate. cbn [foldr]. lia.
  - intros n Hn H0. unfold next_verify_backoff_secs. destruct (Z.eqb_spec n 0); [done|].
    destruct (Z.ltb_spec m n); [done|lia].
Qed.

Lemma verify_ladder_waits_witness : foldr Z.add 0 (ladder_waits 5) = 25.
Proof. destruct (verify_ladder_waits 5) as (_ & _ & _ & H & _); [lia|exact H]. Defined.

(** * Ids *)

Lemma id_byte_plain c : id_byte c = true ->
  c <> "/"%char /\ c <> " "%char /\ c <> "?"%char /\ c <> "#"%char /\ c <> "%"%char /\ c <> "."%char.
Proof. intros H. split_and!; intros ->; vm_compute in H; discriminate H. Qed.
