(* ===== verification/OmsExits.v ===== *)
(** The exit orders of the order management system ([oms/engine.rs], from
    [place_super_order] on, with their REST calls in [oms/api_client.rs]):
    three-leg brackets, forever orders, orders over the freeze limit, and the
    probe that follows an execution.

    [ExitOms] is the engine's state with the two registries these operations
    keep, and a ghost log of the requests they send.  An operation is a program
    of the state-and-error monad [M].  A live operation reads its token, the HTTP
    outcome of its one request and two clocks from [ExitLive]; the decodings of
    [serde_json] are arguments. *)
From Stdlib Require Import Ascii.
From coqutil Require Import Datatypes.RecordSettersUsingExistingGetters.
From S2P Require Import Prelude Bytes Float OrderTypes OrderLifecycle Correlations.
From S2P Require Import OrderBudget CircuitBreaker ErrorTaxonomy OrderReadiness ApiClient OmsEngine ExitRules.
Local Open Scope Z_scope.

Definition EXCHANGE_SEGMENT_NSE_FNO : string := "NSE_FNO".
Definition SUPER_ORDER_STATUS_ACCEPTED_UNPARSED_BODY : string := "ACCEPTED_UNPARSED_BODY".

(** * Data *)

Inductive OrderLeg : Type := EntryLeg | TargetLeg | StopLossLeg.

#[global] Instance OrderLeg_eq_dec : EqDecision OrderLeg.
Proof. solve_decision. Defined.

Definition leg_as_str (l : OrderLeg) : string :=
  match l with EntryLeg => "ENTRY_LEG" | TargetLeg => "TARGET_LEG" | StopLossLeg => "STOP_LOSS_LEG" end.

Definition parse_leg_name (leg_name : string) : option OrderLeg :=
  if decide (leg_name = "ENTRY_LEG") then Some EntryLeg
  else if decide (leg_name = "TARGET_LEG") then Some TargetLeg
  else if decide (leg_name = "STOP_LOSS_LEG") then Some StopLossLeg else None.

Record LegState : Type := mkLeg {
  ls_order_id : string;
  ls_status_raw : string;
  ls_price : f64 }.

Record ManagedSuperOrder : Type := mkManagedSuper {
  ms_entry_order_id : string;
  ms_correlation_id : string;
  ms_security_id : Z;
  ms_transaction_type : TransactionType;
  ms_quantity : Z;
  ms_entry_price : f64;
  ms_entry_status_raw : string;
  ms_target : LegState;
  ms_stop_loss : LegState;
  ms_trailing_jump : f64;
  ms_status : OrderStatus;
  ms_modification_count : Z;
  ms_created_at_us : Z;
  ms_updated_at_us : Z }.

Record VerifyState : Type := mkVerify {
  vs_attempts : Z;
  vs_first_probe_us : Z;
  vs_last_verdict_label : string }.

Record SuperOrderLegSnapshot : Type := mkLegSnapshot {
  sn_leg : OrderLeg;
  sn_order_id : string;
  sn_status_raw : string }.

Record SuperOrderPlacement : Type := mkPlacement {
  sp_entry_order_id : string;
  sp_legs : list SuperOrderLegSnapshot }.

(** ** Requests and responses of the broker *)

Record DhanPlaceSuperOrderRequest : Type := mkSuperReq {
  ds_dhan_client_id : string;
  ds_correlation_id : string;
  ds_transaction_type : string;
  ds_exchange_segment : string;
  ds_product_type : string;
  ds_order_type : string;
  ds_security_id : string;
  ds_quantity : Z;
  ds_price : f64;
  ds_target_price : f64;
  ds_stop_loss_price : f64;
  ds_trailing_jump : f64 }.

Record DhanModifySuperOrderRequest : Type := mkModifySuperReq {
  dms_dhan_client_id : string;
  dms_order_id : string;
  dms_leg_name : string;
  dms_order_type : option string;
  dms_quantity : option Z;
  dms_price : option f64;
  dms_target_price : option f64;
  dms_stop_loss_price : option f64;
  dms_trailing_jump : option f64 }.

Record DhanForeverOrderRequest : Type := mkForeverReq {
  df_dhan_client_id : string;
  df_correlation_id : string;
  df_order_flag : string;
  df_transaction_type : string;
  df_exchange_segment : string;
  df_product_type : string;
  df_order_type : string;
  df_validity : string;
  df_security_id : string;
  df_quantity : Z;
  df_disclosed_quantity : Z;
  df_price : f64;
  df_trigger_price : f64;
  df_price1 : option f64;
  df_trigger_price1 : option f64;
  df_quantity1 : option Z }.

Record SuperOrderLegDetail : Type := mkLegDetail {
  ld_order_id : string;
  ld_leg_name : string;
  ld_transaction_type : string;
  ld_remaining_quantity : Z;
  ld_triggered_quantity : Z;
  ld_price : f64;
  ld_order_status : string;
  ld_trailing_jump : f64;
  ld_total_quatity : Z }.

Record DhanSuperOrderResponse : Type := mkSuperResp {
  sr_order_id : string;
  sr_order_status : string;
  sr_correlation_id : string;
  sr_leg_details : list SuperOrderLegDetail;
  sr_filled_qty : Z;
  sr_average_traded_price : f64;
  sr_remaining_quantity : Z;
  sr_security_id : string;
  sr_transaction_type : string;
  sr_exchange_segment : string;
  sr_oms_error_description : string }.

Record DhanForeverOrderResponse : Type := mkForeverResp {
  fr_order_id : string;
  fr_order_status : string }.

Inductive SlicingResponse : Type :=
  | Many (list_of : list DhanPlaceOrderResponse)
  | One (single : DhanPlaceOrderResponse).

(** What leaves the process. *)
Inductive ExitRequest : Type :=
  | PostSuperOrder (body : DhanPlaceSuperOrderRequest)
  | PutSuperOrder (order_id : string) (body : DhanModifySuperOrderRequest)
  | DeleteSuperOrder (order_id : string) (leg : OrderLeg)
  | PostForeverOrder (body : DhanForeverOrderRequest)
  | PostSlicing (body : DhanPlaceOrderRequest)
  | GetSuperOrders
  | GetOrder (order_id : string).

(** * REST replies *)

(** [from_str] of a 2xx body, the error otherwise. *)
Definition json_reply {A} (parse : string -> string + A) (out : HttpOutcome) : OmsError + A :=
  match out with
  | SendFailed err => inl (HttpError err)
  | Responded status body =>
      if negb (check_rate_limit status) then inl DhanRateLimited else
      match body with
      | inl err => inl (HttpError err)
      | inr text =>
          if negb (is_success status) then inl (DhanApiError status text) else
          match parse text with
          | inl err => inl (JsonError err)
          | inr resp => inr resp
          end
      end
  end.

(** [str::trim] leaves nothing: the text is whitespace, in UTF-8. *)
Fixpoint all_whitespace (l : list Z) : bool :=
  match l with
  | [] => true
  | b :: l =>
      if (9 <=? b) && (b <=? 13) || (b =? 32) then all_whitespace l else
      match l with
      | c :: l =>
          if (b =? 194) && ((c =? 133) || (c =? 160)) then all_whitespace l else
          match l with
          | d :: l =>
              if (b =? 225) && (c =? 154) && (d =? 128) ||
                 (b =? 226) && (c =? 128) && ((128 <=? d) && (d <=? 138) || (d =? 168) || (d =? 169) || (d =? 175)) ||
                 (b =? 226) && (c =? 129) && (d =? 159) ||
                 (b =? 227) && (c =? 128) && (d =? 128)
              then all_whitespace l else false
          | [] => false
          end
      | [] => false
      end
  end.

Definition text_bytes (t : string) : list Z :=
  map (fun c => Z.of_N (N_of_ascii c)) (String.list_ascii_of_string t).

Definition synthetic_super_order_response (order_status : string) : DhanSuperOrderResponse :=
  mkSuperResp "" order_status "" [] 0 f64_zero 0 "" "" "" "".

Definition parse_2xx_body_tolerant (parse : string -> string + DhanSuperOrderResponse) (body : string)
    : DhanSuperOrderResponse :=
  if all_whitespace (text_bytes body) then synthetic_super_order_response "ACCEPTED_NO_BODY"
  else match parse body with
       | inr response => response
       | inl _ => synthetic_super_order_response SUPER_ORDER_STATUS_ACCEPTED_UNPARSED_BODY
       end.

(** A 2xx is a success whatever its body. *)
Definition tolerant_reply (parse : string -> string + DhanSuperOrderResponse) (out : HttpOutcome)
    : OmsError + DhanSuperOrderResponse :=
  json_reply (fun text => inr (parse_2xx_body_tolerant parse text)) out.

(** * State and programs *)

Record ExitOms : Type := mkExitOms {
  oms : OrderManagementSystem;
  super_orders : gmap string ManagedSuperOrder;
  verify_states : gmap string VerifyState;
  exit_wire : list ExitRequest }.

Definition with_oms (s : ExitOms) (o : OrderManagementSystem) : ExitOms :=
  mkExitOms o (super_orders s) (verify_states s) (exit_wire s).
Definition with_super_orders (s : ExitOms) (m : gmap string ManagedSuperOrder) : ExitOms :=
  mkExitOms (oms s) m (verify_states s) (exit_wire s).
Definition with_verify_states (s : ExitOms) (m : gmap string VerifyState) : ExitOms :=
  mkExitOms (oms s) (super_orders s) m (exit_wire s).
Definition send (r : ExitRequest) (s : ExitOms) : ExitOms :=
  mkExitOms (oms s) (super_orders s) (verify_states s) (r :: exit_wire s).

Definition M (A : Type) : Type := ExitOms -> res OmsError A * ExitOms.

#[global] Instance M_ret : MRet M := fun A a s => (Ok a, s).
#[global] Instance M_bind : MBind M := fun A B f m s =>
  match m s with
  | (Ok a, s) => f a s
  | (Err e, s) => (Err e, s)
  | (Panic, s) => (Panic, s)
  end.

Definition throw {A} (e : OmsError) : M A := fun s => (Err e, s).
Definition get : M ExitOms := fun s => (Ok s, s).
Definition modify (f : ExitOms -> ExitOms) : M unit := fun s => (Ok tt, f s).
Definition lift {A} (r : res OmsError A) : M A := fun s => (r, s).
Definition in_oms {A} (f : OrderManagementSystem -> res OmsError A * OrderManagementSystem) : M A :=
  fun s => let '(r, o) := f (oms s) in (r, with_oms s o).

(** [self.orders.get_mut(id)] and [self.super_orders.get_mut(id)]. *)
Definition on_order (id : string) (f : ManagedOrder -> ManagedOrder) (s : ExitOms) : ExitOms :=
  with_oms s (update_order (oms s) id f).
Definition on_super (id : string) (f : ManagedSuperOrder -> ManagedSuperOrder) (s : ExitOms) : ExitOms :=
  with_super_orders s (alter f id (super_orders s)).

Record ExitLive : Type := mkExitLive {
  xl_token : option OmsError;
  xl_http : ExitRequest -> HttpOutcome;
  xl_breaker_s : Z;
  xl_done_us : Z }.

(** * Helpers of the operations *)

Definition wire_order_segment (wire_segment : string) (security_id : Z) : res OmsError ExchangeSegment :=
  match resolve_order_segment_str wire_segment security_id with
  | Some seg => Ok seg
  | None => Err (UnknownExchangeSegment security_id)
  end.

Definition check_order_gates (e : Env) : M unit := in_oms (order_gates e).

(** [self.correlations.next_id()]. *)
Definition next_correlation_id (draw : nat -> list Byte.byte) : M string :=
  in_oms (fun o => let '(id, c) := next_id draw (correlations o) in (Ok id, with_correlations o c)).

Definition set_counter (o : OrderManagementSystem) (n : Z) : OrderManagementSystem :=
  mkOms (orders o) (order_no_aliases o) (correlations o) (api_client o) (order_budget o)
    (circuit_breaker o) (client_id o) (total_placed o) (total_updates o) (dry_run o) n (readiness o)
    (halt o) (never_probed_latched o) (stop_all_alert_latched o).

(** The next paper counter, as the digits of an id. *)
Definition next_paper (prefix : string) : M string :=
  in_oms (fun o =>
    let n := u64_saturating_add (paper_order_counter o) 1 in
    (Ok (prefix +:+ digits_loop 20 n ""), set_counter o n)).

(** [correlations.track]. *)
Definition track_order (correlation_id order_id : string) (s : ExitOms) : ExitOms :=
  with_oms s (with_correlations (oms s) (snd (track correlation_id order_id (correlations (oms s))))).

(** [orders.insert] of the record under its id, and the count. *)
Definition insert_order (o : ManagedOrder) (s : ExitOms) : ExitOms :=
  with_oms s (book_order o (correlations (oms s)) (paper_order_counter (oms s)) (oms s)).

Definition insert_super (m : ManagedSuperOrder) (s : ExitOms) : ExitOms :=
  with_super_orders s (<[ms_entry_order_id m := m]> (super_orders s)).

(** One REST call of an exit's live arm: the token, the request, and the
    breaker's account of the outcome. *)
Definition live_exit {A} (lv : ExitLive) (request : ExitRequest) (reply : HttpOutcome -> OmsError + A) : M A :=
  match xl_token lv with
  | Some err => throw err
  | None =>
      _ ← modify (send request);
      match reply (xl_http lv request) with
      | inr resp =>
          _ ← modify (fun s => with_oms s (with_breaker (oms s) (record_success (circuit_breaker (oms s)))));
          mret resp
      | inl DhanRateLimited => throw DhanRateLimited
      | inl err =>
          _ ← modify (fun s => with_oms s (with_breaker (oms s) (record_failure (xl_breaker_s lv) (circuit_breaker (oms s)))));
          throw err
      end
  end.

Definition malformed_id (what : string) : OmsError :=
  DhanApiError 200 (what +:+ " response carried a malformed orderId").

(** * Brackets *)

Definition super_entry (now : Z) (r : PlaceSuperOrderRequest) (segment : ExchangeSegment)
    (order_id correlation_id : string) (status : OrderStatus) : ManagedOrder := {|
  mo_order_id := order_id; mo_correlation_id := correlation_id;
  mo_security_id := so_security_id r; mo_exchange_segment := segment;
  mo_transaction_type := so_transaction_type r; mo_order_type := so_order_type r;
  mo_product_type := so_product_type r; mo_validity := Day;
  mo_quantity := so_quantity r; mo_price := so_price r; mo_trigger_price := f64_zero;
  mo_status := status; mo_traded_qty := 0; mo_avg_traded_price := f64_zero;
  mo_lot_size := so_lot_size r; mo_created_at_us := now; mo_updated_at_us := now;
  mo_needs_reconciliation := false; mo_modification_count := 0 |}.

Definition super_record (now : Z) (r : PlaceSuperOrderRequest) (order_id correlation_id status_raw : string)
    (target stop_loss : LegState) (status : OrderStatus) : ManagedSuperOrder := {|
  ms_entry_order_id := order_id; ms_correlation_id := correlation_id;
  ms_security_id := so_security_id r; ms_transaction_type := so_transaction_type r;
  ms_quantity := so_quantity r; ms_entry_price := so_price r; ms_entry_status_raw := status_raw;
  ms_target := target; ms_stop_loss := stop_loss; ms_trailing_jump := so_trailing_jump r;
  ms_status := status; ms_modification_count := 0; ms_created_at_us := now; ms_updated_at_us := now |}.

Definition super_request (client_id correlation_id : string) (r : PlaceSuperOrderRequest)
    : DhanPlaceSuperOrderRequest := {|
  ds_dhan_client_id := client_id; ds_correlation_id := correlation_id;
  ds_transaction_type := transaction_type_as_str (so_transaction_type r);
  ds_exchange_segment := EXCHANGE_SEGMENT_NSE_FNO;
  ds_product_type := product_type_as_str (so_product_type r);
  ds_order_type := order_type_as_str (so_order_type r);
  ds_security_id := digits_loop 20 (so_security_id r) "";
  ds_quantity := so_quantity r; ds_price := so_price r; ds_target_price := so_target_price r;
  ds_stop_loss_price := so_stop_loss_price r; ds_trailing_jump := so_trailing_jump r |}.

(** The legs of a place response; the entry's is made up when it is not there. *)
Definition response_legs (resp : DhanSuperOrderResponse) : list SuperOrderLegSnapshot :=
  (if existsb (fun l => bool_decide (ld_leg_name l = leg_as_str EntryLeg)) (sr_leg_details resp) then []
   else [mkLegSnapshot EntryLeg (sr_order_id resp) (sr_order_status resp)]) ++
  omap (fun d => leg ← parse_leg_name (ld_leg_name d);
                 Some (mkLegSnapshot leg (ld_order_id d) (ld_order_status d))) (sr_leg_details resp).

Definition response_leg_state (resp : DhanSuperOrderResponse) (wire_name : string) (fallback_price : f64) : LegState :=
  match List.find (fun l => bool_decide (ld_leg_name l = wire_name)) (sr_leg_details resp) with
  | Some l => mkLeg (ld_order_id l) (ld_order_status l)
                (if f64_ltb f64_zero (ld_price l) then ld_price l else fallback_price)
  | None => mkLeg "" "PENDING" fallback_price
  end.

Section exits.
Context (draw : nat -> list Byte.byte).
Context (parse_super : string -> string + DhanSuperOrderResponse).
Context (parse_super_list : string -> string + list DhanSuperOrderResponse).
Context (parse_forever : string -> string + DhanForeverOrderResponse).
Context (parse_slicing : string -> string + SlicingResponse).
Context (parse_order : string -> string + DhanOrderResponse).
Context (error_body : string -> option (option CodeValue)).
Context (parse_placed : string -> string + DhanPlaceOrderResponse).

(** The bracket in both books. *)
Definition track_bracket (correlation_id : string) (entry : ManagedOrder) (managed : ManagedSuperOrder) : M unit :=
  modify (fun s => insert_super managed (insert_order entry (track_order correlation_id (mo_order_id entry) s))).

Definition paper_bracket (e : Env) (r : PlaceSuperOrderRequest) (segment : ExchangeSegment)
    (correlation_id : string) : M SuperOrderPlacement :=
  entry_order_id ← next_paper "PAPER-SO-";
  let entry := super_entry (now_us e) r segment entry_order_id correlation_id Confirmed in
  let target := mkLeg (entry_order_id +:+ "-TGT") "PENDING" (so_target_price r) in
  let stop_loss := mkLeg (entry_order_id +:+ "-SL") "PENDING" (so_stop_loss_price r) in
  let entry_raw := status_as_str (mo_status entry) in
  _ ← track_bracket correlation_id entry
        (super_record (now_us e) r entry_order_id correlation_id entry_raw target stop_loss Confirmed);
  mret (mkPlacement entry_order_id
          [mkLegSnapshot EntryLeg entry_order_id entry_raw;
           mkLegSnapshot TargetLeg (ls_order_id target) (ls_status_raw target);
           mkLegSnapshot StopLossLeg (ls_order_id stop_loss) (ls_status_raw stop_loss)]).

Definition live_bracket (e : Env) (lv : ExitLive) (r : PlaceSuperOrderRequest) (segment : ExchangeSegment)
    (correlation_id : string) : M SuperOrderPlacement :=
  s ← get;
  response ← live_exit lv (PostSuperOrder (super_request (client_id (oms s)) correlation_id r)) (json_reply parse_super);
  if negb (is_valid_order_id (sr_order_id response)) then throw (malformed_id "super order") else
  let entry_order_id := sr_order_id response in
  let initial_status := resolve_initial_status (sr_order_status response) in
  let target := response_leg_state response (leg_as_str TargetLeg) (so_target_price r) in
  let stop_loss := response_leg_state response (leg_as_str StopLossLeg) (so_stop_loss_price r) in
  _ ← track_bracket correlation_id (super_entry (now_us e) r segment entry_order_id correlation_id initial_status)
        (super_record (now_us e) r entry_order_id correlation_id (sr_order_status response) target stop_loss initial_status);
  mret (mkPlacement entry_order_id (response_legs response)).

Definition place_super_order (e : Env) (lv : ExitLive) (r : PlaceSuperOrderRequest) (freeze_limit : Z)
    : M SuperOrderPlacement :=
  _ ← lift (validate_super_order_request (today e) r);
  segment ← lift (wire_order_segment EXCHANGE_SEGMENT_NSE_FNO (so_security_id r));
  _ ← (if decide (so_order_type r = Limit)
       then lift (validate_super_order_prices (transaction_type_as_str (so_transaction_type r)) (so_price r)
                    (so_target_price r) (so_stop_loss_price r))
       else mret tt);
  if requires_slicing (so_quantity r) freeze_limit
  then throw (RiskRejected "super order quantity exceeds freeze limit") else
  _ ← check_order_gates e;
  correlation_id ← next_correlation_id draw;
  s ← get;
  if dry_run (oms s) then paper_bracket e r segment correlation_id
  else live_bracket e lv r segment correlation_id.

(** ** Modification of one leg *)

Definition trailing_ok (x : f64) : res OmsError unit :=
  if is_finite x && f64_leb f64_zero x then mret tt
  else Err (RiskRejected "super order modify trailingJump must be >= 0.0 and finite").

Definition positive_finite (label : string) (x : f64) : res OmsError unit :=
  if positive_price x then mret tt
  else Err (RiskRejected ("super order modify " +:+ label +:+ " must be positive and finite")).

Definition validate_modify_super_fields (m : ModifySuperOrderLeg) : res OmsError unit :=
  match m with
  | MEntry order_type quantity price target_price stop_loss_price trailing_jump =>
      if negb (limit_or_market order_type)
      then Err (RiskRejected "super order entry leg must be LIMIT or MARKET")
      else if quantity <=? 0 then Err (RiskRejected "super order modify quantity must be positive")
      else
        (if decide (order_type = Market)
         then if negb (f64_eqb price f64_zero)
              then Err (RiskRejected "MARKET super order modify must have price=0.0") else mret tt
         else positive_finite "price" price) ≫= fun _ =>
        positive_finite "targetPrice" target_price ≫= fun _ =>
        positive_finite "stopLossPrice" stop_loss_price ≫= fun _ => trailing_ok trailing_jump
  | MTarget target_price => positive_finite "targetPrice" target_price
  | MStopLoss stop_loss_price trailing_jump =>
      positive_finite "stopLossPrice" stop_loss_price ≫= fun _ => trailing_ok trailing_jump
  end.

Definition build_super_modify_request (client_id order_id : string) (m : ModifySuperOrderLeg)
    : DhanModifySuperOrderRequest :=
  match m with
  | MEntry order_type quantity price target_price stop_loss_price trailing_jump =>
      mkModifySuperReq client_id order_id (leg_as_str EntryLeg) (Some (order_type_as_str order_type)) (Some quantity)
        (Some price) (Some target_price) (Some stop_loss_price) (Some trailing_jump)
  | MTarget target_price =>
      mkModifySuperReq client_id order_id (leg_as_str TargetLeg) None None None (Some target_price) None None
  | MStopLoss stop_loss_price trailing_jump =>
      mkModifySuperReq client_id order_id (leg_as_str StopLossLeg) None None None None (Some stop_loss_price)
        (Some trailing_jump)
  end.

Definition apply_super_modify (now : Z) (order_id : string) (m : ModifySuperOrderLeg) (s : ExitOms) : ExitOms :=
  let s := on_super order_id (fun so =>
    let so :=
      match m with
      | MEntry _ quantity price target_price stop_loss_price trailing_jump =>
          { so with ms_quantity := quantity; ms_entry_price := price;
                    ms_target := { ms_target so with ls_price := target_price };
                    ms_stop_loss := { ms_stop_loss so with ls_price := stop_loss_price };
                    ms_trailing_jump := trailing_jump }
      | MTarget target_price => { so with ms_target := { ms_target so with ls_price := target_price } }
      | MStopLoss stop_loss_price trailing_jump =>
          { so with ms_stop_loss := { ms_stop_loss so with ls_price := stop_loss_price };
                    ms_trailing_jump := trailing_jump }
      end in
    { so with ms_modification_count := u32_saturating_add (ms_modification_count so) 1;
              ms_updated_at_us := now }) s in
  match m with
  | MEntry order_type quantity price _ _ _ =>
      on_order order_id (fun o =>
        { o with mo_order_type := order_type; mo_quantity := quantity; mo_price := price;
                 mo_modification_count := u32_saturating_add (mo_modification_count o) 1;
                 mo_updated_at_us := now }) s
  | _ => s
  end.

Definition is_entry_modify (m : ModifySuperOrderLeg) : bool :=
  match m with MEntry _ _ _ _ _ _ => true | _ => false end.

(** The tracked entry order is terminal. *)
Definition tracked_terminal (s : ExitOms) (order_id : string) : bool :=
  match orders (oms s) !! order_id with Some tracked => is_terminal tracked | None => false end.

Definition dead_leg (m : ModifySuperOrderLeg) (so : ManagedSuperOrder) : bool :=
  match m with
  | MTarget _ => negb (exit_leg_modify_allowed (ls_status_raw (ms_target so)))
  | MStopLoss _ _ => negb (exit_leg_modify_allowed (ls_status_raw (ms_stop_loss so)))
  | MEntry _ _ _ _ _ _ => false
  end.

Definition flag_at (now : Z) (o : ManagedOrder) : ManagedOrder :=
  { o with mo_needs_reconciliation := true; mo_updated_at_us := now }.

Definition stamp_super (now : Z) (so : ManagedSuperOrder) : ManagedSuperOrder := { so with ms_updated_at_us := now }.

Definition modify_super_order_leg (e : Env) (lv : ExitLive) (order_id : string) (m : ModifySuperOrderLeg) : M unit :=
  if negb (is_valid_order_id order_id)
  then throw (RiskRejected "super order modify refused: malformed order id") else
  s ← get;
  match super_orders s !! order_id with
  | None => throw (OrderNotFound order_id)
  | Some so =>
      _ ← lift (check_modification_limit (ms_modification_count so) order_id);
      if is_entry_modify m && negb (entry_leg_modify_allowed (ms_entry_status_raw so))
      then throw (RiskRejected "ENTRY_LEG modify refused: entry status is not modifiable")
      else if is_entry_modify m && tracked_terminal s order_id
      then throw (RiskRejected "ENTRY_LEG modify refused: tracked entry status is terminal")
      else if dead_leg m so then throw (RiskRejected "modify refused: leg status is terminal") else
      _ ← lift (validate_modify_super_fields m);
      _ ← check_order_gates e;
      s ← get;
      if dry_run (oms s) then modify (apply_super_modify (now_us e) order_id m) else
      let request := build_super_modify_request (client_id (oms s)) order_id m in
      resp ← live_exit lv (PutSuperOrder order_id request) (tolerant_reply parse_super);
      _ ← modify (apply_super_modify (xl_done_us lv) order_id m);
      if decide (sr_order_status resp = SUPER_ORDER_STATUS_ACCEPTED_UNPARSED_BODY)
      then modify (on_order order_id (flag_at (xl_done_us lv))) else mret tt
  end.

(** ** Cancellation of one leg *)

Definition cancelled_raw : string := status_as_str Cancelled.

Definition apply_super_cancel (now : Z) (order_id : string) (leg : OrderLeg) (s : ExitOms) : ExitOms :=
  let s := on_super order_id (fun so =>
    let so :=
      match leg with
      | EntryLeg =>
          { so with ms_entry_status_raw := cancelled_raw;
                    ms_target := { ms_target so with ls_status_raw := cancelled_raw };
                    ms_stop_loss := { ms_stop_loss so with ls_status_raw := cancelled_raw };
                    ms_status := Cancelled }
      | TargetLeg => { so with ms_target := { ms_target so with ls_status_raw := cancelled_raw } }
      | StopLossLeg => { so with ms_stop_loss := { ms_stop_loss so with ls_status_raw := cancelled_raw } }
      end in
    { so with ms_updated_at_us := now }) s in
  match leg with
  | EntryLeg => on_order order_id (fun o => { o with mo_status := Cancelled; mo_updated_at_us := now }) s
  | _ => s
  end.

(** The tracked entry has filled in part, or has ended. *)
Definition tracked_filled_or_ended (s : ExitOms) (order_id : string) : bool :=
  match orders (oms s) !! order_id with
  | Some tracked => bool_decide (mo_status tracked = PartTraded) || is_terminal tracked
  | None => false
  end.

Definition cancel_super_order_leg (e : Env) (lv : ExitLive) (order_id : string) (leg : OrderLeg) : M unit :=
  if negb (is_valid_order_id order_id)
  then throw (RiskRejected "super order cancel refused: malformed order id") else
  s ← get;
  match super_orders s !! order_id with
  | None => throw (OrderNotFound order_id)
  | Some so =>
      if bool_decide (leg = EntryLeg) && negb (entry_leg_cancel_allowed (ms_entry_status_raw so))
      then throw (RiskRejected "ENTRY_LEG cancel refused: post-fill entry cancel is never exercised")
      else if bool_decide (leg = EntryLeg) && tracked_filled_or_ended s order_id
      then throw (RiskRejected "ENTRY_LEG cancel refused: tracked entry already filled or terminal") else
      _ ← check_order_gates e;
      s ← get;
      if dry_run (oms s) then modify (apply_super_cancel (now_us e) order_id leg) else
      _ ← live_exit lv (DeleteSuperOrder order_id leg) (tolerant_reply parse_super);
      match leg with
      | EntryLeg =>
          modify (fun s => on_super order_id (stamp_super (xl_done_us lv))
                             (on_order order_id (flag_at (xl_done_us lv)) s))
      | TargetLeg | StopLossLeg => modify (apply_super_cancel (xl_done_us lv) order_id leg)
      end
  end.

(** * Forever orders *)

Definition forever_order (now : Z) (r : PlaceForeverOcoRequest) (segment : ExchangeSegment)
    (order_id correlation_id : string) (status : OrderStatus) : ManagedOrder := {|
  mo_order_id := order_id; mo_correlation_id := correlation_id;
  mo_security_id := fo_security_id r; mo_exchange_segment := segment;
  mo_transaction_type := fo_transaction_type r; mo_order_type := fo_order_type r;
  mo_product_type := fo_product_type r; mo_validity := fo_validity r;
  mo_quantity := fo_quantity r; mo_price := fo_price r; mo_trigger_price := fo_trigger_price r;
  mo_status := status; mo_traded_qty := 0; mo_avg_traded_price := f64_zero; mo_lot_size := 0;
  mo_created_at_us := now; mo_updated_at_us := now;
  mo_needs_reconciliation := false; mo_modification_count := 0 |}.

Definition build_forever_request (client_id correlation_id : string) (r : PlaceForeverOcoRequest)
    : DhanForeverOrderRequest := {|
  df_dhan_client_id := client_id; df_correlation_id := correlation_id;
  df_order_flag := if fo_oco_leg r is Some _ then "OCO" else "SINGLE";
  df_transaction_type := transaction_type_as_str (fo_transaction_type r);
  df_exchange_segment := EXCHANGE_SEGMENT_NSE_FNO;
  df_product_type := product_type_as_str (fo_product_type r);
  df_order_type := order_type_as_str (fo_order_type r);
  df_validity := validity_as_str (fo_validity r);
  df_security_id := digits_loop 20 (fo_security_id r) "";
  df_quantity := fo_quantity r; df_disclosed_quantity := 0;
  df_price := fo_price r; df_trigger_price := fo_trigger_price r;
  df_price1 := oco_price <$> fo_oco_leg r; df_trigger_price1 := oco_trigger_price <$> fo_oco_leg r;
  df_quantity1 := oco_quantity <$> fo_oco_leg r |}.

Definition track_single (correlation_id : string) (o : ManagedOrder) : M unit :=
  modify (fun s => insert_order o (track_order correlation_id (mo_order_id o) s)).

Definition place_forever_oco (e : Env) (lv : ExitLive) (r : PlaceForeverOcoRequest) : M string :=
  _ ← lift (validate_forever_oco (today e) r);
  segment ← lift (wire_order_segment EXCHANGE_SEGMENT_NSE_FNO (fo_security_id r));
  _ ← check_order_gates e;
  correlation_id ← next_correlation_id draw;
  s ← get;
  if dry_run (oms s) then
    paper_order_id ← next_paper "PAPER-FO-";
    _ ← track_single correlation_id (forever_order (now_us e) r segment paper_order_id correlation_id Triggered);
    mret paper_order_id
  else
    response ← live_exit lv (PostForeverOrder (build_forever_request (client_id (oms s)) correlation_id r))
                 (json_reply parse_forever);
    if negb (is_valid_order_id (fr_order_id response)) then throw (malformed_id "forever/OCO") else
    _ ← track_single correlation_id
          (forever_order (now_us e) r segment (fr_order_id response) correlation_id
             (resolve_initial_status (fr_order_status response)));
    mret (fr_order_id response).

(** * Orders over the freeze limit *)

Definition slice_order (now : Z) (r : PlaceOrderRequest) (order_id correlation_id : string) (quantity : Z)
    (status : OrderStatus) (needs_reconciliation : bool) : ManagedOrder := {|
  mo_order_id := order_id; mo_correlation_id := correlation_id;
  mo_security_id := pr_security_id r; mo_exchange_segment := pr_exchange_segment r;
  mo_transaction_type := pr_transaction_type r; mo_order_type := pr_order_type r;
  mo_product_type := pr_product_type r; mo_validity := pr_validity r;
  mo_quantity := quantity; mo_price := pr_price r; mo_trigger_price := pr_trigger_price r;
  mo_status := status; mo_traded_qty := 0; mo_avg_traded_price := f64_zero;
  mo_lot_size := pr_lot_size r; mo_created_at_us := now; mo_updated_at_us := now;
  mo_needs_reconciliation := needs_reconciliation; mo_modification_count := 0 |}.

(** One paper order per slice. *)
Fixpoint paper_slices (now : Z) (r : PlaceOrderRequest) (correlation_id : string) (slices : list Z)
    : M (list string) :=
  match slices with
  | [] => mret []
  | q :: slices =>
      id ← next_paper "PAPER-";
      _ ← modify (insert_order (slice_order now r id correlation_id q Confirmed false));
      ids ← paper_slices now r correlation_id slices;
      mret (id :: ids)
  end.

Definition track_first (correlation_id : string) (ids : list string) : M unit :=
  match ids with
  | first :: _ => modify (track_order correlation_id first)
  | [] => mret tt
  end.

(** The quantity booked to row [idx] of a slicing response of [returned] rows. *)
Definition slice_quantity (total : Z) (slices : list Z) (returned idx : nat) : Z :=
  if decide (returned = length slices) then default 0 (slices !! idx)
  else if decide (returned = 1%nat) then total else 0.

Fixpoint live_slices (now : Z) (r : PlaceOrderRequest) (correlation_id : string) (slices : list Z)
    (returned idx : nat) (rows : list DhanPlaceOrderResponse) : M (list string) :=
  match rows with
  | [] => mret []
  | row :: rows =>
      _ ← modify (insert_order (slice_order now r (dpr_order_id row) correlation_id
                                  (slice_quantity (pr_quantity r) slices returned idx)
                                  (resolve_initial_status (dpr_order_status row)) true));
      ids ← live_slices now r correlation_id slices returned (S idx) rows;
      mret (dpr_order_id row :: ids)
  end.

Definition place_order_sliced (e : Env) (plv : Live DhanPlaceOrderRequest) (lv : ExitLive) (r : PlaceOrderRequest)
    (freeze_limit : Z) : M (list string) :=
  if negb (requires_slicing (pr_quantity r) freeze_limit) then
    order_id ← in_oms (OmsEngine.place_order draw error_body parse_placed e plv r);
    mret [order_id]
  else
    _ ← lift (validate_order_fields (today e) r);
    slices ← lift (compute_slices (pr_quantity r) freeze_limit);
    _ ← check_order_gates e;
    correlation_id ← next_correlation_id draw;
    s ← get;
    if dry_run (oms s) then
      ids ← paper_slices (now_us e) r correlation_id slices;
      _ ← track_first correlation_id ids;
      mret ids
    else
      response ← live_exit lv (PostSlicing (place_request (oms s) r correlation_id)) (json_reply parse_slicing);
      let responses := match response with Many l => l | One single => [single] end in
      match responses with
      | [] => throw (DhanApiError 200 "slicing response contained zero order ids")
      | _ =>
          let responses := take (Z.to_nat MAX_ORDER_SLICES) responses in
          if existsb (fun row => negb (is_valid_order_id (dpr_order_id row))) responses
          then throw (malformed_id "slicing") else
          ids ← live_slices (now_us e) r correlation_id slices (length responses) 0 responses;
          _ ← track_first correlation_id ids;
          mret ids
      end.

(** * The probe after an execution *)

Definition verdict_label (v : ExecutionVerdict) : string :=
  match v with
  | Filled _ _ => "filled"
  | PartiallyFilled _ _ => "partially_filled"
  | StillPending _ => "pending"
  | PendingAtLimit _ => "pending_at_limit"
  | Terminal _ => "terminal"
  | SimulatedFilled => "simulated_filled"
  | Unknown _ => "unknown"
  end.

Definition record_verify_probe (now : Z) (order_id label : string) (s : ExitOms) : ExitOms :=
  let state := default (mkVerify 0 now label) (verify_states s !! order_id) in
  with_verify_states s
    (<[order_id := mkVerify (u32_saturating_add (vs_attempts state) 1) (vs_first_probe_us state) label]>
       (verify_states s)).

(** Each row of a super-order list, onto the bracket it names. *)
Definition refresh_leg (so : ManagedSuperOrder) (detail : SuperOrderLegDetail) : ManagedSuperOrder :=
  let refresh (leg : LegState) :=
    {| ls_order_id := if decide (ld_order_id detail = "") then ls_order_id leg else ld_order_id detail;
       ls_status_raw := ld_order_status detail;
       ls_price := if f64_ltb f64_zero (ld_price detail) then ld_price detail else ls_price leg |} in
  match parse_leg_name (ld_leg_name detail) with
  | Some TargetLeg => { so with ms_target ::= refresh }
  | Some StopLossLeg => { so with ms_stop_loss ::= refresh }
  | _ => so
  end.

Definition refresh_super (now : Z) (resp : DhanSuperOrderResponse) (so : ManagedSuperOrder) : ManagedSuperOrder :=
  let entry := List.find (fun l => bool_decide (ld_leg_name l = leg_as_str EntryLeg)) (sr_leg_details resp) in
  let so := { so with
    ms_entry_status_raw := match entry with Some l => ld_order_status l | None => sr_order_status resp end;
    ms_status := resolve_initial_status (sr_order_status resp) } in
  { foldl refresh_leg so (sr_leg_details resp) with ms_updated_at_us := now }.

Definition refresh_super_registry (now : Z) (list_of : list DhanSuperOrderResponse) (s : ExitOms) : ExitOms :=
  with_super_orders s
    (foldl (fun m resp => alter (refresh_super now resp) (sr_order_id resp) m) (super_orders s) list_of).

(** The verdict's effect on the tracked order. *)
Definition verdict_on_order (now : Z) (verdict : ExecutionVerdict) (elapsed deadline : Z) (o : ManagedOrder)
    : ManagedOrder :=
  match verdict with
  | Filled traded_qty avg_price =>
      let o := { o with mo_traded_qty := traded_qty; mo_avg_traded_price := avg_price } in
      let o :=
        if decide (mo_status o = Traded) then o
        else if is_valid_transition (mo_status o) Traded then { o with mo_status := Traded }
        else { o with mo_needs_reconciliation := true } in
      { o with mo_updated_at_us := now }
  | PartiallyFilled traded_qty _ =>
      let o := { o with mo_traded_qty := traded_qty } in
      let o :=
        if bool_decide (mo_status o <> PartTraded) && is_valid_transition (mo_status o) PartTraded
        then { o with mo_status := PartTraded } else o in
      let o := { o with mo_updated_at_us := now } in
      if deadline <=? elapsed then { o with mo_needs_reconciliation := true } else o
  | PendingAtLimit _ => flag_at now o
  | Unknown raw_status =>
      if bool_decide (raw_status = VERIFY_RAW_NOT_IN_SUPER_LIST) && (elapsed <? deadline) then o else flag_at now o
  | Terminal status =>
      let o :=
        if decide (mo_status o = status) then o
        else if is_valid_transition (mo_status o) status then { o with mo_status := status }
        else if bool_decide (status = Closed) && is_terminal o then o
        else { o with mo_needs_reconciliation := true } in
      { o with mo_updated_at_us := now }
  | StillPending _ | SimulatedFilled => o
  end.

Definition apply_verify_verdict (now : Z) (order_id : string) (verdict : ExecutionVerdict) (elapsed deadline : Z)
    (s : ExitOms) : ExitOms :=
  record_verify_probe now order_id (verdict_label verdict)
    (on_order order_id (verdict_on_order now verdict elapsed deadline) s).

(** The token and the request of a probe; the breaker is not told. *)
Definition probe_exit {A} (lv : ExitLive) (request : ExitRequest) (reply : HttpOutcome -> OmsError + A)
    : M (OmsError + A) :=
  match xl_token lv with
  | Some err => throw err
  | None => _ ← modify (send request); mret (reply (xl_http lv request))
  end.

Definition UNPARSABLE_RESPONSE_BODY : string := "UNPARSABLE_RESPONSE_BODY".

Definition super_verdict (now : Z) (order_id : string) (elapsed deadline : Z)
    (r : OmsError + list DhanSuperOrderResponse) : M ExecutionVerdict :=
  match r with
  | inr rows =>
      _ ← modify (refresh_super_registry now rows);
      s ← get;
      mret match last (List.filter (fun row => bool_decide (sr_order_id row = order_id)) rows) with
           | Some resp =>
               classify_mpp_verdict (parse_order_status (sr_order_status resp)) (sr_order_status resp)
                 (sr_filled_qty resp) (from_option ms_quantity 0 (super_orders s !! order_id))
                 (sr_average_traded_price resp) elapsed deadline
           | None => Unknown VERIFY_RAW_NOT_IN_SUPER_LIST
           end
  | inl (JsonError _) => mret (Unknown UNPARSABLE_RESPONSE_BODY)
  | inl err => throw err
  end.

Definition plain_verdict (order_id : string) (elapsed deadline : Z) (r : OmsError + DhanOrderResponse)
    : M ExecutionVerdict :=
  match r with
  | inr resp =>
      s ← get;
      mret (classify_mpp_verdict (parse_order_status (dor_order_status resp)) (dor_order_status resp)
              (Z.max (dor_filled_qty resp) (dor_traded_quantity resp))
              (from_option mo_quantity (dor_quantity resp) (orders (oms s) !! order_id))
              (if f64_ltb f64_zero (dor_average_traded_price resp) then dor_average_traded_price resp
               else dor_traded_price resp)
              elapsed deadline)
  | inl (JsonError _) => mret (Unknown UNPARSABLE_RESPONSE_BODY)
  | inl err => throw err
  end.

(** The shared budget and limiter, and not the breaker. *)
Definition probe_gates (e : Env) : M unit :=
  in_oms (fun o =>
    match check_order_book_capacity o with
    | Ok _ =>
        let '(r, b) := try_consume (order_budget o) (now_s e) in
        let o := with_budget o b in
        match r with
        | Ok _ => (if per_second_ok e then Ok tt else Err RateLimited, o)
        | Err err => (Err err, o)
        | Panic => (Panic, o)
        end
    | Err err => (Err err, o)
    | Panic => (Panic, o)
    end).

Definition verify_order_execution (e : Env) (lv : ExitLive) (order_id : string) (elapsed deadline : Z)
    : M ExecutionVerdict :=
  if negb (is_valid_order_id order_id) then throw (OrderNotFound "<malformed-order-id>") else
  s ← get;
  let is_super := bool_decide (is_Some (super_orders s !! order_id)) in
  if negb is_super && bool_decide (orders (oms s) !! order_id = None) then throw (OrderNotFound order_id) else
  _ ← probe_gates e;
  s ← get;
  if dry_run (oms s) then
    _ ← modify (record_verify_probe (now_us e) order_id (verdict_label SimulatedFilled));
    mret SimulatedFilled
  else
    verdict ← (if is_super then
                 r ← probe_exit lv GetSuperOrders (json_reply parse_super_list);
                 super_verdict (xl_done_us lv) order_id elapsed deadline r
               else
                 r ← probe_exit lv (GetOrder order_id) (json_reply parse_order);
                 plain_verdict order_id elapsed deadline r);
    _ ← modify (apply_verify_verdict (xl_done_us lv) order_id verdict elapsed deadline);
    mret verdict.

(** [reset_daily], the registries included. *)
Definition reset_exits (s : ExitOms) : ExitOms := mkExitOms (reset_daily draw (oms s)) ∅ ∅ (exit_wire s).
End exits.
