(* ===== verification/ExitSafety.v ===== *)
(** What the exit orders do to the books and to the broker. *)
From S2P Require Import Prelude Bytes Float OrderTypes OrderLifecycle Correlations.
From S2P Require Import OrderBudget CircuitBreaker ErrorTaxonomy OrderReadiness ApiClient OmsEngine ExitRules OmsExits.
Local Open Scope Z_scope.

(** The monad's equations, and a step of a program by them. *)
Lemma bindM {A B} (m : M A) (f : A -> M B) s :
  (m ≫= f) s = match m s with
               | (Ok a, s) => f a s
               | (Err e, s) => (Err e, s)
               | (Panic, s) => (Panic, s)
               end.
Proof. reflexivity. Qed.
Lemma retM {A} (a : A) s : (mret a : M A) s = (Ok a, s).
Proof. reflexivity. Qed.

Ltac step :=
  repeat (progress (rewrite ?bindM, ?retM; cbn [throw get OmsExits.modify lift fst snd])).

(** [get_mut] of a key that is there. *)
Lemma alter_some {A} (m : gmap string A) k x f : m !! k = Some x -> alter f k m = <[k := f x]> m.
Proof. intros H. rewrite <- (insert_id m k x) at 1 by done. apply alter_insert_eq. Qed.

(** * Frames *)

(** Nothing tracked has moved. *)
Definition books_same (s s' : ExitOms) : Prop :=
  orders (oms s') = orders (oms s) /\ super_orders s' = super_orders s /\
  verify_states s' = verify_states s.

(** The four gates an exit mutation passes. *)
Definition exit_gates (e : Env) (o : OrderManagementSystem) : Prop :=
  Z.of_nat (size (orders o)) < MAX_TRACKED_ORDERS /\
  fst (try_consume (order_budget o) (now_s e)) = Ok tt /\ per_second_ok e = true /\
  fst (check (now_breaker e) (now_breaker e) (circuit_breaker o)) = true.

(** The state between the gates and the send. *)
Definition gated (s s' : ExitOms) : Prop :=
  books_same s s' /\ exit_wire s' = exit_wire s /\ dry_run (oms s') = dry_run (oms s) /\
  client_id (oms s') = client_id (oms s) /\ wire (api_client (oms s')) = wire (api_client (oms s)) /\
  paper_order_counter (oms s') = paper_order_counter (oms s).

Lemma gate_frame_refl s : gated s s.
Proof. unfold gated, books_same. split_and!; done. Qed.

Lemma gate_frame_trans s1 s2 s3 : gated s1 s2 -> gated s2 s3 -> gated s1 s3.
Proof.
  intros ((A1 & A2 & A3) & A4 & A5 & A6 & A7 & A8) ((B1 & B2 & B3) & B4 & B5 & B6 & B7 & B8).
  unfold gated, books_same. split_and!; congruence.
Qed.

Lemma check_order_gates_ok e s :
  let '(r, s') := check_order_gates e s in
  gated s s' /\ is_Panic r = false /\ (is_Ok r -> exit_gates e (oms s)).
Proof.
  unfold check_order_gates, in_oms. pose proof (order_gates_frame e (oms s)) as H.
  destruct (order_gates e (oms s)) as [r o]. destruct H as ((E1 & _ & _ & E4 & E5 & _ & E7) & Ec & _ & _ & Hp & Hok).
  split_and!; [|done|exact Hok]. unfold gated, books_same. cbn. rewrite Ec. split_and!; done.
Qed.

Lemma next_correlation_id_ok draw s :
  exists id s', next_correlation_id draw s = (Ok id, s') /\ gated s s'.
Proof.
  unfold next_correlation_id, in_oms. destruct (next_id draw (correlations (oms s))) as [id c].
  exists id. eexists. split; [reflexivity|]. unfold gated, books_same. cbn. split_and!; done.
Qed.

(** The prologue of every placement. *)
Lemma prologue {A} draw e (k : string -> ExitOms -> M A) s :
  let '(r, s') := (_ ← check_order_gates e; cid ← next_correlation_id draw; s ← get; k cid s) s in
  (exists err, r = Err err /\ gated s s') \/
  (exists cid s1, gated s s1 /\ exit_gates e (oms s) /\ (r, s') = k cid s1 s1).
Proof.
  step. pose proof (check_order_gates_ok e s) as H. destruct (check_order_gates e s) as [r1 s1].
  destruct H as (G1 & Hp & Hok). destruct r1 as [[]|err|]; [|step; left; by exists err|done].
  step. destruct (next_correlation_id_ok draw s1) as (cid & s2 & -> & G2). step.
  destruct (k cid s2 s2) as [r s'] eqn:E. right. exists cid, s2.
  split; [by eapply gate_frame_trans|]. split; [apply Hok; by eexists|]. by rewrite E.
Qed.

(** A live call sends its one request, or nothing without a token; it answers
    with the reply to it. *)
Lemma live_exit_ok {A} lv req (reply : HttpOutcome -> OmsError + A) s :
  let '(r, s') := live_exit lv req reply s in
  books_same s s' /\ dry_run (oms s') = dry_run (oms s) /\
  wire (api_client (oms s')) = wire (api_client (oms s)) /\ is_Panic r = false /\
  exit_wire s' = (if xl_token lv is Some _ then [] else [req]) ++ exit_wire s /\
  (forall a, r = Ok a -> xl_token lv = None /\ reply (xl_http lv req) = inr a).
Proof.
  unfold live_exit. destruct (xl_token lv) as [err|]; step.
  { unfold books_same. split_and!; done. }
  destruct (reply (xl_http lv req)) as [[]|a] eqn:Er; step; cbn;
    (split; [unfold books_same; split_and!; done|]; split_and!; try done; intros ? [= <-]; done).
Qed.

Lemma track_bracket_ok cid entry managed s :
  exists s', track_bracket cid entry managed s = (Ok tt, s') /\
    orders (oms s') = <[mo_order_id entry := entry]> (orders (oms s)) /\
    super_orders s' = <[ms_entry_order_id managed := managed]> (super_orders s) /\
    verify_states s' = verify_states s /\ exit_wire s' = exit_wire s.
Proof. eexists. split; [reflexivity|]. split_and!; reflexivity. Qed.

Lemma next_paper_ok prefix s :
  exists s', next_paper prefix s =
      (Ok (prefix +:+ digits_loop 20 (u64_saturating_add (paper_order_counter (oms s)) 1) ""), s') /\
    books_same s s' /\ exit_wire s' = exit_wire s /\ dry_run (oms s') = dry_run (oms s) /\
    paper_order_counter (oms s') = u64_saturating_add (paper_order_counter (oms s)) 1.
Proof. eexists. split; [reflexivity|]. unfold books_same. split_and!; reflexivity. Qed.

Section properties.
Context (draw : nat -> list Byte.byte).
Context (parse_super : string -> string + DhanSuperOrderResponse).
Context (parse_super_list : string -> string + list DhanSuperOrderResponse).
Context (parse_forever : string -> string + DhanForeverOrderResponse).
Context (parse_slicing : string -> string + SlicingResponse).
Context (parse_order : string -> string + DhanOrderResponse).
Context (error_body : string -> option (option CodeValue)).
Context (parse_placed : string -> string + DhanPlaceOrderResponse).

Abbreviation bracket := (place_super_order draw parse_super).
Abbreviation tighten := (modify_super_order_leg parse_super).
Abbreviation cancel_leg := (cancel_super_order_leg parse_super).
Abbreviation forever := (place_forever_oco draw parse_forever).
Abbreviation sliced := (place_order_sliced draw parse_slicing error_body parse_placed).
Abbreviation verify := (verify_order_execution parse_super_list parse_order).

(** * Brackets *)

(** A placed bracket is in both books under one id, unfilled and of the
    requested quantity, and nothing else moved. *)
Definition bracket_booked (r : PlaceSuperOrderRequest) (id : string) (s s' : ExitOms) : Prop :=
  exists o so,
    orders (oms s') = <[id := o]> (orders (oms s)) /\
    super_orders s' = <[id := so]> (super_orders s) /\
    mo_order_id o = id /\ mo_security_id o = so_security_id r /\ mo_exchange_segment o = NseFno /\
    mo_transaction_type o = so_transaction_type r /\
    mo_quantity o = so_quantity r /\ mo_traded_qty o = 0 /\ ms_quantity so = so_quantity r /\
    ms_trailing_jump so = so_trailing_jump r /\ ms_correlation_id so = mo_correlation_id o /\
    ms_status so = mo_status o.

Lemma paper_bracket_ok e r cid s :
  let '(res, s') := paper_bracket e r NseFno cid s in
  exit_wire s' = exit_wire s /\ exists p, res = Ok p /\ bracket_booked r (sp_entry_order_id p) s s'.
Proof.
  unfold paper_bracket. step. destruct (next_paper_ok "PAPER-SO-" s) as (s1 & -> & (E1 & E2 & _) & Ew & _).
  step. set (id := _ +:+ _). clearbody id.
  match goal with |- context [track_bracket ?c ?o ?m s1] =>
    destruct (track_bracket_ok c o m s1) as (s2 & -> & F1 & F2 & _ & F4) end.
  step. split; [congruence|]. eexists. split; [reflexivity|]. cbn [sp_entry_order_id mo_order_id super_entry ms_entry_order_id super_record] in *.
  eexists _, _. rewrite F1, F2, E1, E2. split_and!; reflexivity.
Qed.

Lemma live_bracket_ok e lv r cid s :
  let '(res, s') := live_bracket parse_super e lv r NseFno cid s in
  is_Panic res = false /\
  exit_wire s' = (if xl_token lv is Some _ then []
                  else [PostSuperOrder (super_request (client_id (oms s)) cid r)]) ++ exit_wire s /\
  match res with
  | Ok p => is_valid_order_id (sp_entry_order_id p) = true /\ bracket_booked r (sp_entry_order_id p) s s'
  | _ => books_same s s'
  end.
Proof.
  unfold live_bracket. step.
  pose proof (live_exit_ok lv (PostSuperOrder (super_request (client_id (oms s)) cid r)) (json_reply parse_super) s) as H.
  destruct (live_exit _ _ _ s) as [res s1]. destruct H as (B & _ & _ & Hp & Hw & _).
  destruct res as [resp|err|]; [|by split_and!|done].
  destruct (is_valid_order_id (sr_order_id resp)) eqn:Hid; cbn [negb]; step; [|by split_and!].
  match goal with |- context [track_bracket ?c ?o ?m s1] =>
    destruct (track_bracket_ok c o m s1) as (s2 & -> & F1 & F2 & _ & F4) end.
  step. destruct B as (B1 & B2 & _). rewrite F4. split_and!; try done.
  cbn [sp_entry_order_id mo_order_id super_entry ms_entry_order_id super_record] in *.
  eexists _, _. rewrite F1, F2, B1, B2. split_and!; reflexivity.
Qed.

(** The checks of a bracket before its gates. *)
Definition bracket_checked (today : Z) (r : PlaceSuperOrderRequest) : res OmsError unit :=
  validate_super_order_request today r ≫= fun _ =>
  if decide (so_order_type r = Limit)
  then validate_super_order_prices (transaction_type_as_str (so_transaction_type r)) (so_price r)
         (so_target_price r) (so_stop_loss_price r)
  else mret tt.

Lemma bracket_prologue e lv r fl s :
  bracket e lv r fl s =
    match bracket_checked (today e) r with
    | Ok _ =>
        if requires_slicing (so_quantity r) fl
        then (Err (RiskRejected "super order quantity exceeds freeze limit"), s)
        else (_ ← check_order_gates e; cid ← next_correlation_id draw; s ← get;
              if dry_run (oms s) then paper_bracket e r NseFno cid else live_bracket parse_super e lv r NseFno cid) s
    | Err err => (Err err, s)
    | Panic => (Panic, s)
    end.
Proof.
  unfold place_super_order, bracket_checked. step. destruct (validate_super_order_request _ r) as [[]|err|]; [|done..].
  change (wire_order_segment EXCHANGE_SEGMENT_NSE_FNO (so_security_id r)) with (Ok (E:=OmsError) NseFno).
  cbn [mbind res_bind]. step. case_decide; step.
  - destruct (validate_super_order_prices _ _ _ _) as [[]|err|]; [|done..]. by destruct (requires_slicing _ _).
  - by destruct (requires_slicing _ _).
Qed.

Lemma bracket_checked_ok today r : bracket_checked today r = Ok tt <-> well_formed_bracket today r.
Proof.
  unfold bracket_checked. rewrite <- bracket_checks, bind_ok. split.
  - intros ([] & Hv & H). split; [done|]. intros E. by rewrite decide_True in H.
  - intros [Hv H]. exists tt. split; [done|]. case_decide; auto.
Qed.

Lemma bind_no_panic {A B} (m : res OmsError A) (f : A -> res OmsError B) :
  is_Panic m = false -> (forall a, is_Panic (f a) = false) -> is_Panic (m ≫= f) = false.
Proof. destruct m; cbn; auto. Qed.

Ltac no_panic := repeat match goal with |- is_Panic (if ?b then _ else _) = false => destruct b; [done|] end.

Lemma bracket_checked_no_panic today r : is_Panic (bracket_checked today r) = false.
Proof.
  apply bind_no_panic; [|intros _; case_decide; [|done]].
  - apply bind_no_panic; [cbn [all_finite]; no_panic; done|]. intros _. no_panic.
    unfold expiry_gate. destruct (so_expiry_date r); no_panic; done.
  - unfold validate_super_order_prices. no_panic. repeat case_decide; no_panic; done.
Qed.

(** C20: Placing a bracket never panics and sends at most one request; it
    sends it only in live mode, through open gates, for a bracket within the
    freeze limit that is well formed: finite prices, a limit entry with its prices
    in the order of its side or a market entry at price 0 (whose target and stop
    are not ordered), a positive quantity in whole lots, a trailing jump below the
    distance to the stop, an expiry not past. On success the bracket is in the
    order book and in the registry under one id, unfilled and of the requested
    quantity; on an error both books are as they were. *)
Theorem brackets_are_gated e lv r fl s :
  let '(res, s') := bracket e lv r fl s in
  is_Panic res = false /\
  (exit_wire s' = exit_wire s \/
   (exists cid, exit_wire s' = PostSuperOrder (super_request (client_id (oms s)) cid r) :: exit_wire s) /\
   dry_run (oms s) = false /\ exit_gates e (oms s) /\ well_formed_bracket (today e) r /\ so_quantity r <= fl) /\
  match res with
  | Ok p => bracket_booked r (sp_entry_order_id p) s s'
  | _ => books_same s s'
  end.
Proof.
  rewrite bracket_prologue. pose proof (bracket_checked_no_panic (today e) r) as Hnp.
  destruct (bracket_checked (today e) r) as [[]|err|] eqn:Hv; [|by repeat split; left|done].
  apply bracket_checked_ok in Hv. unfold requires_slicing.
  destruct (Z.ltb_spec fl (so_quantity r)); [by repeat split; left|].
  pose proof (prologue draw e (fun cid s => if dry_run (oms s) then paper_bracket e r NseFno cid
    else live_bracket parse_super e lv r NseFno cid) s) as Hpro.
  cbv beta in Hpro. match type of Hpro with (let '(_, _) := ?t in _) => destruct t as [res s'] end.
  destruct Hpro as [(err & -> & (B & Ew & _))|(cid & s1 & (B & Ew & Ed & Eid & _) & Hg & E)]; [by auto|].
  pose proof B as (B1 & B2 & _). destruct (dry_run (oms s1)) eqn:Hd.
  - pose proof (paper_bracket_ok e r cid s1) as Hb. rewrite <- E in Hb.
    destruct Hb as (Ew' & p & -> & Hb). split_and!; [done|left; congruence|].
    unfold bracket_booked in *. by rewrite <- B1, <- B2.
  - pose proof (live_bracket_ok e lv r cid s1) as Hb. rewrite <- E in Hb. destruct Hb as (Hp & Ew' & Hb).
    split_and!; [done| |].
    + revert Ew'. destruct (xl_token lv); cbn [app]; intros Ew'; [left; congruence|right].
      rewrite Ew', Eid, Ew. split; [by exists cid|done].
    + destruct res; [destruct Hb as [_ Hb]; unfold bracket_booked in *; by rewrite <- B1, <- B2|..];
        unfold books_same in *; intuition congruence.
Qed.

(** ** The legs of a bracket *)

(** What a leg's cancellation rests on. *)
Definition leg_cancellable (s : ExitOms) (id : string) (leg : OrderLeg) : Prop :=
  is_valid_order_id id = true /\
  exists so, super_orders s !! id = Some so /\
    (leg = EntryLeg ->
     ms_entry_status_raw so <> "PART_TRADED" /\ ms_entry_status_raw so <> "TRADED" /\
     forall o, orders (oms s) !! id = Some o -> mo_status o <> PartTraded /\ is_terminal o = false).

Lemma cancel_guard s id leg so :
  is_valid_order_id id = true -> super_orders s !! id = Some so ->
  bool_decide (leg = EntryLeg) && negb (entry_leg_cancel_allowed (ms_entry_status_raw so)) = false ->
  bool_decide (leg = EntryLeg) && tracked_filled_or_ended s id = false ->
  leg_cancellable s id leg.
Proof.
  intros Hid Hso H1 H2. split; [done|]. exists so. split; [done|]. intros ->.
  rewrite bool_decide_true in H1, H2 by done. cbn [andb] in H1, H2.
  apply negb_false_iff in H1. unfold entry_leg_cancel_allowed in H1. apply negb_true_iff, bool_decide_eq_false in H1.
  split; [intros E; apply H1; rewrite E; left|]. split; [intros E; apply H1; rewrite E; right; left|].
  intros o Ho. unfold tracked_filled_or_ended in H2. rewrite Ho in H2.
  apply orb_false_iff in H2 as [H2 H3]. by apply bool_decide_eq_false in H2.
Qed.

(** C21: A leg's cancellation is sent, or simulated, only for a tracked
    bracket under a well-formed id and through open gates, and an entry leg's only
    while the registry does not hold PART_TRADED or TRADED as the entry's status
    and the order book's order under that id, if there is one, is neither filled
    in part nor in a final status. An error leaves both books alone, and a live
    entry cancellation changes no status in either: it flags the tracked order for
    reconciliation and stamps both. *)
Theorem entry_cancel_never_after_a_fill e lv id leg s :
  let '(res, s') := cancel_leg e lv id leg s in
  is_Panic res = false /\
  (is_Ok res \/ exit_wire s' <> exit_wire s -> leg_cancellable s id leg /\ exit_gates e (oms s)) /\
  (exit_wire s' = exit_wire s \/ exit_wire s' = DeleteSuperOrder id leg :: exit_wire s /\ dry_run (oms s) = false) /\
  match res with
  | Ok _ => dry_run (oms s) = false -> leg = EntryLeg ->
            orders (oms s') = alter (flag_at (xl_done_us lv)) id (orders (oms s)) /\
            super_orders s' = alter (stamp_super (xl_done_us lv)) id (super_orders s)
  | _ => books_same s s'
  end.
Proof.
  assert (Hearly : forall err, is_Panic (A:=unit) (Err (E:=OmsError) err) = false /\
    (is_Ok (Err (E:=OmsError) (A:=unit) err) \/ exit_wire s <> exit_wire s -> leg_cancellable s id leg /\ exit_gates e (oms s)) /\
    (exit_wire s = exit_wire s \/ exit_wire s = DeleteSuperOrder id leg :: exit_wire s /\ dry_run (oms s) = false) /\
    books_same s s).
  { intros err. split_and!; [done| |by left|done..]. intros [[? H]|H]; done. }
  unfold cancel_super_order_leg. destruct (is_valid_order_id id) eqn:Hid; cbn [negb]; [|apply Hearly].
  step. destruct (super_orders s !! id) as [so|] eqn:Hso; [|apply Hearly].
  destruct (_ && negb (entry_leg_cancel_allowed _)) eqn:H1; [apply Hearly|].
  destruct (_ && tracked_filled_or_ended _ _) eqn:H2; [apply Hearly|].
  pose proof (cancel_guard s id leg so Hid Hso H1 H2) as Hguard. clear Hearly.
  step. pose proof (check_order_gates_ok e s) as Hg. destruct (check_order_gates e s) as [r1 s1].
  destruct Hg as ((B & Ew & Ed & _) & Hp & Hok). destruct r1 as [[]|err|]; [|split_and!; try done|done].
  2:{ intros [[? H]|H]; done. } 2:{ by left. }
  specialize (Hok ltac:(by eexists)). step. rewrite Ed. destruct (dry_run (oms s)) eqn:Hd.
  { step. split_and!; [done..|left|done]. unfold apply_super_cancel. by destruct leg. }
  step. pose proof (live_exit_ok lv (DeleteSuperOrder id leg) (tolerant_reply parse_super) s1) as Hl.
  destruct (live_exit _ _ _ s1) as [r2 s2]. destruct Hl as (B2 & _ & _ & Hp2 & Ew2 & Hok2).
  assert (Hwire : exit_wire s2 = exit_wire s \/ exit_wire s2 = DeleteSuperOrder id leg :: exit_wire s).
  { rewrite Ew2, Ew. destruct (xl_token lv); [by left|by right]. }
  assert (Hb : books_same s s2) by (unfold books_same in *; intuition congruence).
  destruct r2 as [resp|err|]; [|split_and!; [done..|tauto|done]|done].
  destruct leg; step; (split_and!; [done..|cbn; tauto|]); intros _ E; try discriminate E.
  cbn. by destruct Hb as (-> & -> & _).
Qed.

(** What a leg's modification rests on. *)
Definition leg_modifiable (s : ExitOms) (id : string) (m : ModifySuperOrderLeg) : Prop :=
  is_valid_order_id id = true /\
  exists so, super_orders s !! id = Some so /\ ms_modification_count so < MAX_MODIFICATIONS_PER_ORDER /\
    match m with
    | MEntry _ quantity _ target_price stop_loss_price trailing_jump =>
        ms_entry_status_raw so ∈ ["PENDING"; "PART_TRADED"; "TRANSIT"] /\
        (forall o, orders (oms s) !! id = Some o -> is_terminal o = false) /\
        0 < quantity /\ positive_price target_price = true /\ positive_price stop_loss_price = true /\
        is_finite trailing_jump = true /\ f64_leb f64_zero trailing_jump = true
    | MTarget target_price =>
        ~ (ls_status_raw (ms_target so) ∈ ["TRIGGERED"; "TRADED"; "CANCELLED"; "REJECTED"; "CLOSED"]) /\
        positive_price target_price = true
    | MStopLoss stop_loss_price trailing_jump =>
        ~ (ls_status_raw (ms_stop_loss so) ∈ ["TRIGGERED"; "TRADED"; "CANCELLED"; "REJECTED"; "CLOSED"]) /\
        positive_price stop_loss_price = true /\ is_finite trailing_jump = true /\
        f64_leb f64_zero trailing_jump = true
    end.

Lemma positive_finite_ok l x : positive_finite l x = Ok tt <-> positive_price x = true.
Proof. unfold positive_finite. by destruct (positive_price x). Qed.

Lemma trailing_ok_ok x : trailing_ok x = Ok tt <-> is_finite x = true /\ f64_leb f64_zero x = true.
Proof. unfold trailing_ok. destruct (is_finite x), (f64_leb f64_zero x); cbn; intuition discriminate. Qed.

Lemma modify_fields_no_panic m : is_Panic (validate_modify_super_fields m) = false.
Proof.
  unfold validate_modify_super_fields, positive_finite, trailing_ok.
  repeat (case_match; try done; cbn [mbind res_bind] in *).
Qed.

Lemma modify_guard s id m so :
  is_valid_order_id id = true -> super_orders s !! id = Some so ->
  check_modification_limit (ms_modification_count so) id = Ok tt ->
  is_entry_modify m && negb (entry_leg_modify_allowed (ms_entry_status_raw so)) = false ->
  is_entry_modify m && tracked_terminal s id = false ->
  dead_leg m so = false -> validate_modify_super_fields m = Ok tt ->
  leg_modifiable s id m.
Proof.
  intros Hid Hso Hc H1 H2 H3 Hv. split; [done|]. exists so. split; [done|].
  unfold check_modification_limit in Hc.
  destruct (Z.leb_spec MAX_MODIFICATIONS_PER_ORDER (ms_modification_count so)); [done|]. split; [done|].
  destruct m as [ot q p t sl tj|t|sl tj]; cbn [is_entry_modify andb dead_leg validate_modify_super_fields] in *.
  - apply negb_false_iff in H1. apply bool_decide_eq_true in H1. split; [exact H1|]. split.
    { intros o Ho. unfold tracked_terminal in H2. by rewrite Ho in H2. }
    destruct (limit_or_market ot); [|done]. cbn in Hv. destruct (Z.leb_spec q 0); [done|].
    apply bind_ok in Hv as ([] & _ & Hv). apply bind_ok in Hv as ([] & Ht & Hv).
    apply bind_ok in Hv as ([] & Hs & Hv).
    apply positive_finite_ok in Ht, Hs. apply trailing_ok_ok in Hv as []. done.
  - apply negb_false_iff in H3. unfold exit_leg_modify_allowed in H3.
    apply negb_true_iff, bool_decide_eq_false in H3. by apply positive_finite_ok in Hv.
  - apply negb_false_iff in H3. unfold exit_leg_modify_allowed in H3.
    apply negb_true_iff, bool_decide_eq_false in H3.
    apply bind_ok in Hv as ([] & Hs & Hv). apply positive_finite_ok in Hs. by apply trailing_ok_ok in Hv.
Qed.

(** The registry after a modification. *)
Definition leg_modified (s s' : ExitOms) (id : string) (m : ModifySuperOrderLeg) : Prop :=
  (forall k, k <> id -> super_orders s' !! k = super_orders s !! k) /\
  exists so so', super_orders s !! id = Some so /\ super_orders s' !! id = Some so' /\
    ms_modification_count so' = u32_saturating_add (ms_modification_count so) 1 /\
    ms_modification_count so' <= MAX_MODIFICATIONS_PER_ORDER /\
    ms_entry_status_raw so' = ms_entry_status_raw so /\
    match m with
    | MEntry _ quantity price target_price stop_loss_price trailing_jump =>
        ms_quantity so' = quantity /\ ms_entry_price so' = price /\ ls_price (ms_target so') = target_price /\
        ls_price (ms_stop_loss so') = stop_loss_price /\ ms_trailing_jump so' = trailing_jump
    | MTarget target_price =>
        ls_price (ms_target so') = target_price /\ ms_stop_loss so' = ms_stop_loss so /\
        ms_trailing_jump so' = ms_trailing_jump so
    | MStopLoss stop_loss_price trailing_jump =>
        ls_price (ms_stop_loss so') = stop_loss_price /\ ms_target so' = ms_target so /\
        ms_trailing_jump so' = trailing_jump
    end.

Lemma apply_super_modify_ok now id m s so :
  super_orders s !! id = Some so -> ms_modification_count so < MAX_MODIFICATIONS_PER_ORDER ->
  leg_modified s (apply_super_modify now id m s) id m.
Proof.
  intros Hso Hc.
  assert (E : exists so', super_orders (apply_super_modify now id m s) = <[id := so']> (super_orders s) /\
    ms_modification_count so' = u32_saturating_add (ms_modification_count so) 1 /\
    ms_entry_status_raw so' = ms_entry_status_raw so /\
    match m with
    | MEntry _ quantity price target_price stop_loss_price trailing_jump =>
        ms_quantity so' = quantity /\ ms_entry_price so' = price /\ ls_price (ms_target so') = target_price /\
        ls_price (ms_stop_loss so') = stop_loss_price /\ ms_trailing_jump so' = trailing_jump
    | MTarget target_price =>
        ls_price (ms_target so') = target_price /\ ms_stop_loss so' = ms_stop_loss so /\
        ms_trailing_jump so' = ms_trailing_jump so
    | MStopLoss stop_loss_price trailing_jump =>
        ls_price (ms_stop_loss so') = stop_loss_price /\ ms_target so' = ms_target so /\
        ms_trailing_jump so' = trailing_jump
    end).
  { destruct m; (eexists; split;
      [cbn [apply_super_modify on_super on_order super_orders with_super_orders with_oms];
       by apply alter_some|]); cbn; split_and!; reflexivity. }
  destruct E as (so' & E & Ec & Er & Em). split.
  - intros k Hk. rewrite E. by rewrite lookup_insert_ne.
  - exists so, so'. rewrite E, lookup_insert_eq. split_and!; try done.
    rewrite Ec. unfold MAX_MODIFICATIONS_PER_ORDER in *. zints.
Qed.

(** A leg's modification is sent, or simulated, only for a tracked bracket
    under a well-formed id with fewer than 25 modifications behind it, through
    open gates, with prices that are positive and a trail that is not negative; an
    entry's only while it is open in both books, an exit leg's only while the leg
    lives. On success the registry holds the new prices, the trail that was sent
    and one more modification; on an error both books are as they were. *)
Theorem leg_modifications_are_gated e lv id m s :
  let '(res, s') := tighten e lv id m s in
  is_Panic res = false /\
  (is_Ok res \/ exit_wire s' <> exit_wire s -> leg_modifiable s id m /\ exit_gates e (oms s)) /\
  (exit_wire s' = exit_wire s \/
   exit_wire s' = PutSuperOrder id (build_super_modify_request (client_id (oms s)) id m) :: exit_wire s /\
   dry_run (oms s) = false) /\
  match res with
  | Ok _ => leg_modified s s' id m
  | _ => books_same s s'
  end.
Proof.
  assert (Hearly : forall s' err, books_same s s' -> exit_wire s' = exit_wire s ->
    is_Panic (A:=unit) (Err (E:=OmsError) err) = false /\
    (is_Ok (Err (E:=OmsError) (A:=unit) err) \/ exit_wire s' <> exit_wire s -> leg_modifiable s id m /\ exit_gates e (oms s)) /\
    (exit_wire s' = exit_wire s \/
     exit_wire s' = PutSuperOrder id (build_super_modify_request (client_id (oms s)) id m) :: exit_wire s /\
     dry_run (oms s) = false) /\
    books_same s s').
  { intros s' err Hb Hw. split_and!; [done| |by left|done..]. intros [[? H]|H]; done. }
  assert (Hrefl : books_same s s) by done.
  unfold modify_super_order_leg. destruct (is_valid_order_id id) eqn:Hid; cbn [negb]; [|by apply Hearly].
  step. destruct (super_orders s !! id) as [so|] eqn:Hso; [|by apply Hearly].
  step. assert (Hcnp : is_Panic (check_modification_limit (ms_modification_count so) id) = false)
    by (unfold check_modification_limit; by destruct (_ <=? _)).
  destruct (check_modification_limit _ id) as [[]|err|] eqn:Hc; [|by apply Hearly|done].
  destruct (_ && negb (entry_leg_modify_allowed _)) eqn:H1; [by apply Hearly|].
  destruct (_ && tracked_terminal _ _) eqn:H2; [by apply Hearly|].
  destruct (dead_leg m so) eqn:H3; [by apply Hearly|].
  step. pose proof (modify_fields_no_panic m) as Hvnp.
  destruct (validate_modify_super_fields m) as [[]|err|] eqn:Hv; [|by apply Hearly|done].
  pose proof (modify_guard s id m so Hid Hso Hc H1 H2 H3 Hv) as Hguard.
  assert (Hlt : ms_modification_count so < MAX_MODIFICATIONS_PER_ORDER)
    by (destruct Hguard as (_ & so1 & E & ? & _); congruence).
  step. pose proof (check_order_gates_ok e s) as Hg. destruct (check_order_gates e s) as [r1 s1].
  destruct Hg as ((B & Ew & Ed & Ei & _) & Hp & Hok). destruct r1 as [[]|err|]; [|by apply Hearly|done].
  specialize (Hok ltac:(by eexists)). clear Hearly. step. rewrite Ed. pose proof B as (_ & Bs & _).
  assert (Hmod : forall now s2, super_orders s2 = super_orders s -> leg_modified s (apply_super_modify now id m s2) id m).
  { intros now s2 E. pose proof (apply_super_modify_ok now id m s2 so) as H. unfold leg_modified in *.
    rewrite E in H. by apply H. }
  assert (Hmw : forall now s2, exit_wire (apply_super_modify now id m s2) = exit_wire s2) by (by intros; destruct m).
  destruct (dry_run (oms s)) eqn:Hd.
  { step. split_and!; [done..| |by apply Hmod]. left. by rewrite Hmw. }
  step. rewrite Ei. set (body := build_super_modify_request _ id m).
  pose proof (live_exit_ok lv (PutSuperOrder id body) (tolerant_reply parse_super) s1) as Hl.
  destruct (live_exit _ _ _ s1) as [r2 s2]. destruct Hl as (B2 & _ & _ & Hp2 & Ew2 & Hok2).
  assert (Hwire : exit_wire s2 = exit_wire s \/ exit_wire s2 = PutSuperOrder id body :: exit_wire s).
  { rewrite Ew2, Ew. destruct (xl_token lv); [by left|by right]. }
  assert (Hb : books_same s s2) by (unfold books_same in *; intuition congruence).
  destruct r2 as [resp|err|]; [|split_and!; [done..|tauto|done]|done].
  step. specialize (Hmod (xl_done_us lv) s2 ltac:(apply Hb)). specialize (Hmw (xl_done_us lv) s2).
  case_decide; step; (split_and!; [done..| |exact Hmod]); cbn; rewrite Hmw; tauto.
Qed.

(** * Orders over the freeze limit *)

(** The quantity booked under each of some ids. *)
Definition booked_quantity (s : ExitOms) (ids : list string) : Z :=
  foldr Z.add 0 (map (fun id => from_option mo_quantity 0 (orders (oms s) !! id)) ids).

Definition paper_ids (from : Z) (n : nat) : list string :=
  map paper_order_id_string (seqZ from (Z.of_nat n)).

Lemma paper_ids_S from n : paper_ids from (S n) = paper_order_id_string from :: paper_ids (from + 1) n.
Proof.
  unfold paper_ids. rewrite seqZ_cons by lia. cbn [map].
  by replace (Z.pred (Z.of_nat (S n))) with (Z.of_nat n) by lia.
Qed.

Lemma paper_ids_lookup from n k :
  k ∈ paper_ids from n <-> exists m, from <= m < from + Z.of_nat n /\ k = paper_order_id_string m.
Proof.
  unfold paper_ids. rewrite list_elem_of_fmap. split.
  - intros (m & -> & Hm%elem_of_seqZ). by exists m.
  - intros (m & Hm & ->). exists m. split; [done|]. by apply elem_of_seqZ.
Qed.

Lemma paper_ids_NoDup from n : 0 <= from -> from + Z.of_nat n <= u64_max + 1 -> NoDup (paper_ids from n).
Proof.
  revert from. induction n as [|n IH]; intros from H0 H1; [constructor|].
  rewrite paper_ids_S. constructor; [|apply IH; lia].
  intros (m & Hm & E)%paper_ids_lookup. apply paper_order_id_inj in E; unfold in_u64; lia.
Qed.

Lemma paper_slices_ok now r cid slices : forall s,
  0 <= paper_order_counter (oms s) -> paper_order_counter (oms s) + Z.of_nat (length slices) <= u64_max ->
  let ids := paper_ids (paper_order_counter (oms s) + 1) (length slices) in
  exists s', paper_slices now r cid slices s = (Ok ids, s') /\
    Forall2 (fun id q => orders (oms s') !! id = Some (slice_order now r id cid q Confirmed false)) ids slices /\
    (forall k, ~ (k ∈ ids) -> orders (oms s') !! k = orders (oms s) !! k) /\
    exit_wire s' = exit_wire s /\ wire (api_client (oms s')) = wire (api_client (oms s)).
Proof.
  induction slices as [|q slices IH]; intros s H0 H1.
  { exists s. split_and!; done. }
  cbn [paper_slices length] in *. cbv zeta. rewrite paper_ids_S. step.
  destruct (next_paper_ok "PAPER-" s) as (s1 & Enp & (E1 & _) & Ew & _ & Ec). rewrite Enp. cbv iota beta.
  assert (Ewire : wire (api_client (oms s1)) = wire (api_client (oms s))) by (by injection Enp as <-).
  assert (Hn : u64_saturating_add (paper_order_counter (oms s)) 1 = paper_order_counter (oms s) + 1) by zints.
  rewrite Hn in *. fold (paper_order_id_string (paper_order_counter (oms s) + 1)).
  set (id := paper_order_id_string (paper_order_counter (oms s) + 1)).
  set (o := slice_order now r id cid q Confirmed false). step. set (s2 := insert_order o s1).
  assert (Ec2 : paper_order_counter (oms s2) = paper_order_counter (oms s) + 1) by exact Ec.
  destruct (IH s2) as (s3 & E3 & F3 & K3 & W3 & V3); [lia|lia|]. rewrite Ec2 in *.
  rewrite E3. cbv iota beta. step. exists s3. split; [reflexivity|].
  assert (Hfresh : ~ (id ∈ paper_ids (paper_order_counter (oms s) + 1 + 1) (length slices))).
  { intros (m & Hm & E)%paper_ids_lookup. apply paper_order_id_inj in E; unfold in_u64; lia. }
  assert (Eo : orders (oms s2) = <[id := o]> (orders (oms s1))) by reflexivity.
  split_and!; [constructor; [|exact F3]| |rewrite W3; exact Ew|rewrite V3; exact Ewire].
  - rewrite K3 by done. by rewrite Eo, lookup_insert_eq.
  - intros k Hk. apply not_elem_of_cons in Hk as [Hk1 Hk2].
    rewrite K3, Eo, lookup_insert_ne by done. by rewrite E1.
Qed.

Lemma track_first_ok cid ids s :
  exists s', track_first cid ids s = (Ok tt, s') /\ orders (oms s') = orders (oms s) /\
    exit_wire s' = exit_wire s /\ wire (api_client (oms s')) = wire (api_client (oms s)).
Proof. destruct ids; (eexists; split; [reflexivity|]); split_and!; reflexivity. Qed.

Lemma booked_quantity_sum s (ids : list string) (slices : list Z) (o : string -> Z -> ManagedOrder) :
  (forall id q, mo_quantity (o id q) = q) ->
  Forall2 (fun id q => orders (oms s) !! id = Some (o id q)) ids slices ->
  booked_quantity s ids = foldr Z.add 0 slices.
Proof.
  intros Ho. unfold booked_quantity. induction 1 as [|id q ids slices Hq _ IH]; [done|].
  cbn. rewrite Hq, IH. cbn. by rewrite Ho.
Qed.

(** Over the freeze limit, after the checks. *)
Lemma sliced_prologue e plv lv r fl s :
  fl < pr_quantity r ->
  sliced e plv lv r fl s =
    match (validate_order_fields (today e) r ≫= fun _ => compute_slices (pr_quantity r) fl) with
    | Ok slices =>
        (_ ← check_order_gates e; cid ← next_correlation_id draw; s ← get;
         if dry_run (oms s) then
           ids ← paper_slices (now_us e) r cid slices; _ ← track_first cid ids; mret ids
         else
           response ← live_exit lv (PostSlicing (place_request (oms s) r cid)) (json_reply parse_slicing);
           match (match response with Many l => l | One single => [single] end) with
           | [] => throw (DhanApiError 200 "slicing response contained zero order ids")
           | row :: rows =>
               let responses := take (Z.to_nat MAX_ORDER_SLICES) (row :: rows) in
               if existsb (fun row => negb (is_valid_order_id (dpr_order_id row))) responses
               then throw (malformed_id "slicing") else
               ids ← live_slices (now_us e) r cid slices (length responses) 0 responses;
               _ ← track_first cid ids;
               mret ids
           end) s
    | Err err => (Err err, s)
    | Panic => (Panic, s)
    end.
Proof.
  intros Hq. unfold place_order_sliced, requires_slicing. rewrite (proj2 (Z.ltb_lt _ _) Hq). cbn [negb].
  step. destruct (validate_order_fields _ r) as [[]|err|]; [|done..]. cbn [mbind res_bind].
  destruct (compute_slices _ fl) as [slices|err|]; [|done..]. step.
  destruct (check_order_gates e s) as [[[]|err|] s1]; [|done..]. step.
  destruct (next_correlation_id draw s1) as [[cid|err|] s2]; [|done..]. step.
  destruct (dry_run (oms s2)); [done|]. step.
  destruct (live_exit _ _ _ s2) as [[resp|err|] s3]; [|done..]. by destruct resp as [[|row rows]|row].
Qed.

Lemma sliced_checks_no_panic e r fl :
  is_Panic (validate_order_fields (today e) r ≫= fun _ => compute_slices (pr_quantity r) fl) = false.
Proof.
  pose proof (validate_order_fields_no_panic (today e) r) as H.
  destruct (validate_order_fields _ r) as [[]|err|]; [|done..]. cbn [mbind res_bind].
  pose proof (compute_slices_spec (pr_quantity r) fl) as Hs. by destruct (compute_slices _ fl).
Qed.

(** In paper mode an order over the freeze limit is booked as confirmed orders
    under fresh, distinct ids, at most a thousand, each of one lot or more and
    none over the limit, whose quantities add up to the order's; nothing else in
    the book moves and nothing is sent. A refusal leaves the book alone. *)
Theorem paper_slices_add_up e plv lv r fl s :
  dry_run (oms s) = true -> fl < pr_quantity r ->
  0 <= paper_order_counter (oms s) -> paper_order_counter (oms s) + MAX_ORDER_SLICES <= u64_max ->
  let '(res, s') := sliced e plv lv r fl s in
  exit_wire s' = exit_wire s /\ wire (api_client (oms s')) = wire (api_client (oms s)) /\
  match res with
  | Ok ids =>
      booked_quantity s' ids = pr_quantity r /\ NoDup ids /\ (length ids <= 1000)%nat /\
      Forall (fun id => exists o, orders (oms s') !! id = Some o /\ mo_order_id o = id /\
                1 <= mo_quantity o <= fl /\ mo_status o = Confirmed) ids /\
      forall k, ~ (k ∈ ids) -> orders (oms s') !! k = orders (oms s) !! k
  | Err _ => orders (oms s') = orders (oms s)
  | Panic => False
  end.
Proof.
  intros Hdry Hq H0 H1. rewrite sliced_prologue by done.
  pose proof (sliced_checks_no_panic e r fl) as Hnp.
  destruct (validate_order_fields (today e) r ≫= _) as [slices|err|] eqn:Hs; [|by split_and!|done].
  apply bind_ok in Hs as ([] & _ & Hs). pose proof (compute_slices_spec (pr_quantity r) fl) as Hspec.
  rewrite Hs in Hspec. destruct Hspec as ([Hsum Hall] & Hlen & _).
  match goal with |- context [mbind ?k (check_order_gates e) s] => set (prog := k) end.
  step. pose proof (check_order_gates_ok e s) as Hg. destruct (check_order_gates e s) as [r1 s1].
  destruct Hg as ((B & Ew & Ed & _ & Ea & Ec) & Hp & _). pose proof B as (B1 & _).
  destruct r1 as [[]|err|]; [|by split_and!|done]. unfold prog. step.
  destruct (next_correlation_id_ok draw s1) as (cid & s2 & -> & (B' & Ew' & Ed' & _ & Ea' & Ec')). step.
  rewrite Ed', Ed, Hdry. pose proof B' as (B1' & _).
  destruct (paper_slices_ok (now_us e) r cid slices s2) as (s3 & E3 & F3 & K3 & W3 & V3).
  { lia. } { unfold MAX_ORDER_SLICES in H1. lia. }
  step. rewrite E3. cbv iota beta. set (ids := paper_ids _ _) in *.
  destruct (track_first_ok cid ids s3) as (s4 & E4 & O4 & W4 & V4). step. rewrite E4. cbv iota beta. step.
  split; [congruence|]. split; [congruence|]. split_and!.
  - unfold booked_quantity. rewrite O4. fold (booked_quantity s3 ids).
    rewrite <- Hsum. eapply booked_quantity_sum; [|exact F3]. done.
  - apply paper_ids_NoDup; [lia|]. unfold MAX_ORDER_SLICES in H1. lia.
  - by rewrite (Forall2_length _ _ _ F3).
  - rewrite O4. clear -F3 Hall. induction F3 as [|id q ids slices Hq _ IH]; [constructor|].
    apply Forall_cons in Hall as [Hq1 Hall]. constructor; [|by apply IH].
    eexists. split; [exact Hq|]. done.
  - intros k Hk. rewrite O4, K3 by done. congruence.
Qed.

(** The rows of a response, in the book. *)
Lemma live_slices_ok now r cid slices ret rows : forall idx s,
  let ids := map dpr_order_id rows in
  exists s', live_slices now r cid slices ret idx rows s = (Ok ids, s') /\
    exit_wire s' = exit_wire s /\
    (forall k, ~ (k ∈ ids) -> orders (oms s') !! k = orders (oms s) !! k) /\
    (forall k, k ∈ ids -> exists o, orders (oms s') !! k = Some o /\ mo_order_id o = k /\
                            mo_needs_reconciliation o = true /\ mo_correlation_id o = cid) /\
    (NoDup ids -> map (fun k => from_option mo_quantity 0 (orders (oms s') !! k)) ids =
                  map (slice_quantity (pr_quantity r) slices ret) (seq idx (length rows))).
Proof.
  induction rows as [|row rows IH]; intros idx s; cbn [live_slices map length seq].
  { exists s. split_and!; try done. intros k Hk. by apply elem_of_nil in Hk. }
  step. set (o := slice_order _ r (dpr_order_id row) cid _ _ true). set (s1 := insert_order o s).
  destruct (IH (S idx) s1) as (s2 & E2 & W2 & K2 & F2 & Q2). rewrite E2. cbv iota beta. step.
  assert (Eo : orders (oms s1) = <[dpr_order_id row := o]> (orders (oms s))) by reflexivity.
  exists s2. split; [reflexivity|]. split; [by rewrite W2|]. split_and!.
  - intros k Hk. apply not_elem_of_cons in Hk as [Hk1 Hk2]. by rewrite K2, Eo, lookup_insert_ne.
  - intros k Hk. destruct (decide (k ∈ map dpr_order_id rows)) as [Hin|Hin]; [by apply F2|].
    apply elem_of_cons in Hk as [->|Hk]; [|done]. exists o. by rewrite K2, Eo, lookup_insert_eq.
  - intros [Hn Hnd]%NoDup_cons. rewrite (Q2 Hnd). f_equal. by rewrite K2, Eo, lookup_insert_eq.
Qed.

Lemma slice_quantities_counted total slices n :
  n = length slices -> map (slice_quantity total slices n) (seq 0 n) = slices.
Proof.
  intros ->. apply list_eq. intros i. rewrite list_lookup_fmap. unfold slice_quantity.
  destruct (decide (i < length slices)%nat).
  - rewrite lookup_seq_lt by done. cbn. rewrite decide_True by done.
    destruct (lookup_lt_is_Some_2 slices i) as [x Hx]; [done|]. by rewrite Hx.
  - rewrite lookup_seq_ge by lia. cbn. symmetry. apply lookup_ge_None. lia.
Qed.

(** In live mode an order over the freeze limit is one request for its whole
    quantity, sent through open gates. Of the broker's rows at most a thousand are
    booked, under well-formed ids and every one flagged for reconciliation; where
    the ids are distinct and as many as the split needs, or one, the booked
    quantities add up to the order's. On an error the book is as it was. *)
Theorem live_slices_are_flagged e plv lv r fl s :
  dry_run (oms s) = false -> fl < pr_quantity r ->
  let '(res, s') := sliced e plv lv r fl s in
  is_Panic res = false /\
  (exit_wire s' = exit_wire s \/
   (exists cid, exit_wire s' = PostSlicing (place_request (oms s) r cid) :: exit_wire s) /\ exit_gates e (oms s)) /\
  match res with
  | Ok ids =>
      ids <> [] /\ (length ids <= 1000)%nat /\
      Forall (fun id => is_valid_order_id id = true /\
                exists o, orders (oms s') !! id = Some o /\ mo_order_id o = id /\ mo_needs_reconciliation o = true) ids /\
      (forall k, ~ (k ∈ ids) -> orders (oms s') !! k = orders (oms s) !! k) /\
      (NoDup ids -> (exists slices, compute_slices (pr_quantity r) fl = Ok slices /\
                       (length ids = length slices \/ length ids = 1%nat)) ->
       booked_quantity s' ids = pr_quantity r)
  | _ => orders (oms s') = orders (oms s)
  end.
Proof.
  intros Hdry Hq. rewrite sliced_prologue by done.
  pose proof (sliced_checks_no_panic e r fl) as Hnp.
  destruct (validate_order_fields (today e) r ≫= _) as [slices|err|] eqn:Hs; [|split_and!; auto|done].
  apply bind_ok in Hs as ([] & _ & Hs). pose proof (compute_slices_spec (pr_quantity r) fl) as Hspec.
  rewrite Hs in Hspec. destruct Hspec as ([Hsum _] & _).
  match goal with |- context [mbind ?k (check_order_gates e) s] => set (prog := k) end.
  step. pose proof (check_order_gates_ok e s) as Hg. destruct (check_order_gates e s) as [r1 s1].
  destruct Hg as ((B & Ew & Ed & Ei & _) & Hp & Hok). pose proof B as (B1 & _).
  destruct r1 as [[]|err|]; [|split_and!; auto|done]. specialize (Hok ltac:(by eexists)). unfold prog. step.
  destruct (next_correlation_id_ok draw s1) as (cid & s2 & -> & (B' & Ew' & Ed' & Ei' & _)). step.
  rewrite Ed', Ed, Hdry. pose proof B' as (B1' & _). clear prog Hnp Hp.
  assert (Hreq : place_request (oms s2) r cid = place_request (oms s) r cid)
    by (unfold place_request; by rewrite Ei', Ei).
  rewrite Hreq. step.
  pose proof (live_exit_ok lv (PostSlicing (place_request (oms s) r cid)) (json_reply parse_slicing) s2) as Hl.
  destruct (live_exit _ _ _ s2) as [r3 s3]. destruct Hl as ((B3 & _) & _ & _ & Hp3 & Ew3 & _).
  assert (Hw : exit_wire s3 = exit_wire s \/
    (exists cid, exit_wire s3 = PostSlicing (place_request (oms s) r cid) :: exit_wire s) /\ exit_gates e (oms s)).
  { rewrite Ew3, Ew', Ew. destruct (xl_token lv); [by left|right; eauto]. }
  assert (Hsame : orders (oms s3) = orders (oms s)) by congruence.
  destruct r3 as [resp|err|]; [|by split_and!|done]. clear Hp3.
  set (all := match resp with Many l => l | One single => [single] end). clearbody all.
  destruct all as [|row rows]; [step; by split_and!|].
  cbv zeta. set (responses := take (Z.to_nat MAX_ORDER_SLICES) (row :: rows)).
  assert (Hlen : (0 < length responses <= 1000)%nat).
  { unfold responses. rewrite length_take. cbn [length]. change (Z.to_nat MAX_ORDER_SLICES) with 1000%nat. lia. }
  clearbody responses. destruct (existsb _ responses) eqn:Hex; [step; by split_and!|].
  step. destruct (live_slices_ok (now_us e) r cid slices (length responses) responses 0 s3)
    as (s4 & E4 & W4 & K4 & F4 & Q4). rewrite E4. cbv iota beta. step. set (ids := map dpr_order_id responses) in *.
  destruct (track_first_ok cid ids s4) as (s5 & E5 & O5 & W5 & _). rewrite E5. cbv iota beta.
  assert (Hl : length ids = length responses) by apply length_map.
  split; [done|]. split; [by rewrite W5, W4|]. split_and!.
  - intros E. rewrite E in Hl. cbn in Hl. lia.
  - lia.
  - apply Forall_forall. intros id Hid. split.
    + unfold ids in Hid. apply list_elem_of_fmap in Hid as (row' & -> & Hrow).
      destruct (is_valid_order_id (dpr_order_id row')) eqn:E; [done|]. exfalso.
      apply not_true_iff_false in Hex. apply Hex, existsb_exists. exists row'. rewrite E.
      split; [by apply list_elem_of_In|done].
    + rewrite O5. destruct (F4 id Hid) as (o & ? & ? & ? & _). by exists o.
  - intros k Hk. rewrite O5, K4, Hsame; done.
  - intros Hnd (sl & Hsl & Hcount). assert (sl = slices) as -> by congruence.
    unfold booked_quantity. rewrite O5, (Q4 Hnd), Hl in *. destruct Hcount as [Hc|Hc].
    + by rewrite slice_quantities_counted.
    + rewrite Hc. cbn [seq map foldr]. unfold slice_quantity. case_decide as H1.
      * destruct slices as [|q [|? ?]]; cbn in *; lia.
      * rewrite decide_True by done. lia.
Qed.

(** * The halt latch *)

Lemma place_order_halted e plv r o cause :
  halt o = Some cause -> dry_run o = false ->
  let '(res, o') := OmsEngine.place_order draw error_body parse_placed e plv r o in
  (exists err, res = Err err) /\ wire (api_client o') = wire (api_client o).
Proof.
  intros Hh Hd. unfold OmsEngine.place_order. pose proof (validate_order_fields_no_panic (today e) r) as Hv.
  destruct (validate_order_fields (today e) r) as [u|err|]; [|by split; [eexists|]|done].
  pose proof (order_gates_frame e o) as Hg. destruct (order_gates e o) as [res o1].
  destruct Hg as ((_ & _ & _ & Ed & _) & Ec & Eh & _ & Hp & _).
  destruct res as [u1|err|]; [|by rewrite Ec; split; [eexists|]|done].
  destruct (next_id draw (correlations o1)) as [cid c]. cbn [dry_run with_correlations]. rewrite Ed, Hd.
  destruct (_ <? _); [cbn; rewrite Ec; by split; [eexists|]|].
  unfold check_live_order_gates. cbn [halt with_correlations]. rewrite Eh, Hh. cbn. rewrite Ec.
  by split; [eexists|].
Qed.

(** A placement's prologue, through open gates. *)
Lemma prologue_open {A} e (k : string -> ExitOms -> M A) s :
  fst (order_gates e (oms s)) = Ok tt ->
  exists cid s1, gated s s1 /\
    (_ ← check_order_gates e; cid ← next_correlation_id draw; s ← get; k cid s) s = k cid s1 s1.
Proof.
  intros Hg. step. pose proof (check_order_gates_ok e s) as H. unfold check_order_gates, in_oms in *.
  destruct (order_gates e (oms s)) as [r o]. cbn [fst] in Hg. subst r. destruct H as (G & _).
  set (s1 := with_oms s o) in *. destruct (next_correlation_id_ok draw s1) as (cid & s2 & E & G2).
  exists cid, s2. split; [by eapply gate_frame_trans|]. step. rewrite E. reflexivity.
Qed.

(** While a broker error holds the order path halted, an order within the
    freeze limit is refused and nothing is sent; the same order over the limit,
    and any well-formed bracket, is sent. *)
Theorem exit_placements_skip_the_halt e plv lv cause s :
  halt (oms s) = Some cause -> dry_run (oms s) = false -> fst (order_gates e (oms s)) = Ok tt ->
  xl_token lv = None ->
  (forall r fl, pr_quantity r <= fl ->
     let '(res, s') := sliced e plv lv r fl s in
     (exists err, res = Err err) /\ exit_wire s' = exit_wire s /\
     wire (api_client (oms s')) = wire (api_client (oms s))) /\
  (forall r fl, fl < pr_quantity r -> validate_order_fields (today e) r = Ok tt ->
     is_Ok (compute_slices (pr_quantity r) fl) ->
     exists cid, exit_wire (snd (sliced e plv lv r fl s)) =
                 PostSlicing (place_request (oms s) r cid) :: exit_wire s) /\
  (forall r fl, well_formed_bracket (today e) r -> so_quantity r <= fl ->
     exists cid, exit_wire (snd (bracket e lv r fl s)) =
                 PostSuperOrder (super_request (client_id (oms s)) cid r) :: exit_wire s).
Proof.
  intros Hh Hd Hg Ht. split_and!.
  - intros r fl Hq. unfold place_order_sliced, requires_slicing. rewrite (proj2 (Z.ltb_ge _ _) Hq). cbn [negb].
    step. unfold in_oms. pose proof (place_order_halted e plv r (oms s) cause Hh Hd) as H.
    destruct (OmsEngine.place_order _ _ _ _ _ _ _) as [res o]. destruct H as [[err ->] Hw].
    split_and!; [by eexists|done|exact Hw].
  - intros r fl Hq Hv [slices Hs]. rewrite sliced_prologue, Hv by done. cbn [mbind res_bind]. rewrite Hs.
    match goal with |- context [snd ((_ ← _; cid ← _; s ← get; @?k cid s) s)] =>
      destruct (prologue_open e k s Hg) as (cid & s1 & G & E) end.
    cbv beta in E. rewrite E. destruct G as (_ & Ew & Ed & Ei & _). rewrite Ed, Hd. exists cid.
    assert (Hreq : place_request (oms s1) r cid = place_request (oms s) r cid) by (unfold place_request; by rewrite Ei).
    rewrite Hreq. step.
    pose proof (live_exit_ok lv (PostSlicing (place_request (oms s) r cid)) (json_reply parse_slicing) s1) as Hl.
    destruct (live_exit _ _ _ s1) as [r3 s3]. destruct Hl as (_ & _ & _ & _ & Ew3 & _).
    rewrite Ht, Ew in Ew3. cbn [app] in Ew3. destruct r3 as [resp|err|]; [|done..].
    set (all := match resp with Many l => l | One single => [single] end). clearbody all.
    destruct all as [|row rows]; [done|]. cbv zeta. set (responses := take _ (row :: rows)). clearbody responses.
    destruct (existsb _ responses); [done|]. step.
    destruct (live_slices_ok (now_us e) r cid slices (length responses) responses 0 s3)
      as (s4 & -> & W4 & _). step.
    destruct (track_first_ok cid (map dpr_order_id responses) s4) as (s5 & -> & _ & W5 & _). step. congruence.
  - intros r fl Hb Hq. rewrite bracket_prologue. apply bracket_checked_ok in Hb. rewrite Hb.
    unfold requires_slicing. rewrite (proj2 (Z.ltb_ge _ _) Hq).
    match goal with |- context [snd ((_ ← _; cid ← _; s ← get; @?k cid s) s)] =>
      destruct (prologue_open e k s Hg) as (cid & s1 & G & E) end.
    cbv beta in E. rewrite E. destruct G as (_ & Ew & Ed & Ei & _). rewrite Ed, Hd. exists cid.
    pose proof (live_bracket_ok e lv r cid s1) as H. destruct (live_bracket _ _ _ _ _ _ _) as [res s2].
    destruct H as (_ & Ew2 & _). rewrite Ht, Ew, Ei in Ew2. exact Ew2.
Qed.

(** * The probe after an execution *)

Lemma probe_gates_ok e s :
  let '(r, s') := probe_gates e s in
  books_same s s' /\ exit_wire s' = exit_wire s /\ dry_run (oms s') = dry_run (oms s) /\
  circuit_breaker (oms s') = circuit_breaker (oms s) /\ is_Panic r = false.
Proof.
  unfold probe_gates, in_oms, check_order_book_capacity.
  destruct (_ <=? _); cbn -[try_consume]; [unfold books_same; split_and!; done|].
  pose proof (order_gates_frame e (oms s)) as Hp. unfold order_gates, check_order_book_capacity in Hp.
  destruct (try_consume (order_budget (oms s)) (now_s e)) as [[[]|err|] b] eqn:E;
    unfold books_same; cbn; [destruct (per_second_ok e); by split_and!|by split_and!|].
  exfalso. clear Hp. revert E. unfold try_consume. repeat case_match; intros; simplify_eq.
Qed.

(** What the broker's reply to a probe of [id] says. *)
Definition broker_row (lv : ExitLive) (s : ExitOms) (id : string) (status : string) (filled : Z) : Prop :=
  (is_Some (super_orders s !! id) /\
   exists rows row, json_reply parse_super_list (xl_http lv GetSuperOrders) = inr rows /\ row ∈ rows /\
     sr_order_id row = id /\ status = sr_order_status row /\ filled = sr_filled_qty row) \/
  (super_orders s !! id = None /\ is_Some (orders (oms s) !! id) /\
   exists resp, json_reply parse_order (xl_http lv (GetOrder id)) = inr resp /\
     status = dor_order_status resp /\ filled = Z.max (dor_filled_qty resp) (dor_traded_quantity resp)).

(** A verdict, from the status and the filled quantity of the broker's row and
    the time the probe was given. *)
Definition verdict_from (v : ExecutionVerdict) (status : string) (filled elapsed deadline : Z) : Prop :=
  match v with
  | Filled q _ => parse_order_status status = Some Traded /\ q = filled
  | PartiallyFilled q rest => parse_order_status status = Some PartTraded /\ q = filled /\ 0 <= rest
  | Terminal st => parse_order_status status = Some st /\ st <> Traded
  | StillPending _ =>
      elapsed < deadline /\
      exists st, parse_order_status status = Some st /\ is_terminal_status st = false /\ st <> PartTraded
  | PendingAtLimit _ =>
      deadline <= elapsed /\
      exists st, parse_order_status status = Some st /\ is_terminal_status st = false /\ st <> PartTraded
  | Unknown raw => raw = status /\ parse_order_status status = None
  | SimulatedFilled => False
  end.

Lemma classify_from status filled quantity avg elapsed deadline :
  verdict_from (classify_mpp_verdict (parse_order_status status) status filled quantity avg elapsed deadline)
    status filled elapsed deadline.
Proof.
  unfold classify_mpp_verdict. destruct (parse_order_status status) as [[]|] eqn:E; cbn;
    try (split_and!; done || lia); destruct (Z.leb_spec deadline elapsed); cbn; eauto.
Qed.

Lemma last_filter_elem {A} (f : A -> bool) l x : last (List.filter f l) = Some x -> x ∈ l /\ f x = true.
Proof.
  intros H. apply last_Some_elem_of, list_elem_of_In, filter_In in H. by rewrite <- list_elem_of_In in H.
Qed.

Lemma super_verdict_ok now id elapsed deadline r s :
  let '(res, s') := super_verdict now id elapsed deadline r s in
  oms s' = oms s /\ exit_wire s' = exit_wire s /\ is_Panic res = false /\
  forall v, res = Ok v ->
    (exists rows row, r = inr rows /\ row ∈ rows /\ sr_order_id row = id /\
       verdict_from v (sr_order_status row) (sr_filled_qty row) elapsed deadline) \/
    v = Unknown VERIFY_RAW_NOT_IN_SUPER_LIST \/ v = Unknown UNPARSABLE_RESPONSE_BODY.
Proof.
  unfold super_verdict. destruct r as [err|rows].
  - destruct err; step; split_and!; try done; intros v [= <-]; auto.
  - step. split_and!; try done. intros v [= <-].
    destruct (last _) as [row|] eqn:E; [|auto]. apply last_filter_elem in E as [Hrow E].
    apply bool_decide_eq_true in E. left. exists rows, row. split_and!; try done. apply classify_from.
Qed.

Lemma plain_verdict_ok id elapsed deadline r s :
  let '(res, s') := plain_verdict id elapsed deadline r s in
  s' = s /\ is_Panic res = false /\
  forall v, res = Ok v ->
    (exists resp, r = inr resp /\
       verdict_from v (dor_order_status resp) (Z.max (dor_filled_qty resp) (dor_traded_quantity resp)) elapsed deadline) \/
    v = Unknown UNPARSABLE_RESPONSE_BODY.
Proof.
  unfold plain_verdict. destruct r as [err|resp].
  - destruct err; step; split_and!; try done; intros v [= <-]; auto.
  - step. split_and!; try done. intros v [= <-]. left. exists resp. split; [done|]. apply classify_from.
Qed.

Lemma probe_exit_ok {A} lv req (reply : HttpOutcome -> OmsError + A) s :
  let '(r, s') := probe_exit lv req reply s in
  books_same s s' /\ oms s' = oms s /\ is_Panic r = false /\
  (length (exit_wire s') <= S (length (exit_wire s)))%nat /\
  (forall a, r = Ok a -> a = reply (xl_http lv req)).
Proof.
  unfold probe_exit. destruct (xl_token lv); step; unfold books_same; split_and!; try done; cbn; try lia.
  by intros a [= <-].
Qed.

(** A live probe's verdict, before it is applied. *)
Lemma live_probe_ok lv id elapsed deadline s :
  is_Some (super_orders s !! id) \/ is_Some (orders (oms s) !! id) ->
  let '(res, s') :=
    (if bool_decide (is_Some (super_orders s !! id)) then
       r ← probe_exit lv GetSuperOrders (json_reply parse_super_list);
       super_verdict (xl_done_us lv) id elapsed deadline r
     else
       r ← probe_exit lv (GetOrder id) (json_reply parse_order);
       plain_verdict id elapsed deadline r) s in
  oms s' = oms s /\ (length (exit_wire s') <= S (length (exit_wire s)))%nat /\ is_Panic res = false /\
  forall v, res = Ok v ->
    (exists status filled, broker_row lv s id status filled /\ verdict_from v status filled elapsed deadline) \/
    v = Unknown VERIFY_RAW_NOT_IN_SUPER_LIST \/ v = Unknown UNPARSABLE_RESPONSE_BODY.
Proof.
  intros Hin. case_bool_decide as Hs; step.
  - pose proof (probe_exit_ok lv GetSuperOrders (json_reply parse_super_list) s) as H.
    destruct (probe_exit _ _ _ s) as [[r|err|] s1]; destruct H as (_ & Eo & Hp & Hw & Hr); [|by split_and!|done].
    rewrite (Hr r eq_refl) in *. clear Hr Hp r.
    pose proof (super_verdict_ok (xl_done_us lv) id elapsed deadline (json_reply parse_super_list (xl_http lv GetSuperOrders)) s1) as Hv.
    destruct (super_verdict _ _ _ _ _ s1) as [res s2]. destruct Hv as (E1 & Ew & Hp & Hv).
    split_and!; [congruence|by rewrite Ew|done|]. intros v ->. destruct (Hv v eq_refl) as [(rows & row & Er & Hrow & Hid & Hf)|?]; [left|by right].
    exists (sr_order_status row), (sr_filled_qty row). split; [|done]. left. split; [done|]. by exists rows, row.
  - pose proof (probe_exit_ok lv (GetOrder id) (json_reply parse_order) s) as H.
    destruct (probe_exit _ _ _ s) as [[r|err|] s1]; destruct H as (_ & Eo & Hp & Hw & Hr); [|by split_and!|done].
    rewrite (Hr r eq_refl) in *. clear Hr Hp r.
    pose proof (plain_verdict_ok id elapsed deadline (json_reply parse_order (xl_http lv (GetOrder id))) s1) as Hv.
    destruct (plain_verdict _ _ _ _ s1) as [res s2]. destruct Hv as (-> & Hp & Hv).
    split_and!; [done..|]. intros v ->. destruct (Hv v eq_refl) as [(resp & Er & Hf)|?]; [left|by right; right].
    eexists _, _. split; [|exact Hf]. right. split; [by apply eq_None_not_Some|].
    split; [by destruct Hin|]. by exists resp.
Qed.

(** A probe, whole. *)
Lemma verify_ok e lv id elapsed deadline s :
  let '(res, s') := verify e lv id elapsed deadline s in
  circuit_breaker (oms s') = circuit_breaker (oms s) /\ dry_run (oms s') = dry_run (oms s) /\
  (length (exit_wire s') <= S (length (exit_wire s)))%nat /\
  match res with
  | Ok v =>
      if dry_run (oms s) then v = SimulatedFilled /\ exit_wire s' = exit_wire s /\ orders (oms s') = orders (oms s)
      else
        ((exists status filled, broker_row lv s id status filled /\ verdict_from v status filled elapsed deadline) \/
         v = Unknown VERIFY_RAW_NOT_IN_SUPER_LIST \/ v = Unknown UNPARSABLE_RESPONSE_BODY) /\
        orders (oms s') = alter (verdict_on_order (xl_done_us lv) v elapsed deadline) id (orders (oms s))
  | Err _ => orders (oms s') = orders (oms s)
  | Panic => False
  end.
Proof.
  unfold verify_order_execution. destruct (negb (is_valid_order_id id)); [by split_and!; auto|]. step.
  destruct (negb _ && _) eqn:Hex; [by split_and!; auto|].
  assert (Hin : is_Some (super_orders s !! id) \/ is_Some (orders (oms s) !! id)).
  { apply andb_false_iff in Hex as [H|H].
    - left. apply negb_false_iff, bool_decide_eq_true in H. exact H.
    - right. apply bool_decide_eq_false in H. destruct (orders (oms s) !! id); [by eexists|done]. }
  clear Hex. step. pose proof (probe_gates_ok e s) as Hg. destruct (probe_gates e s) as [[[]|err|] s1];
    destruct Hg as ((B1 & B2 & _) & Ew & Ed & Ecb & Hp); [|rewrite Ew; by split_and!; auto|done].
  step. rewrite Ed. destruct (dry_run (oms s)) eqn:Hd; [step; cbn; rewrite Ew; by split_and!; auto|].
  step. rewrite <- B1, <- B2 in Hin. pose proof (live_probe_ok lv id elapsed deadline s1 Hin) as Hl.
  rewrite B2 in Hl.
  match type of Hl with (let '(_, _) := ?t in _) => destruct t as [[v|err|] s2] end;
    destruct Hl as (Eo & Hw & Hp' & Hv); [|rewrite Eo, <- Ew; by split_and!|done].
  step. cbn. rewrite Eo, <- Ew, <- B1. split_and!; [done..| |done].
  specialize (Hv v eq_refl). unfold broker_row in *. by rewrite B1, B2 in Hv.
Qed.

(** C24: A probe never trips or clears the circuit breaker. In paper mode it
    answers that the fill is simulated, sends nothing and moves no order; in live
    mode a verdict other than unknown is what the broker's own row for that order
    says, a fill only of a row that reads traded, and the order changes as the
    verdict says; an error moves no order. *)
Theorem a_fill_is_never_assumed e lv id elapsed deadline s :
  let '(res, s') := verify e lv id elapsed deadline s in
  circuit_breaker (oms s') = circuit_breaker (oms s) /\
  match res with
  | Ok v =>
      if dry_run (oms s) then v = SimulatedFilled /\ exit_wire s' = exit_wire s /\ orders (oms s') = orders (oms s)
      else
        ((exists status filled, broker_row lv s id status filled /\ verdict_from v status filled elapsed deadline) \/
         v = Unknown VERIFY_RAW_NOT_IN_SUPER_LIST \/ v = Unknown UNPARSABLE_RESPONSE_BODY) /\
        orders (oms s') = alter (verdict_on_order (xl_done_us lv) v elapsed deadline) id (orders (oms s))
  | Err _ => orders (oms s') = orders (oms s)
  | Panic => False
  end.
Proof.
  pose proof (verify_ok e lv id elapsed deadline s) as H. destruct (verify e lv id elapsed deadline s) as [res s'].
  destruct H as (? & _ & _ & H). by split.
Qed.

(** An update under the order's own number and in its own status. *)
Lemma update_in_place now u o k :
  orders o !! ou_order_no u = Some k -> parse_order_status (ou_status u) = Some (mo_status k) ->
  is_terminal k = false -> fst (handle_order_update now u o) = Ok (extract_fill_delta k u).
Proof.
  intros Hk Hst Ht. unfold handle_order_update, find_order_id. cbn [orders bump_updates].
  rewrite decide_True by (rewrite Hk; by eexists). rewrite Hst, record_alias_orders.
  cbn [orders bump_updates]. rewrite Hk. unfold apply_update. by rewrite decide_True, Ht.
Qed.

Lemma live_plain_probe e lv id elapsed deadline s o resp :
  dry_run (oms s) = false -> super_orders s !! id = None -> orders (oms s) !! id = Some o ->
  is_valid_order_id id = true -> fst (probe_gates e s) = Ok tt -> xl_token lv = None ->
  json_reply parse_order (xl_http lv (GetOrder id)) = inr resp ->
  exists v, v = classify_mpp_verdict (parse_order_status (dor_order_status resp)) (dor_order_status resp)
        (Z.max (dor_filled_qty resp) (dor_traded_quantity resp)) (mo_quantity o)
        (if f64_ltb f64_zero (dor_average_traded_price resp) then dor_average_traded_price resp
         else dor_traded_price resp) elapsed deadline /\
    orders (oms (snd (verify e lv id elapsed deadline s))) =
      alter (verdict_on_order (xl_done_us lv) v elapsed deadline) id (orders (oms s)).
Proof.
  intros Hd Hs Ho Hid Hg Ht Hr. eexists. split; [reflexivity|].
  unfold verify_order_execution. rewrite Hid. cbn [negb]. step. rewrite Hs, Ho. cbn -[probe_gates]. step.
  pose proof (probe_gates_ok e s) as Hp. destruct (probe_gates e s) as [r s1]. cbn [fst] in Hg. subst r.
  destruct Hp as ((B1 & _) & _ & Ed & _). step. rewrite Ed, Hd. step.
  unfold probe_exit. rewrite Ht. step. rewrite Hr. cbn [plain_verdict]. step. cbn. by rewrite B1, Ho.
Qed.

(** The engine refuses to lower a fill baseline, so that a redelivered update
    books nothing; a probe does lower it. After a probe whose row lags the tracked
    fill, the update that was already booked books its lots again. *)
Theorem a_stale_probe_reopens_a_fill e lv id elapsed deadline s o resp :
  dry_run (oms s) = false -> super_orders s !! id = None -> orders (oms s) !! id = Some o ->
  is_valid_order_id id = true -> fst (probe_gates e s) = Ok tt -> xl_token lv = None ->
  json_reply parse_order (xl_http lv (GetOrder id)) = inr resp ->
  mo_status o = PartTraded -> parse_order_status (dor_order_status resp) = Some PartTraded ->
  0 <= Z.max (dor_filled_qty resp) (dor_traded_quantity resp) < mo_traded_qty o -> mo_traded_qty o <= i64_max ->
  let s' := snd (verify e lv id elapsed deadline s) in
  exists o', orders (oms s') !! id = Some o' /\
    mo_traded_qty o' = Z.max (dor_filled_qty resp) (dor_traded_quantity resp) /\
    forall now u, ou_order_no u = id -> parse_order_status (ou_status u) = Some PartTraded ->
      ou_traded_qty u = mo_traded_qty o -> positive_price (fill_delta_price o' u) = true ->
      fst (handle_order_update now u (oms s)) = Ok None /\
      lots_of (fill_of (fst (handle_order_update now u (oms s')))) =
        Z.min (whole_lots o - whole_lots o') i32_max.
Proof.
  intros Hd Hs Ho Hid Hg Ht Hr Hst Hrow Hq Hmax s'.
  destruct (live_plain_probe e lv id elapsed deadline s o resp Hd Hs Ho Hid Hg Ht Hr) as (v & Ev & Es).
  fold s' in Es. rewrite Hrow in Ev. cbn [classify_mpp_verdict] in Ev.
  set (q := Z.max _ _) in *. rewrite (alter_some _ _ o) in Es by done.
  set (o' := verdict_on_order _ v _ _ o) in Es.
  assert (Ho' : mo_traded_qty o' = q /\ mo_status o' = PartTraded /\ mo_lot_size o' = mo_lot_size o).
  { unfold o'. rewrite Ev. clear -Hst. destruct o. cbn in Hst. subst. cbn. by destruct (deadline <=? elapsed). }
  clearbody o'. destruct Ho' as (Hq' & Hst' & Hlot). exists o'.
  assert (Ho2 : orders (oms s') !! id = Some o') by (by rewrite Es, lookup_insert_eq).
  split_and!; [done|done|]. intros now u <- Hu Hut Hpos.
  assert (Hnt : forall k, mo_status k = PartTraded -> is_terminal k = false) by (intros k E; unfold is_terminal; by rewrite E).
  rewrite (update_in_place now u (oms s) o), (update_in_place now u (oms s') o'); rewrite ?Hst, ?Hst'; auto.
  clear Ev. clearbody q.
  assert (Hi1 : in_i64 (mo_traded_qty o)) by (clear -Hq Hmax; zints).
  assert (Hi2 : in_i64 (mo_traded_qty o')) by (rewrite Hq'; clear -Hq Hmax; zints).
  assert (Hi3 : in_i64 (ou_traded_qty u)) by (by rewrite Hut).
  split.
  - pose proof (extract_fill_delta_cases o u Hi1 Hi3) as H. cbv zeta in H.
    destruct (extract_fill_delta o u); [|done]. destruct H as (_ & H & _). lia.
  - pose proof (extract_fill_delta_cases o' u Hi2 Hi3) as H. cbv zeta in H.
    assert (Hw : ou_traded_qty u / Z.max (mo_lot_size o') 1 = whole_lots o).
    { unfold whole_lots. rewrite Hut, Hlot, (Z.max_l (mo_traded_qty o)) by lia. done. }
    assert (Hle : whole_lots o' <= whole_lots o).
    { unfold whole_lots. rewrite Hlot. apply Z.div_le_mono; lia. }
    rewrite Hw in H. destruct (extract_fill_delta o' u) as [f|]; cbn [fill_of lots_of].
    + by destruct H as (_ & _ & _ & -> & _).
    + destruct H as [H|[H|H]]; [lia| |congruence]. unfold i32_max. lia.
Qed.
End properties.

(** * Instances *)

Definition sample_exits (o : OrderManagementSystem) : ExitOms := mkExitOms o ∅ ∅ [].
Definition sample_exit_live (http : ExitRequest -> HttpOutcome) : ExitLive := mkExitLive None http 3 4.
Definition sample_place_live : Live DhanPlaceOrderRequest := sample_live (fun _ _ => Responded 200 (inr "9")).
Definition no_parse {A} (_ : string) : string + A := inl "not JSON".
(** A slicing response of the broker's three rows. *)
Definition rows_parse (_ : string) : string + SlicingResponse :=
  inr (Many [mkPlaced "91" "PENDING" ""; mkPlaced "92" "PENDING" ""; mkPlaced "93" "TRANSIT" ""]).
(** A market order of five thousand, at a limit of 1800 a piece. *)
Definition sample_large : PlaceOrderRequest :=
  mkPlace 13 NseFno Sell Market Intraday Day 5000 f64_zero f64_zero 25 None.

Lemma paper_slices_add_up_witness :
  let '(res, s') := place_order_sliced counting_draw no_parse sample_error_body sample_parse sample_env
                      sample_place_live (sample_exit_live (fun _ => SendFailed "")) sample_large 1800
                      (sample_exits sample_oms) in
  res = Ok ["PAPER-1"; "PAPER-2"; "PAPER-3"] /\ booked_quantity s' ["PAPER-1"; "PAPER-2"; "PAPER-3"] = 5000.
Proof.
  pose proof (paper_slices_add_up counting_draw no_parse sample_error_body sample_parse sample_env
    sample_place_live (sample_exit_live (fun _ => SendFailed "")) sample_large 1800 (sample_exits sample_oms)) as H.
  destruct (place_order_sliced _ _ _ _ _ _ _ _ _ _) as [res s'] eqn:E.
  assert (Hr : res = Ok ["PAPER-1"; "PAPER-2"; "PAPER-3"]) by (apply (f_equal fst) in E; vm_compute in E; symmetry; exact E).
  subst res. destruct H as (_ & _ & Hq & _); [reflexivity|reflexivity|vm_compute; discriminate|vm_compute; discriminate|].
  split; [reflexivity|exact Hq].
Defined.

Lemma live_slices_are_flagged_witness :
  let '(res, s') := place_order_sliced counting_draw rows_parse sample_error_body sample_parse sample_env
                      sample_place_live (sample_exit_live (fun _ => Responded 200 (inr "[...]"))) sample_large 1800
                      (sample_exits sample_live_oms) in
  res = Ok ["91"; "92"; "93"] /\ booked_quantity s' ["91"; "92"; "93"] = 5000.
Proof.
  pose proof (live_slices_are_flagged counting_draw rows_parse sample_error_body sample_parse sample_env
    sample_place_live (sample_exit_live (fun _ => Responded 200 (inr "[...]"))) sample_large 1800
    (sample_exits sample_live_oms)) as H.
  destruct (place_order_sliced _ _ _ _ _ _ _ _ _ _) as [res s'] eqn:E.
  assert (Hr : res = Ok ["91"; "92"; "93"]) by (apply (f_equal fst) in E; vm_compute in E; symmetry; exact E).
  subst res. destruct H as (_ & _ & _ & _ & _ & _ & Hq); [reflexivity|reflexivity|].
  split; [reflexivity|]. apply Hq.
  - repeat constructor; rewrite ?list_elem_of_In; cbn; intuition discriminate.
  - exists [1800; 1800; 1400]. split; [reflexivity|left; reflexivity].
Defined.

Definition sample_super : PlaceSuperOrderRequest :=
  mkSuper 13 Buy Limit Intraday 50 (f64_of_Z 100) (f64_of_Z 120) (f64_of_Z 90) (f64_of_Z 5) 25 None.
Definition sample_halted : ExitOms := sample_exits (with_halt sample_live_oms (Some "DH-902")).

(** Five thousand go out under the halt, and fifty do not. *)
Lemma exit_placements_skip_the_halt_witness :
  let place r := place_order_sliced counting_draw rows_parse sample_error_body sample_parse sample_env
                   sample_place_live (sample_exit_live (fun _ => Responded 200 (inr "[...]"))) r 1800 sample_halted in
  fst (place sample_large) = Ok ["91"; "92"; "93"] /\
  (exists cid, exit_wire (snd (place sample_large)) = [PostSlicing (place_request (oms sample_halted) sample_large cid)]) /\
  (exists err, fst (place sample_request) = Err err).
Proof.
  intros place.
  pose proof (exit_placements_skip_the_halt counting_draw no_parse rows_parse sample_error_body sample_parse sample_env
    sample_place_live (sample_exit_live (fun _ => Responded 200 (inr "[...]"))) "DH-902" sample_halted
    eq_refl eq_refl ltac:(vm_compute; reflexivity) eq_refl) as (Hsmall & Hlarge & _).
  split; [|split].
  - unfold place. vm_compute. reflexivity.
  - apply (Hlarge sample_large 1800); [reflexivity|reflexivity|]. exists [1800; 1800; 1400]. reflexivity.
  - specialize (Hsmall sample_request 1800). unfold place.
    destruct (place_order_sliced _ _ _ _ _ _ _ _ _ _) as [res s']. apply Hsmall. vm_compute. discriminate.
Defined.

(** Two lots tracked, a row that knows of one, and the update redelivered. *)
Definition sample_filled_oms : OrderManagementSystem :=
  with_orders sample_live_oms
    {["O1" := set_avg_traded_price (set_traded_qty (set_status sample_order PartTraded) 50) (f64_of_Z 100)]}.
Definition stale_row (_ : string) : string + DhanOrderResponse :=
  inr (dhan_order "O1" "PART_TRADED" 25 (f64_of_Z 100)).

Lemma a_stale_probe_reopens_a_fill_witness :
  let s := sample_exits sample_filled_oms in
  let s' := snd (verify_order_execution no_parse stale_row sample_env
                   (sample_exit_live (fun _ => Responded 200 (inr "{}"))) "O1" 1 30 s) in
  let u := order_update "O1" "" "PART_TRADED" "NSE" "D" 50 (f64_of_Z 100) in
  fst (handle_order_update 9 u (oms s)) = Ok None /\
  lots_of (fill_of (fst (handle_order_update 9 u (oms s')))) = 1.
Proof.
  intros s s' u.
  destruct (a_stale_probe_reopens_a_fill no_parse stale_row sample_env
    (sample_exit_live (fun _ => Responded 200 (inr "{}"))) "O1" 1 30 s
    (set_avg_traded_price (set_traded_qty (set_status sample_order PartTraded) 50) (f64_of_Z 100))
    (dhan_order "O1" "PART_TRADED" 25 (f64_of_Z 100)) eq_refl eq_refl ltac:(vm_compute; reflexivity)
    ltac:(vm_compute; reflexivity) ltac:(vm_compute; reflexivity) eq_refl eq_refl
    ltac:(vm_compute; reflexivity) ltac:(vm_compute; reflexivity) ltac:(vm_compute; split; [discriminate|reflexivity])
    ltac:(vm_compute; discriminate)) as (o' & Ho' & Hq & H).
  fold s' in Ho'. assert (Eo : Some o' = orders (oms s') !! "O1") by (symmetry; exact Ho').
  vm_compute in Eo. injection Eo as ->.
  destruct (H 9 u) as [H1 H2]; try (vm_compute; reflexivity).
  split; [exact H1|]. exact H2.
Defined.
