(* ===== verification/ExitDispatch.v ===== *)
(** The exit dispatcher ([app/src/exit_execution.rs]): the configuration gate,
    the exit commands, the ladder of probes that follows a close, and the exit of
    one instrument on a strategy's signal.

    Each call of the engine reads its own clock and network: [Calls] indexes them
    by the call, [Ladder] by the attempt.  The order-side messages are the list
    returned; logs, metrics and redaction are not modelled. *)
From S2P Require Import Prelude Bytes Float OrderTypes OrderLifecycle Correlations.
From S2P Require Import ErrorTaxonomy ApiClient OmsEngine RiskEngine ExitRules OmsExits.
Local Open Scope Z_scope.

(** [ExitOrdersConfig] of [common/src/config.rs]. *)
Record ExitOrdersConfig : Type := mkExitConfig {
  enabled : bool;
  default_freeze_limit_qty : Z;
  freeze_limits_reviewed_on : string;
  mpp_verify_deadline_secs : Z;
  mpp_verify_max_attempts : Z;
  default_trailing_jump : f64 }.

(** Its boot-time check; [parse_date] is the calendar date's parser. *)
Definition validate_with_today (parse_date : string -> option Z) (today_ist : Z) (c : ExitOrdersConfig)
    : res string unit :=
  if negb ((1 <=? mpp_verify_deadline_secs c) && (mpp_verify_deadline_secs c <=? 300))
  then Err "exit_orders.mpp_verify_deadline_secs must be within 1..=300"
  else if negb ((1 <=? mpp_verify_max_attempts c) && (mpp_verify_max_attempts c <=? 8))
  then Err "exit_orders.mpp_verify_max_attempts must be within 1..=8"
  else if negb (is_finite (default_trailing_jump c) && f64_leb f64_zero (default_trailing_jump c))
  then Err "exit_orders.default_trailing_jump must be finite and >= 0.0"
  else if enabled c then
    if default_freeze_limit_qty c <? 1 then Err "exit_orders.default_freeze_limit_qty must be >= 1"
    else match parse_date (freeze_limits_reviewed_on c) with
         | None => Err "exit_orders.freeze_limits_reviewed_on must be a YYYY-MM-DD date"
         | Some reviewed =>
             if today_ist <? reviewed then Err "exit_orders.freeze_limits_reviewed_on is in the future"
             else mret tt
         end
  else mret tt.

(** * The ladder of probes *)

Definition is_final_attempt (attempt max_attempts : Z) : bool :=
  bool_decide (next_verify_backoff_secs (u32_saturating_add attempt 1) max_attempts = None).

Definition probe_elapsed_for_attempt (attempt max_attempts actual_elapsed_secs deadline_secs : Z) : Z :=
  if is_final_attempt attempt max_attempts then Z.max actual_elapsed_secs deadline_secs else actual_elapsed_secs.

(** What the probes of one ladder read, by the attempt; the clock at its end. *)
Record Ladder : Type := mkLadder {
  l_env : Z -> Env;
  l_live : Z -> ExitLive;
  l_elapsed : Z -> Z;
  l_end : Z }.

(** What the calls of one exit read: the [n]-th cancellation, the closing
    placement, the [n]-th verification and the time already spent verifying. *)
Record Calls : Type := mkCalls {
  c_env : nat -> Env;
  c_cancel : nat -> Live string;
  c_exit : nat -> ExitLive;
  c_place_env : Env;
  c_place : Live DhanPlaceOrderRequest;
  c_place_exit : ExitLive;
  c_verify_env : nat -> Env;
  c_verify_exit : nat -> ExitLive;
  c_ladder : nat -> Ladder;
  c_spent_ns : nat -> Z }.

(** What the exits of a strategy tell the order-side consumer. *)
Inductive OrderSideMsg : Type :=
  | SidePlaced (order_id : string) (security_id : Z) (segment transaction_type : string) (quantity : Z)
  | SidePlaceFailed (security_id : Z) (err : OmsError)
  | SideCancelled (order_id : string)
  | SideCancelFailed (order_id : string) (err : OmsError)
  | SidePnlEod (realized unrealized : f64).

Definition command_label (cmd : ExitCommand) : string :=
  match cmd with
  | CloseAll _ _ _ => "close_all"
  | PlaceBracket _ => "place_bracket"
  | TightenStop _ _ => "tighten_stop"
  | CancelBracket _ => "cancel_bracket"
  | PlaceOcoProtection _ => "place_oco_protection"
  | VerifyExecution _ => "verify_execution"
  end.

Section dispatch.
Context (draw : nat -> list Byte.byte).
Context (parse_super : string -> string + DhanSuperOrderResponse).
Context (parse_super_list : string -> string + list DhanSuperOrderResponse).
Context (parse_forever : string -> string + DhanForeverOrderResponse).
Context (parse_slicing : string -> string + SlicingResponse).
Context (parse_order : string -> string + DhanOrderResponse).
Context (error_body : string -> option (option CodeValue)).
Context (parse_placed : string -> string + DhanPlaceOrderResponse).
Context (cfg : ExitOrdersConfig).

Abbreviation verify := (verify_order_execution parse_super_list parse_order).

(** The rungs from [attempt] on: the last verdict and the error since it.  Out
    of fuel is [Panic], which as much fuel as there are attempts excludes. *)
Fixpoint ladder_rungs (fuel : nat) (l : Ladder) (order_id : string) (attempt : Z)
    (last_verdict : option ExecutionVerdict) (last_probe_error : option OmsError)
    : M (option ExecutionVerdict * option OmsError) :=
  match fuel with
  | O => fun s => (Panic, s)
  | S fuel' =>
      match next_verify_backoff_secs attempt (mpp_verify_max_attempts cfg) with
      | None => mret (last_verdict, last_probe_error)
      | Some _ => fun s =>
          let elapsed := probe_elapsed_for_attempt attempt (mpp_verify_max_attempts cfg) (l_elapsed l attempt)
                           (mpp_verify_deadline_secs cfg) in
          match verify (l_env l attempt) (l_live l attempt) order_id elapsed (mpp_verify_deadline_secs cfg) s with
          | (Ok verdict, s) =>
              if verify_verdict_decisive verdict (is_final_attempt attempt (mpp_verify_max_attempts cfg))
              then (Ok (Some verdict, None), s)
              else ladder_rungs fuel' l order_id (attempt + 1) (Some verdict) None s
          | (Err (OrderNotFound id), s) => (Err (OrderNotFound id), s)
          | (Err err, s) => ladder_rungs fuel' l order_id (attempt + 1) last_verdict (Some err) s
          | (Panic, s) => (Panic, s)
          end
      end
  end.

Definition ladder_fuel : nat := S (Z.to_nat (mpp_verify_max_attempts cfg)).

Definition run_verify_ladder (l : Ladder) (order_id : string) : M ExecutionVerdict :=
  r ← ladder_rungs ladder_fuel l order_id 1 None None;
  match r with
  | (Some (StillPending _), _) => mret (PendingAtLimit (Z.max (l_end l) (mpp_verify_deadline_secs cfg)))
  | (Some verdict, _) => mret verdict
  | (None, Some err) => throw err
  | (None, None) => mret (Unknown "VERIFY_LADDER_EMPTY")
  end.

(** * Closing one instrument *)

Definition is_at (security_id : Z) (segment : ExchangeSegment) (o : ManagedOrder) : bool :=
  (mo_security_id o =? security_id) && bool_decide (mo_exchange_segment o = segment).

(** The ids of the instrument's active orders. *)
Definition active_at (s : ExitOms) (security_id : Z) (segment : ExchangeSegment) : list string :=
  map mo_order_id (List.filter (is_at security_id segment) (active_orders (oms s))).

(** An error of one call does not stop the next. *)
Definition ignore {A} (m : M A) : M unit := fun s =>
  match m s with
  | (Ok _, s) | (Err _, s) => (Ok tt, s)
  | (Panic, s) => (Panic, s)
  end.

Definition cancel_active (c : Calls) (n : nat) (order_id : string) : M unit :=
  s ← get;
  match super_orders s !! order_id with
  | Some _ => cancel_super_order_leg parse_super (c_env c n) (c_exit c n) order_id EntryLeg
  | None => in_oms (cancel_order error_body (c_env c n) (c_cancel c n) order_id)
  end.

Fixpoint cancel_all (c : Calls) (n : nat) (ids : list string) : M unit :=
  match ids with
  | [] => mret tt
  | id :: ids => _ ← ignore (cancel_active c n id); cancel_all c (S n) ids
  end.

(** The market order against a net position. *)
Definition close_request (security_id : Z) (segment : ExchangeSegment) (net_lots : Z) : PlaceOrderRequest := {|
  pr_security_id := security_id; pr_exchange_segment := segment;
  pr_transaction_type := if 0 <? net_lots then Sell else Buy;
  pr_order_type := Market; pr_product_type := Intraday; pr_validity := Day;
  pr_quantity := Z.abs net_lots; pr_price := f64_zero; pr_trigger_price := f64_zero;
  pr_lot_size := 1; pr_expiry_date := None |}.

(** A ladder per id while the budget lasts, one probe at the limit after. *)
Fixpoint verify_all (c : Calls) (n : nat) (ids : list string) : M unit :=
  match ids with
  | [] => mret tt
  | id :: ids =>
      _ ← (if c_spent_ns c n <? mpp_verify_deadline_secs cfg * 1000000000
           then ignore (run_verify_ladder (c_ladder c n) id)
           else ignore (verify (c_verify_env c n) (c_verify_exit c n) id
                          (mpp_verify_deadline_secs cfg) (mpp_verify_deadline_secs cfg)));
      verify_all c (S n) ids
  end.

Definition close_all_for_security (c : Calls) (risk : RiskEngine) (security_id : Z)
    (segment : ExchangeSegment) (freeze_limit : Z) : M unit :=
  s ← get;
  _ ← cancel_all c 0 (active_at s security_id segment);
  let net_lots := net_lots_for_in_segment risk security_id segment in
  if net_lots =? 0 then mret tt else
  order_ids ← place_order_sliced draw parse_slicing error_body parse_placed (c_place_env c) (c_place c) (c_place_exit c)
                (close_request security_id segment net_lots) freeze_limit;
  verify_all c 0 order_ids.

(** * Commands *)

(** A bracket's lots, signed by its side. *)
Definition bracket_lots (r : PlaceSuperOrderRequest) : Z :=
  let lot_size := Z.max (so_lot_size r) 1 in
  let lots := let n := Z.max (Z.quot (so_quantity r) lot_size) 1 in if n <=? i32_max then n else i32_max in
  match so_transaction_type r with
  | Buy => lots
  | Sell => i32_saturating_neg lots
  end.

Definition dispatch_exit_command (c : Calls) (cmd : ExitCommand) (risk : RiskEngine) (s : ExitOms)
    : res OmsError unit * ExitOms * RiskEngine :=
  if negb (enabled cfg) then (Ok tt, s, risk) else
  match cmd with
  | CloseAll security_id segment freeze_limit =>
      (close_all_for_security c risk security_id segment freeze_limit s, risk)
  | PlaceBracket request =>
      let '(check, risk) := check_order_in_segment (so_security_id request) NseFno (bracket_lots request) risk in
      match check with
      | Approved =>
          ((_ ← place_super_order draw parse_super (c_env c 0) (c_exit c 0) request (default_freeze_limit_qty cfg);
            mret tt) s, risk)
      | RejectedFor _ => (Err (RiskRejected "bracket refused by risk engine"), s, risk)
      end
  | TightenStop order_id m => (modify_super_order_leg parse_super (c_env c 0) (c_exit c 0) order_id m s, risk)
  | CancelBracket order_id => (cancel_super_order_leg parse_super (c_env c 0) (c_exit c 0) order_id EntryLeg s, risk)
  | PlaceOcoProtection request =>
      ((_ ← place_forever_oco draw parse_forever (c_env c 0) (c_exit c 0) request; mret tt) s, risk)
  | VerifyExecution order_id => ((_ ← run_verify_ladder (c_ladder c 0) order_id; mret tt) s, risk)
  end.

(** * The exit of a strategy's signal *)

(** The cancellations of the disabled path, and what each tells. *)
Fixpoint legacy_cancels (c : Calls) (n : nat) (ids : list string) : M (list OrderSideMsg) :=
  match ids with
  | [] => mret []
  | id :: ids => fun s =>
      match in_oms (cancel_order error_body (c_env c n) (c_cancel c n) id) s with
      | (Ok _, s) => (rest ← legacy_cancels c (S n) ids; mret (SideCancelled id :: rest)) s
      | (Err err, s) => (rest ← legacy_cancels c (S n) ids; mret (SideCancelFailed id err :: rest)) s
      | (Panic, s) => (Panic, s)
      end
  end.

Definition legacy_close (c : Calls) (risk : RiskEngine) (security_id : Z) (segment : ExchangeSegment)
    : M (list OrderSideMsg) :=
  let net_lots := net_lots_for_in_segment risk security_id segment in
  if net_lots =? 0 then mret [] else fun s =>
  match in_oms (OmsEngine.place_order draw error_body parse_placed (c_place_env c) (c_place c)
                  (close_request security_id segment net_lots)) s with
  | (Ok order_id, s) =>
      (Ok [SidePlaced order_id security_id (segment_as_str segment)
             (if 0 <? net_lots then "SELL" else "BUY") (Z.abs net_lots)], s)
  | (Err err, s) => (Ok [SidePlaceFailed security_id err], s)
  | (Panic, s) => (Panic, s)
  end.

Definition execute_exit_for_security (c : Calls) (security_id exchange_segment_code : Z)
    (risk : RiskEngine) (s : ExitOms) : res OmsError (list OrderSideMsg) * ExitOms * RiskEngine :=
  match resolve_order_segment_code exchange_segment_code security_id with
  | None => (Ok [], s, risk)
  | Some segment =>
      if enabled cfg then
        let '(r, s, risk) :=
          dispatch_exit_command c (CloseAll security_id segment (default_freeze_limit_qty cfg)) risk s in
        (match r with Panic => Panic | _ => Ok [] end, s, risk)
      else
        ((cancelled ← legacy_cancels c 0 (active_at s security_id segment);
          closed ← legacy_close c risk security_id segment;
          mret (cancelled ++ closed)) s, risk)
  end.
End dispatch.
