(* ===== verification/TradingPipeline.v ===== *)
(** The trading pipeline's event loop ([app/src/trading_pipeline.rs]): a
    strategy's signals on a tick, the broker's order updates with the fill
    bridge into the risk engine, the market-close sweep, the daily reset and the
    scheduled reconciliation.

    Indicators and strategies are other components: a tick comes with the signals
    they gave on it, in order, each with what its calls read.  [side] is the
    ghost log of the messages to the order-side consumer.  Metrics and logs are
    not modelled; the streak that arms the reconciliation's error is. *)
From S2P Require Import Prelude Bytes Float OrderTypes OrderLifecycle Correlations.
From S2P Require Import Reconciliation ErrorTaxonomy OrderReadiness ApiClient OmsEngine RiskEngine ExitRules OmsExits ExitDispatch.
Local Open Scope Z_scope.

Definition IST_UTC_OFFSET_SECONDS : Z := 19800.
Definition ORDER_GATE_OPEN_SECS_OF_DAY_IST : Z := 33300.
Definition ORDER_GATE_CLOSE_SECS_OF_DAY_IST : Z := 56400.
Definition RECONCILE_FAILURE_EDGE_THRESHOLD : Z := 3.

Definition ist_secs_of_day (now_utc_secs : Z) : Z :=
  i64_saturating_add now_utc_secs IST_UTC_OFFSET_SECONDS mod SECONDS_PER_DAY.

Definition within_trading_hours (now_utc_secs : Z) : bool :=
  let t := ist_secs_of_day now_utc_secs in
  (ORDER_GATE_OPEN_SECS_OF_DAY_IST <=? t) && (t <? ORDER_GATE_CLOSE_SECS_OF_DAY_IST).

Inductive ExitReason : Type := TargetHit | StopLossHit | SignalReversal | SessionEnd | TrailingStop.

Inductive Signal : Type :=
  | EnterLong (size_fraction stop_loss target : f64)
  | EnterShort (size_fraction stop_loss target : f64)
  | Exit (reason : ExitReason)
  | Hold.

Record Pipeline : Type := mkPipeline {
  exits : ExitOms;
  risk : RiskEngine;
  ticks_processed : Z;
  signals_generated : Z;
  reconcile_failure_streak : Z;
  side : list OrderSideMsg }.

Definition with_exits (p : Pipeline) (s : ExitOms) : Pipeline :=
  mkPipeline s (risk p) (ticks_processed p) (signals_generated p) (reconcile_failure_streak p) (side p).
Definition with_risk (p : Pipeline) (r : RiskEngine) : Pipeline :=
  mkPipeline (exits p) r (ticks_processed p) (signals_generated p) (reconcile_failure_streak p) (side p).
Definition with_streak (p : Pipeline) (n : Z) : Pipeline :=
  mkPipeline (exits p) (risk p) (ticks_processed p) (signals_generated p) n (side p).
Definition tell (p : Pipeline) (msgs : list OrderSideMsg) : Pipeline :=
  mkPipeline (exits p) (risk p) (ticks_processed p) (signals_generated p) (reconcile_failure_streak p)
    (side p ++ msgs).
Definition count_tick (p : Pipeline) : Pipeline :=
  mkPipeline (exits p) (risk p) (u64_saturating_add (ticks_processed p) 1) (signals_generated p)
    (reconcile_failure_streak p) (side p).
Definition count_signal (p : Pipeline) : Pipeline :=
  mkPipeline (exits p) (risk p) (ticks_processed p) (u64_saturating_add (signals_generated p) 1)
    (reconcile_failure_streak p) (side p).

(** [should_run_scheduled_reconcile] and the failure streak. *)
Definition should_run_scheduled_reconcile (enabled trading_hours_only : bool)
    (calendar_says_trading_day : option bool) (weekday_is_mon_to_fri : bool) (ist_secs_of_day : Z) : bool :=
  if negb enabled then false
  else if negb trading_hours_only then true
  else default weekday_is_mon_to_fri calendar_says_trading_day &&
       ((33300 <=? ist_secs_of_day) && (ist_secs_of_day <? 55800)).

Definition advance_reconcile_failure_streak (streak : Z) : Z * bool :=
  let next := u32_saturating_add streak 1 in (next, next =? RECONCILE_FAILURE_EDGE_THRESHOLD).

Section pipeline.
Context (draw : nat -> list Byte.byte).
Context (parse_super : string -> string + DhanSuperOrderResponse).
Context (parse_super_list : string -> string + list DhanSuperOrderResponse).
Context (parse_forever : string -> string + DhanForeverOrderResponse).
Context (parse_slicing : string -> string + SlicingResponse).
Context (parse_order : string -> string + DhanOrderResponse).
Context (error_body : string -> option (option CodeValue)).
Context (parse_placed : string -> string + DhanPlaceOrderResponse).
Context (cfg : ExitOrdersConfig).

(** * Signals *)

(** The market order of one lot an entry places. *)
Definition entry_request (security_id : Z) (segment : ExchangeSegment) (side : TransactionType) : PlaceOrderRequest := {|
  pr_security_id := security_id; pr_exchange_segment := segment; pr_transaction_type := side;
  pr_order_type := Market; pr_product_type := Intraday; pr_validity := Day;
  pr_quantity := 1; pr_price := f64_zero; pr_trigger_price := f64_zero;
  pr_lot_size := 1; pr_expiry_date := None |}.

Definition lots_of_side (side : TransactionType) : Z := match side with Buy => 1 | Sell => -1 end.

Definition on_entry (c : Calls) (now_utc_secs security_id code : Z) (side : TransactionType) (p : Pipeline)
    : Pipeline :=
  if negb (within_trading_hours now_utc_secs) then p else
  let p := count_signal p in
  let '(check, r) := check_order security_id (lots_of_side side) (risk p) in
  let p := with_risk p r in
  match check with
  | Approved =>
      match resolve_order_segment_code code security_id with
      | None => p
      | Some segment =>
          let '(res, s) := in_oms (OmsEngine.place_order draw error_body parse_placed (c_place_env c) (c_place c)
                                     (entry_request security_id segment side)) (exits p) in
          let p := with_exits p s in
          match res with
          | Ok order_id => tell p [SidePlaced order_id security_id (segment_as_str segment) (transaction_type_as_str side) 1]
          | Err err => tell p [SidePlaceFailed security_id err]
          | Panic => p
          end
      end
  | RejectedFor _ => p
  end.

Definition on_signal (c : Calls) (now_utc_secs security_id code : Z) (signal : Signal) (p : Pipeline) : Pipeline :=
  match signal with
  | Hold => p
  | EnterLong _ _ _ => on_entry c now_utc_secs security_id code Buy p
  | EnterShort _ _ _ => on_entry c now_utc_secs security_id code Sell p
  | Exit _ =>
      let p := count_signal p in
      let '(msgs, s, r) :=
        execute_exit_for_security draw parse_super parse_super_list parse_forever parse_slicing parse_order error_body
          parse_placed cfg c security_id code (risk p) (exits p) in
      tell (with_risk (with_exits p s) r) (match msgs with Ok msgs => msgs | _ => [] end)
  end.

(** One tick: its clock reading, its instrument, and the strategies' signals. *)
Definition on_tick (now_utc_secs security_id code : Z) (signals : list (Signal * Calls)) (p : Pipeline) : Pipeline :=
  foldl (fun p sc => on_signal (snd sc) now_utc_secs security_id code (fst sc) p) (count_tick p) signals.

(** * The other arms *)

Definition on_order_update (now : Z) (u : OrderUpdate) (p : Pipeline) : Pipeline :=
  let '(r, o) := handle_order_update now u (oms (exits p)) in
  let p := with_exits p (with_oms (exits p) o) in
  match r with
  | Ok (Some fill) =>
      with_risk p (record_fill (fe_security_id fill) (fe_fill_lots fill) (fe_avg_price fill) (fe_lot_size fill) (risk p))
  | _ => p
  end.

Fixpoint cancel_pending (c : Calls) (n : nat) (ids : list string) (p : Pipeline) : Pipeline :=
  match ids with
  | [] => p
  | id :: ids =>
      let '(r, s) := in_oms (cancel_order error_body (c_env c n) (c_cancel c n) id) (exits p) in
      let p := with_exits p s in
      cancel_pending c (S n) ids
        (match r with
         | Ok _ => tell p [SideCancelled id]
         | Err err => tell p [SideCancelFailed id err]
         | Panic => p
         end)
  end.

Definition on_market_close (c : Calls) (p : Pipeline) : Pipeline :=
  let p := cancel_pending c 0 (map mo_order_id (active_orders (oms (exits p)))) p in
  tell p [SidePnlEod (total_realized_pnl (risk p)) (total_unrealized_pnl (risk p))].

Definition on_daily_reset (p : Pipeline) : Pipeline :=
  mkPipeline (reset_exits draw (exits p)) (RiskEngine.reset_daily (risk p)) 0 0 (reconcile_failure_streak p) (side p).

(** A run of the scheduled reconciliation: its result, or [None] past the arm's
    timeout, which loses what the run did.  Whether the error line fires. *)
Definition on_reconcile (now : Z) (outcome : option (res OmsError (list DhanOrderResponse))) (p : Pipeline)
    : bool * Pipeline :=
  let fail p := let '(next, fire) := advance_reconcile_failure_streak (reconcile_failure_streak p) in
                (fire, with_streak p next) in
  match outcome with
  | None => fail p
  | Some fetched =>
      let '(r, o) := reconcile now fetched (oms (exits p)) in
      let p := with_exits p (with_oms (exits p) o) in
      match r with
      | Ok _ => (false, with_streak p 0)
      | _ => fail p
      end
  end.

(** * Runs *)

Inductive event : Type :=
  | Tick (now_utc_secs security_id code : Z) (signals : list (Signal * Calls))
  | Update (now : Z) (u : OrderUpdate)
  | MarketClose (c : Calls)
  | DailyReset
  | Reconcile (now : Z) (outcome : option (res OmsError (list DhanOrderResponse))).

Definition handle (p : Pipeline) (ev : event) : Pipeline :=
  match ev with
  | Tick now security_id code signals => on_tick now security_id code signals p
  | Update now u => on_order_update now u p
  | MarketClose c => on_market_close c p
  | DailyReset => on_daily_reset p
  | Reconcile now outcome => snd (on_reconcile now outcome p)
  end.

Definition pipeline_run (evs : list event) (p : Pipeline) : Pipeline := foldl handle p evs.
End pipeline.

(** The state the loop starts in. *)
Definition new_pipeline (o : OrderManagementSystem) (r : RiskEngine) : Pipeline :=
  mkPipeline (mkExitOms o ∅ ∅ []) r 0 0 0 [].
