(* ===== verification/DispatchSafety.v ===== *)
(** What the ladder of probes, the exit of an instrument and the pipeline's
    loop guarantee. *)
From S2P Require Import Prelude Bytes Float OrderTypes OrderLifecycle Correlations.
From S2P Require Import Reconciliation ErrorTaxonomy ApiClient OmsEngine RiskEngine ExitRules OmsExits ExitSafety.
From S2P Require Import ExitDispatch TradingPipeline.
Local Open Scope Z_scope.

Section dispatch.
Context (draw : nat -> list Byte.byte).
Context (parse_super : string -> string + DhanSuperOrderResponse).
Context (parse_super_list : string -> string + list DhanSuperOrderResponse).
Context (parse_forever : string -> string + DhanForeverOrderResponse).
Context (parse_slicing : string -> string + SlicingResponse).
Context (parse_order : string -> string + DhanOrderResponse).
Context (error_body : string -> option (option CodeValue)).
Context (parse_placed : string -> string + DhanPlaceOrderResponse).
Context (cfg : ExitOrdersConfig).

Abbreviation verify := (verify_order_execution parse_super_list parse_order).
Abbreviation rungs := (ladder_rungs parse_super_list parse_order cfg).
Abbreviation ladder := (run_verify_ladder parse_super_list parse_order cfg).

(** * The ladder *)

(** The order, where it is tracked, is flagged for reconciliation. *)
Definition flagged (s : ExitOms) (id : string) : Prop :=
  forall o, orders (oms s) !! id = Some o -> mo_needs_reconciliation o = true.

(** A verdict a live ladder may end on without having lost the order. *)
Definition settled (s : ExitOms) (id : string) (v : ExecutionVerdict) : Prop :=
  match v with
  | Filled _ _ | Terminal _ => True
  | PartiallyFilled _ _ | PendingAtLimit _ | Unknown _ => flagged s id
  | StillPending _ | SimulatedFilled => False
  end.

Lemma final_attempt a : 1 <= a <= mpp_verify_max_attempts cfg -> mpp_verify_max_attempts cfg < u32_max ->
  is_final_attempt a (mpp_verify_max_attempts cfg) = bool_decide (a = mpp_verify_max_attempts cfg).
Proof.
  intros Ha Hm. unfold is_final_attempt. apply bool_decide_ext.
  assert (u32_saturating_add a 1 = a + 1) as -> by zints. unfold next_verify_backoff_secs.
  destruct (Z.eqb_spec (a + 1) 0); [lia|]. destruct (Z.ltb_spec (mpp_verify_max_attempts cfg) (a + 1)); cbn [orb];
    split; intros; try done; lia.
Qed.

(** A probe whose verdict ends the ladder leaves the order settled; at the last
    attempt any verdict does. *)
Lemma probe_settles e lv id a actual s v s' :
  1 <= a <= mpp_verify_max_attempts cfg -> mpp_verify_max_attempts cfg < u32_max ->
  verify e lv id (probe_elapsed_for_attempt a (mpp_verify_max_attempts cfg) actual (mpp_verify_deadline_secs cfg))
    (mpp_verify_deadline_secs cfg) s = (Ok v, s') ->
  dry_run (oms s) = false ->
  verify_verdict_decisive v (is_final_attempt a (mpp_verify_max_attempts cfg)) = true \/
  a = mpp_verify_max_attempts cfg ->
  settled s' id v.
Proof.
  intros Ha Hm E Hd Hend. unfold probe_elapsed_for_attempt in E. rewrite final_attempt in * by done.
  set (D := mpp_verify_deadline_secs cfg) in *. set (el := if bool_decide _ then _ else _) in E.
  pose proof (verify_ok parse_super_list parse_order e lv id el D s) as H.
  rewrite E in H. destruct H as (_ & _ & _ & H). rewrite Hd in H. destruct H as [Hv Ho].
  assert (Hel : a = mpp_verify_max_attempts cfg -> D <= el).
  { intros Ea. unfold el. rewrite bool_decide_true by done. lia. }
  clearbody el. unfold settled, flagged.
  assert (Hflag : (forall o, mo_needs_reconciliation (verdict_on_order (xl_done_us lv) v el D o) = true) ->
    forall o, orders (oms s') !! id = Some o -> mo_needs_reconciliation o = true).
  { intros Hf o. rewrite Ho, lookup_alter, decide_True by done.
    destruct (orders (oms s) !! id) as [o0|]; [|done]. cbn. intros [= <-]. apply Hf. }
  destruct v as [q p|q rest|t|t|st| |raw]; try done.
  - destruct Hend as [Hend|Hend]; [done|]. apply Hflag. intros o. specialize (Hel Hend). cbn.
    destruct (bool_decide _ && _); destruct (Z.leb_spec D el); cbn; done || lia.
  - destruct Hend as [Hend|Hend]; [done|]. specialize (Hel Hend).
    destruct Hv as [(st & f & _ & Hv & _)|[Hv|Hv]]; [lia|done|done].
  - by apply Hflag.
  - destruct Hv as [(st & f & _ & [])|[Hv|Hv]]; done.
  - apply Hflag. intros o. cbn. destruct (bool_decide (raw = _) && (el <? D)) eqn:Eb; [|done]. exfalso.
    apply andb_true_iff in Eb as [Er Eb]. apply bool_decide_eq_true in Er. apply Z.ltb_lt in Eb.
    assert (Hn : a <> mpp_verify_max_attempts cfg) by (intros Ea; specialize (Hel Ea); lia).
    destruct Hend as [Hend|Hend]; [|done]. cbn in Hend. rewrite !bool_decide_false in Hend by (subst; auto).
    discriminate Hend.
Qed.

Lemma backoff_some a : 1 <= a <= mpp_verify_max_attempts cfg ->
  exists d, next_verify_backoff_secs a (mpp_verify_max_attempts cfg) = Some d.
Proof. intros H. destruct (backoff_in_range a _ H) as (d & -> & _). by exists d. Qed.

Lemma rungs_ok l id : mpp_verify_max_attempts cfg < u32_max ->
  forall fuel a lv le s, 1 <= a <= mpp_verify_max_attempts cfg + 1 ->
  mpp_verify_max_attempts cfg + 1 - a < Z.of_nat fuel ->
  (a = mpp_verify_max_attempts cfg + 1 -> dry_run (oms s) = false -> le = None ->
     match lv with Some v => settled s id v | None => False end) ->
  let '(r, s') := rungs fuel l id a lv le s in
  dry_run (oms s') = dry_run (oms s) /\
  Z.of_nat (length (exit_wire s')) <= Z.of_nat (length (exit_wire s)) + (mpp_verify_max_attempts cfg + 1 - a) /\
  match r with
  | Ok (lv', le') =>
      dry_run (oms s) = false -> le' = None -> match lv' with Some v => settled s' id v | None => False end
  | Err err => exists i, err = OrderNotFound i
  | Panic => False
  end.
Proof.
  intros Hm. induction fuel as [|fuel IH]; intros a lv le s Ha Hf Hlast; [lia|]. cbn [ladder_rungs].
  destruct (decide (a = mpp_verify_max_attempts cfg + 1)) as [->|Hne].
  { unfold next_verify_backoff_secs. destruct (Z.eqb_spec (mpp_verify_max_attempts cfg + 1) 0); [lia|].
    destruct (Z.ltb_spec (mpp_verify_max_attempts cfg) (mpp_verify_max_attempts cfg + 1)); [|lia]. cbn [orb].
    rewrite retM. split_and!; [done|lia|exact (Hlast eq_refl)]. }
  assert (Ha' : 1 <= a <= mpp_verify_max_attempts cfg) by lia.
  destruct (backoff_some a Ha') as [d ->].
  set (el := probe_elapsed_for_attempt _ _ _ _).
  pose proof (verify_ok parse_super_list parse_order (l_env l a) (l_live l a) id el (mpp_verify_deadline_secs cfg) s) as Hv.
  destruct (verify _ _ id el _ s) as [[v|err|] s1] eqn:E; destruct Hv as (_ & Ed & Hw & Hv); [| |done].
  - destruct (verify_verdict_decisive v _) eqn:Edec.
    + split_and!; [done|lia|]. intros Hd _.
      apply (probe_settles (l_env l a) (l_live l a) id a (l_elapsed l a) s v s1); [lia|lia|exact E|done|by left].
    + specialize (IH (a + 1) (Some v) None s1 ltac:(lia) ltac:(lia)).
      destruct (rungs fuel l id (a + 1) (Some v) None s1) as [r s2]. destruct IH as (Ed2 & Hw2 & Hr).
      { intros Hend Hd _. apply (probe_settles (l_env l a) (l_live l a) id a (l_elapsed l a) s v s1);
          [lia|lia|exact E|congruence|right; lia]. }
      split_and!; [congruence|lia|]. by rewrite Ed in Hr.
  - assert (Hnext : forall err, let '(r, s') := rungs fuel l id (a + 1) lv (Some err) s1 in
      dry_run (oms s') = dry_run (oms s) /\
      Z.of_nat (length (exit_wire s')) <= Z.of_nat (length (exit_wire s)) + (mpp_verify_max_attempts cfg + 1 - a) /\
      match r with
      | Ok (lv', le') => dry_run (oms s) = false -> le' = None -> match lv' with Some v => settled s' id v | None => False end
      | Err err => exists i, err = OrderNotFound i
      | Panic => False
      end).
    { intros err'. specialize (IH (a + 1) lv (Some err') s1 ltac:(lia) ltac:(lia)).
      destruct (rungs fuel l id (a + 1) lv (Some err') s1) as [r s2]. destruct IH as (Ed2 & Hw2 & Hr); [done|].
      split_and!; [congruence|lia|]. by rewrite Ed in Hr. }
    clear IH E. destruct err as [| | | | |i| | | | | | | | | | | | | | | |];
      first [exact (Hnext _) | split_and!; [done|lia|by exists i]].
Qed.

(** C22: The ladder of probes after an exit ends, within its number of
    attempts and as many requests, never on an order left pending. In live mode,
    when its last probe was answered, the order is filled or over, or else it is
    flagged for reconciliation; the only error it raises early is that the order
    is not tracked. *)
Theorem exhaustion_is_never_silent l id s :
  1 <= mpp_verify_max_attempts cfg < u32_max ->
  let '(r, s') := rungs (ladder_fuel cfg) l id 1 None None s in
  Z.of_nat (length (exit_wire s')) <= Z.of_nat (length (exit_wire s)) + mpp_verify_max_attempts cfg /\
  match r with
  | Ok (v, le) => (dry_run (oms s) = false -> le = None -> exists w, v = Some w /\ settled s' id w)
  | Err err => exists i, err = OrderNotFound i
  | Panic => False
  end /\
  match fst (ladder l id s) with
  | Ok v => forall t, v <> StillPending t
  | Err _ => True
  | Panic => False
  end.
Proof.
  intros Hm. pose proof (rungs_ok l id ltac:(lia) (ladder_fuel cfg) 1 None None s) as H.
  unfold run_verify_ladder. rewrite bindM. unfold ladder_fuel in *.
  destruct (rungs _ l id 1 None None s) as [[[v le]|err|] s'];
    destruct H as (_ & Hw & H); try lia; (split; [lia|]).
  - split; [|destruct v as [[]|]; destruct le; cbn; intros; discriminate || exact I].
    intros Hd Hle. specialize (H Hd Hle). destruct v as [w|]; [by exists w|done].
  - split; [exact H|]. cbn. exact I.
Qed.

(** * Exits and entries *)

Lemma cancel_order_total e lv id o :
  let '(r, o') := cancel_order error_body e lv id o in total_placed o' = total_placed o.
Proof.
  unfold cancel_order. destruct (orders o !! id) as [k|]; [|done]. destruct (is_terminal k); [done|].
  pose proof (order_gates_frame e o) as Hg. destruct (order_gates e o) as [r o1].
  destruct Hg as ((_ & _ & _ & _ & _ & Et & _) & _). destruct r as [[]|err|]; [|done..].
  destruct (dry_run o1); [done|].
  pose proof (live_call_ok error_body lv Cancel id (fun n => ApiClient.cancel_order (lv_http lv id n)) o1) as Hl.
  destruct (live_call _ lv Cancel id _ o1) as [r o2]. destruct Hl as (k' & _ & (_ & _ & _ & _ & _ & Et2 & _) & _).
  destruct r as [[]|err|]; cbn; congruence.
Qed.

Definition no_placement (m : OrderSideMsg) : Prop :=
  match m with SidePlaced _ _ _ _ _ => False | _ => True end.

Lemma order_gates_total e s :
  let '(r, s') := check_order_gates e s in total_placed (oms s') = total_placed (oms s).
Proof.
  unfold check_order_gates, in_oms. pose proof (order_gates_frame e (oms s)) as H.
  destruct (order_gates e (oms s)) as [r o]. by destruct H as ((_ & _ & _ & _ & _ & Et & _) & _).
Qed.

Lemma live_exit_total {A} lv req (reply : HttpOutcome -> OmsError + A) s :
  let '(r, s') := live_exit lv req reply s in total_placed (oms s') = total_placed (oms s).
Proof.
  unfold live_exit. destruct (xl_token lv); [done|]. rewrite bindM. cbn [OmsExits.modify].
  by destruct (reply _) as [[]|].
Qed.

Lemma cancel_leg_total e lv id leg s :
  let '(r, s') := cancel_super_order_leg parse_super e lv id leg s in total_placed (oms s') = total_placed (oms s).
Proof.
  unfold cancel_super_order_leg. destruct (negb _); [done|]. step. destruct (super_orders s !! id); [|done].
  destruct (_ && _); [done|]. destruct (_ && _); [done|]. step.
  pose proof (order_gates_total e s) as Hg. destruct (check_order_gates e s) as [[[]|err|] s1]; [|done..].
  step. destruct (dry_run (oms s1)); [by destruct leg|]. step.
  pose proof (live_exit_total lv (DeleteSuperOrder id leg) (tolerant_reply parse_super) s1) as Hl.
  destruct (live_exit _ _ _ s1) as [[resp|err|] s2]; [|congruence..]. destruct leg; step; cbn; congruence.
Qed.

(** ** What an exit cancels *)

Lemma cancel_order_no_panic e lv id o : is_Panic (fst (cancel_order error_body e lv id o)) = false.
Proof.
  unfold cancel_order. destruct (orders o !! id) as [k|]; [|done]. destruct (is_terminal k); [done|].
  pose proof (order_gates_frame e o) as Hg. destruct (order_gates e o) as [r o1].
  destruct Hg as (_ & _ & _ & _ & Hp & _). destruct r as [[]|err|]; [|done..].
  destruct (dry_run o1); [done|].
  pose proof (live_call_ok error_body lv Cancel id (fun n => ApiClient.cancel_order (lv_http lv id n)) o1) as Hl.
  destruct (live_call _ lv Cancel id _ o1) as [r o2]. destruct Hl as (k' & Hr & _). by destruct r as [[]|err|].
Qed.

Lemma cancel_leg_no_panic e lv id leg s : is_Panic (fst (cancel_super_order_leg parse_super e lv id leg s)) = false.
Proof.
  unfold cancel_super_order_leg. destruct (negb _); [done|]. step. destruct (super_orders s !! id); [|done].
  destruct (_ && _); [done|]. destruct (_ && _); [done|]. step.
  pose proof (check_order_gates_ok e s) as Hg. destruct (check_order_gates e s) as [[[]|err|] s1]; [|done|by destruct Hg as (_ & ? & _)].
  step. destruct (dry_run (oms s1)); [by destruct leg|]. step.
  pose proof (live_exit_ok lv (DeleteSuperOrder id leg) (tolerant_reply parse_super) s1) as Hl.
  destruct (live_exit _ _ _ s1) as [[resp|err|] s2]; [by destruct leg|done|by destruct Hl as (_ & _ & _ & ? & _)].
Qed.

(** The cancellation of one order, the entry leg where the enabled layer tracks a
    bracket under its id, and of each of a list in turn, whatever the ones before answered. *)
Definition attempt (c : Calls) (n : nat) (id : string) (s : ExitOms) : ExitOms :=
  if enabled cfg && bool_decide (is_Some (super_orders s !! id))
  then snd (cancel_super_order_leg parse_super (c_env c n) (c_exit c n) id EntryLeg s)
  else with_oms s (snd (cancel_order error_body (c_env c n) (c_cancel c n) id (oms s))).

Fixpoint attempts (c : Calls) (n : nat) (ids : list string) (s : ExitOms) : ExitOms :=
  match ids with
  | [] => s
  | id :: ids => attempts c (S n) ids (attempt c n id s)
  end.

(** The order a message reports the cancellation of. *)
Definition cancelled_id (m : OrderSideMsg) : option string :=
  match m with SideCancelled id | SideCancelFailed id _ => Some id | _ => None end.

Lemma cancel_all_attempts c ids : enabled cfg = true -> forall n s,
  cancel_all parse_super error_body c n ids s = (Ok tt, attempts c n ids s).
Proof.
  intros Hen. induction ids as [|id ids IH]; intros n s; cbn [cancel_all attempts]; [done|]. rewrite bindM.
  assert (Ha : ignore (cancel_active parse_super error_body c n id) s = (Ok tt, attempt c n id s)).
  { unfold ignore, cancel_active, attempt. rewrite Hen. step. destruct (super_orders s !! id); cbn [andb].
    - rewrite bool_decide_true by done. pose proof (cancel_leg_no_panic (c_env c n) (c_exit c n) id EntryLeg s) as Hp.
      by destruct (cancel_super_order_leg _ _ _ id EntryLeg s) as [[[]|err|] s1].
    - rewrite bool_decide_false by (by intros [? [=]]). unfold in_oms.
      pose proof (cancel_order_no_panic (c_env c n) (c_cancel c n) id (oms s)) as Hp.
      by destruct (cancel_order _ _ _ id (oms s)) as [[[]|err|] o]. }
  rewrite Ha. apply IH.
Qed.

Lemma legacy_cancels_attempts c ids : enabled cfg = false -> forall n s, exists msgs,
  legacy_cancels error_body c n ids s = (Ok msgs, attempts c n ids s) /\
  map cancelled_id msgs = map Some ids /\ Forall no_placement msgs.
Proof.
  intros Hen. induction ids as [|id ids IH]; intros n s; cbn [legacy_cancels attempts]; [by exists []|].
  pose proof (cancel_order_no_panic (c_env c n) (c_cancel c n) id (oms s)) as Hp.
  unfold attempt. rewrite Hen. cbn [andb]. unfold in_oms.
  destruct (cancel_order _ _ _ id (oms s)) as [[u|err|] o]; [| |done]; cbn [snd]; rewrite bindM;
    destruct (IH (S n) (with_oms s o)) as (msgs & -> & Hm & Hn); eexists; (split; [reflexivity|]);
    cbn [map cancelled_id]; rewrite Hm; (split; [done|by constructor]).
Qed.

(** An exit where the risk engine's row for the instrument is flat attempts the
    cancellation of what is open there, and does nothing else. *)
Lemma flat_exit_only_cancels c sid code seg r s :
  resolve_order_segment_code code sid = Some seg -> net_lots_for_in_segment r sid seg = 0 ->
  exists msgs,
    execute_exit_for_security draw parse_super parse_super_list parse_forever parse_slicing parse_order error_body
      parse_placed cfg c sid code r s = (Ok msgs, attempts c 0 (active_at s sid seg) s, r) /\
    map cancelled_id msgs = (if enabled cfg then [] else map Some (active_at s sid seg)) /\ Forall no_placement msgs.
Proof.
  intros Hseg Hnet. unfold execute_exit_for_security. rewrite Hseg. destruct (enabled cfg) eqn:Hen.
  - unfold dispatch_exit_command. rewrite Hen. cbn [negb]. unfold close_all_for_security. step.
    rewrite (cancel_all_attempts c _ Hen), Hnet. cbn [Z.eqb]. exists []. split; [reflexivity|by split].
  - rewrite bindM. destruct (legacy_cancels_attempts c (active_at s sid seg) Hen 0 s) as (msgs & -> & Hm & Hn).
    unfold legacy_close. rewrite Hnet. cbn [Z.eqb]. step. exists msgs. by rewrite app_nil_r.
Qed.

Lemma attempts_total c ids : forall n s, total_placed (oms (attempts c n ids s)) = total_placed (oms s).
Proof.
  induction ids as [|id ids IH]; intros n s; cbn [attempts]; [done|]. rewrite IH. unfold attempt.
  destruct (_ && _).
  - pose proof (cancel_leg_total (c_env c n) (c_exit c n) id EntryLeg s) as Ht.
    by destruct (cancel_super_order_leg _ _ _ id EntryLeg s).
  - pose proof (cancel_order_total (c_env c n) (c_cancel c n) id (oms s)) as Ht.
    by destruct (cancel_order _ _ _ id (oms s)).
Qed.

(** * The loop *)

Abbreviation run := (pipeline_run draw parse_super parse_super_list parse_forever parse_slicing parse_order error_body
  parse_placed cfg).
Abbreviation signal := (on_signal draw parse_super parse_super_list parse_forever parse_slicing parse_order error_body
  parse_placed cfg).

(** Every position of the risk engine is in the index segment's row. *)
Definition index_rows_only (r : RiskEngine) : Prop :=
  forall sid g, g <> IdxI -> net_lots_for_in_segment r sid g = 0.

Lemma check_order_rows sid lots r : index_rows_only r -> index_rows_only (snd (check_order sid lots r)).
Proof.
  intros H s g Hg. rewrite <- (H s g Hg). unfold check_order, check_order_in_segment, net_lots_for_in_segment.
  destruct (halted _); [done|]. destruct (daily_loss_state _) as [pnl loss].
  assert (Et : forall b e, positions (trigger_halt b e) = positions e) by (intros; apply trigger_halt_frame).
  destruct (negb _); [cbn; by rewrite Et|]. destruct (loss_breached _ _); [cbn; by rewrite Et|].
  by destruct (_ <? _).
Qed.

Lemma exit_keeps_risk c sid code r s :
  (execute_exit_for_security draw parse_super parse_super_list parse_forever parse_slicing parse_order error_body
     parse_placed cfg c sid code r s).2 = r.
Proof.
  unfold execute_exit_for_security. destruct (resolve_order_segment_code code sid); [|done].
  destruct (enabled cfg) eqn:Hen; [|by destruct (_ s)].
  unfold dispatch_exit_command. rewrite Hen. cbn [negb]. by destruct (close_all_for_security _ _ _ _ _ _ _ _ _ _ _ _ _ s).
Qed.

Lemma signal_rows c now sid code sg p : index_rows_only (risk p) -> index_rows_only (risk (signal c now sid code sg p)).
Proof.
  intros H. destruct sg as [? ? ?|? ? ?|reason|]; cbn [on_signal]; [..|done].
  1,2: unfold on_entry; destruct (negb _); [done|];
    match goal with |- context [check_order ?a ?b ?r] => pose proof (check_order_rows a b r H) as Hc; destruct (check_order a b r) as [[|br] r'] end;
    [|exact Hc]; destruct (resolve_order_segment_code _ _); [|exact Hc];
    destruct (in_oms _ _) as [[|er|] ?]; exact Hc.
  pose proof (exit_keeps_risk c sid code (risk (count_signal p)) (exits (count_signal p))) as He.
  destruct (execute_exit_for_security _ _ _ _ _ _ _ _ _ _ _ _ _ _) as [[m s] r]. cbn [snd] in He. by subst r.
Qed.

Lemma handle_rows p ev :
  index_rows_only (risk p) ->
  index_rows_only (risk (handle draw parse_super parse_super_list parse_forever parse_slicing parse_order error_body
    parse_placed cfg p ev)).
Proof.
  intros H. destruct ev as [now sid code signals|now u|c| |now outcome]; cbn [handle].
  - unfold on_tick. assert (H' : index_rows_only (risk (count_tick p))) by exact H. revert H'.
    generalize (count_tick p). induction signals as [|[sg c] signals IH]; intros q Hq; [done|]. cbn [foldl].
    apply IH. by apply signal_rows.
  - unfold on_order_update. destruct (handle_order_update now u (oms (exits p))) as [[[f|]|er|] o']; try exact H.
    intros sid g Hg. cbn [risk with_risk with_exits]. unfold record_fill. rewrite record_fill_net.
    destruct (positive_price _ && _ && bool_decide _) eqn:E; [|by apply H].
    apply andb_true_iff in E as [_ E]. apply bool_decide_eq_true in E. injection E as _ E. by destruct Hg.
  - unfold on_market_close. cbn [risk tell]. generalize 0%nat.
    generalize (map mo_order_id (active_orders (oms (exits p)))). intros ids. revert p H.
    induction ids as [|id ids IH]; intros p H n; cbn [cancel_pending]; [exact H|].
    destruct (in_oms _ (exits p)) as [[|er|] s']; apply IH; exact H.
  - intros sid g _. reflexivity.
  - unfold on_reconcile. destruct outcome as [fetched|]; [|exact H].
    destruct (reconcile now fetched (oms (exits p))) as [[|er|] o']; exact H.
Qed.

Lemma run_rows evs : forall p, index_rows_only (risk p) -> index_rows_only (risk (run evs p)).
Proof.
  induction evs as [|ev evs IH]; intros p H; [done|]. apply (IH _). by apply handle_rows.
Qed.

(** C23: The fill bridge books every fill to the index segment, and an exit
    reads the row of the instrument's own segment. So whatever the loop has been
    through, an exit signal on an instrument of any other segment places no
    closing order, in the disabled and in the enabled layer alike: it attempts,
    one by one and whatever the ones before answered, the cancellation of each
    order the book holds open on the instrument (of the entry leg, where the
    enabled layer tracks a bracket under the order's id), changes nothing else of
    the orders and nothing of the risk state, and in the disabled layer reports
    each attempt. *)
Theorem exits_off_the_index_close_nothing evs o pct lots cap c now sid code seg reason :
  resolve_order_segment_code code sid = Some seg -> seg <> IdxI ->
  let p := run evs (new_pipeline o (new_risk pct lots cap)) in
  let p' := signal c now sid code (Exit reason) p in
  let open := active_at (exits p) sid seg in
  total_placed (oms (exits p')) = total_placed (oms (exits p)) /\ risk p' = risk p /\
  exits p' = attempts c 0 open (exits p) /\
  exists msgs, side p' = side p ++ msgs /\ Forall no_placement msgs /\
    map cancelled_id msgs = if enabled cfg then [] else map Some open.
Proof.
  intros Hseg Hne p p'. assert (Hrows : index_rows_only (risk p)) by (apply run_rows; intros s g _; reflexivity).
  unfold p'. clearbody p. cbn [on_signal].
  destruct (flat_exit_only_cancels c sid code seg (risk (count_signal p)) (exits (count_signal p)) Hseg (Hrows sid seg Hne)) as (msgs & -> & Hm & Hn).
  split; [apply attempts_total|]. split; [done|]. split; [done|]. by exists msgs.
Qed.
End dispatch.

(** A bracket's quantity is in units, a multiple of its lot size, and it is
    risk-checked and its fills are booked in lots; the order that closes a
    position sells its lots as if they were units. So closing a filled bracket of
    a lot size above one orders that many times too few units, whose fill, at lot
    size one, books the position flat. *)
Theorem a_close_sells_lots_as_units today r now seg id cid :
  well_formed_bracket today r -> 1 < so_lot_size r -> so_quantity r <= i32_max ->
  let filled := set_traded_qty (super_entry now r seg id cid Traded) (so_quantity r) in
  let close := close_request (so_security_id r) seg (bracket_lots r) in
  whole_lots filled = Z.abs (bracket_lots r) /\
  pr_quantity close * so_lot_size r = so_quantity r /\ pr_quantity close < so_quantity r /\
  whole_lots (set_traded_qty (paper_order sample_env close id cid Traded) (pr_quantity close)) = Z.abs (bracket_lots r).
Proof.
  intros Hb HL Hq filled close. destruct (wb_lots _ _ Hb HL) as [k Hk]. pose proof (wb_quantity _ _ Hb) as Hpos.
  assert (Hk0 : 0 < k) by nia. assert (Hkq : k <= so_quantity r) by nia.
  assert (Hlots : Z.abs (bracket_lots r) = k).
  { unfold bracket_lots. rewrite (Z.max_l (so_lot_size r)) by lia.
    assert (Z.quot (so_quantity r) (so_lot_size r) = k) as -> by (rewrite Hk; apply Z.quot_mul; lia).
    rewrite (Z.max_l k) by lia. rewrite (proj2 (Z.leb_le k i32_max)) by lia.
    destruct (so_transaction_type r); [lia|]. unfold i32_saturating_neg.
    assert (k <= i32_max) by lia. rewrite clamp_id; [lia|]. unfold i32_min, i32_max in *. lia. }
  assert (Hclose : pr_quantity close = k) by exact Hlots.
  split_and!.
  - unfold whole_lots, filled. cbn. rewrite (Z.max_l (so_lot_size r)), (Z.max_l (so_quantity r)) by lia.
    rewrite Hk, Z.div_mul by lia. by rewrite Hlots.
  - rewrite Hclose. lia.
  - rewrite Hclose. nia.
  - unfold whole_lots. cbn -[Z.div]. rewrite Hlots, Z.max_l, Z.max_l by lia. apply Z.div_1_r.
Qed.

Lemma sample_bracket_ok : well_formed_bracket 20000 sample_super.
Proof. by apply bracket_checked_ok. Qed.

Lemma a_close_sells_lots_as_units_witness :
  pr_quantity (close_request 13 NseFno (bracket_lots sample_super)) = 2 /\ so_quantity sample_super = 50.
Proof.
  destruct (a_close_sells_lots_as_units 20000 sample_super 9 NseFno "O1" "c1" sample_bracket_ok) as (_ & H & _);
    [reflexivity|vm_compute; discriminate|]. split; [|reflexivity].
  change (so_lot_size sample_super) with 25 in H. change (so_quantity sample_super) with 50 in H.
  change (so_security_id sample_super) with 13 in H. lia.
Defined.

(** * Instances *)

Definition sample_ladder : Ladder := mkLadder (fun _ => sample_env) (fun _ => sample_exit_live (fun _ => SendFailed "")) (fun a => a) 40.
Definition sample_calls : Calls :=
  mkCalls (fun _ => sample_env) (fun _ => sample_live (fun _ _ => SendFailed "")) (fun _ => sample_exit_live (fun _ => SendFailed ""))
    sample_env sample_place_live (sample_exit_live (fun _ => SendFailed "")) (fun _ => sample_env)
    (fun _ => sample_exit_live (fun _ => SendFailed "")) (fun _ => sample_ladder) (fun _ => 0).
Definition sample_config (on : bool) : ExitOrdersConfig := mkExitConfig on 1800 "2026-07-14" 30 5 f64_zero.

(** Monday morning, 09:30:00 IST. *)
Definition sample_now : Z := 1784520000.
Definition sample_risk : RiskEngine := new_risk (f64_of_Z 5) 10 (f64_of_Z 1000000).
Definition long_entry : Signal := EnterLong (f64_of_Z 1) (f64_of_Z 90) (f64_of_Z 120).
(** A long entry on a futures contract, and its fill. *)
Definition sample_day : list event :=
  [Tick sample_now 52432 2 [(long_entry, sample_calls)];
   Update 9 (order_update "PAPER-1" "" "TRADED" "NSE" "D" 1 (f64_of_Z 100))].

Abbreviation sample_run on evs :=
  (pipeline_run counting_draw no_parse no_parse no_parse rows_parse no_parse sample_error_body sample_parse
     (sample_config on) evs (new_pipeline sample_oms sample_risk)).

(** One lot is held, in the index row, and the exit closes nothing. *)
Lemma exits_off_the_index_close_nothing_witness :
  let p := sample_run false sample_day in
  let p' := on_signal counting_draw no_parse no_parse no_parse rows_parse no_parse sample_error_body sample_parse
              (sample_config false) sample_calls sample_now 52432 2 (Exit StopLossHit) p in
  net_lots_for (risk p) 52432 = 1 /\ total_placed (oms (exits p)) = 1 /\
  total_placed (oms (exits p')) = 1 /\ net_lots_for (risk p') 52432 = 1.
Proof.
  intros p p'.
  destruct (exits_off_the_index_close_nothing counting_draw no_parse no_parse no_parse rows_parse no_parse
    sample_error_body sample_parse (sample_config false) sample_day sample_oms (f64_of_Z 5) 10 (f64_of_Z 1000000)
    sample_calls sample_now 52432 2 NseFno StopLossHit eq_refl ltac:(discriminate)) as (Ht & Hr & _).
  assert (Hone : net_lots_for (risk p) 52432 = 1) by (vm_compute; reflexivity).
  assert (Hp : total_placed (oms (exits p)) = 1) by (vm_compute; reflexivity).
  split; [exact Hone|]. split; [exact Hp|]. split.
  - unfold p'. etransitivity; [exact Ht|exact Hp].
  - unfold p'. etransitivity; [exact (f_equal (fun r => net_lots_for r 52432) Hr)|exact Hone].
Defined.

(** The ladder ends on a partial fill its first probe saw and later probes could
    not confirm: it is returned, and the order is not flagged. *)
Definition sample_partial_row (_ : string) : string + DhanOrderResponse :=
  inr (dhan_order "O1" "PART_TRADED" 25 (f64_of_Z 100)).
Definition fading_ladder : Ladder :=
  mkLadder (fun _ => sample_env)
    (fun a => sample_exit_live (fun _ => if a =? 1 then Responded 200 (inr "{}") else SendFailed "reset"))
    (fun a => a) 25.

Example a_partial_fill_can_end_unflagged :
  let '(r, s') := run_verify_ladder no_parse sample_partial_row (sample_config true) fading_ladder "O1"
                    (sample_exits sample_live_oms) in
  r = Ok (PartiallyFilled 25 25) /\
  mo_needs_reconciliation <$> orders (oms s') !! "O1" = Some false.
Proof. vm_compute. by split. Qed.

Lemma exhaustion_is_never_silent_witness :
  match fst (run_verify_ladder no_parse sample_partial_row (sample_config true) fading_ladder "O1"
               (sample_exits sample_live_oms)) with
  | Ok v => forall t, v <> StillPending t
  | _ => False
  end.
Proof.
  pose proof (exhaustion_is_never_silent no_parse sample_partial_row (sample_config true) fading_ladder "O1"
    (sample_exits sample_live_oms)) as H.
  destruct (ladder_rungs _ _ _ _ _ _ _ _ _ _) as [r s']. destruct H as (_ & _ & H); [vm_compute; split; discriminate || reflexivity|].
  assert (Hr : fst (run_verify_ladder no_parse sample_partial_row (sample_config true) fading_ladder "O1"
    (sample_exits sample_live_oms)) = Ok (PartiallyFilled 25 25)) by (vm_compute; reflexivity).
  rewrite Hr in *. exact H.
Defined.
