(* ===== verification/PricePrecision.v ===== *)
(** Price precision ([common/src/price_precision.rs]): the conversion of a
    wire [f32] price to the [f64] a reader sees, by the arithmetic search and by
    printing and parsing, and rounding to two decimals.  Printing [f32] and
    parsing [f64] are the Standard Library's: the shortest decimal that reads
    back as the same [f32], the nearest [f64] of a decimal. *)
From Stdlib Require Import Ascii.
From S2P Require Import Prelude Bytes Float.
Local Open Scope Z_scope.

(** * Conversions of the language *)

(** [x as f32] for [x : f64]. *)
Definition f32_of_f64 (x : f64) : f32 :=
  match x with
  | S754_finite s m e => binary_round prec32 emax32 s m e
  | _ => x
  end.

(** The nearest [f64] of the ratio of two positive integers. *)
Definition f64_of_ratio (n d : positive) : f64 :=
  SFdiv prec64 emax64 (S754_finite false n 0) (S754_finite false d 0).

(** [f64::round]: to the nearest integer, halves away from zero. *)
Definition f64_round (x : f64) : f64 :=
  match x with
  | S754_finite s m (Zneg p) =>
      match (2 * Zpos m + 2 ^ Zpos p) / 2 ^ (Zpos p + 1) with
      | Zpos q => binary_round prec64 emax64 s q 0
      | _ => S754_zero s
      end
  | _ => x
  end.

(** * The shortest decimal of an [f32] *)

(** The positive rational [m * 2^e] as numerator and denominator. *)
Definition ratio_of (m : positive) (e : Z) : Z * Z :=
  if 0 <=? e then (Zpos m * 2 ^ e, 1) else (Zpos m, 2 ^ (- e)).

(** [d * 10^k] as an [f32], correctly rounded. *)
Definition f32_of_decimal (d k : Z) : f32 :=
  match d with
  | Zpos p =>
      if 0 <=? k then binary_round prec32 emax32 false (p * Z.to_pos (10 ^ k)) 0
      else SFdiv prec32 emax32 (S754_finite false p 0) (S754_finite false (Z.to_pos (10 ^ (- k))) 0)
  | _ => f32_zero
  end.

(** The exponent [k] such that [n / d] has [digits] digits before [10^k]. *)
Fixpoint decade (fuel : nat) (n d k : Z) : Z :=
  match fuel with
  | O => k
  | S fuel => if n <? d then decade fuel (10 * n) d (k - 1)
              else if 10 * d <=? n then decade fuel n (10 * d) (k + 1) else k
  end.

(** The [digits]-digit decimals next to [n / d], the nearer first. *)
Definition candidates (n d k : Z) : list Z :=
  let '(n, d) := if 0 <=? k then (n, d * 10 ^ k) else (n * 10 ^ (- k), d) in
  let q := n / d in
  if 2 * (n mod d) <? d then [q; q + 1] else [q + 1; q].

Fixpoint shortest_from (fuel : nat) (v : f32) (n d lead : Z) (digits : Z) : Z * Z :=
  let k := lead + 1 - digits in
  match filter (fun c => bool_decide (f32_of_decimal c k = v)) (candidates n d k), fuel with
  | c :: _, _ => (c, k)
  | [], S fuel => shortest_from fuel v n d lead (digits + 1)
  | [], O => (n / d, 0)
  end.

(** The shortest decimal [c * 10^k] that reads back as [v = m * 2^e]: nine digits
    always suffice for an [f32], and its decade is between -46 and 39. *)
Definition shortest_decimal (m : positive) (e : Z) : Z * Z :=
  let '(n, d) := ratio_of m e in
  shortest_from 9 (S754_finite false m e) n d (decade 64 n d 0) 1.

(** The digits of [n], and [{v}] for a finite non-zero [v]. *)
Fixpoint decimal_string (fuel : nat) (n : Z) (acc : string) : string :=
  match fuel with
  | O => acc
  | S fuel =>
      let acc := String (ascii_of_N (Z.to_N (48 + n mod 10))) acc in
      if n / 10 =? 0 then acc else decimal_string fuel (n / 10) acc
  end.

Fixpoint zeros (n : nat) : string :=
  match n with O => "" | S n => String "0" (zeros n) end.

Definition display_positive (c k : Z) : string :=
  let ds := decimal_string 20 c "" in
  let n := Z.of_nat (String.length ds) in
  if 0 <=? k then ds +:+ zeros (Z.to_nat k)
  else if n + k <=? 0 then "0." +:+ zeros (Z.to_nat (- (n + k))) +:+ ds
  else String.substring 0 (Z.to_nat (n + k)) ds +:+ "." +:+ String.substring (Z.to_nat (n + k)) (Z.to_nat (- k)) ds.

Definition display_f32 (s : bool) (m : positive) (e : Z) : string :=
  let '(c, k) := shortest_decimal m e in
  (if s then "-" else "") +:+ display_positive c k.

(** [str::parse::<f64>] on a sign, digits and at most one point: the digits as
    an integer, and how many of them follow the point. *)
Fixpoint parse_digits (t : string) (after : option Z) (acc : Z) : option (Z * Z) :=
  match t with
  | EmptyString => Some (acc, default 0 after)
  | String ch t =>
      if bool_decide (ch = "."%char) then
        match after with Some _ => None | None => parse_digits t (Some 0) acc end
      else let n := Z.of_N (N_of_ascii ch) - 48 in
        if (0 <=? n) && (n <=? 9) then parse_digits t ((fun a => a + 1) <$> after) (10 * acc + n) else None
  end.

Definition parse_f64 (t : string) : option f64 :=
  let '(s, body) := match t with String "-" t => (true, t) | _ => (false, t) end in
  if bool_decide (body = "" \/ body = ".") then None else
  '(n, k) ← parse_digits body None 0;
  Some (match n with
        | Zpos p => match f64_of_ratio p (Z.to_pos (10 ^ k)) with
                    | S754_finite _ m e => S754_finite s m e
                    | S754_infinity _ => S754_infinity s
                    | _ => S754_zero s
                    end
        | _ => S754_zero s
        end).

(** * [f32_to_f64_clean] *)

Definition F32_DECIMAL_BUF_SIZE : nat := 24.
Definition DECIMAL_SCALES : list f64 := (fun k => f64_of_Z (10 ^ k)) <$> [0; 1; 2; 3; 4; 5; 6; 7; 8; 9].
Definition ARITHMETIC_PATH_MAX_MAGNITUDE : f32 := f32_of_f64 (f64_of_Z 16777216).

(** The write stops at the end of the buffer; what fits is parsed. *)
Definition f32_to_f64_clean_via_text (v : f32) : f64 :=
  match v with
  | S754_finite s m e =>
      default (f64_of_f32 v)
        (parse_f64 (String.substring 0 F32_DECIMAL_BUF_SIZE (display_f32 s m e)))
  | _ => f64_of_f32 v
  end.

Fixpoint search_scales (v : f32) (scales : list f64) : option f64 :=
  match scales with
  | [] => None
  | scale :: scales =>
      let scaled := f64_mul (f64_of_f32 v) scale in
      let nearest := f64_round scaled in
      let candidate := f64_div nearest scale in
      if SFeqb (f32_of_f64 candidate) v then Some candidate else
      let other := if f64_ltb nearest scaled then f64_add nearest (f64_of_Z 1)
                   else f64_sub nearest (f64_of_Z 1) in
      let candidate := f64_div other scale in
      if SFeqb (f32_of_f64 candidate) v then Some candidate else search_scales v scales
  end.

Definition f32_to_f64_clean (v : f32) : f64 :=
  let magnitude := SFabs v in
  if SFltb f32_zero magnitude && SFltb magnitude ARITHMETIC_PATH_MAX_MAGNITUDE then
    default (f32_to_f64_clean_via_text v) (search_scales v DECIMAL_SCALES)
  else f32_to_f64_clean_via_text v.

Definition round_to_2dp (value : f64) : f64 :=
  if negb (is_finite value) then value else
  let rounded := f64_div (f64_round (f64_mul value (f64_of_Z 100))) (f64_of_Z 100) in
  if f64_eqb rounded f64_zero then f64_zero else rounded.

(** * Properties *)

Example clean_tick_price : f32_to_f64_clean (f32_of_f64 (f64_lit 2392565 2)) = f64_lit 2392565 2.
Proof. vm_compute. reflexivity. Qed.
Example clean_text_price : f32_to_f64_clean_via_text (f32_of_f64 (f64_lit 2392565 2)) = f64_lit 2392565 2.
Proof. vm_compute. reflexivity. Qed.
Example clean_large : f32_to_f64_clean (f32_of_f64 (f64_of_Z 123456792)) = f64_of_Z 123456790.
Proof. vm_compute. reflexivity. Qed.
Example round_down : round_to_2dp (f64_lit 26134 4) = f64_lit 261 2.
Proof. vm_compute. reflexivity. Qed.
