(* ===== verification/MarginGate.v ===== *)
(** The pre-trade margin gate ([trading/src/oms/margin_gate.rs], its payloads of
    [oms/types.rs], its configuration of [common/src/config.rs] and its two REST
    calls of [oms/api_client.rs]).  Money is integer paise.  What an entry check
    asks from outside is an argument, [EntryCalls]; the check returns its verdict
    and the list of what it asked, in order.  The governor crate's limiter, the
    HTTP exchange and the JSON decoding are parameters; metrics and logs are left
    out. *)
From S2P Require Import Prelude Bytes Float PricePrecision OrderTypes ErrorTaxonomy ApiClient OmsExits.
Local Open Scope Z_scope.

(** * Payloads *)

Record MarginCalculatorRequest : Type := mkMarginRequest {
  mq_dhan_client_id : string;
  mq_exchange_segment : string;
  mq_transaction_type : string;
  mq_quantity : Z;
  mq_product_type : string;
  mq_security_id : string;
  mq_price : f64;
  mq_trigger_price : f64 }.

Record MarginCalculatorResponse : Type := mkMarginResponse {
  mr_total_margin : f64;
  mr_span_margin : f64;
  mr_exposure_margin : f64;
  mr_available_balance : f64;
  mr_variable_margin : f64;
  mr_insufficient_balance : f64;
  mr_brokerage : f64;
  mr_leverage : string }.

Record FundLimitResponse : Type := mkFunds {
  fl_dhan_client_id : string;
  fl_availabel_balance : f64;
  fl_sod_limit : f64;
  fl_collateral_amount : f64;
  fl_receiveable_amount : f64;
  fl_utilized_amount : f64;
  fl_blocked_payout_amount : f64;
  fl_withdrawable_balance : f64 }.

Inductive OrderIntent : Type :=
  | Entry (required_paise : Z)
  | ExitIntent.

Record DhanMarginGateConfig : Type := mkMarginConfig {
  mg_enabled : bool;
  tenant_budget_percent : Z;
  rest_self_cap_per_sec : Z }.

Definition DHAN_MARGIN_GATE_REST_ALLOWED : bool := false.

(** [validate], the error texts dropped. *)
Definition validate_margin_config (cfg : DhanMarginGateConfig) : bool :=
  ((1 <=? tenant_budget_percent cfg) && (tenant_budget_percent cfg <=? 50)) &&
  ((2 <=? rest_self_cap_per_sec cfg) && (rest_self_cap_per_sec cfg <=? 10)).

(** * Money *)

Definition MAX_PLAUSIBLE_RUPEES : f64 := f64_of_Z 1000000000000.

(** [x as i64]: towards zero, saturating, NaN to zero. *)
Definition f64_as_i64 (x : f64) : Z :=
  match x with
  | S754_finite s m e =>
      let n := if 0 <=? e then Z.pos m * 2 ^ e else Z.pos m / 2 ^ (- e) in
      clamp i64_min i64_max (if s then - n else n)
  | S754_infinity s => if s then i64_min else i64_max
  | _ => 0
  end.

Definition paise_of (rupees : f64) : Z := f64_as_i64 (f64_round (f64_mul rupees (f64_of_Z 100))).

Definition to_paise (rupees : f64) : option Z :=
  if negb (is_finite rupees) || negb (f64_leb f64_zero rupees && f64_leb rupees MAX_PLAUSIBLE_RUPEES)
  then None else Some (paise_of rupees).

Definition to_paise_signed (rupees : f64) : option Z :=
  if negb (is_finite rupees) || f64_ltb MAX_PLAUSIBLE_RUPEES (f64_abs rupees)
  then None else Some (paise_of rupees).

(** * Verdicts *)

Record MarginSnapshot : Type := mkSnapshot {
  required_paise : Z;
  available_paise : Z;
  usable_paise : Z;
  span_paise : Z;
  exposure_paise : Z;
  insufficient_paise : Z }.

Inductive DegradedStage : Type := Token | MarginCall | FundLimitCall.

Definition degraded_stage_as_str (s : DegradedStage) : string :=
  match s with
  | Token => "token"
  | MarginCall => "margin_call"
  | FundLimitCall => "fund_limit_call"
  end.

Inductive ImplausibleReason : Type :=
  | NonFiniteOrNegativeMargin
  | NonFiniteInsufficientBalance
  | ZeroTotalMargin
  | NonFiniteFunds
  | ClientIdMismatch.

Definition implausible_reason_as_str (r : ImplausibleReason) : string :=
  match r with
  | NonFiniteOrNegativeMargin => "non_finite_or_negative_margin"
  | NonFiniteInsufficientBalance => "non_finite_insufficient_balance"
  | ZeroTotalMargin => "zero_total_margin"
  | NonFiniteFunds => "non_finite_funds"
  | ClientIdMismatch => "client_id_mismatch"
  end.

Inductive MarginVerdict : Type :=
  | ExitAlwaysAllowed
  | SkippedDisabled
  | Allowed (snapshot : MarginSnapshot)
  | RefusedInsufficient (snapshot : MarginSnapshot)
  | RefusedTenantBudget (snapshot : MarginSnapshot)
  | RefusedSelfCap
  | RefusedDegraded (stage : DegradedStage)
  | RefusedImplausible (reason : ImplausibleReason).

Definition verdict_as_str (v : MarginVerdict) : string :=
  match v with
  | ExitAlwaysAllowed => "exit_allowed"
  | SkippedDisabled => "skipped_disabled"
  | Allowed _ => "allowed"
  | RefusedInsufficient _ => "refused_insufficient"
  | RefusedTenantBudget _ => "refused_tenant_budget"
  | RefusedSelfCap => "refused_self_cap"
  | RefusedDegraded _ => "refused_degraded"
  | RefusedImplausible _ => "refused_implausible"
  end.

Definition permits_live_entry (v : MarginVerdict) : bool :=
  match v with Allowed _ | ExitAlwaysAllowed => true | _ => false end.

Definition permits_paper_entry (v : MarginVerdict) : bool :=
  match v with Allowed _ | ExitAlwaysAllowed | SkippedDisabled => true | _ => false end.

Definition to_order_intent (v : MarginVerdict) : option OrderIntent :=
  match v with
  | Allowed snapshot => Some (Entry (required_paise snapshot))
  | ExitAlwaysAllowed => Some ExitIntent
  | _ => None
  end.

(** * The decision *)

Definition build_snapshot (required available usable insufficient : Z) (margin : MarginCalculatorResponse)
    : MarginSnapshot :=
  mkSnapshot required available usable (default 0 (to_paise (mr_span_margin margin)))
    (default 0 (to_paise (mr_exposure_margin margin))) insufficient.

(** [i64::try_from(..).unwrap_or(0)] of the share, computed in 128 bits. *)
Definition tenant_share (available percent : Z) : Z :=
  if available <=? 0 then 0
  else
    let share := Z.quot (available * percent) 100 in
    if (i64_min <=? share) && (share <=? i64_max) then share else 0.

Definition decide_entry (margin : MarginCalculatorResponse) (funds : FundLimitResponse)
    (expected_client_id : string) (percent : Z) : MarginVerdict :=
  if bool_decide (fl_dhan_client_id funds <> "") && bool_decide (fl_dhan_client_id funds <> expected_client_id)
  then RefusedImplausible ClientIdMismatch else
  match to_paise (mr_total_margin margin) with
  | None => RefusedImplausible NonFiniteOrNegativeMargin
  | Some required =>
      if required =? 0 then RefusedImplausible ZeroTotalMargin else
      match to_paise (mr_insufficient_balance margin) with
      | None => RefusedImplausible NonFiniteInsufficientBalance
      | Some insufficient =>
          if 0 <? insufficient then
            RefusedInsufficient
              (build_snapshot required (default 0 (to_paise_signed (fl_availabel_balance funds))) 0 insufficient margin)
          else
          match to_paise_signed (fl_availabel_balance funds) with
          | None => RefusedImplausible NonFiniteFunds
          | Some available =>
              let usable := tenant_share available percent in
              let snapshot := build_snapshot required available usable insufficient margin in
              if required <=? usable then Allowed snapshot else RefusedTenantBudget snapshot
          end
      end
  end.

(** * The gate *)

Record MarginGate : Type := mkMarginGate {
  expected_client_id : string;
  mg_cfg : DhanMarginGateConfig;
  self_cap_quota : Z;
  rest_allowed : bool }.

Definition new_margin_gate (expected_client_id : string) (cfg : DhanMarginGateConfig) : MarginGate := {|
  expected_client_id := expected_client_id;
  mg_cfg := mkMarginConfig (mg_enabled cfg) (Z.min (tenant_budget_percent cfg) 50) (rest_self_cap_per_sec cfg);
  self_cap_quota := clamp 2 10 (rest_self_cap_per_sec cfg);
  rest_allowed := DHAN_MARGIN_GATE_REST_ALLOWED |}.

(** [allow_rest_for_test], and what a change of the lock would make of a gate. *)
Definition with_rest_allowed (g : MarginGate) (allowed : bool) : MarginGate :=
  mkMarginGate (expected_client_id g) (mg_cfg g) (self_cap_quota g) allowed.

Definition margin_gate_enabled (g : MarginGate) : bool := mg_enabled (mg_cfg g) && rest_allowed g.

Definition check_exit (g : MarginGate) : MarginVerdict := ExitAlwaysAllowed.

(** What the limiter, the token source and the broker answer to one check. *)
Record EntryCalls : Type := mkEntryCalls {
  ec_permits : bool;
  ec_token : option OmsError;
  ec_margin : MarginCalculatorRequest -> HttpOutcome;
  ec_funds : HttpOutcome }.

Inductive MarginCallMade : Type :=
  | AskPermits
  | ReadToken
  | PostMarginCalculator (body : MarginCalculatorRequest)
  | GetFundLimit.

Section check_entry.
Context (parse_margin : string -> string + MarginCalculatorResponse).
Context (parse_funds : string -> string + FundLimitResponse).

Definition calculate_margin (c : EntryCalls) (r : MarginCalculatorRequest) : OmsError + MarginCalculatorResponse :=
  json_reply parse_margin (ec_margin c r).

Definition get_fund_limit (c : EntryCalls) : OmsError + FundLimitResponse := json_reply parse_funds (ec_funds c).

Definition check_entry (g : MarginGate) (c : EntryCalls) (r : MarginCalculatorRequest)
    : MarginVerdict * list MarginCallMade :=
  if negb (margin_gate_enabled g) then (SkippedDisabled, []) else
  if bool_decide (expected_client_id g = "") || bool_decide (mq_dhan_client_id r <> expected_client_id g)
  then (RefusedImplausible ClientIdMismatch, []) else
  if negb (ec_permits c) then (RefusedSelfCap, [AskPermits]) else
  match ec_token c with
  | Some _ => (RefusedDegraded Token, [AskPermits; ReadToken])
  | None =>
      match calculate_margin c r with
      | inl _ => (RefusedDegraded MarginCall, [AskPermits; ReadToken; PostMarginCalculator r])
      | inr margin =>
          let calls := [AskPermits; ReadToken; PostMarginCalculator r; GetFundLimit] in
          match get_fund_limit c with
          | inl _ => (RefusedDegraded FundLimitCall, calls)
          | inr funds =>
              (decide_entry margin funds (expected_client_id g) (tenant_budget_percent (mg_cfg g)), calls)
          end
      end
  end.
End check_entry.

(** * Facts *)

Lemma tenant_share_spec available percent : 0 <= percent <= 50 -> available <= i64_max ->
  tenant_share available percent = if available <=? 0 then 0 else available * percent / 100.
Proof.
  intros Hp Ha. unfold tenant_share. destruct (Z.leb_spec available 0) as [|Hpos]; [done|].
  rewrite Z.quot_div_nonneg by lia.
  assert (0 <= available * percent / 100 <= available).
  { split; [apply Z.div_pos; lia|]. apply Z.div_le_upper_bound; nia. }
  destruct (Z.leb_spec i64_min (available * percent / 100)) as [|Hm]; [|unfold i64_min in Hm; lia].
  destruct (Z.leb_spec (available * percent / 100) i64_max); [done|lia].
Qed.

Lemma f64_as_i64_range x : i64_min <= f64_as_i64 x <= i64_max.
Proof. unfold f64_as_i64, clamp, i64_min, i64_max. destruct x as [|[]| |]; lia. Qed.

Lemma paise_range x p : to_paise x = Some p \/ to_paise_signed x = Some p -> i64_min <= p <= i64_max.
Proof.
  unfold to_paise, to_paise_signed, paise_of. intros [H|H]; destruct (_ || _); try done; injection H as <-;
    apply f64_as_i64_range.
Qed.

(** A float that is not below zero. *)
Definition not_negative (x : f64) : bool :=
  match x with S754_finite true _ _ | S754_infinity true => false | _ => true end.

Lemma round_aux_not_negative p emax m e l : not_negative (binary_round_aux p emax false m e l) = true.
Proof.
  unfold binary_round_aux. destruct (shr_fexp p emax m e l) as [r e']. destruct (shr_fexp _ _ _ _ _) as [r' e''].
  destruct (shr_m r'); try done. by destruct (e'' <=? emax - p).
Qed.

Lemma round_not_negative x : not_negative x = true -> not_negative (f64_round x) = true.
Proof.
  destruct x as [s|s| |[] m [|e|e]]; cbn [f64_round not_negative]; try done. intros _.
  destruct (_ / _) as [|q|q]; try done. unfold binary_round. destruct (shl_align _ _ _). apply round_aux_not_negative.
Qed.

Lemma as_i64_not_negative x : not_negative x = true -> 0 <= f64_as_i64 x.
Proof.
  unfold f64_as_i64, clamp, i64_min, i64_max. destruct x as [s|[]| |[] m e]; cbn [not_negative]; try lia. intros _.
  destruct (Z.leb_spec 0 e); [nia|]. pose proof (Z.div_pos (Z.pos m) (2 ^ (- e))). lia.
Qed.

Lemma to_paise_nonneg x p : to_paise x = Some p -> 0 <= p.
Proof.
  unfold to_paise. destruct (is_finite x) eqn:Hf; [|done]. destruct (f64_leb f64_zero x) eqn:Hl; [|done].
  destruct (f64_leb x MAX_PLAUSIBLE_RUPEES); [|done]. cbn. intros [= <-].
  apply as_i64_not_negative, round_not_negative. destruct x as [s|s| |[] m e]; cbn in Hf, Hl; try done.
  apply round_aux_not_negative.
Qed.

(** The conditions under which the two replies cover an entry. *)
Record affordable (expected : string) (percent : Z) (m : MarginCalculatorResponse) (f : FundLimitResponse)
    (snap : MarginSnapshot) : Prop := {
  aff_account : fl_dhan_client_id f = "" \/ fl_dhan_client_id f = expected;
  aff_required : to_paise (mr_total_margin m) = Some (required_paise snap);
  aff_shortfall : to_paise (mr_insufficient_balance m) = Some 0;
  aff_available : to_paise_signed (fl_availabel_balance f) = Some (available_paise snap);
  aff_snapshot : snap = build_snapshot (required_paise snap) (available_paise snap)
                          (available_paise snap * percent / 100) 0 m;
  aff_share : 1 <= required_paise snap <= available_paise snap * percent / 100 }.

Lemma decide_entry_allows expected percent m f snap : 0 <= percent <= 50 ->
  decide_entry m f expected percent = Allowed snap <-> affordable expected percent m f snap.
Proof.
  intros Hp. unfold decide_entry. split.
  - case_bool_decide as Ha; case_bool_decide as Hb; cbn [andb]; try done.
    all: destruct (to_paise (mr_total_margin m)) as [req|] eqn:Er; [|done];
      destruct (Z.eqb_spec req 0); [done|];
      destruct (to_paise (mr_insufficient_balance m)) as [short|] eqn:Es; [|done];
      destruct (Z.ltb_spec 0 short); [done|];
      destruct (to_paise_signed (fl_availabel_balance f)) as [av|] eqn:Ea; [|done];
      pose proof (paise_range _ _ (or_intror Ea)) as [_ Hav];
      rewrite tenant_share_spec by done;
      pose proof (to_paise_nonneg _ _ Er); pose proof (to_paise_nonneg _ _ Es); assert (short = 0) as -> by lia;
      destruct (Z.leb_spec av 0); [destruct (Z.leb_spec req 0); [lia|done]|];
      destruct (Z.leb_spec req (av * percent / 100)); [|done];
      intros [= <-]; constructor; cbn; try done; try lia; tauto.
  - intros [Ha Er Es Eav Esn Hs].
    assert (Hg : bool_decide (fl_dhan_client_id f <> "") && bool_decide (fl_dhan_client_id f <> expected) = false).
    { destruct Ha as [Ha|Ha]; [rewrite (bool_decide_eq_false_2 (_ <> "")) by (by intros Hn; apply Hn)
        |rewrite (bool_decide_eq_false_2 (_ <> expected)) by (by intros Hn; apply Hn); rewrite andb_comm]; done. }
    rewrite Hg, Er. destruct (Z.eqb_spec (required_paise snap) 0); [lia|]. rewrite Es, Eav. cbn.
    pose proof (paise_range _ _ (or_intror Eav)) as [_ Hav]. rewrite tenant_share_spec by done.
    destruct (Z.leb_spec (available_paise snap) 0).
    { assert (available_paise snap * percent / 100 <= 0); [|lia]. apply Z.div_le_upper_bound; nia. }
    destruct (Z.leb_spec (required_paise snap) (available_paise snap * percent / 100)); [|lia]. by rewrite <- Esn.
Qed.

(** A verdict that is not [Allowed], against conditions that fail. *)
Ltac refused := split; [done|intros Hc; decompose [and ex] Hc; congruence].

(** A margin check allows an entry exactly when the gate is switched on in the
    configuration and in the code, the request and the broker's reply are for the
    gate's own account, both calls were permitted and answered, the broker reports
    no shortfall, and the required margin is positive and within the configured
    share of the available balance; never more than half of it, whatever the
    configuration says. *)
Theorem entry_allowed_iff parse_margin parse_funds id cfg lock c r snap :
  0 <= tenant_budget_percent cfg ->
  let g := with_rest_allowed (new_margin_gate id cfg) lock in
  let percent := Z.min (tenant_budget_percent cfg) 50 in
  fst (check_entry parse_margin parse_funds g c r) = Allowed snap <->
  mg_enabled cfg = true /\ lock = true /\ id <> "" /\ mq_dhan_client_id r = id /\
  ec_permits c = true /\ ec_token c = None /\
  exists m f, json_reply parse_margin (ec_margin c r) = inr m /\ json_reply parse_funds (ec_funds c) = inr f /\
    affordable id percent m f snap /\ 2 * required_paise snap <= available_paise snap.
Proof.
  intros Hp g percent. unfold check_entry, margin_gate_enabled, g. cbn.
  assert (Hr : 0 <= percent <= 50) by lia.
  destruct (mg_enabled cfg), lock; cbn; [|refused..].
  case_bool_decide as Hid; [refused|].
  case_bool_decide as Hq; cbn; [refused|].
  destruct (ec_permits c); cbn; [|refused].
  destruct (ec_token c); cbn; [refused|]. unfold calculate_margin, get_fund_limit.
  destruct (json_reply parse_margin (ec_margin c r)) as [|m]; cbn; [refused|].
  destruct (json_reply parse_funds (ec_funds c)) as [|f]; cbn; [refused|].
  fold percent. rewrite decide_entry_allows by done. split.
  - intros H. split_and!; try done.  exists m, f. split_and!; try done.
    pose proof (aff_share _ _ _ _ _ H). pose proof (Z.mul_div_le (available_paise snap * percent) 100). nia.
  - intros (_ & _ & _ & _ & _ & _ & m' & f' & [= <-] & [= <-] & H & _). done.
Qed.

Lemma decide_entry_no_exit m f id percent : decide_entry m f id percent <> ExitAlwaysAllowed.
Proof. unfold decide_entry. repeat case_match; done. Qed.

Lemma check_entry_shape parse_margin parse_funds g c r :
  let '(v, calls) := check_entry parse_margin parse_funds g c r in
  v <> ExitAlwaysAllowed /\
  calls `prefix_of` [AskPermits; ReadToken; PostMarginCalculator r; GetFundLimit] /\
  (calls <> [] -> mq_dhan_client_id r = expected_client_id g).
Proof.
  unfold check_entry. destruct (negb (margin_gate_enabled g)); [split_and!; [done|apply prefix_nil|done]|].
  destruct (bool_decide (expected_client_id g = "")); cbn; [split_and!; [done|apply prefix_nil|done]|].
  case_bool_decide as Hq; [split_and!; [done|apply prefix_nil|done]|].
  assert (Hp : forall l k : list MarginCallMade, l `prefix_of` (l ++ k)) by (intros; apply prefix_app_r; done).
  destruct (negb (ec_permits c)); [split_and!; [done|apply (Hp [_])|done]|].
  destruct (ec_token c); [split_and!; [done|apply (Hp [_; _])|done]|].
  destruct (calculate_margin _ c r); [split_and!; [done|apply (Hp [_; _; _])|done]|].
  destruct (get_fund_limit _ c); split_and!; try done; apply decide_entry_no_exit.
Qed.

(** The gate in the code is switched off: whatever the configuration says, an
    entry check asks for no permit, reads no token and sends nothing, and its
    verdict blocks a live entry and lets a paper entry pass. An exit is always
    allowed. Were it switched on, a check would make the first few of its four
    calls in order, all of them only if the first three succeed, and never a call
    for another account. *)
Theorem gate_is_off_and_exits_pass parse_margin parse_funds id cfg c r :
  let g := new_margin_gate id cfg in
  check_entry parse_margin parse_funds g c r = (SkippedDisabled, []) /\
  permits_live_entry SkippedDisabled = false /\ permits_paper_entry SkippedDisabled = true /\
  permits_live_entry (check_exit g) = true /\
  let '(v, calls) := check_entry parse_margin parse_funds (with_rest_allowed g true) c r in
  calls `prefix_of` [AskPermits; ReadToken; PostMarginCalculator r; GetFundLimit] /\
  (calls <> [] -> mq_dhan_client_id r = id) /\
  (permits_live_entry v = true <-> exists snap, v = Allowed snap) /\
  (permits_live_entry v = true <-> exists i, to_order_intent v = Some i).
Proof.
  intros g. split_and!; [unfold check_entry, margin_gate_enabled; cbn; by rewrite andb_false_r|done..|].
  pose proof (check_entry_shape parse_margin parse_funds (with_rest_allowed g true) c r) as H.
  destruct (check_entry _ _ _ _ _) as [v calls]. destruct H as (Hv & Hc & Hi). cbn in Hi.
  split_and!; [done..| |]; destruct v; cbn; split; first [done | by eexists | by intros [? ?]].
Qed.

(** * Examples *)

Definition sample_margin (total short : Z) : MarginCalculatorResponse :=
  mkMarginResponse (f64_of_Z total) (f64_of_Z 1) (f64_of_Z 1) f64_zero f64_zero (f64_of_Z short) f64_zero "4.00".
Definition sample_funds (available : Z) : FundLimitResponse :=
  mkFunds "100" (f64_of_Z available) f64_zero f64_zero f64_zero f64_zero f64_zero f64_zero.
Definition sample_margin_request : MarginCalculatorRequest :=
  mkMarginRequest "100" "NSE_FNO" "BUY" 25 "INTRADAY" "52432" (f64_of_Z 100) f64_zero.
Definition sample_entry_calls : EntryCalls :=
  mkEntryCalls true None (fun _ => Responded 200 (inr "")) (Responded 200 (inr "")).

Example paise : map (fun n => to_paise (f64_div (f64_of_Z n) (f64_of_Z 1000))) [0; 4; 5; 10; 123456; 999999999] =
  [Some 0; Some 0; Some 1; Some 1; Some 12346; Some 100000000].
Proof. vm_compute. reflexivity. Qed.

Example refusals :
  (decide_entry (sample_margin 500 0) (sample_funds 999) "100" 50,
   decide_entry (sample_margin 0 0) (sample_funds 999) "100" 50,
   decide_entry (sample_margin 500 0) (sample_funds 2000) "200" 50) =
  (RefusedTenantBudget (mkSnapshot 50000 99900 49950 100 100 0), RefusedImplausible ZeroTotalMargin,
   RefusedImplausible ClientIdMismatch).
Proof. vm_compute. reflexivity. Qed.

Lemma entry_allowed_iff_witness :
  fst (check_entry (fun _ => inr (sample_margin 500 0)) (fun _ => inr (sample_funds 1000))
         (with_rest_allowed (new_margin_gate "100" (mkMarginConfig true 80 5)) true) sample_entry_calls
         sample_margin_request) = Allowed (mkSnapshot 50000 100000 50000 100 100 0).
Proof.
  apply (entry_allowed_iff (fun _ => inr (sample_margin 500 0)) (fun _ => inr (sample_funds 1000)) "100"
           (mkMarginConfig true 80 5) true sample_entry_calls sample_margin_request); [vm_compute; discriminate|].
  split_and!; try reflexivity; [discriminate|].
  exists (sample_margin 500 0), (sample_funds 1000). split; [reflexivity|]. split; [reflexivity|]. split; [|cbn; lia].
  constructor; [by right|vm_compute; reflexivity..|vm_compute; split; discriminate].
Defined.
