(* ===== verification/Candles.v ===== *)
(** The timeframes and the per-bucket state of the candle engine
    ([trading/src/candles/tf_index.rs], [live_candle_state.rs]): the ordinals and
    names of the eight frames, the grid of buckets anchored at the session open,
    the state of one bucket with its seal-time percentages and its signed
    volume. *)
From S2P Require Import Prelude Bytes Float PricePrecision.
Local Open Scope Z_scope.

(** * Timeframes *)

Inductive TfIndex : Type := M1 | M3 | M5 | M15 | S1 | M30 | M60 | M10.

#[global] Instance TfIndex_eq_dec : EqDecision TfIndex.
Proof. solve_decision. Defined.

Definition TF_COUNT : Z := 8.
Definition ALL : list TfIndex := [M1; M3; M5; M15; S1; M30; M60; M10].

Definition as_ordinal (tf : TfIndex) : Z :=
  match tf with M1 => 0 | M3 => 1 | M5 => 2 | M15 => 3 | S1 => 4 | M30 => 5 | M60 => 6 | M10 => 7 end.

Definition from_ordinal (ord : Z) : option TfIndex :=
  match ord with
  | 0 => Some M1 | 1 => Some M3 | 2 => Some M5 | 3 => Some M15
  | 4 => Some S1 | 5 => Some M30 | 6 => Some M60 | 7 => Some M10
  | _ => None
  end.

Definition table_name (tf : TfIndex) : string :=
  match tf with
  | M1 => "candles_1m" | M3 => "candles_3m" | M5 => "candles_5m" | M15 => "candles_15m"
  | S1 => "candles_1s" | M30 => "candles_30m" | M60 => "candles_60m" | M10 => "candles_10m"
  end.

Definition display_name (tf : TfIndex) : string :=
  match tf with
  | M1 => "1m" | M3 => "3m" | M5 => "5m" | M15 => "15m"
  | S1 => "1s" | M30 => "30m" | M60 => "60m" | M10 => "10m"
  end.

Definition seconds_per_bucket (tf : TfIndex) : Z :=
  match tf with
  | M1 => 60 | M3 => 180 | M5 => 300 | M15 => 900 | S1 => 1 | M30 => 1800 | M60 => 3600 | M10 => 600
  end.

Definition is_second_scale (tf : TfIndex) : bool := seconds_per_bucket tf <? 60.

(** * The grid *)

Definition MARKET_OPEN_SECS_OF_DAY_IST : Z := 33300.
Definition CANDLE_SESSION_OPEN_SECS_OF_DAY_IST : Z := 33300.
Definition MARKET_CLOSE_SECS_OF_DAY_IST : Z := 56400.
Definition IST_UTC_OFFSET_SECS : Z := 19800.

(** [fold_clock_ist_secs]: the exchange stamp and nothing else. *)
Definition fold_clock_ist_secs (exchange_timestamp : Z) : Z := exchange_timestamp.

Definition day_start (secs : Z) : Z := secs / 86400 * 86400.

Definition bucket_start_every (tick_ist_secs secs : Z) : Z :=
  let session_open := u32_saturating_add (day_start tick_ist_secs) CANDLE_SESSION_OPEN_SECS_OF_DAY_IST in
  if tick_ist_secs <=? session_open then session_open
  else u32_saturating_add session_open ((tick_ist_secs - session_open) / secs * secs).

Definition bucket_start (tf : TfIndex) (tick_ist_secs : Z) : Z :=
  bucket_start_every tick_ist_secs (seconds_per_bucket tf).

Definition bucket_end (tf : TfIndex) (start : Z) : Z :=
  u32_saturating_add start (seconds_per_bucket tf).

Definition first_session_bucket_offset (tf : TfIndex) : Z :=
  bucket_start tf MARKET_OPEN_SECS_OF_DAY_IST.

(** * The state of one bucket *)

Record LiveCandleState : Type := mkCandle {
  lc_bucket_start : Z;
  lc_open : f64;
  lc_high : f64;
  lc_low : f64;
  lc_close : f64;
  lc_volume : Z;
  lc_net : Z;
  lc_start_cumulative : Z;
  lc_oi : Z;
  lc_tick_count : Z;
  lc_close_ts : Z;
  lc_open_ts : Z;
  lc_prev_day_close : f64;
  lc_close_pct : f64;
  lc_prev_close : f64;
  lc_total_buy : Z;
  lc_total_sell : Z;
  lc_session_open : f64;
  lc_open_pct : f64;
  lc_open_gap_pct : f64;
  lc_classified : bool;
  lc_first_receipt : Z;
  lc_last_receipt : Z }.

Definition empty_state : LiveCandleState := {|
  lc_bucket_start := 0; lc_open := f64_zero; lc_high := S754_infinity true;
  lc_low := S754_infinity false; lc_close := f64_zero; lc_volume := 0; lc_net := 0;
  lc_start_cumulative := 0; lc_oi := 0; lc_tick_count := 0; lc_close_ts := 0;
  lc_open_ts := 0; lc_prev_day_close := f64_zero; lc_close_pct := f64_zero;
  lc_prev_close := f64_zero; lc_total_buy := 0; lc_total_sell := 0;
  lc_session_open := f64_zero; lc_open_pct := f64_zero; lc_open_gap_pct := f64_zero;
  lc_classified := false; lc_first_receipt := 0; lc_last_receipt := 0 |}.

Definition is_uninitialised (st : LiveCandleState) : bool := lc_bucket_start st =? 0.

(** Assignments to some fields. *)
Definition with_range (st : LiveCandleState) (h l : f64) : LiveCandleState :=
  mkCandle (lc_bucket_start st) (lc_open st) h l (lc_close st) (lc_volume st) (lc_net st)
    (lc_start_cumulative st) (lc_oi st) (lc_tick_count st) (lc_close_ts st) (lc_open_ts st)
    (lc_prev_day_close st) (lc_close_pct st) (lc_prev_close st) (lc_total_buy st)
    (lc_total_sell st) (lc_session_open st) (lc_open_pct st) (lc_open_gap_pct st)
    (lc_classified st) (lc_first_receipt st) (lc_last_receipt st).
Definition with_open (st : LiveCandleState) (o : f64) (ts : Z) : LiveCandleState :=
  mkCandle (lc_bucket_start st) o (lc_high st) (lc_low st) (lc_close st) (lc_volume st) (lc_net st)
    (lc_start_cumulative st) (lc_oi st) (lc_tick_count st) (lc_close_ts st) ts
    (lc_prev_day_close st) (lc_close_pct st) (lc_prev_close st) (lc_total_buy st)
    (lc_total_sell st) (lc_session_open st) (lc_open_pct st) (lc_open_gap_pct st)
    (lc_classified st) (lc_first_receipt st) (lc_last_receipt st).
Definition with_close (st : LiveCandleState) (c : f64) (ts : Z) : LiveCandleState :=
  mkCandle (lc_bucket_start st) (lc_open st) (lc_high st) (lc_low st) c (lc_volume st) (lc_net st)
    (lc_start_cumulative st) (lc_oi st) (lc_tick_count st) ts (lc_open_ts st)
    (lc_prev_day_close st) (lc_close_pct st) (lc_prev_close st) (lc_total_buy st)
    (lc_total_sell st) (lc_session_open st) (lc_open_pct st) (lc_open_gap_pct st)
    (lc_classified st) (lc_first_receipt st) (lc_last_receipt st).
Definition with_flow (st : LiveCandleState) (v n : Z) (classified : bool) : LiveCandleState :=
  mkCandle (lc_bucket_start st) (lc_open st) (lc_high st) (lc_low st) (lc_close st) v n
    (lc_start_cumulative st) (lc_oi st) (lc_tick_count st) (lc_close_ts st) (lc_open_ts st)
    (lc_prev_day_close st) (lc_close_pct st) (lc_prev_close st) (lc_total_buy st)
    (lc_total_sell st) (lc_session_open st) (lc_open_pct st) (lc_open_gap_pct st)
    classified (lc_first_receipt st) (lc_last_receipt st).
Definition with_start_cumulative (st : LiveCandleState) (v : Z) : LiveCandleState :=
  mkCandle (lc_bucket_start st) (lc_open st) (lc_high st) (lc_low st) (lc_close st) (lc_volume st)
    (lc_net st) v (lc_oi st) (lc_tick_count st) (lc_close_ts st) (lc_open_ts st)
    (lc_prev_day_close st) (lc_close_pct st) (lc_prev_close st) (lc_total_buy st)
    (lc_total_sell st) (lc_session_open st) (lc_open_pct st) (lc_open_gap_pct st)
    (lc_classified st) (lc_first_receipt st) (lc_last_receipt st).
Definition with_book (st : LiveCandleState) (oi buy sell : Z) : LiveCandleState :=
  mkCandle (lc_bucket_start st) (lc_open st) (lc_high st) (lc_low st) (lc_close st) (lc_volume st)
    (lc_net st) (lc_start_cumulative st) oi (lc_tick_count st) (lc_close_ts st) (lc_open_ts st)
    (lc_prev_day_close st) (lc_close_pct st) (lc_prev_close st) buy sell (lc_session_open st)
    (lc_open_pct st) (lc_open_gap_pct st) (lc_classified st) (lc_first_receipt st)
    (lc_last_receipt st).
Definition with_tick_count (st : LiveCandleState) (n : Z) : LiveCandleState :=
  mkCandle (lc_bucket_start st) (lc_open st) (lc_high st) (lc_low st) (lc_close st) (lc_volume st)
    (lc_net st) (lc_start_cumulative st) (lc_oi st) n (lc_close_ts st) (lc_open_ts st)
    (lc_prev_day_close st) (lc_close_pct st) (lc_prev_close st) (lc_total_buy st)
    (lc_total_sell st) (lc_session_open st) (lc_open_pct st) (lc_open_gap_pct st)
    (lc_classified st) (lc_first_receipt st) (lc_last_receipt st).
Definition with_baselines (st : LiveCandleState) (prev_day session : f64) : LiveCandleState :=
  mkCandle (lc_bucket_start st) (lc_open st) (lc_high st) (lc_low st) (lc_close st) (lc_volume st)
    (lc_net st) (lc_start_cumulative st) (lc_oi st) (lc_tick_count st) (lc_close_ts st)
    (lc_open_ts st) prev_day (lc_close_pct st) (lc_prev_close st) (lc_total_buy st)
    (lc_total_sell st) session (lc_open_pct st) (lc_open_gap_pct st) (lc_classified st)
    (lc_first_receipt st) (lc_last_receipt st).
Definition with_percentages (st : LiveCandleState) (close_pct open_pct gap_pct : f64) : LiveCandleState :=
  mkCandle (lc_bucket_start st) (lc_open st) (lc_high st) (lc_low st) (lc_close st) (lc_volume st)
    (lc_net st) (lc_start_cumulative st) (lc_oi st) (lc_tick_count st) (lc_close_ts st)
    (lc_open_ts st) (lc_prev_day_close st) close_pct (lc_prev_close st) (lc_total_buy st)
    (lc_total_sell st) (lc_session_open st) open_pct gap_pct (lc_classified st)
    (lc_first_receipt st) (lc_last_receipt st).
Definition with_receipts (st : LiveCandleState) (first last : Z) : LiveCandleState :=
  mkCandle (lc_bucket_start st) (lc_open st) (lc_high st) (lc_low st) (lc_close st) (lc_volume st)
    (lc_net st) (lc_start_cumulative st) (lc_oi st) (lc_tick_count st) (lc_close_ts st)
    (lc_open_ts st) (lc_prev_day_close st) (lc_close_pct st) (lc_prev_close st)
    (lc_total_buy st) (lc_total_sell st) (lc_session_open st) (lc_open_pct st)
    (lc_open_gap_pct st) (lc_classified st) first last.

(** * Percentages and signed volume *)

Definition pct_change_raw (value baseline : f64) : f64 :=
  if negb (is_finite baseline) || f64_leb baseline f64_zero || negb (is_finite value) then f64_zero
  else
    let pct := f64_mul (f64_div (f64_sub value baseline) baseline) (f64_of_Z 100) in
    if negb (is_finite pct) then f64_zero else pct.

Definition pct_change (value baseline : f64) : f64 := round_to_2dp (pct_change_raw value baseline).

Definition stamp_seal_percentages (st : LiveCandleState) : LiveCandleState :=
  with_percentages st (pct_change (lc_close st) (lc_prev_day_close st))
    (pct_change (lc_close st) (lc_session_open st))
    (pct_change (lc_session_open st) (lc_prev_day_close st)).

(** [i64::try_from(volume).unwrap_or(i64::MAX)]. *)
Definition gross (st : LiveCandleState) : Z := if lc_volume st <=? i64_max then lc_volume st else i64_max.

Definition net_volume (st : LiveCandleState) : option Z :=
  if negb (lc_classified st) || (lc_tick_count st =? 0) || (lc_volume st =? 0) then None
  else Some (clamp (- gross st) (gross st) (lc_net st)).

Definition signed_volume (st : LiveCandleState) : Z :=
  let prev := lc_prev_close st in
  if negb (is_finite prev) || f64_leb prev f64_zero then gross st
  else if f64_ltb (lc_close st) prev then - gross st else gross st.

Definition close_chg_pct_from_prev_bar (st : LiveCandleState) : option f64 :=
  let baseline := lc_prev_close st in
  if negb (is_finite baseline) || f64_leb baseline f64_zero then None
  else let pct := pct_change (lc_close st) baseline in
    if is_finite pct then Some pct else None.

(** * The grid's laws *)

Lemma seconds_pos tf : 0 < seconds_per_bucket tf.
Proof. by destruct tf. Qed.

Lemma first_offset tf : first_session_bucket_offset tf = 33300.
Proof. by destruct tf. Qed.

Lemma day_start_bounds s : 0 <= s -> 0 <= day_start s <= s /\ s < day_start s + 86400 /\ day_start s mod 86400 = 0.
Proof.
  intros H. unfold day_start.
  pose proof (Z.div_mod s 86400 ltac:(lia)). pose proof (Z.mod_pos_bound s 86400 ltac:(lia)).
  pose proof (Z.div_pos s 86400 H ltac:(lia)). repeat split; try lia. by apply Z.mod_mul.
Qed.

Lemma day_start_same s t : 0 <= s -> day_start s <= t < day_start s + 86400 -> day_start t = day_start s.
Proof.
  intros Hs Ht. unfold day_start in *. f_equal.
  symmetry. apply (Z.div_unique t 86400 _ (t - 86400 * (s / 86400))); lia.
Qed.

(** The bucket of [s] in closed form, saturation included. *)
Lemma bucket_start_spec tf s : in_u32 s ->
  let o := Z.min (day_start s + 33300) u32_max in
  (s <= o -> bucket_start tf s = o) /\
  (o < s -> exists k, 0 <= k /\ bucket_start tf s = o + k * seconds_per_bucket tf /\
     bucket_start tf s <= s < bucket_start tf s + seconds_per_bucket tf).
Proof.
  intros Hs o. pose proof (seconds_pos tf) as Hp. destruct (day_start_bounds s) as (? & ? & _); [by zints|].
  assert (Ho : u32_saturating_add (day_start s) CANDLE_SESSION_OPEN_SECS_OF_DAY_IST = o).
  { subst o. unfold CANDLE_SESSION_OPEN_SECS_OF_DAY_IST. zints. }
  unfold bucket_start, bucket_start_every. rewrite Ho. split; intros Hle.
  - by rewrite (proj2 (Z.leb_le s o)) by lia.
  - rewrite (proj2 (Z.leb_gt s o)) by lia. exists ((s - o) / seconds_per_bucket tf).
    pose proof (Z.div_mod (s - o) (seconds_per_bucket tf) ltac:(lia)).
    pose proof (Z.mod_pos_bound (s - o) (seconds_per_bucket tf) ltac:(lia)).
    pose proof (Z.div_pos (s - o) (seconds_per_bucket tf) ltac:(lia) ltac:(lia)).
    assert (0 <= o) by (subst o; zints).
    rewrite u32_saturating_add_exact by (unfold in_u32 in *; nia). split; [done|]. nia.
Qed.

Lemma bucket_start_range tf s : in_u32 s -> 33300 <= bucket_start tf s <= u32_max.
Proof.
  intros Hs. destruct (bucket_start_spec tf s Hs) as [H1 H2]. pose proof (seconds_pos tf).
  destruct (day_start_bounds s) as (? & ? & _); [by zints|].
  set (o := Z.min _ _) in *. assert (33300 <= o) by (subst o; zints).
  destruct (Z.le_gt_cases s o) as [Hle|Hgt].
  - rewrite (H1 Hle). subst o. zints.
  - destruct (H2 ltac:(lia)) as (k & ? & -> & ?). zints.
Qed.

Lemma bucket_start_day tf s : in_u32 s -> day_start (bucket_start tf s) = day_start s.
Proof.
  intros Hs. pose proof (bucket_start_range tf s Hs). destruct (bucket_start_spec tf s Hs) as [S1 S2].
  destruct (day_start_bounds s) as (? & ? & _); [by zints|]. apply day_start_same; [zints|].
  destruct (Z.le_gt_cases s (Z.min (day_start s + 33300) u32_max)) as [Hle|Hgt].
  - rewrite S1 by done. zints.
  - destruct (S2 ltac:(lia)) as (k & ? & ? & ?). pose proof (seconds_pos tf).
    assert (0 <= k * seconds_per_bucket tf) by nia. zints.
Qed.

(** A coarser frame whose width is a multiple has every bucket made of whole
    buckets of the finer one. *)
Lemma bucket_start_nest tf coarse s : in_u32 s ->
  seconds_per_bucket coarse mod seconds_per_bucket tf = 0 ->
  bucket_start coarse (bucket_start tf s) = bucket_start coarse s.
Proof.
  intros Hs Hm. pose proof (seconds_pos tf). pose proof (seconds_pos coarse).
  assert (exists q, seconds_per_bucket coarse = q * seconds_per_bucket tf) as [q Hq].
  { exists (seconds_per_bucket coarse / seconds_per_bucket tf).
    pose proof (Z.div_mod (seconds_per_bucket coarse) (seconds_per_bucket tf) ltac:(lia)). lia. }
  pose proof (bucket_start_range tf s Hs). pose proof (bucket_start_day tf s Hs) as Hd.
  destruct (bucket_start_spec tf s Hs) as [S1 S2], (bucket_start_spec coarse s Hs) as [C1 C2].
  destruct (bucket_start_spec coarse (bucket_start tf s)) as [D1 D2]; [zints|]. rewrite Hd in *.
  set (o := Z.min _ _) in *. destruct (Z.le_gt_cases s o) as [Hle|Hgt].
  { rewrite S1 in * by done. rewrite D1, C1 by lia. done. }
  destruct (S2 ltac:(lia)) as (k & ? & Hk & ? & ?). destruct (C2 ltac:(lia)) as (j & ? & Hj & ? & ?).
  assert (0 < q) by (apply (Z.mul_pos_cancel_r q (seconds_per_bucket tf)); lia).
  assert (j * q < k + 1).
  { apply (Z.mul_lt_mono_pos_r (seconds_per_bucket tf)); [done|]. rewrite <- Z.mul_assoc, <- Hq. lia. }
  destruct (Z.eq_dec k 0) as [->|Hk0].
  { rewrite D1 by lia. assert (j = 0) as -> by nia. lia. }
  destruct (D2 ltac:(nia)) as (j' & ? & Hj' & ? & ?). assert (j = j') by nia. lia.
Qed.

Lemma bucket_start_idem tf s : in_u32 s -> bucket_start tf (bucket_start tf s) = bucket_start tf s.
Proof. intros Hs. apply bucket_start_nest; [done|]. apply Z.mod_same. by destruct tf. Qed.

Lemma bucket_start_mono tf s t : in_u32 s -> in_u32 t -> s <= t -> bucket_start tf s <= bucket_start tf t.
Proof.
  intros Hs Ht Hle. pose proof (seconds_pos tf) as Hp.
  destruct (bucket_start_spec tf s Hs) as [S1 S2], (bucket_start_spec tf t Ht) as [T1 T2].
  destruct (day_start_bounds s) as (? & ? & Ms), (day_start_bounds t) as (? & ? & Mt); [zints..|].
  assert (Hd : day_start s = day_start t \/ day_start s + 86400 <= day_start t).
  { unfold day_start in *. assert (s / 86400 <= t / 86400) by (apply Z.div_le_mono; lia).
    destruct (Z.eq_dec (s / 86400) (t / 86400)) as [->|]; [by left|right; lia]. }
  set (o := Z.min (day_start s + _) _) in *. set (o' := Z.min (day_start t + _) _) in *.
  assert (Hoo : o <= o') by (subst o o'; lia).
  assert (Ht' : o' <= bucket_start tf t).
  { destruct (Z.le_gt_cases t o'); [rewrite T1 by done; lia|].
    destruct (T2 ltac:(lia)) as (? & ? & -> & ?). nia. }
  destruct (Z.le_gt_cases s o) as [Hso|Hso]; [rewrite S1 by done; lia|].
  destruct (S2 ltac:(lia)) as (k & ? & Hk & ? & ?). destruct Hd as [Hd|Hd].
  - assert (o = o') as Ho by (subst o o'; by rewrite Hd). rewrite <- Ho in *.
    destruct (T2 ltac:(lia)) as (k' & ? & Hk' & ? & ?). assert (k <= k') by nia. nia.
  - assert (s < o') by (subst o'; zints). lia.
Qed.

(** Bucketing is idempotent and monotone, a session second lies in its bucket,
    buckets sit on a grid anchored at the session open, and a coarser frame whose
    width is a multiple contains each finer bucket whole. *)
Theorem grid_laws tf s t :
  in_u32 s -> in_u32 t ->
  bucket_start tf (bucket_start tf s) = bucket_start tf s /\
  (s <= t -> bucket_start tf s <= bucket_start tf t) /\
  (day_start s + MARKET_OPEN_SECS_OF_DAY_IST <= s ->
     bucket_start tf s <= s < bucket_start tf s + seconds_per_bucket tf /\
     day_start s + MARKET_OPEN_SECS_OF_DAY_IST <= bucket_start tf s /\
     (bucket_start tf s - (day_start s + MARKET_OPEN_SECS_OF_DAY_IST)) mod seconds_per_bucket tf = 0) /\
  (forall coarse, seconds_per_bucket coarse mod seconds_per_bucket tf = 0 ->
     bucket_start coarse (bucket_start tf s) = bucket_start coarse s).
Proof.
  intros Hs Ht. split; [by apply bucket_start_idem|]. split; [by apply bucket_start_mono|].
  pose proof (seconds_pos tf) as Hp. destruct (bucket_start_spec tf s Hs) as [S1 S2].
  destruct (day_start_bounds s) as (? & ? & _); [zints|]. split.
  - unfold MARKET_OPEN_SECS_OF_DAY_IST. intros Ho. rewrite Z.min_l in S1, S2 by zints.
    destruct (Z.eq_dec s (day_start s + 33300)) as [He|He].
    + rewrite S1 by lia. rewrite Z.sub_diag. split; [lia|]. split; [lia|by apply Z.mod_0_l; lia].
    + destruct (S2 ltac:(lia)) as (k & ? & Hk & ?). split; [lia|]. split; [nia|].
      rewrite Hk. replace (_ - _) with (k * seconds_per_bucket tf) by lia. by apply Z.mod_mul; lia.
  - intros coarse. by apply bucket_start_nest.
Qed.

(** * Signed volume *)

(** The signed volume column has the bar's volume as magnitude (up to the
    signed width) and is negative exactly when the bar closed below the previous
    close; the net volume is absent exactly when it cannot be known, and never
    exceeds the volume. *)
Theorem volume_columns st :
  0 <= lc_volume st ->
  Z.abs (signed_volume st) = Z.min (lc_volume st) i64_max /\
  (signed_volume st < 0 <->
     0 < lc_volume st /\ positive_price (lc_prev_close st) = true /\
     f64_ltb (lc_close st) (lc_prev_close st) = true) /\
  (net_volume st = None <->
     lc_classified st = false \/ lc_tick_count st = 0 \/ lc_volume st = 0) /\
  (forall n, net_volume st = Some n -> Z.abs n <= lc_volume st /\
     (Z.abs (lc_net st) <= Z.min (lc_volume st) i64_max -> n = lc_net st)).
Proof.
  intros Hv. unfold signed_volume, net_volume. rewrite positive_price_guard.
  assert (Hg : gross st = Z.min (lc_volume st) i64_max).
  { unfold gross. zcases; lia. }
  rewrite Hg. assert (0 < i64_max) by done. repeat split.
  - destruct (positive_price _); simpl; [destruct (f64_ltb _ _)|]; lia.
  - destruct (positive_price _) eqn:?; simpl in *; [destruct (f64_ltb _ _) eqn:?|]; lia.
  - destruct (positive_price _) eqn:?; simpl in *; [done|lia].
  - destruct (positive_price _) eqn:?; simpl in *; [destruct (f64_ltb _ _) eqn:?|]; [done|lia..].
  - intros (? & -> & ->). simpl. lia.
  - destruct (lc_classified st); simpl; [|tauto]. zcases; simpl; intros; try done; tauto.
  - intros [->|[->| ->]]; [done| |]; destruct (lc_classified st); simpl; zcases; simpl; try done; lia.
  - destruct (_ || _); [done|]. injection H0 as <-. unfold clamp. lia.
  - destruct (_ || _); [done|]. injection H0 as <-. unfold clamp. lia.
Qed.

(** * Instances *)

Lemma grid_laws_witness :
  bucket_start M15 (bucket_start M15 1728036299) = bucket_start M15 1728036299 /\
  bucket_start M15 1728036299 <= bucket_start M15 1728036900 /\
  bucket_start M30 (bucket_start M15 1728036299) = bucket_start M30 1728036299.
Proof.
  destruct (grid_laws M15 1728036299 1728036900) as (H1 & H2 & _ & H4); [by vm_compute..|].
  split; [exact H1|]. split; [by apply H2|by apply (H4 M30)].
Defined.

Definition sample_bar : LiveCandleState :=
  mkCandle 33300 f64_zero f64_zero f64_zero (f64_of_Z 99) 1900 (-100) 0 0 7 33301 33300 f64_zero f64_zero
    (f64_of_Z 100) 0 0 f64_zero f64_zero f64_zero true 0 0.

Lemma volume_columns_witness : Z.abs (signed_volume sample_bar) = 1900 /\ signed_volume sample_bar < 0.
Proof.
  destruct (volume_columns sample_bar) as (H1 & H2 & _); [by vm_compute|].
  split; [rewrite H1; reflexivity|]. apply H2. by vm_compute.
Defined.
