(* ===== verification/AggregatorCell.v ===== *)
(** The tick fold of one instrument ([trading/src/candles/aggregator_cell.rs]):
    one open bucket and the last sealed one per timeframe, the volume a frame was
    told about and could not fold, the session extremes seen.  The cell's arrays
    indexed by [as_ordinal] are functions of the timeframe.  [TickInput] holds
    the arguments of [fold] other than the frame.  Counters and the cache
    warm-up [warm_for_tick] are not modelled. *)
From stdpp Require Import functions.
From S2P Require Import Prelude Bytes Float FeedTypes PricePrecision Candles.
Local Open Scope Z_scope.

Inductive LatePolicy : Type := Refold | Discard.

#[global] Instance LatePolicy_eq_dec : EqDecision LatePolicy.
Proof. solve_decision. Defined.

(** * Prices *)

Definition MAX_PLAUSIBLE_LTP : f32 := f32_of_f64 (f64_of_Z 100000000).
Definition IST_UTC_OFFSET_NANOS : Z := 19800000000000.

Definition tick_price_is_sane (t : ParsedTick) : bool :=
  let p := last_traded_price t in
  is_finite p && SFltb f32_zero p && SFleb p MAX_PLAUSIBLE_LTP &&
  f64_ltb f64_zero (f32_to_f64_clean p).

(** [f32::is_normal]: neither zero, subnormal, infinite nor NaN. *)
Definition is_normal (x : f32) : bool :=
  match x with S754_finite _ m _ => (2 ^ 23 <=? Zpos m) | _ => false end.

Definition usable_exchange_price (raw : f32) : bool :=
  is_normal raw && SFltb f32_zero raw && SFleb raw MAX_PLAUSIBLE_LTP.

Record TickPrices : Type := mkPrices {
  tp_last_traded_price : f64;
  tp_day_open : f64;
  tp_day_close : f64;
  tp_day_high : option f64;
  tp_day_low : option f64 }.

Definition from_tick (t : ParsedTick) : TickPrices := {|
  tp_last_traded_price := f32_to_f64_clean (last_traded_price t);
  tp_day_open := if usable_exchange_price (day_open t) then f32_to_f64_clean (day_open t) else f64_zero;
  tp_day_close := if usable_exchange_price (day_close t) then f32_to_f64_clean (day_close t) else f64_zero;
  tp_day_high := if usable_exchange_price (day_high t) then Some (f32_to_f64_clean (day_high t)) else None;
  tp_day_low := if usable_exchange_price (day_low t) then Some (f32_to_f64_clean (day_low t)) else None |}.

(** The memo of the last widened day fields: the raw value held (the source
    compares its bits) and its widening. *)
Record WidenMemo : Type := mkMemo { memo_bits : list f32; memo_values : list f64 }.

Definition DAY_OPEN : nat := 0.
Definition DAY_CLOSE : nat := 1.
Definition DAY_HIGH : nat := 2.
Definition DAY_LOW : nat := 3.

Definition new_memo : WidenMemo := mkMemo (replicate 4 f32_zero) (replicate 4 f64_zero).

Definition widen (slot : nat) (raw : f32) (m : WidenMemo) : f64 * WidenMemo :=
  match memo_bits m !! slot, memo_values m !! slot with
  | Some held, Some value =>
      if bool_decide (held = raw) then (value, m)
      else let value := f32_to_f64_clean raw in
        (value, mkMemo (<[slot := raw]> (memo_bits m)) (<[slot := value]> (memo_values m)))
  | _, _ => (f32_to_f64_clean raw, m)
  end.

(** A day field through the memo when it is usable. *)
Definition widen_usable (slot : nat) (raw : f32) (m : WidenMemo) : option f64 * WidenMemo :=
  if usable_exchange_price raw then let '(v, m) := widen slot raw m in (Some v, m) else (None, m).

Definition from_tick_memo (t : ParsedTick) (last_traded : f64) (m : WidenMemo) : TickPrices * WidenMemo :=
  let '(o, m) := widen_usable DAY_OPEN (day_open t) m in
  let '(c, m) := widen_usable DAY_CLOSE (day_close t) m in
  let '(h, m) := widen_usable DAY_HIGH (day_high t) m in
  let '(l, m) := widen_usable DAY_LOW (day_low t) m in
  (mkPrices last_traded (default f64_zero o) (default f64_zero c) h l, m).

(** * The cell *)

Record AggregatorCell : Type := mkCell {
  slots : TfIndex -> LiveCandleState;
  last_sealed : TfIndex -> LiveCandleState;
  armed_for_day_open : TfIndex -> bool;
  last_seen_day_high : f32;
  last_seen_day_low : f32;
  last_observed_ts : Z;
  carried_upto : TfIndex -> Z;
  carried_net : TfIndex -> Z;
  carried_unclassified : TfIndex -> bool;
  chain_broken : TfIndex -> bool }.

Definition empty_cell : AggregatorCell := {|
  slots := fun _ => empty_state; last_sealed := fun _ => empty_state;
  armed_for_day_open := fun _ => true; last_seen_day_high := f32_zero;
  last_seen_day_low := f32_zero; last_observed_ts := 0; carried_upto := fun _ => 0;
  carried_net := fun _ => 0; carried_unclassified := fun _ => false;
  chain_broken := fun _ => false |}.

(** Assignments to one entry of an array, or to the extremes. *)
Definition set_slot (c : AggregatorCell) (tf : TfIndex) (s : LiveCandleState) : AggregatorCell :=
  mkCell (<[tf := s]> (slots c)) (last_sealed c) (armed_for_day_open c) (last_seen_day_high c)
    (last_seen_day_low c) (last_observed_ts c) (carried_upto c) (carried_net c)
    (carried_unclassified c) (chain_broken c).
Definition set_last_sealed (c : AggregatorCell) (tf : TfIndex) (s : LiveCandleState) : AggregatorCell :=
  mkCell (slots c) (<[tf := s]> (last_sealed c)) (armed_for_day_open c) (last_seen_day_high c)
    (last_seen_day_low c) (last_observed_ts c) (carried_upto c) (carried_net c)
    (carried_unclassified c) (chain_broken c).
Definition set_armed (c : AggregatorCell) (tf : TfIndex) (b : bool) : AggregatorCell :=
  mkCell (slots c) (last_sealed c) (<[tf := b]> (armed_for_day_open c)) (last_seen_day_high c)
    (last_seen_day_low c) (last_observed_ts c) (carried_upto c) (carried_net c)
    (carried_unclassified c) (chain_broken c).
Definition set_extremes (c : AggregatorCell) (h l : f32) (ts : Z) : AggregatorCell :=
  mkCell (slots c) (last_sealed c) (armed_for_day_open c) h l ts (carried_upto c) (carried_net c)
    (carried_unclassified c) (chain_broken c).
Definition set_carry (c : AggregatorCell) (tf : TfIndex) (upto net : Z) (unclassified : bool)
    : AggregatorCell :=
  mkCell (slots c) (last_sealed c) (armed_for_day_open c) (last_seen_day_high c)
    (last_seen_day_low c) (last_observed_ts c) (<[tf := upto]> (carried_upto c))
    (<[tf := net]> (carried_net c)) (<[tf := unclassified]> (carried_unclassified c)) (chain_broken c).
Definition set_chain_broken (c : AggregatorCell) (tf : TfIndex) (b : bool) : AggregatorCell :=
  mkCell (slots c) (last_sealed c) (armed_for_day_open c) (last_seen_day_high c)
    (last_seen_day_low c) (last_observed_ts c) (carried_upto c) (carried_net c)
    (carried_unclassified c) (<[tf := b]> (chain_broken c)).

(** * Volume a frame could not fold *)

Record UnattributedCarry : Type := mkCarry { upto : Z; net : Z; unclassified : bool }.

#[global] Instance UnattributedCarry_eq_dec : EqDecision UnattributedCarry.
Proof. solve_decision. Defined.

Definition no_carry : UnattributedCarry := mkCarry 0 0 false.

Definition settle_into (k : UnattributedCarry) (st : LiveCandleState) : LiveCandleState :=
  if decide (k = no_carry) then st else
  let owed := u64_saturating_sub (upto k) (lc_start_cumulative st) in
  with_flow st (if lc_volume st <? owed then owed else lc_volume st)
    (i64_saturating_add (lc_net st) (net k))
    (if unclassified k then false else lc_classified st).

Definition carry_unattributed (tf : TfIndex) (bucket_start_cumulative cumulative_volume : Z)
    (signed_tick_volume : option Z) (c : AggregatorCell) : AggregatorCell :=
  let news := bucket_start_cumulative <? cumulative_volume in
  if negb news && bool_decide (is_Some signed_tick_volume) then c else
  let u := if news && (carried_upto c tf <? cumulative_volume) then cumulative_volume
           else carried_upto c tf in
  match signed_tick_volume with
  | Some signed =>
      set_carry c tf u (i64_saturating_add (carried_net c tf) signed) (carried_unclassified c tf)
  | None => set_carry c tf u (carried_net c tf) true
  end.

Definition take_carry (tf : TfIndex) (c : AggregatorCell) : UnattributedCarry * AggregatorCell :=
  (mkCarry (carried_upto c tf) (carried_net c tf) (carried_unclassified c tf),
   set_carry c tf 0 0 false).

Definition next_bucket_start_cumulative (tf : TfIndex) (slot_baseline live_cumulative : Z)
    (c : AggregatorCell) : Z * AggregatorCell :=
  if chain_broken c tf then (live_cumulative, set_chain_broken c tf false)
  else let last := last_sealed c tf in
    (if is_uninitialised last then slot_baseline
     else u64_saturating_add (lc_start_cumulative last) (lc_volume last), c).

(** * Session extremes *)

Record SessionExtremeDelta : Type := mkDelta {
  new_high : option f64;
  new_low : option f64;
  prev_observed_ts : Z }.

Definition default_delta : SessionExtremeDelta := mkDelta None None 0.

Definition delta_is_empty (d : SessionExtremeDelta) : bool :=
  bool_decide (new_high d = None) && bool_decide (new_low d = None).

Definition observe_session_extremes_widened (t : ParsedTick) (fold_secs : Z) (p : TickPrices)
    (c : AggregatorCell) : SessionExtremeDelta * AggregatorCell :=
  let high_ok := usable_exchange_price (day_high t) in
  let low_ok := usable_exchange_price (day_low t) in
  let seen_high := last_seen_day_high c in
  let seen_low := last_seen_day_low c in
  let rise := high_ok && SFltb seen_high (day_high t) in
  let fall := low_ok && (SFeqb seen_low f32_zero || SFltb (day_low t) seen_low) in
  (mkDelta (if rise && SFltb f32_zero seen_high then tp_day_high p else None)
           (if fall && SFltb f32_zero seen_low then tp_day_low p else None)
           (last_observed_ts c),
   set_extremes c (if rise then day_high t else seen_high) (if fall then day_low t else seen_low)
     (if high_ok || low_ok then fold_secs else last_observed_ts c)).

Definition observe_session_extremes (t : ParsedTick) (fold_secs : Z) (c : AggregatorCell)
    : SessionExtremeDelta * AggregatorCell :=
  observe_session_extremes_widened t fold_secs (from_tick t) c.

(** * The helpers of the fold *)

Definition widen_range_to_include (st : LiveCandleState) (price : f64) : LiveCandleState :=
  with_range st (if f64_ltb (lc_high st) price then price else lc_high st)
                (if f64_ltb price (lc_low st) then price else lc_low st).

Definition is_days_first_session_bucket (tf : TfIndex) (start : Z) : bool :=
  start =? u32_saturating_add (day_start start) (first_session_bucket_offset tf).

Definition receipt_ist_nanos (received : Z) : Z :=
  if 0 <? received then i64_saturating_add received IST_UTC_OFFSET_NANOS else 0.

Definition net_volume_baseline (last : LiveCandleState) (start : Z) : f64 :=
  if is_uninitialised last then f64_zero
  else if negb (lc_bucket_start last / 86400 =? start / 86400) then f64_zero
  else lc_close last.

Definition bucket_sign_baseline (prev_bar : LiveCandleState) (tf : TfIndex) (start : Z)
    (prev_day_close : f64) : f64 :=
  if f64_ltb f64_zero prev_day_close && is_days_first_session_bucket tf start then prev_day_close
  else net_volume_baseline prev_bar start.

Definition adopt_range (st : LiveCandleState) (high low : option f64) : LiveCandleState :=
  with_range st
    (match high with Some h => if f64_ltb (lc_high st) h then h else lc_high st | None => lc_high st end)
    (match low with Some l => if f64_ltb l (lc_low st) then l else lc_low st | None => lc_low st end).

Definition adopt_exchange_day_extremes (st : LiveCandleState) (p : TickPrices) : LiveCandleState :=
  adopt_range st (tp_day_high p) (tp_day_low p).

Definition adopt_session_extreme_delta (st : LiveCandleState) (d : SessionExtremeDelta) : LiveCandleState :=
  adopt_range st (new_high d) (new_low d).

Record BucketOpenContext : Type := mkOpenContext {
  use_day_open : bool;
  first_bucket_of_day : bool;
  ctx_prev_close : f64 }.

Definition open_bucket (t : ParsedTick) (p : TickPrices) (start bucket_start_cumulative : Z)
    (ctx : BucketOpenContext) (cumulative_volume : Z) (signed_tick_volume : option Z)
    (fold_secs : Z) : LiveCandleState :=
  let price := tp_last_traded_price p in
  let pinned := use_day_open ctx && f64_ltb f64_zero (tp_day_open p) in
  let open := if pinned then tp_day_open p else price in
  let st := {|
    lc_bucket_start := start; lc_open := open; lc_high := price; lc_low := price;
    lc_close := price;
    lc_volume := u64_saturating_sub cumulative_volume bucket_start_cumulative;
    lc_net := default 0 signed_tick_volume;
    lc_start_cumulative := bucket_start_cumulative; lc_oi := open_interest t;
    lc_tick_count := 1; lc_close_ts := fold_secs; lc_open_ts := if pinned then 0 else fold_secs;
    lc_prev_day_close := tp_day_close p; lc_close_pct := f64_zero;
    lc_prev_close := ctx_prev_close ctx; lc_total_buy := total_buy_quantity t;
    lc_total_sell := total_sell_quantity t; lc_session_open := tp_day_open p;
    lc_open_pct := f64_zero; lc_open_gap_pct := f64_zero;
    lc_classified := bool_decide (is_Some signed_tick_volume);
    lc_first_receipt := receipt_ist_nanos (received_at_nanos t);
    lc_last_receipt := receipt_ist_nanos (received_at_nanos t) |} in
  let st := widen_range_to_include st open in
  if first_bucket_of_day ctx then adopt_exchange_day_extremes st p else st.

(** The assignments [fold_in_bucket] and [fold_late_hlc] share. *)
Definition fold_receipt (st : LiveCandleState) (received : Z) : LiveCandleState :=
  let r := receipt_ist_nanos received in
  if 0 <? r then
    with_receipts st (if (lc_first_receipt st =? 0) || (r <? lc_first_receipt st) then r
                      else lc_first_receipt st)
      (if lc_last_receipt st <? r then r else lc_last_receipt st)
  else st.

Definition fold_open (st : LiveCandleState) (price : f64) (fold_secs : Z) : LiveCandleState :=
  if fold_secs <? lc_open_ts st then with_open st price fold_secs else st.

Definition fold_close (st : LiveCandleState) (price : f64) (fold_secs : Z) (stale : bool)
    : LiveCandleState :=
  if negb stale && (lc_close_ts st <=? fold_secs) then with_close st price fold_secs else st.

(** The open interest and pending quantities: the newest non-zero ones. *)
Definition fold_book (st : LiveCandleState) (t : ParsedTick) (newest stale : bool) : LiveCandleState :=
  let keep old new := if negb stale && negb (new =? 0) && ((old =? 0) || newest) then new else old in
  with_book st (keep (lc_oi st) (open_interest t)) (keep (lc_total_buy st) (total_buy_quantity t))
    (keep (lc_total_sell st) (total_sell_quantity t)).

Definition fold_baselines (st : LiveCandleState) (p : TickPrices) : LiveCandleState :=
  with_baselines st
    (if f64_ltb f64_zero (tp_day_close p) then tp_day_close p else lc_prev_day_close st)
    (if f64_ltb f64_zero (tp_day_open p) then tp_day_open p else lc_session_open st).

Definition fold_volume (st : LiveCandleState) (cumulative_volume : Z) (signed : option Z)
    : LiveCandleState :=
  let bucket_volume := u64_saturating_sub cumulative_volume (lc_start_cumulative st) in
  with_flow st (if lc_volume st <? bucket_volume then bucket_volume else lc_volume st)
    (match signed with Some d => i64_saturating_add (lc_net st) d | None => lc_net st end)
    (match signed with Some _ => lc_classified st | None => false end).

Definition fold_in_bucket (st : LiveCandleState) (t : ParsedTick) (p : TickPrices)
    (cumulative_volume : Z) (signed_tick_volume : option Z) (fold_secs : Z) (stale_packet : bool)
    : LiveCandleState :=
  let price := tp_last_traded_price p in
  let newest := negb stale_packet && (lc_close_ts st <=? fold_secs) in
  let st := widen_range_to_include st price in
  let st := fold_open st price fold_secs in
  let st := fold_close st price fold_secs stale_packet in
  let st := fold_book st t newest stale_packet in
  let st := fold_volume st cumulative_volume signed_tick_volume in
  let st := with_tick_count st (u32_saturating_add (lc_tick_count st) 1) in
  let st := fold_baselines st p in
  fold_receipt st (received_at_nanos t).

Definition fold_late_hlc (st : LiveCandleState) (p : TickPrices) (fold_secs received : Z)
    (stale_packet : bool) : LiveCandleState :=
  let price := tp_last_traded_price p in
  let st := fold_receipt st received in
  let st := widen_range_to_include st price in
  let st := fold_open st price fold_secs in
  let st := fold_close st price fold_secs stale_packet in
  with_tick_count st (u32_saturating_add (lc_tick_count st) 1).

(** * The fold *)

Record TickInput : Type := mkInput {
  ti_tick : ParsedTick;
  ti_prices : TickPrices;
  ti_baseline : Z;
  ti_policy : LatePolicy;
  ti_cumulative : Z;
  ti_extremes : SessionExtremeDelta;
  ti_signed : option Z;
  ti_secs : Z;
  ti_stale : bool }.

Inductive ConsumeOutcome : Type :=
  | Updated
  | Sealed (sealed_state : LiveCandleState)
  | AmendedLate (amended_state : LiveCandleState)
  | DiscardLate.

(** A late tick: its volume is carried, and the last sealed bar is amended when
    the tick belongs to it. *)
Definition fold_late (tf : TfIndex) (i : TickInput) (c : AggregatorCell)
    : ConsumeOutcome * AggregatorCell :=
  let start := bucket_start tf (ti_secs i) in
  let last := last_sealed c tf in
  let c := carry_unattributed tf (ti_baseline i) (ti_cumulative i) (ti_signed i) c in
  if bool_decide (ti_policy i = Refold) && negb (is_uninitialised last) &&
     (start =? lc_bucket_start last) then
    let amended := stamp_seal_percentages
      (fold_late_hlc last (ti_prices i) (ti_secs i) (received_at_nanos (ti_tick i)) (ti_stale i)) in
    (AmendedLate amended, set_last_sealed c tf amended)
  else (DiscardLate, c).

(** The first tick of a frame with no open bucket. *)
Definition fold_first (tf : TfIndex) (i : TickInput) (c : AggregatorCell)
    : ConsumeOutcome * AggregatorCell :=
  let start := bucket_start tf (ti_secs i) in
  let last := last_sealed c tf in
  let p := ti_prices i in
  let use := armed_for_day_open c tf && f64_ltb f64_zero (tp_day_open p) &&
             is_days_first_session_bucket tf start in
  let c := if use then set_armed c tf false else c in
  let first := is_uninitialised last && is_days_first_session_bucket tf start in
  let '(chained, c) := next_bucket_start_cumulative tf (ti_baseline i) (ti_cumulative i) c in
  let st := open_bucket (ti_tick i) p start chained
    (mkOpenContext use first (bucket_sign_baseline last tf start (tp_day_close p)))
    (ti_cumulative i) (ti_signed i) (ti_secs i) in
  let '(carry, c) := take_carry tf c in
  (Updated, set_slot c tf (settle_into carry st)).

(** A tick of the open bucket. *)
Definition fold_same (tf : TfIndex) (i : TickInput) (c : AggregatorCell)
    : ConsumeOutcome * AggregatorCell :=
  let st := slots c tf in
  let start := lc_bucket_start st in
  let p := ti_prices i in
  let use := armed_for_day_open c tf && f64_ltb f64_zero (tp_day_open p) &&
             is_days_first_session_bucket tf start in
  let c := if use then set_armed c tf false else c in
  let st := if use then widen_range_to_include (with_open st (tp_day_open p) 0) (tp_day_open p) else st in
  let attributable := negb (delta_is_empty (ti_extremes i)) &&
    (bucket_start tf (prev_observed_ts (ti_extremes i)) =? bucket_start tf (ti_secs i)) in
  let st := fold_in_bucket st (ti_tick i) p (ti_cumulative i) (ti_signed i) (ti_secs i) (ti_stale i) in
  let st := if is_days_first_session_bucket tf start then adopt_exchange_day_extremes st p
            else if attributable then adopt_session_extreme_delta st (ti_extremes i) else st in
  (Updated, set_slot c tf st).

(** A tick past the open bucket: the bucket is sealed and the next one opened. *)
Definition fold_roll (tf : TfIndex) (i : TickInput) (c : AggregatorCell)
    : ConsumeOutcome * AggregatorCell :=
  let start := bucket_start tf (ti_secs i) in
  let p := ti_prices i in
  let first_session_start := u32_saturating_add (day_start start) (first_session_bucket_offset tf) in
  let use := armed_for_day_open c tf && f64_ltb f64_zero (tp_day_open p) &&
             (start =? first_session_start) in
  let c := if use || (first_session_start <? start) then set_armed c tf false else c in
  let prev_close := bucket_sign_baseline (slots c tf) tf start (tp_day_close p) in
  let '(carry, c) := take_carry tf c in
  let sealed := settle_into carry (slots c tf) in
  let chained := if chain_broken c tf then ti_cumulative i
                 else u64_saturating_add (lc_start_cumulative sealed) (lc_volume sealed) in
  let c := set_chain_broken c tf false in
  let st := open_bucket (ti_tick i) p start chained (mkOpenContext use false prev_close)
    (ti_cumulative i) (ti_signed i) (ti_secs i) in
  let sealed := stamp_seal_percentages sealed in
  (Sealed sealed, set_last_sealed (set_slot c tf st) tf sealed).

Definition fold (tf : TfIndex) (i : TickInput) (c : AggregatorCell) : ConsumeOutcome * AggregatorCell :=
  let start := bucket_start tf (ti_secs i) in
  if is_uninitialised (slots c tf) then
    let last := last_sealed c tf in
    if negb (is_uninitialised last) && (start <=? lc_bucket_start last) then fold_late tf i c
    else fold_first tf i c
  else if start =? lc_bucket_start (slots c tf) then fold_same tf i c
  else if lc_bucket_start (slots c tf) <? start then fold_roll tf i c
  else fold_late tf i c.

Definition consume_tick_with_extremes (tf : TfIndex) (i : TickInput) (c : AggregatorCell)
    : ConsumeOutcome * AggregatorCell := fold tf i c.

Definition consume_tick_with_prices (tf : TfIndex) (t : ParsedTick) (p : TickPrices)
    (baseline : Z) (policy : LatePolicy) (cumulative : Z) (c : AggregatorCell)
    : ConsumeOutcome * AggregatorCell :=
  fold tf (mkInput t p baseline policy cumulative default_delta None
             (fold_clock_ist_secs (exchange_timestamp t)) false) c.

Definition consume_tick (tf : TfIndex) (t : ParsedTick) (baseline : Z) (policy : LatePolicy)
    (cumulative : Z) (c : AggregatorCell) : ConsumeOutcome * AggregatorCell :=
  consume_tick_with_prices tf t (from_tick t) baseline policy cumulative c.

(** A repeated quote: day open and slow fields, no price or volume. *)
Definition refresh_repeat_quote (tf : TfIndex) (t : ParsedTick) (p : TickPrices) (fold_secs : Z)
    (c : AggregatorCell) : bool * AggregatorCell :=
  let st := slots c tf in
  if is_uninitialised st || negb (bucket_start tf fold_secs =? lc_bucket_start st) then (false, c) else
  let use := armed_for_day_open c tf && f64_ltb f64_zero (tp_day_open p) &&
             is_days_first_session_bucket tf (lc_bucket_start st) in
  let c := if use then set_armed c tf false else c in
  let st := if use then widen_range_to_include (with_open st (tp_day_open p) 0) (tp_day_open p) else st in
  let st := fold_baselines st p in
  (true, set_slot c tf (fold_book st t (lc_close_ts st <=? fold_secs) false)).

(** * Seals, rebases, views *)

Definition discard_carry (tf : TfIndex) (c : AggregatorCell) : bool * AggregatorCell :=
  let '(carry, c) := take_carry tf c in (bool_decide (carry <> no_carry), c).

Definition force_seal (tf : TfIndex) (c : AggregatorCell) : option LiveCandleState * AggregatorCell :=
  let previous := last_sealed c tf in
  let c := set_last_sealed (set_armed c tf true) tf empty_state in
  let c := set_extremes c f32_zero f32_zero 0 in
  let '(carry, c) := take_carry tf c in
  if is_uninitialised (slots c tf) then
    if bool_decide (carry = no_carry) || is_uninitialised previous then (None, c)
    else (Some (stamp_seal_percentages (settle_into carry previous)), c)
  else
    (Some (stamp_seal_percentages (settle_into carry (slots c tf))), set_slot c tf empty_state).

Definition catch_up_seal (tf : TfIndex) (cutoff_secs : Z) (c : AggregatorCell)
    : option LiveCandleState * AggregatorCell :=
  let st := slots c tf in
  if is_uninitialised st then (None, c)
  else if cutoff_secs <? u32_saturating_add (lc_bucket_start st) (seconds_per_bucket tf) then (None, c)
  else
    let '(carry, c) := take_carry tf c in
    let sealed := stamp_seal_percentages (settle_into carry st) in
    (Some sealed, set_last_sealed (set_slot c tf empty_state) tf sealed).

Definition snapshot (tf : TfIndex) (c : AggregatorCell) : LiveCandleState := slots c tf.
Definition open_bucket_start (tf : TfIndex) (c : AggregatorCell) : Z := lc_bucket_start (slots c tf).
Definition would_seal (tf : TfIndex) (fold_secs : Z) (c : AggregatorCell) : bool :=
  negb (is_uninitialised (slots c tf)) && (lc_bucket_start (slots c tf) <? bucket_start tf fold_secs).
Definition would_catch_up_seal (tf : TfIndex) (cutoff_secs : Z) (c : AggregatorCell) : bool :=
  negb (is_uninitialised (slots c tf)) &&
  (u32_saturating_add (lc_bucket_start (slots c tf)) (seconds_per_bucket tf) <=? cutoff_secs).
Definition last_sealed_snapshot (tf : TfIndex) (c : AggregatorCell) : option LiveCandleState :=
  if is_uninitialised (last_sealed c tf) then None else Some (last_sealed c tf).

Definition rebase_open_buckets (cumulative_volume : Z) (c : AggregatorCell) : AggregatorCell :=
  mkCell (fun tf => let st := slots c tf in
            if is_uninitialised st then st
            else with_start_cumulative st (u64_saturating_sub cumulative_volume (lc_volume st)))
    (last_sealed c) (armed_for_day_open c) (last_seen_day_high c) (last_seen_day_low c)
    (last_observed_ts c) (fun _ => 0) (fun _ => 0) (fun _ => false) (fun _ => true).

Definition rebase_one (cumulative_volume fold_secs last_counted_secs span_ends_by_secs : Z)
    (acc : Z * AggregatorCell) (tf : TfIndex) : Z * AggregatorCell :=
  let '(unabsorbed, c) := acc in
  let st := slots c tf in
  let open := negb (is_uninitialised st) in
  let same := open && (bucket_start tf fold_secs =? lc_bucket_start st) &&
              (lc_bucket_start st <=? last_counted_secs) in
  let fits := (span_ends_by_secs =? 0) ||
              (span_ends_by_secs <? u32_saturating_add (lc_bucket_start st) (seconds_per_bucket tf)) in
  if same && fits then
    (unabsorbed, set_slot c tf (with_flow st (lc_volume st) (lc_net st) false))
  else
    let '(carry, c) := take_carry tf c in
    let c := if open then
        let st := settle_into carry st in
        set_slot c tf (with_start_cumulative st (u64_saturating_sub cumulative_volume (lc_volume st)))
      else c in
    (if same then Z.lor unabsorbed (Z.shiftl 1 (as_ordinal tf)) else unabsorbed,
     set_chain_broken c tf (negb open)).

Definition rebase_open_buckets_after_gap
    (cumulative_volume fold_secs last_counted_secs span_ends_by_secs : Z) (c : AggregatorCell)
    : Z * AggregatorCell :=
  foldl (rebase_one cumulative_volume fold_secs last_counted_secs span_ends_by_secs) (0, c) ALL.

#[local] Arguments open_bucket : simpl never.
#[local] Arguments settle_into : simpl never.
#[local] Arguments stamp_seal_percentages : simpl never.

(** * Arrays *)

Ltac array := rewrite ?fn_lookup_insert, ?fn_lookup_insert_ne by done.

(** Every operation on frame [tf] leaves the other frames' entries alone, so the
    invariants are proved frame by frame. *)
Lemma insert_array {A} (f : TfIndex -> A) tf x tf' :
  <[tf := x]> f tf' = if decide (tf = tf') then x else f tf'.
Proof. destruct (decide (tf = tf')) as [->|]; by array. Qed.

(** * A well-formed bar *)

Record bar_ok (tf : TfIndex) (st : LiveCandleState) : Prop := {
  bar_grid : 0 < lc_bucket_start st /\ bucket_start tf (lc_bucket_start st) = lc_bucket_start st;
  bar_open : f64_leb (lc_low st) (lc_open st) = true /\ f64_leb (lc_open st) (lc_high st) = true;
  bar_close : f64_leb (lc_low st) (lc_close st) = true /\ f64_leb (lc_close st) (lc_high st) = true;
  bar_times : 0 <= lc_open_ts st <= lc_close_ts st /\
    bucket_start tf (lc_close_ts st) = lc_bucket_start st /\
    (lc_open_ts st = 0 \/ bucket_start tf (lc_open_ts st) = lc_bucket_start st);
  bar_counts : 0 <= lc_volume st <= u64_max /\ 1 <= lc_tick_count st <= u32_max;
  bar_receipts : 0 <= lc_first_receipt st <= lc_last_receipt st }.

(** The parts of a state [bar_ok] reads besides its prices. *)
Definition same_frame (a b : LiveCandleState) : Prop :=
  lc_bucket_start a = lc_bucket_start b /\ lc_open a = lc_open b /\ lc_high a = lc_high b /\
  lc_low a = lc_low b /\ lc_close a = lc_close b /\ lc_close_ts a = lc_close_ts b /\
  lc_open_ts a = lc_open_ts b /\ lc_tick_count a = lc_tick_count b /\
  lc_first_receipt a = lc_first_receipt b /\ lc_last_receipt a = lc_last_receipt b.

Lemma bar_ok_same tf a b : same_frame a b -> 0 <= lc_volume b <= u64_max -> bar_ok tf a -> bar_ok tf b.
Proof.
  intros (E1&E2&E3&E4&E5&E6&E7&E8&E9&E10) Hv [].
  rewrite E1, E2, E3, E4, E5, E6, E7, E8, E9, E10 in *. split; tauto.
Qed.

Section bars.
Context (tf : TfIndex).
Implicit Types (st : LiveCandleState) (p : TickPrices).

Lemma widen_range_ok st x : bar_ok tf st -> is_nan x = false ->
  let st' := widen_range_to_include st x in
  bar_ok tf st' /\ f64_leb (lc_low st') x = true /\ f64_leb x (lc_high st') = true.
Proof.
  intros [? [Ho1 Ho2] [Hc1 Hc2]] Hx. unfold widen_range_to_include. cbn.
  destruct (proj1 (f64_leb_key _ _) Ho1) as (Hl & _ & _), (proj1 (f64_leb_key _ _) Ho2) as (_ & Hh & _).
  destruct (f64_ltb (lc_high st) x) eqn:Eh, (f64_ltb x (lc_low st)) eqn:El; split_and!;
    try (split; cbn; auto; split); eauto using f64_leb_trans, f64_leb_total with tickdb.
Qed.

Lemma adopt_range_ok st high low : bar_ok tf st -> bar_ok tf (adopt_range st high low).
Proof.
  intros [? [Ho1 Ho2] [Hc1 Hc2]]. unfold adopt_range.
  set (h := match high with Some _ => _ | None => _ end). set (l := match low with Some _ => _ | None => _ end).
  assert (Hh : f64_leb (lc_high st) h = true).
  { subst h. destruct high as [h|]; [destruct (f64_ltb _ h) eqn:?|];
      auto using f64_ltb_leb; apply f64_leb_refl; by apply f64_leb_key in Ho2 as (_ & ? & _). }
  assert (Hl : f64_leb l (lc_low st) = true).
  { subst l. destruct low as [l|]; [destruct (f64_ltb l _) eqn:?|];
      auto using f64_ltb_leb; apply f64_leb_refl; by apply f64_leb_key in Ho1 as (? & _). }
  split; cbn; auto; split; eauto using f64_leb_trans.
Qed.

Lemma fold_open_ok st x secs : bar_ok tf st ->
  f64_leb (lc_low st) x = true -> f64_leb x (lc_high st) = true ->
  in_u32 secs -> bucket_start tf secs = lc_bucket_start st -> bar_ok tf (fold_open st x secs).
Proof.
  intros [? ? ? (?&?&?)] ???. unfold fold_open. destruct (Z.ltb_spec secs (lc_open_ts st)); [|by split].
  split; cbn; auto. split; [zints|]. split; [done|by right].
Qed.

Lemma fold_close_ok st x secs stale : bar_ok tf st ->
  f64_leb (lc_low st) x = true -> f64_leb x (lc_high st) = true ->
  bucket_start tf secs = lc_bucket_start st -> bar_ok tf (fold_close st x secs stale).
Proof.
  intros [? ? ? (?&?&?)] ???. unfold fold_close.
  destruct stale; simpl; [by split|]. destruct (Z.leb_spec (lc_close_ts st) secs); [|by split].
  split; cbn; auto. split; [lia|]. by split.
Qed.

Lemma fold_receipt_ok st r : bar_ok tf st -> bar_ok tf (fold_receipt st r).
Proof.
  intros []. unfold fold_receipt. destruct (Z.ltb_spec 0 (receipt_ist_nanos r)); [|by split].
  split; cbn; auto. zcases; lia.
Qed.

Lemma with_tick_ok st : bar_ok tf st -> bar_ok tf (with_tick_count st (u32_saturating_add (lc_tick_count st) 1)).
Proof. intros []. split; cbn; auto. zints. Qed.

Lemma with_flow_ok st v n b : bar_ok tf st -> 0 <= v <= u64_max -> bar_ok tf (with_flow st v n b).
Proof. intros H ?. by apply (bar_ok_same tf st). Qed.

Lemma fold_volume_ok st cum signed : bar_ok tf st -> bar_ok tf (fold_volume st cum signed).
Proof.
  intros H. destruct (bar_counts _ _ H) as [? _]. apply with_flow_ok; [done|].
  destruct (lc_volume st <? _); [|done]. unfold u64_saturating_sub. apply clamp_range. done.
Qed.

Lemma settle_ok k st : bar_ok tf st -> bar_ok tf (settle_into k st).
Proof.
  intros H. unfold settle_into. destruct (decide _); [done|].
  destruct (bar_counts _ _ H) as [? _]. apply with_flow_ok; [done|].
  destruct (lc_volume st <? _); [|done]. unfold u64_saturating_sub. by apply clamp_range.
Qed.

Lemma fold_book_ok st t newest stale : bar_ok tf st -> bar_ok tf (fold_book st t newest stale).
Proof. intros H. apply (bar_ok_same tf st); [repeat split|apply (bar_counts _ _ H)|done]. Qed.

Lemma fold_baselines_ok st p : bar_ok tf st -> bar_ok tf (fold_baselines st p).
Proof. intros H. apply (bar_ok_same tf st); [repeat split|apply (bar_counts _ _ H)|done]. Qed.

Lemma stamp_ok st : bar_ok tf st -> bar_ok tf (stamp_seal_percentages st).
Proof. intros H. apply (bar_ok_same tf st); [repeat split|apply (bar_counts _ _ H)|done]. Qed.

(** The price part both folds share. *)
Lemma fold_prices_ok st x secs stale :
  bar_ok tf st -> is_nan x = false -> in_u32 secs -> bucket_start tf secs = lc_bucket_start st ->
  bar_ok tf (fold_close (fold_open (widen_range_to_include st x) x secs) x secs stale).
Proof.
  intros H Hx Hs Hb. destruct (widen_range_ok st x H Hx) as (H1 & Hl & Hh).
  set (st1 := widen_range_to_include st x) in *.
  assert (E : lc_low (fold_open st1 x secs) = lc_low st1 /\ lc_high (fold_open st1 x secs) = lc_high st1 /\
    lc_bucket_start (fold_open st1 x secs) = lc_bucket_start st1).
  { unfold fold_open. by destruct (_ <? _). }
  destruct E as (E1 & E2 & E3).
  apply fold_close_ok; rewrite ?E1, ?E2, ?E3; auto. by apply fold_open_ok.
Qed.

Lemma fold_in_bucket_ok st t p cum signed secs stale :
  bar_ok tf st -> is_nan (tp_last_traded_price p) = false -> in_u32 secs ->
  bucket_start tf secs = lc_bucket_start st -> bar_ok tf (fold_in_bucket st t p cum signed secs stale).
Proof.
  intros H Hp Hs Hb. unfold fold_in_bucket. apply fold_receipt_ok, fold_baselines_ok.
  apply with_tick_ok, fold_volume_ok, fold_book_ok. by apply fold_prices_ok.
Qed.

Lemma fold_late_hlc_ok st p secs received stale :
  bar_ok tf st -> is_nan (tp_last_traded_price p) = false -> in_u32 secs ->
  bucket_start tf secs = lc_bucket_start st -> bar_ok tf (fold_late_hlc st p secs received stale).
Proof.
  intros H Hp Hs Hb. unfold fold_late_hlc.
  apply with_tick_ok, fold_prices_ok; auto using fold_receipt_ok.
  rewrite Hb. unfold fold_receipt. by destruct (0 <? _).
Qed.
End bars.

(** * The cell's invariant *)

(** A tick the caller lets through: a positive price and a 32-bit second. *)
Definition input_ok (i : TickInput) : Prop :=
  f64_ltb f64_zero (tp_last_traded_price (ti_prices i)) = true /\ in_u32 (ti_secs i).

Definition init (st : LiveCandleState) : Prop := lc_bucket_start st <> 0.

Lemma is_init st : is_uninitialised st = false <-> init st.
Proof. unfold is_uninitialised, init. apply Z.eqb_neq. Qed.

Lemma not_init st : is_uninitialised st = true <-> ~ init st.
Proof. rewrite <- is_init. by destruct (is_uninitialised st). Qed.

Record frame_ok (tf : TfIndex) (slot last : LiveCandleState) : Prop := {
  slot_ok : init slot -> bar_ok tf slot;
  last_ok : init last -> bar_ok tf last;
  slot_after : init slot -> init last -> lc_bucket_start last < lc_bucket_start slot }.

Definition cell_ok (c : AggregatorCell) : Prop := forall tf, frame_ok tf (slots c tf) (last_sealed c tf).

(** Every operation of the cell, with the bar it hands on, if any. *)
Inductive cell_op : Type :=
  | OpTick (tf : TfIndex) (i : TickInput)
  | OpExtremes (t : ParsedTick) (fold_secs : Z)
  | OpRepeat (tf : TfIndex) (t : ParsedTick) (p : TickPrices) (fold_secs : Z)
  | OpCatchUp (tf : TfIndex) (cutoff : Z)
  | OpForce (tf : TfIndex)
  | OpRebase (cumulative : Z)
  | OpRebaseGap (cumulative fold_secs last_counted span_ends_by : Z)
  | OpDiscard (tf : TfIndex).

Definition op_ok (o : cell_op) : Prop := match o with OpTick _ i => input_ok i | _ => True end.

Definition emitted (o : ConsumeOutcome) : option LiveCandleState :=
  match o with Sealed s | AmendedLate s => Some s | _ => None end.

Definition cell_step (o : cell_op) (c : AggregatorCell) : option (TfIndex * LiveCandleState) * AggregatorCell :=
  match o with
  | OpTick tf i => let '(out, c) := fold tf i c in (pair tf <$> emitted out, c)
  | OpExtremes t secs => (None, snd (observe_session_extremes t secs c))
  | OpRepeat tf t p secs => (None, snd (refresh_repeat_quote tf t p secs c))
  | OpCatchUp tf cutoff => let '(out, c) := catch_up_seal tf cutoff c in (pair tf <$> out, c)
  | OpForce tf => let '(out, c) := force_seal tf c in (pair tf <$> out, c)
  | OpRebase cum => (None, rebase_open_buckets cum c)
  | OpRebaseGap cum secs last span => (None, snd (rebase_open_buckets_after_gap cum secs last span c))
  | OpDiscard tf => (None, snd (discard_carry tf c))
  end.

Fixpoint cell_run (ops : list cell_op) (c : AggregatorCell) : list (TfIndex * LiveCandleState) * AggregatorCell :=
  match ops with
  | [] => ([], c)
  | o :: ops =>
      let '(out, c) := cell_step o c in
      let '(outs, c) := cell_run ops c in
      (match out with Some b => b :: outs | None => outs end, c)
  end.

Lemma receipt_nonneg r : 0 <= receipt_ist_nanos r.
Proof. unfold receipt_ist_nanos, IST_UTC_OFFSET_NANOS. zcases; zints. Qed.

Lemma open_bucket_ok tf t p start cum0 ctx cum signed secs :
  f64_ltb f64_zero (tp_last_traded_price p) = true -> in_u32 secs -> start = bucket_start tf secs ->
  bar_ok tf (open_bucket t p start cum0 ctx cum signed secs).
Proof.
  intros Hp Hs ->. pose proof (bucket_start_range tf secs Hs) as Hr.
  pose proof (receipt_nonneg (received_at_nanos t)) as Hrec.
  assert (Hn : is_nan (tp_last_traded_price p) = false) by by apply positive_not_nan.
  unfold open_bucket. set (pinned := use_day_open ctx && _).
  set (o := if pinned then tp_day_open p else _).
  assert (Ho : is_nan o = false).
  { subst o pinned. destruct (use_day_open ctx); [|done].
    destruct (f64_ltb f64_zero (tp_day_open p)) eqn:E; [by apply positive_not_nan|done]. }
  assert (Hb : forall q, q = tp_last_traded_price p ->
    forall st, bar_ok tf st -> bar_ok tf (if first_bucket_of_day ctx then adopt_exchange_day_extremes st p else st)).
  { intros _ _ st H. destruct (first_bucket_of_day ctx); [by apply adopt_range_ok|done]. }
  apply (Hb _ eq_refl). clear Hb. set (pr := tp_last_traded_price p) in *.
  split; cbn.
  - split; [lia|by apply bucket_start_idem].
  - destruct (f64_ltb pr o) eqn:E1, (f64_ltb o pr) eqn:E2; split; auto using f64_leb_refl, f64_leb_total.
  - destruct (f64_ltb pr o) eqn:E1, (f64_ltb o pr) eqn:E2; split; auto using f64_leb_refl, f64_ltb_leb.
  - split; [destruct pinned; zints|]. split; [done|]. destruct pinned; auto.
  - split; [by apply clamp_range|done].
  - lia.
Qed.

Lemma open_bucket_at t p start cum0 ctx cum signed secs :
  lc_bucket_start (open_bucket t p start cum0 ctx cum signed secs) = start.
Proof. unfold open_bucket. by destruct (first_bucket_of_day ctx). Qed.

Lemma settle_start k st : lc_bucket_start (settle_into k st) = lc_bucket_start st.
Proof. unfold settle_into. by destruct (decide _). Qed.

Lemma sealed_start k st : lc_bucket_start (stamp_seal_percentages (settle_into k st)) = lc_bucket_start st.
Proof. apply settle_start. Qed.

(** Bars handed on are those of the frame, sealed or amended. *)
Definition out_ok (b : option (TfIndex * LiveCandleState)) : Prop :=
  match b with Some (tf, st) => init st /\ bar_ok tf st | None => True end.

Definition same_others (tf : TfIndex) (c c' : AggregatorCell) : Prop :=
  forall tf', tf' <> tf -> slots c' tf' = slots c tf' /\ last_sealed c' tf' = last_sealed c tf'.

Lemma cell_ok_at tf c c' :
  cell_ok c -> same_others tf c c' -> frame_ok tf (slots c' tf) (last_sealed c' tf) -> cell_ok c'.
Proof.
  intros Hc Ho Hf tf'. destruct (decide (tf' = tf)) as [->|Hne]; [done|].
  destruct (Ho tf' Hne) as [-> ->]. apply Hc.
Qed.

Ltac others := intros ? ?; cbn; rewrite ?fn_lookup_insert_ne by done; done.

Lemma carry_frame tf' tf b cum signed c :
  slots (carry_unattributed tf b cum signed c) tf' = slots c tf' /\
  last_sealed (carry_unattributed tf b cum signed c) tf' = last_sealed c tf'.
Proof. unfold carry_unattributed. destruct (_ && _); [done|]. by destruct signed. Qed.

Lemma fold_late_ok tf i c :
  cell_ok c -> input_ok i ->
  (init (slots c tf) -> bucket_start tf (ti_secs i) < lc_bucket_start (slots c tf)) ->
  let '(out, c') := fold_late tf i c in out_ok (pair tf <$> emitted out) /\ cell_ok c'.
Proof.
  intros Hc [Hp Hs] Hlt. unfold fold_late. set (c1 := carry_unattributed _ _ _ _ _).
  assert (H1 : forall tf', slots c1 tf' = slots c tf' /\ last_sealed c1 tf' = last_sealed c tf')
    by (intros tf'; apply carry_frame).
  assert (Hc1 : cell_ok c1) by (intros tf'; destruct (H1 tf') as [-> ->]; apply Hc).
  destruct (bool_decide _ && _ && _) eqn:E; [|done].
  apply andb_prop in E as [[_ Hi]%andb_prop Hst%Z.eqb_eq]. apply negb_true_iff, is_init in Hi.
  pose proof (last_ok _ _ _ (Hc tf) Hi) as Hl.
  set (a := stamp_seal_percentages _).
  assert (Ha : bar_ok tf a).
  { apply stamp_ok, fold_late_hlc_ok; auto with tickdb. }
  assert (Hab : lc_bucket_start a = lc_bucket_start (last_sealed c tf)).
  { subst a. unfold fold_late_hlc, fold_close, fold_open, fold_receipt. cbn.
    by destruct (0 <? _), (_ <? _), (_ && _). }
  split; [split; [by unfold init; rewrite Hab|done]|].
  apply (cell_ok_at tf c1); [done|others|]. cbn. rewrite fn_lookup_insert.
  destruct (H1 tf) as [-> _]. destruct (Hc tf) as [Hs' _ Hafter].
  split; [done|done|]. rewrite Hab. auto.
Qed.

Lemma fold_first_ok tf i c :
  cell_ok c -> input_ok i ->
  (init (last_sealed c tf) -> lc_bucket_start (last_sealed c tf) < bucket_start tf (ti_secs i)) ->
  let '(out, c') := fold_first tf i c in out_ok (pair tf <$> emitted out) /\ cell_ok c'.
Proof.
  intros Hc [Hp Hs] Hlt. unfold fold_first.
  set (c1 := if _ && _ && _ then _ else c).
  assert (H1 : forall tf', slots c1 tf' = slots c tf' /\ last_sealed c1 tf' = last_sealed c tf')
    by (intros tf'; subst c1; by destruct (_ && _ && _)).
  destruct (next_bucket_start_cumulative _ _ _ c1) as [ch c2] eqn:En.
  assert (H2 : forall tf', slots c2 tf' = slots c tf' /\ last_sealed c2 tf' = last_sealed c tf').
  { intros tf'. destruct (H1 tf') as [<- <-]. unfold next_bucket_start_cumulative in En.
    destruct (chain_broken c1 tf); by injection En as <- <-. }
  cbn. split; [done|]. apply (cell_ok_at tf c); [done| |].
  - intros tf' Hne. cbn. rewrite fn_lookup_insert_ne by done. apply H2.
  - cbn. rewrite fn_lookup_insert. destruct (H2 tf) as [_ ->].
    destruct (Hc tf) as [_ Hl _]. split; [|done|].
    + intros _. apply settle_ok, open_bucket_ok; auto.
    + intros _ Hi. rewrite settle_start, open_bucket_at. auto.
Qed.

Lemma fold_in_bucket_start st t p cum signed secs stale :
  lc_bucket_start (fold_in_bucket st t p cum signed secs stale) = lc_bucket_start st.
Proof.
  unfold fold_in_bucket, fold_receipt, fold_baselines, fold_volume, fold_book, fold_close, fold_open.
  cbn. by destruct (0 <? _), (_ <? _), (_ && _).
Qed.

Lemma pin_open_ok tf st x :
  bar_ok tf st -> f64_ltb f64_zero x = true ->
  bar_ok tf (widen_range_to_include (with_open st x 0) x).
Proof.
  intros H Hx. apply positive_not_nan in Hx.
  destruct (widen_range_ok tf st x H Hx) as ([? ? [? ?] (?&?&?)] & Hl & Hh).
  pose proof (bar_times _ _ H) as (?&?&_).
  split; cbn in *; auto. split; [lia|auto].
Qed.

(** The day's open stamped on the open bucket, as the fold and a repeat do. *)
Lemma maybe_pin_ok tf (use : bool) st x :
  bar_ok tf st -> (use = true -> f64_ltb f64_zero x = true) ->
  let st' := if use then widen_range_to_include (with_open st x 0) x else st in
  bar_ok tf st' /\ lc_bucket_start st' = lc_bucket_start st.
Proof. intros H Hx. destruct use; [|done]. split; [by apply pin_open_ok; auto|done]. Qed.

Lemma use_day_open_pos (a b : bool) x : a && f64_ltb f64_zero x && b = true -> f64_ltb f64_zero x = true.
Proof. destruct a, (f64_ltb f64_zero x); done. Qed.

Lemma set_armed_frame (use : bool) tf c : forall tf',
  slots (if use then set_armed c tf false else c) tf' = slots c tf' /\
  last_sealed (if use then set_armed c tf false else c) tf' = last_sealed c tf'.
Proof. by destruct use. Qed.

Lemma put_slot_ok tf c c' st :
  cell_ok c -> (forall tf', slots c' tf' = slots c tf' /\ last_sealed c' tf' = last_sealed c tf') ->
  bar_ok tf st -> lc_bucket_start st = lc_bucket_start (slots c tf) -> init (slots c tf) ->
  cell_ok (set_slot c' tf st).
Proof.
  intros Hc H1 Hst Hb Hi. apply (cell_ok_at tf c); [done| |].
  - intros tf' Hne. cbn. rewrite fn_lookup_insert_ne by done. apply H1.
  - cbn. rewrite fn_lookup_insert. destruct (H1 tf) as [_ ->], (Hc tf) as [_ Hl Ha].
    split; [done|done|]. rewrite Hb. auto.
Qed.

Lemma fold_same_ok tf i c :
  cell_ok c -> input_ok i -> init (slots c tf) -> bucket_start tf (ti_secs i) = lc_bucket_start (slots c tf) ->
  let '(out, c') := fold_same tf i c in out_ok (pair tf <$> emitted out) /\ cell_ok c'.
Proof.
  intros Hc [Hp Hs] Hi Hb. unfold fold_same. split; [done|].
  pose proof (slot_ok _ _ _ (Hc tf) Hi) as Hst.
  set (use := armed_for_day_open c tf && _ && _).
  destruct (maybe_pin_ok tf use (slots c tf) (tp_day_open (ti_prices i)) Hst) as [H1 E1].
  { apply use_day_open_pos. }
  set (st1 := if use then widen_range_to_include _ _ else slots c tf) in *.
  set (st2 := fold_in_bucket st1 _ _ _ _ _ _).
  assert (H2 : bar_ok tf st2) by (apply fold_in_bucket_ok; rewrite ?E1; auto with tickdb).
  assert (E2 : lc_bucket_start st2 = lc_bucket_start (slots c tf)).
  { subst st2. by rewrite fold_in_bucket_start. }
  apply (put_slot_ok tf c); auto using set_armed_frame.
  - destruct (is_days_first_session_bucket _ _); [by apply adopt_range_ok|].
    destruct (negb _ && _); [by apply adopt_range_ok|done].
  - destruct (is_days_first_session_bucket _ _); [done|]. by destruct (negb _ && _).
Qed.

Lemma fold_roll_ok tf i c :
  cell_ok c -> input_ok i -> init (slots c tf) -> lc_bucket_start (slots c tf) < bucket_start tf (ti_secs i) ->
  let '(out, c') := fold_roll tf i c in out_ok (pair tf <$> emitted out) /\ cell_ok c'.
Proof.
  intros Hc [Hp Hs] Hi Hb. unfold fold_roll.
  set (c1 := if _ || _ then _ else c).
  assert (H1 : forall tf', slots c1 tf' = slots c tf' /\ last_sealed c1 tf' = last_sealed c tf')
    by (intros tf'; subst c1; apply set_armed_frame).
  destruct (H1 tf) as [Es _].
  cbn. pose proof (slot_ok _ _ _ (Hc tf) Hi) as Hst.
  set (sealed := stamp_seal_percentages (settle_into _ (slots c1 tf))).
  assert (Hsealed : bar_ok tf sealed).
  { subst sealed. rewrite Es. by apply stamp_ok, settle_ok. }
  assert (Hse : lc_bucket_start sealed = lc_bucket_start (slots c tf)).
  { change (lc_bucket_start sealed) with (lc_bucket_start (settle_into (fst (take_carry tf c1)) (slots c1 tf))).
    by rewrite settle_start, Es. }
  split; [split; [by unfold init; rewrite Hse|done]|].
  apply (cell_ok_at tf c); [done| |].
  - intros tf' Hne. cbn. rewrite !fn_lookup_insert_ne by done. apply H1.
  - cbn. rewrite !fn_lookup_insert. split; [|done|].
    + intros _. by apply open_bucket_ok.
    + intros _ _. by rewrite open_bucket_at, Hse.
Qed.

Lemma fold_ok tf i c :
  cell_ok c -> input_ok i ->
  let '(out, c') := fold tf i c in out_ok (pair tf <$> emitted out) /\ cell_ok c'.
Proof.
  intros Hc Hi. unfold fold.
  destruct (is_uninitialised (slots c tf)) eqn:Eu.
  - apply not_init in Eu. destruct (negb _ && _) eqn:El.
    + apply fold_late_ok; [done..|]. by intros ?%Eu.
    + apply fold_first_ok; [done..|]. intros Hl%is_init. rewrite Hl in El.
      by apply Z.leb_gt in El.
  - apply is_init in Eu. destruct (Z.eqb_spec (bucket_start tf (ti_secs i)) (lc_bucket_start (slots c tf))).
    + by apply fold_same_ok.
    + destruct (Z.ltb_spec (lc_bucket_start (slots c tf)) (bucket_start tf (ti_secs i))).
      * by apply fold_roll_ok.
      * apply fold_late_ok; [done..|]. lia.
Qed.

Lemma empty_not_init : ~ init empty_state.
Proof. by intros []. Qed.

Lemma catch_up_ok tf cutoff c : cell_ok c ->
  let '(out, c') := catch_up_seal tf cutoff c in out_ok (pair tf <$> out) /\ cell_ok c'.
Proof.
  intros Hc. unfold catch_up_seal. destruct (is_uninitialised _) eqn:Ei; [done|].
  destruct (_ <? _); [done|]. apply is_init in Ei. cbn.
  pose proof (slot_ok _ _ _ (Hc tf) Ei) as Hst. set (sealed := stamp_seal_percentages _).
  assert (Hs : bar_ok tf sealed) by by apply stamp_ok, settle_ok.
  assert (Hb : lc_bucket_start sealed = lc_bucket_start (slots c tf)) by apply settle_start.
  split; [split; [by unfold init; rewrite Hb|done]|].
  apply (cell_ok_at tf c); [done|others|]. cbn. rewrite !fn_lookup_insert. by split.
Qed.

Lemma force_ok tf c : cell_ok c ->
  let '(out, c') := force_seal tf c in out_ok (pair tf <$> out) /\ cell_ok c'.
Proof.
  intros Hc. unfold force_seal. cbn.
  set (c1 := set_carry _ _ _ _ _).
  assert (H1 : forall c', (forall tf', tf' <> tf -> slots c' tf' = slots c1 tf' /\ last_sealed c' tf' = last_sealed c1 tf') ->
    (init (slots c' tf) -> slots c' tf = slots c tf) -> last_sealed c' tf = empty_state -> cell_ok c').
  { intros c' Ho Hs Hl. apply (cell_ok_at tf c); [done| |].
    - intros tf' Hne. destruct (Ho tf' Hne) as [-> ->]. cbn. by rewrite fn_lookup_insert_ne by done.
    - rewrite Hl. split; [|by intros ?%empty_not_init|by intros _ ?%empty_not_init].
      intros Hi. pose proof Hi as Hi'. rewrite (Hs Hi) in Hi' |- *. by apply Hc. }
  destruct (is_uninitialised _) eqn:Ei.
  - assert (cell_ok c1) by (apply H1; [done|done|by cbn; rewrite fn_lookup_insert]).
    destruct (bool_decide _); [done|]. destruct (is_uninitialised (last_sealed c tf)) eqn:El; [done|].
    apply is_init in El. split; [|done]. split; [by unfold init; rewrite sealed_start|].
    apply stamp_ok, settle_ok. by apply Hc.
  - apply is_init in Ei. split.
    + split; [by unfold init; rewrite sealed_start|]. apply stamp_ok, settle_ok. by apply Hc.
    + apply H1; [others| |by cbn; rewrite fn_lookup_insert]. cbn. rewrite fn_lookup_insert. by intros ?%empty_not_init.
Qed.

Lemma repeat_ok tf t p secs c : cell_ok c -> cell_ok (snd (refresh_repeat_quote tf t p secs c)).
Proof.
  intros Hc. unfold refresh_repeat_quote. destruct (_ || _) eqn:E; [done|].
  apply orb_false_elim in E as [Ei%is_init _]. set (use := _ && _ && _).
  destruct (maybe_pin_ok tf use (slots c tf) (tp_day_open p)) as [H1 E1];
    [by apply Hc|apply use_day_open_pos|].
  set (st1 := if use then widen_range_to_include _ _ else slots c tf) in *.
  apply (put_slot_ok tf c); auto using set_armed_frame.
  by apply fold_book_ok, fold_baselines_ok.
Qed.

Lemma with_start_ok tf st v : bar_ok tf st -> bar_ok tf (with_start_cumulative st v).
Proof. intros H. apply (bar_ok_same tf st); [repeat split|apply (bar_counts _ _ H)|done]. Qed.

Lemma rebase_ok cum c : cell_ok c -> cell_ok (rebase_open_buckets cum c).
Proof.
  intros Hc tf. destruct (Hc tf) as [Hs Hl Ha]. cbn. destruct (is_uninitialised _) eqn:E; [by split|].
  split; [|done|done]. intros Hi. by apply with_start_ok, Hs.
Qed.

Lemma rebase_one_ok cum secs last span acc tf :
  cell_ok (snd acc) -> cell_ok (snd (rebase_one cum secs last span acc tf)).
Proof.
  destruct acc as [bits c]. cbn. intros Hc.
  destruct (negb (is_uninitialised (slots c tf))) eqn:E; cbn.
  - apply negb_true_iff, is_init in E. pose proof (slot_ok _ _ _ (Hc tf) E) as Hst.
    destruct (_ && _ && _); cbn.
    + apply (put_slot_ok tf c); auto. apply with_flow_ok; [done|apply (bar_counts _ _ Hst)].
    + intros tf'. revert tf'. apply (put_slot_ok tf c); [done|done| |cbn; by rewrite settle_start|done].
      by apply with_start_ok, settle_ok.
  - exact Hc.
Qed.

Lemma rebase_gap_ok cum secs last span c :
  cell_ok c -> cell_ok (snd (rebase_open_buckets_after_gap cum secs last span c)).
Proof.
  intros Hc. unfold rebase_open_buckets_after_gap. change c with (snd (0, c)) in Hc.
  revert Hc. generalize (0, c) as acc. induction ALL as [|tf l IH]; intros acc Hc; [done|].
  by apply IH, rebase_one_ok.
Qed.

Lemma cell_step_ok o c : cell_ok c -> op_ok o ->
  let '(out, c') := cell_step o c in out_ok out /\ cell_ok c'.
Proof.
  intros Hc Ho. destruct o; unfold cell_step, op_ok in *.
  - pose proof (fold_ok tf i c Hc Ho) as H. by destruct (fold tf i c).
  - done.
  - split; [done|by apply repeat_ok].
  - pose proof (catch_up_ok tf cutoff c Hc) as H. by destruct (catch_up_seal tf cutoff c).
  - pose proof (force_ok tf c Hc) as H. by destruct (force_seal tf c).
  - split; [done|by apply rebase_ok].
  - split; [done|by apply rebase_gap_ok].
  - done.
Qed.

(** C28: After any sequence of ticks, repeated quotes, seals and rebases every
    bar emitted or held is well formed: it starts on its frame's grid, its prices
    are ordered low, open and close, high, its counters and stamps are in range,
    and the open bar is later than the last sealed one. *)
Theorem bars_well_formed ops : Forall op_ok ops ->
  let '(bars, c) := cell_run ops empty_cell in
  Forall (fun b => init (snd b) /\ bar_ok (fst b) (snd b)) bars /\ cell_ok c.
Proof.
  assert (Hc : cell_ok empty_cell).
  { intros tf. split; intros ?%empty_not_init; done. }
  revert Hc. generalize empty_cell as c. induction ops as [|o ops IH]; intros c Hc Ho; [by split|].
  apply Forall_cons in Ho as [Ho Hos]. cbn. pose proof (cell_step_ok o c Hc Ho) as H.
  destruct (cell_step o c) as [out c1], H as [Hout Hc1].
  specialize (IH c1 Hc1 Hos). destruct (cell_run ops c1) as [outs c2], IH as [Houts Hc2].
  split; [|done]. destruct out as [[tf st]|]; [by constructor|done].
Qed.

(** * The memo of widened prices *)

Definition memo_ok (m : WidenMemo) : Prop :=
  length (memo_bits m) = length (memo_values m) /\
  forall slot held value, memo_bits m !! slot = Some held -> memo_values m !! slot = Some value ->
    value = f32_to_f64_clean held.

Lemma widen_ok slot raw m : memo_ok m ->
  fst (widen slot raw m) = f32_to_f64_clean raw /\ memo_ok (snd (widen slot raw m)).
Proof.
  intros [Hl Hm]. unfold widen. destruct (memo_bits m !! slot) as [held|] eqn:Eb; [|done].
  destruct (memo_values m !! slot) as [value|] eqn:Ev; [|done].
  destruct (bool_decide (held = raw)) eqn:E; cbn.
  - apply bool_decide_eq_true in E as <-. split; [by apply (Hm slot)|done].
  - split; [done|]. split; cbn; [by rewrite !length_insert|]. intros k h v Hh Hv.
    destruct (decide (slot = k)) as [<-|Hne].
    + rewrite list_lookup_insert_eq in Hh by by apply lookup_lt_Some in Eb.
      rewrite list_lookup_insert_eq in Hv by by apply lookup_lt_Some in Ev. congruence.
    + rewrite list_lookup_insert_ne in Hh, Hv by done. by apply (Hm k).
Qed.

Lemma widen_usable_ok slot raw m : memo_ok m ->
  fst (widen_usable slot raw m) = (if usable_exchange_price raw then Some (f32_to_f64_clean raw) else None) /\
  memo_ok (snd (widen_usable slot raw m)).
Proof.
  intros H. unfold widen_usable. destruct (usable_exchange_price raw); [|done].
  destruct (widen_ok slot raw m H) as [E Hm]. destruct (widen slot raw m). cbn in *. by rewrite E.
Qed.

(** The ticks of one instrument widened in turn through its memo. *)
Fixpoint widen_all (ts : list ParsedTick) (m : WidenMemo) : list TickPrices :=
  match ts with
  | [] => []
  | t :: ts => let '(p, m) := from_tick_memo t (f32_to_f64_clean (last_traded_price t)) m in p :: widen_all ts m
  end.

(** Converting a stream of ticks through the per-instrument memo of widened
    prices gives exactly the prices of converting each tick on its own. *)
Theorem memo_is_transparent ts : widen_all ts new_memo = from_tick <$> ts.
Proof.
  assert (Hm : memo_ok new_memo).
  { split; [done|]. intros slot held value. unfold new_memo. cbn [memo_bits memo_values].
    rewrite !lookup_replicate. intros [-> _] [-> _]. by vm_compute. }
  revert Hm. generalize new_memo as m. induction ts as [|t ts IH]; intros m Hm; [done|].
  cbn [widen_all fmap list_fmap]. unfold from_tick_memo.
  destruct (widen_usable_ok DAY_OPEN (day_open t) m Hm) as [E1 H1]. destruct (widen_usable _ _ m) as [o m1]; cbn in *.
  destruct (widen_usable_ok DAY_CLOSE (day_close t) m1 H1) as [E2 H2]. destruct (widen_usable _ _ m1) as [c m2]; cbn in *.
  destruct (widen_usable_ok DAY_HIGH (day_high t) m2 H2) as [E3 H3]. destruct (widen_usable _ _ m2) as [h m3]; cbn in *.
  destruct (widen_usable_ok DAY_LOW (day_low t) m3 H3) as [E4 H4]. destruct (widen_usable _ _ m3) as [l m4]; cbn in *.
  rewrite (IH m4 H4). f_equal. unfold from_tick. subst.
  by destruct (usable_exchange_price (day_open t)), (usable_exchange_price (day_close t)).
Qed.

(** * The price that prints past the buffer *)

(** 1e-30, an ordinary [f32], prints as 32 characters; the 24 that fit read as
    zero. *)
Definition past_buffer : f32 := f32_of_f64 (f64_lit 1 30).

(** A day low of 1e-30 passes the exchange-price test but converts to zero,
    and drops the low of the day's first bar to zero. *)
Theorem usable_day_low_can_zero_a_bar t st :
  day_low t = past_buffer -> f64_ltb f64_zero (lc_low st) = true ->
  usable_exchange_price (day_low t) = true /\
  SFltb f32_zero (day_low t) = true /\
  lc_low (adopt_exchange_day_extremes st (from_tick t)) = f64_zero.
Proof.
  intros Ht Hl. assert (Hu : usable_exchange_price past_buffer = true) by by vm_compute.
  assert (Hc : f32_to_f64_clean past_buffer = f64_zero) by by vm_compute.
  rewrite Ht. split; [done|]. split; [by vm_compute|].
  unfold adopt_exchange_day_extremes, from_tick, adopt_range. cbn [tp_day_low lc_low with_range].
  rewrite Ht, Hu, Hc. by rewrite Hl.
Qed.

(** * Instances *)

Definition sample_input (secs : Z) (price : f64) (baseline cum : Z) : TickInput :=
  mkInput default_tick (mkPrices price f64_zero f64_zero None None) baseline Refold cum default_delta
    (Some (cum - baseline)) secs false.

(** Ten in the morning of day 20,000, and two trades a minute apart with a late
    one between. *)
Definition ten_am : Z := 1728036000.
Definition sample_first : TickInput := sample_input (ten_am + 5) (f64_of_Z 100) 500 500.
Definition sample_second : TickInput := sample_input (ten_am + 9) (f64_of_Z 103) 500 540.
Definition sample_next : TickInput := sample_input (ten_am + 61) (f64_of_Z 101) 540 600.
Definition sample_late : TickInput := sample_input (ten_am + 7) (f64_of_Z 99) 600 650.

(** Goals on concrete numbers. *)
Ltac numbers :=
  repeat match goal with
  | |- Forall _ [] => apply Forall_nil; exact I
  | |- Forall _ (_ :: _) => apply Forall_cons
  | |- _ /\ _ => split
  | |- _ => vm_compute; repeat first [exact I | reflexivity | discriminate | split]
  end.

Definition sample_ops : list cell_op :=
  [OpTick M1 sample_first; OpTick M1 sample_next; OpTick M1 sample_late; OpForce M1].
Lemma sample_ops_ok : Forall op_ok sample_ops.
Proof. unfold sample_ops, op_ok, input_ok, in_u32. numbers. Qed.

Lemma bars_well_formed_witness :
  let '(bars, c) := cell_run sample_ops empty_cell in
  Forall (fun b => init (snd b) /\ bar_ok (fst b) (snd b)) bars /\ cell_ok c.
Proof. exact (bars_well_formed sample_ops sample_ops_ok). Defined.

Lemma usable_day_low_can_zero_a_bar_witness :
  let t := {| security_id := 0; exchange_segment_code := 1; last_traded_price := f32_zero;
    last_trade_quantity := 0; exchange_timestamp := 0; received_at_nanos := 0;
    average_traded_price := f32_zero; volume := 0; total_sell_quantity := 0;
    total_buy_quantity := 0; day_open := f32_zero; day_close := f32_zero;
    day_high := f32_zero; day_low := past_buffer; open_interest := 0;
    oi_day_high := 0; oi_day_low := 0; iv := f64_nan; delta := f64_nan;
    gamma := f64_nan; theta := f64_nan; vega := f64_nan |} in
  lc_low (adopt_exchange_day_extremes (with_range empty_state (f64_of_Z 100) (f64_of_Z 99)) (from_tick t)) = f64_zero.
Proof.
  intros t. apply (usable_day_low_can_zero_a_bar t (with_range empty_state (f64_of_Z 100) (f64_of_Z 99)));
    [reflexivity|vm_compute; reflexivity].
Defined.
