(* ===== verification/CandleVolume.v ===== *)
(** Conservation of volume over the bars of a day: whatever the ticks, drains and
    late trades, the rows a frame stores add up to the volume the exchange told
    of, the same for every frame. *)
From stdpp Require Import functions.
From S2P Require Import Prelude Bytes Float FeedTypes PricePrecision Candles AggregatorCell.
Local Open Scope Z_scope.

#[local] Arguments open_bucket : simpl never.
#[local] Arguments settle_into : simpl never.
#[local] Arguments stamp_seal_percentages : simpl never.

(** * A day's bars tile its volume *)

(** The bars of a day as the store keeps them: one row per bucket start, the last
    one written; their volume together. *)
Definition store (T : gmap Z LiveCandleState) (st : LiveCandleState) : gmap Z LiveCandleState :=
  <[lc_bucket_start st := st]> T.
Definition total (T : gmap Z LiveCandleState) : Z := map_fold (fun _ st acc => lc_volume st + acc) 0 T.

Lemma total_fresh T st : T !! lc_bucket_start st = None -> total (store T st) = lc_volume st + total T.
Proof. intros H. unfold total, store. rewrite map_fold_insert_L; [done| |done]. intros. lia. Qed.

Lemma total_replace T st old : T !! lc_bucket_start st = Some old ->
  total (store T st) = total T - lc_volume old + lc_volume st.
Proof.
  intros H. set (k := lc_bucket_start st) in *.
  assert (E : total T = lc_volume old + total (delete k T)).
  { rewrite <- (insert_delete_id T k old) at 1 by done. unfold total.
    rewrite map_fold_insert_L; [done| |by rewrite lookup_delete_eq]. intros. lia. }
  unfold store. fold k. rewrite <- (insert_delete_eq T k st). unfold total at 1.
  rewrite map_fold_insert_L; [|intros; lia|by rewrite lookup_delete_eq]. fold (total (delete k T)). lia.
Qed.

(** The cumulative a bar ends at. *)
Definition end_of (st : LiveCandleState) : Z := lc_start_cumulative st + lc_volume st.
Definition flow_ok (st : LiveCandleState) : Prop := 0 <= lc_start_cumulative st /\ 0 <= lc_volume st.

Lemma settle_end k st : flow_ok st -> 0 <= upto k <= u64_max ->
  flow_ok (settle_into k st) /\ lc_start_cumulative (settle_into k st) = lc_start_cumulative st /\
  end_of (settle_into k st) = Z.max (end_of st) (upto k).
Proof.
  intros [H1 H2] Hk. unfold settle_into, end_of, flow_ok. destruct (decide (k = no_carry)) as [->|]; cbn.
  - lia.
  - zcases; zints.
Qed.

Lemma open_end t p start cum0 ctx cum signed secs : 0 <= cum0 <= u64_max -> 0 <= cum <= u64_max ->
  let st := open_bucket t p start cum0 ctx cum signed secs in
  flow_ok st /\ lc_start_cumulative st = cum0 /\ end_of st = Z.max cum0 cum.
Proof.
  intros H0 H1. unfold open_bucket, end_of, flow_ok. destruct (first_bucket_of_day ctx); cbn; zints.
Qed.

Lemma fold_in_bucket_flow st t p cum signed secs stale : flow_ok st -> 0 <= cum <= u64_max ->
  let st' := fold_in_bucket st t p cum signed secs stale in
  flow_ok st' /\ lc_start_cumulative st' = lc_start_cumulative st /\ end_of st' = Z.max (end_of st) cum.
Proof.
  intros [H1 H2] Hc. unfold fold_in_bucket, fold_receipt, fold_close, fold_open, end_of, flow_ok. cbn.
  destruct (0 <? _), (secs <? _), (_ && _); cbn; zcases; zints.
Qed.

Lemma fold_late_hlc_flow st p secs received stale :
  let st' := stamp_seal_percentages (fold_late_hlc st p secs received stale) in
  lc_bucket_start st' = lc_bucket_start st /\ lc_volume st' = lc_volume st /\
  lc_start_cumulative st' = lc_start_cumulative st.
Proof.
  unfold stamp_seal_percentages, fold_late_hlc, fold_receipt, fold_close, fold_open. cbn.
  by destruct (0 <? _), (secs <? _), (_ && _).
Qed.

(** The frame is the store's open end: what is stored, the open bar and the
    carry reach exactly the highest cumulative told, from where the day began. *)
Definition current (c : AggregatorCell) (tf : TfIndex) : LiveCandleState :=
  if is_uninitialised (slots c tf) then last_sealed c tf else slots c tf.
Definition open_volume (c : AggregatorCell) (tf : TfIndex) : Z :=
  if is_uninitialised (slots c tf) then 0 else lc_volume (slots c tf).

Record tiled (tf : TfIndex) (c : AggregatorCell) (T : gmap Z LiveCandleState) (b0 M : Z) : Prop := {
  t_chain : chain_broken c tf = false;
  t_upto : 0 <= carried_upto c tf <= u64_max;
  t_slot : init (slots c tf) -> flow_ok (slots c tf);
  t_last : init (last_sealed c tf) -> flow_ok (last_sealed c tf);
  t_some : init (current c tf);
  t_total : total T + open_volume c tf + b0 = end_of (current c tf);
  t_high : Z.max (end_of (current c tf)) (carried_upto c tf) = M;
  t_bound : 0 <= b0 <= M /\ M <= u64_max;
  t_order : init (slots c tf) -> init (last_sealed c tf) ->
            lc_bucket_start (last_sealed c tf) < lc_bucket_start (slots c tf);
  t_keys : if is_uninitialised (last_sealed c tf) then T = ∅ else
           (exists old, T !! lc_bucket_start (last_sealed c tf) = Some old /\
              lc_volume old = lc_volume (last_sealed c tf)) /\
           forall k, is_Some (T !! k) -> k <= lc_bucket_start (last_sealed c tf) }.

(** A cell that has seen no tick of the day in this frame. *)
Record fresh (tf : TfIndex) (c : AggregatorCell) : Prop := {
  f_slot : slots c tf = empty_state;
  f_last : last_sealed c tf = empty_state;
  f_carry : carried_upto c tf = 0;
  f_chain : chain_broken c tf = false }.

Definition stored (out : option LiveCandleState) (T : gmap Z LiveCandleState) : gmap Z LiveCandleState :=
  match out with Some st => store T st | None => T end.

(** The hypotheses on a tick's numbers: a 32-bit second, a 64-bit counter, and a
    baseline no higher than what was told before. *)
Definition tick_fed (i : TickInput) (known : Z) : Prop :=
  in_u32 (ti_secs i) /\ 0 <= ti_baseline i <= known /\ 0 <= ti_cumulative i <= u64_max.

Section tiling.
Context (tf : TfIndex).

Lemma bucket_init secs : in_u32 secs -> bucket_start tf secs <> 0.
Proof. intros H%(bucket_start_range tf). lia. Qed.

Lemma key_free c T b0 M : tiled tf c T b0 M -> init (slots c tf) ->
  T !! lc_bucket_start (slots c tf) = None /\
  forall k, is_Some (T !! k) -> k <= lc_bucket_start (slots c tf).
Proof.
  intros H Hi. pose proof (t_keys _ _ _ _ _ H) as Hk. pose proof (t_order _ _ _ _ _ H Hi) as Ho.
  destruct (is_uninitialised (last_sealed c tf)) eqn:El.
  - subst T. split; [by rewrite lookup_empty|]. intros k [? Hk]. by rewrite lookup_empty in Hk.
  - apply is_init in El. specialize (Ho El). destruct Hk as [_ Hk]. split.
    + apply eq_None_not_Some. intros ?%Hk. lia.
    + intros k ?%Hk. lia.
Qed.

(** What a seal stores: the settled bar, under a new key above all others. *)
Lemma seal_tiles c T b0 M : tiled tf c T b0 M -> init (slots c tf) ->
  let sealed := stamp_seal_percentages (settle_into (fst (take_carry tf c)) (slots c tf)) in
  flow_ok sealed /\ end_of sealed = M /\ total (store T sealed) + b0 = M /\
  (exists old, store T sealed !! lc_bucket_start sealed = Some old /\ lc_volume old = lc_volume sealed) /\
  (forall k, is_Some (store T sealed !! k) -> k <= lc_bucket_start sealed) /\
  lc_bucket_start sealed = lc_bucket_start (slots c tf).
Proof.
  intros H Hi sealed. pose proof (t_slot _ _ _ _ _ H Hi) as Hf.
  destruct (settle_end (fst (take_carry tf c)) (slots c tf) Hf (t_upto _ _ _ _ _ H)) as (Hf' & Hs & He).
  destruct (key_free c T b0 M H Hi) as [Hn Hk].
  assert (Hb : lc_bucket_start sealed = lc_bucket_start (slots c tf)) by apply sealed_start.
  pose proof (t_total _ _ _ _ _ H) as Ht. pose proof (t_high _ _ _ _ _ H) as Hh.
  unfold open_volume, current in Ht, Hh. rewrite (proj2 (is_init _) Hi) in Ht, Hh.
  assert (Hend : end_of sealed = M) by (subst M; exact He).
  split; [exact Hf'|]. split; [done|]. split_and!.
  - rewrite total_fresh by by rewrite Hb. unfold end_of in *.
    change (lc_volume sealed) with (lc_volume (settle_into (fst (take_carry tf c)) (slots c tf))) in *.
    change (lc_start_cumulative sealed) with (lc_start_cumulative (settle_into (fst (take_carry tf c)) (slots c tf))) in *.
    lia.
  - exists sealed. unfold store. by rewrite lookup_insert_eq.
  - intros k Hks. unfold store in Hks. destruct (decide (k = lc_bucket_start sealed)) as [->|Hne]; [done|].
    rewrite lookup_insert_ne in Hks by done. rewrite Hb. by apply Hk.
  - done.
Qed.

Lemma late_tiles i c T b0 M :
  tiled tf c T b0 M -> tick_fed i M ->
  let '(out, c') := fold_late tf i c in
  tiled tf c' (stored (emitted out) T) b0 (Z.max M (ti_cumulative i)).
Proof.
  intros H (Hs & Hb & Hc). unfold fold_late. set (c1 := carry_unattributed _ _ _ _ _).
  assert (F : slots c1 = slots c /\ last_sealed c1 = last_sealed c /\ chain_broken c1 = chain_broken c).
  { subst c1. unfold carry_unattributed. destruct (_ && _); [done|]. by destruct (ti_signed i). }
  destruct F as (Fs & Fl & Fc).
  assert (Hu : 0 <= carried_upto c1 tf <= u64_max /\
    Z.max M (carried_upto c1 tf) = Z.max M (ti_cumulative i) /\ carried_upto c tf <= carried_upto c1 tf).
  { pose proof (t_upto _ _ _ _ _ H). pose proof (t_high _ _ _ _ _ H).
    subst c1. unfold carry_unattributed.
    destruct (Z.ltb_spec (ti_baseline i) (ti_cumulative i)); simpl;
      [|destruct (ti_signed i); simpl; rewrite ?fn_lookup_insert; lia].
    destruct (ti_signed i); simpl; rewrite fn_lookup_insert; zcases; lia. }
  destruct Hu as (Hu1 & Hu2 & Hu3).
  assert (H1 : tiled tf c1 T b0 (Z.max M (ti_cumulative i))).
  { destruct H. split; unfold current, open_volume in *; rewrite ?Fs, ?Fl, ?Fc; try done; lia. }
  destruct (_ && _ && _) eqn:E; [|exact H1].
  apply andb_prop in E as [[_ Hi]%andb_prop _]. apply negb_true_iff, is_init in Hi.
  destruct (fold_late_hlc_flow (last_sealed c tf) (ti_prices i) (ti_secs i)
    (received_at_nanos (ti_tick i)) (ti_stale i)) as (Ab & Av & Ac).
  set (a := stamp_seal_percentages _) in *. cbn.
  destruct H1 as [? ? ? H4 H5 H6 H7 ? H9 H10]. rewrite Fl in *.
  rewrite (proj2 (is_init _) Hi) in H10. destruct H10 as [(old & Hold & Hv) Hk].
  assert (Ea : end_of a = end_of (last_sealed c tf)) by (unfold end_of; lia).
  assert (Et : total (store T a) = total T).
  { rewrite (total_replace T a old) by by rewrite Ab. lia. }
  assert (Ec : current (set_last_sealed c1 tf a) tf = current c1 tf \/
    end_of (current (set_last_sealed c1 tf a) tf) = end_of (current c1 tf) /\
    init (current (set_last_sealed c1 tf a) tf)).
  { unfold current. cbn. rewrite fn_lookup_insert, Fl. destruct (is_uninitialised (slots c1 tf)); [right|by left].
    split; [done|]. unfold init. by rewrite Ab. }
  assert (Ec2 : end_of (current (set_last_sealed c1 tf a) tf) = end_of (current c1 tf)).
  { by destruct Ec as [->|[? _]]. }
  split; try done; cbn; rewrite ?fn_lookup_insert; try done.
  - intros _. destruct (H4 Hi). unfold flow_ok. lia.
  - destruct Ec as [->|[_ ?]]; done.
  - rewrite Et, Ec2. done.
  - rewrite Ec2. done.
  - rewrite Ab. auto.
  - assert (Hia : is_uninitialised a = false) by (apply is_init; unfold init; by rewrite Ab).
    rewrite Hia. split.
    + exists a. unfold store. by rewrite lookup_insert_eq.
    + intros k Hks. rewrite Ab. unfold store in Hks. rewrite Ab in Hks.
      destruct (decide (k = lc_bucket_start (last_sealed c tf))) as [->|Hne]; [done|].
      rewrite lookup_insert_ne in Hks by done. by apply Hk.
Qed.
End tiling.

Section tiling_steps.
Context (tf : TfIndex).

Lemma fold_same_flow i c :
  flow_ok (slots c tf) -> 0 <= ti_cumulative i <= u64_max ->
  let c' := snd (fold_same tf i c) in
  flow_ok (slots c' tf) /\ end_of (slots c' tf) = Z.max (end_of (slots c tf)) (ti_cumulative i) /\
  lc_start_cumulative (slots c' tf) = lc_start_cumulative (slots c tf) /\
  lc_bucket_start (slots c' tf) = lc_bucket_start (slots c tf) /\
  last_sealed c' = last_sealed c /\ carried_upto c' = carried_upto c /\ chain_broken c' = chain_broken c.
Proof.
  intros Hf Hc. unfold fold_same. set (use := armed_for_day_open c tf && _ && _).
  set (st1 := if use then widen_range_to_include _ _ else slots c tf).
  assert (E1 : flow_ok st1 /\ end_of st1 = end_of (slots c tf) /\
    lc_start_cumulative st1 = lc_start_cumulative (slots c tf) /\
    lc_bucket_start st1 = lc_bucket_start (slots c tf)) by (subst st1; by destruct use).
  destruct E1 as (F1 & E1 & S1 & B1).
  destruct (fold_in_bucket_flow st1 (ti_tick i) (ti_prices i) (ti_cumulative i) (ti_signed i) (ti_secs i)
    (ti_stale i) F1 Hc) as (F2 & S2 & E2).
  pose proof (fold_in_bucket_start st1 (ti_tick i) (ti_prices i) (ti_cumulative i) (ti_signed i)
    (ti_secs i) (ti_stale i)) as B2.
  set (st2 := fold_in_bucket _ _ _ _ _ _ _) in *. cbn. rewrite fn_lookup_insert.
  set (st3 := if is_days_first_session_bucket _ _ then _ else _).
  assert (E3 : flow_ok st3 /\ end_of st3 = end_of st2 /\
    lc_start_cumulative st3 = lc_start_cumulative st2 /\ lc_bucket_start st3 = lc_bucket_start st2).
  { subst st3. destruct (is_days_first_session_bucket _ _); [done|]. by destruct (negb _ && _). }
  destruct E3 as (F3 & E3 & S3 & B3). split; [done|]. split; [by rewrite E3, E2, E1|].
  split; [by rewrite S3, S2|]. split; [by rewrite B3, B2|]. by destruct use.
Qed.

Lemma same_tiles i c T b0 M :
  tiled tf c T b0 M -> tick_fed i M -> init (slots c tf) ->
  tiled tf (snd (fold_same tf i c)) T b0 (Z.max M (ti_cumulative i)).
Proof.
  intros H (Hs & Hb & Hc) Hi.
  destruct (fold_same_flow i c (t_slot _ _ _ _ _ H Hi) Hc) as (F & E & S & B & L & U & Ch).
  set (c' := snd (fold_same tf i c)) in *.
  assert (Hi' : init (slots c' tf)) by (unfold init; by rewrite B).
  destruct H as [? ? ? ? ? H6 H7 ? ? H10]. unfold current, open_volume, end_of in *.
  rewrite (proj2 (is_init _) Hi) in *.
  split; unfold current, open_volume, end_of; rewrite ?L, ?U, ?Ch, ?(proj2 (is_init _) Hi'), ?B; try done; try lia; auto.
Qed.

Lemma roll_tiles i c T b0 M :
  tiled tf c T b0 M -> tick_fed i M -> init (slots c tf) ->
  lc_bucket_start (slots c tf) < bucket_start tf (ti_secs i) ->
  let '(out, c') := fold_roll tf i c in
  tiled tf c' (stored (emitted out) T) b0 (Z.max M (ti_cumulative i)).
Proof.
  intros H (Hs & Hb & Hc) Hi Hlt. unfold fold_roll.
  set (c1 := if _ || _ then _ else c).
  assert (F : slots c1 = slots c /\ last_sealed c1 = last_sealed c /\ chain_broken c1 = chain_broken c /\
    fst (take_carry tf c1) = fst (take_carry tf c)).
  { subst c1. by destruct (_ || _). }
  destruct F as (F1 & F2 & F3 & F4).
  destruct (seal_tiles tf c T b0 M H Hi) as (Sf & Se & St & Sk & Sl & Sb).
  rewrite <- F4, <- F1 in *. change (take_carry tf c1) with (fst (take_carry tf c1), snd (take_carry tf c1)).
  cbn iota beta. set (sealed := stamp_seal_percentages _) in *.
  assert (Hch : chain_broken (snd (take_carry tf c1)) tf = false).
  { cbn. rewrite F3. apply (t_chain _ _ _ _ _ H). }
  rewrite Hch. pose proof (t_bound _ _ _ _ _ H) as Hbd. set (ch := u64_saturating_add _ _).
  assert (Hm : ch = M).
  { subst ch. change (u64_saturating_add (lc_start_cumulative sealed) (lc_volume sealed) = M).
    destruct Sf. unfold end_of in Se. zints. }
  set (st := open_bucket _ _ _ _ _ _ _ _).
  assert (Ho : flow_ok st /\ lc_start_cumulative st = ch /\ end_of st = Z.max ch (ti_cumulative i)).
  { apply open_end; lia. }
  assert (Hbs : lc_bucket_start st = bucket_start tf (ti_secs i)) by apply open_bucket_at.
  destruct Ho as (Of & Os & Oe). assert (Hist : init st).
  { unfold init. rewrite Hbs. by apply bucket_init. }
  assert (Hise : init sealed) by (unfold init; by rewrite Sb).
  cbn. split; unfold current, open_volume; cbn; rewrite ?fn_lookup_insert;
    rewrite ?(proj2 (is_init st) Hist), ?(proj2 (is_init sealed) Hise); try done.
  - unfold end_of in *. lia.
  - lia.
  - lia.
  - intros _ _. by rewrite Hbs, Sb.
Qed.

Lemma catch_up_tiles cutoff c T b0 M :
  tiled tf c T b0 M ->
  let '(out, c') := catch_up_seal tf cutoff c in tiled tf c' (stored out T) b0 M.
Proof.
  intros H. unfold catch_up_seal. destruct (is_uninitialised (slots c tf)) eqn:Ei; [done|].
  destruct (_ <? _); [done|]. apply is_init in Ei as Hi.
  destruct (seal_tiles tf c T b0 M H Hi) as (Sf & Se & St & Sk & Sl & Sb).
  change (take_carry tf c) with (fst (take_carry tf c), snd (take_carry tf c)).
  cbn iota beta. set (sealed := stamp_seal_percentages _) in *.
  assert (Hise : init sealed) by (unfold init; by rewrite Sb).
  pose proof (t_bound _ _ _ _ _ H).
  split; unfold current, open_volume; cbn; rewrite ?fn_lookup_insert; cbn;
    rewrite ?(proj2 (is_init sealed) Hise); try done; try lia.
  apply (t_chain _ _ _ _ _ H).
Qed.

(** A frame with nothing open: the next bucket chains to the last sealed bar. *)
Lemma first_tiles i c T b0 M :
  tiled tf c T b0 M -> tick_fed i M -> ~ init (slots c tf) ->
  lc_bucket_start (last_sealed c tf) < bucket_start tf (ti_secs i) ->
  tiled tf (snd (fold_first tf i c)) T b0 (Z.max M (ti_cumulative i)).
Proof.
  intros H (Hs & Hb & Hc) Hi Hlt. unfold fold_first.
  set (c1 := if _ && _ && _ then _ else c).
  assert (F : slots c1 = slots c /\ last_sealed c1 = last_sealed c /\ chain_broken c1 = chain_broken c /\
    fst (take_carry tf c1) = fst (take_carry tf c)).
  { subst c1. by destruct (_ && _ && _). }
  destruct F as (F1 & F2 & F3 & F4).
  pose proof (t_bound _ _ _ _ _ H) as Hbd. pose proof (t_chain _ _ _ _ _ H) as Hch.
  pose proof (t_some _ _ _ _ _ H) as Hl. pose proof (t_total _ _ _ _ _ H) as Ht.
  pose proof (t_high _ _ _ _ _ H) as Hh. pose proof (t_keys _ _ _ _ _ H) as Hk.
  pose proof (t_upto _ _ _ _ _ H) as Hu. pose proof (t_last _ _ _ _ _ H) as Hf.
  apply not_init in Hi as Hu0. unfold current, open_volume in Hl, Ht, Hh. rewrite Hu0 in Hl, Ht, Hh.
  specialize (Hf Hl). unfold next_bucket_start_cumulative. rewrite F3, Hch, F2, (proj2 (is_init _) Hl).
  change (take_carry tf c1) with (fst (take_carry tf c1), snd (take_carry tf c1)). cbn iota beta.
  set (ch := u64_saturating_add _ _). assert (Hm : ch = end_of (last_sealed c tf)).
  { subst ch. destruct Hf. unfold end_of in *. zints. }
  set (st := open_bucket _ _ _ _ _ _ _ _).
  assert (Ho : flow_ok st /\ lc_start_cumulative st = ch /\ end_of st = Z.max ch (ti_cumulative i)).
  { apply open_end; [destruct Hf; unfold end_of in *; lia|done]. }
  assert (Hbs : lc_bucket_start st = bucket_start tf (ti_secs i)) by apply open_bucket_at.
  clearbody st. destruct Ho as (Of & Os & Oe). rewrite F4.
  destruct (settle_end (fst (take_carry tf c)) st Of Hu) as (Sf & Ss & Se).
  pose proof (settle_start (fst (take_carry tf c)) st) as Sb. set (st' := settle_into _ st) in *.
  assert (Hist : init st') by (unfold init; rewrite Sb, Hbs; by apply bucket_init).
  cbn in Se. rewrite (proj2 (is_init _) Hl) in Hk.
  split; unfold current, open_volume; cbn; rewrite ?fn_lookup_insert;
    rewrite ?F2, ?(proj2 (is_init st') Hist), ?(proj2 (is_init _) Hl); try done; try lia.
  - by rewrite F3.
  - unfold end_of in *. lia.
Qed.

(** The day's first tick anchors the frame at its baseline. *)
Lemma fresh_tiles i c known :
  fresh tf c -> tick_fed i known -> known <= u64_max ->
  let '(out, c') := fold tf i c in
  out = Updated /\ tiled tf c' ∅ (ti_baseline i) (Z.max (ti_baseline i) (ti_cumulative i)).
Proof.
  intros [Es El Eu Ec] (Hs & Hb & Hc) Hkn. unfold fold. rewrite Es, El. cbn.
  unfold fold_first. set (c1 := if _ && _ && _ then _ else c).
  assert (F : slots c1 = slots c /\ last_sealed c1 = last_sealed c /\ chain_broken c1 = chain_broken c /\
    fst (take_carry tf c1) = fst (take_carry tf c)).
  { subst c1. by destruct (_ && _ && _). }
  destruct F as (F1 & F2 & F3 & F4). unfold next_bucket_start_cumulative. rewrite F3, Ec, F2, El.
  change (take_carry tf c1) with (fst (take_carry tf c1), snd (take_carry tf c1)). cbn iota beta.
  cbn [is_uninitialised empty_state lc_bucket_start Z.eqb].
  set (st := open_bucket _ _ _ _ _ _ _ _).
  assert (Ho : flow_ok st /\ lc_start_cumulative st = ti_baseline i /\
    end_of st = Z.max (ti_baseline i) (ti_cumulative i)) by (apply open_end; lia).
  assert (Hbs : lc_bucket_start st = bucket_start tf (ti_secs i)) by apply open_bucket_at.
  clearbody st. destruct Ho as (Of & Os & Oe). rewrite F4.
  assert (Hu : 0 <= upto (fst (take_carry tf c)) <= u64_max) by (cbn; rewrite Eu; done).
  destruct (settle_end (fst (take_carry tf c)) st Of Hu) as (Sf & Ss & Se).
  pose proof (settle_start (fst (take_carry tf c)) st) as Sb. set (st' := settle_into _ st) in *.
  assert (Hist : init st') by (unfold init; rewrite Sb, Hbs; by apply bucket_init).
  cbn in Se. rewrite Eu in Se. pose proof (map_fold_empty (M := gmap Z) (fun (_ : Z) st acc => lc_volume st + acc) 0) as H0.
  split; [done|]. split; unfold current, open_volume; cbn; rewrite ?fn_lookup_insert;
    rewrite ?F2, ?El, ?(proj2 (is_init st') Hist); try done; try lia; try (unfold end_of in *; lia).
  - by rewrite F3.
  - unfold total. rewrite H0. unfold end_of in *. lia.
Qed.
End tiling_steps.

(** A day of one frame: ticks and watermark drains, then the day's close. *)
Inductive day_event : Type :=
  | DayTick (i : TickInput)
  | DayDrain (cutoff : Z).

Definition day_step (tf : TfIndex) (e : day_event) (c : AggregatorCell)
    : option LiveCandleState * AggregatorCell :=
  match e with
  | DayTick i => let '(out, c) := fold tf i c in (emitted out, c)
  | DayDrain cutoff => catch_up_seal tf cutoff c
  end.

(** The rows stored over the day, each write replacing its bucket's row. *)
Fixpoint day_rows (tf : TfIndex) (evs : list day_event) (T : gmap Z LiveCandleState) (c : AggregatorCell)
    : gmap Z LiveCandleState :=
  match evs with
  | [] => stored (fst (force_seal tf c)) T
  | e :: evs => let '(out, c) := day_step tf e c in day_rows tf evs (stored out T) c
  end.

(** What the ticks tell of the day's volume: the first baseline and the highest
    cumulative so far. *)
Definition told (e : day_event) (known : option (Z * Z)) : option (Z * Z) :=
  match e, known with
  | DayTick i, None => Some (ti_baseline i, Z.max (ti_baseline i) (ti_cumulative i))
  | DayTick i, Some (b0, m) => Some (b0, Z.max m (ti_cumulative i))
  | DayDrain _, known => known
  end.
Definition told_day (evs : list day_event) : option (Z * Z) := foldl (fun k e => told e k) None evs.

Fixpoint fed (known : option (Z * Z)) (evs : list day_event) : Prop :=
  match evs with
  | [] => True
  | e :: evs =>
      match e with
      | DayTick i => tick_fed i (match known with Some (_, m) => m | None => u64_max end)
      | DayDrain _ => True
      end /\ fed (told e known) evs
  end.

Definition day_volume (known : option (Z * Z)) : Z :=
  match known with Some (b0, m) => m - b0 | None => 0 end.

Definition day_inv (tf : TfIndex) (known : option (Z * Z)) (T : gmap Z LiveCandleState)
    (c : AggregatorCell) : Prop :=
  match known with Some (b0, m) => tiled tf c T b0 m | None => fresh tf c /\ T = ∅ end.

Lemma fold_first_out tf i c : fst (fold_first tf i c) = Updated.
Proof. unfold fold_first. by destruct (next_bucket_start_cumulative _ _ _ _). Qed.

Lemma fold_same_out tf i c : fst (fold_same tf i c) = Updated.
Proof. done. Qed.

Lemma fold_tiles tf i c T b0 M :
  tiled tf c T b0 M -> tick_fed i M ->
  let '(out, c') := fold tf i c in
  tiled tf c' (stored (emitted out) T) b0 (Z.max M (ti_cumulative i)).
Proof.
  intros H Hf. unfold fold. destruct (is_uninitialised (slots c tf)) eqn:Eu.
  - pose proof (t_some _ _ _ _ _ H) as Hl. unfold current in Hl. rewrite Eu in Hl.
    rewrite (proj2 (is_init _) Hl). simpl.
    destruct (Z.leb_spec (bucket_start tf (ti_secs i)) (lc_bucket_start (last_sealed c tf))).
    + by apply late_tiles.
    + apply not_init in Eu. pose proof (first_tiles tf i c T b0 M H Hf Eu ltac:(lia)) as Hr.
      by rewrite (surjective_pairing (fold_first tf i c)), fold_first_out.
  - apply is_init in Eu. destruct (Z.eqb_spec (bucket_start tf (ti_secs i)) (lc_bucket_start (slots c tf))).
    + pose proof (same_tiles tf i c T b0 M H Hf Eu) as Hr. by rewrite (surjective_pairing (fold_same tf i c)), fold_same_out.
    + destruct (Z.ltb_spec (lc_bucket_start (slots c tf)) (bucket_start tf (ti_secs i))).
      * by apply roll_tiles.
      * by apply late_tiles.
Qed.

Lemma day_step_inv tf e known T c :
  day_inv tf known T c -> fed known [e] ->
  let '(out, c') := day_step tf e c in day_inv tf (told e known) (stored out T) c'.
Proof.
  intros H [Hf _]. destruct e as [i|cutoff], known as [[b0 m]|]; unfold day_step; simpl in *.
  - pose proof (fold_tiles tf i c T b0 m H Hf) as Ht. by destruct (fold tf i c).
  - destruct H as [Hfr ->]. pose proof (fresh_tiles tf i c _ Hfr Hf ltac:(done)) as Ht.
    destruct (fold tf i c) as [out c'], Ht as [-> Ht]. exact Ht.
  - apply (catch_up_tiles tf cutoff c T b0 m H).
  - destruct H as [Hfr ->]. unfold catch_up_seal. rewrite (f_slot _ _ Hfr). by simpl.
Qed.

Lemma force_total tf c T b0 M : tiled tf c T b0 M -> total (stored (fst (force_seal tf c)) T) = M - b0.
Proof.
  intros H. pose proof (t_upto _ _ _ _ _ H) as Hu. unfold force_seal. cbn.
  destruct (is_uninitialised (slots c tf)) eqn:Eu.
  - pose proof (t_some _ _ _ _ _ H) as Hl. pose proof (t_total _ _ _ _ _ H) as Ht.
    pose proof (t_high _ _ _ _ _ H) as Hh. pose proof (t_keys _ _ _ _ _ H) as Hk.
    unfold current, open_volume in *. rewrite Eu in *. rewrite (proj2 (is_init _) Hl) in *.
    destruct Hk as [(old & Hold & Hv) _]. pose proof (t_last _ _ _ _ _ H Hl) as Hf.
    destruct (bool_decide _) eqn:Eb; cbn.
    + apply bool_decide_eq_true in Eb. injection Eb as Eb _ _. destruct Hf. unfold end_of in *. lia.
    + destruct (settle_end (mkCarry (carried_upto c tf) (carried_net c tf) (carried_unclassified c tf))
        (last_sealed c tf) Hf Hu) as (Sf & Ss & Se).
      rewrite (total_replace T _ old) by by rewrite sealed_start.
      unfold stamp_seal_percentages. cbn [lc_volume with_percentages upto] in *. unfold end_of in *. lia.
  - apply is_init in Eu. destruct (seal_tiles tf c T b0 M H Eu) as (_ & _ & St & _). cbn in *. lia.
Qed.

(** C19: Whatever ticks a day brings, in whatever order and however late, and
    wherever catch-up seals fall, the volumes of the bars each timeframe stores
    add up exactly to the growth of the exchange's cumulative volume over the day:
    no share is lost or counted twice. *)
Theorem every_frame_tiles_the_day tf evs :
  fed None evs ->
  total (day_rows tf evs ∅ empty_cell) = day_volume (told_day evs).
Proof.
  assert (H : day_inv tf None ∅ empty_cell) by by repeat split.
  unfold told_day. revert H. generalize (None : option (Z * Z)) as known.
  generalize (∅ : gmap Z LiveCandleState) as T. generalize empty_cell as c.
  induction evs as [|e evs IH]; intros c T known H Hf.
  - cbn [day_rows foldl]. destruct known as [[b0 m]|]; [by apply force_total|].
    destruct H as [[Es El Eu Ec] ->]. unfold force_seal. cbn. rewrite Es, El. cbn.
    destruct (bool_decide _); apply map_fold_empty.
  - destruct Hf as [He Hf]. cbn [day_rows foldl].
    pose proof (day_step_inv tf e known T c H (conj He I)) as Hs.
    destruct (day_step tf e c) as [out c']. by apply IH.
Qed.

(** * Instance *)

Definition sample_day : list day_event :=
  [DayTick sample_first; DayTick sample_second; DayTick sample_next; DayTick sample_late;
   DayDrain (ten_am + 120)].

Lemma every_frame_tiles_the_day_witness :
  total (day_rows S1 sample_day ∅ empty_cell) = 150.
Proof.
  rewrite (every_frame_tiles_the_day S1 sample_day); [vm_compute; reflexivity|].
  unfold sample_day, fed, tick_fed, in_u32. numbers.
Defined.
