(* ===== verification/CandleBars.v ===== *)
(** What a bar says of its ticks: its prices are those of the earliest, latest,
    highest and lowest trade whatever order they arrived in, and the bars of a
    frame come out one bucket after another. *)
From stdpp Require Import functions.
From S2P Require Import Prelude Bytes Float FeedTypes PricePrecision Candles AggregatorCell CandleVolume.
Local Open Scope Z_scope.

#[local] Arguments open_bucket : simpl never.
#[local] Arguments settle_into : simpl never.
#[local] Arguments stamp_seal_percentages : simpl never.

(** * A bar is a function of its ticks *)

Definition price_of (i : TickInput) : f64 := tp_last_traded_price (ti_prices i).

(** The signed volume of the ticks, added up in order with saturation; what the
    frame carried, [k], is added after the first. *)
Definition add_net (n : Z) (i : TickInput) : Z :=
  match ti_signed i with Some d => i64_saturating_add n d | None => n end.
Definition with_carried (k : UnattributedCarry) (n : Z) : Z :=
  if decide (k = no_carry) then n else i64_saturating_add n (net k).
Definition net_of (k : UnattributedCarry) (l : list TickInput) : Z :=
  match l with [] => 0 | i :: l => foldl add_net (with_carried k (default 0 (ti_signed i))) l end.
Definition is_signed (i : TickInput) : bool := bool_decide (is_Some (ti_signed i)).

(** What the ticks [l], in order of arrival, make of a bar whose volume is
    counted from [from] and that takes the carry [k]: the extremes, the earliest
    trade's price (the first to arrive within a second) and the latest one's (the
    last to arrive), the volume, and the net volume, classified when that of every
    tick and of the carry is. *)
Record bar_of (l : list TickInput) (from : Z) (k : UnattributedCarry) (st : LiveCandleState) : Prop := {
  b_high : (exists i, i ∈ l /\ lc_high st = price_of i) /\
    forall i, i ∈ l -> f64_leb (price_of i) (lc_high st) = true;
  b_low : (exists i, i ∈ l /\ lc_low st = price_of i) /\
    forall i, i ∈ l -> f64_leb (lc_low st) (price_of i) = true;
  b_open : exists before i after, l = before ++ i :: after /\
    lc_open st = price_of i /\ lc_open_ts st = ti_secs i /\
    Forall (fun j => ti_secs i < ti_secs j) before /\ Forall (fun j => ti_secs i <= ti_secs j) after;
  b_close : exists before i after, l = before ++ i :: after /\
    lc_close st = price_of i /\ lc_close_ts st = ti_secs i /\
    Forall (fun j => ti_secs j <= ti_secs i) before /\ Forall (fun j => ti_secs j < ti_secs i) after;
  b_volume : end_of st = foldr Z.max from (ti_cumulative <$> l);
  b_count : lc_tick_count st = Z.min (Z.of_nat (length l)) u32_max;
  b_net : lc_net st = net_of k l;
  b_classified : lc_classified st = forallb is_signed l && negb (unclassified k) }.

(** While it does not saturate the net volume is a sum. *)
Definition signed_sum (l : list TickInput) : Z := foldr (fun i n => default 0 (ti_signed i) + n) 0 l.
Definition signed_size (l : list TickInput) : Z := foldr (fun i n => Z.abs (default 0 (ti_signed i)) + n) 0 l.

Lemma signed_size_nonneg l : 0 <= signed_size l.
Proof. unfold signed_size. induction l; simpl; lia. Qed.

Lemma foldl_net_exact l : forall n, Z.abs n + signed_size l <= i64_max -> foldl add_net n l = n + signed_sum l.
Proof.
  unfold signed_size, signed_sum. induction l as [|i l IH]; intros n H; simpl in *; [lia|].
  pose proof (signed_size_nonneg l) as Hp. unfold signed_size in Hp.
  assert (E : add_net n i = n + default 0 (ti_signed i)).
  { unfold add_net. destruct (ti_signed i) as [d|]; simpl in *; [|lia]. unfold i64_saturating_add, i64_min, i64_max in *.
    apply clamp_id. lia. }
  rewrite E, IH; lia.
Qed.

Lemma net_of_exact k l : Z.abs (net k) + signed_size l <= i64_max -> l <> [] -> net_of k l = net k + signed_sum l.
Proof.
  destruct l as [|i l]; [done|]. intros H _. unfold signed_size, signed_sum in *. simpl in *.
  pose proof (signed_size_nonneg l) as Hp. unfold signed_size in Hp.
  assert (E : with_carried k (default 0 (ti_signed i)) = net k + default 0 (ti_signed i)).
  { unfold with_carried. destruct (decide (k = no_carry)) as [->|]; [simpl; lia|].
    unfold i64_saturating_add, i64_min, i64_max in *. rewrite clamp_id; lia. }
  rewrite E, foldl_net_exact; unfold signed_size, signed_sum; lia.
Qed.

Definition plain (i : TickInput) : Prop :=
  input_ok i /\ ti_stale i = false /\ delta_is_empty (ti_extremes i) = true /\
  0 <= ti_cumulative i <= u64_max.

Lemma price_not_nan i : plain i -> is_nan (price_of i) = false.
Proof. intros [[H _] _]. by apply positive_not_nan. Qed.

Section bar_of.
Context (tf : TfIndex).

Lemma foldr_max_snoc from l x : foldr Z.max from (l ++ [x]) = Z.max (foldr Z.max from l) x.
Proof. induction l as [|y l IH]; simpl; [lia|]. rewrite IH. lia. Qed.

Lemma fold_in_bucket_fields st i :
  let st' := fold_in_bucket st (ti_tick i) (ti_prices i) (ti_cumulative i) (ti_signed i) (ti_secs i) false in
  let p := price_of i in
  lc_high st' = (if f64_ltb (lc_high st) p then p else lc_high st) /\
  lc_low st' = (if f64_ltb p (lc_low st) then p else lc_low st) /\
  lc_open st' = (if ti_secs i <? lc_open_ts st then p else lc_open st) /\
  lc_open_ts st' = (if ti_secs i <? lc_open_ts st then ti_secs i else lc_open_ts st) /\
  lc_close st' = (if lc_close_ts st <=? ti_secs i then p else lc_close st) /\
  lc_close_ts st' = (if lc_close_ts st <=? ti_secs i then ti_secs i else lc_close_ts st) /\
  lc_tick_count st' = u32_saturating_add (lc_tick_count st) 1 /\
  lc_net st' = add_net (lc_net st) i /\
  lc_classified st' = lc_classified st && is_signed i.
Proof.
  unfold fold_in_bucket, fold_receipt, fold_close, fold_open, price_of, add_net, is_signed. cbn.
  destruct (0 <? _), (ti_secs i <? _); cbn; destruct (lc_close_ts st <=? ti_secs i), (ti_signed i); cbn;
    rewrite ?andb_true_r, ?andb_false_r; done.
Qed.

Lemma net_of_snoc k l i : l <> [] -> net_of k (l ++ [i]) = add_net (net_of k l) i.
Proof. destruct l as [|j l]; [done|]. intros _. cbn [app net_of]. by rewrite foldl_app. Qed.

Lemma bar_of_snoc l from k st i :
  bar_of l from k st -> flow_ok st -> plain i ->
  bar_of (l ++ [i]) from k
    (fold_in_bucket st (ti_tick i) (ti_prices i) (ti_cumulative i) (ti_signed i) (ti_secs i) false).
Proof.
  intros [[(ih & Hih & Eh) Hh] [(il & Hil & El) Hl] (b & io & a & Eo & Oo & Ot & Ob & Oa)
    (b' & ic & a' & Ec & Cc & Ct & Cb & Ca) Hv Hn Hnet Hcl] Hf Hi.
  destruct (fold_in_bucket_fields st i) as (Fh & Fl & Fo & Fot & Fc & Fct & Fn & Fnet & Fcl).
  destruct (fold_in_bucket_flow st (ti_tick i) (ti_prices i) (ti_cumulative i) (ti_signed i) (ti_secs i) false Hf)
    as (_ & _ & Fe); [apply Hi|].
  pose proof (price_not_nan i Hi) as Hnan.
  destruct (proj1 (f64_leb_key _ _) (Hh ih Hih)) as (_ & Nh & _).
  destruct (proj1 (f64_leb_key _ _) (Hl il Hil)) as (Nl & _ & _).
  set (st' := fold_in_bucket _ _ _ _ _ _ _) in *. split.
  - rewrite Fh. destruct (f64_ltb (lc_high st) (price_of i)) eqn:E.
    + split; [exists i; rewrite elem_of_app, list_elem_of_singleton; auto|].
      intros j [Hj|Hj%list_elem_of_singleton]%elem_of_app; [|subst j; by apply f64_leb_refl].
      eapply f64_leb_trans; [by apply Hh|by apply f64_ltb_leb].
    + split; [exists ih; rewrite elem_of_app; auto|].
      intros j [Hj|Hj%list_elem_of_singleton]%elem_of_app; [by apply Hh|subst j].
      by apply f64_leb_total.
  - rewrite Fl. destruct (f64_ltb (price_of i) (lc_low st)) eqn:E.
    + split; [exists i; rewrite elem_of_app, list_elem_of_singleton; auto|].
      intros j [Hj|Hj%list_elem_of_singleton]%elem_of_app; [|subst j; by apply f64_leb_refl].
      eapply f64_leb_trans; [by apply f64_ltb_leb|by apply Hl].
    + split; [exists il; rewrite elem_of_app; auto|].
      intros j [Hj|Hj%list_elem_of_singleton]%elem_of_app; [by apply Hl|subst j].
      by apply f64_leb_total.
  - rewrite Fo, Fot, Ot. destruct (Z.ltb_spec (ti_secs i) (ti_secs io)).
    + exists l, i, []. split; [done|]. split; [done|]. split; [done|]. split; [|by constructor].
      rewrite Eo. apply Forall_app. split; [|constructor; [done|]]; eapply Forall_impl; eauto; simpl; lia.
    + exists b, io, (a ++ [i]). split; [rewrite Eo; by rewrite <- app_assoc|].
      split; [done|]. split; [done|]. split; [done|]. apply Forall_app. split; [done|]. by constructor.
  - rewrite Fc, Fct, Ct. destruct (Z.leb_spec (ti_secs ic) (ti_secs i)).
    + exists l, i, []. split; [done|]. split; [done|]. split; [done|]. split; [|by constructor].
      rewrite Ec. apply Forall_app. split; [|constructor; [done|]]; eapply Forall_impl; eauto; simpl; lia.
    + exists b', ic, (a' ++ [i]). split; [rewrite Ec; by rewrite <- app_assoc|].
      split; [done|]. split; [done|]. split; [done|]. apply Forall_app. split; [done|]. by constructor.
  - rewrite Fe, Hv, fmap_app. simpl. by rewrite foldr_max_snoc.
  - rewrite Fn, Hn, length_app. simpl. zints.
  - rewrite Fnet, Hnet, net_of_snoc; [done|]. rewrite Ec. by destruct b'.
  - rewrite Fcl, Hcl, forallb_app. cbn [forallb]. rewrite andb_true_r.
    by destruct (forallb is_signed l), (unclassified k), (is_signed i).
Qed.
End bar_of.

Definition run_ticks (tf : TfIndex) (l : list TickInput) (c : AggregatorCell) : AggregatorCell :=
  foldl (fun c i => snd (fold tf i c)) c l.

(** The tick opens a bucket: nothing of the frame reaches its bucket yet. *)
Definition opens (tf : TfIndex) (i : TickInput) (c : AggregatorCell) : Prop :=
  lc_bucket_start (last_sealed c tf) < bucket_start tf (ti_secs i) /\
  lc_bucket_start (slots c tf) < bucket_start tf (ti_secs i).

Record counters_ok (tf : TfIndex) (c : AggregatorCell) : Prop := {
  k_slot : flow_ok (slots c tf);
  k_last : flow_ok (last_sealed c tf);
  k_carry : 0 <= carried_upto c tf <= u64_max }.

(** What the bucket it opens takes of the frame's carry: after a seal a tick ago
    the carry went into the bar sealed. *)
Definition carry_into (tf : TfIndex) (c : AggregatorCell) : UnattributedCarry :=
  if is_uninitialised (slots c tf) then fst (take_carry tf c) else no_carry.

Section bar_ticks.
Context (tf : TfIndex).

Lemma bar_of_one i st from :
  plain i -> lc_open st = price_of i -> lc_high st = price_of i -> lc_low st = price_of i ->
  lc_close st = price_of i -> lc_open_ts st = ti_secs i -> lc_close_ts st = ti_secs i ->
  lc_tick_count st = 1 -> end_of st = Z.max from (ti_cumulative i) ->
  lc_net st = default 0 (ti_signed i) -> lc_classified st = is_signed i -> bar_of [i] from no_carry st.
Proof.
  intros Hi Eo Eh El Ec Ot Ct En Ev Enet Ecl. pose proof (price_not_nan i Hi).
  assert (Hs : forall j, j ∈ [i] -> j = i) by (intros j; apply list_elem_of_singleton).
  split; rewrite ?Eo, ?Eh, ?El, ?Ec, ?Ot, ?Ct, ?En.
  - split; [exists i; by rewrite list_elem_of_singleton|]. intros j ->%Hs. by apply f64_leb_refl.
  - split; [exists i; by rewrite list_elem_of_singleton|]. intros j ->%Hs. by apply f64_leb_refl.
  - by exists [], i, [].
  - by exists [], i, [].
  - simpl. lia.
  - done.
  - rewrite Enet. unfold net_of, with_carried. by rewrite decide_True.
  - rewrite Ecl. cbn. by rewrite !andb_true_r.
Qed.

Lemma bar_of_settle i from k st :
  bar_of [i] from no_carry st -> flow_ok st -> 0 <= upto k <= u64_max ->
  bar_of [i] (Z.max from (upto k)) k (settle_into k st).
Proof.
  intros [Bh Bl Bo Bc Bv Bn Bnet Bcl] Hf Hk. destruct (settle_end k st Hf Hk) as (_ & _ & Se).
  assert (E : lc_high (settle_into k st) = lc_high st /\ lc_low (settle_into k st) = lc_low st /\
    lc_open (settle_into k st) = lc_open st /\ lc_open_ts (settle_into k st) = lc_open_ts st /\
    lc_close (settle_into k st) = lc_close st /\ lc_close_ts (settle_into k st) = lc_close_ts st /\
    lc_tick_count (settle_into k st) = lc_tick_count st).
  { unfold settle_into. by destruct (decide _). }
  destruct E as (E1&E2&E3&E4&E5&E6&E7).
  split; rewrite ?E1, ?E2, ?E3, ?E4, ?E5, ?E6, ?E7; try done.
  - rewrite Se, Bv. simpl. lia.
  - unfold settle_into, net_of, with_carried in *. rewrite decide_True in Bnet by done.
    destruct (decide (k = no_carry)); [done|]. cbn in *. by rewrite Bnet.
  - unfold settle_into. destruct (decide (k = no_carry)) as [->|]; [done|]. cbn in *. rewrite Bcl.
    destruct (unclassified k); cbn; by rewrite ?andb_true_r, ?andb_false_r.
Qed.

(** A bucket opened that does not own the day's open. *)
Lemma open_bar i cum0 ctx :
  plain i -> 0 <= cum0 <= u64_max -> use_day_open ctx = false -> first_bucket_of_day ctx = false ->
  let st := open_bucket (ti_tick i) (ti_prices i) (bucket_start tf (ti_secs i)) cum0 ctx
    (ti_cumulative i) (ti_signed i) (ti_secs i) in
  bar_of [i] cum0 no_carry st /\ flow_ok st /\ lc_start_cumulative st = cum0.
Proof.
  intros Hi H0 Hu Hf st. assert (Hc : 0 <= ti_cumulative i <= u64_max) by apply Hi.
  destruct (open_end (ti_tick i) (ti_prices i) (bucket_start tf (ti_secs i)) cum0 ctx (ti_cumulative i)
    (ti_signed i) (ti_secs i) H0 Hc) as (F1 & F2 & F3). fold st in F1, F2, F3.
  split; [|done]. apply bar_of_one; try done; subst st; unfold open_bucket; rewrite Hu, Hf; cbn;
    fold (price_of i); by destruct (f64_ltb (price_of i) (price_of i)).
Qed.

Lemma opened_bar i c :
  plain i -> 0 <= ti_baseline i <= u64_max -> opens tf i c -> counters_ok tf c ->
  is_days_first_session_bucket tf (bucket_start tf (ti_secs i)) = false ->
  let st := slots (snd (fold tf i c)) tf in
  bar_of [i] (Z.max (lc_start_cumulative st) (upto (carry_into tf c))) (carry_into tf c) st /\
  flow_ok st /\ lc_bucket_start st = bucket_start tf (ti_secs i).
Proof.
  intros Hi Hb [Ol Os] [Ks Kl Kc] Hd. pose proof (proj2 (proj2 (proj2 Hi))) as Hcum.
  unfold fold, carry_into. destruct (is_uninitialised (slots c tf)) eqn:Eu.
  - rewrite (proj2 (Z.leb_gt _ _)) by done. rewrite andb_false_r. unfold fold_first. rewrite Hd, !andb_false_r.
    destruct (next_bucket_start_cumulative _ _ _ c) as [ch c1] eqn:En.
    assert (Hch : 0 <= ch <= u64_max /\ fst (take_carry tf c1) = fst (take_carry tf c)).
    { unfold next_bucket_start_cumulative in En. destruct (chain_broken c tf); injection En as <- <-; (split; [|done]); [done|].
      destruct (is_uninitialised (last_sealed c tf)); [exact Hb|]. by apply clamp_range. }
    destruct Hch as [Hch Hcarry].
    change (take_carry tf c1) with (fst (take_carry tf c1), snd (take_carry tf c1)).
    cbn [fst snd set_slot slots]. rewrite fn_lookup_insert, Hcarry.
    destruct (open_bar i ch (mkOpenContext false false (bucket_sign_baseline (last_sealed c tf) tf
      (bucket_start tf (ti_secs i)) (tp_day_close (ti_prices i)))) Hi Hch eq_refl eq_refl) as (Hbar & Hf & Hs).
    set (st := open_bucket _ _ _ _ _ _ _ _) in *.
    assert (Hbs : lc_bucket_start st = bucket_start tf (ti_secs i)) by apply open_bucket_at.
    destruct (settle_end (fst (take_carry tf c)) st Hf Kc) as (Sf & Ss & _).
    rewrite Ss, Hs, settle_start, Hbs. split; [|done].
    by apply (bar_of_settle i ch (fst (take_carry tf c))).
  - apply is_init in Eu. rewrite (proj2 (Z.eqb_neq _ _)) by lia. rewrite (proj2 (Z.ltb_lt _ _)) by done.
    unfold fold_roll. change (is_days_first_session_bucket tf (bucket_start tf (ti_secs i)))
      with (bucket_start tf (ti_secs i) =? u32_saturating_add (day_start (bucket_start tf (ti_secs i)))
        (first_session_bucket_offset tf)) in Hd. rewrite Hd, andb_false_r.
    set (c1 := if false || _ then _ else c).
    assert (F : slots c1 = slots c) by (subst c1; by destruct (_ <? _)).
    change (take_carry tf c1) with (fst (take_carry tf c1), snd (take_carry tf c1)). cbn iota beta.
    set (ch := if chain_broken _ tf then _ else _).
    assert (Hch : 0 <= ch <= u64_max).
    { subst ch. destruct (chain_broken _ tf); [done|by apply clamp_range]. }
    cbn [snd set_slot set_last_sealed set_chain_broken slots]. rewrite fn_lookup_insert.
    destruct (open_bar i ch (mkOpenContext false false (bucket_sign_baseline (slots c1 tf) tf
      (bucket_start tf (ti_secs i)) (tp_day_close (ti_prices i)))) Hi Hch eq_refl eq_refl) as (Hbar & Hf & Hs).
    change (upto no_carry) with 0. rewrite Hs, Z.max_l by lia. split; [done|]. split; [done|]. apply open_bucket_at.
Qed.

Lemma next_tick_of_bar l from k i c :
  bar_of l from k (slots c tf) -> flow_ok (slots c tf) -> plain i -> init (slots c tf) ->
  bucket_start tf (ti_secs i) = lc_bucket_start (slots c tf) ->
  is_days_first_session_bucket tf (lc_bucket_start (slots c tf)) = false ->
  let st := slots (snd (fold tf i c)) tf in
  bar_of (l ++ [i]) from k st /\ flow_ok st /\ lc_bucket_start st = lc_bucket_start (slots c tf) /\
  lc_start_cumulative st = lc_start_cumulative (slots c tf).
Proof.
  intros Hb Hf Hi Hinit Hs Hd. unfold fold. rewrite (proj2 (is_init _) Hinit), Hs, Z.eqb_refl.
  unfold fold_same. destruct Hi as (Hi1 & Hst & Hx & Hcum). rewrite Hd, Hst, Hx, !andb_false_r.
  cbn [negb andb snd set_slot slots]. rewrite fn_lookup_insert.
  destruct (fold_in_bucket_flow (slots c tf) (ti_tick i) (ti_prices i) (ti_cumulative i) (ti_signed i)
    (ti_secs i) false Hf Hcum) as (Ff & Fs & _).
  rewrite fold_in_bucket_start. split; [|done]. by apply bar_of_snoc.
Qed.
End bar_ticks.

Lemma run_ticks_bar tf i l c :
  plain i -> Forall plain l -> 0 <= ti_baseline i <= u64_max ->
  opens tf i c -> counters_ok tf c ->
  Forall (fun j => bucket_start tf (ti_secs j) = bucket_start tf (ti_secs i)) l ->
  is_days_first_session_bucket tf (bucket_start tf (ti_secs i)) = false ->
  let st := slots (run_ticks tf (i :: l) c) tf in
  lc_bucket_start st = bucket_start tf (ti_secs i) /\
  bar_of (i :: l) (Z.max (lc_start_cumulative st) (upto (carry_into tf c))) (carry_into tf c) st.
Proof.
  intros Hi Hl Hb Ho Hk Hs Hd. destruct (opened_bar tf i c Hi Hb Ho Hk Hd) as (B & F & S).
  unfold run_ticks. simpl. change (i :: l) with ([i] ++ l).
  assert (Hin : bucket_start tf (ti_secs i) <> 0) by (apply bucket_init, Hi).
  revert B F S. generalize (snd (fold tf i c)) as c1. generalize [i] as done.
  revert Hl Hs. induction l as [|j l IH]; intros Hl Hs done c1 B F S; simpl.
  { by rewrite app_nil_r. }
  apply Forall_cons in Hl as [Hj Hl]. apply Forall_cons in Hs as [Hsj Hs].
  destruct (next_tick_of_bar tf done (Z.max (lc_start_cumulative (slots c1 tf)) (upto (carry_into tf c))) (carry_into tf c) j c1)
    as (B' & F' & S' & C'); try done; [unfold init; by rewrite S|by rewrite S|by rewrite S|].
  rewrite <- C' in B'. replace (done ++ j :: l) with ((done ++ [j]) ++ l) by by rewrite <- app_assoc.
  apply IH; try done. by rewrite S', S.
Qed.

(** C38: A bar of any bucket but the day's first, folded from fresh ticks with
    plausible prices and no session-extreme delta, the first of which opens it, is
    their reference aggregate: open and close are the prices of its earliest and
    latest trades, high and low their extremes, the end of its volume the largest
    counter of theirs, of the frame's carry and of its own start, its tick count
    their number up to 2^32 - 1, its net volume the signed parts added up in order
    with saturation, the carry's after the first, which is their sum while the
    sizes fit 63 bits, and it is classified when every tick and the carry are. *)
Theorem bar_is_its_ticks tf i l c :
  plain i -> Forall plain l -> 0 <= ti_baseline i <= u64_max ->
  opens tf i c -> counters_ok tf c ->
  Forall (fun j => bucket_start tf (ti_secs j) = bucket_start tf (ti_secs i)) l ->
  is_days_first_session_bucket tf (bucket_start tf (ti_secs i)) = false ->
  let st := slots (run_ticks tf (i :: l) c) tf in
  lc_bucket_start st = bucket_start tf (ti_secs i) /\
  bar_of (i :: l) (Z.max (lc_start_cumulative st) (upto (carry_into tf c))) (carry_into tf c) st /\
  (Z.abs (net (carry_into tf c)) + signed_size (i :: l) <= i64_max ->
   lc_net st = net (carry_into tf c) + signed_sum (i :: l)).
Proof.
  intros Hi Hl Hb Ho Hk Hs Hd st. destruct (run_ticks_bar tf i l c Hi Hl Hb Ho Hk Hs Hd) as [H1 H2].
  split; [exact H1|]. split; [exact H2|]. intros Hx. etransitivity; [exact (b_net _ _ _ _ H2)|]. by apply net_of_exact.
Qed.

Lemma NoDup_fmap_eq {A B} (f : A -> B) l x y : NoDup (f <$> l) -> x ∈ l -> y ∈ l -> f x = f y -> x = y.
Proof.
  intros Hn [a Ha]%list_elem_of_lookup [b Hb]%list_elem_of_lookup Hf.
  assert (a = b) as ->; [|congruence].
  apply (NoDup_lookup _ _ _ (f x) Hn); rewrite list_lookup_fmap, ?Ha, ?Hb; simpl; congruence.
Qed.

Lemma min_of_split {A} (f : A -> Z) before i after :
  Forall (fun j => f i < f j) before -> Forall (fun j => f i <= f j) after ->
  forall j, j ∈ before ++ i :: after -> f i <= f j.
Proof.
  rewrite !Forall_forall. intros Hb Ha j [Hj|[->|Hj]%elem_of_cons]%elem_of_app; [|done|by apply Ha].
  specialize (Hb j Hj). lia.
Qed.

Lemma bar_of_perm l1 l2 f1 f2 k1 k2 st1 st2 :
  bar_of l1 f1 k1 st1 -> bar_of l2 f2 k2 st2 -> l1 ≡ₚ l2 -> NoDup (ti_secs <$> l1) -> Forall plain l1 ->
  lc_open st1 = lc_open st2 /\ lc_high st1 = lc_high st2 /\ lc_low st1 = lc_low st2 /\
  lc_close st1 = lc_close st2 /\ lc_open_ts st1 = lc_open_ts st2 /\ lc_close_ts st1 = lc_close_ts st2 /\
  lc_tick_count st1 = lc_tick_count st2.
Proof.
  intros [[(ih&Hih&Eh) Hh] [(il&Hil&El) Hl] (b&io&a&Eo&Oo&Ot&Ob&Oa) (c&ic&d&Ec&Cc&Ct&Cb&Cd) _ Hn _ _]
    [[(ih'&Hih'&Eh') Hh'] [(il'&Hil'&El') Hl'] (b'&io'&a'&Eo'&Oo'&Ot'&Ob'&Oa')
     (c'&ic'&d'&Ec'&Cc'&Ct'&Cb'&Cd') _ Hn' _ _] Hp Hnd Hpl.
  assert (Hin : forall j, j ∈ l1 <-> j ∈ l2) by (intros j; by rewrite Hp).
  assert (Hpos : forall j, j ∈ l1 -> f64_ltb f64_zero (price_of j) = true).
  { intros j Hj. rewrite Forall_forall in Hpl. apply (Hpl j Hj). }
  assert (Hio : io = io').
  { assert (io ∈ l1) by (rewrite Eo, elem_of_app, elem_of_cons; auto).
    assert (io' ∈ l1) by (rewrite Hin, Eo', elem_of_app, elem_of_cons; auto).
    apply (NoDup_fmap_eq ti_secs l1); try done. apply Z.le_antisymm.
    - rewrite Eo in *. by apply (min_of_split ti_secs b io a).
    - apply (min_of_split ti_secs b' io' a'); try done. rewrite <- Eo', <- Hin. done. }
  assert (Hic : ic = ic').
  { assert (ic ∈ l1) by (rewrite Ec, elem_of_app, elem_of_cons; auto).
    assert (ic' ∈ l1) by (rewrite Hin, Ec', elem_of_app, elem_of_cons; auto).
    assert (Hmax : forall (x : TickInput) u v l, l = u ++ x :: v ->
      Forall (fun j => ti_secs j <= ti_secs x) u -> Forall (fun j => ti_secs j < ti_secs x) v ->
      forall j, j ∈ l -> ti_secs j <= ti_secs x).
    { intros x u v l -> Hu Hv j. rewrite Forall_forall in Hu, Hv.
      intros [Hj|[->|Hj]%elem_of_cons]%elem_of_app; [by apply Hu|done|]. specialize (Hv j Hj). lia. }
    apply (NoDup_fmap_eq ti_secs l1); try done. apply Z.le_antisymm.
    - apply (Hmax ic' c' d' l2); try done. by apply Hin.
    - by apply (Hmax ic c d l1). }
  subst io' ic'. split_and!; try congruence.
  - rewrite Eh, Eh'. apply positive_antisym; [by apply Hpos| |].
    + rewrite <- Eh'. apply Hh'. by apply Hin.
    + rewrite <- Eh. apply Hh. by apply Hin.
  - rewrite El, El'. apply positive_antisym; [by apply Hpos| |].
    + rewrite <- El. apply Hl. by apply Hin.
    + rewrite <- El'. apply Hl'. by apply Hin.
  - rewrite Hn, Hn'. by rewrite Hp.
Qed.

(** Ticks of one bucket with distinct trade seconds give the same open, high,
    low, close and tick count in whatever order they arrive. *)
Theorem bar_order_irrelevant tf i l i' l' c :
  i :: l ≡ₚ i' :: l' -> NoDup (ti_secs <$> i :: l) ->
  Forall (fun j => plain j /\ 0 <= ti_baseline j <= u64_max /\
    bucket_start tf (ti_secs j) = bucket_start tf (ti_secs i)) (i :: l) ->
  opens tf i c -> counters_ok tf c ->
  is_days_first_session_bucket tf (bucket_start tf (ti_secs i)) = false ->
  let st := slots (run_ticks tf (i :: l) c) tf in
  let st' := slots (run_ticks tf (i' :: l') c) tf in
  lc_open st = lc_open st' /\ lc_high st = lc_high st' /\ lc_low st = lc_low st' /\
  lc_close st = lc_close st' /\ lc_open_ts st = lc_open_ts st' /\ lc_close_ts st = lc_close_ts st' /\
  lc_tick_count st = lc_tick_count st'.
Proof.
  intros Hp Hn Ha Ho Hk Hd. assert (Ha' := Ha). rewrite Hp in Ha'.
  apply Forall_cons in Ha as [(Pi & Bi & _) Ha], Ha' as [(Pi' & Bi' & Si') Ha'].
  destruct (run_ticks_bar tf i l c Pi) as [_ B]; try done;
    try (eapply Forall_impl; [exact Ha|]; simpl; tauto).
  destruct (run_ticks_bar tf i' l' c Pi') as [_ B']; try done;
    try (eapply Forall_impl; [exact Ha'|]; simpl; intros ? (?&?&?); congruence || done).
  - unfold opens. by rewrite Si'.
  - by rewrite Si'.
  - eapply bar_of_perm; [exact B|exact B'|done|done|].
    constructor; [done|]. eapply Forall_impl; [exact Ha|]. simpl. tauto.
Qed.

(** * The order of the bars *)

(** What a frame hands on over a run, sealed bars marked. *)
Fixpoint day_outs (tf : TfIndex) (evs : list day_event) (c : AggregatorCell)
    : list (bool * LiveCandleState) :=
  match evs with
  | [] => []
  | DayTick i :: evs =>
      match fold tf i c with
      | (Sealed st, c) => (true, st) :: day_outs tf evs c
      | (AmendedLate st, c) => (false, st) :: day_outs tf evs c
      | (_, c) => day_outs tf evs c
      end
  | DayDrain cutoff :: evs =>
      match catch_up_seal tf cutoff c with
      | (Some st, c) => (true, st) :: day_outs tf evs c
      | (None, c) => day_outs tf evs c
      end
  end.

Fixpoint in_order (prev : option Z) (l : list (bool * LiveCandleState)) : Prop :=
  match l with
  | [] => True
  | (sealed, st) :: l =>
      match prev, sealed with
      | None, sealed => sealed = true
      | Some p, true => p < lc_bucket_start st
      | Some p, false => lc_bucket_start st = p
      end /\ in_order (Some (lc_bucket_start st)) l
  end.

Definition sealed_upto (tf : TfIndex) (c : AggregatorCell) : option Z :=
  if is_uninitialised (last_sealed c tf) then None else Some (lc_bucket_start (last_sealed c tf)).

Definition sequenced (tf : TfIndex) (c : AggregatorCell) : Prop :=
  init (slots c tf) -> init (last_sealed c tf) ->
  lc_bucket_start (last_sealed c tf) < lc_bucket_start (slots c tf).

Section order.
Context (tf : TfIndex).

Lemma sealed_upto_put c st : init st -> sealed_upto tf (set_last_sealed c tf st) = Some (lc_bucket_start st).
Proof. intros H. unfold sealed_upto. cbn. rewrite fn_lookup_insert. by rewrite (proj2 (is_init _) H). Qed.

(** One event's emission continues the order, and the frame stays in sequence. *)
Lemma seal_in_order c c' st :
  sequenced tf c -> init (slots c tf) -> lc_bucket_start st = lc_bucket_start (slots c tf) ->
  last_sealed c' tf = st -> (init (slots c' tf) -> lc_bucket_start st < lc_bucket_start (slots c' tf)) ->
  match sealed_upto tf c with None => True | Some p => p < lc_bucket_start st end /\
  sealed_upto tf c' = Some (lc_bucket_start st) /\ sequenced tf c'.
Proof.
  intros Hq Hi Hs Hc' Hn. assert (Hist : init st) by (unfold init; by rewrite Hs). split.
  - unfold sealed_upto. destruct (is_uninitialised _) eqn:E; [done|]. rewrite Hs. apply Hq; [done|]. by apply is_init.
  - unfold sealed_upto. rewrite Hc', (proj2 (is_init _) Hist). split; [done|].
    intros Hi' _. rewrite Hc'. by apply Hn.
Qed.

Lemma late_in_order i c :
  sequenced tf c ->
  let '(out, c') := fold_late tf i c in
  match out with
  | AmendedLate st => sealed_upto tf c = Some (lc_bucket_start st)
  | Sealed _ => False
  | _ => True
  end /\ sealed_upto tf c' = sealed_upto tf c /\ sequenced tf c'.
Proof.
  intros Hq. unfold fold_late. set (c1 := carry_unattributed _ _ _ _ _).
  destruct (carry_frame tf tf (ti_baseline i) (ti_cumulative i) (ti_signed i) c) as [Es El].
  fold c1 in Es, El. assert (Hu : sealed_upto tf c1 = sealed_upto tf c) by (unfold sealed_upto; by rewrite El).
  assert (Hq1 : sequenced tf c1) by (unfold sequenced; by rewrite Es, El).
  destruct (_ && _ && _) eqn:E; [|done].
  apply andb_prop in E as [[_ Hi]%andb_prop _]. apply negb_true_iff in Hi.
  destruct (fold_late_hlc_flow (last_sealed c tf) (ti_prices i) (ti_secs i)
    (received_at_nanos (ti_tick i)) (ti_stale i)) as (Ab & _). set (a := stamp_seal_percentages _) in *.
  assert (Ha : init a) by (unfold init; rewrite Ab; by apply is_init).
  rewrite sealed_upto_put by done. unfold sealed_upto. rewrite Hi, Ab.
  split; [done|]. split; [done|]. intros Hs' _. cbn in *. rewrite fn_lookup_insert, Ab, Es in *.
  apply Hq; [done|]. by apply is_init.
Qed.

Lemma event_in_order e evs c prev :
  sequenced tf c -> prev = sealed_upto tf c ->
  match e with DayTick i => in_u32 (ti_secs i) | DayDrain _ => True end ->
  (forall c', sequenced tf c' -> in_order (sealed_upto tf c') (day_outs tf evs c')) ->
  in_order prev (day_outs tf (e :: evs) c).
Proof.
  intros Hq -> He IH. destruct e as [i|cutoff]; cbn [day_outs].
  - unfold fold. destruct (is_uninitialised (slots c tf)) eqn:Eu.
    + destruct (negb _ && _) eqn:El.
      * pose proof (late_in_order i c Hq) as H. destruct (fold_late tf i c) as [out c'], H as (Ho & Hu & Hq').
        specialize (IH c' Hq'). destruct out; cbn; rewrite ?Hu in *; try done.
        rewrite Ho in *. done.
      * pose proof (fold_first_out tf i c) as Ho. unfold fold_first in *.
        destruct (next_bucket_start_cumulative _ _ _ _) as [ch c2] eqn:En. cbn.
        assert (H2 : last_sealed c2 tf = last_sealed c tf).
        { unfold next_bucket_start_cumulative in En.
          set (c1 := if _ && _ && _ then _ else c) in *.
          assert (last_sealed c1 tf = last_sealed c tf) as <- by (subst c1; by destruct (_ && _ && _)).
          destruct (chain_broken c1 tf); by injection En as <- <-. }
        rewrite <- H2 in El. set (c3 := set_slot _ _ _).
        assert (E3 : sealed_upto tf c3 = sealed_upto tf c) by (unfold sealed_upto; cbn; by rewrite H2).
        rewrite <- E3. apply IH. intros _ Hl. cbn in *. rewrite fn_lookup_insert, settle_start, open_bucket_at.
        rewrite (proj2 (is_init _) Hl) in El. by apply Z.leb_gt in El.
    + apply is_init in Eu. destruct (Z.eqb_spec (bucket_start tf (ti_secs i)) (lc_bucket_start (slots c tf))).
      * unfold fold_same. set (c1 := if _ && _ && _ then _ else c). set (st := if is_days_first_session_bucket _ _ then _ else _).
        assert (Hst : lc_bucket_start st = lc_bucket_start (slots c tf)).
        { subst st. destruct (is_days_first_session_bucket _ _); [|destruct (negb _ && _)]; cbn;
            rewrite fold_in_bucket_start; by destruct (_ && _ && _). }
        assert (E3 : sealed_upto tf (set_slot c1 tf st) = sealed_upto tf c).
        { subst c1. unfold sealed_upto. by destruct (_ && _ && _). }
        rewrite <- E3. apply IH. intros _ Hl. cbn. rewrite fn_lookup_insert, Hst.
        assert (El : last_sealed c1 tf = last_sealed c tf) by (subst c1; by destruct (_ && _ && _)).
        cbn in *. rewrite El in *. by apply Hq.
      * destruct (Z.ltb_spec (lc_bucket_start (slots c tf)) (bucket_start tf (ti_secs i))) as [Hlt|Hge].
        -- unfold fold_roll. set (c1 := if _ || _ then _ else c).
           assert (F : slots c1 tf = slots c tf) by (subst c1; by destruct (_ || _)).
           change (take_carry tf c1) with (fst (take_carry tf c1), snd (take_carry tf c1)). cbn iota beta.
           set (st := stamp_seal_percentages _). set (c' := set_last_sealed _ _ _).
           destruct (seal_in_order c c' st) as (H1 & H2 & H3); try done.
           { subst st. rewrite sealed_start. cbn. by rewrite F. }
           { cbn. by rewrite fn_lookup_insert. }
           { intros _. cbn. rewrite fn_lookup_insert, open_bucket_at. subst st. rewrite sealed_start. cbn. by rewrite F. }
           cbn. rewrite <- H2. split; [by destruct (sealed_upto tf c)|by apply IH].
        -- pose proof (late_in_order i c Hq) as H. destruct (fold_late tf i c) as [out c'], H as (Ho & Hu & Hq').
           specialize (IH c' Hq'). destruct out; cbn; rewrite ?Hu in *; try done.
           rewrite Ho in *. done.
  - destruct (catch_up_seal tf cutoff c) as [out c'] eqn:E. unfold catch_up_seal in E.
    destruct (is_uninitialised _) eqn:Ei; [injection E as <- <-; by apply IH|].
    destruct (_ <? _); injection E as <- <-; [by apply IH|]. apply is_init in Ei.
    set (st := stamp_seal_percentages _). set (c' := set_last_sealed _ _ _).
    destruct (seal_in_order c c' st) as (H1 & H2 & H3); try done.
    { apply sealed_start. }
    { cbn. by rewrite fn_lookup_insert. }
    { cbn. rewrite fn_lookup_insert. by intros ?%empty_not_init. }
    cbn. rewrite <- H2. split; [by destruct (sealed_upto tf c)|by apply IH].
Qed.
End order.

(** For each timeframe, sealed bars leave the cell in strictly increasing
    bucket order whatever the order of the ticks; an amended bar is the one sealed
    last. *)
Theorem bars_come_in_order tf evs :
  Forall (fun e => match e with DayTick i => in_u32 (ti_secs i) | DayDrain _ => True end) evs ->
  in_order None (day_outs tf evs empty_cell).
Proof.
  intros He. change None with (sealed_upto tf empty_cell).
  assert (Hq : sequenced tf empty_cell) by by intros ?%empty_not_init.
  revert Hq. generalize empty_cell as c. induction evs as [|e evs IH]; intros c Hq; [done|].
  apply Forall_cons in He as [He Hes]. apply (event_in_order tf e evs c); try done. by apply IH.
Qed.

(** * Instances *)

Lemma sample_counters : counters_ok M1 empty_cell.
Proof. split; unfold flow_ok; numbers. Qed.


Lemma bar_is_its_ticks_witness :
  let st := slots (run_ticks M1 [sample_first; sample_second] empty_cell) M1 in
  lc_bucket_start st = bucket_start M1 (ti_secs sample_first) /\
  bar_of [sample_first; sample_second] (Z.max (lc_start_cumulative st) (upto (carry_into M1 empty_cell))) (carry_into M1 empty_cell) st /\
  (Z.abs (net (carry_into M1 empty_cell)) + signed_size [sample_first; sample_second] <= i64_max ->
   lc_net st = net (carry_into M1 empty_cell) + signed_sum [sample_first; sample_second]).
Proof.
  apply (bar_is_its_ticks M1 sample_first [sample_second] empty_cell);
    [..|exact sample_counters| |]; unfold plain, input_ok, in_u32, opens; numbers.
Defined.

Lemma bar_order_irrelevant_witness :
  let st := slots (run_ticks M1 [sample_first; sample_second] empty_cell) M1 in
  let st' := slots (run_ticks M1 [sample_second; sample_first] empty_cell) M1 in
  lc_open st = lc_open st' /\ lc_high st = lc_high st' /\ lc_low st = lc_low st' /\
  lc_close st = lc_close st' /\ lc_open_ts st = lc_open_ts st' /\ lc_close_ts st = lc_close_ts st' /\
  lc_tick_count st = lc_tick_count st'.
Proof.
  apply (bar_order_irrelevant M1 sample_first [sample_second] sample_second [sample_first] empty_cell).
  - apply Permutation_swap.
  - apply (bool_decide_unpack _). vm_compute. exact I.
  - unfold plain, input_ok, in_u32. numbers.
  - unfold opens. numbers.
  - exact sample_counters.
  - vm_compute. reflexivity.
Defined.

Lemma bars_come_in_order_witness : in_order None (day_outs M1 sample_day empty_cell).
Proof. apply (bars_come_in_order M1 sample_day). unfold sample_day, in_u32. numbers. Defined.
