(* ===== verification/SealRing.v ===== *)
(** The bounded ring of sealed bars between the fold and the writer
    ([trading/src/candles/seal_ring.rs]): a queue of fixed capacity that never
    refuses a bar and hands back the oldest one it displaces. *)
From S2P Require Import Prelude Bytes Float FeedTypes PricePrecision Candles.
Local Open Scope Z_scope.

(** [Feed] of [common/src/feed.rs]. *)
Inductive Feed : Type := Dhan | Truedata.

#[global] Instance Feed_eq_dec : EqDecision Feed.
Proof. solve_decision. Defined.
#[global] Instance Feed_countable : Countable Feed.
Proof.
  apply (inj_countable' (fun f => match f with Dhan => true | Truedata => false end)
                        (fun b : bool => if b then Dhan else Truedata)).
  by intros [].
Defined.

Definition feed_index (f : Feed) : Z := match f with Dhan => 0 | Truedata => 1 end.
Definition feed_as_str (f : Feed) : string :=
  match f with Dhan => "dhan" | Truedata => "truedata" end.
Definition feed_parse (name : string) : option Feed :=
  snd <$> list_find (fun f => feed_as_str f = name) [Dhan; Truedata].

Record BufferedSeal : Type := mkSeal {
  bs_security_id : Z;
  bs_exchange_segment_code : Z;
  bs_tf : TfIndex;
  bs_state : LiveCandleState;
  bs_feed : Feed }.

Inductive BufferOutcome : Type :=
  | Buffered
  | DroppedOldest (oldest : BufferedSeal).

(** [VecDeque] and the fixed capacity, at least one. *)
Record SealRing : Type := mkRing { inner : list BufferedSeal; capacity : Z }.

Definition ring_with_capacity (capacity : Z) : SealRing := mkRing [] (Z.max capacity 1).
Definition ring_len (r : SealRing) : Z := Z.of_nat (length (inner r)).
Definition ring_is_full (r : SealRing) : bool := capacity r <=? ring_len r.

Definition try_buffer (seal : BufferedSeal) (r : SealRing) : BufferOutcome * SealRing :=
  if capacity r <=? ring_len r then
    match inner r with
    | oldest :: rest => (DroppedOldest oldest, mkRing (rest ++ [seal]) (capacity r))
    | [] => (DroppedOldest seal, r)
    end
  else (Buffered, mkRing (inner r ++ [seal]) (capacity r)).

Definition pop_oldest (r : SealRing) : option BufferedSeal * SealRing :=
  match inner r with
  | oldest :: rest => (Some oldest, mkRing rest (capacity r))
  | [] => (None, r)
  end.

(** The sink sees the whole queue, oldest first. *)
Definition drain_all (r : SealRing) : list BufferedSeal * SealRing :=
  (inner r, mkRing [] (capacity r)).

(** * Nothing is lost silently *)

Inductive ring_op : Type := Push (seal : BufferedSeal) | Pop | Drain.

(** What an operation takes in and what it hands out. *)
Definition ring_in (o : ring_op) : list BufferedSeal :=
  match o with Push s => [s] | _ => [] end.
Definition ring_step (o : ring_op) (r : SealRing) : list BufferedSeal * SealRing :=
  match o with
  | Push s => let '(out, r) := try_buffer s r in
              (match out with DroppedOldest e => [e] | Buffered => [] end, r)
  | Pop => let '(out, r) := pop_oldest r in (option_list out, r)
  | Drain => drain_all r
  end.
Fixpoint ring_run (ops : list ring_op) (r : SealRing) : list BufferedSeal * SealRing :=
  match ops with
  | [] => ([], r)
  | o :: ops => let '(out, r) := ring_step o r in
                let '(outs, r) := ring_run ops r in (out ++ outs, r)
  end.

Lemma ring_step_fifo o r : 1 <= capacity r -> ring_len r <= capacity r ->
  let '(out, r') := ring_step o r in
  inner r ++ ring_in o = out ++ inner r' /\ capacity r' = capacity r /\ ring_len r' <= capacity r'.
Proof.
  intros Hc Hl. destruct r as [q n], o; unfold ring_step, try_buffer, pop_oldest, drain_all, ring_len in *; cbn in *.
  - destruct (Z.leb_spec n (Z.of_nat (length q))); cbn; [|rewrite length_app; cbn; repeat split; lia].
    destruct q; cbn in *; [lia|]. rewrite length_app. cbn. repeat split; lia.
  - destruct q; cbn in *; repeat split; rewrite ?app_nil_r; lia || done.
  - rewrite !app_nil_r. repeat split; lia.
Qed.

(** Over any pushes, pops and drains the ring never holds more than its
    capacity, and the seals that left it, popped, drained or displaced, followed
    by those it holds are exactly the seals pushed, in order. *)
Theorem ring_is_bounded_fifo cap ops :
  let '(out, r) := ring_run ops (ring_with_capacity cap) in
  (ops ≫= ring_in) = out ++ inner r /\ ring_len r <= capacity r /\ capacity r = Z.max cap 1.
Proof.
  assert (H : ring_len (ring_with_capacity cap) <= capacity (ring_with_capacity cap)).
  { unfold ring_len. simpl. lia. }
  assert (Hc : 1 <= capacity (ring_with_capacity cap)) by (simpl; lia).
  change (Z.max cap 1) with (capacity (ring_with_capacity cap)).
  change (ops ≫= ring_in) with (inner (ring_with_capacity cap) ++ (ops ≫= ring_in)).
  revert H Hc. generalize (ring_with_capacity cap) as r. induction ops as [|o ops IH]; intros r H Hc.
  - simpl. by rewrite app_nil_r.
  - simpl. pose proof (ring_step_fifo o r Hc H) as Hs. destruct (ring_step o r) as [out r1], Hs as (E & Ec & Hl).
    specialize (IH r1 Hl ltac:(lia)). destruct (ring_run ops r1) as [outs r2], IH as (E2 & Hl2 & Hc2).
    rewrite app_assoc, E, <- (app_assoc out), <- (app_assoc out). split; [by f_equal|]. split; [done|lia].
Qed.
