(* ===== verification/SpotBarStore.v ===== *)
(** The store of sealed bars in memory ([trading/src/in_mem/spot_bar_store.rs]):
    per instrument and timeframe a ring of bars sorted by bucket start, bounded to
    a number of trading days, written bar by bar or a day at a time and read
    newest first.  The locks serialise the operations, each of which is run
    alone here; the process-wide instance, metrics and logs are left out.
    [VecDeque::binary_search_by] is the search of a sorted sequence; that the
    rings are sorted is proved. *)
From stdpp Require Import sorting.
From S2P Require Import Prelude Bytes Float Candles SealRing.
Local Open Scope Z_scope.

(** * Sizes *)

Definition MARKET_CLOSE_IST_NANOS : Z := 56400000000000.
Definition CANDLE_SESSION_OPEN_IST_NANOS : Z := 32400 * 1000000000.
Definition SESSION_SECS : Z := (MARKET_CLOSE_IST_NANOS - CANDLE_SESSION_OPEN_IST_NANOS) / 1000000000.
Definition MAX_SPOT_BAR_SLOTS : Z := 25000.
Definition RAM_BAR_BYTES : Z := 48.

Record RamBar : Type := mkRamBar {
  bucket_start_ist_secs : Z;
  rb_open : f64;
  rb_high : f64;
  rb_low : f64;
  rb_close : f64;
  rb_volume : Z }.

(** [div_ceil], floored at one. *)
Definition bars_per_day (tf : TfIndex) : Z :=
  let secs := seconds_per_bucket tf in
  let bars := (SESSION_SECS + secs - 1) / secs in
  if bars =? 0 then 1 else bars.

Definition total_bars_per_day_all_tfs : Z :=
  foldl (fun total tf => if is_second_scale tf then total else total + bars_per_day tf) 0 ALL.

Definition estimated_capacity_bytes (spot_days slot_count : Z) : Z :=
  total_bars_per_day_all_tfs * spot_days * slot_count * RAM_BAR_BYTES.

(** * A ring *)

Inductive UpsertOutcome : Type :=
  | Appended | Replaced | InsertedMiddle | DroppedOverWindow | SlotCapacityExhausted.

Record BlockOutcome : Type := mkBlockOutcome { recorded : Z; dropped_over_window : Z }.

Record TfRing : Type := mkTfRing { bars : list RamBar; ring_cap : nat }.

Definition new_ring (capacity : nat) : TfRing := mkTfRing [] capacity.

(** The index of the bar of a bucket ([inr]), or where it would go ([inl]). *)
Fixpoint search (ts : Z) (l : list RamBar) : nat + nat :=
  match l with
  | [] => inl 0%nat
  | b :: l =>
      if bucket_start_ist_secs b =? ts then inr 0%nat
      else if ts <? bucket_start_ist_secs b then inl 0%nat
      else match search ts l with inl i => inl (S i) | inr i => inr (S i) end
  end.

(** [insert] at an index. *)
Definition insert_at (i : nat) (b : RamBar) (l : list RamBar) : list RamBar := take i l ++ b :: drop i l.

Definition upsert (bar : RamBar) (r : TfRing) : UpsertOutcome * TfRing :=
  let full := bool_decide (length (bars r) = ring_cap r) in
  let keep := if full then tail (bars r) else bars r in
  match search (bucket_start_ist_secs bar) (bars r) with
  | inr idx => (Replaced, mkTfRing (<[idx := bar]> (bars r)) (ring_cap r))
  | inl idx =>
      if decide (idx = length (bars r)) then (Appended, mkTfRing (keep ++ [bar]) (ring_cap r))
      else match idx with
           | O => if full then (DroppedOverWindow, r)
                  else (InsertedMiddle, mkTfRing (bar :: bars r) (ring_cap r))
           | S idx' => (InsertedMiddle, mkTfRing (insert_at (if full then idx' else S idx') bar keep) (ring_cap r))
           end
  end.

(** The prepending of a day, newest bar first, until the ring is full. *)
Fixpoint prepend (cap : nat) (newest_first : list RamBar) (recorded : Z) (l : list RamBar) : Z * list RamBar :=
  match newest_first with
  | [] => (recorded, l)
  | b :: rest => if decide (length l = cap) then (recorded, l) else prepend cap rest (recorded + 1) (b :: l)
  end.

Fixpoint upsert_all (block : list RamBar) (out : BlockOutcome) (r : TfRing) : BlockOutcome * TfRing :=
  match block with
  | [] => (out, r)
  | bar :: block =>
      let '(o, r) := upsert bar r in
      upsert_all block
        (match o with
         | DroppedOverWindow => mkBlockOutcome (recorded out) (dropped_over_window out + 1)
         | _ => mkBlockOutcome (recorded out + 1) (dropped_over_window out)
         end) r
  end.

Definition all_older_than_front (l block : list RamBar) : bool :=
  match head l, last block with
  | Some front, Some last => bucket_start_ist_secs last <? bucket_start_ist_secs front
  | _, _ => false
  end.

Definition record_block (block : list RamBar) (r : TfRing) : BlockOutcome * TfRing :=
  let len := Z.of_nat (length block) in
  if decide (block = []) then (mkBlockOutcome 0 0, r)
  else if decide (bars r = []) then
    let skip := (length block - ring_cap r)%nat in
    (mkBlockOutcome (len - Z.of_nat skip) (Z.of_nat skip), mkTfRing (drop skip block) (ring_cap r))
  else if all_older_than_front (bars r) block then
    let '(n, l) := prepend (ring_cap r) (reverse block) 0 (bars r) in
    (mkBlockOutcome n (len - n), mkTfRing l (ring_cap r))
  else upsert_all block (mkBlockOutcome 0 0) r.

(** * The store *)

Record SlotKey : Type := mkSlotKey {
  sk_feed : Feed;
  sk_security_id : Z;
  sk_exchange_segment_code : Z }.

#[global] Instance SlotKey_eq_dec : EqDecision SlotKey.
Proof. solve_decision. Defined.
#[global] Instance SlotKey_countable : Countable SlotKey.
Proof.
  apply (inj_countable' (fun k => (sk_feed k, sk_security_id k, sk_exchange_segment_code k))
           (fun '(f, s, e) => mkSlotKey f s e)). by intros [].
Defined.

#[global] Instance RamBar_eq_dec : EqDecision RamBar.
Proof. solve_decision. Defined.

Record SpotBarStore : Type := mkStore {
  spot_days : Z;
  slots : gmap SlotKey (list TfRing);
  middle_inserts : Z;
  dropped_total : Z }.

Definition new_store (spot_days : Z) : SpotBarStore := mkStore spot_days ∅ 0 0.

Definition ring_capacity_of (spot_days : Z) (tf : TfIndex) : nat :=
  Nat.max (Z.to_nat (if is_second_scale tf then 1 else bars_per_day tf * spot_days)) 1.

Definition find_slot (s : SpotBarStore) (key : SlotKey) : option (list TfRing) := slots s !! key.

Definition with_slot (s : SpotBarStore) (key : SlotKey) (rings : list TfRing) : SpotBarStore :=
  mkStore (spot_days s) (<[key := rings]> (slots s)) (middle_inserts s) (dropped_total s).

Definition find_or_create_slot (key : SlotKey) (s : SpotBarStore) : option (list TfRing) * SpotBarStore :=
  match find_slot s key with
  | Some rings => (Some rings, s)
  | None =>
      if MAX_SPOT_BAR_SLOTS <=? Z.of_nat (size (slots s)) then (None, s)
      else
        let rings := map (fun tf => new_ring (ring_capacity_of (spot_days s) tf)) ALL in
        (Some rings, with_slot s key rings)
  end.

(** The relaxed counters wrap. *)
Definition count_middle (s : SpotBarStore) : SpotBarStore :=
  mkStore (spot_days s) (slots s) ((middle_inserts s + 1) mod 2 ^ 64) (dropped_total s).
Definition count_dropped (n : Z) (s : SpotBarStore) : SpotBarStore :=
  mkStore (spot_days s) (slots s) (middle_inserts s) ((dropped_total s + n) mod 2 ^ 64).

Definition note_outcome (o : UpsertOutcome) (s : SpotBarStore) : SpotBarStore :=
  match o with
  | InsertedMiddle => count_middle s
  | DroppedOverWindow => count_dropped 1 s
  | _ => s
  end.

(** [rings[tf.as_ordinal()]], of a slot that has one per timeframe. *)
Definition ring_of (rings : list TfRing) (tf : TfIndex) : TfRing :=
  default (new_ring 0) (rings !! Z.to_nat (as_ordinal tf)).
Definition set_ring (rings : list TfRing) (tf : TfIndex) (r : TfRing) : list TfRing :=
  <[Z.to_nat (as_ordinal tf) := r]> rings.

Definition append_sealed (key : SlotKey) (tf : TfIndex) (bar : RamBar) (s : SpotBarStore)
    : UpsertOutcome * SpotBarStore :=
  match find_or_create_slot key s with
  | (None, s) => (SlotCapacityExhausted, s)
  | (Some rings, s) =>
      let '(outcome, r) := upsert bar (ring_of rings tf) in
      (outcome, note_outcome outcome (with_slot s key (set_ring rings tf r)))
  end.

Definition record_day_block (key : SlotKey) (tf : TfIndex) (block : list RamBar) (s : SpotBarStore)
    : BlockOutcome * SpotBarStore :=
  match find_or_create_slot key s with
  | (None, s) => (mkBlockOutcome 0 (Z.of_nat (length block)), s)
  | (Some rings, s) =>
      let '(outcome, r) := record_block block (ring_of rings tf) in
      let s := with_slot s key (set_ring rings tf r) in
      (outcome, if 0 <? dropped_over_window outcome then count_dropped (dropped_over_window outcome) s else s)
  end.

(** * Reads *)

Definition latest_n (s : SpotBarStore) (key : SlotKey) (tf : TfIndex) (n : nat) : list RamBar :=
  match find_slot s key with
  | None => []
  | Some rings => take n (reverse (bars (ring_of rings tf)))
  end.

Definition bar_at (s : SpotBarStore) (key : SlotKey) (tf : TfIndex) (ts : Z) : option RamBar :=
  rings ← find_slot s key;
  let ring := ring_of rings tf in
  match search ts (bars ring) with
  | inr idx => bars ring !! idx
  | inl _ => None
  end.

(** The number of distinct days, counted at each change of day. *)
Definition count_days (l : list RamBar) : Z :=
  fst (foldl (fun '(days, last_day) bar =>
                let day := bucket_start_ist_secs bar / 86400 in
                if day =? last_day then (days, last_day) else (days + 1, day)) (0, u32_max) l).

Definition depth_days (s : SpotBarStore) (key : SlotKey) : Z :=
  match find_slot s key with
  | None => 0
  | Some rings => count_days (bars (ring_of rings M1))
  end.

(** The statistics of one feed: resident bars, and the least depth of its slots. *)
Definition feed_slots (s : SpotBarStore) (feed : Feed) : list (SlotKey * list TfRing) :=
  filter (fun kv => sk_feed (fst kv) = feed) (map_to_list (slots s)).

Definition bars_resident (s : SpotBarStore) (feed : Feed) : Z :=
  foldl (fun n kv => foldl (fun n r => n + Z.of_nat (length (bars r))) n (snd kv)) 0 (feed_slots s feed).

Definition min_depth_days (s : SpotBarStore) (feed : Feed) : Z :=
  match feed_slots s feed with
  | [] => 0
  | l => foldl (fun least kv => Z.min least (depth_days s (fst kv))) u32_max l
  end.

(** The bytes reserved for the frames that hold bars. *)
Definition estimated_bytes (s : SpotBarStore) : Z :=
  map_fold (fun _ rings n =>
    foldl (fun n '(tf, r) => if is_second_scale tf then n else n + Z.of_nat (ring_cap r) * RAM_BAR_BYTES) n
      (zip ALL rings)) 0 (slots s).

(** * Sorted rings *)

Abbreviation start := bucket_start_ist_secs.

(** Strictly ascending in the bucket start. *)
Definition ascending (l : list RamBar) : Prop := StronglySorted (fun a b => start a < start b) l.

(** The bars recorded under their bucket, the last writer's. *)
Definition record_all (block : list RamBar) (m : gmap Z RamBar) : gmap Z RamBar :=
  foldl (fun m b => <[start b := b]> m) m block.

(** The ring holds the newest bars of [m], as many as it has room for. *)
Record keeps_newest (cap : nat) (l : list RamBar) (m : gmap Z RamBar) : Prop := {
  kn_sorted : ascending l;
  kn_room : (length l <= cap)%nat;
  kn_in : forall b, b ∈ l -> m !! start b = Some b;
  kn_out : forall ts b, m !! ts = Some b -> b ∈ l \/ length l = cap /\ forall b', b' ∈ l -> ts < start b';
  kn_key : forall ts b, m !! ts = Some b -> start b = ts }.

Lemma ascending_app l1 l2 :
  ascending (l1 ++ l2) <-> ascending l1 /\ ascending l2 /\ forall a b, a ∈ l1 -> b ∈ l2 -> start a < start b.
Proof. unfold ascending. rewrite StronglySorted_app. set_solver. Qed.

Lemma ascending_one b : ascending [b].
Proof. repeat constructor. Qed.

Lemma ascending_split x l1 l2 :
  ascending (l1 ++ x :: l2) <->
  ascending (l1 ++ l2) /\ (forall a, a ∈ l1 -> start a < start x) /\ (forall b, b ∈ l2 -> start x < start b).
Proof.
  rewrite !ascending_app. change (x :: l2) with ([x] ++ l2). rewrite ascending_app.
  setoid_rewrite elem_of_app. setoid_rewrite list_elem_of_singleton. pose proof (ascending_one x). set_solver.
Qed.

Lemma ascending_inj l a b : ascending l -> a ∈ l -> b ∈ l -> start a = start b -> a = b.
Proof.
  intros Hs. induction Hs as [|x l _ IH Hx]; [by intros []%not_elem_of_nil|].
  rewrite Forall_forall in Hx. rewrite !elem_of_cons. intros [->|Ha] [->|Hb] He; try done.
  - specialize (Hx _ Hb). lia.
  - specialize (Hx _ Ha). lia.
  - auto.
Qed.

(** What a search finds. *)
Lemma search_spec ts l : ascending l ->
  match search ts l with
  | inr i => exists l1 b l2, l = l1 ++ b :: l2 /\ i = length l1 /\ start b = ts
  | inl i => exists l1 l2, l = l1 ++ l2 /\ i = length l1 /\
               (forall a, a ∈ l1 -> start a < ts) /\ (forall b, b ∈ l2 -> ts < start b)
  end.
Proof.
  induction l as [|x l IH]; cbn; intros Hs.
  { exists [], []. split_and!; try done; by intros ? ?%not_elem_of_nil. }
  change (x :: l) with ([] ++ x :: l) in Hs. apply ascending_split in Hs as (Hs & _ & Hx). cbn in Hs.
  destruct (Z.eqb_spec (start x) ts); [by exists [], x, l|]. destruct (Z.ltb_spec ts (start x)).
  { exists [], (x :: l). split_and!; try done; [by intros ? ?%not_elem_of_nil|].
    intros b [->|Hb]%elem_of_cons; [done|]. specialize (Hx _ Hb). lia. }
  specialize (IH Hs). destruct (search ts l) as [i|i].
  - destruct IH as (l1 & l2 & -> & -> & H1 & H2). exists (x :: l1), l2. split_and!; try done.
    intros a [->|Ha]%elem_of_cons; [lia|auto].
  - destruct IH as (l1 & b & l2 & -> & -> & Hb). by exists (x :: l1), b, l2.
Qed.

(** What an upsert does to a sorted ring with room for one. *)
Lemma upsert_shape bar r : ascending (bars r) -> (1 <= ring_cap r)%nat -> (length (bars r) <= ring_cap r)%nat ->
  let '(o, r') := upsert bar r in
  ring_cap r' = ring_cap r /\
  ((exists l1 b l2, bars r = l1 ++ b :: l2 /\ start b = start bar /\ bars r' = l1 ++ bar :: l2 /\ o = Replaced) \/
   (exists l1 l2, bars r = l1 ++ l2 /\ (forall a, a ∈ l1 -> start a < start bar) /\
      (forall b, b ∈ l2 -> start bar < start b) /\
      ((length (bars r) < ring_cap r)%nat /\ bars r' = l1 ++ bar :: l2 \/
       length (bars r) = ring_cap r /\
       match l1 with
       | [] => r' = r /\ o = DroppedOverWindow
       | _ :: l1 => bars r' = l1 ++ bar :: l2
       end))).
Proof.
  intros Hs Hc Hl. unfold upsert. pose proof (search_spec (start bar) (bars r) Hs) as Hf.
  destruct (search (start bar) (bars r)) as [i|i].
  - destruct Hf as (l1 & l2 & E & -> & H1 & H2). rewrite E in Hl |- *. rewrite length_app in Hl |- *.
    case_decide as Hend.
    { assert (l2 = []) as -> by (destruct l2; cbn in Hend; [done|lia]). rewrite app_nil_r in *.
      split; [done|]. right. exists l1, []. rewrite app_nil_r. split_and!; try done.
      case_bool_decide as Hful; cbn in *; [right; split; [lia|]; by destruct l1; cbn in *; [lia|]|left; split; [lia|done]]. }
    assert (l2 <> []) by (intros ->; cbn in Hend; lia).
    destruct l1 as [|a l1]; cbn [length].
    { case_bool_decide as Hful; (split; [done|]; right; exists [], l2; split_and!; try done).
      - right. split; [cbn in *; lia|]. split; [destruct r; cbn in *; by subst|done].
      - left. cbn in *. split; [lia|done]. }
    split; [done|]. right. exists (a :: l1), l2. split_and!; try done.
    cbn in Hl. case_bool_decide as Hful; cbn in Hful |- *; unfold insert_at.
    + right. split; [lia|]. by rewrite take_app_length, drop_app_length.
    + left. split; [lia|]. cbn. by rewrite take_app_length, drop_app_length.
  - destruct Hf as (l1 & b & l2 & E & -> & H). split; [done|]. left. exists l1, b, l2. split_and!; try done.
    cbn. rewrite E. by rewrite insert_app_r_alt, Nat.sub_diag.
Qed.

(** * Rings keep the newest bars *)

Lemma keeps_newest_empty cap : keeps_newest cap [] ∅.
Proof.
  constructor; cbn; [constructor|lia|by intros ? ?%not_elem_of_nil|by intros ? ?; rewrite lookup_empty..].
Qed.

(** A ring with room to spare holds everything. *)
Lemma kn_not_full cap l m ts b : keeps_newest cap l m -> (length l < cap)%nat -> m !! ts = Some b -> b ∈ l.
Proof. intros H Hl Hb. destruct (kn_out _ _ _ H _ _ Hb) as [|[]]; [done|lia]. Qed.

(** Membership in lists built around a bar. *)
Ltac mid := rewrite ?elem_of_app, ?elem_of_cons, ?elem_of_app in *; try solve [intuition (first [done | congruence])].

Section insert.
Context (cap : nat) (bar : RamBar) (m : gmap Z RamBar).

Lemma keeps_insert_key : (forall ts b, m !! ts = Some b -> start b = ts) ->
  forall ts b, <[start bar := bar]> m !! ts = Some b -> start b = ts.
Proof. intros H ts b. rewrite lookup_insert_Some. intros [[<- <-]|[_ Hb]]; auto. Qed.

Lemma keeps_replaced l1 b l2 : keeps_newest cap (l1 ++ b :: l2) m -> start b = start bar ->
  keeps_newest cap (l1 ++ bar :: l2) (<[start bar := bar]> m).
Proof.
  intros [Hs Hc Hin Hout Hk] E. apply ascending_split in Hs as (Hs & H1 & H2). rewrite E in H1, H2. constructor.
  - by apply ascending_split.
  - revert Hc. rewrite !length_app. cbn. lia.
  - intros b' Hb. rewrite lookup_insert_Some. apply elem_of_app in Hb as [Hb|[->|Hb]%elem_of_cons]; [|by left|]; right.
    + split; [specialize (H1 _ Hb); lia|]. apply Hin. mid.
    + split; [specialize (H2 _ Hb); lia|]. apply Hin. mid.
  - intros ts b'. rewrite lookup_insert_Some. intros [[<- <-]|[Hn Hb]]; [left; mid|].
    destruct (Hout _ _ Hb) as [Hin'|[Hl Hlt]].
    + left. pose proof (Hk _ _ Hb). assert (b' <> b) by congruence. mid.
    + right. split; [revert Hl; rewrite !length_app; done|]. intros x Hx.
      apply elem_of_app in Hx as [Hx|[->|Hx]%elem_of_cons]; [apply Hlt; mid| |apply Hlt; mid].
      rewrite <- E. apply Hlt. mid.
  - by apply keeps_insert_key.
Qed.

Lemma keeps_inserted l1 l2 : keeps_newest cap (l1 ++ l2) m -> (length (l1 ++ l2) < cap)%nat ->
  (forall a, a ∈ l1 -> start a < start bar) -> (forall b, b ∈ l2 -> start bar < start b) ->
  keeps_newest cap (l1 ++ bar :: l2) (<[start bar := bar]> m).
Proof.
  intros H Hc H1 H2. pose proof H as [Hs _ Hin _ Hk]. constructor.
  - by apply ascending_split.
  - revert Hc. rewrite !length_app. cbn. lia.
  - intros b' Hb. rewrite lookup_insert_Some. apply elem_of_app in Hb as [Hb|[->|Hb]%elem_of_cons]; [|by left|]; right.
    + split; [specialize (H1 _ Hb); lia|]. apply Hin. mid.
    + split; [specialize (H2 _ Hb); lia|]. apply Hin. mid.
  - intros ts b'. rewrite lookup_insert_Some. intros Hb. left. destruct Hb as [[<- <-]|[Hn Hb]]; [mid|].
    pose proof (kn_not_full _ _ _ _ _ H Hc Hb). mid.
  - by apply keeps_insert_key.
Qed.

(** At capacity the oldest bar makes room. *)
Lemma keeps_evicted a l1 l2 : keeps_newest cap (a :: l1 ++ l2) m -> length (a :: l1 ++ l2) = cap ->
  (forall x, x ∈ a :: l1 -> start x < start bar) -> (forall b, b ∈ l2 -> start bar < start b) ->
  keeps_newest cap (l1 ++ bar :: l2) (<[start bar := bar]> m).
Proof.
  intros H Hc H1 H2. pose proof H as [Hs _ Hin Hout Hk].
  change (a :: l1 ++ l2) with ([] ++ a :: (l1 ++ l2)) in Hs. apply ascending_split in Hs as (Hs & _ & Ha). cbn in Hs.
  constructor.
  - apply ascending_split. split_and!; [done|intros x Hx; apply H1; mid|done].
  - revert Hc. cbn. rewrite !length_app. cbn. lia.
  - intros b' Hb. rewrite lookup_insert_Some. apply elem_of_app in Hb as [Hb|[->|Hb]%elem_of_cons]; [|by left|]; right.
    + split; [assert (start b' < start bar) by (apply H1; mid); lia|]. apply Hin. mid.
    + split; [specialize (H2 _ Hb); lia|]. apply Hin. mid.
  - intros ts b'. rewrite lookup_insert_Some. intros [[<- <-]|[Hn Hb]]; [left; mid|].
    assert (Hlen : length (l1 ++ bar :: l2) = cap) by (revert Hc; cbn; rewrite !length_app; cbn; lia).
    assert (Hold : forall x, x ∈ l1 ++ bar :: l2 -> start a < start x).
    { intros x. rewrite elem_of_app, elem_of_cons. intros [Hx|[->|Hx]]; [apply Ha; mid|apply H1; mid|apply Ha; mid]. }
    destruct (Hout _ _ Hb) as [Hin'|[_ Hlt]].
    + apply elem_of_cons in Hin' as [->|Hin']; [|left; mid]. right. split; [done|].
      rewrite <- (Hk _ _ Hb). done.
    + right. split; [done|]. intros x Hx. specialize (Hold _ Hx). assert (ts < start a) by (apply Hlt; mid). lia.
  - by apply keeps_insert_key.
Qed.

(** At capacity a bar older than all is dropped. *)
Lemma keeps_dropped l : keeps_newest cap l m -> length l = cap -> (forall b, b ∈ l -> start bar < start b) ->
  keeps_newest cap l (<[start bar := bar]> m).
Proof.
  intros [Hs Hc Hin Hout Hk] Hl H2. constructor; try done.
  - intros b Hb. rewrite lookup_insert_ne; [by apply Hin|]. specialize (H2 _ Hb). lia.
  - intros ts b. rewrite lookup_insert_Some. intros [[<- <-]|[_ Hb]]; [by right|by apply Hout].
  - by apply keeps_insert_key.
Qed.
End insert.

Lemma upsert_keeps bar r m : (1 <= ring_cap r)%nat -> keeps_newest (ring_cap r) (bars r) m ->
  keeps_newest (ring_cap r) (bars (snd (upsert bar r))) (<[start bar := bar]> m) /\
  ring_cap (snd (upsert bar r)) = ring_cap r.
Proof.
  intros Hc H. pose proof (upsert_shape bar r (kn_sorted _ _ _ H) Hc (kn_room _ _ _ H)) as Hu.
  destruct (upsert bar r) as [o r']. cbn. destruct Hu as [Hcap Hu]. split; [|done].
  destruct Hu as [(l1 & b & l2 & E & Eb & -> & _)|(l1 & l2 & E & H1 & H2 & [[Hl ->]|[Hl Hu]])].
  - eapply keeps_replaced; [|done]. by rewrite <- E.
  - rewrite E in H, Hl. by apply keeps_inserted.
  - destruct l1 as [|a l1].
    + destruct Hu as [-> _]. cbn in E. subst. by apply keeps_dropped.
    + rewrite Hu. rewrite E in H, Hl. by eapply keeps_evicted.
Qed.

(** ** A day at a time *)

Lemma record_all_lookup block : forall m ts b, ascending block ->
  record_all block m !! ts = Some b <->
  (b ∈ block /\ start b = ts) \/ ((forall x, x ∈ block -> start x <> ts) /\ m !! ts = Some b).
Proof.
  induction block as [|x l IH]; intros m ts b Hs.
  { cbn. split; [intros H; right; split; [by intros ? ?%not_elem_of_nil|done]|].
    by intros [[[]%not_elem_of_nil _]|[_ H]]. }
  change (x :: l) with ([] ++ x :: l) in Hs. apply ascending_split in Hs as (Hs & _ & Hx). cbn in Hs.
  change (record_all (x :: l) m) with (record_all l (<[start x := x]> m)). rewrite IH by done.
  rewrite lookup_insert_Some. split.
  - intros [[Hb <-]|[Hl [[<- <-]|[Hn Hm]]]].
    + left. split; [mid|done].
    + left. split; [mid|done].
    + right. split; [|done]. intros y [->|Hy]%elem_of_cons; auto.
  - intros [[[->|Hb]%elem_of_cons <-]|[Hl Hm]].
    + right. split; [|by left]. intros y Hy He. specialize (Hx _ Hy). lia.
    + by left.
    + right. split; [intros y Hy; apply Hl; mid|]. right. split; [apply Hl; mid|done].
Qed.

(** Room at the front for the newest of a block older than the ring. *)
Lemma keeps_window cap block l m : keeps_newest cap l m -> ascending block ->
  (forall x y, x ∈ block -> y ∈ l -> start x < start y) ->
  keeps_newest cap (drop (length block - (cap - length l)) block ++ l) (record_all block m).
Proof.
  intros [Hs Hc Hin Hout Hk] Hb Hlt. set (k := (length block - (cap - length l))%nat).
  pose proof Hb as Hb'. rewrite <- (take_drop k block) in Hb'. apply ascending_app in Hb' as (_ & Hd & Htd).
  assert (Hsub : forall x, x ∈ drop k block -> x ∈ block) by (intros x; apply elem_of_subseteq, subseteq_drop).
  assert (Hlen : length (drop k block ++ l) = cap \/ k = 0%nat).
  { rewrite length_app, length_drop. subst k. lia. }
  constructor.
  - apply ascending_app. split_and!; [done..|]. intros x y Hx Hy. auto.
  - rewrite length_app, length_drop. subst k. lia.
  - intros b Hx. rewrite record_all_lookup by done. apply elem_of_app in Hx as [Hx|Hx]; [left; auto|].
    right. split; [|auto]. intros y Hy. specialize (Hlt _ _ Hy Hx). lia.
  - intros ts b. rewrite record_all_lookup by done. intros [[Hx <-]|[Hno Hm]].
    + rewrite <- (take_drop k block) in Hx. apply elem_of_app in Hx as [Hx|Hx]; [|left; mid].
      destruct Hlen as [Hlen|Hk0]; [|rewrite Hk0 in Hx; by apply not_elem_of_nil in Hx].
      right. split; [done|]. intros y [Hy|Hy]%elem_of_app; [by apply Htd|]. apply Hlt; [|done].
      revert Hx. apply elem_of_subseteq, subseteq_take.
    + destruct (Hout _ _ Hm) as [Hx|[Hfull Hx]]; [left; mid|]. right.
      assert (Hnil : drop k block = []) by (apply drop_ge; subst k; lia). rewrite Hnil. done.
  - intros ts b. rewrite record_all_lookup by done. intros [[_ He]|[_ Hm]]; [done|by apply Hk].
Qed.

Lemma prepend_spec cap rest : forall n l, (length l <= cap)%nat ->
  prepend cap rest n l =
    (n + Z.of_nat (Nat.min (cap - length l) (length rest)), reverse (take (cap - length l) rest) ++ l).
Proof.
  induction rest as [|b rest IH]; intros n l Hl; cbn [prepend].
  { rewrite take_nil. cbn. f_equal. lia. }
  case_decide as Hf.
  { rewrite Hf, Nat.sub_diag. cbn. f_equal. lia. }
  rewrite IH by (cbn; lia). cbn [length]. replace (cap - length l)%nat with (S (cap - S (length l))) by lia.
  cbn [take]. rewrite reverse_cons, <- app_assoc. f_equal. lia.
Qed.

Lemma upsert_all_keeps block : forall out r m, (1 <= ring_cap r)%nat -> keeps_newest (ring_cap r) (bars r) m ->
  keeps_newest (ring_cap r) (bars (snd (upsert_all block out r))) (record_all block m) /\
  ring_cap (snd (upsert_all block out r)) = ring_cap r.
Proof.
  induction block as [|b block IH]; intros out r m Hc H; cbn [upsert_all]; [done|].
  destruct (upsert_keeps b r m Hc H) as [Hu E]. destruct (upsert b r) as [o r']. cbn in Hu, E. rewrite <- E in *.
  apply IH; done.
Qed.

Lemma record_block_keeps block r m : ascending block -> (1 <= ring_cap r)%nat ->
  keeps_newest (ring_cap r) (bars r) m ->
  keeps_newest (ring_cap r) (bars (snd (record_block block r))) (record_all block m) /\
  ring_cap (snd (record_block block r)) = ring_cap r.
Proof.
  intros Hs Hc H. unfold record_block. case_decide as Hb; [by subst|]. case_decide as He; cbn [snd].
  { split; [|done]. cbn. rewrite He in H. pose proof (keeps_window _ block [] m H Hs) as Hw.
    rewrite app_nil_r in Hw. cbn in Hw. rewrite Nat.sub_0_r in Hw. apply Hw. by intros ? ? _ ?%not_elem_of_nil. }
  destruct (all_older_than_front (bars r) block) eqn:Ho; [|by apply upsert_all_keeps].
  rewrite prepend_spec by apply H. cbn. split; [|done].
  rewrite take_reverse, reverse_involutive. apply keeps_window; [done..|]. intros x y Hx Hy.
  unfold all_older_than_front in Ho. destruct (bars r) as [|f l] eqn:El; [done|]. cbn in Ho.
  destruct (last block) as [z|] eqn:Ez; [|done]. apply Z.ltb_lt in Ho.
  apply last_Some in Ez as [block' ->]. apply ascending_app in Hs as (_ & _ & Hs).
  assert (start x <= start z).
  { apply elem_of_app in Hx as [Hx|Hx]; [|apply list_elem_of_singleton in Hx; subst; lia].
    assert (start x < start z) by (apply Hs; [done|mid]). lia. }
  pose proof (kn_sorted _ _ _ H) as Hl. change (f :: l) with ([] ++ f :: l) in Hl.
  apply ascending_split in Hl as (_ & _ & Hl). apply elem_of_cons in Hy as [->|Hy]; [lia|]. specialize (Hl _ Hy). lia.
Qed.

(** * Runs of the store *)

Inductive store_op : Type :=
  | AppendSealed (key : SlotKey) (tf : TfIndex) (bar : RamBar)
  | RecordDayBlock (key : SlotKey) (tf : TfIndex) (block : list RamBar).

Definition store_step (s : SpotBarStore) (o : store_op) : SpotBarStore :=
  match o with
  | AppendSealed key tf bar => snd (append_sealed key tf bar s)
  | RecordDayBlock key tf block => snd (record_day_block key tf block s)
  end.

Definition store_run (ops : list store_op) (s : SpotBarStore) : SpotBarStore := foldl store_step s ops.

(** What an operation records, and under which key. *)
Definition op_target (o : store_op) : SlotKey * TfIndex :=
  match o with AppendSealed key tf _ => (key, tf) | RecordDayBlock key tf _ => (key, tf) end.
Definition op_bars (o : store_op) : list RamBar :=
  match o with AppendSealed _ _ bar => [bar] | RecordDayBlock _ _ block => block end.

(** Every bar recorded for an instrument and timeframe, the last writer's. *)
Definition history (ops : list store_op) (key : SlotKey) (tf : TfIndex) : gmap Z RamBar :=
  foldl (fun m o => if decide (op_target o = (key, tf)) then record_all (op_bars o) m else m) ∅ ops.

(** The rings of a slot hold the newest of their histories. *)
Definition slot_ok (days : Z) (rings : list TfRing) (h : TfIndex -> gmap Z RamBar) : Prop :=
  length rings = length ALL /\
  forall tf, ring_cap (ring_of rings tf) = ring_capacity_of days tf /\
             keeps_newest (ring_capacity_of days tf) (bars (ring_of rings tf)) (h tf).

Record store_ok (days : Z) (s : SpotBarStore) (h : SlotKey -> TfIndex -> gmap Z RamBar) : Prop := {
  ok_days : spot_days s = days;
  ok_size : Z.of_nat (size (slots s)) <= MAX_SPOT_BAR_SLOTS;
  ok_slot : forall key rings, slots s !! key = Some rings -> slot_ok days rings (h key);
  ok_none : forall key, slots s !! key = None ->
    (forall tf, h key tf = ∅) \/ Z.of_nat (size (slots s)) = MAX_SPOT_BAR_SLOTS }.

Lemma ring_capacity_pos days tf : (1 <= ring_capacity_of days tf)%nat.
Proof. unfold ring_capacity_of. lia. Qed.

Lemma new_rings_ok days h : (forall tf, h tf = ∅) ->
  slot_ok days (map (fun tf => new_ring (ring_capacity_of days tf)) ALL) h.
Proof.
  intros Hh. split; [done|]. intros tf. rewrite Hh. destruct tf; cbn -[ring_capacity_of];
    (split; [done|apply keeps_newest_empty]).
Qed.

Lemma set_ring_ok days rings h tf r m : slot_ok days rings h ->
  ring_cap r = ring_capacity_of days tf -> keeps_newest (ring_capacity_of days tf) (bars r) m ->
  slot_ok days (set_ring rings tf r) (fun tf' => if decide (tf = tf') then m else h tf').
Proof.
  intros [Hl H] Hc Hk. unfold set_ring. split; [by rewrite length_insert|]. intros tf'.
  assert (Hlt : forall x, (Z.to_nat (as_ordinal x) < length rings)%nat) by (intros x; rewrite Hl; destruct x; cbn; lia).
  unfold ring_of. case_decide as E.
  - subst tf'. rewrite list_lookup_insert_eq by apply Hlt. done.
  - rewrite list_lookup_insert_ne; [apply H|]. intros Heq. apply E.
    destruct tf, tf'; cbn in Heq; done.
Qed.

(** What the store does to a slot, written or created. *)
Lemma write_ok days s h key tf block (f : TfRing -> TfRing) :
  store_ok days s h ->
  (forall r m, (1 <= ring_cap r)%nat -> keeps_newest (ring_cap r) (bars r) m ->
     keeps_newest (ring_cap r) (bars (f r)) (record_all block m) /\ ring_cap (f r) = ring_cap r) ->
  let h' key' tf' := if decide ((key, tf) = (key', tf')) then record_all block (h key' tf') else h key' tf' in
  match find_or_create_slot key s with
  | (None, s') => s' = s /\ store_ok days s h'
  | (Some rings, s') => store_ok days (with_slot s' key (set_ring rings tf (f (ring_of rings tf)))) h'
  end.
Proof.
  intros [Hd Hs Hr Hn] Hf h'. unfold find_or_create_slot, find_slot.
  assert (Hother : forall key', key' <> key -> forall tf', h' key' tf' = h key' tf').
  { intros key' E tf'. unfold h'. case_decide as Ht; [|done]. by injection Ht as ->. }
  assert (Hwrite : forall rings, slot_ok days rings (h key) ->
    slot_ok days (set_ring rings tf (f (ring_of rings tf))) (h' key)).
  { intros rings Hok. pose proof Hok as [Hl Ht]. destruct (Ht tf) as [Hc Hk]. rewrite <- Hc in Hk.
    destruct (Hf _ _ ltac:(rewrite Hc; apply ring_capacity_pos) Hk) as [Hk' Hc']. rewrite Hc in Hk', Hc'.
    pose proof (set_ring_ok _ _ _ _ _ _ Hok Hc' Hk') as [Hl2 H2]. split; [done|]. intros tf'. specialize (H2 tf').
    unfold h'. repeat case_decide; try congruence; done. }
  destruct (slots s !! key) as [rings|] eqn:E.
  - constructor; cbn; [done| | |].
    + rewrite map_size_insert_Some by done. done.
    + intros key' rings'. rewrite lookup_insert_Some. intros [[<- <-]|[Hne Hk]]; [apply Hwrite; eauto|].
      destruct (Hr _ _ Hk) as [Hl Ht]. split; [done|]. intros tf'. by rewrite Hother.
    + intros key'. rewrite lookup_insert_None. intros [Hk Hne]. rewrite map_size_insert_Some by done.
      destruct (Hn _ Hk) as [He|He]; [left; intros tf'; by rewrite Hother|by right].
  - destruct (Z.leb_spec MAX_SPOT_BAR_SLOTS (Z.of_nat (size (slots s)))) as [Hm|Hm].
    + split; [done|]. constructor; [done..| |].
      * intros key' rings' Hk. assert (key' <> key) by congruence. destruct (Hr _ _ Hk) as [Hl Ht].
        split; [done|]. intros tf'. by rewrite Hother.
      * intros key' Hk. right. lia.
    + assert (Hnew : forall tf', h key tf' = ∅) by (destruct (Hn _ E); [done|lia]).
      constructor; cbn; [done| | |].
      * rewrite insert_insert_eq, map_size_insert_None by done. lia.
      * rewrite insert_insert_eq. intros key' rings'. rewrite lookup_insert_Some.
        intros [[<- <-]|[Hne Hk]]; [apply Hwrite; rewrite Hd; by apply new_rings_ok|].
        destruct (Hr _ _ Hk) as [Hl Ht]. split; [done|]. intros tf'. by rewrite Hother.
      * rewrite insert_insert_eq. intros key'. rewrite lookup_insert_None. intros [Hk Hne].
        rewrite map_size_insert_None by done. left. destruct (Hn _ Hk) as [He|He]; [intros tf'; by rewrite Hother|lia].
Qed.

Lemma store_step_ok days s h o : store_ok days s h -> ascending (op_bars o) ->
  store_ok days (store_step s o) (fun key tf => if decide (op_target o = (key, tf)) then record_all (op_bars o) (h key tf)
                                                else h key tf).
Proof.
  intros Hs Ha. destruct o as [key tf bar|key tf block]; cbn [store_step op_target op_bars] in *.
  - pose proof (write_ok days s h key tf [bar] (fun r => snd (upsert bar r)) Hs
                  (fun r m => upsert_keeps bar r m)) as H. cbn zeta in H. unfold append_sealed.
    destruct (find_or_create_slot key s) as [[rings|] s']; [|by destruct H as [-> H]].
    destruct (upsert bar (ring_of rings tf)) as [outcome r] eqn:E.
    cbn [snd] in H |- *. destruct H as [H1 H2 H3 H4]. by destruct outcome.
  - pose proof (write_ok days s h key tf block (fun r => snd (record_block block r)) Hs
                  (fun r m => record_block_keeps block r m Ha)) as H. cbn zeta in H. unfold record_day_block.
    destruct (find_or_create_slot key s) as [[rings|] s']; [|by destruct H as [-> H]].
    destruct (record_block block (ring_of rings tf)) as [outcome r] eqn:E.
    cbn [snd] in H |- *. destruct H as [H1 H2 H3 H4]. by destruct (0 <? dropped_over_window outcome).
Qed.

Lemma store_run_ok days ops : forall s h, store_ok days s h -> Forall (fun o => ascending (op_bars o)) ops ->
  store_ok days (store_run ops s)
    (fun key tf => foldl (fun m o => if decide (op_target o = (key, tf)) then record_all (op_bars o) m else m)
                     (h key tf) ops).
Proof.
  induction ops as [|o ops IH]; intros s h Hs Ha; [done|]. apply Forall_cons in Ha as [Ho Ha].
  exact (IH _ _ (store_step_ok _ _ _ _ Hs Ho) Ha).
Qed.

Lemma new_store_ok days : store_ok days (new_store days) (fun _ _ => ∅).
Proof. constructor; try done. by left. Qed.

(** ** What a ring answers *)

Lemma kn_length cap l m : keeps_newest cap l m -> length l = Nat.min cap (size m).
Proof.
  intros [Hs Hc Hin Hout Hk]. set (d := list_to_set (start <$> l) : gset Z).
  assert (Hd : size d = length l).
  { unfold d. rewrite size_list_to_set; [by rewrite length_fmap|].
    clear -Hs. induction Hs as [|x l _ IH Hx]; cbn; constructor; [|done]. rewrite list_elem_of_fmap.
    intros (y & He & Hy). rewrite Forall_forall in Hx. specialize (Hx _ Hy). lia. }
  assert (Hsub : d ⊆ dom m).
  { intros ts. unfold d. rewrite elem_of_list_to_set, list_elem_of_fmap. intros (b & -> & Hb).
    apply elem_of_dom. exists b. auto. }
  rewrite <- (size_dom (D := gset Z) m), <- Hd. pose proof (subseteq_size _ _ Hsub) as Hle.
  destruct (decide (length l = cap)) as [E|E]; [lia|].
  assert (Hds : dom m ⊆ d); [|pose proof (subseteq_size _ _ Hds); lia].
  intros ts [b Hb]%elem_of_dom. unfold d. rewrite elem_of_list_to_set, list_elem_of_fmap.
  exists b. split; [symmetry; eauto|]. by destruct (Hout _ _ Hb) as [|[]].
Qed.

Lemma search_finds l ts : ascending l ->
  (match search ts l with inr i => l !! i | inl _ => None end) = List.find (fun b => start b =? ts) l.
Proof.
  induction l as [|x l IH]; cbn; intros Hs; [done|].
  change (x :: l) with ([] ++ x :: l) in Hs. apply ascending_split in Hs as (Hs & _ & Hx). cbn in Hs.
  destruct (Z.eqb_spec (start x) ts); [done|]. rewrite <- IH by done. destruct (Z.ltb_spec ts (start x)).
  - pose proof (search_spec ts l Hs) as H2. destruct (search ts l); [done|].
    destruct H2 as (l1 & b & l2 & -> & -> & <-). assert (start x < start b) by (apply Hx; mid). lia.
  - by destruct (search ts l).
Qed.

Lemma search_iff cap l m ts b : keeps_newest cap l m ->
  (match search ts l with inr i => l !! i | inl _ => None end) = Some b <-> m !! ts = Some b /\ b ∈ l.
Proof.
  intros H. pose proof H as [Hs _ Hin Hout Hk]. rewrite search_finds by done. split.
  - intros Hf. apply List.find_some in Hf as [Hb He]. apply list_elem_of_In in Hb. apply Z.eqb_eq in He. subst. auto.
  - intros [Hm Hb]. apply Hk in Hm as He. destruct (List.find _ l) as [b'|] eqn:Hf.
    + apply List.find_some in Hf as [Hb' He']. apply list_elem_of_In in Hb'. apply Z.eqb_eq in He'.
      f_equal. apply (ascending_inj l); [done..|congruence].
    + apply list_elem_of_In in Hb. pose proof (List.find_none _ _ Hf _ Hb) as Hn. cbn in Hn. lia.
Qed.

(** Newest first. *)
Definition descending (l : list RamBar) : Prop := StronglySorted (fun a b => start b < start a) l.

Lemma ascending_reverse l : ascending l -> descending (reverse l).
Proof.
  unfold ascending, descending. induction l as [|x l IH]; [constructor|]. rewrite StronglySorted_cons, Forall_forall.
  intros [Hx Hs]. rewrite reverse_cons. apply StronglySorted_app.
  split; [|split; [by apply IH|repeat constructor]].
  intros a b Ha Hb%list_elem_of_singleton. subst. apply Hx. by rewrite elem_of_reverse in Ha.
Qed.

(** C37: Whatever bars and days of bars are recorded, in whatever order, the
    store keeps at most 25,000 instruments, and for each it keeps every
    timeframe's newest recorded bars, as many as its ring has room for, the last
    writer's under each bucket: a read of the newest n returns exactly those,
    newest first, and a read by bucket finds exactly the bars kept. An instrument
    without a slot never had a bar recorded, or found the store full. *)
Theorem store_serves_the_newest days ops : Forall (fun o => ascending (op_bars o)) ops ->
  let s := store_run ops (new_store days) in
  Z.of_nat (size (slots s)) <= MAX_SPOT_BAR_SLOTS /\
  forall key,
  match find_slot s key with
  | None => (forall tf, history ops key tf = ∅) \/ Z.of_nat (size (slots s)) = MAX_SPOT_BAR_SLOTS
  | Some _ =>
      forall tf n, let m := history ops key tf in let cap := ring_capacity_of days tf in let l := latest_n s key tf n in
      length l = Nat.min n (Nat.min cap (size m)) /\ descending l /\ (forall b, b ∈ l -> m !! start b = Some b) /\
      (forall ts b, m !! ts = Some b -> b ∈ l \/ (length l = n \/ length l = cap) /\ forall b', b' ∈ l -> ts < start b') /\
      (forall ts b, bar_at s key tf ts = Some b <-> m !! ts = Some b /\ b ∈ latest_n s key tf cap)
  end.
Proof.
  intros Ha s. destruct (store_run_ok days ops _ _ (new_store_ok days) Ha) as [_ Hs Hr Hn]. fold s in Hs, Hr, Hn.
  split; [done|]. intros key. unfold bar_at, latest_n, find_slot. specialize (Hr key). specialize (Hn key).
  destruct (slots s !! key) as [rings|] eqn:E; [|auto].
  intros tf n. set (m := history ops key tf). set (cap := ring_capacity_of days tf).
  set (l := take n (reverse (bars (ring_of rings tf)))). cbn zeta. destruct (Hr _ eq_refl) as [_ Ht]. destruct (Ht tf) as [_ H]. fold (history ops key tf) in H.
  fold m cap in H. set (bs := bars (ring_of rings tf)) in *.
  pose proof (ascending_reverse bs (kn_sorted _ _ _ H)) as Hd.
  pose proof Hd as Hd'. rewrite <- (take_drop n (reverse bs)) in Hd'. unfold descending in Hd'.
  apply StronglySorted_app in Hd' as (Htd & Hdt & _). change (take n (reverse bs)) with l in Htd, Hdt.
  assert (Hlb : forall b, b ∈ l -> b ∈ bs).
  { intros b Hb. apply elem_of_reverse. revert Hb. apply elem_of_subseteq, subseteq_take. }
  split_and!.
  - unfold l. by rewrite length_take, length_reverse, (kn_length _ _ _ H).
  - done.
  - intros b Hb. apply H. auto.
  - intros ts b Hm. destruct (kn_out _ _ _ H _ _ Hm) as [Hb|[Hc Hlt]].
    + apply elem_of_reverse in Hb. rewrite <- (take_drop n (reverse bs)) in Hb. apply elem_of_app in Hb as [Hb|Hb].
      { by left. }
      right. split.
      * left. unfold l. rewrite length_take. destruct (decide (n <= length (reverse bs))%nat); [lia|].
        rewrite drop_ge in Hb by lia. by apply not_elem_of_nil in Hb.
      * intros b' Hb'. rewrite <- (kn_key _ _ _ H _ _ Hm). by apply Htd.
    + right. split; [|auto]. unfold l. rewrite length_take, length_reverse, Hc. lia.
  - intros ts b. change (rings ← Some rings; _) with (match search ts bs with inr idx => bs !! idx | inl _ => None end).
    rewrite (search_iff _ _ _ _ _ H). rewrite take_ge by (rewrite length_reverse; apply H). by rewrite elem_of_reverse.
Qed.

(** ** A day at a time, again *)

Lemma ascending_nodup l : ascending l -> NoDup l.
Proof.
  intros Hs. induction Hs as [|x l _ IH Hx]; constructor; [|done]. rewrite Forall_forall in Hx. intros Hin.
  specialize (Hx _ Hin). lia.
Qed.

Lemma keeps_incl cap l l' m : keeps_newest cap l m -> keeps_newest cap l' m -> forall b, b ∈ l -> b ∈ l'.
Proof.
  intros H H' b Hb. destruct (kn_out _ _ _ H' _ _ (kn_in _ _ _ H _ Hb)) as [|[Hf Hlt]]; [done|]. exfalso.
  assert (Hsub : forall b', b' ∈ l' -> b' ∈ l).
  { intros b' Hb'. destruct (kn_out _ _ _ H _ _ (kn_in _ _ _ H' _ Hb')) as [|[_ Hlt']]; [done|].
    specialize (Hlt _ Hb'). specialize (Hlt' _ Hb). lia. }
  assert (Hnd : NoDup (b :: l')).
  { constructor; [intros Hin; specialize (Hlt _ Hin); lia|]. apply ascending_nodup, H'. }
  assert (Hle : (length (b :: l') <= length l)%nat).
  { apply submseteq_length, NoDup_submseteq; [done|]. intros x [->|Hx]%elem_of_cons; auto. }
  pose proof (kn_length _ _ _ H). pose proof (kn_length _ _ _ H'). cbn in Hle. lia.
Qed.

(** A history determines the ring that holds its newest. *)
Lemma keeps_unique cap l l' m : keeps_newest cap l m -> keeps_newest cap l' m -> l = l'.
Proof.
  intros H H'. apply (StronglySorted_unique_strong (fun a b => start a < start b)); [lia|apply H|apply H'|].
  apply NoDup_Permutation; [apply ascending_nodup, H|apply ascending_nodup, H'|].
  intros b. split; [apply (keeps_incl _ _ _ _ H H')|apply (keeps_incl _ _ _ _ H' H)].
Qed.

(** A ring with room for its bars holds the newest of just them. *)
Lemma keeps_itself cap l : ascending l -> (length l <= cap)%nat -> keeps_newest cap l (record_all l ∅).
Proof.
  intros Hs Hc. assert (Hl : forall ts b, record_all l ∅ !! ts = Some b <-> b ∈ l /\ start b = ts).
  { intros ts b. rewrite record_all_lookup by done. rewrite lookup_empty.
    split; [by intros [|[_ [=]]]|by left]. }
  constructor; [done..| | |].
  - intros b Hb. by apply Hl.
  - intros ts b [Hb _]%Hl. by left.
  - by intros ts b [_ He]%Hl.
Qed.

(** C40: Recording an ascending day of bars at once, by prepending or by
    keeping the newest of an empty ring, leaves exactly the ring that recording
    its bars one by one leaves, and it accounts for every bar as recorded or
    dropped. *)
Theorem a_day_block_is_its_upserts block r : ascending (bars r) -> (length (bars r) <= ring_cap r)%nat ->
  (1 <= ring_cap r)%nat -> ascending block ->
  bars (snd (record_block block r)) = bars (snd (upsert_all block (mkBlockOutcome 0 0) r)) /\
  let out := fst (record_block block r) in
  recorded out + dropped_over_window out = Z.of_nat (length block) /\ 0 <= recorded out /\ 0 <= dropped_over_window out.
Proof.
  intros Hr Hl Hc Hb. pose proof (keeps_itself _ _ Hr Hl) as H. split.
  { destruct (record_block_keeps block r _ Hb Hc H) as [H1 _].
    destruct (upsert_all_keeps block (mkBlockOutcome 0 0) r _ Hc H) as [H2 _]. exact (keeps_unique _ _ _ _ H1 H2). }
  unfold record_block. case_decide as Hn; [subst; cbn; lia|]. case_decide; [cbn; lia|].
  destruct (all_older_than_front _ _).
  - rewrite prepend_spec by done. cbn. rewrite length_reverse. lia.
  - assert (Hu : forall block out r', 0 <= recorded out -> 0 <= dropped_over_window out ->
      let out' := fst (upsert_all block out r') in
      recorded out' + dropped_over_window out' = recorded out + dropped_over_window out + Z.of_nat (length block) /\
      0 <= recorded out' /\ 0 <= dropped_over_window out').
    { clear. induction block as [|b block IH]; intros out r' H1 H2; cbn [upsert_all]; [cbn; lia|].
      destruct (upsert b r') as [o r'']. cbn zeta in IH |- *. cbn [length].
      destruct o; (edestruct IH as (E & H3 & H4); [| |split_and!; [rewrite E; cbn; lia|exact H3|exact H4]]); cbn; lia. }
    apply Hu; cbn; lia.
Qed.

(** * Examples *)

Definition sample_key : SlotKey := mkSlotKey Dhan 13 0.
Definition sample_ram_bar (ts close : Z) : RamBar :=
  mkRamBar ts (f64_of_Z close) (f64_of_Z close) (f64_of_Z close) (f64_of_Z close) 0.

Example sizes : (map bars_per_day ALL, total_bars_per_day_all_tfs, estimated_capacity_bytes 35 8) =
  ([400; 134; 80; 27; 24000; 14; 7; 40], 702, 9434880).
Proof. vm_compute. reflexivity. Qed.

(** A day arrives newest first, then a late bar and a correction. *)
Definition sample_store_ops : list store_op :=
  [RecordDayBlock sample_key S1 [sample_ram_bar 100 1; sample_ram_bar 101 2];
   AppendSealed sample_key S1 (sample_ram_bar 102 3);
   AppendSealed sample_key S1 (sample_ram_bar 101 9);
   RecordDayBlock sample_key M60 [sample_ram_bar 7200 5; sample_ram_bar 10800 6];
   RecordDayBlock sample_key M60 [sample_ram_bar 3600 4];
   AppendSealed sample_key M60 (sample_ram_bar 7200 8)].

Example sample_reads :
  let s := store_run sample_store_ops (new_store 35) in
  (latest_n s sample_key S1 5, latest_n s sample_key M60 2, bar_at s sample_key M60 3600, depth_days s sample_key) =
  ([sample_ram_bar 102 3], [sample_ram_bar 10800 6; sample_ram_bar 7200 8], Some (sample_ram_bar 3600 4), 0).
Proof. vm_compute. reflexivity. Qed.

Lemma sample_ops_ascending : Forall (fun o => ascending (op_bars o)) sample_store_ops.
Proof. unfold ascending. repeat (constructor; cbn; try lia). Qed.

Lemma store_serves_the_newest_witness :
  let s := store_run sample_store_ops (new_store 35) in
  length (latest_n s sample_key M60 2) = 2%nat /\ bar_at s sample_key M60 3600 = Some (sample_ram_bar 3600 4).
Proof.
  intros s. destruct (store_serves_the_newest 35 sample_store_ops sample_ops_ascending) as [_ H].
  pose proof (H sample_key) as Hk. clear H.
  destruct (find_slot _ sample_key) as [rings|] eqn:E; [|exfalso; revert E; vm_compute; discriminate].
  destruct (Hk M60 2%nat) as (Hl & _ & _ & _ & Hb). split.
  - etransitivity; [exact Hl|]. vm_compute. reflexivity.
  - apply Hb. split; [vm_compute; reflexivity|]. apply (bool_decide_unpack _). vm_compute. exact I.
Defined.

Lemma a_day_block_is_its_upserts_witness :
  let r := mkTfRing [sample_ram_bar 200 1; sample_ram_bar 300 1] 3 in
  let block := [sample_ram_bar 50 1; sample_ram_bar 100 2] in
  bars (snd (record_block block r)) = bars (snd (upsert_all block (mkBlockOutcome 0 0) r)) /\
  fst (record_block block r) = mkBlockOutcome 1 1.
Proof.
  intros r block. split; [|vm_compute; reflexivity].
  apply (a_day_block_is_its_upserts block r); unfold ascending; cbn; try lia; repeat (constructor; cbn; try lia).
Defined.
