(* ===== verification/MultiTfAggregator.v ===== *)
(** The candle fold over instruments ([trading/src/candles/multi_tf_aggregator.rs]):
    the admission gates of a tick, the slot of an instrument (its cell, its
    volume baseline, the tick rule, the marks that keep partial bars from being
    published after a crash replay) and the seal sweeps.

    [on_seal] is the list of bars handed on, in order.  A [u16] mask is a [Z] with
    one bit per timeframe.  Metrics and logs are left out, so is the cache
    warm-up.  [muhurat] is the process-wide evening-session flag
    ([tickvault_common::muhurat::current]); the [#[cfg(test)]] overrides are not
    modelled. *)
From stdpp Require Import functions.
From coqutil Require Import Datatypes.RecordSettersUsingExistingGetters.
From S2P Require Import Prelude Bytes Float FeedTypes PricePrecision Candles AggregatorCell SealRing.
Local Open Scope Z_scope.

(** * Constants *)

Definition AGGREGATOR_MAX_SLOTS : Z := 25000.
Definition MIN_PLAUSIBLE_EXCHANGE_TS_SECS : Z := 1600000000.
Definition MAX_PLAUSIBLE_EXCHANGE_TS_SECS : Z := 2524608000.
Definition UNTRADED_PROOF_MAX_AGE_SECS : Z := 60.
Definition UNTRADED_PROOF_MAX_SKEW_SECS : Z := 5.
Definition FOLD_FUTURE_TRADE_TIME_SKEW_SECS : Z := 60.
Definition PRE_OPEN_MATCH_DONE_SECS_OF_DAY_IST : Z := 33120.
Definition FIRST_BAR_INCLUDES_PRE_OPEN_AUCTION : bool := false.
Definition AUCTION_VOLUME_UNKNOWN : Z := u64_max.
Definition UNTRADED_PROOF_SLOT_RESERVE_DIVISOR : Z := 20.
Definition DEFAULT_CATCH_UP_MARGIN_SECS : Z := 240.
Definition REPLAY_FRONTIER_SKEW_SECS : Z := 5.
Definition SECS_PER_DAY : Z := 86400.
Definition PRE_OPEN_DIAL_WINDOW_SECS : Z := 300.
Definition CUMULATIVE_RESTART_DROP_FLOOR : Z := 2147483648.
Definition CUMULATIVE_WRAP_WINDOW : Z := 268435456.
Definition CUMULATIVE_WRAP_SPAN : Z := 4294967296.
Definition MUHURAT_PERSIST_START_SECS_OF_DAY_IST : Z := 64800.
Definition MUHURAT_PERSIST_END_SECS_OF_DAY_IST : Z := 70200.
Definition EXCHANGE_SEGMENT_NSE_EQ : Z := 1.
Definition EXCHANGE_SEGMENT_NSE_FNO : Z := 2.
Definition EXCHANGE_SEGMENT_BSE_EQ : Z := 4.
Definition EXCHANGE_SEGMENT_BSE_FNO : Z := 8.
Definition MAX_BUCKET_SECS : Z := foldl (fun m tf => Z.max m (seconds_per_bucket tf)) 0 ALL.

Definition is_derivative (segment_code : Z) : bool :=
  (segment_code =? EXCHANGE_SEGMENT_NSE_FNO) || (segment_code =? EXCHANGE_SEGMENT_BSE_FNO).
Definition is_equity (segment_code : Z) : bool :=
  (segment_code =? EXCHANGE_SEGMENT_NSE_EQ) || (segment_code =? EXCHANGE_SEGMENT_BSE_EQ).

(** * Pure helpers *)

Definition u32_try_from (x : Z) : option Z :=
  if (0 <=? x) && (x <=? u32_max) then Some x else None.

Definition first_session_bucket_baseline (segment_code : Z) (include_auction : bool)
    (auction_volume : Z) : option Z :=
  if is_derivative segment_code then Some 0
  else if negb (is_equity segment_code) then None
  else if include_auction then Some 0
  else if auction_volume =? AUCTION_VOLUME_UNKNOWN then None else Some auction_volume.

Definition untraded_proof_holds (proof trade segment_code : Z) : bool :=
  if (proof =? 0) || negb (proof / 86400 =? trade / 86400) then false
  else if trade <? proof then proof - trade <=? UNTRADED_PROOF_MAX_SKEW_SECS
  else
    let day := trade - trade mod 86400 in
    let open := u32_saturating_add day MARKET_OPEN_SECS_OF_DAY_IST in
    let no_trade_until_open := is_derivative segment_code ||
      (is_equity segment_code &&
       (u32_saturating_add day (PRE_OPEN_MATCH_DONE_SECS_OF_DAY_IST + UNTRADED_PROOF_MAX_SKEW_SECS) <=? proof)) in
    let from := if (open <=? trade) && no_trade_until_open then Z.max proof open else proof in
    trade - from <=? UNTRADED_PROOF_MAX_AGE_SECS.

Definition receipt_ist_secs_of (received_at_nanos : Z) : option Z :=
  if received_at_nanos <=? 0 then None
  else u32_try_from (received_at_nanos / 1000000000 + IST_UTC_OFFSET_SECS).

(** The division truncates, as Rust's does; the result is dropped unless positive. *)
Definition receipt_ist_secs (received_at_nanos : Z) : option Z :=
  secs ← u32_try_from (Z.quot received_at_nanos 1000000000 + IST_UTC_OFFSET_SECS);
  if 0 <? received_at_nanos then Some secs else None.

Definition replay_gap_frontier_secs (received_at_nanos fold_secs : Z) : Z :=
  u32_saturating_add (Z.max (default fold_secs (receipt_ist_secs received_at_nanos)) fold_secs)
    REPLAY_FRONTIER_SKEW_SECS.

Definition started_before_capture (start captured_from : Z) : bool :=
  negb (captured_from =? 0) &&
  (CANDLE_SESSION_OPEN_SECS_OF_DAY_IST <? captured_from mod SECS_PER_DAY) &&
  (start <=? captured_from).

Definition capture_is_mid_session (live_from fold_secs : Z) : bool :=
  negb (live_from =? 0) && (live_from / SECS_PER_DAY =? fold_secs / SECS_PER_DAY) &&
  (Z.max 0 (CANDLE_SESSION_OPEN_SECS_OF_DAY_IST - PRE_OPEN_DIAL_WINDOW_SECS) <? live_from mod SECS_PER_DAY).

(** The 32-bit day counter of the feed, unwrapped against the last 64-bit value. *)
Definition unwrap_u32_cumulative (raw last : Z) (same_day_seeded : bool) : Z :=
  if negb same_day_seeded then raw else
  let turns := Z.ldiff last (CUMULATIVE_WRAP_SPAN - 1) in
  let last_low := Z.land last (CUMULATIVE_WRAP_SPAN - 1) in
  let top := CUMULATIVE_WRAP_SPAN - CUMULATIVE_WRAP_WINDOW in
  if (top <=? last_low) && (raw <? CUMULATIVE_WRAP_WINDOW) then
    u64_saturating_add (u64_saturating_add turns CUMULATIVE_WRAP_SPAN) raw
  else if negb (turns =? 0) && (last_low <? CUMULATIVE_WRAP_WINDOW) && (top <=? raw) then
    turns - CUMULATIVE_WRAP_SPAN + raw
  else u64_saturating_add turns raw.

(** The tick rule: the sign of a trade from its price against the one before,
    carried over an unchanged price. *)
Definition classify_tick_volume (prev price : f64) (delta carry : Z) : option Z * Z :=
  if delta =? 0 then (Some 0, carry)
  else if negb (is_finite price) || f64_leb price f64_zero then (None, carry)
  else
    let magnitude := if delta <=? i64_max then delta else i64_max in
    if negb (is_finite prev) || f64_leb prev f64_zero then (None, carry)
    else if f64_ltb prev price then (Some magnitude, 1)
    else if f64_ltb price prev then (Some (- magnitude), -1)
    else (if carry =? 1 then Some magnitude
          else if carry =? -1 then Some (- magnitude) else None, carry).

(** * Masks *)

Definition REPLAY_ALL_TF_MASK : Z := Z.shiftl 1 TF_COUNT - 1.
Definition replay_tf_bit (tf : TfIndex) : Z := Z.shiftl 1 (as_ordinal tf).
Definition has_bit (mask : Z) (tf : TfIndex) : bool := negb (Z.land mask (replay_tf_bit tf) =? 0).
Definition set_bit (mask : Z) (tf : TfIndex) (on : bool) : Z :=
  if on then Z.lor mask (replay_tf_bit tf) else Z.ldiff mask (replay_tf_bit tf).

(** * The slot of an instrument *)

Abbreviation CompositeKey := (Feed * Z * Z)%type.

Record InstrumentSlot : Type := mkSlot {
  slot_key : CompositeKey;
  cell : AggregatorCell;
  widen_memo : WidenMemo;
  last_cumulative : Z;
  volume_baseline_seeded : bool;
  last_ltp : f64;
  last_tick_sign : Z;
  last_trade_ts : Z;
  untraded_proof_ist_secs : Z;
  pre_open_auction_volume : Z;
  replay_open_partial : Z;
  replay_sealed_partial : Z;
  replay_gap_rebase_pending : bool;
  replay_gap_epoch_seen : Z;
  replay_taint_open : Z;
  replay_taint_sealed : Z;
  replay_handover_kept : Z;
  handover_listen_pending : bool;
  handover_listen_secs : Z;
  prev_price_untrusted : bool;
  handover_first_receipt_secs : Z;
  replay_settling : bool;
  replay_held : Z;
  replay_gap_frontier : Z;
  replay_next_partial : Z }.

(** The slot [slot_index] pushes for a new instrument. *)
Definition new_slot (key : CompositeKey) (epoch : Z) : InstrumentSlot := {|
  slot_key := key; cell := empty_cell; widen_memo := new_memo; last_cumulative := 0;
  volume_baseline_seeded := false; last_ltp := f64_nan; last_tick_sign := 0; last_trade_ts := 0;
  untraded_proof_ist_secs := 0; pre_open_auction_volume := AUCTION_VOLUME_UNKNOWN;
  replay_open_partial := REPLAY_ALL_TF_MASK; replay_sealed_partial := 0;
  replay_gap_rebase_pending := false; replay_gap_epoch_seen := epoch; replay_taint_open := 0;
  replay_taint_sealed := 0; replay_handover_kept := 0; handover_listen_pending := false;
  handover_listen_secs := 0; prev_price_untrusted := false; handover_first_receipt_secs := 0;
  replay_settling := true; replay_held := 0; replay_gap_frontier := 0; replay_next_partial := 0 |}.

Definition sync_replay_gap (epoch : Z) (s : InstrumentSlot) : InstrumentSlot :=
  if replay_gap_epoch_seen s =? epoch then s else
  { s with replay_gap_epoch_seen := epoch; last_tick_sign := 0;
           replay_open_partial := REPLAY_ALL_TF_MASK; replay_sealed_partial := REPLAY_ALL_TF_MASK;
           replay_gap_rebase_pending := true }.

(** [true] when the bar that just sealed must not be published; the marks move
    from the open bucket to the sealed one. *)
Definition roll_replay_bits (tf : TfIndex) (next_open_partial replay before : bool) (s : InstrumentSlot)
    : bool * InstrumentSlot :=
  let was_kept := has_bit (replay_handover_kept s) tf in
  let was_partial := has_bit (replay_open_partial s) tf || (negb replay && before && negb was_kept) in
  let was_tainted := has_bit (replay_taint_open s) tf in
  let forced := has_bit (replay_next_partial s) tf in
  ((replay && was_partial) || was_tainted || (was_partial && before),
   { s with replay_sealed_partial ::= fun m => set_bit m tf was_partial;
            replay_taint_sealed ::= fun m => set_bit m tf was_tainted;
            replay_taint_open ::= fun m => set_bit m tf false;
            replay_handover_kept ::= fun m => set_bit m tf false;
            replay_next_partial ::= fun m => set_bit m tf false;
            replay_open_partial ::= fun m => set_bit m tf (next_open_partial || forced) }).

Definition take_open_partial (tf : TfIndex) (replay before : bool) (s : InstrumentSlot)
    : bool * InstrumentSlot :=
  roll_replay_bits tf (negb (volume_baseline_seeded s) || replay_gap_rebase_pending s) replay before s.

Definition sealed_is_suppressed (tf : TfIndex) (replay before : bool) (s : InstrumentSlot) : bool :=
  has_bit (replay_taint_sealed s) tf ||
  (replay && has_bit (replay_sealed_partial s) tf) || (negb replay && before).

Definition capture_from (live_from : Z) (s : InstrumentSlot) : Z :=
  if live_from =? 0 then 0 else Z.max live_from (handover_listen_secs s).

Definition taint_kept_tf_if_at_risk (margin last_frame : Z) (s : InstrumentSlot) (tf : TfIndex)
    : InstrumentSlot :=
  if negb (has_bit (replay_handover_kept s) tf) then s else
  let start := open_bucket_start tf (cell s) in
  let stop := u32_saturating_add start (seconds_per_bucket tf) in
  if negb (start =? 0) && (last_frame <? u32_saturating_add stop margin) then
    { s with replay_taint_open ::= fun m => set_bit m tf true;
             replay_handover_kept ::= fun m => set_bit m tf false }
  else s.

Definition taint_kept_at_risk (last_frame margin : Z) (s : InstrumentSlot) : InstrumentSlot :=
  if replay_handover_kept s =? 0 then s
  else foldl (taint_kept_tf_if_at_risk margin last_frame) s ALL.

Definition hold_unconfirmed_kept (tf : TfIndex) (margin last_frame : Z) (s : InstrumentSlot)
    : InstrumentSlot :=
  if handover_listen_pending s then taint_kept_tf_if_at_risk margin last_frame s tf else s.

Definition open_bucket_may_be_closed_live (tf : TfIndex) (late_bound margin : Z) (s : InstrumentSlot) : bool :=
  let start := open_bucket_start tf (cell s) in
  negb (start =? 0) &&
  (u32_saturating_add (u32_saturating_add start (seconds_per_bucket tf)) margin <=? late_bound).

(** A bar handed on: whose, of which frame. *)
Abbreviation Seal := (CompositeKey * TfIndex * LiveCandleState)%type.

Inductive Released : Type := Nothing | Emitted | Suppressed.

Definition release_held (live_from : Z) (tf : TfIndex) (s : InstrumentSlot)
    : Released * list Seal * InstrumentSlot :=
  if negb (has_bit (replay_held s) tf) then (Nothing, [], s) else
  let s := { s with replay_held ::= fun m => set_bit m tf false } in
  match last_sealed_snapshot tf (cell s) with
  | None => (Nothing, [], s)
  | Some bar =>
      let before := started_before_capture (lc_bucket_start bar) (capture_from live_from s) in
      if sealed_is_suppressed tf true before s then (Suppressed, [], s)
      else (Emitted, [(slot_key s, tf, bar)], s)
  end.

(** * Outcome of a tick *)

Record ConsumeStats : Type := mkStats {
  sealed_count : Z;
  amended_count : Z;
  late_count : Z;
  refused_price : bool;
  out_of_session : bool;
  future_trading_day : bool;
  slot_exhausted : bool;
  untraded_sentinel : bool;
  untraded_timestamp : bool;
  out_of_band_timestamp : bool;
  refused_timestamp : bool;
  stale_trading_day : bool;
  receipt_day_mismatch : bool;
  repeat_quote : bool;
  advanced : bool;
  replay_partial_suppressed : Z }.

Definition default_stats : ConsumeStats :=
  mkStats 0 0 0 false false false false false false false false false false false false 0.

Definition folded (st : ConsumeStats) : bool :=
  negb (refused_price st) && negb (out_of_session st) && negb (slot_exhausted st) &&
  negb (refused_timestamp st) && negb (untraded_sentinel st) && negb (stale_trading_day st) &&
  negb (future_trading_day st) && negb (untraded_timestamp st) && negb (out_of_band_timestamp st).

Definition u8_saturating_add (a b : Z) : Z := clamp 0 255 (a + b).

(** * One tick in one slot *)

(** What the tick path reads of the aggregator around the slot. *)
Record TickEnv : Type := mkTickEnv {
  env_replay : bool;
  env_epoch : Z;
  env_live_from : Z;
  env_late_bound : Z;
  env_last_frame : Z;
  env_margin : Z;
  env_policy : LatePolicy;
  env_auction : bool }.

(** The values of the tick that the path fixes before the frames are folded. *)
Record TickFacts : Type := mkFacts {
  fa_tick : ParsedTick;
  fa_prices : TickPrices;
  fa_secs : Z;
  fa_cumulative : Z;
  fa_stale : bool;
  fa_gap_now : bool;
  fa_seeded_now : bool }.

Definition note_first_receipt (env : TickEnv) (t : ParsedTick) (s : InstrumentSlot) : InstrumentSlot :=
  if handover_listen_pending s && (handover_first_receipt_secs s =? 0) && negb (env_replay env) then
    match receipt_ist_secs (received_at_nanos t) with
    | Some receipt => { s with handover_first_receipt_secs := receipt }
    | None => s
    end
  else s.

Definition resolve_cumulative (t : ParsedTick) (cumulative_volume_override : option Z) (fold_secs : Z)
    (s : InstrumentSlot) : Z :=
  match cumulative_volume_override with
  | Some v => v
  | None => unwrap_u32_cumulative (volume t) (last_cumulative s)
      (volume_baseline_seeded s && (last_trade_ts s / SECS_PER_DAY =? fold_secs / SECS_PER_DAY))
  end.

Definition is_repeat_candidate (f : TickFacts) (s : InstrumentSlot) : bool :=
  volume_baseline_seeded s && (fa_secs f =? last_trade_ts s) &&
  (fa_cumulative f =? last_cumulative s) &&
  bool_decide (last_ltp s = tp_last_traded_price (fa_prices f)).

Definition tick_advanced (f : TickFacts) (s : InstrumentSlot) : bool :=
  volume_baseline_seeded s && negb (fa_gap_now f) &&
  ((last_cumulative s <? fa_cumulative f) ||
   ((fa_cumulative f =? 0) && (last_cumulative s =? 0) && (last_trade_ts s <? fa_secs f))).

Definition note_trade (f : TickFacts) (s : InstrumentSlot) : InstrumentSlot :=
  if fa_stale f then s
  else { s with last_ltp := tp_last_traded_price (fa_prices f); last_trade_ts := fa_secs f }.

Definition listen_window (env : TickEnv) (f : TickFacts) (s : InstrumentSlot) : InstrumentSlot :=
  if fa_seeded_now f && negb (env_replay env) && capture_is_mid_session (env_live_from env) (fa_secs f) then
    match receipt_ist_secs (received_at_nanos (fa_tick f)) with
    | Some receipt =>
        let session_open := fa_secs f - fa_secs f mod SECS_PER_DAY + CANDLE_SESSION_OPEN_SECS_OF_DAY_IST in
        let captured := Z.max (Z.max receipt (fa_secs f)) (u32_saturating_add session_open 1) in
        { s with handover_listen_secs ::= Z.max captured; prev_price_untrusted := true }
    | None => s
    end
  else s.

Definition seed_baseline (f : TickFacts) (s : InstrumentSlot) : InstrumentSlot :=
  if volume_baseline_seeded s then s else
  { s with volume_baseline_seeded := true;
           last_cumulative :=
             if untraded_proof_holds (untraded_proof_ist_secs s) (fa_secs f)
                  (exchange_segment_code (fa_tick f)) &&
                (last_trade_quantity (fa_tick f) =? fa_cumulative f)
             then 0 else fa_cumulative f }.

Definition anchor_gap (env : TickEnv) (f : TickFacts) (s : InstrumentSlot) : InstrumentSlot :=
  let s := if fa_gap_now f then { s with last_cumulative := fa_cumulative f } else s in
  if env_replay env && (fa_gap_now f || fa_seeded_now f) then
    let s := { s with replay_gap_frontier ::=
      Z.max (replay_gap_frontier_secs (received_at_nanos (fa_tick f)) (fa_secs f)) } in
    if fa_gap_now f || negb (env_epoch env =? 0) then
      { s with prev_price_untrusted := true; replay_settling := true } else s
  else s.

(** The volume the day's first buckets start from, and which buckets those are. *)
Definition first_buckets (env : TickEnv) (f : TickFacts) (s : InstrumentSlot) : Z * Z :=
  let baseline := last_cumulative s in
  if fa_seeded_now f && negb (env_replay env) && negb (fa_gap_now f) &&
     negb (capture_is_mid_session (env_live_from env) (fa_secs f)) then
    match first_session_bucket_baseline (exchange_segment_code (fa_tick f)) (env_auction env)
            (pre_open_auction_volume s) with
    | Some base =>
        if base <? baseline then
          (base, foldl (fun m tf =>
             if is_days_first_session_bucket tf (bucket_start tf (fa_secs f)) then set_bit m tf true else m) 0 ALL)
        else (baseline, 0)
    | None => (baseline, 0)
    end
  else (baseline, 0).

Definition refresh_frame (f : TickFacts) (acc : Z * InstrumentSlot) (tf : TfIndex) : Z * InstrumentSlot :=
  let '(refreshed, s) := acc in
  let '(did, c) := refresh_repeat_quote tf (fa_tick f) (fa_prices f) (fa_secs f) (cell s) in
  (if did then set_bit refreshed tf true else refreshed, { s with cell := c }).

(** A repeated quote: no trade, only the slow fields of the open buckets. *)
Definition consume_repeat (env : TickEnv) (f : TickFacts) (s : InstrumentSlot) : InstrumentSlot :=
  let s := if env_replay env && replay_gap_rebase_pending s then
             { s with replay_gap_rebase_pending := false; replay_settling := true;
                      prev_price_untrusted := true } else s in
  let '(refreshed, s) := foldl (refresh_frame f) (0, s) ALL in
  if env_late_bound env =? 0 then s else
  foldl (fun s tf =>
    if has_bit refreshed tf && open_bucket_may_be_closed_live tf (env_late_bound env) (env_margin env) s
    then { s with replay_open_partial ::= fun m => set_bit m tf true } else s) s ALL.

Definition trust_again (env : TickEnv) (f : TickFacts) (first_after : bool) (s : InstrumentSlot)
    : InstrumentSlot :=
  if negb first_after then s else
  let trusted_after := if env_replay env then replay_gap_frontier s
    else u32_saturating_add (handover_listen_secs s) REPLAY_FRONTIER_SKEW_SECS in
  let s := if trusted_after <? fa_secs f then { s with prev_price_untrusted := false } else s in
  if env_replay env then s else { s with replay_taint_sealed := REPLAY_ALL_TF_MASK }.

Definition hand_over (env : TickEnv) (f : TickFacts) (restarted : bool) (s : InstrumentSlot)
    : InstrumentSlot :=
  if negb (env_replay env) && handover_listen_pending s &&
     (fa_gap_now f || (restarted && replay_gap_rebase_pending s)) then
    taint_kept_at_risk (env_last_frame env) (Z.max (env_margin env) REPLAY_FRONTIER_SKEW_SECS)
      { s with handover_listen_pending := false;
               handover_listen_secs := default (fa_secs f) (receipt_ist_secs (received_at_nanos (fa_tick f)));
               prev_price_untrusted := (handover_first_receipt_secs s =? 0) ||
                 (fa_secs f <=? u32_saturating_add (handover_first_receipt_secs s) REPLAY_FRONTIER_SKEW_SECS) }
  else s.

(** After a restart or a gap: the bits and the open buckets settle. *)
Definition settle_gap (env : TickEnv) (f : TickFacts) (restarted : bool) (last_counted_secs : Z)
    (s : InstrumentSlot) : InstrumentSlot :=
  let s := if restarted && replay_gap_rebase_pending s then
      let s := { s with replay_settling := true } in
      if env_replay env then
        { s with replay_gap_frontier ::=
                   Z.max (replay_gap_frontier_secs (received_at_nanos (fa_tick f)) (fa_secs f));
                 prev_price_untrusted := true }
      else s
    else s in
  if restarted then { s with replay_gap_rebase_pending := false }
  else if fa_gap_now f then
    let span_ends_by := if env_replay env then 0 else Z.max (env_live_from env) (handover_listen_secs s) in
    let '(unabsorbed, c) := rebase_open_buckets_after_gap (fa_cumulative f) (fa_secs f) last_counted_secs
                              span_ends_by (cell s) in
    { s with replay_settling := true; replay_gap_rebase_pending := false; cell := c;
             replay_open_partial ::= fun m => Z.lor m unabsorbed;
             replay_handover_kept ::= fun m => Z.ldiff m unabsorbed }
  else s.

Definition mark_late_frame (env : TickEnv) (f : TickFacts) (s : InstrumentSlot) (tf : TfIndex)
    : InstrumentSlot :=
  if open_bucket_may_be_closed_live tf (env_late_bound env) (env_margin env) s &&
     negb (would_seal tf (fa_secs f) (cell s)) then
    let s := { s with replay_open_partial ::= (fun m => set_bit m tf true);
                      replay_next_partial ::= (fun m => set_bit m tf true) } in
    if fa_secs f <? open_bucket_start tf (cell s)
    then { s with replay_sealed_partial ::= fun m => set_bit m tf true } else s
  else s.

Definition mark_late (env : TickEnv) (f : TickFacts) (s : InstrumentSlot) : InstrumentSlot :=
  if env_late_bound env =? 0 then s else foldl (mark_late_frame env f) s ALL.

(** The frames' loop: the slot, the stats, the bars handed on, and how many were
    kept back. *)
Record Run : Type := mkRun {
  run_slot : InstrumentSlot;
  run_stats : ConsumeStats;
  run_out : list Seal;
  run_suppressed : Z }.

Definition keep_back (r : Run) : Run :=
  { r with run_stats ::= (fun st => { st with replay_partial_suppressed ::= fun n => u8_saturating_add n 1 });
           run_suppressed ::= (fun n => u64_saturating_add n 1) }.

Definition publish (b : Seal) (r : Run) : Run := { r with run_out ::= (fun l => l ++ [b]) }.
Definition count_sealed (r : Run) : Run :=
  { r with run_stats ::= fun st => { st with sealed_count ::= fun n => u8_saturating_add n 1 } }.
Definition count_amended (r : Run) : Run :=
  { r with run_stats ::= fun st => { st with amended_count ::= fun n => u8_saturating_add n 1 } }.
Definition count_late (r : Run) : Run :=
  { r with run_stats ::= fun st => { st with late_count ::= fun n => u8_saturating_add n 1 } }.

(** A bar held back during a replay leaves before the seal that replaces it. *)
Definition release_first (env : TickEnv) (f : TickFacts) (any_held : bool) (tf : TfIndex) (r : Run) : Run :=
  let s := run_slot r in
  if any_held && has_bit (replay_held s) tf && would_seal tf (fa_secs f) (cell s) then
    let '(released, out, s) := release_held (env_live_from env) tf s in
    let r := { r with run_slot := s; run_out ::= (fun l => l ++ out) } in
    match released with
    | Emitted => count_sealed r
    | Suppressed => keep_back r
    | Nothing => r
    end
  else r.

Definition hold (tf : TfIndex) (r : Run) : Run :=
  { r with run_slot ::= fun s => { s with replay_held ::= fun m => set_bit m tf true } }.

Definition on_sealed (env : TickEnv) (next_partial : bool) (tf : TfIndex) (st : LiveCandleState) (r : Run) : Run :=
  let s := run_slot r in
  let before := started_before_capture (lc_bucket_start st) (capture_from (env_live_from env) s) in
  let '(suppress, s) := roll_replay_bits tf next_partial (env_replay env) before s in
  let r := { r with run_slot := s } in
  if suppress then keep_back r
  else if env_replay env then hold tf r
  else publish (slot_key s, tf, st) (count_sealed r).

Definition on_amended (env : TickEnv) (tf : TfIndex) (st : LiveCandleState) (r : Run) : Run :=
  let s := run_slot r in
  let before := started_before_capture (lc_bucket_start st) (capture_from (env_live_from env) s) in
  if sealed_is_suppressed tf (env_replay env) before s then keep_back r
  else if env_replay env then hold tf r
  else publish (slot_key s, tf, st) (count_amended r).

(** What a frame is told: the bucket baseline and the signed volume. *)
Definition frame_input (env : TickEnv) (f : TickFacts) (baseline first_base first_mask : Z)
    (extremes : SessionExtremeDelta) (signed : option Z) (tf : TfIndex) : TickInput :=
  let '(b, g) := if has_bit first_mask tf then (first_base, None) else (baseline, signed) in
  mkInput (fa_tick f) (fa_prices f) b (env_policy env) (fa_cumulative f) extremes g (fa_secs f) (fa_stale f).

Definition frame_step (env : TickEnv) (f : TickFacts) (input : TfIndex -> TickInput)
    (any_held next_partial : bool) (r : Run) (tf : TfIndex) : Run :=
  let r := release_first env f any_held tf r in
  let '(outcome, c) := consume_tick_with_extremes tf (input tf) (cell (run_slot r)) in
  let r := { r with run_slot ::= fun s => { s with cell := c } } in
  match outcome with
  | Updated => r
  | Sealed st => on_sealed env next_partial tf st r
  | AmendedLate st => on_amended env tf st r
  | DiscardLate => count_late r
  end.

(** After the frames: taint of the handed-over buckets, the replay frontier, the
    settling of the tick rule, the volume baseline. *)
Definition mark_frontier (f : TickFacts) (s : InstrumentSlot) : InstrumentSlot :=
  let frontier := replay_gap_frontier s in
  let s := foldl (fun s tf =>
    let start := open_bucket_start tf (cell s) in
    if negb (start =? 0) && (start <=? frontier)
    then { s with replay_open_partial ::= fun m => set_bit m tf true } else s) s ALL in
  if u32_saturating_add frontier MAX_BUCKET_SECS <? fa_secs f
  then { s with replay_gap_frontier := 0 } else s.

Definition settle_rule (env : TickEnv) (f : TickFacts) (baseline : Z) (untrusted_before : bool)
    (signed : option Z) (s : InstrumentSlot) : InstrumentSlot :=
  if replay_settling s && negb (fa_gap_now f) && negb (fa_stale f) && (baseline <? fa_cumulative f) then
    let exact := env_replay env && negb untrusted_before && bool_decide (is_Some signed) &&
                 negb (last_tick_sign s =? 0) in
    let s := if exact then s else
      { s with replay_open_partial ::=
          (fun m => Z.lor m (Z.ldiff REPLAY_ALL_TF_MASK (replay_handover_kept s))) } in
    if last_tick_sign s =? 0 then s else { s with replay_settling := false }
  else s.

Definition raise_baseline (f : TickFacts) (s : InstrumentSlot) : InstrumentSlot :=
  if last_cumulative s <? fa_cumulative f then { s with last_cumulative := fa_cumulative f } else s.

Definition finish_tick (env : TickEnv) (f : TickFacts) (baseline : Z) (untrusted_before first_after : bool)
    (signed : option Z) (s : InstrumentSlot) : InstrumentSlot :=
  let s := if first_after && negb (env_replay env)
           then { s with replay_taint_open := REPLAY_ALL_TF_MASK } else s in
  let s := if env_replay env && negb (replay_gap_frontier s =? 0) then mark_frontier f s else s in
  raise_baseline f (settle_rule env f baseline untrusted_before signed s).

(** The facts of a tick, and the slot once it has noted it. *)
Definition tick_facts (env : TickEnv) (t : ParsedTick) (override : option Z) (fold_secs : Z) (ltp : f64)
    (s : InstrumentSlot) : TickFacts * InstrumentSlot :=
  let '(prices, memo) := from_tick_memo t ltp (widen_memo s) in
  let s := note_first_receipt env t (sync_replay_gap (env_epoch env) { s with widen_memo := memo }) in
  let cumulative := resolve_cumulative t override fold_secs s in
  let stale := volume_baseline_seeded s && (cumulative <? last_cumulative s) in
  (mkFacts t prices fold_secs cumulative stale (replay_gap_rebase_pending s && negb stale)
     (negb (volume_baseline_seeded s)), s).

(** The slot with its baseline seeded or moved past a gap. *)
Definition anchor (env : TickEnv) (f : TickFacts) (s : InstrumentSlot) : InstrumentSlot :=
  anchor_gap env f (seed_baseline f (listen_window env f (note_trade f s))).

(** The tick rule's verdict and the slot that remembers it. *)
Definition classify (env : TickEnv) (f : TickFacts) (prev_ltp : f64) (first_after : bool) (baseline : Z)
    (s : InstrumentSlot) : option Z * InstrumentSlot :=
  if fa_stale f then (Some 0, s) else
  let '(signed, sign) := classify_tick_volume (if first_after then f64_nan else prev_ltp)
    (tp_last_traded_price (fa_prices f)) (u64_saturating_sub (fa_cumulative f) baseline) (last_tick_sign s) in
  (signed, { s with last_tick_sign := sign }).

Definition is_restart (f : TickFacts) (s : InstrumentSlot) : bool :=
  (fa_cumulative f <? last_cumulative s) &&
  (CUMULATIVE_RESTART_DROP_FLOOR <=? last_cumulative s - fa_cumulative f).

Definition reanchor (f : TickFacts) (restarted : bool) (s : InstrumentSlot) : InstrumentSlot :=
  if restarted then { s with last_cumulative := fa_cumulative f;
                             cell ::= rebase_open_buckets (fa_cumulative f) } else s.

Definition slot_consume (env : TickEnv) (t : ParsedTick) (override : option Z) (fold_secs : Z) (ltp : f64)
    (s : InstrumentSlot) : Run :=
  let '(f, s) := tick_facts env t override fold_secs ltp s in
  let prev_ltp := last_ltp s in
  let repeat_candidate := is_repeat_candidate f s in
  let last_counted_secs := last_trade_ts s in
  let adv := tick_advanced f s in
  let s := anchor env f s in
  let baseline := last_cumulative s in
  let '(first_base, first_mask) := first_buckets env f s in
  let '(extremes, c) := observe_session_extremes_widened t fold_secs (fa_prices f) (cell s) in
  let s := { s with cell := c } in
  if repeat_candidate && delta_is_empty extremes then
    mkRun (consume_repeat env f s) { default_stats with repeat_quote := true } [] 0
  else
    let untrusted_before := prev_price_untrusted s in
    let first_after := negb (fa_stale f) && untrusted_before && (baseline <? fa_cumulative f) in
    let '(signed, s) := classify env f prev_ltp first_after baseline (trust_again env f first_after s) in
    let restarted := is_restart f s in
    let s := hand_over env f restarted (reanchor f restarted s) in
    let next_partial := fa_seeded_now f || replay_gap_rebase_pending s in
    let s := mark_late env f (settle_gap env f restarted last_counted_secs s) in
    let r := foldl (frame_step env f (frame_input env f baseline first_base first_mask extremes signed)
                      (negb (replay_held s =? 0)) next_partial)
                   (mkRun s default_stats [] 0) ALL in
    { r with run_slot ::= finish_tick env f baseline untrusted_before first_after signed;
             run_stats ::= fun st => { st with advanced := adv } }.

(** * The aggregator *)

Record MultiTfAggregator : Type := mkAggregator {
  agg_slots : list InstrumentSlot;
  agg_index : gmap CompositeKey nat;
  strategy : LatePolicy;
  watermark_secs : Z;
  slots_exhausted_total : Z;
  exhausted_logged : bool;
  replay_mode : bool;
  replay_gap_epoch : Z;
  replay_suppressed_total : Z;
  live_capture_from_secs : Z;
  first_bar_includes_auction : bool;
  replay_last_frame_secs : Z;
  capture_start_provisional : bool;
  catch_up_margin_secs : Z }.

Definition new_aggregator (policy : LatePolicy) : MultiTfAggregator := {|
  agg_slots := []; agg_index := ∅; strategy := policy; watermark_secs := 0;
  slots_exhausted_total := 0; exhausted_logged := false; replay_mode := false; replay_gap_epoch := 0;
  replay_suppressed_total := 0; live_capture_from_secs := 0;
  first_bar_includes_auction := FIRST_BAR_INCLUDES_PRE_OPEN_AUCTION; replay_last_frame_secs := 0;
  capture_start_provisional := false; catch_up_margin_secs := DEFAULT_CATCH_UP_MARGIN_SECS |}.

Definition agg_len (a : MultiTfAggregator) : Z := Z.of_nat (length (agg_slots a)).

(** The slot of an instrument, pushed when it is new and there is room. *)
Definition slot_index (key : CompositeKey) (a : MultiTfAggregator) : option nat * MultiTfAggregator :=
  match agg_index a !! key with
  | Some idx => (Some idx, a)
  | None =>
      if AGGREGATOR_MAX_SLOTS <=? agg_len a then
        (None, { a with slots_exhausted_total ::= (fun n => u64_saturating_add n 1); exhausted_logged := true })
      else
        let idx := length (agg_slots a) in
        (Some idx, { a with agg_slots ::= (fun l => l ++ [new_slot key (replay_gap_epoch a)]);
                            agg_index ::= <[key := idx]> })
  end.

Definition update_slot (idx : nat) (g : InstrumentSlot -> InstrumentSlot) (a : MultiTfAggregator)
    : MultiTfAggregator := { a with agg_slots ::= alter g idx }.

Definition live_proof_slot (key : CompositeKey) (received : Z) (a : MultiTfAggregator)
    : option (nat * Z) * MultiTfAggregator :=
  if replay_mode a then (None, a) else
  match receipt_ist_secs_of received with
  | None => (None, a)
  | Some proof =>
      if proof / 86400 <? watermark_secs a / 86400 then (None, a) else
      match agg_index a !! key with
      | Some idx => (Some (idx, proof), a)
      | None =>
          if AGGREGATOR_MAX_SLOTS - AGGREGATOR_MAX_SLOTS / UNTRADED_PROOF_SLOT_RESERVE_DIVISOR <=? agg_len a
          then (None, a)
          else let '(idx, a) := slot_index key a in ((fun i => (i, proof)) <$> idx, a)
      end
  end.

Definition record_untraded_proof (key : CompositeKey) (received : Z) (a : MultiTfAggregator)
    : MultiTfAggregator :=
  let '(found, a) := live_proof_slot key received a in
  match found with
  | None => a
  | Some (idx, proof) =>
      update_slot idx (fun s => if volume_baseline_seeded s then s
        else { s with untraded_proof_ist_secs ::= fun p => Z.max p proof }) a
  end.

Definition record_pre_open_auction (key : CompositeKey) (received cumulative : Z) (a : MultiTfAggregator)
    : MultiTfAggregator :=
  if first_bar_includes_auction a || (cumulative =? 0) then a else
  let '(found, a) := live_proof_slot key received a in
  match found with
  | None => a
  | Some (idx, _) =>
      update_slot idx (fun s => if volume_baseline_seeded s then s
        else { s with pre_open_auction_volume ::= fun v =>
                        if v =? AUCTION_VOLUME_UNKNOWN then cumulative else Z.max v cumulative }) a
  end.

Definition confirm_capture_start (received : Z) (a : MultiTfAggregator) : MultiTfAggregator :=
  match receipt_ist_secs received with
  | None => a
  | Some receipt =>
      let a := { a with capture_start_provisional := false } in
      if receipt <=? live_capture_from_secs a then a else { a with live_capture_from_secs := receipt }
  end.

(** The gates of a tick, in order: the stats of a refusal, or the second it folds
    at and its price. *)
Definition admit_clock (a : MultiTfAggregator) (received : Z) : MultiTfAggregator :=
  if replay_mode a then
    match receipt_ist_secs received with
    | Some receipt => { a with replay_last_frame_secs ::= fun n => Z.max n receipt }
    | None => a
    end
  else if capture_start_provisional a then confirm_capture_start received a else a.

Definition admit_stamp (key : CompositeKey) (t : ParsedTick) (a : MultiTfAggregator)
    : option ConsumeStats * MultiTfAggregator :=
  if (exchange_timestamp t =? 0) && negb (received_at_nanos t =? 0) then
    (Some { default_stats with untraded_timestamp := true },
     if f64_eqb (last_traded_price t) f32_zero then record_untraded_proof key (received_at_nanos t) a else a)
  else if (exchange_timestamp t <? MIN_PLAUSIBLE_EXCHANGE_TS_SECS) ||
          (MAX_PLAUSIBLE_EXCHANGE_TS_SECS <? exchange_timestamp t) then
    (Some (if received_at_nanos t =? 0 then { default_stats with refused_timestamp := true }
           else { default_stats with out_of_band_timestamp := true }), a)
  else (None, a).

Definition admit_price (key : CompositeKey) (t : ParsedTick) (a : MultiTfAggregator)
    : option ConsumeStats * MultiTfAggregator :=
  let p := last_traded_price t in
  if f64_eqb p f32_zero then
    (Some { default_stats with untraded_sentinel := true },
     match receipt_ist_secs_of (received_at_nanos t) with
     | Some receipt =>
         if exchange_timestamp t / 86400 <? receipt / 86400
         then record_untraded_proof key (received_at_nanos t) a else a
     | None => a
     end)
  else if negb (is_finite p && SFltb f32_zero p && SFleb p MAX_PLAUSIBLE_LTP &&
                f64_ltb f64_zero (f32_to_f64_clean p)) then
    (Some { default_stats with refused_price := true }, a)
  else (None, a).

Definition admit_day (key : CompositeKey) (t : ParsedTick) (fold_secs : Z) (a : MultiTfAggregator)
    : option ConsumeStats * MultiTfAggregator :=
  if 0 <? received_at_nanos t then
    let receipt := received_at_nanos t / 1000000000 + IST_UTC_OFFSET_SECS in
    if receipt / 86400 <? fold_secs / 86400 then
      (Some { default_stats with future_trading_day := true; receipt_day_mismatch := true }, a)
    else if fold_secs / 86400 <? receipt / 86400 then
      (Some { default_stats with stale_trading_day := true; receipt_day_mismatch := true },
       record_untraded_proof key (received_at_nanos t) a)
    else if i64_saturating_add receipt FOLD_FUTURE_TRADE_TIME_SKEW_SECS <? fold_secs then
      (Some { default_stats with out_of_band_timestamp := true }, a)
    else (None, a)
  else (None, a).

Definition is_out_of_session (muhurat : bool) (secs_of_day : Z) : bool :=
  ((secs_of_day <? CANDLE_SESSION_OPEN_SECS_OF_DAY_IST) || (MARKET_CLOSE_SECS_OF_DAY_IST <=? secs_of_day)) &&
  negb ((MUHURAT_PERSIST_START_SECS_OF_DAY_IST <=? secs_of_day) &&
        (secs_of_day <? MUHURAT_PERSIST_END_SECS_OF_DAY_IST) && muhurat).

Definition admit_session (muhurat : bool) (key : CompositeKey) (t : ParsedTick)
    (cumulative_volume_override : option Z) (fold_secs : Z) (a : MultiTfAggregator)
    : option ConsumeStats * MultiTfAggregator :=
  let a := if watermark_secs a <? fold_secs then { a with watermark_secs := fold_secs } else a in
  if fold_secs / 86400 <? watermark_secs a / 86400 then
    (Some { default_stats with stale_trading_day := true }, a)
  else
    let secs_of_day := fold_secs mod 86400 in
    if is_out_of_session muhurat secs_of_day then
      (Some { default_stats with out_of_session := true },
       if (secs_of_day <? CANDLE_SESSION_OPEN_SECS_OF_DAY_IST) && is_equity (exchange_segment_code t)
       then record_pre_open_auction key (received_at_nanos t)
              (default (volume t) cumulative_volume_override) a
       else a)
    else (None, a).

(** [gate ;; rest]: a refusal ends the tick. *)
Definition gate {A} (r : option ConsumeStats * MultiTfAggregator)
    (rest : MultiTfAggregator -> ConsumeStats * A * MultiTfAggregator) (none : A)
    : ConsumeStats * A * MultiTfAggregator :=
  match r with
  | (Some refusal, a) => (refusal, none, a)
  | (None, a) => rest a
  end.

Definition fold_admitted (key : CompositeKey) (t : ParsedTick) (override : option Z) (fold_secs : Z)
    (a : MultiTfAggregator) : ConsumeStats * list Seal * MultiTfAggregator :=
  let '(idx, a) := slot_index key a in
  match idx with
  | None => ({ default_stats with slot_exhausted := true }, [], a)
  | Some idx =>
      let receipt := receipt_ist_secs (received_at_nanos t) in
      let late_bound := if replay_mode a then
          Z.max (match receipt with Some secs => u32_saturating_add secs REPLAY_FRONTIER_SKEW_SECS | None => 0 end)
                (watermark_secs a)
        else 0 in
      let a := if replay_mode a then
          { a with replay_last_frame_secs ::= fun n => Z.max n (default fold_secs receipt) } else a in
      match agg_slots a !! idx with
      | None => ({ default_stats with slot_exhausted := true }, [], a)
      | Some s =>
          let env := mkTickEnv (replay_mode a) (replay_gap_epoch a) (live_capture_from_secs a) late_bound
            (replay_last_frame_secs a) (catch_up_margin_secs a) (strategy a) (first_bar_includes_auction a) in
          let r := slot_consume env t override fold_secs (f32_to_f64_clean (last_traded_price t)) s in
          (run_stats r, run_out r,
           { update_slot idx (fun _ => run_slot r) a with
             replay_suppressed_total ::= fun n => u64_saturating_add n (run_suppressed r) })
      end
  end.

Definition consume_tick (muhurat : bool) (feed : Feed) (t : ParsedTick)
    (cumulative_volume_override : option Z) (a : MultiTfAggregator)
    : ConsumeStats * list Seal * MultiTfAggregator :=
  let key := (feed, security_id t, exchange_segment_code t) in
  let fold_secs := fold_clock_ist_secs (exchange_timestamp t) in
  gate (admit_stamp key t (admit_clock a (received_at_nanos t))) (fun a =>
  gate (admit_price key t a) (fun a =>
  gate (admit_day key t fold_secs a) (fun a =>
  gate (admit_session muhurat key t cumulative_volume_override fold_secs a) (fun a =>
    fold_admitted key t cumulative_volume_override fold_secs a) []) []) []) [].

(** The ring takes every bar the tick hands on; the ones it displaces go out. *)
Definition buffer_seals (out : list Seal) (ring : SealRing) : list BufferedSeal * SealRing :=
  foldl (fun acc b =>
    let '(evicted, ring) := acc in
    let '(feed, security_id, segment_code, tf, st) := b in
    let '(o, ring) := try_buffer (mkSeal security_id segment_code tf st feed) ring in
    (match o with DroppedOldest e => evicted ++ [e] | Buffered => evicted end, ring)) ([], ring) out.

Definition consume_tick_into_ring (muhurat : bool) (feed : Feed) (t : ParsedTick) (override : option Z)
    (ring : SealRing) (a : MultiTfAggregator)
    : ConsumeStats * list BufferedSeal * SealRing * MultiTfAggregator :=
  let '(st, out, a) := consume_tick muhurat feed t override a in
  let '(evicted, ring) := buffer_seals out ring in (st, evicted, ring, a).

(** * Sweeps *)

(** A sweep runs over slots and, in each, over the frames; it gathers the bars
    handed on and the number kept back. *)
Record Sweep : Type := mkSweep { sw_slot : InstrumentSlot; sw_out : list Seal; sw_suppressed : Z }.

Definition sweep_release (live_from : Z) (tf : TfIndex) (w : Sweep) : Sweep :=
  let '(released, out, s) := release_held live_from tf (sw_slot w) in
  mkSweep s (sw_out w ++ out)
    (match released with Suppressed => u64_saturating_add (sw_suppressed w) 1 | _ => sw_suppressed w end).

Definition sweep_out (suppress : bool) (tf : TfIndex) (st : LiveCandleState) (w : Sweep) : Sweep :=
  if suppress then { w with sw_suppressed ::= fun n => u64_saturating_add n 1 }
  else { w with sw_out ::= fun l => l ++ [(slot_key (sw_slot w), tf, st)] }.

Definition sweep_before (live_from : Z) (st : LiveCandleState) (s : InstrumentSlot) : bool :=
  started_before_capture (lc_bucket_start st) (capture_from live_from s).

Definition force_frame (replay : bool) (live_from margin last_frame : Z) (w : Sweep) (tf : TfIndex) : Sweep :=
  let w := sweep_release live_from tf w in
  let nothing_open := is_uninitialised (snapshot tf (cell (sw_slot w))) in
  let w := if nothing_open then w
           else { w with sw_slot ::= hold_unconfirmed_kept tf margin last_frame } in
  let '(out, c) := force_seal tf (cell (sw_slot w)) in
  let w := { w with sw_slot ::= fun s => { s with cell := c } } in
  match out with
  | None => w
  | Some st =>
      let before := sweep_before live_from st (sw_slot w) in
      let '(suppress, s) :=
        if nothing_open then (sealed_is_suppressed tf replay before (sw_slot w), sw_slot w)
        else take_open_partial tf replay before (sw_slot w) in
      sweep_out suppress tf st { w with sw_slot := s }
  end.

(** The slot between days. *)
Definition day_reset (s : InstrumentSlot) : InstrumentSlot :=
  { s with last_cumulative := 0; volume_baseline_seeded := false; untraded_proof_ist_secs := 0;
           pre_open_auction_volume := AUCTION_VOLUME_UNKNOWN; replay_next_partial := 0;
           handover_listen_pending := false; handover_listen_secs := 0; prev_price_untrusted := false;
           handover_first_receipt_secs := 0; last_tick_sign := 0; last_trade_ts := 0 }.

Definition force_slot (replay : bool) (epoch live_from margin last_frame : Z) (s : InstrumentSlot) : Sweep :=
  let w := foldl (force_frame replay live_from margin last_frame)
                 (mkSweep (sync_replay_gap epoch s) [] 0) ALL in
  { w with sw_slot ::= day_reset }.

Definition catch_up_frame (replay : bool) (live_from margin last_frame cutoff : Z) (w : Sweep) (tf : TfIndex)
    : Sweep :=
  let s := sw_slot w in
  let w := if has_bit (replay_held s) tf && would_catch_up_seal tf cutoff (cell s)
           then sweep_release live_from tf w else w in
  let w := if would_catch_up_seal tf cutoff (cell (sw_slot w))
           then { w with sw_slot ::= hold_unconfirmed_kept tf margin last_frame } else w in
  let '(out, c) := catch_up_seal tf cutoff (cell (sw_slot w)) in
  let w := { w with sw_slot ::= fun s => { s with cell := c } } in
  match out with
  | None => w
  | Some st =>
      let '(suppress, s) := take_open_partial tf replay (sweep_before live_from st (sw_slot w)) (sw_slot w) in
      let w := { w with sw_slot := s } in
      if suppress then sweep_out true tf st w
      else if replay then { w with sw_slot ::= fun s => { s with replay_held ::= fun m => set_bit m tf true } }
      else sweep_out false tf st w
  end.

Definition catch_up_slot (replay : bool) (epoch live_from margin last_frame cutoff : Z) (s : InstrumentSlot)
    : Sweep :=
  foldl (catch_up_frame replay live_from margin last_frame cutoff) (mkSweep (sync_replay_gap epoch s) [] 0) ALL.

(** The sweeps of all slots, or of a range of them. *)
Definition sweep_slots (sweep : InstrumentSlot -> Sweep) (from stop : nat) (a : MultiTfAggregator)
    : list Seal * MultiTfAggregator :=
  let ws := sweep <$> take (stop - from) (drop from (agg_slots a)) in
  (ws ≫= sw_out,
   { a with agg_slots ::= (fun l => take from l ++ (sw_slot <$> ws) ++ drop stop l);
            replay_suppressed_total ::= fun n =>
              u64_saturating_add n (foldr (fun w m => sw_suppressed w + m) 0 ws) }).

Definition sweep_margin (a : MultiTfAggregator) : Z :=
  Z.max (catch_up_margin_secs a) REPLAY_FRONTIER_SKEW_SECS.

Definition force_seal_all (a : MultiTfAggregator) : list Seal * MultiTfAggregator :=
  sweep_slots (force_slot (replay_mode a) (replay_gap_epoch a) (live_capture_from_secs a) (sweep_margin a)
                 (replay_last_frame_secs a)) 0 (length (agg_slots a))
    { a with capture_start_provisional := false }.

(** The slots from [from_slot], at most [max_slots] of them, and where to go on. *)
Definition catch_up_seal_slots (cutoff_secs : Z) (from_slot max_slots : nat) (a : MultiTfAggregator)
    : list Seal * nat * MultiTfAggregator :=
  let len := length (agg_slots a) in
  let start := Nat.min from_slot len in
  let stop := Nat.min (start + max_slots) len in
  let '(out, a') := sweep_slots (catch_up_slot (replay_mode a) (replay_gap_epoch a) (live_capture_from_secs a)
                      (sweep_margin a) (replay_last_frame_secs a) cutoff_secs) start stop a in
  (out, stop, a').

Definition catch_up_seal_all (cutoff_secs : Z) (a : MultiTfAggregator) : list Seal * MultiTfAggregator :=
  let '(out, _, a) := catch_up_seal_slots cutoff_secs 0 (length (agg_slots a)) a in (out, a).

(** The open buckets are closed and thrown away. *)
Definition withhold_frame (acc : Z * Z * InstrumentSlot) (tf : TfIndex) : Z * Z * InstrumentSlot :=
  let '(withheld, carries, s) := acc in
  if is_uninitialised (snapshot tf (cell s)) then
    let '(had, c) := discard_carry tf (cell s) in
    (withheld, if had then carries + 1 else carries, { s with cell := c })
  else
    let '(out, c) := force_seal tf (cell s) in
    (match out with Some _ => withheld + 1 | None => withheld end, carries, { s with cell := c }).

Definition withhold_open_buckets (a : MultiTfAggregator) : Z * Z * MultiTfAggregator :=
  let '(withheld, carries, slots) :=
    foldl (fun acc s => let '(w, c, l) := acc in
             let '(w, c, s) := foldl withhold_frame (w, c, s) ALL in (w, c, l ++ [s]))
          (0, 0, []) (agg_slots a) in
  (withheld, carries, { a with agg_slots := slots }).

(** * The replay of a crash log and the hand-over to the live feed *)

Definition mark_replay_gap (a : MultiTfAggregator) : MultiTfAggregator :=
  { a with replay_gap_epoch ::= fun e => (e + 1) mod 2 ^ 64 }.
Definition set_replay_mode (on : bool) (a : MultiTfAggregator) : MultiTfAggregator :=
  { a with replay_mode := on }.
Definition set_live_capture_start (secs : Z) (a : MultiTfAggregator) : MultiTfAggregator :=
  { a with live_capture_from_secs := secs }.
Definition set_catch_up_margin_secs (secs : Z) (a : MultiTfAggregator) : MultiTfAggregator :=
  { a with catch_up_margin_secs := secs }.
Definition reset_watermark (a : MultiTfAggregator) : MultiTfAggregator := { a with watermark_secs := 0 }.
Definition seed_watermark_at_least (secs : Z) (a : MultiTfAggregator) : MultiTfAggregator :=
  { a with watermark_secs ::= fun w => Z.max w secs }.

Definition open_mask (s : InstrumentSlot) : Z :=
  foldl (fun m tf => if is_uninitialised (snapshot tf (cell s)) then m else set_bit m tf true) 0 ALL.

Definition hand_over_slot (ended_on_gap : bool) (epoch live_from : Z) (s : InstrumentSlot) : Sweep :=
  let s := sync_replay_gap epoch s in
  let opens := open_mask s in
  let taint := if ended_on_gap then opens else Z.land (replay_open_partial s) opens in
  let s := { s with replay_taint_open := taint;
                    replay_taint_sealed := (if ended_on_gap then REPLAY_ALL_TF_MASK else replay_sealed_partial s);
                    replay_handover_kept := Z.ldiff opens taint;
                    handover_listen_pending := negb (live_from =? 0);
                    handover_first_receipt_secs := 0; handover_listen_secs := 0 } in
  let w := foldl (fun w tf => sweep_release live_from tf w) (mkSweep s [] 0) ALL in
  { w with sw_slot ::= fun s =>
      { s with replay_gap_epoch_seen := (epoch + 1) mod 2 ^ 64; last_tick_sign := 0;
               replay_gap_rebase_pending := true; replay_gap_frontier := 0; replay_next_partial := 0;
               replay_open_partial ::=
                 fun m => Z.lor (Z.ldiff REPLAY_ALL_TF_MASK opens) (Z.land m opens) } }.

Definition finish_replay (ended_on_gap : bool) (a : MultiTfAggregator) : list Seal * MultiTfAggregator :=
  if negb (replay_mode a) then ([], a) else
  let '(out, a') := sweep_slots (hand_over_slot ended_on_gap (replay_gap_epoch a) (live_capture_from_secs a))
                      0 (length (agg_slots a)) a in
  (out, { a' with replay_gap_epoch := (replay_gap_epoch a + 1) mod 2 ^ 64; replay_mode := false;
                  capture_start_provisional := negb (live_capture_from_secs a =? 0) }).

(** * Views *)

Definition lookup_slot (key : CompositeKey) (a : MultiTfAggregator) : option InstrumentSlot :=
  idx ← agg_index a !! key; agg_slots a !! idx.

Definition agg_snapshot (key : CompositeKey) (tf : TfIndex) (a : MultiTfAggregator) : option LiveCandleState :=
  (fun s => snapshot tf (cell s)) <$> lookup_slot key a.

Definition bar_for_window (key : CompositeKey) (tf : TfIndex) (start : Z) (a : MultiTfAggregator)
    : option LiveCandleState :=
  s ← lookup_slot key a;
  let open := snapshot tf (cell s) in
  if lc_bucket_start open =? start then Some open
  else st ← last_sealed_snapshot tf (cell s);
       if lc_bucket_start st =? start then Some st else None.

Record WindowBar : Type := mkWindowBar {
  wb_bar : option LiveCandleState;
  open_bucket_ist_secs : Z;
  last_sealed_bucket_ist_secs : Z }.

Definition window_bar (key : CompositeKey) (tf : TfIndex) (start : Z) (a : MultiTfAggregator)
    : option WindowBar :=
  s ← lookup_slot key a;
  let open := snapshot tf (cell s) in
  let sealed := last_sealed_snapshot tf (cell s) in
  let bar := if lc_bucket_start open =? start then Some open
             else st ← sealed; if lc_bucket_start st =? start then Some st else None in
  Some (mkWindowBar bar (lc_bucket_start open) (from_option lc_bucket_start 0 sealed)).

Definition agg_last_ltp (key : CompositeKey) (a : MultiTfAggregator) : option f64 :=
  s ← lookup_slot key a;
  if is_finite (last_ltp s) then Some (last_ltp s) else None.

(** * The wrapped counter *)

Lemma land_ones_span x : 0 <= x -> Z.land x (CUMULATIVE_WRAP_SPAN - 1) = x mod CUMULATIVE_WRAP_SPAN.
Proof.
  intros H. change (CUMULATIVE_WRAP_SPAN - 1) with (Z.ones 32). rewrite Z.land_ones by lia. done.
Qed.

Lemma ldiff_ones_span x : 0 <= x -> Z.ldiff x (CUMULATIVE_WRAP_SPAN - 1) = x - x mod CUMULATIVE_WRAP_SPAN.
Proof.
  intros H. change (CUMULATIVE_WRAP_SPAN - 1) with (Z.ones 32).
  rewrite Z.ldiff_ones_r by lia. rewrite Z.shiftl_mul_pow2, Z.shiftr_div_pow2 by lia.
  change (2 ^ 32) with CUMULATIVE_WRAP_SPAN. unfold CUMULATIVE_WRAP_SPAN.
  pose proof (Z.div_mod x 4294967296). lia.
Qed.

Lemma unwrap_exact counter last :
  0 <= last -> 0 <= counter -> counter + CUMULATIVE_WRAP_SPAN <= u64_max ->
  Z.abs (counter - last) < CUMULATIVE_WRAP_WINDOW ->
  unwrap_u32_cumulative (counter mod CUMULATIVE_WRAP_SPAN) last true = counter.
Proof.
  intros Hl Hc Hu Hd. unfold unwrap_u32_cumulative. cbn [negb].
  rewrite land_ones_span, ldiff_ones_span by done.
  unfold CUMULATIVE_WRAP_SPAN, CUMULATIVE_WRAP_WINDOW, u64_saturating_add, clamp, u64_max in *.
  pose proof (Z.div_mod counter 4294967296 ltac:(lia)). pose proof (Z.mod_pos_bound counter 4294967296 ltac:(lia)).
  pose proof (Z.div_mod last 4294967296 ltac:(lia)). pose proof (Z.mod_pos_bound last 4294967296 ltac:(lia)).
  set (q := counter / 4294967296) in *. set (r := counter mod 4294967296) in *.
  set (p := last / 4294967296) in *. set (l := last mod 4294967296) in *.
  assert (q = p \/ q = p + 1 \/ q = p - 1) by lia.
  zcases; lia.
Qed.

(** The counter's low 32 bits and the last counter within a quarter turn of
    the wrap window give the counter back, across any number of wraps, in either
    direction. *)
Theorem unwrap_recovers_the_counter counter last :
  0 <= last -> 0 <= counter -> counter + CUMULATIVE_WRAP_SPAN <= u64_max ->
  Z.abs (counter - last) < CUMULATIVE_WRAP_WINDOW ->
  unwrap_u32_cumulative (counter mod CUMULATIVE_WRAP_SPAN) last true = counter.
Proof. apply unwrap_exact. Qed.

Lemma unwrap_recovers_the_counter_witness :
  unwrap_u32_cumulative 100 4294967200 true = 4294967396.
Proof. apply (unwrap_recovers_the_counter 4294967396 4294967200); numbers. Defined.

(** * The tick rule *)

Lemma ltb_asym x y : f64_ltb x y = true -> f64_ltb y x = false.
Proof.
  intros H. destruct (f64_ltb_not_nan _ _ H). rewrite f64_ltb_negb by done. by rewrite f64_ltb_leb.
Qed.

Lemma eqb_not_ltb x y : f64_eqb x y = true -> f64_ltb x y = false /\ f64_ltb y x = false.
Proof.
  intros H. assert (Hl : f64_leb x y = true).
  { revert H. unfold f64_eqb, f64_leb, SFeqb, SFleb. by destruct (SFcompare x y) as [[]|]. }
  split.
  - revert H. unfold f64_eqb, f64_ltb, SFeqb, SFltb. by destruct (SFcompare x y) as [[]|].
  - destruct (proj1 (f64_leb_key _ _) Hl) as (? & ? & _). rewrite f64_ltb_negb by done. by rewrite Hl.
Qed.

(** The tick rule signs a traded volume by the move of the price, carries the
    last sign over an unchanged price, gives no sign before the first move, and
    its magnitude is the volume clamped to the signed width. *)
Theorem tick_rule prev price delta carry :
  0 <= delta -> carry = 1 \/ carry = -1 \/ carry = 0 ->
  let '(signed, carry') := classify_tick_volume prev price delta carry in
  (forall v, signed = Some v -> Z.abs v = Z.min delta i64_max) /\
  (carry' = 1 \/ carry' = -1 \/ carry' = 0) /\
  (0 < delta -> is_finite prev = true -> f64_ltb f64_zero prev = true ->
     is_finite price = true -> f64_ltb f64_zero price = true ->
     (f64_ltb prev price = true -> signed = Some (Z.min delta i64_max) /\ carry' = 1) /\
     (f64_ltb price prev = true -> signed = Some (- Z.min delta i64_max) /\ carry' = -1) /\
     (f64_eqb prev price = true -> carry' = carry /\
        signed = (if carry =? 0 then None else Some (carry * Z.min delta i64_max)))).
Proof.
  intros Hd Hk. unfold classify_tick_volume.
  set (m := if delta <=? i64_max then delta else i64_max).
  assert (Hm : m = Z.min delta i64_max) by (subst m; zcases; lia). assert (0 < i64_max) by done.
  rewrite !positive_price_guard. destruct (Z.eqb_spec delta 0) as [->|Hne].
  { split; [intros ? [= <-]; zints|]. split; [done|lia]. }
  destruct (positive_price price) eqn:Ep; cbn [negb].
  2: { split; [done|]. split; [done|]. intros _ _ _ F1 F2. unfold positive_price in Ep. by rewrite F1, F2 in Ep. }
  destruct (positive_price prev) eqn:Eq; cbn [negb].
  2: { split; [done|]. split; [done|]. intros _ F1 F2. unfold positive_price in Eq. by rewrite F1, F2 in Eq. }
  rewrite !Hm. destruct (f64_ltb prev price) eqn:El.
  { split; [intros ? [= <-]; lia|]. split; [by left|]. intros _ _ _ _ _. split; [done|].
    pose proof (ltb_asym _ _ El) as Ea. split; [by rewrite Ea|]. intros [E _]%eqb_not_ltb. by rewrite El in E. }
  destruct (f64_ltb price prev) eqn:Eg.
  { split; [intros ? [= <-]; lia|]. split; [by right; left|]. intros _ _ _ _ _. split; [done|]. split; [done|].
    intros [_ E]%eqb_not_ltb. by rewrite Eg in E. }
  split; [intros v; destruct Hk as [-> |[-> | ->]]; simpl; intros [= <-]; lia|]. split; [done|].
  intros _ _ _ _ _. split; [done|]. split; [done|]. intros _. split; [done|].
  destruct Hk as [-> |[-> | ->]]; simpl; f_equal; lia.
Qed.

Definition rise : f64 := f64_of_Z 101.

Lemma tick_rule_witness :
  classify_tick_volume (f64_of_Z 100) rise 40 (-1) = (Some 40, 1) /\ (forall v, Some 40 = Some v -> Z.abs v = 40).
Proof.
  split; [by vm_compute|]. pose proof (tick_rule (f64_of_Z 100) rise 40 (-1) ltac:(done) ltac:(auto)) as H.
  replace (classify_tick_volume (f64_of_Z 100) rise 40 (-1)) with (Some 40, 1) in H by by vm_compute.
  destruct H as [H _]. intros v Hv. by rewrite (H v Hv).
Defined.
