(* ===== verification/AggregatorSlots.v ===== *)
(** The parts of the aggregator's tick and sweeps on one slot: what each leaves
    alone, the bars a slot hands on, and the agreement of slots and index. *)
From stdpp Require Import functions.
From coqutil Require Import Datatypes.RecordSettersUsingExistingGetters.
From S2P Require Import Prelude Bytes Float FeedTypes PricePrecision Candles AggregatorCell SealRing.
From S2P Require Import MultiTfAggregator.
Local Open Scope Z_scope.

#[global] Arguments RecordSettersUsingExistingGetters.const {E} newValue _ /.

(** * What the parts of a tick leave alone *)

(** The key and the cell: what a part that only keeps books leaves alone. *)
Definition kept (s s' : InstrumentSlot) : Prop := slot_key s' = slot_key s /\ cell s' = cell s.

#[global] Instance kept_refl : Reflexive kept.
Proof. by intros s. Qed.
#[global] Instance kept_trans : Transitive kept.
Proof. intros s s' s'' [? ?] [? ?]. split; congruence. Qed.

Ltac parts := repeat (case_match; cbn); try done.

Lemma foldl_ind {A B} (P : A -> Prop) (g : A -> B -> A) l a :
  P a -> (forall a b, P a -> P (g a b)) -> P (foldl g a l).
Proof. revert a. induction l as [|b l IH]; intros a Ha Hs; [done|]. apply IH; auto. Qed.

Section kept_parts.
Context (env : TickEnv) (f : TickFacts).
Implicit Types s : InstrumentSlot.

Lemma sync_kept e s : kept s (sync_replay_gap e s).
Proof. unfold sync_replay_gap. parts. Qed.

Lemma note_receipt_kept t s : kept s (note_first_receipt env t s).
Proof. unfold note_first_receipt. parts. Qed.

Lemma anchor_kept s : kept s (anchor env f s).
Proof.
  unfold anchor. transitivity (note_trade f s); [unfold note_trade; parts|].
  transitivity (listen_window env f (note_trade f s)); [unfold listen_window; parts|].
  transitivity (seed_baseline f (listen_window env f (note_trade f s))); [unfold seed_baseline; parts|].
  unfold anchor_gap. parts.
Qed.

Lemma trust_kept b s : kept s (trust_again env f b s).
Proof. unfold trust_again. parts. Qed.

Lemma classify_kept ltp b base s : kept s (snd (classify env f ltp b base s)).
Proof. unfold classify. destruct (fa_stale f); [done|]. by destruct (classify_tick_volume _ _ _ _). Qed.

Lemma at_risk_kept margin last s tf : kept s (taint_kept_tf_if_at_risk margin last s tf).
Proof. unfold taint_kept_tf_if_at_risk. parts. Qed.

Lemma hand_over_kept b s : kept s (hand_over env f b s).
Proof.
  unfold hand_over. destruct (_ && _); [|done]. unfold taint_kept_at_risk. destruct (_ =? 0); [done|].
  apply (foldl_ind (kept s)); [done|]. intros s' tf H. etransitivity; [exact H|apply at_risk_kept].
Qed.

Lemma mark_late_kept s : kept s (mark_late env f s).
Proof.
  unfold mark_late. destruct (_ =? 0); [done|]. apply (foldl_ind (kept s)); [done|].
  intros s' tf H. etransitivity; [exact H|]. unfold mark_late_frame. parts.
Qed.

Lemma finish_kept base b1 b2 signed s : kept s (finish_tick env f base b1 b2 signed s).
Proof.
  unfold finish_tick. set (s1 := if b2 && _ then _ else s). assert (H1 : kept s s1) by (subst s1; parts). clearbody s1.
  set (s2 := if _ && _ then mark_frontier f s1 else s1). assert (H2 : kept s1 s2).
  { subst s2. destruct (_ && _); [|done]. unfold mark_frontier. set (s3 := foldl _ _ _).
    assert (H3 : kept s1 s3).
    { subst s3. apply (foldl_ind (kept s1)); [done|]. intros s' tf H. etransitivity; [exact H|]. parts. }
    clearbody s3. destruct (_ <? _); [|done]. exact H3. }
  clearbody s2.
  transitivity s1; [done|]. transitivity s2; [done|].
  transitivity (settle_rule env f base b1 signed s2); [|unfold raise_baseline; parts].
  unfold settle_rule. parts.
Qed.

Lemma hold_kept tf margin last s : kept s (hold_unconfirmed_kept tf margin last s).
Proof. unfold hold_unconfirmed_kept. destruct (_ : bool); [apply at_risk_kept|done]. Qed.

Lemma release_kept live tf s : kept s (snd (release_held live tf s)).
Proof. unfold release_held. parts. Qed.

Lemma roll_kept tf b1 b2 b3 s : kept s (snd (roll_replay_bits tf b1 b2 b3 s)).
Proof. done. Qed.
End kept_parts.

(** * The bars of a slot *)

(** A bar handed on: the instrument's, of its frame, well formed. *)
Definition seal_ok (key : CompositeKey) (b : Seal) : Prop :=
  let '(k, tf, st) := b in k = key /\ init st /\ bar_ok tf st.

Definition slot_ok (key : CompositeKey) (s : InstrumentSlot) : Prop := slot_key s = key /\ cell_ok (cell s).

Lemma slot_ok_kept key s s' : kept s s' -> slot_ok key s -> slot_ok key s'.
Proof. intros [E1 E2] [? ?]. split; [congruence|by rewrite E2]. Qed.

Definition run_ok (key : CompositeKey) (r : Run) : Prop :=
  slot_ok key (run_slot r) /\ Forall (seal_ok key) (run_out r).

Section slot_bars.
Context (key : CompositeKey) (env : TickEnv) (f : TickFacts).
Implicit Types (s : InstrumentSlot) (r : Run).

Lemma sealed_snapshot_ok tf s bar : slot_ok key s -> last_sealed_snapshot tf (cell s) = Some bar ->
  seal_ok key (key, tf, bar).
Proof.
  intros [_ H] E. unfold last_sealed_snapshot in E. destruct (is_uninitialised _) eqn:Ei; [done|].
  injection E as <-. apply is_init in Ei. split; [done|]. split; [done|]. by apply H.
Qed.

Lemma release_ok live tf s : slot_ok key s ->
  let '(_, out, s') := release_held live tf s in slot_ok key s' /\ Forall (seal_ok key) out.
Proof.
  intros H. pose proof (release_kept live tf s) as Hk. unfold release_held in *.
  destruct (negb _); [done|]. cbn in *. destruct (last_sealed_snapshot tf (cell s)) as [bar|] eqn:E; [|done].
  pose proof (sealed_snapshot_ok tf s bar H E) as Hb.
  destruct (sealed_is_suppressed _ _ _ _); (split; [exact H|]); [done|].
  constructor; [|done]. destruct H as [-> _]. exact Hb.
Qed.

Lemma keep_back_ok r : run_ok key r -> run_ok key (keep_back r).
Proof. done. Qed.

Lemma frame_step_ok input any next r tf :
  (forall tf, input_ok (input tf)) -> run_ok key r ->
  run_ok key (frame_step env f input any next r tf).
Proof.
  intros Hi Hr. unfold frame_step. set (r1 := release_first env f any tf r).
  assert (H1 : run_ok key r1).
  { subst r1. unfold release_first. destruct (_ && _); [|done]. destruct Hr as [Hs Ho].
    pose proof (release_ok (env_live_from env) tf (run_slot r) Hs) as Hrel.
    destruct (release_held _ _ _) as [[rel out] s'], Hrel as [Hs' Hout].
    assert (Ho' : Forall (seal_ok key) (run_out r ++ out)) by (apply Forall_app; auto).
    destruct rel; by split. }
  clearbody r1. destruct H1 as [[Hk Hc] Ho].
  pose proof (fold_ok tf (input tf) (cell (run_slot r1)) Hc (Hi tf)) as Hf.
  unfold consume_tick_with_extremes.
  destruct (fold tf (input tf) (cell (run_slot r1))) as [outcome c]. destruct Hf as [Hout Hc'].
  set (r2 := tset _ r1). assert (H2 : run_ok key r2) by (split; [by split|done]).
  assert (Hk2 : slot_key (run_slot r2) = key) by apply H2. clearbody r2.
  destruct outcome as [|st|st|]; [done| | |exact H2].
  - unfold on_sealed. cbn [roll_replay_bits]. cbn in Hout.
    destruct (_ || _ || _); [exact H2|]. destruct (env_replay env); [exact H2|].
    destruct H2 as [H2 Ho2]. split; [exact H2|]. apply Forall_app. split; [exact Ho2|]. constructor; [|done].
    split; [exact Hk2|exact Hout].
  - unfold on_amended. cbn in Hout. destruct (sealed_is_suppressed _ _ _ _); [exact H2|].
    destruct (env_replay env); [exact H2|].
    destruct H2 as [H2 Ho2]. split; [exact H2|]. apply Forall_app. split; [exact Ho2|]. constructor; [|done].
    split; [exact Hk2|exact Hout].
Qed.

Lemma reanchor_ok b s : slot_ok key s -> slot_ok key (reanchor f b s).
Proof. intros [? ?]. unfold reanchor. destruct b; [|done]. split; [done|]. by apply rebase_ok. Qed.

Lemma settle_gap_ok b last s : slot_ok key s -> slot_ok key (settle_gap env f b last s).
Proof.
  intros H. unfold settle_gap. set (s1 := if b && _ then _ else s).
  assert (H1 : slot_ok key s1) by (subst s1; parts). clearbody s1. destruct b; [done|].
  destruct (fa_gap_now f); [|done]. destruct H1 as [Hk Hc].
  pose proof (rebase_gap_ok (fa_cumulative f) (fa_secs f) last
    (if env_replay env then 0 else Z.max (env_live_from env) (handover_listen_secs s1)) _ Hc) as Hr.
  destruct (rebase_open_buckets_after_gap _ _ _ _ _) as [u c]. by split.
Qed.

Lemma repeat_slot_ok s : slot_ok key s -> slot_ok key (consume_repeat env f s).
Proof.
  intros H. unfold consume_repeat. set (s1 := if _ && _ then _ else s).
  assert (H1 : slot_ok key s1) by (subst s1; parts). clearbody s1.
  assert (H2 : slot_ok key (snd (foldl (refresh_frame f) (0, s1) ALL))).
  { apply (foldl_ind (fun acc => slot_ok key (snd acc))); [done|]. intros [m s2] tf [Hk Hc]. unfold refresh_frame.
    pose proof (repeat_ok tf (fa_tick f) (fa_prices f) (fa_secs f) _ Hc) as Hr. simpl in Hr.
    by destruct (refresh_repeat_quote _ _ _ _ _) as [did c]. }
  destruct (foldl _ _ _) as [m s2]. simpl in H2. destruct (_ =? 0); [done|].
  apply (foldl_ind (slot_ok key)); [done|]. intros s3 tf H3. parts.
Qed.
End slot_bars.

Lemma memo_price t ltp m : tp_last_traded_price (fst (from_tick_memo t ltp m)) = ltp.
Proof.
  unfold from_tick_memo. destruct (widen_usable _ _ m) as [? m1], (widen_usable _ _ m1) as [? m2].
  destruct (widen_usable _ _ m2) as [? m3]. by destruct (widen_usable _ _ m3).
Qed.

Lemma tick_facts_spec env t ov secs ltp s :
  let '(f, s') := tick_facts env t ov secs ltp s in
  kept s s' /\ fa_tick f = t /\ fa_secs f = secs /\ tp_last_traded_price (fa_prices f) = ltp.
Proof.
  unfold tick_facts. pose proof (memo_price t ltp (widen_memo s)) as Hp.
  destruct (from_tick_memo t ltp (widen_memo s)) as [p m]. cbn in *. split; [|done].
  set (s1 := tset _ s). transitivity s1; [done|].
  transitivity (sync_replay_gap (env_epoch env) s1); [apply sync_kept|apply note_receipt_kept].
Qed.

Lemma frame_input_ok env f base b0 m ex g tf :
  f64_ltb f64_zero (tp_last_traded_price (fa_prices f)) = true -> in_u32 (fa_secs f) ->
  input_ok (frame_input env f base b0 m ex g tf).
Proof. intros ? ?. unfold frame_input. by destruct (has_bit m tf). Qed.

Lemma slot_consume_ok key env t ov secs ltp s :
  slot_ok key s -> f64_ltb f64_zero ltp = true -> in_u32 secs ->
  run_ok key (slot_consume env t ov secs ltp s).
Proof.
  intros Hs Hp Hu. unfold slot_consume. pose proof (tick_facts_spec env t ov secs ltp s) as Hf.
  destruct (tick_facts env t ov secs ltp s) as [f s0], Hf as (K0 & _ & Es & Ep).
  pose proof (slot_ok_kept _ _ _ K0 Hs) as H0. clear K0 Hs. cbv zeta.
  pose proof (slot_ok_kept _ _ _ (anchor_kept env f s0) H0) as H1. set (s1 := anchor env f s0) in *. clearbody s1.
  destruct (first_buckets env f s1) as [b0 m].
  assert (H2 : slot_ok key { s1 with cell := snd (observe_session_extremes_widened t secs (fa_prices f) (cell s1)) }) by exact H1.
  destruct (observe_session_extremes_widened t secs (fa_prices f) (cell s1)) as [ex c]. simpl in H2.
  set (s2 := { s1 with cell := c }) in *. clearbody s2.
  destruct (_ && delta_is_empty ex); [split; [by apply repeat_slot_ok|done]|].
  set (fa := negb (fa_stale f) && _ && _). clearbody fa.
  pose proof (slot_ok_kept _ _ _ (trust_kept env f fa s2) H2) as H3. set (s3 := trust_again _ _ _ _) in *. clearbody s3.
  pose proof (slot_ok_kept _ _ _ (classify_kept env f (last_ltp s0) fa (last_cumulative s1) s3) H3) as H4.
  destruct (classify _ _ _ _ _ s3) as [signed s4]. simpl in H4.
  pose proof (reanchor_ok key f (is_restart f s4) s4 H4) as H5. set (s5 := reanchor _ _ _) in *. clearbody s5.
  pose proof (slot_ok_kept _ _ _ (hand_over_kept env f (is_restart f s4) s5) H5) as H6.
  set (s6 := hand_over _ _ _ _) in *. clearbody s6.
  pose proof (settle_gap_ok key env f (is_restart f s4) (last_trade_ts s0) s6 H6) as H7.
  set (s7 := settle_gap _ _ _ _ _) in *. clearbody s7.
  pose proof (slot_ok_kept _ _ _ (mark_late_kept env f s7) H7) as H8. set (s8 := mark_late _ _ _) in *. clearbody s8.
  set (input := frame_input _ _ _ _ _ _ _). set (r := foldl _ _ _).
  assert (Hr : run_ok key r).
  { subst r. apply (foldl_ind (run_ok key)); [by split|]. intros r tf Hr. apply frame_step_ok; [|done].
    intros tf'. apply frame_input_ok; congruence. }
  clearbody r. destruct Hr as [Hr Ho]. split; [|exact Ho].
  apply (slot_ok_kept _ _ _ (finish_kept env f (last_cumulative s1) (prev_price_untrusted s2) fa signed (run_slot r)) Hr).
Qed.

(** * Sweeps of a slot *)

Definition sweep_ok (key : CompositeKey) (w : Sweep) : Prop :=
  slot_ok key (sw_slot w) /\ Forall (seal_ok key) (sw_out w).

Section slot_sweeps.
Context (key : CompositeKey).
Implicit Types (w : Sweep) (s : InstrumentSlot).

Lemma sweep_release_ok live tf w : sweep_ok key w -> sweep_ok key (sweep_release live tf w).
Proof.
  intros [Hs Ho]. unfold sweep_release. pose proof (release_ok key live tf _ Hs) as Hr.
  destruct (release_held _ _ _) as [[rel out] s'], Hr as [? ?]. split; [done|]. by apply Forall_app.
Qed.

Lemma sweep_kept g w : (forall s, kept s (g s)) -> sweep_ok key w ->
  sweep_ok key { w with sw_slot ::= g }.
Proof. intros Hg [Hs Ho]. split; [|exact Ho]. exact (slot_ok_kept _ _ _ (Hg _) Hs). Qed.

Lemma sweep_out_ok b tf st w :
  sweep_ok key w -> init st -> bar_ok tf st -> sweep_ok key (sweep_out b tf st w).
Proof.
  intros [Hs Ho] Hi Hb. unfold sweep_out. destruct b; [by split|]. split; [exact Hs|].
  apply Forall_app. split; [exact Ho|]. constructor; [|done]. split; [apply Hs|done].
Qed.

Lemma sweep_cell_ok c w : cell_ok c -> sweep_ok key w ->
  sweep_ok key { w with sw_slot ::= fun s => { s with cell := c } }.
Proof. intros Hc [[Hk _] Ho]. split; [split; [exact Hk|exact Hc]|exact Ho]. Qed.

Lemma force_frame_ok replay live margin last w tf :
  sweep_ok key w -> sweep_ok key (force_frame replay live margin last w tf).
Proof.
  intros Hw. unfold force_frame. pose proof (sweep_release_ok live tf w Hw) as H1.
  set (w1 := sweep_release live tf w) in *. clearbody w1.
  set (empty := is_uninitialised _). set (w2 := if empty then w1 else _).
  assert (H2 : sweep_ok key w2).
  { subst w2. destruct empty; [done|]. apply sweep_kept; [|done]. intros s. apply hold_kept. }
  clearbody w2 empty. pose proof (force_ok tf (cell (sw_slot w2)) (proj2 (proj1 H2))) as Hf.
  destruct (force_seal tf (cell (sw_slot w2))) as [out c], Hf as [Ho Hc].
  pose proof (sweep_cell_ok c w2 Hc H2) as H3. set (w3 := tset _ w2) in *. clearbody w3.
  destruct out as [st|]; [|done]. destruct Ho as [Hi Hb]. unfold take_open_partial, roll_replay_bits.
  destruct empty; by apply sweep_out_ok.
Qed.

Lemma force_slot_ok replay e live margin last s :
  slot_ok key s -> sweep_ok key (force_slot replay e live margin last s).
Proof.
  intros Hs. unfold force_slot. apply sweep_kept; [intros s'; by split|].
  apply (foldl_ind (sweep_ok key)); [|by intros; apply force_frame_ok].
  split; [|done]. exact (slot_ok_kept _ _ _ (sync_kept e s) Hs).
Qed.

Lemma catch_up_frame_ok replay live margin last cutoff w tf :
  sweep_ok key w -> sweep_ok key (catch_up_frame replay live margin last cutoff w tf).
Proof.
  intros Hw. unfold catch_up_frame.
  set (w1 := if _ && _ then sweep_release live tf w else w).
  assert (H1 : sweep_ok key w1) by (subst w1; destruct (_ && _); [by apply sweep_release_ok|done]). clearbody w1.
  set (w2 := if would_catch_up_seal _ _ _ then _ else w1).
  assert (H2 : sweep_ok key w2).
  { subst w2. destruct (would_catch_up_seal _ _ _); [|done]. apply sweep_kept; [|done]. intros s. apply hold_kept. }
  clearbody w2. pose proof (catch_up_ok tf cutoff (cell (sw_slot w2)) (proj2 (proj1 H2))) as Hf.
  destruct (catch_up_seal tf cutoff (cell (sw_slot w2))) as [out c], Hf as [Ho Hc].
  pose proof (sweep_cell_ok c w2 Hc H2) as H3. set (w3 := tset _ w2) in *. clearbody w3.
  destruct out as [st|]; [|done]. destruct Ho as [Hi Hb]. unfold take_open_partial, roll_replay_bits.
  cbn zeta. destruct (_ || _ || _); [by apply sweep_out_ok|]. destruct replay; [exact H3|by apply sweep_out_ok].
Qed.

Lemma catch_up_slot_ok replay e live margin last cutoff s :
  slot_ok key s -> sweep_ok key (catch_up_slot replay e live margin last cutoff s).
Proof.
  intros Hs. unfold catch_up_slot. apply (foldl_ind (sweep_ok key)); [|by intros; apply catch_up_frame_ok].
  split; [|done]. exact (slot_ok_kept _ _ _ (sync_kept e s) Hs).
Qed.

Lemma hand_over_slot_ok ended e live s : slot_ok key s -> sweep_ok key (hand_over_slot ended e live s).
Proof.
  intros Hs. unfold hand_over_slot. apply sweep_kept; [intros s'; by split|].
  apply (foldl_ind (sweep_ok key)); [|by intros; apply sweep_release_ok].
  split; [|done]. apply (slot_ok_kept _ (sync_replay_gap e s)); [done|]. exact (slot_ok_kept _ _ _ (sync_kept e s) Hs).
Qed.

(** One slot of [withhold_open_buckets]. *)
Definition withhold_slot (s : InstrumentSlot) : InstrumentSlot := (foldl withhold_frame (0, 0, s) ALL).2.

Lemma withhold_slot_ok s : slot_ok key s -> slot_ok key (withhold_slot s).
Proof.
  intros Hs. unfold withhold_slot. apply (foldl_ind (fun acc => slot_ok key acc.2)); [done|].
  intros [[w c] s1] tf [Hk Hc]. unfold withhold_frame. destruct (is_uninitialised _).
  - by split.
  - pose proof (force_ok tf (cell s1) Hc) as Hf. destruct (force_seal tf (cell s1)) as [out c'].
    by destruct Hf.
Qed.
End slot_sweeps.

(** * Slots and index *)

(** Every slot is reached under its own key and only under it; the table keeps
    its bound. *)
Record indexed (a : MultiTfAggregator) : Prop := {
  ix_slot : forall key i, agg_index a !! key = Some i ->
    exists s, agg_slots a !! i = Some s /\ slot_key s = key;
  ix_index : forall i s, agg_slots a !! i = Some s -> agg_index a !! slot_key s = Some i;
  ix_bound : agg_len a <= AGGREGATOR_MAX_SLOTS }.

Lemma indexed_ext a a' :
  agg_index a' = agg_index a -> (forall i, slot_key <$> agg_slots a' !! i = slot_key <$> agg_slots a !! i) ->
  length (agg_slots a') = length (agg_slots a) -> indexed a -> indexed a'.
Proof.
  intros Ei Es El [H1 H2 H3]. split.
  - intros key i. rewrite Ei. intros (s & Hs & Hk)%H1. specialize (Es i). rewrite Hs in Es.
    destruct (agg_slots a' !! i) as [s'|]; [|done]. injection Es as Es. exists s'. split; [done|congruence].
  - intros i s' Hs. specialize (Es i). rewrite Hs in Es.
    destruct (agg_slots a !! i) as [s|] eqn:E; [|done]. injection Es as Es. rewrite Ei, Es. by apply H2.
  - unfold agg_len. by rewrite El.
Qed.

Lemma slot_index_indexed key a : indexed a ->
  let '(idx, a') := slot_index key a in
  indexed a' /\ watermark_secs a' = watermark_secs a /\ replay_mode a' = replay_mode a /\
  replay_gap_epoch a' = replay_gap_epoch a /\ live_capture_from_secs a' = live_capture_from_secs a /\
  match idx with
  | Some i => exists s, agg_slots a' !! i = Some s /\ slot_key s = key
  | None => AGGREGATOR_MAX_SLOTS <= agg_len a /\ agg_index a !! key = None
  end.
Proof.
  intros [H1 H2 H3]. unfold slot_index. destruct (agg_index a !! key) as [i|] eqn:E.
  - split; [by split|]. split_and!; auto.
  - destruct (Z.leb_spec AGGREGATOR_MAX_SLOTS (agg_len a)).
    + split; [by split|]. by split_and!.
    + split; [|split_and!; try done; exists (new_slot key (replay_gap_epoch a)); cbn; split; [|done];
               by rewrite lookup_app_r, Nat.sub_diag by done].
      split; cbn.
      * intros key' i Hi. destruct (decide (key' = key)) as [->|Hne].
        { rewrite lookup_insert_eq in Hi. injection Hi as <-. exists (new_slot key (replay_gap_epoch a)).
          by rewrite lookup_app_r, Nat.sub_diag by done. }
        rewrite lookup_insert_ne in Hi by done. destruct (H1 _ _ Hi) as (s & Hs & Hk).
        exists s. split; [by apply lookup_app_l_Some|done].
      * intros i s [Hs|[Hge Hs]]%lookup_app_Some.
        { destruct (decide (slot_key s = key)) as [Hk|]; [|rewrite lookup_insert_ne by done; by apply H2].
          apply H2 in Hs. congruence. }
        apply list_lookup_singleton_Some in Hs as [Hi <-]. cbn.
        rewrite lookup_insert_eq. f_equal. lia.
      * unfold agg_len in *. cbn. rewrite length_app. cbn. unfold AGGREGATOR_MAX_SLOTS in *. lia.
Qed.
