(* ===== verification/AggregatorSteps.v ===== *)
(** The aggregator as a family of instruments: its operations as steps, the gates
    of a tick, and the projection of a step to the slot of one instrument, which
    the theorems on volume and replay are proved against. *)
From stdpp Require Import functions.
From coqutil Require Import Datatypes.RecordSettersUsingExistingGetters.
From S2P Require Import Prelude Bytes Float FeedTypes PricePrecision Candles AggregatorCell SealRing.
From S2P Require Import MultiTfAggregator AggregatorSlots.
Local Open Scope Z_scope.

(** * Steps *)

Inductive agg_op : Type :=
  | AggTick (muhurat : bool) (feed : Feed) (t : ParsedTick) (cumulative_volume_override : option Z)
  | AggCatchUp (cutoff : Z) (from_slot max_slots : nat)
  | AggForce
  | AggWithhold
  | AggReplay (on : bool)
  | AggGap
  | AggFinish (ended_on_gap : bool)
  | AggCapture (secs : Z)
  | AggMargin (secs : Z)
  | AggWatermark (secs : Z)
  | AggResetWatermark.

Definition agg_step (o : agg_op) (a : MultiTfAggregator) : list Seal * MultiTfAggregator :=
  match o with
  | AggTick muhurat feed t override => let '(_, out, a) := consume_tick muhurat feed t override a in (out, a)
  | AggCatchUp cutoff from n => let '(out, _, a) := catch_up_seal_slots cutoff from n a in (out, a)
  | AggForce => force_seal_all a
  | AggWithhold => ([], snd (withhold_open_buckets a))
  | AggReplay on => ([], set_replay_mode on a)
  | AggGap => ([], mark_replay_gap a)
  | AggFinish ended => finish_replay ended a
  | AggCapture secs => ([], set_live_capture_start secs a)
  | AggMargin secs => ([], set_catch_up_margin_secs secs a)
  | AggWatermark secs => ([], seed_watermark_at_least secs a)
  | AggResetWatermark => ([], reset_watermark a)
  end.

Fixpoint agg_run (ops : list agg_op) (a : MultiTfAggregator) : list Seal * MultiTfAggregator :=
  match ops with
  | [] => ([], a)
  | o :: ops =>
      let '(out, a) := agg_step o a in
      let '(outs, a) := agg_run ops a in (out ++ outs, a)
  end.

(** * The projection to one instrument *)

(** The slot of a key; a key without one has the slot it would be given. *)
Definition slot_of (key : CompositeKey) (a : MultiTfAggregator) : InstrumentSlot :=
  default (new_slot key (replay_gap_epoch a)) (lookup_slot key a).

(** Only the marks of refused ticks changed; the auction volume stays a count. *)
Definition noted (s s' : InstrumentSlot) : Prop :=
  exists p v, s' = { s with untraded_proof_ist_secs := p; pre_open_auction_volume := v } /\
    (0 <= pre_open_auction_volume s -> 0 <= v).

(** The integers of a tick fit their fields. *)
Definition tick_in_range (t : ParsedTick) (ov : option Z) : Prop :=
  in_i64 (received_at_nanos t) /\ in_u32 (volume t) /\ match ov with Some v => in_u64 v | None => True end.

Lemma override_nonneg t ov : tick_in_range t ov -> 0 <= default (volume t) ov.
Proof. intros (_ & ? & ?). destruct ov; simpl; zints. Qed.

(** Slots and index apart, what a tick's gates leave alone. *)
Definition same_modes (a a' : MultiTfAggregator) : Prop :=
  replay_mode a' = replay_mode a /\ replay_gap_epoch a' = replay_gap_epoch a /\
  catch_up_margin_secs a' = catch_up_margin_secs a /\ strategy a' = strategy a /\
  first_bar_includes_auction a' = first_bar_includes_auction a.

Lemma noted_refl s : noted s s.
Proof. exists (untraded_proof_ist_secs s), (pre_open_auction_volume s). split; [by destruct s|done]. Qed.

Lemma noted_trans s s' s'' : noted s s' -> noted s' s'' -> noted s s''.
Proof. intros (p & v & -> & H) (p' & v' & -> & H'). exists p', v'. split; [done|]. intros. by apply H', H. Qed.

Lemma noted_kept s s' : noted s s' -> kept s s'.
Proof. by intros (p & v & -> & _). Qed.

Lemma slot_of_key key a : indexed a -> slot_key (slot_of key a) = key.
Proof.
  intros [H _ _]. unfold slot_of, lookup_slot. destruct (agg_index a !! key) as [i|] eqn:E; [|done].
  destruct (H _ _ E) as (s & Hs & Hk). simpl. by rewrite Hs.
Qed.

Section projection.
Implicit Types (a : MultiTfAggregator) (key k : CompositeKey).

Lemma slot_of_ext k a a' : agg_slots a' = agg_slots a -> agg_index a' = agg_index a ->
  replay_gap_epoch a' = replay_gap_epoch a -> slot_of k a' = slot_of k a.
Proof. intros E1 E2 E3. unfold slot_of, lookup_slot. by rewrite E1, E2, E3. Qed.

Lemma indexed_ext_slots a a' : agg_slots a' = agg_slots a -> agg_index a' = agg_index a ->
  indexed a -> indexed a'.
Proof. intros E1 E2 H. apply (indexed_ext a); rewrite ?E1; auto. Qed.

Lemma slot_index_spec key a : indexed a ->
  let '(idx, a') := slot_index key a in
  indexed a' /\ same_modes a a' /\ watermark_secs a' = watermark_secs a /\
  live_capture_from_secs a' = live_capture_from_secs a /\
  (forall k, slot_of k a' = slot_of k a) /\
  match idx with
  | Some i => agg_index a' !! key = Some i
  | None => AGGREGATOR_MAX_SLOTS <= agg_len a
  end.
Proof.
  intros H. pose proof (slot_index_indexed key a H) as Hi. unfold slot_index in *.
  destruct (agg_index a !! key) as [i|] eqn:E; [by split_and!|].
  destruct (Z.leb_spec AGGREGATOR_MAX_SLOTS (agg_len a)); destruct Hi as [Hi _]; split; [done|by split_and!|done|].
  split; [done|]. split; [done|]. split; [done|].
  split; [|cbn; by rewrite lookup_insert_eq].
  intros k. unfold slot_of, lookup_slot. cbn. destruct (decide (k = key)) as [->|Hne].
  - rewrite lookup_insert_eq, E. cbn. by rewrite lookup_app_r, Nat.sub_diag by done.
  - rewrite lookup_insert_ne by done. destruct (agg_index a !! k) as [j|] eqn:Ej; [|done]. cbn.
    destruct (ix_slot _ H _ _ Ej) as (s & Hs & _). rewrite Hs. by rewrite (lookup_app_l_Some _ _ _ _ Hs).
Qed.

Lemma update_slot_spec key idx g a : indexed a -> agg_index a !! key = Some idx ->
  slot_key (g (slot_of key a)) = key ->
  indexed (update_slot idx g a) /\ slot_of key (update_slot idx g a) = g (slot_of key a) /\
  forall k, k <> key -> slot_of k (update_slot idx g a) = slot_of k a.
Proof.
  intros H Hi Hg. destruct (ix_slot _ H _ _ Hi) as (s & Hs & Hk).
  assert (Es : slot_of key a = s) by (unfold slot_of, lookup_slot; rewrite Hi; simpl; by rewrite Hs).
  rewrite Es in *. split; [|split].
  - apply (indexed_ext a); cbn; [done| |by rewrite length_alter|done].
    intros j. destruct (decide (j = idx)) as [->|Hne].
    + rewrite list_lookup_alter_eq, Hs. cbn. by rewrite Hg, Hk.
    + by rewrite list_lookup_alter_ne.
  - unfold slot_of, lookup_slot. cbn. rewrite Hi. cbn. by rewrite list_lookup_alter_eq, Hs.
  - intros k Hne. unfold slot_of, lookup_slot. cbn. destruct (agg_index a !! k) as [j|] eqn:Ej; [|done]. cbn.
    rewrite list_lookup_alter_ne; [done|]. intros ->.
    destruct (ix_slot _ H _ _ Ej) as (s' & Hs' & Hk'). congruence.
Qed.

(** What a refused tick may do: mark slots, create its own. *)
Definition gated (a a' : MultiTfAggregator) : Prop :=
  indexed a' /\ same_modes a a' /\ forall k, noted (slot_of k a) (slot_of k a').

Lemma gated_refl a : indexed a -> gated a a.
Proof. intros. split; [done|]. split; [done|]. intros k. apply noted_refl. Qed.

Lemma gated_trans a a' a'' : gated a a' -> gated a' a'' -> gated a a''.
Proof.
  intros (H1 & M1 & N1) (H2 & M2 & N2). split; [done|]. split.
  - destruct M1 as (?&?&?&?&?), M2 as (?&?&?&?&?). repeat split; congruence.
  - intros k. eapply noted_trans; [apply N1|apply N2].
Qed.

Lemma live_proof_spec key received a : indexed a ->
  let '(found, a') := live_proof_slot key received a in
  gated a a' /\ watermark_secs a' = watermark_secs a /\
  live_capture_from_secs a' = live_capture_from_secs a /\
  match found with Some (i, _) => agg_index a' !! key = Some i | None => True end.
Proof.
  intros H. pose proof (gated_refl a H) as Hg. unfold live_proof_slot.
  destruct (replay_mode a); [done|]. destruct (receipt_ist_secs_of received); [|done].
  destruct (_ <? _); [done|]. destruct (agg_index a !! key) as [i|] eqn:E; [done|].
  destruct (_ <=? _); [done|]. pose proof (slot_index_spec key a H) as Hs.
  destruct (slot_index key a) as [idx a'], Hs as (H1 & H2 & H3 & H4 & H5 & H6).
  split; [split; [done|]; split; [done|]; intros k; rewrite H5; apply noted_refl|].
  split; [done|]. split; [done|]. by destruct idx.
Qed.

Lemma note_slot_spec key idx g a : indexed a -> agg_index a !! key = Some idx ->
  (forall s, noted s (g s)) -> gated a (update_slot idx g a).
Proof.
  intros H Hi Hg. destruct (update_slot_spec key idx g a H Hi) as (H1 & H2 & H3).
  { destruct (noted_kept _ _ (Hg (slot_of key a))) as [-> _]. by apply slot_of_key. }
  split; [done|]. split; [done|]. intros k. destruct (decide (k = key)) as [->|Hne].
  - by rewrite H2.
  - rewrite H3 by done. apply noted_refl.
Qed.

Lemma noted_if (b : bool) s s' : noted s s' -> noted s (if b then s else s').
Proof. intros H. destruct b; [apply noted_refl|done]. Qed.

Lemma record_proof_spec key received a : indexed a ->
  let a' := record_untraded_proof key received a in
  gated a a' /\ watermark_secs a' = watermark_secs a.
Proof.
  intros H. unfold record_untraded_proof. pose proof (live_proof_spec key received a H) as Hl.
  destruct (live_proof_slot _ _ _) as [found a'], Hl as (Hg & Hw & _ & Hf).
  destruct found as [[i p]|]; [|done]. split; [|done]. eapply gated_trans; [exact Hg|].
  apply (note_slot_spec key); [apply Hg|done|]. intros s. apply noted_if.
  exists (Z.max (untraded_proof_ist_secs s) p), (pre_open_auction_volume s). split; [by destruct s|done].
Qed.

Lemma record_auction_spec key received v a : indexed a -> 0 <= v ->
  let a' := record_pre_open_auction key received v a in
  gated a a' /\ watermark_secs a' = watermark_secs a.
Proof.
  intros H Hv. unfold record_pre_open_auction. destruct (_ || _); [split; [by apply gated_refl|done]|].
  pose proof (live_proof_spec key received a H) as Hl.
  destruct (live_proof_slot _ _ _) as [found a'], Hl as (Hg & Hw & _ & Hf).
  destruct found as [[i p]|]; [|done]. split; [|done]. eapply gated_trans; [exact Hg|].
  apply (note_slot_spec key); [apply Hg|done|]. intros s. apply noted_if.
  exists (untraded_proof_ist_secs s), (if pre_open_auction_volume s =? AUCTION_VOLUME_UNKNOWN then v
    else Z.max (pre_open_auction_volume s) v). split; [by destruct s|]. destruct (_ =? _); lia.
Qed.
End projection.

(** * The gates of a tick *)

(** A tick the fold takes: a plausible stamp and price, of the day it was received
    on and not ahead of its receipt, not of a day before the newest tick's, in
    session, and of an instrument with a slot or room for one. *)
Definition admissible (muhurat : bool) (key : CompositeKey) (t : ParsedTick) (a : MultiTfAggregator) : Prop :=
  let secs := exchange_timestamp t in
  let receipt := received_at_nanos t / 1000000000 + IST_UTC_OFFSET_SECS in
  (MIN_PLAUSIBLE_EXCHANGE_TS_SECS <= secs <= MAX_PLAUSIBLE_EXCHANGE_TS_SECS) /\
  tick_price_is_sane t = true /\
  (0 < received_at_nanos t ->
     secs / 86400 = receipt / 86400 /\ secs <= receipt + FOLD_FUTURE_TRADE_TIME_SKEW_SECS) /\
  watermark_secs a / 86400 <= secs / 86400 /\
  is_out_of_session muhurat (secs mod 86400) = false /\
  (is_Some (agg_index a !! key) \/ agg_len a < AGGREGATOR_MAX_SLOTS).

Section gates.
Implicit Types (a : MultiTfAggregator) (key : CompositeKey).

(** What a gate gives: a refusal, after which no bar has changed, or the state
    the next gate sees. *)
Definition gate_spec (pass : Prop) a (r : option ConsumeStats * MultiTfAggregator) : Prop :=
  gated a r.2 /\
  match r.1 with
  | Some refusal => folded refusal = false /\ ~ pass
  | None => pass
  end.

Lemma clock_spec a received : indexed a ->
  let a' := admit_clock a received in
  gated a a' /\ agg_slots a' = agg_slots a /\ agg_index a' = agg_index a /\
  watermark_secs a' = watermark_secs a /\
  (replay_mode a = false -> capture_start_provisional a = false ->
   live_capture_from_secs a' = live_capture_from_secs a /\ capture_start_provisional a' = false).
Proof.
  intros H. assert (G : forall a', agg_slots a' = agg_slots a -> agg_index a' = agg_index a ->
    same_modes a a' -> gated a a').
  { intros a' E1 E2 M. split; [by apply (indexed_ext_slots a)|]. split; [done|]. intros k.
    rewrite (slot_of_ext k a a'); [apply noted_refl|done|done|apply M]. }
  unfold admit_clock, confirm_capture_start.
  destruct (replay_mode a) eqn:Er.
  { destruct (receipt_ist_secs received); (split; [by apply G|done]). }
  destruct (capture_start_provisional a) eqn:Ep; [|split; [by apply G|done]].
  destruct (receipt_ist_secs received) as [r|]; [|split; [by apply G|done]]. cbn.
  destruct (r <=? live_capture_from_secs a); (split; [by apply G|done]).
Qed.

Lemma stamp_spec key t a : indexed a ->
  gate_spec (MIN_PLAUSIBLE_EXCHANGE_TS_SECS <= exchange_timestamp t <= MAX_PLAUSIBLE_EXCHANGE_TS_SECS)
    a (admit_stamp key t a) /\
  (forall a', admit_stamp key t a = (None, a') -> a' = a).
Proof.
  intros H. pose proof (record_proof_spec key (received_at_nanos t) a H) as [Hr _].
  unfold admit_stamp. unfold MIN_PLAUSIBLE_EXCHANGE_TS_SECS, MAX_PLAUSIBLE_EXCHANGE_TS_SECS.
  destruct (_ && negb _) eqn:E0.
  { apply andb_prop in E0 as [E0%Z.eqb_eq _]. split; [|done]. split; cbn.
    - destruct (f64_eqb _ _); [done|by apply gated_refl].
    - split; [done|]. lia. }
  destruct (_ || _) eqn:E1.
  - split; [|done]. split; [by apply gated_refl|]. cbn. apply orb_prop in E1.
    split; [destruct (received_at_nanos t =? 0); reflexivity|]. rewrite !Z.ltb_lt in E1. lia.
  - apply orb_false_elim in E1 as [E1%Z.ltb_ge E2%Z.ltb_ge]. split; [|by intros ? [= ->]].
    split; [by apply gated_refl|done].
Qed.

Lemma price_spec key t a : indexed a ->
  gate_spec (tick_price_is_sane t = true) a (admit_price key t a) /\
  (forall a', admit_price key t a = (None, a') -> a' = a).
Proof.
  intros H. pose proof (record_proof_spec key (received_at_nanos t) a H) as [Hr _].
  unfold admit_price. set (p := last_traded_price t). change (tick_price_is_sane t) with
    (is_finite p && SFltb f32_zero p && SFleb p MAX_PLAUSIBLE_LTP && f64_ltb f64_zero (f32_to_f64_clean p)).
  destruct (f64_eqb p f32_zero) eqn:E0.
  { split; [|done]. split; cbn.
    - destruct (receipt_ist_secs_of _); [|by apply gated_refl]. destruct (_ <? _); [done|by apply gated_refl].
    - split; [done|]. destruct p as [[]|[]| |[] ? ?]; done. }
  destruct (negb _) eqn:E1.
  - split; [|done]. split; [by apply gated_refl|]. split; [done|]. apply negb_true_iff in E1. by rewrite E1.
  - apply negb_false_iff in E1. split; [|by intros ? [= ->]]. split; [by apply gated_refl|done].
Qed.

Lemma day_spec key t a : indexed a -> in_i64 (received_at_nanos t) ->
  let receipt := received_at_nanos t / 1000000000 + IST_UTC_OFFSET_SECS in
  gate_spec (0 < received_at_nanos t ->
      exchange_timestamp t / 86400 = receipt / 86400 /\
      exchange_timestamp t <= receipt + FOLD_FUTURE_TRADE_TIME_SKEW_SECS)
    a (admit_day key t (exchange_timestamp t) a) /\
  (forall a', admit_day key t (exchange_timestamp t) a = (None, a') -> a' = a).
Proof.
  intros H Hi. pose proof (record_proof_spec key (received_at_nanos t) a H) as [Hr _].
  unfold admit_day. destruct (Z.ltb_spec 0 (received_at_nanos t)) as [Hp|Hp].
  2: { split; [|by intros ? [= ->]]. split; [by apply gated_refl|]. cbn. lia. }
  set (receipt := _ + _). cbv zeta.
  assert (Hs : i64_saturating_add receipt FOLD_FUTURE_TRADE_TIME_SKEW_SECS = receipt + FOLD_FUTURE_TRADE_TIME_SKEW_SECS).
  { subst receipt. pose proof (Z.div_le_mono _ _ 1000000000 ltac:(lia) (proj2 Hi)) as Hu.
    change (i64_max / 1000000000) with 9223372036 in Hu.
    pose proof (Z.div_pos (received_at_nanos t) 1000000000). unfold IST_UTC_OFFSET_SECS, FOLD_FUTURE_TRADE_TIME_SKEW_SECS.
    zints. }
  rewrite Hs. clearbody receipt.
  destruct (Z.ltb_spec (receipt / 86400) (exchange_timestamp t / 86400)).
  { split; [|done]. split; [by apply gated_refl|]. split; [done|]. lia. }
  destruct (Z.ltb_spec (exchange_timestamp t / 86400) (receipt / 86400)).
  { split; [|done]. split; [done|]. split; [done|]. lia. }
  destruct (Z.ltb_spec (receipt + FOLD_FUTURE_TRADE_TIME_SKEW_SECS) (exchange_timestamp t)).
  { split; [|done]. split; [by apply gated_refl|]. split; [done|]. lia. }
  split; [|by intros ? [= ->]]. split; [by apply gated_refl|]. cbn. lia.
Qed.

(** The last gate moves the watermark. *)
Lemma session_spec muhurat key t ov a : indexed a -> tick_in_range t ov ->
  let secs := exchange_timestamp t in
  let r := admit_session muhurat key t ov secs a in
  gate_spec (watermark_secs a / 86400 <= secs / 86400 /\ is_out_of_session muhurat (secs mod 86400) = false) a r /\
  watermark_secs r.2 = Z.max (watermark_secs a) secs /\
  (forall a', r = (None, a') -> agg_slots a' = agg_slots a /\ agg_index a' = agg_index a /\
     live_capture_from_secs a' = live_capture_from_secs a /\
     capture_start_provisional a' = capture_start_provisional a).
Proof.
  intros H Hr secs. unfold admit_session. set (a1 := if watermark_secs a <? secs then _ else a).
  assert (E : agg_slots a1 = agg_slots a /\ agg_index a1 = agg_index a /\
    watermark_secs a1 = Z.max (watermark_secs a) secs /\ same_modes a a1 /\
    live_capture_from_secs a1 = live_capture_from_secs a /\
    capture_start_provisional a1 = capture_start_provisional a).
  { subst a1. destruct (Z.ltb_spec (watermark_secs a) secs); cbn; split_and!; done || lia. }
  clearbody a1. destruct E as (E1 & E2 & E3 & M & E4 & E5).
  assert (G : gated a a1).
  { split; [by apply (indexed_ext_slots a)|]. split; [done|]. intros k.
    rewrite (slot_of_ext k a a1); [apply noted_refl|done|done|apply M]. }
  cbv zeta. rewrite E3.
  assert (Hd : secs / 86400 < Z.max (watermark_secs a) secs / 86400 <-> ~ watermark_secs a / 86400 <= secs / 86400).
  { destruct (Z.max_spec (watermark_secs a) secs) as [[? ->]|[? ->]]; [|lia].
    pose proof (Z.div_le_mono (watermark_secs a) secs 86400). lia. }
  destruct (Z.ltb_spec (secs / 86400) (Z.max (watermark_secs a) secs / 86400)).
  { split; [split; [exact G|split; [done|cbn; tauto]]|done]. }
  destruct (is_out_of_session muhurat (secs mod 86400)) eqn:Es.
  - pose proof (record_auction_spec key (received_at_nanos t) (default (volume t) ov) a1 (proj1 G) (override_nonneg t ov Hr)) as [Ga Wa].
    split; [split|]; cbn.
    + destruct (_ && _); [by eapply gated_trans|done].
    + split; [done|]. by intros [_ ?].
    + split; [|done]. destruct (_ && _); [by rewrite Wa|done].
  - split; [split; [exact G|cbn; split; [lia|done]]|]. split; [done|]. intros ? [= <-]. done.
Qed.
End gates.

(** * A tick at the aggregator *)

(** What the slot's environment says of the aggregator. *)
Record env_of (a : MultiTfAggregator) (env : TickEnv) : Prop := {
  eo_replay : env_replay env = replay_mode a;
  eo_epoch : env_epoch env = replay_gap_epoch a;
  eo_late : replay_mode a = false -> env_late_bound env = 0;
  eo_capture : replay_mode a = false -> capture_start_provisional a = false ->
               env_live_from env = live_capture_from_secs a;
  eo_auction : env_auction env = first_bar_includes_auction a }.

(** Nothing of the bars changed, of any instrument. *)
Definition untouched (a a' : MultiTfAggregator) : Prop := forall k, noted (slot_of k a) (slot_of k a').

(** The instrument's slot has folded the tick, the others are as they were. *)
Definition folded_in (key : CompositeKey) (t : ParsedTick) (ov : option Z) (a : MultiTfAggregator)
    (out : list Seal) (a' : MultiTfAggregator) : Prop :=
  exists env, env_of a env /\
    let r := slot_consume env t ov (exchange_timestamp t) (f32_to_f64_clean (last_traded_price t)) (slot_of key a) in
    out = run_out r /\ slot_of key a' = run_slot r /\ forall k, k <> key -> slot_of k a' = slot_of k a.

(** A run keeps its slot's key, and its bars are that slot's. *)
Definition keyed_run (key : CompositeKey) (r : Run) : Prop :=
  slot_key (run_slot r) = key /\ Forall (fun b => b.1.1 = key) (run_out r).

Lemma release_keys live tf s : Forall (fun b : Seal => b.1.1 = slot_key s) (release_held live tf s).1.2.
Proof. unfold release_held. parts. by constructor. Qed.

Lemma frame_step_keyed key env f input any next r tf :
  keyed_run key r -> keyed_run key (frame_step env f input any next r tf).
Proof.
  intros Hr. unfold frame_step. set (r1 := release_first _ _ _ _ r).
  assert (K : keyed_run key r1).
  { subst r1. unfold release_first. destruct (_ && _); [|done]. destruct Hr as [Hr Ho].
    destruct (release_kept (env_live_from env) tf (run_slot r)) as [K _].
    pose proof (release_keys (env_live_from env) tf (run_slot r)) as Hk. rewrite Hr in Hk.
    destruct (release_held _ _ _) as [[rel out] s']. cbn in *.
    assert (Forall (fun b : Seal => b.1.1 = key) (run_out r ++ out)) by by apply Forall_app.
    destruct rel; (split; [cbn; congruence|done]). }
  clearbody r1. destruct (consume_tick_with_extremes _ _ _) as [outcome c'].
  set (r2 := tset _ r1). assert (K2 : keyed_run key r2) by (split; apply K). clearbody r2.
  assert (P : forall s' st, slot_key s' = key -> Forall (fun b : Seal => b.1.1 = key) (run_out r2 ++ [(slot_key s', tf, st)])).
  { intros s' st Hs'. apply Forall_app. split; [apply K2|]. by constructor. }
  destruct outcome as [|st|st|]; [exact K2| | |split; apply K2].
  - unfold on_sealed, roll_replay_bits. cbn zeta. destruct (_ || _ || _); [split; apply K2|].
    destruct (env_replay env); (split; [apply K2|]); [apply K2|]. apply P, K2.
  - unfold on_amended. destruct (sealed_is_suppressed _ _ _ _); [split; apply K2|].
    destruct (env_replay env); (split; [apply K2|]); [apply K2|]. apply P, K2.
Qed.

Lemma slot_consume_key env t ov secs ltp s : keyed_run (slot_key s) (slot_consume env t ov secs ltp s).
Proof.
  unfold slot_consume. pose proof (tick_facts_spec env t ov secs ltp s) as Hf.
  destruct (tick_facts env t ov secs ltp s) as [f s0], Hf as ([K0 _] & _). cbv zeta.
  destruct (anchor_kept env f s0) as [K1 _]. set (s1 := anchor env f s0) in *. clearbody s1.
  destruct (first_buckets env f s1) as [b0 m], (observe_session_extremes_widened t secs (fa_prices f) (cell s1)) as [ex c].
  set (s2 := { s1 with cell := c }). assert (K2 : slot_key s2 = slot_key s1) by done. clearbody s2.
  destruct (_ && delta_is_empty ex).
  { split; [|done]. cbn [run_slot]. rewrite <- K0, <- K1, <- K2. unfold consume_repeat. set (s3 := if _ && _ then _ else s2).
    assert (K3 : slot_key s3 = slot_key s2) by (subst s3; parts). clearbody s3. rewrite <- K3.
    pose proof (foldl_ind (fun acc => slot_key acc.2 = slot_key s3) (refresh_frame f) ALL (0, s3) eq_refl) as K4.
    destruct (foldl (refresh_frame f) (0, s3) ALL) as [m4 s4]. cbn in K4. destruct (_ =? 0).
    - apply K4. intros [? s5] tf K. unfold refresh_frame. by destruct (refresh_repeat_quote _ _ _ _ _).
    - apply (foldl_ind (fun s => slot_key s = slot_key s3)).
      + apply K4. intros [? s5] tf K. unfold refresh_frame. by destruct (refresh_repeat_quote _ _ _ _ _).
      + intros s5 tf K. parts. }
  set (fa := negb (fa_stale f) && _ && _). clearbody fa.
  destruct (trust_kept env f fa s2) as [K3 _]. set (s3 := trust_again _ _ _ _) in *. clearbody s3.
  destruct (classify_kept env f (last_ltp s0) fa (last_cumulative s1) s3) as [K4 _].
  destruct (classify _ _ _ _ _ s3) as [signed s4]. cbn in K4.
  assert (K5 : slot_key (reanchor f (is_restart f s4) s4) = slot_key s4) by (unfold reanchor; parts).
  set (s5 := reanchor _ _ _) in *. clearbody s5.
  destruct (hand_over_kept env f (is_restart f s4) s5) as [K6 _]. set (s6 := hand_over _ _ _ _) in *. clearbody s6.
  assert (K7 : slot_key (settle_gap env f (is_restart f s4) (last_trade_ts s0) s6) = slot_key s6).
  { unfold settle_gap. set (s' := if is_restart f s4 && _ then _ else s6).
    assert (slot_key s' = slot_key s6) by (subst s'; parts). clearbody s'.
    destruct (is_restart f s4); [done|]. destruct (fa_gap_now f); [|done].
    by destruct (rebase_open_buckets_after_gap _ _ _ _ _). }
  set (s7 := settle_gap _ _ _ _ _) in *. clearbody s7.
  destruct (mark_late_kept env f s7) as [K8 _]. set (s8 := mark_late _ _ _) in *. clearbody s8.
  set (r := foldl _ _ _). assert (Hr : keyed_run (slot_key s8) r).
  { subst r. apply (foldl_ind (keyed_run (slot_key s8))); [by split|]. intros r tf Hr. by apply frame_step_keyed. }
  assert (Ek : slot_key s8 = slot_key s) by congruence. rewrite Ek in Hr. clearbody r. destruct Hr as [Hr Ho].
  destruct (finish_kept env f (last_cumulative s1) (prev_price_untrusted s2) fa signed (run_slot r)) as [K9 _].
  split; [cbn; by rewrite K9|exact Ho].
Qed.

(** No step of the frames' loop sets a refusal. *)
Definition clean_stats (r : Run) : Prop := folded (run_stats r) = true.

Lemma keep_back_stats r : clean_stats r -> clean_stats (keep_back r).
Proof. by destruct r as [? [] ? ?]. Qed.
Lemma publish_stats b r : clean_stats r -> clean_stats (publish b r).
Proof. by destruct r as [? [] ? ?]. Qed.
Lemma sealed_stats r : clean_stats r -> clean_stats (count_sealed r).
Proof. by destruct r as [? [] ? ?]. Qed.
Lemma amended_stats r : clean_stats r -> clean_stats (count_amended r).
Proof. by destruct r as [? [] ? ?]. Qed.
Lemma late_stats r : clean_stats r -> clean_stats (count_late r).
Proof. by destruct r as [? [] ? ?]. Qed.
Lemma hold_stats tf r : clean_stats r -> clean_stats (hold tf r).
Proof. by destruct r as [? [] ? ?]. Qed.
Lemma slot_stats g h r : clean_stats r -> clean_stats { r with run_slot ::= g; run_out ::= h }.
Proof. by destruct r as [? [] ? ?]. Qed.
Lemma slot_only_stats g r : clean_stats r -> clean_stats { r with run_slot ::= g }.
Proof. by destruct r as [? [] ? ?]. Qed.
#[local] Create HintDb stats discriminated.
#[local] Hint Resolve keep_back_stats publish_stats sealed_stats amended_stats late_stats hold_stats : stats.

Lemma frame_step_stats env f input any next r tf :
  clean_stats r -> clean_stats (frame_step env f input any next r tf).
Proof.
  intros Hr. unfold frame_step. assert (K : clean_stats (release_first env f any tf r)).
  { unfold release_first. destruct (_ && _); [|done]. destruct (release_held _ _ _) as [[rel out] s].
    pose proof (slot_stats (fun _ => s) (fun l => l ++ out) r Hr).
    destruct rel; auto with stats. }
  set (r1 := release_first env f any tf r) in *. clearbody r1.
  destruct (consume_tick_with_extremes _ _ _) as [outcome c'].
  pose proof (slot_only_stats (fun s => { s with cell := c' }) r1 K) as K2. set (r2 := tset _ r1) in *. clearbody r2.
  destruct outcome; auto with stats.
  - unfold on_sealed. destruct (roll_replay_bits _ _ _ _ _) as [suppress s].
    pose proof (slot_only_stats (fun _ => s) r2 K2). destruct suppress; auto with stats.
    destruct (env_replay env); auto with stats.
  - unfold on_amended. destruct (sealed_is_suppressed _ _ _ _); auto with stats.
    destruct (env_replay env); auto with stats.
Qed.

Lemma finish_stats g b r : clean_stats r ->
  clean_stats { r with run_slot ::= g; run_stats ::= fun st => { st with advanced := b } }.
Proof. by destruct r as [? [] ? ?]. Qed.

Lemma slot_consume_folded env t ov secs ltp s : clean_stats (slot_consume env t ov secs ltp s).
Proof.
  unfold slot_consume. destruct (tick_facts env t ov secs ltp s) as [f s0]. cbv zeta.
  destruct (first_buckets _ _ _) as [b0 m], (observe_session_extremes_widened _ _ _ _) as [ex c].
  destruct (_ && delta_is_empty ex); [done|]. destruct (classify _ _ _ _ _ _) as [signed s4].
  apply finish_stats, (foldl_ind clean_stats); [done|]. intros. by apply frame_step_stats.
Qed.

Lemma fold_admitted_spec key t ov a : indexed a ->
  let '(st, out, a') := fold_admitted key t ov (exchange_timestamp t) a in
  indexed a' /\ same_modes a a' /\ watermark_secs a' = watermark_secs a /\
  if folded st then (is_Some (agg_index a !! key) \/ agg_len a < AGGREGATOR_MAX_SLOTS) /\ folded_in key t ov a out a'
  else out = [] /\ untouched a a' /\ ~ (is_Some (agg_index a !! key) \/ agg_len a < AGGREGATOR_MAX_SLOTS).
Proof.
  intros H. unfold fold_admitted. pose proof (slot_index_spec key a H) as Hs.
  assert (Hroom : match (slot_index key a).1 with
    | Some _ => is_Some (agg_index a !! key) \/ agg_len a < AGGREGATOR_MAX_SLOTS
    | None => ~ (is_Some (agg_index a !! key) \/ agg_len a < AGGREGATOR_MAX_SLOTS) end).
  { unfold slot_index. destruct (agg_index a !! key) as [i|] eqn:E; [left; eauto|].
    destruct (Z.leb_spec AGGREGATOR_MAX_SLOTS (agg_len a)); cbn; [|by right]. intros [[? ?]|?]; [done|lia]. }
  destruct (slot_index key a) as [idx a1], Hs as (H1 & M1 & W1 & C1 & S1 & Hi).
  destruct idx as [i|]; cbn in Hroom.
  2: { split; [done|]. split; [done|]. split; [done|]. cbn. split; [done|]. split; [|done].
       intros k. rewrite S1. apply noted_refl. }
  set (a2 := if replay_mode a1 then _ else a1).
  assert (E2 : agg_slots a2 = agg_slots a1 /\ agg_index a2 = agg_index a1 /\ same_modes a1 a2 /\
    watermark_secs a2 = watermark_secs a1 /\ live_capture_from_secs a2 = live_capture_from_secs a1).
  { subst a2. by destruct (replay_mode a1). }
  clearbody a2. destruct E2 as (E2 & I2 & M2 & W2 & C2).
  pose proof (indexed_ext_slots a1 a2 E2 I2 H1) as H2. rewrite <- I2 in Hi.
  destruct (ix_slot _ H2 _ _ Hi) as (s & Hs & Hk). rewrite Hs.
  assert (Es : s = slot_of key a).
  { rewrite <- S1, <- (slot_of_ext key a1 a2); [|done|done|apply M2].
    unfold slot_of, lookup_slot. rewrite Hi. simpl. by rewrite Hs. }
  set (env := mkTickEnv _ _ _ _ _ _ _ _). set (r := slot_consume env t ov _ _ s).
  assert (Er : slot_key (run_slot r) = key) by (subst r; rewrite (proj1 (slot_consume_key _ _ _ _ _ _)); congruence).
  destruct (update_slot_spec key i (fun _ => run_slot r) a2 H2 Hi Er) as (U1 & U2 & U3).
  assert (Em : same_modes a a2).
  { destruct M1 as (?&?&?&?&?), M2 as (?&?&?&?&?). repeat split; congruence. }
  set (a3 := update_slot i (fun _ => run_slot r) a2) in *.
  set (a4 := { a3 with replay_suppressed_total ::= fun n => u64_saturating_add n (run_suppressed r) }).
  assert (X : forall k, slot_of k a4 = slot_of k a3) by (intros k; by apply slot_of_ext).
  split; [exact (indexed_ext_slots a3 a4 eq_refl eq_refl U1)|]. split; [exact Em|]. split; [cbn; congruence|].
  rewrite (slot_consume_folded env t ov _ _ s : folded (run_stats r) = true).
  split; [done|]. exists env. split.
  - destruct Em as (?&?&?&?&?). split; cbn; try congruence.
    intros Hr. by replace (replay_mode a1) with false by (destruct M1; congruence).
  - rewrite <- Es. split; [done|]. split; [by rewrite X|]. intros k Hk'.
    rewrite X, <- S1, <- (slot_of_ext k a1 a2) by (done || apply M2). by apply U3.
Qed.

Lemma untouched_refl a : untouched a a.
Proof. intros k. apply noted_refl. Qed.

(** A folded tick comes through every gate with the slots as they were. *)
Lemma consume_tick_spec muhurat feed t ov a : indexed a -> tick_in_range t ov ->
  let key := (feed, security_id t, exchange_segment_code t) in
  let '(st, out, a') := consume_tick muhurat feed t ov a in
  indexed a' /\ same_modes a a' /\
  (folded st = true <-> admissible muhurat key t a) /\
  if folded st then
    folded_in key t ov a out a' /\ watermark_secs a' = Z.max (watermark_secs a) (exchange_timestamp t)
  else out = [] /\ untouched a a'.
Proof.
  intros H Hi key. unfold consume_tick, admissible, fold_clock_ist_secs, gate. fold key. cbv zeta.
  pose proof (clock_spec a (received_at_nanos t) H) as (G0 & S0 & I0 & W0 & L0).
  set (a0 := admit_clock a (received_at_nanos t)) in *. clearbody a0.
  assert (X0 : forall k, slot_of k a0 = slot_of k a) by (intros k; apply slot_of_ext; [done..|apply G0]).
  (* a refusal at any gate *)
  assert (R : forall pass r a', gate_spec pass a0 r -> r.2 = a' -> indexed a' /\ same_modes a a' /\ untouched a a').
  { intros pass r a' [Hg _] <-. pose proof (gated_trans _ _ _ G0 Hg) as (? & ? & ?). done. }
  assert (Hx : forall key, agg_index a0 !! key = agg_index a !! key) by by rewrite I0.
  destruct (stamp_spec key t a0 (proj1 G0)) as [P1 Q1]. destruct (admit_stamp key t a0) as [[rf|] a1].
  { destruct (R _ _ a1 P1 eq_refl) as (? & ? & ?), P1 as (_ & Hf & Hn). cbn in *. rewrite Hf.
    split_and!; try done. split; [done|tauto]. }
  destruct P1 as [_ P1]. cbn in P1. rewrite (Q1 a1 eq_refl) in *. clear Q1.
  destruct (price_spec key t a0 (proj1 G0)) as [P2 Q2]. destruct (admit_price key t a0) as [[rf|] a2].
  { destruct (R _ _ a2 P2 eq_refl) as (? & ? & ?), P2 as (_ & Hf & Hn). cbn in *. rewrite Hf.
    split_and!; try done. split; [done|tauto]. }
  destruct P2 as [_ P2]. cbn in P2. rewrite (Q2 a2 eq_refl) in *. clear Q2.
  destruct (day_spec key t a0 (proj1 G0) (proj1 Hi)) as [P3 Q3].
  destruct (admit_day key t (exchange_timestamp t) a0) as [[rf|] a3].
  { destruct (R _ _ a3 P3 eq_refl) as (? & ? & ?), P3 as (_ & Hf & Hn). cbn in *. rewrite Hf.
    split_and!; try done. split; [done|tauto]. }
  destruct P3 as [_ P3]. cbn in P3. rewrite (Q3 a3 eq_refl) in *. clear Q3.
  destruct (session_spec muhurat key t ov a0 (proj1 G0) Hi) as (P4 & W4 & Q4).
  destruct (admit_session muhurat key t ov (exchange_timestamp t) a0) as [[rf|] a4].
  { destruct (R _ _ a4 P4 eq_refl) as (? & ? & ?), P4 as (_ & Hf & Hn). cbn in *. rewrite Hf, <- W0.
    split_and!; try done. split; [done|tauto]. }
  destruct (Q4 a4 eq_refl) as (S4 & I4 & L4 & V4), P4 as [G4 [P4a P4b]]. cbn in G4, P4a, P4b, W4.
  pose proof (gated_trans _ _ _ G0 G4) as (H4 & M4 & _).
  assert (X4 : forall k, slot_of k a4 = slot_of k a).
  { intros k. rewrite <- X0. apply slot_of_ext; [done..|apply G4]. }
  pose proof (fold_admitted_spec key t ov a4 H4) as Hf.
  destruct (fold_admitted key t ov (exchange_timestamp t) a4) as [[st out] a5].
  destruct Hf as (H5 & M5 & W5 & Hf). split; [done|].
  split; [destruct M4 as (?&?&?&?&?), M5 as (?&?&?&?&?); repeat split; congruence|].
  assert (El : agg_len a4 = agg_len a) by (unfold agg_len; by rewrite S4, S0).
  rewrite I4, Hx, El in Hf. rewrite W0 in *. destruct (folded st).
  - destruct Hf as [Hroom (env & He & Ho & Hs & Hk)]. split; [tauto|]. split; [|congruence].
    exists env. rewrite <- X4. split; [|split_and!; try done; intros k ?; rewrite Hk, X4; done].
    destruct He as [E1 E2 E3 E4 E5], M4 as (M1 & M2 & _ & _ & Mauction). split; try congruence.
    + intros Hr. apply E3. congruence.
    + intros Hr Hp. rewrite E4; [|congruence|].
      * rewrite L4. by apply L0.
      * rewrite V4. by apply L0.
  - destruct Hf as (-> & Hu & Hr). split; [split; [done|tauto]|]. split; [done|].
    intros k. rewrite <- X4. apply Hu.
Qed.

(** * The steps of one instrument *)

(** The bars of one instrument among those handed on. *)
Definition mine (key : CompositeKey) (out : list Seal) : list Seal := filter (fun b => b.1.1 = key) out.

Definition sweeps (sweep : InstrumentSlot -> Sweep) : Prop := forall s,
  slot_key (sw_slot (sweep s)) = slot_key s /\ Forall (fun b => b.1.1 = slot_key s) (sw_out (sweep s)).

Lemma mine_all key out : Forall (fun b => b.1.1 = key) out -> mine key out = out.
Proof. intros H. unfold mine. induction H as [|b l Hb _ IH]; [done|]. by rewrite filter_cons_True, IH. Qed.

Lemma mine_none key key' out : key <> key' -> Forall (fun b => b.1.1 = key') out -> mine key out = [].
Proof.
  intros Hne H. unfold mine. induction H as [|b l Hb _ IH]; [done|]. rewrite filter_cons_False; [done|congruence].
Qed.

Lemma mine_app key l l' : mine key (l ++ l') = mine key l ++ mine key l'.
Proof. apply filter_app. Qed.

Lemma mine_others key sweep l : sweeps sweep -> Forall (fun s => slot_key s <> key) l ->
  mine key ((sweep <$> l) ≫= sw_out) = [].
Proof.
  intros Hs H. induction H as [|s l Hn _ IH]; [done|]. rewrite fmap_cons, bind_cons, mine_app, IH, app_nil_r. destruct (Hs s) as [_ Ho].
  exact (mine_none key (slot_key s) _ (not_eq_sym Hn) Ho).
Qed.

Section sweep_lists.
Context (sweep : InstrumentSlot -> Sweep) (Hsw : sweeps sweep).
Implicit Types a : MultiTfAggregator.

Lemma swept_lookup (l : list InstrumentSlot) from stop i : (from <= stop)%nat -> (stop <= length l)%nat ->
  (take from l ++ (sw_slot <$> (sweep <$> take (stop - from) (drop from l))) ++ drop stop l) !! i =
  (if decide (from <= i < stop)%nat then (fun s => sw_slot (sweep s)) <$> l !! i else l !! i).
Proof.
  intros H1 H2. destruct (decide (i < from)%nat).
  { rewrite lookup_app_l by (rewrite length_take; lia). rewrite lookup_take.
    rewrite decide_True by lia. by rewrite decide_False by lia. }
  rewrite lookup_app_r by (rewrite length_take; lia). rewrite length_take, Nat.min_l by lia.
  destruct (decide (i < stop)%nat).
  - rewrite decide_True by lia. rewrite lookup_app_l by (rewrite !length_fmap, length_take, length_drop; lia).
    rewrite !list_lookup_fmap, lookup_take, lookup_drop. rewrite !decide_True by lia.
    replace (from + (i - from))%nat with i by lia. by destruct (l !! i).
  - rewrite decide_False by lia. rewrite lookup_app_r by (rewrite !length_fmap, length_take, length_drop; lia).
    rewrite !length_fmap, length_take, length_drop, lookup_drop. f_equal. lia.
Qed.

Lemma sweep_slots_spec from stop a : indexed a -> (from <= stop)%nat -> (stop <= length (agg_slots a))%nat ->
  let '(out, a') := sweep_slots sweep from stop a in
  indexed a' /\ replay_gap_epoch a' = replay_gap_epoch a /\ agg_index a' = agg_index a /\ forall key,
    (agg_index a !! key = None -> mine key out = []) /\
    ((slot_of key a' = slot_of key a /\ mine key out = [] /\
      forall i, agg_index a !! key = Some i -> ~ (from <= i < stop)%nat) \/
    (slot_of key a' = sw_slot (sweep (slot_of key a)) /\ mine key out = sw_out (sweep (slot_of key a)))).
Proof.
  intros H H1 H2. unfold sweep_slots. set (ws := sweep <$> _).
  set (a' := tset _ _). set (l := agg_slots a) in *.
  assert (El : forall i, agg_slots a' !! i =
    if decide (from <= i < stop)%nat then (fun s => sw_slot (sweep s)) <$> l !! i else l !! i)
    by (intros i; by apply swept_lookup).
  assert (Ei : agg_index a' = agg_index a) by done.
  assert (Ee : replay_gap_epoch a' = replay_gap_epoch a) by done.
  assert (En : length (agg_slots a') = length l).
  { change (agg_slots a') with (take from l ++ (sw_slot <$> ws) ++ drop stop l). subst ws.
    rewrite !length_app, !length_fmap, !length_take, !length_drop. lia. }
  clearbody a'. split; [|split; [done|split; [done|]]].
  { apply (indexed_ext a); try done. intros i. rewrite El. fold l. destruct (decide _); [|done].
    destruct (l !! i) as [s|]; [|done]. cbn. by rewrite (proj1 (Hsw s)). }
  intros key. unfold slot_of, lookup_slot. rewrite Ei, Ee.
  assert (Hn : forall i s, l !! i = Some s -> agg_index a !! key <> Some i -> slot_key s <> key).
  { intros i s Hs Hx <-. by apply Hx, (ix_index _ H). }
  assert (Hout : forall i s, (take (stop - from) (drop from l)) !! i = Some s -> l !! (from + i)%nat = Some s /\ (i < stop - from)%nat).
  { intros i s Hi. apply lookup_take_Some in Hi as [Hi ?]. by rewrite lookup_drop in Hi. }
  destruct (agg_index a !! key) as [i|] eqn:E.
  - split; [done|]. destruct (ix_slot _ H _ _ E) as (s & Hs & Hk). simpl. rewrite El. fold l in Hs |- *. rewrite Hs.
    destruct (decide (from <= i < stop)%nat) as [Hr|Hr]; [right|left]; cbn; (split; [done|]); [|split].
    + assert (Hm : take (stop - from) (drop from l) !! (i - from)%nat = Some s).
      { rewrite lookup_take, lookup_drop by lia. rewrite decide_True by lia. rewrite <- Hs. f_equal. lia. }
      subst ws. rewrite <- (take_drop_middle _ _ _ Hm). rewrite fmap_app, fmap_cons, bind_app. cbn.
      rewrite !mine_app, !mine_others; try done.
      * rewrite app_nil_r. apply mine_all. rewrite <- Hk. apply Hsw.
      * apply Forall_lookup. intros j s' Hj. rewrite lookup_drop in Hj. apply Hout in Hj as [Hj _].
        apply (Hn _ _ Hj). injection. lia.
      * apply Forall_lookup. intros j s' Hj. apply lookup_take_Some in Hj as [Hj ?]. apply Hout in Hj as [Hj _].
        apply (Hn _ _ Hj). injection. lia.
    + apply mine_others; [done|]. apply Forall_lookup. intros j s' Hj. apply Hout in Hj as [Hj ?].
      apply (Hn _ _ Hj). injection. lia.
    + by intros ? [= <-].
  - assert (Hm : mine key (ws ≫= sw_out) = []).
    { apply mine_others; [done|]. apply Forall_lookup. intros j s' Hj.
      apply Hout in Hj as [Hj _]. by apply (Hn _ _ Hj). }
    split; [done|]. by left.
Qed.
End sweep_lists.

(** The sweeps keep keys, and hand on their own instrument's bars. *)
Definition keyed (key : CompositeKey) (w : Sweep) : Prop :=
  slot_key (sw_slot w) = key /\ Forall (fun b => b.1.1 = key) (sw_out w).

Section keyed_sweeps.
Context (key : CompositeKey).
Implicit Types (w : Sweep) (s : InstrumentSlot).

Lemma keyed_slot g w : (forall s, slot_key (g s) = slot_key s) -> keyed key w ->
  keyed key { w with sw_slot ::= g }.
Proof. intros Hg [Hk Ho]. split; [cbn; by rewrite Hg|exact Ho]. Qed.

Lemma keyed_sync e s : keyed (slot_key s) (mkSweep (sync_replay_gap e s) [] 0).
Proof. split; [apply sync_kept|done]. Qed.

Lemma keyed_release live tf w : keyed key w -> keyed key (sweep_release live tf w).
Proof.
  intros [Hk Ho]. unfold sweep_release. pose proof (proj1 (release_kept live tf (sw_slot w))) as Hr.
  assert (Hout : Forall (fun b : Seal => b.1.1 = key) (release_held live tf (sw_slot w)).1.2).
  { unfold release_held. parts. by constructor. }
  destruct (release_held live tf (sw_slot w)) as [[rel out] s]. cbn in *. split; cbn; [congruence|].
  by apply Forall_app.
Qed.

Lemma keyed_out b tf st w : keyed key w -> keyed key (sweep_out b tf st w).
Proof.
  intros [Hk Ho]. unfold sweep_out. destruct b; [by split|]. split; [exact Hk|].
  apply Forall_app. split; [exact Ho|]. by constructor.
Qed.

Lemma keyed_force replay live margin last w tf :
  keyed key w -> keyed key (force_frame replay live margin last w tf).
Proof.
  intros Hw. unfold force_frame. pose proof (keyed_release live tf w Hw) as H1.
  set (w1 := sweep_release live tf w) in *. clearbody w1. set (empty := is_uninitialised _).
  set (w2 := if empty then w1 else _).
  assert (H2 : keyed key w2).
  { subst w2. destruct empty; [done|]. apply keyed_slot; [|done]. intros s. apply hold_kept. }
  clearbody w2 empty. destruct (force_seal tf (cell (sw_slot w2))) as [out c].
  pose proof (keyed_slot (fun s => { s with cell := c }) w2 ltac:(done) H2) as H3. set (w3 := tset _ w2) in *. clearbody w3.
  destruct out as [st|]; [|done]. unfold take_open_partial, roll_replay_bits.
  assert (H4 : forall s, slot_key s = slot_key (sw_slot w3) -> keyed key { w3 with sw_slot := s }).
  { intros s Hs. split; [cbn; rewrite Hs; apply H3|apply H3]. }
  destruct empty; apply keyed_out, H4; done.
Qed.

Lemma keyed_catch_up replay live margin last cutoff w tf :
  keyed key w -> keyed key (catch_up_frame replay live margin last cutoff w tf).
Proof.
  intros Hw. unfold catch_up_frame. set (w1 := if _ && _ then sweep_release live tf w else w).
  assert (H1 : keyed key w1) by (subst w1; destruct (_ && _); [by apply keyed_release|done]). clearbody w1.
  set (w2 := if would_catch_up_seal _ _ _ then _ else w1).
  assert (H2 : keyed key w2).
  { subst w2. destruct (would_catch_up_seal _ _ _); [|done]. apply keyed_slot; [|done]. intros s. apply hold_kept. }
  clearbody w2. destruct (catch_up_seal tf cutoff (cell (sw_slot w2))) as [out c].
  pose proof (keyed_slot (fun s => { s with cell := c }) w2 ltac:(done) H2) as H3. set (w3 := tset _ w2) in *. clearbody w3.
  destruct out as [st|]; [|done]. unfold take_open_partial, roll_replay_bits. cbn zeta.
  set (suppress := _ || _ || _). clearbody suppress. set (w4 := tset _ w3).
  assert (H4 : keyed key w4) by (split; apply H3). clearbody w4.
  destruct suppress; [by apply keyed_out|]. destruct replay; [by apply keyed_slot|by apply keyed_out].
Qed.
End keyed_sweeps.

Lemma sweeps_force replay e live margin last : sweeps (force_slot replay e live margin last).
Proof.
  intros s. unfold force_slot. apply keyed_slot; [done|].
  apply (foldl_ind (keyed (slot_key s))); [apply keyed_sync|intros; by apply keyed_force].
Qed.

Lemma sweeps_catch_up replay e live margin last cutoff : sweeps (catch_up_slot replay e live margin last cutoff).
Proof.
  intros s. unfold catch_up_slot.
  apply (foldl_ind (keyed (slot_key s))); [apply keyed_sync|intros; by apply keyed_catch_up].
Qed.

Lemma sweeps_hand_over ended e live : sweeps (hand_over_slot ended e live).
Proof.
  intros s. unfold hand_over_slot. apply keyed_slot; [done|].
  apply (foldl_ind (keyed (slot_key s))); [|intros; by apply keyed_release].
  split; [apply (keyed_sync e s)|done].
Qed.

(** [withhold_open_buckets] treats each slot alone. *)
Lemma withhold_counters l w c s :
  (foldl withhold_frame (w, c, s) l).2 = (foldl withhold_frame (0, 0, s) l).2.
Proof.
  assert (H : forall acc acc' : Z * Z * InstrumentSlot, acc.2 = acc'.2 ->
    (foldl withhold_frame acc l).2 = (foldl withhold_frame acc' l).2).
  { induction l as [|tf l IH]; intros [[w1 c1] s1] [[w2 c2] s2] E; simpl in E; subst s2; [done|].
    cbn [foldl]. apply IH. unfold withhold_frame. destruct (is_uninitialised (snapshot tf (cell s1))).
    - by destruct (discard_carry tf (cell s1)).
    - by destruct (force_seal tf (cell s1)). }
  by apply H.
Qed.

Lemma withhold_slots a : agg_slots (withhold_open_buckets a).2 = withhold_slot <$> agg_slots a.
Proof.
  unfold withhold_open_buckets.
  assert (H : forall l acc, (foldl (fun acc s => let '(w, c, l) := acc in
      let '(w, c, s) := foldl withhold_frame (w, c, s) ALL in (w, c, l ++ [s])) acc l).2 =
    acc.2 ++ (withhold_slot <$> l)).
  { induction l as [|s l IH]; intros [[w c] l']; [cbn; by rewrite app_nil_r|]. cbn [foldl]. rewrite IH.
    pose proof (withhold_counters ALL w c s) as Hc. destruct (foldl withhold_frame (w, c, s) ALL) as [[w1 c1] s1].
    cbn in Hc |- *. subst s1. by rewrite <- app_assoc. }
  specialize (H (agg_slots a) (0, 0, [])). destruct (foldl _ _ _) as [[w c] l]. exact H.
Qed.

Lemma withhold_key s : slot_key (withhold_slot s) = slot_key s.
Proof.
  unfold withhold_slot. apply (foldl_ind (fun acc => slot_key acc.2 = slot_key s)); [done|].
  intros [[w c] s1] tf E. unfold withhold_frame. destruct (is_uninitialised _).
  - by destruct (discard_carry tf (cell s1)).
  - by destruct (force_seal tf (cell s1)).
Qed.

Inductive slot_step (o : agg_op) (a : MultiTfAggregator) (key : CompositeKey)
    : InstrumentSlot -> list Seal -> InstrumentSlot -> Prop :=
  | StepNoted s s' : noted s s' -> slot_step o a key s [] s'
  | StepFresh e e' : slot_step o a key (new_slot key e) [] (new_slot key e')
  | StepTick muhurat feed t ov env s :
      o = AggTick muhurat feed t ov -> key = (feed, security_id t, exchange_segment_code t) ->
      admissible muhurat key t a -> env_of a env ->
      let r := slot_consume env t ov (exchange_timestamp t) (f32_to_f64_clean (last_traded_price t)) s in
      slot_step o a key s (run_out r) (run_slot r)
  | StepCatchUp cutoff from n s : o = AggCatchUp cutoff from n ->
      let w := catch_up_slot (replay_mode a) (replay_gap_epoch a) (live_capture_from_secs a) (sweep_margin a)
                 (replay_last_frame_secs a) cutoff s in
      slot_step o a key s (sw_out w) (sw_slot w)
  | StepForce s : o = AggForce ->
      let w := force_slot (replay_mode a) (replay_gap_epoch a) (live_capture_from_secs a) (sweep_margin a)
                 (replay_last_frame_secs a) s in
      slot_step o a key s (sw_out w) (sw_slot w)
  | StepWithhold s : o = AggWithhold -> slot_step o a key s [] (withhold_slot s)
  | StepHandOver ended s : o = AggFinish ended -> replay_mode a = true ->
      let w := hand_over_slot ended (replay_gap_epoch a) (live_capture_from_secs a) s in
      slot_step o a key s (sw_out w) (sw_slot w).

Definition op_in_range (o : agg_op) : Prop :=
  match o with AggTick _ _ t ov => tick_in_range t ov | _ => True end.

Lemma slot_step_ext o a key s s' : noted s s' -> slot_step o a key s [] s'.
Proof. apply StepNoted. Qed.

Lemma slot_step_same o a key s : slot_step o a key s [] s.
Proof. apply StepNoted, noted_refl. Qed.

(** A change of epoch reaches the slots when they are next used; a key without a
    slot would get the new one. *)
Lemma epoch_step o a a' key : agg_slots a' = agg_slots a -> agg_index a' = agg_index a -> indexed a ->
  slot_step o a key (slot_of key a) [] (slot_of key a').
Proof.
  intros E1 E2 H. unfold slot_of, lookup_slot. rewrite E1, E2.
  destruct (agg_index a !! key) as [i|] eqn:E; [|apply StepFresh].
  destruct (ix_slot _ H _ _ E) as (s & Hs & _). simpl. rewrite Hs. apply slot_step_same.
Qed.

Lemma sweep_step o ctx a sweep from stop : indexed a -> sweeps sweep ->
  (from <= stop)%nat -> (stop <= length (agg_slots a))%nat ->
  (forall key s, slot_step o ctx key s (sw_out (sweep s)) (sw_slot (sweep s))) ->
  let '(out, a') := sweep_slots sweep from stop a in
  indexed a' /\ agg_index a' = agg_index a /\ forall key,
    (agg_index a !! key = None -> mine key out = []) /\
    slot_step o ctx key (slot_of key a) (mine key out) (slot_of key a').
Proof.
  intros H Hsw H1 H2 Hstep. pose proof (sweep_slots_spec sweep Hsw from stop a H H1 H2) as Hs.
  destruct (sweep_slots sweep from stop a) as [out a'], Hs as (Hi & _ & Ei & Hk). split; [done|]. split; [done|].
  intros key. destruct (Hk key) as [Hn Hd]. split; [done|].
  destruct Hd as [(-> & -> & _)|[-> ->]]; [apply slot_step_same|apply Hstep].
Qed.

Lemma agg_step_slot o a : indexed a -> op_in_range o ->
  let '(out, a') := agg_step o a in
  indexed a' /\ forall key, slot_step o a key (slot_of key a) (mine key out) (slot_of key a').
Proof.
  intros H Hr.
  assert (Hsame : forall a', agg_slots a' = agg_slots a -> agg_index a' = agg_index a ->
    indexed a' /\ forall key, slot_step o a key (slot_of key a) (mine key []) (slot_of key a')).
  { intros a' E1 E2. split; [by apply (indexed_ext_slots a)|]. intros key. by apply epoch_step. }
  destruct o; cbn [agg_step]; try by apply Hsame.
  - pose proof (consume_tick_spec muhurat feed t cumulative_volume_override a H Hr) as Hs. cbv zeta in Hs.
    set (key := (feed, security_id t, exchange_segment_code t)) in *.
    destruct (consume_tick muhurat feed t cumulative_volume_override a) as [[st out] a'].
    destruct Hs as (Hi & _ & Hadm & Hs). split; [done|]. intros k. destruct (folded st).
    + destruct Hs as [(env & He & Ho & Hk & Hother) _]. cbv zeta in Ho, Hk.
      assert (Hkeys : Forall (fun b : Seal => b.1.1 = key) out).
      { rewrite Ho. pose proof (slot_of_key key a H) as Hkey. apply (Forall_impl (fun b : Seal => b.1.1 = slot_key (slot_of key a))); [apply slot_consume_key|].
        intros b. by rewrite Hkey. }
      destruct (decide (k = key)) as [->|Hne].
      * rewrite (mine_all key out Hkeys), Ho, Hk.
        eapply (StepTick _ _ _ muhurat feed t cumulative_volume_override); try done. by apply Hadm.
      * rewrite (mine_none k key out Hne Hkeys), Hother by done. apply slot_step_same.
    + destruct Hs as [-> Hu]. apply StepNoted, Hu.
  - unfold catch_up_seal_slots. set (sw := catch_up_slot _ _ _ _ _ _).
    set (start := Nat.min _ _). set (stop := Nat.min (start + max_slots) _).
    assert (Hb : (start <= stop)%nat /\ (stop <= length (agg_slots a))%nat) by lia. destruct Hb as [B1 B2].
    pose proof (sweep_step (AggCatchUp cutoff from_slot max_slots) a a sw start stop H
      (sweeps_catch_up _ _ _ _ _ _) B1 B2
      (fun key s => StepCatchUp _ a key cutoff from_slot max_slots s eq_refl)) as Hs.
    destruct (sweep_slots sw start stop a) as [out a']. split; [apply Hs|]. intros key. apply Hs.
  - unfold force_seal_all. set (a1 := tset _ a). set (sw := force_slot _ _ _ _ _).
    pose proof (sweep_step AggForce a a1 sw 0 (length (agg_slots a)) (indexed_ext_slots a a1 eq_refl eq_refl H)
      (sweeps_force _ _ _ _ _) ltac:(lia) (le_n _) (fun key s => StepForce AggForce a key s eq_refl)) as Hs.
    destruct (sweep_slots sw 0 (length (agg_slots a)) a1) as [out a'].
    split; [apply Hs|]. intros key. apply Hs.
  - set (a' := snd (withhold_open_buckets a)).
    assert (E : agg_slots a' = withhold_slot <$> agg_slots a /\ agg_index a' = agg_index a /\
      replay_gap_epoch a' = replay_gap_epoch a).
    { split; [apply withhold_slots|]. subst a'. unfold withhold_open_buckets.
      by destruct (foldl _ _ _) as [[? ?] ?]. }
    clearbody a'. destruct E as (Es & Ei & Ee). split.
    + apply (indexed_ext a); [done| |by rewrite Es, length_fmap|done].
      intros i. rewrite Es, list_lookup_fmap. destruct (agg_slots a !! i); [|done]. cbn. by rewrite withhold_key.
    + intros key. unfold slot_of, lookup_slot. rewrite Ei, Es, Ee. destruct (agg_index a !! key) as [i|] eqn:E; [|apply slot_step_same].
      destruct (ix_slot _ H _ _ E) as (s & Hs & _). simpl. rewrite list_lookup_fmap, Hs. by apply StepWithhold.
  - unfold finish_replay. destruct (replay_mode a) eqn:Em; [|by apply Hsame]. cbn [negb].
    set (sw := hand_over_slot _ _ _).
    pose proof (sweep_step (AggFinish ended_on_gap) a a sw 0 (length (agg_slots a)) H
      (sweeps_hand_over _ _ _) ltac:(lia) (le_n _)
      (fun key s => StepHandOver _ a key ended_on_gap s eq_refl Em)) as Hs.
    destruct (sweep_slots sw 0 (length (agg_slots a)) a) as [out a1], Hs as (Hi & Ei & Hs).
    set (a2 := tset _ _). assert (E2 : agg_slots a2 = agg_slots a1 /\ agg_index a2 = agg_index a1) by done.
    clearbody a2. destruct E2 as [Es2 Ei2]. split; [by apply (indexed_ext_slots a1)|].
    intros key. destruct (Hs key) as [Hn Hst]. unfold slot_of, lookup_slot in *. rewrite Es2, Ei2, Ei in *.
    destruct (agg_index a !! key) as [i|] eqn:E.
    + rewrite <- Ei in E. destruct (ix_slot _ Hi _ _ E) as (s & Hs1 & _). simpl in *. by rewrite Hs1 in *.
    + rewrite Hn by done. apply StepFresh.
Qed.

(** * Properties *)

Lemma new_slot_ok key e : slot_ok key (new_slot key e).
Proof. split; [done|]. intros tf. split; intros ?%empty_not_init; done. Qed.

Lemma admissible_facts muhurat key t a : admissible muhurat key t a ->
  f64_ltb f64_zero (f32_to_f64_clean (last_traded_price t)) = true /\ in_u32 (exchange_timestamp t).
Proof.
  intros (Hs & Hp & _). split.
  - unfold tick_price_is_sane in Hp. by apply andb_prop in Hp as [_ ?].
  - unfold MIN_PLAUSIBLE_EXCHANGE_TS_SECS, MAX_PLAUSIBLE_EXCHANGE_TS_SECS in Hs. zints.
Qed.

Lemma slot_step_ok o a key s out s' : slot_step o a key s out s' -> slot_ok key s ->
  slot_ok key s' /\ Forall (seal_ok key) out.
Proof.
  intros [s1 s1' Hn|e e'|muhurat feed t ov env s1 -> -> Hadm He r|cutoff from n s1 -> w|s1 -> w|s1 ->|ended s1 -> Hr w] Hs.
  - split; [|done]. exact (slot_ok_kept _ _ _ (noted_kept _ _ Hn) Hs).
  - split; [apply new_slot_ok|done].
  - destruct (admissible_facts _ _ _ _ Hadm). by apply slot_consume_ok.
  - by apply catch_up_slot_ok.
  - by apply force_slot_ok.
  - split; [by apply withhold_slot_ok|done].
  - by apply hand_over_slot_ok.
Qed.

Definition bars_ok (a : MultiTfAggregator) : Prop := indexed a /\ forall key, slot_ok key (slot_of key a).

Lemma mine_forall (P : CompositeKey -> Seal -> Prop) out :
  (forall key, Forall (P key) (mine key out)) -> Forall (fun b => P b.1.1 b) out.
Proof.
  intros H. apply Forall_forall. intros b Hb. specialize (H b.1.1). rewrite Forall_forall in H.
  apply H. by apply list_elem_of_filter.
Qed.

Lemma agg_step_bars o a : bars_ok a -> op_in_range o ->
  let '(out, a') := agg_step o a in bars_ok a' /\ Forall (fun b => seal_ok b.1.1 b) out.
Proof.
  intros [Hi Hs] Ho. pose proof (agg_step_slot o a Hi Ho) as H. destruct (agg_step o a) as [out a'], H as [Hi' Hk].
  assert (Hok : forall key, slot_ok key (slot_of key a') /\ Forall (seal_ok key) (mine key out)).
  { intros key. apply (slot_step_ok _ _ _ _ _ _ (Hk key) (Hs key)). }
  split; [split; [done|apply Hok]|]. apply mine_forall. apply Hok.
Qed.

Lemma new_bars_ok policy : bars_ok (new_aggregator policy).
Proof. split; [split|]; intros; try done; apply new_slot_ok. Qed.

(** Whatever the aggregator goes through, ticks, catch-up seals, day ends,
    gaps, replays and hand-overs, every bar it hands on is an opened bar of its
    frame with ordered prices on the frame's grid, and the map from instruments to
    slots stays one to one. *)
Theorem published_bars_well_formed policy ops : Forall op_in_range ops ->
  let '(out, a) := agg_run ops (new_aggregator policy) in
  indexed a /\ Forall (fun b => init b.2 /\ bar_ok b.1.2 b.2) out.
Proof.
  intros Ho. assert (H : let '(out, a) := agg_run ops (new_aggregator policy) in
    bars_ok a /\ Forall (fun b => seal_ok b.1.1 b) out).
  { generalize (new_bars_ok policy). generalize (new_aggregator policy) as a.
    induction Ho as [|o ops Ho _ IH]; intros a Ha; [done|]. cbn [agg_run].
    pose proof (agg_step_bars o a Ha Ho) as Hs. destruct (agg_step o a) as [out a1], Hs as [H1 O1].
    specialize (IH a1 H1). destruct (agg_run ops a1) as [outs a2], IH as [H2 O2].
    split; [done|]. by apply Forall_app. }
  destruct (agg_run ops (new_aggregator policy)) as [out a], H as [[Hi _] Hf]. split; [done|].
  apply (Forall_impl _ _ _ Hf). intros [[k tf] st] (_ & ? & ?). done.
Qed.

(** Ticks of one instrument of the cash market, the wire's counter about to wrap. *)
Definition sample_key : CompositeKey := (Dhan, 13, 1).
Definition sample_tick (secs price wire : Z) : ParsedTick :=
  { default_tick with security_id := 13; exchange_segment_code := 1;
      last_traded_price := f32_of_f64 (f64_of_Z price); last_trade_quantity := 1;
      exchange_timestamp := secs; volume := wire }.
Definition sample_tick_op (secs price wire : Z) : agg_op := AggTick false Dhan (sample_tick secs price wire) None.
Definition sample_ops : list agg_op :=
  [sample_tick_op (ten_am + 5) 100 4294967200; sample_tick_op (ten_am + 70) 101 100;
   sample_tick_op (ten_am + 9) 99 60; AggCatchUp (ten_am + 200) 0 100].

Lemma sample_ops_in_range : Forall op_in_range sample_ops.
Proof. unfold sample_ops, op_in_range, tick_in_range, in_i64, in_u32. numbers. Qed.

Lemma published_bars_well_formed_witness :
  let '(out, a) := agg_run sample_ops (new_aggregator Refold) in
  indexed a /\ Forall (fun b => init b.2 /\ bar_ok b.1.2 b.2) out.
Proof. exact (published_bars_well_formed Refold sample_ops sample_ops_in_range). Defined.

(** C18: A tick folds exactly when its stamp and price are plausible, its day
    is the day of its receipt and not before the newest tick's, it lies in the
    session and its instrument has a slot or room for one; a refused tick hands on
    no bar and changes no bar of any instrument, and a folded one only its own
    instrument's. *)
Theorem tick_folds_or_leaves_no_trace muhurat feed t ov a :
  indexed a -> tick_in_range t ov ->
  let key := (feed, security_id t, exchange_segment_code t) in
  let '(st, out, a') := consume_tick muhurat feed t ov a in
  (folded st = true <-> admissible muhurat key t a) /\
  (folded st = false -> out = [] /\ untouched a a') /\
  (folded st = true -> watermark_secs a' / 86400 = exchange_timestamp t / 86400) /\
  Forall (fun b => b.1.1 = key) out /\ indexed a' /\
  forall k, k <> key -> noted (slot_of k a) (slot_of k a').
Proof.
  intros H Hr key. pose proof (consume_tick_spec muhurat feed t ov a H Hr) as Hs. cbv zeta in Hs. fold key in Hs.
  destruct (consume_tick muhurat feed t ov a) as [[st out] a'], Hs as (Hi & _ & Hadm & Hs).
  split; [done|]. destruct (folded st).
  - destruct Hs as [(env & He & Ho & Hk & Hother) Hw]. split; [done|]. split; [|split; [|split; [done|]]].
    + intros _. destruct (proj1 Hadm eq_refl) as (_ & _ & _ & Hd & _). rewrite Hw.
      destruct (Z.max_spec (watermark_secs a) (exchange_timestamp t)) as [[? ->]|[? ->]]; [done|].
      pose proof (Z.div_le_mono (exchange_timestamp t) (watermark_secs a) 86400). lia.
    + rewrite Ho. apply (Forall_impl (fun b : Seal => b.1.1 = slot_key (slot_of key a))); [apply slot_consume_key|].
      intros b. by rewrite slot_of_key.
    + intros k Hne. rewrite Hother by done. apply noted_refl.
  - destruct Hs as [-> Hu]. split_and!; try done.
Qed.

Lemma tick_folds_or_leaves_no_trace_witness :
  admissible false sample_key (sample_tick (ten_am + 5) 100 500) (new_aggregator Refold).
Proof.
  pose proof (tick_folds_or_leaves_no_trace false Dhan (sample_tick (ten_am + 5) 100 500) None
    (new_aggregator Refold) (proj1 (new_bars_ok Refold))
    ltac:(unfold tick_in_range, in_i64, in_u32; numbers)) as H.
  cbv zeta in H. destruct (consume_tick false Dhan _ None _) as [[st out] a] eqn:E.
  apply H. change st with (st, out, a).1.1. rewrite <- E. vm_compute. reflexivity.
Defined.
