(* ===== verification/AggregatorVolume.v ===== *)
(** Conservation of an instrument's volume by the aggregator: over a live day the
    rows each frame publishes add up to the growth of the exchange's counter, the
    wraps of its 32-bit wire form included.  The aggregator's slot keeps the
    promise [CandleVolume.tick_fed] the cell's theorem asks of its caller. *)
From stdpp Require Import functions.
From coqutil Require Import Datatypes.RecordSettersUsingExistingGetters.
From S2P Require Import Prelude Bytes Float FeedTypes PricePrecision Candles AggregatorCell SealRing.
From S2P Require Import CandleVolume MultiTfAggregator AggregatorSlots AggregatorSteps.
Local Open Scope Z_scope.

(** * One frame of a cell *)

(** What the volume of frame [tf] depends on. *)
Definition same_flow (tf : TfIndex) (c c' : AggregatorCell) : Prop :=
  slots c' tf = slots c tf /\ last_sealed c' tf = last_sealed c tf /\
  carried_upto c' tf = carried_upto c tf /\ chain_broken c' tf = chain_broken c tf.

#[global] Instance same_flow_refl tf : Reflexive (same_flow tf).
Proof. by intros c. Qed.
#[global] Instance same_flow_trans tf : Transitive (same_flow tf).
Proof. intros c c' c'' (?&?&?&?) (?&?&?&?). repeat split; congruence. Qed.

Lemma tiled_same tf c c' T b0 M : same_flow tf c c' -> tiled tf c T b0 M -> tiled tf c' T b0 M.
Proof.
  intros (E1 & E2 & E3 & E4) []. split; unfold current, open_volume in *; rewrite ?E1, ?E2, ?E3, ?E4 in *; done.
Qed.

Lemma fresh_same tf c c' : same_flow tf c c' -> fresh tf c -> fresh tf c'.
Proof. intros (E1 & E2 & E3 & E4) []. split; congruence. Qed.

Ltac other_frame := repeat split; cbn; rewrite ?fn_lookup_insert_ne by done; try done.

Section other_frames.
Context (tf tf' : TfIndex) (Hne : tf' <> tf).

Lemma set_slot_other c st : same_flow tf c (set_slot c tf' st).
Proof. other_frame. Qed.
Lemma set_last_other c st : same_flow tf c (set_last_sealed c tf' st).
Proof. other_frame. Qed.
Lemma set_armed_other c b : same_flow tf c (set_armed c tf' b).
Proof. other_frame. Qed.
Lemma set_chain_other c b : same_flow tf c (set_chain_broken c tf' b).
Proof. other_frame. Qed.
Lemma set_carry_other c u n b : same_flow tf c (set_carry c tf' u n b).
Proof. other_frame. Qed.

Lemma carry_other b m g c : same_flow tf c (carry_unattributed tf' b m g c).
Proof. unfold carry_unattributed. destruct (_ && _); [done|]. destruct g; apply set_carry_other. Qed.

Lemma arm_other (b : bool) x c : same_flow tf c (if b then set_armed c tf' x else c).
Proof. destruct b; [apply set_armed_other|done]. Qed.

Lemma fold_other i c : same_flow tf c (fold tf' i c).2.
Proof.
  assert (Hl : same_flow tf c (fold_late tf' i c).2).
  { unfold fold_late. destruct (_ && _ && _); cbn; [|apply carry_other].
    etransitivity; [apply carry_other|apply set_last_other]. }
  unfold fold. destruct (is_uninitialised _); [destruct (_ && _)|destruct (_ =? _); [|destruct (_ <? _)]];
    try exact Hl.
  - unfold fold_first. set (b := _ && _ && _). pose proof (arm_other b false c) as Ha.
    set (c1 := if b then _ else c) in *. clearbody c1. unfold next_bucket_start_cumulative.
    destruct (chain_broken c1 tf'); cbn.
    + etransitivity; [exact Ha|]. etransitivity; [apply (set_chain_other c1 false)|].
      etransitivity; [apply set_carry_other|apply set_slot_other].
    + etransitivity; [exact Ha|]. etransitivity; [apply set_carry_other|apply set_slot_other].
  - unfold fold_same. set (b := _ && _ && _). pose proof (arm_other b false c) as Ha. cbn.
    etransitivity; [exact Ha|apply set_slot_other].
  - unfold fold_roll. set (b := _ || _). pose proof (arm_other b false c) as Ha.
    set (c1 := if b then _ else c) in *. clearbody c1. cbn.
    etransitivity; [exact Ha|]. etransitivity; [apply (set_carry_other c1 0 0 false)|].
    etransitivity; [apply (set_chain_other _ false)|]. etransitivity; [apply set_slot_other|apply set_last_other].
Qed.

Lemma catch_up_other cutoff c : same_flow tf c (catch_up_seal tf' cutoff c).2.
Proof.
  unfold catch_up_seal. destruct (is_uninitialised _); [done|]. destruct (_ <? _); [done|]. cbn.
  etransitivity; [apply (set_carry_other c 0 0 false)|]. etransitivity; [apply set_slot_other|apply set_last_other].
Qed.

Lemma force_other c : same_flow tf c (force_seal tf' c).2.
Proof.
  assert (H : same_flow tf c (set_carry (set_extremes (set_last_sealed (set_armed c tf' true) tf' empty_state) f32_zero f32_zero 0) tf' 0 0 false)).
  { etransitivity; [apply (set_armed_other c true)|]. etransitivity; [apply (set_last_other _ empty_state)|].
    apply (set_carry_other (set_extremes (set_last_sealed (set_armed c tf' true) tf' empty_state) f32_zero f32_zero 0)). }
  unfold force_seal. cbn. destruct (is_uninitialised _); [by destruct (_ || _)|]. cbn.
  etransitivity; [exact H|]. apply set_slot_other.
Qed.

Lemma refresh_other t p secs c : same_flow tf c (refresh_repeat_quote tf' t p secs c).2.
Proof.
  unfold refresh_repeat_quote. destruct (_ || _); [done|]. set (b := _ && _ && _). cbn.
  etransitivity; [apply (arm_other b false)|apply set_slot_other].
Qed.
End other_frames.

(** A repeated quote moves no volume. *)
Lemma refresh_same_tiles tf t p secs c T b0 M :
  tiled tf c T b0 M -> tiled tf (refresh_repeat_quote tf t p secs c).2 T b0 M.
Proof.
  intros H. unfold refresh_repeat_quote. destruct (_ || _) eqn:E; [done|].
  apply orb_false_elim in E as [Ei%is_init _]. cbn. set (b := _ && _ && _).
  set (st1 := if b then _ else slots c tf). set (st2 := fold_book _ _ _ _).
  assert (E : lc_bucket_start st2 = lc_bucket_start (slots c tf) /\ lc_volume st2 = lc_volume (slots c tf) /\
    lc_start_cumulative st2 = lc_start_cumulative (slots c tf)) by (subst st2 st1; by destruct b).
  clearbody st2. destruct E as (Eb & Ev & Es).
  assert (Hi2 : init st2) by (unfold init; by rewrite Eb).
  destruct H as [? ? Hf ? Hc Ht Hh ? Ho Hk]. unfold current, open_volume, end_of in *. rewrite (proj2 (is_init _) Ei) in *.
  destruct b; split; unfold current, open_volume, end_of; cbn; rewrite ?fn_lookup_insert, ?(proj2 (is_init _) Hi2);
    cbn; try done; rewrite ?Eb; unfold flow_ok in *; rewrite ?Ev, ?Es; auto; lia.
Qed.

Lemma refresh_fresh tf t p secs c : fresh tf c -> fresh tf (refresh_repeat_quote tf t p secs c).2.
Proof. intros H. unfold refresh_repeat_quote. by rewrite (f_slot _ _ H). Qed.

(** * The slot of a live day *)

(** The capture began before the session's dial window, whatever the day; so does
    one that has not been set. *)
Definition before_session (secs : Z) : Prop :=
  secs mod SECS_PER_DAY <= CANDLE_SESSION_OPEN_SECS_OF_DAY_IST - PRE_OPEN_DIAL_WINDOW_SECS.

Lemma before_session_starts live secs : before_session live -> capture_is_mid_session live secs = false.
Proof.
  unfold before_session, capture_is_mid_session. intros H. apply andb_false_intro2, Z.ltb_ge.
  unfold CANDLE_SESSION_OPEN_SECS_OF_DAY_IST, PRE_OPEN_DIAL_WINDOW_SECS in *. lia.
Qed.

Lemma before_session_whole live s x : before_session live -> handover_listen_secs s = 0 ->
  started_before_capture x (capture_from live s) = false.
Proof.
  unfold before_session, capture_from, started_before_capture. intros H ->. destruct (live =? 0); [done|].
  apply andb_false_intro1, andb_false_intro2, Z.ltb_ge.
  unfold CANDLE_SESSION_OPEN_SECS_OF_DAY_IST, PRE_OPEN_DIAL_WINDOW_SECS in *.
  destruct (Z.max_spec live 0) as [[_ ->]|[_ ->]]; [done|lia].
Qed.

(** A slot the replay machinery has no hold on. *)
Record clean (e : Z) (s : InstrumentSlot) : Prop := {
  cl_epoch : replay_gap_epoch_seen s = e;
  cl_pending : replay_gap_rebase_pending s = false;
  cl_taint : replay_taint_open s = 0 /\ replay_taint_sealed s = 0;
  cl_held : replay_held s = 0;
  cl_listen : handover_listen_pending s = false;
  cl_listened : handover_listen_secs s = 0;
  cl_trusted : prev_price_untrusted s = false }.

Record live_env (e : Z) (env : TickEnv) : Prop := {
  le_replay : env_replay env = false;
  le_epoch : env_epoch env = e;
  le_from : before_session (env_live_from env);
  le_bound : env_late_bound env = 0 }.

(** The rows of a frame among the bars handed on. *)
Definition rows (tf : TfIndex) (out : list Seal) (T : gmap Z LiveCandleState) : gmap Z LiveCandleState :=
  foldl (fun T b => if decide (b.1.2 = tf) then store T b.2 else T) T out.

#[local] Arguments rows : simpl never.

Lemma rows_app tf l l' T : rows tf (l ++ l') T = rows tf l' (rows tf l T).
Proof. apply foldl_app. Qed.

Lemma rows_one tf key st T : rows tf [(key, tf, st)] T = store T st.
Proof. unfold rows. cbn. by rewrite decide_True. Qed.

Lemma rows_other tf tf' key st T : tf' <> tf -> rows tf [(key, tf', st)] T = T.
Proof. intros H. unfold rows. cbn. by rewrite decide_False. Qed.

Lemma has_bit_zero tf : has_bit 0 tf = false.
Proof. unfold has_bit. by rewrite Z.land_0_l. Qed.
Lemma clear_zero tf : set_bit 0 tf false = 0.
Proof. unfold set_bit. by rewrite Z.ldiff_0_l. Qed.

(** What of the slot the volume is counted by. *)
Definition same_count (s s' : InstrumentSlot) : Prop :=
  last_cumulative s' = last_cumulative s /\ volume_baseline_seeded s' = volume_baseline_seeded s /\
  last_trade_ts s' = last_trade_ts s /\ pre_open_auction_volume s' = pre_open_auction_volume s.

Lemma same_count_trans s s' s'' : same_count s s' -> same_count s' s'' -> same_count s s''.
Proof. intros (?&?&?&?) (?&?&?&?). repeat split; congruence. Qed.

(** A frame that has taken a tick: from the day's first one on, its volume is
    tiled up to the highest counter. *)
Definition frame_told (tf : TfIndex) (told : option (Z * Z)) (c : AggregatorCell) (T : gmap Z LiveCandleState) : Prop :=
  match told with
  | Some (b0, m) => tiled tf c T b0 m
  | None => fresh tf c /\ T = ∅
  end.

Lemma frame_told_same tf told c c' T : same_flow tf c c' -> frame_told tf told c T -> frame_told tf told c' T.
Proof.
  intros H. destruct told as [[b0 m]|]; [by apply tiled_same|]. intros [? ->]. split; [|done]. by apply (fresh_same tf c).
Qed.

Definition tell (i : TickInput) (told : option (Z * Z)) : option (Z * Z) := CandleVolume.told (DayTick i) told.

Lemma fold_told tf i c T told : frame_told tf told c T ->
  tick_fed i (match told with Some (_, m) => m | None => u64_max end) ->
  let '(out, c') := fold tf i c in frame_told tf (tell i told) c' (stored (emitted out) T).
Proof.
  intros H Hf. pose proof (day_step_inv tf (DayTick i) told T c H (conj Hf I)) as Hs.
  unfold day_step in Hs. by destruct (fold tf i c).
Qed.

Lemma roll_live e tf next s : clean e s ->
  let '(suppress, s') := roll_replay_bits tf next false false s in
  suppress = false /\ clean e s' /\ same_count s s' /\ kept s s'.
Proof.
  intros [E1 E2 [E3 E4] E5 E6 E7 E8]. unfold roll_replay_bits. rewrite E3, has_bit_zero.
  split; [apply andb_false_r|]. split; [|by repeat split]. split; cbn; try done. by rewrite E3, E4, Z.ldiff_0_l.
Qed.

Section live_frames.
Context (e : Z) (env : TickEnv) (Henv : live_env e env) (f : TickFacts) (input : TfIndex -> TickInput).
Context (next_partial : bool) (tf : TfIndex) (told : option (Z * Z)).
Context (Hfed : tick_fed (input tf) (match told with Some (_, m) => m | None => u64_max end)).

Lemma no_capture s x : clean e s -> started_before_capture x (capture_from (env_live_from env) s) = false.
Proof. intros H. apply before_session_whole; [exact (le_from _ _ Henv)|exact (cl_listened _ _ H)]. Qed.

(** One frame's turn: its own rows are published, the others' are untouched. *)
Lemma live_frame_step r tf' told0 told1 T :
  clean e (run_slot r) -> frame_told tf told0 (cell (run_slot r)) (rows tf (run_out r) T) ->
  (if decide (tf' = tf) then told0 = told /\ told1 = tell (input tf) told else told1 = told0) ->
  let r' := frame_step env f input false next_partial r tf' in
  clean e (run_slot r') /\ same_count (run_slot r) (run_slot r') /\
  frame_told tf told1 (cell (run_slot r')) (rows tf (run_out r') T).
Proof.
  intros Hc Ht Htold. unfold frame_step, release_first. cbn [andb].
  unfold consume_tick_with_extremes.
  assert (Hcell : let '(out, c') := fold tf' (input tf') (cell (run_slot r)) in
    frame_told tf told1 c'
      (if decide (tf' = tf) then stored (emitted out) (rows tf (run_out r) T) else rows tf (run_out r) T)).
  { destruct (decide (tf' = tf)) as [->|Hne].
    - destruct Htold as [-> ->]. by apply fold_told.
    - subst told1. pose proof (fold_other tf tf' Hne (input tf') (cell (run_slot r))) as Ho.
      destruct (fold tf' _ _) as [out c']. exact (frame_told_same tf told0 _ _ _ Ho Ht). }
  destruct (fold tf' (input tf') (cell (run_slot r))) as [outcome c].
  set (r1 := tset _ r). assert (H1 : clean e (run_slot r1)) by (destruct Hc; by split).
  assert (S1 : same_count (run_slot r) (run_slot r1)) by done.
  assert (C1 : cell (run_slot r1) = c /\ run_out r1 = run_out r) by done. clearbody r1. destruct C1 as [C1 O1].
  assert (Hpub : forall key st, rows tf (run_out r ++ [(key, tf', st)]) T =
    if decide (tf' = tf) then store (rows tf (run_out r) T) st else rows tf (run_out r) T).
  { intros key st. rewrite rows_app. destruct (decide (tf' = tf)) as [->|]; [apply rows_one|by apply rows_other]. }
  assert (Hnone : forall T' : gmap Z LiveCandleState, (if decide (tf' = tf) then T' else T') = T') by (intros; by destruct (decide _)).
  destruct outcome as [|st|st|]; cbn in Hcell; rewrite ?Hnone in Hcell.
  - split; [done|]. split; [done|]. by rewrite C1, O1.
  - unfold on_sealed. rewrite no_capture by done. rewrite (le_replay _ _ Henv).
    pose proof (roll_live e tf' next_partial (run_slot r1) H1) as Hroll.
    destruct (roll_replay_bits _ _ _ _ _) as [suppress s'], Hroll as (-> & H2 & (C2 & C3 & C4 & C5) & [_ K2]). cbn.
    split; [destruct H2; by split|]. split; [destruct S1 as (?&?&?&?); repeat split; cbn; congruence|].
    rewrite K2, C1, O1, Hpub. exact Hcell.
  - unfold on_amended, sealed_is_suppressed. rewrite no_capture by done.
    rewrite (proj2 (cl_taint _ _ H1)), has_bit_zero, (le_replay _ _ Henv). cbn.
    split; [destruct H1; by split|]. split; [exact S1|]. rewrite C1, O1, Hpub. exact Hcell.
  - cbn. split; [done|]. split; [done|]. rewrite C1, O1. exact Hcell.
Qed.

Lemma live_frames l r T : NoDup l ->
  clean e (run_slot r) ->
  frame_told tf told (cell (run_slot r)) (rows tf (run_out r) T) ->
  let r' := foldl (frame_step env f input false next_partial) r l in
  clean e (run_slot r') /\ same_count (run_slot r) (run_slot r') /\
  frame_told tf (if decide (tf ∈ l) then tell (input tf) told else told)
    (cell (run_slot r')) (rows tf (run_out r') T).
Proof.
  intros Hn Hc Ht. set (told0 := told) in Ht |- * at 2.
  assert (H : forall told0, told0 = (if decide (tf ∈ l) then told else told0) ->
    frame_told tf told0 (cell (run_slot r)) (rows tf (run_out r) T) ->
    let r' := foldl (frame_step env f input false next_partial) r l in
    clean e (run_slot r') /\ same_count (run_slot r) (run_slot r') /\
    frame_told tf (if decide (tf ∈ l) then tell (input tf) told else told0)
      (cell (run_slot r')) (rows tf (run_out r') T)).
  2: { apply H; [by destruct (decide _)|done]. }
  clear Ht told0. revert r Hc. induction Hn as [|tf' l Hnin Hn IH]; intros r Hc told0 E Ht.
  - split; [done|]. split; [done|]. rewrite decide_False; [done|]. set_solver.
  - cbn [foldl]. destruct (decide (tf' = tf)) as [->|Hne].
    + assert (Hin : tf ∈ tf :: l) by apply list_elem_of_here. rewrite decide_True in E by done. rewrite decide_True by done.
      pose proof (live_frame_step r tf told0 (tell (input tf) told) T Hc Ht) as Hs.
      rewrite decide_True in Hs by done. destruct (Hs (conj E eq_refl)) as (H1 & S1 & F1).
      destruct (IH _ H1 (tell (input tf) told)) as (H2 & S2 & F2); [by rewrite decide_False|done|].
      rewrite decide_False in F2 by done. split; [done|]. split; [|done].
      exact (same_count_trans _ _ _ S1 S2).
    + pose proof (live_frame_step r tf' told0 told0 T Hc Ht) as Hs. rewrite decide_False in Hs by done.
      destruct (Hs eq_refl) as (H1 & S1 & F1).
      assert (Ein : forall A (x y : A), (if decide (tf ∈ tf' :: l) then x else y) = if decide (tf ∈ l) then x else y).
      { intros A x y. apply decide_ext. rewrite elem_of_cons. split; [intros [?|?]; [congruence|done]|by right]. }
      rewrite Ein in E. rewrite Ein. destruct (IH _ H1 told0 E F1) as (H2 & S2 & F2).
      split; [done|]. split; [|done]. exact (same_count_trans _ _ _ S1 S2).
Qed.
End live_frames.

(** * A tick of a live day *)

(** The counter the tick really carries, and what the day has told so far. *)
Definition counter_told (t : ParsedTick) (ov : option Z) (c d : Z) (told : option (Z * Z)) : Prop :=
  0 <= c /\ c + CUMULATIVE_WRAP_SPAN <= u64_max /\ exchange_timestamp t / SECS_PER_DAY = d /\
  match ov with
  | Some v => v = c
  | None => volume t = c mod CUMULATIVE_WRAP_SPAN /\ (told = None -> c < CUMULATIVE_WRAP_SPAN)
  end /\
  forall b0 m, told = Some (b0, m) -> Z.abs (c - m) < CUMULATIVE_WRAP_WINDOW.

(** Where the frame's first bar of the day starts counting. *)
Definition opening_base (auction : bool) (tf : TfIndex) (t : ParsedTick) (c : Z) (s : InstrumentSlot) : Z :=
  let secs := exchange_timestamp t in
  let base := if untraded_proof_holds (untraded_proof_ist_secs s) secs (exchange_segment_code t) &&
                 (last_trade_quantity t =? c) then 0 else c in
  match first_session_bucket_baseline (exchange_segment_code t) auction (pre_open_auction_volume s) with
  | Some b => if is_days_first_session_bucket tf (bucket_start tf secs) && (b <? base) then b else base
  | None => base
  end.

(** What the frame has been told of after the tick. *)
Definition told_next (auction : bool) (tf : TfIndex) (t : ParsedTick) (c : Z) (s : InstrumentSlot) (told : option (Z * Z))
    : option (Z * Z) :=
  match told with
  | Some (b0, m) => Some (b0, Z.max m c)
  | None => Some (opening_base (auction) tf t c s, c)
  end.

(** The slot of a live day: clean, and counting from [told]. *)
Definition slot_told (e d : Z) (tf : TfIndex) (told : option (Z * Z)) (s : InstrumentSlot)
    (T : gmap Z LiveCandleState) : Prop :=
  clean e s /\ 0 <= pre_open_auction_volume s /\ frame_told tf told (cell s) T /\
  match told with
  | None => volume_baseline_seeded s = false /\ last_cumulative s = 0
  | Some (_, m) => volume_baseline_seeded s = true /\ last_cumulative s = m /\
      last_trade_ts s / SECS_PER_DAY = d /\ 0 <= m /\ m + CUMULATIVE_WRAP_SPAN <= u64_max
  end.

Lemma clean_part e s s' : clean e s ->
  replay_gap_epoch_seen s' = replay_gap_epoch_seen s /\
  replay_gap_rebase_pending s' = replay_gap_rebase_pending s /\
  replay_taint_open s' = replay_taint_open s /\ replay_taint_sealed s' = replay_taint_sealed s /\
  replay_held s' = replay_held s /\ handover_listen_pending s' = handover_listen_pending s /\
  handover_listen_secs s' = handover_listen_secs s /\
  prev_price_untrusted s' = prev_price_untrusted s -> clean e s'.
Proof. intros [? ? [? ?] ? ? ? ?] (?&?&?&?&?&?&?&?). split; try congruence. split; congruence. Qed.

Lemma first_mask_bit tf secs :
  has_bit (foldl (fun m tf => if is_days_first_session_bucket tf (bucket_start tf secs)
                              then set_bit m tf true else m) 0 ALL) tf =
  is_days_first_session_bucket tf (bucket_start tf secs).
Proof.
  unfold ALL. cbn [foldl].
  destruct (is_days_first_session_bucket M1 _) eqn:E1, (is_days_first_session_bucket M3 _) eqn:E2,
    (is_days_first_session_bucket M5 _) eqn:E3, (is_days_first_session_bucket M15 _) eqn:E4,
    (is_days_first_session_bucket S1 _) eqn:E5, (is_days_first_session_bucket M30 _) eqn:E6,
    (is_days_first_session_bucket M60 _) eqn:E7, (is_days_first_session_bucket M10 _) eqn:E8;
    destruct tf; rewrite ?E1, ?E2, ?E3, ?E4, ?E5, ?E6, ?E7, ?E8; reflexivity.
Qed.

Section live_tick.
Context (e d : Z) (env : TickEnv) (Henv : live_env e env).

(** The facts of the tick, in a clean slot. *)
Lemma live_facts tf t ov ltp s told T c :
  slot_told e d tf told s T -> counter_told t ov c d told ->
  let '(f, s0) := tick_facts env t ov (exchange_timestamp t) ltp s in
  (exists m, s0 = { s with widen_memo := m }) /\ fa_tick f = t /\ fa_secs f = exchange_timestamp t /\
  fa_cumulative f = c /\ fa_gap_now f = false /\ fa_seeded_now f = negb (volume_baseline_seeded s) /\
  fa_stale f = (volume_baseline_seeded s && (c <? last_cumulative s)).
Proof.
  intros (Hc & _ & _ & Ht) (H0 & H1 & H2 & H3 & H4). unfold tick_facts.
  destruct (from_tick_memo t ltp (widen_memo s)) as [p m]. unfold sync_replay_gap. cbn.
  rewrite (cl_epoch _ _ Hc), (le_epoch _ _ Henv), Z.eqb_refl.
  unfold note_first_receipt. cbn. rewrite (cl_listen _ _ Hc). cbn [andb].
  assert (Hv : resolve_cumulative t ov (exchange_timestamp t) { s with widen_memo := m } = c).
  { unfold resolve_cumulative. destruct ov as [v|]; [done|]. destruct H3 as [Hv Hn]. cbn. rewrite Hv.
    destruct told as [[b0 M]|].
    - destruct Ht as (-> & -> & Hd & ? & ?). rewrite Hd, H2, Z.eqb_refl.
      apply unwrap_exact; try done. by apply (H4 b0).
    - destruct Ht as [-> _]. unfold unwrap_u32_cumulative. cbn. apply Z.mod_small. split; [done|auto]. }
  cbn. split; [by exists m|]. rewrite Hv. cbn. by rewrite (cl_pending _ _ Hc).
Qed.

(** What a part of the tick leaves of the slot's books. *)
Definition same_book (s s' : InstrumentSlot) : Prop :=
  (replay_gap_epoch_seen s' = replay_gap_epoch_seen s /\
   replay_gap_rebase_pending s' = replay_gap_rebase_pending s /\
   replay_taint_open s' = replay_taint_open s /\ replay_taint_sealed s' = replay_taint_sealed s /\
   replay_held s' = replay_held s /\ handover_listen_pending s' = handover_listen_pending s /\
   handover_listen_secs s' = handover_listen_secs s /\
   prev_price_untrusted s' = prev_price_untrusted s) /\
  pre_open_auction_volume s' = pre_open_auction_volume s /\ cell s' = cell s.

Lemma keeps_book_trans s s' s'' : same_book s s' -> same_book s' s'' -> same_book s s''.
Proof.
  intros ((?&?&?&?&?&?&?&?)&?&?) ((?&?&?&?&?&?&?&?)&?&?). repeat split; congruence.
Qed.

Lemma live_anchor f s : clean e s -> fa_gap_now f = false ->
  fa_seeded_now f = negb (volume_baseline_seeded s) ->
  let s' := anchor env f s in
  same_book s s' /\ volume_baseline_seeded s' = true /\
  last_trade_ts s' = (if fa_stale f then last_trade_ts s else fa_secs f) /\
  last_cumulative s' =
    if volume_baseline_seeded s then last_cumulative s
    else if untraded_proof_holds (untraded_proof_ist_secs s) (fa_secs f) (exchange_segment_code (fa_tick f)) &&
            (last_trade_quantity (fa_tick f) =? fa_cumulative f) then 0 else fa_cumulative f.
Proof.
  intros Hc Hg Hs. unfold anchor, anchor_gap. rewrite Hg, (le_replay _ _ Henv). cbn [andb].
  set (s1 := note_trade f s). assert (H1 : same_book s s1 /\ volume_baseline_seeded s1 = volume_baseline_seeded s /\
    last_cumulative s1 = last_cumulative s /\ untraded_proof_ist_secs s1 = untraded_proof_ist_secs s /\
    last_trade_ts s1 = if fa_stale f then last_trade_ts s else fa_secs f).
  { subst s1. unfold note_trade. by destruct (fa_stale f). }
  clearbody s1. destruct H1 as (B1 & E1 & E2 & E3 & E4).
  assert (H2 : listen_window env f s1 = s1).
  { unfold listen_window. rewrite before_session_starts by exact (le_from _ _ Henv). by rewrite andb_false_r. }
  rewrite H2. unfold seed_baseline. rewrite <- E1, <- E2, <- E3, <- E4.
  destruct (volume_baseline_seeded s1) eqn:E; [done|]. split; [|done].
  apply (keeps_book_trans _ _ _ B1). by repeat split.
Qed.

Lemma live_first_buckets tf f s s0 c :
  fa_gap_now f = false -> fa_cumulative f = c -> fa_secs f = exchange_timestamp (fa_tick f) ->
  fa_seeded_now f = negb (volume_baseline_seeded s0) ->
  pre_open_auction_volume s = pre_open_auction_volume s0 ->
  last_cumulative s = (if volume_baseline_seeded s0 then last_cumulative s0
    else if untraded_proof_holds (untraded_proof_ist_secs s0) (fa_secs f) (exchange_segment_code (fa_tick f)) &&
            (last_trade_quantity (fa_tick f) =? c) then 0 else c) ->
  let '(first_base, mask) := first_buckets env f s in
  (if has_bit mask tf then first_base else last_cumulative s) =
  if volume_baseline_seeded s0 then last_cumulative s0 else opening_base (env_auction env) tf (fa_tick f) c s0.
Proof.
  intros Hg Hc Hs Hn Hp Hl. unfold first_buckets, opening_base. rewrite Hg, Hn, (le_replay _ _ Henv), <- Hs, Hp.
  rewrite before_session_starts by exact (le_from _ _ Henv). cbn [negb andb].
  destruct (volume_baseline_seeded s0); cbn [negb andb]; [by rewrite has_bit_zero|].
  rewrite <- Hl. destruct (first_session_bucket_baseline _ _ _) as [b|]; [|by rewrite has_bit_zero].
  destruct (b <? last_cumulative s) eqn:E; [|by rewrite has_bit_zero, andb_false_r].
  rewrite first_mask_bit, andb_true_r. done.
Qed.

Lemma live_repeat tf told f s T : clean e s -> (exists b0, told = Some (b0, last_cumulative s)) ->
  frame_told tf told (cell s) T ->
  let s' := consume_repeat env f s in
  clean e s' /\ pre_open_auction_volume s' = pre_open_auction_volume s /\ same_count s s' /\
  frame_told tf told (cell s') T.
Proof.
  intros Hc [b0 ->] Ht. unfold consume_repeat. rewrite (le_replay _ _ Henv), (le_bound _ _ Henv). cbn [andb Z.eqb].
  set (m := last_cumulative s) in *.
  assert (H : let acc := foldl (refresh_frame f) (0, s) ALL in
    clean e acc.2 /\ pre_open_auction_volume acc.2 = pre_open_auction_volume s /\ same_count s acc.2 /\
    frame_told tf (Some (b0, m)) (cell acc.2) T).
  { cbv zeta. apply (foldl_ind (fun acc : Z * InstrumentSlot => clean e acc.2 /\
      pre_open_auction_volume acc.2 = pre_open_auction_volume s /\ same_count s acc.2 /\
      frame_told tf (Some (b0, m)) (cell acc.2) T)); [done|].
    intros [bits s1] tf' (H1 & H2 & H3 & H4). unfold refresh_frame. cbn [snd] in *.
    assert (H5 : frame_told tf (Some (b0, m))
      (refresh_repeat_quote tf' (fa_tick f) (fa_prices f) (fa_secs f) (cell s1)).2 T).
    { destruct (decide (tf' = tf)) as [->|Hne].
      - by apply refresh_same_tiles.
      - apply (frame_told_same tf _ (cell s1)); [|done]. by apply refresh_other. }
    destruct (refresh_repeat_quote _ _ _ _ _) as [did c']. cbn [snd] in *.
    split; [by apply (clean_part e s1)|]. by split. }
  destruct (foldl _ _ _) as [bits s1]. exact H.
Qed.

Lemma live_finish f base signed u s :
  clean e s -> let s' := finish_tick env f base u false signed s in
  clean e s' /\ pre_open_auction_volume s' = pre_open_auction_volume s /\
  volume_baseline_seeded s' = volume_baseline_seeded s /\ last_trade_ts s' = last_trade_ts s /\
  last_cumulative s' = Z.max (last_cumulative s) (fa_cumulative f) /\ cell s' = cell s.
Proof.
  intros Hc. unfold finish_tick. rewrite (le_replay _ _ Henv). cbn [andb].
  set (s1 := settle_rule env f base u signed s).
  assert (H1 : clean e s1 /\ pre_open_auction_volume s1 = pre_open_auction_volume s /\ same_count s s1 /\ cell s1 = cell s).
  { subst s1. unfold settle_rule. destruct (_ && _ && _ && _); [|done]. rewrite (le_replay _ _ Henv). cbn [andb].
    set (s2 := tset _ s). assert (H2 : clean e s2) by by apply (clean_part e s).
    destruct (_ =? _); [done|]. split; [by apply (clean_part e s2)|done]. }
  clearbody s1. destruct H1 as (H1 & E1 & (E2 & E3 & E4 & _) & E5). unfold raise_baseline.
  destruct (Z.ltb_spec (last_cumulative s1) (fa_cumulative f)).
  - split; [by apply (clean_part e s1)|]. cbn. split_and!; try done. lia.
  - split; [done|]. split_and!; try done. lia.
Qed.

Lemma opening_range auction tf t c s : 0 <= c -> 0 <= pre_open_auction_volume s ->
  0 <= opening_base auction tf t c s <= c.
Proof.
  intros Hc Hp. unfold opening_base. set (base := if _ && _ then 0 else c).
  assert (Hb : 0 <= base <= c) by (subst base; destruct (_ && _); lia). clearbody base.
  destruct (first_session_bucket_baseline _ _ _) as [b|] eqn:E; [|done].
  assert (0 <= b).
  { unfold first_session_bucket_baseline in E.
    destruct (is_derivative _); [injection E; lia|]. destruct (negb _); [done|].
    destruct auction; [injection E; lia|]. destruct (_ =? _); [done|injection E; lia]. }
  destruct (is_days_first_session_bucket _ _); simpl; [|done]. destruct (Z.ltb_spec b base); lia.
Qed.

(** The same of the run that carries the slot. *)
Definition run_told (tf : TfIndex) (told : option (Z * Z)) (T : gmap Z LiveCandleState) (r : Run) : Prop :=
  slot_told e d tf told (run_slot r) (rows tf (run_out r) T).

Lemma run_told_finish tf told T g h r :
  slot_told e d tf told (g (run_slot r)) (rows tf (run_out r) T) ->
  run_told tf told T { r with run_slot ::= g; run_stats ::= h }.
Proof. by destruct r. Qed.

Lemma live_slot_tick tf t ov ltp s told T c :
  slot_told e d tf told s T -> counter_told t ov c d told -> in_u32 (exchange_timestamp t) ->
  run_told tf (told_next (env_auction env) tf t c s told) T (slot_consume env t ov (exchange_timestamp t) ltp s).
Proof.
  intros Hs Hct Hu. unfold slot_consume. pose proof (live_facts tf t ov ltp s told T c Hs Hct) as Hf.
  destruct (tick_facts env t ov (exchange_timestamp t) ltp s) as [f s0].
  destruct Hf as ([m Es0] & Ft & Fs & Fc & Fg & Fn & Fst).
  destruct Hs as (Hcl & Hpo & Htold & Hbook). destruct Hct as (C0 & C1 & C2 & C3 & C4).
  assert (Hcl0 : clean e s0) by (subst s0; by apply (clean_part e s)).
  assert (E0 : volume_baseline_seeded s0 = volume_baseline_seeded s /\ last_cumulative s0 = last_cumulative s /\
    last_trade_ts s0 = last_trade_ts s /\ untraded_proof_ist_secs s0 = untraded_proof_ist_secs s /\
    pre_open_auction_volume s0 = pre_open_auction_volume s /\ cell s0 = cell s /\
    forall tf, opening_base (env_auction env) tf t c s0 = opening_base (env_auction env) tf t c s) by by subst s0.
  destruct E0 as (E1 & E2 & E3 & E4 & E5 & E6 & E7). clear Es0. rewrite <- E1 in Fn.
  destruct (live_anchor f s0 Hcl0 Fg Fn) as (B1 & A1 & A2 & A3). rewrite Fc in A3.
  cbv zeta. set (s1 := anchor env f s0) in *.
  pose proof (live_first_buckets tf f s1 s0 c Fg Fc ltac:(by rewrite Ft) Fn (proj1 (proj2 B1)) A3) as Hfb.
  clearbody s1. destruct (first_buckets env f s1) as [b0 mask].
  assert (Hcl1 : clean e s1) by (apply (clean_part e s0 _ Hcl0), B1).
  pose proof (proj1 (proj2 B1)) as Hp1. pose proof (proj2 (proj2 B1)) as Hc1. clear B1.
  assert (Hflow : same_flow tf (cell s) (observe_session_extremes_widened t (exchange_timestamp t) (fa_prices f) (cell s1)).2).
  { rewrite Hc1, E6. by repeat split. }
  destruct (observe_session_extremes_widened _ _ _ _) as [ex c1]. cbn [snd] in Hflow.
  set (s2 := { s1 with cell := c1 }).
  assert (Hcl2 : clean e s2) by by apply (clean_part e s1).
  assert (Hb2 : pre_open_auction_volume s2 = pre_open_auction_volume s /\ same_count s1 s2 /\ cell s2 = c1)
    by (split; [cbn; congruence|done]).
  clearbody s2. destruct Hb2 as (Hp2 & (L1 & L2 & L3 & _) & Hc2).
  assert (Ht2 : frame_told tf told (cell s2) T) by (rewrite Hc2; by apply (frame_told_same tf told (cell s))).
  (* what the slot has after the tick, however the frames go *)
  assert (Hend : forall s' T', clean e s' -> pre_open_auction_volume s' = pre_open_auction_volume s ->
    volume_baseline_seeded s' = true -> last_trade_ts s' = last_trade_ts s1 ->
    last_cumulative s' = Z.max (last_cumulative s1) c -> frame_told tf (told_next (env_auction env) tf t c s told) (cell s') T' ->
    slot_told e d tf (told_next (env_auction env) tf t c s told) s' T').
  { intros s' T' H1 H2 H3 H4 H5 H6. split; [done|]. split; [lia|]. split; [done|].
    rewrite H3, H4, H5, A2, A3, E1, E2, E3, Fs, Fst. destruct told as [[b1 M]|]; cbn.
    - destruct Hbook as (-> & -> & Hd & ? & ?). cbn. split_and!; try done; try lia. by destruct (c <? M).
    - destruct Hbook as [-> _]. cbn. split_and!; try done.
      match goal with |- Z.max (if ?b then _ else _) _ = _ => destruct b end; lia. }
  destruct (is_repeat_candidate f s0 && delta_is_empty ex) eqn:Erep.
  - unfold run_told. cbn [run_slot run_out]. apply andb_prop in Erep as [Erep _]. unfold is_repeat_candidate in Erep.
    apply andb_prop in Erep as [[[Es _]%andb_prop Ec%Z.eqb_eq]%andb_prop _]. rewrite E1 in Es. rewrite Fc, E2 in Ec.
    destruct told as [[b1 M]|]; [|destruct Hbook as [Hbook _]; congruence]. destruct Hbook as (_ & Hm & _).
    assert (El : last_cumulative s2 = M) by (rewrite L1, A3, E1, Es, E2; done).
    destruct (live_repeat tf (Some (b1, M)) f s2 T Hcl2 ltac:(exists b1; by rewrite El) Ht2) as (R1 & R2 & (R3 & R4 & R5 & _) & R6).
    apply Hend; cbn [run_slot]; try congruence.
    + rewrite R3, El, L1 in *. lia.
    + change (rows tf _ T) with T. unfold told_next. replace (Z.max M c) with M by lia. exact R6.
  - rewrite (cl_trusted _ _ Hcl2), andb_false_r. cbn [andb].
    replace (trust_again env f false s2) with s2 by done.
    assert (Hk4 : let s4 := (classify env f (last_ltp s0) false (last_cumulative s1) s2).2 in
      clean e s4 /\ pre_open_auction_volume s4 = pre_open_auction_volume s2 /\ same_count s2 s4 /\ cell s4 = cell s2).
    { unfold classify. destruct (fa_stale f); [done|]. destruct (classify_tick_volume _ _ _ _). cbn.
      split; [by apply (clean_part e s2)|done]. }
    destruct (classify _ _ _ _ _ s2) as [signed s4]. cbn [snd] in Hk4. destruct Hk4 as (Hcl4 & Hp4 & (K1 & K2 & K3 & _) & Hc4).
    assert (Hl4 : last_cumulative s4 = last_cumulative s1) by congruence.
    assert (Hres : is_restart f s4 = false).
    { unfold is_restart, CUMULATIVE_RESTART_DROP_FLOOR, CUMULATIVE_WRAP_WINDOW in *. rewrite Fc, Hl4, A3, E1, E2.
      destruct told as [[b1 M]|].
      - destruct Hbook as (-> & -> & _). specialize (C4 _ _ eq_refl). zcases; try done; lia.
      - destruct Hbook as [-> _]. match goal with |- context [if ?b then 0 else c] => destruct b end; zcases; done || lia. }
    rewrite Hres. unfold reanchor, hand_over. rewrite (cl_listen _ _ Hcl4), andb_false_r. cbn [andb].
    rewrite (cl_pending _ _ Hcl4). unfold settle_gap. cbn [andb]. rewrite Fg. unfold mark_late.
    rewrite (le_bound _ _ Henv). cbn [Z.eqb]. rewrite (cl_held _ _ Hcl4). cbn [Z.eqb negb].
    set (input := frame_input env f (last_cumulative s1) b0 mask ex signed).
    assert (Hin : ti_cumulative (input tf) = c /\ ti_secs (input tf) = exchange_timestamp t /\
      ti_baseline (input tf) = match told with Some (_, M) => M | None => opening_base (env_auction env) tf t c s end).
    { subst input. unfold frame_input. assert (Hbase : (if has_bit mask tf then b0 else last_cumulative s1) =
        match told with Some (_, M) => M | None => opening_base (env_auction env) tf t c s end).
      { rewrite Hfb, E1, Ft, E7, E2. destruct told as [[b1 M]|]; [by destruct Hbook as (-> & -> & _)|by destruct Hbook as [-> _]]. }
      rewrite <- Hbase. by destruct (has_bit mask tf). }
    destruct Hin as (I1 & I2 & I3). pose proof (opening_range (env_auction env) tf t c s C0 Hpo) as Ho.
    assert (Hfed : tick_fed (input tf) (match told with Some (_, M) => M | None => u64_max end)).
    { unfold tick_fed. rewrite I1, I2, I3. unfold CUMULATIVE_WRAP_SPAN in *. split; [done|].
      destruct told as [[b1 M]|]; [destruct Hbook as (_ & _ & _ & ? & ?)|]; lia. }
    destruct (live_frames e env Henv f input (fa_seeded_now f || false) tf told Hfed ALL (mkRun s4 default_stats [] 0) T)
      as (R1 & (R2 & R3 & R4 & R2') & R5).
    { apply (bool_decide_unpack _). by vm_compute. }
    { exact Hcl4. }
    { cbn [run_slot run_out]. rewrite Hc4. exact Ht2. }
    rewrite decide_True in R5 by (apply (bool_decide_unpack _); destruct tf; by vm_compute).
    set (r := foldl _ _ _) in *. clearbody r.
    destruct (live_finish f (last_cumulative s1) signed false (run_slot r) R1)
      as (F1 & F2 & F3 & F4 & F5 & F6).
    assert (Erep' : tell (input tf) told = told_next (env_auction env) tf t c s told).
    { unfold tell, told_next. cbn. rewrite I1, I3. destruct told as [[b1 M]|]; [done|]. do 2 f_equal. lia. }
    rewrite <- Erep' in *. cbn [run_slot run_out] in *. apply run_told_finish.
    apply (Hend (finish_tick env f (last_cumulative s1) false false signed (run_slot r))).
    + exact F1.
    + congruence.
    + congruence.
    + congruence.
    + rewrite F5, Fc. congruence.
    + rewrite F6. exact R5.
Qed.
End live_tick.

(** * Sweeps of a live day *)

Section live_sweeps.
Context (e : Z) (tf : TfIndex) (live : Z) (Hlive : before_session live).

Lemma not_held tf' s : clean e s -> release_held live tf' s = (Nothing, [], s).
Proof. intros H. unfold release_held. by rewrite (cl_held _ _ H), has_bit_zero. Qed.

Lemma live_release tf' w : clean e (sw_slot w) -> sweep_release live tf' w = w.
Proof. intros H. unfold sweep_release. rewrite not_held by done. rewrite app_nil_r. by destruct w. Qed.

Lemma live_hold tf' margin last s : clean e s -> hold_unconfirmed_kept tf' margin last s = s.
Proof. intros H. unfold hold_unconfirmed_kept. by rewrite (cl_listen _ _ H). Qed.

Lemma sweep_same g w : g (sw_slot w) = sw_slot w -> { w with sw_slot ::= g } = w.
Proof. destruct w as [s out n]. cbv. by intros ->. Qed.

Lemma sweep_set_out g w : sw_out { w with sw_slot ::= g } = sw_out w.
Proof. by destruct w. Qed.

Lemma live_before s st : clean e s -> sweep_before live st s = false.
Proof. intros H. apply before_session_whole; [done|exact (cl_listened _ _ H)]. Qed.

(** A bar goes out of the sweep, its slot with the cell that is left. *)
Definition swept (s s' : InstrumentSlot) : Prop := clean e s' /\ same_count s s'.

Lemma swept_refl s : clean e s -> swept s s.
Proof. by split. Qed.
Lemma swept_trans s s' s'' : swept s s' -> swept s' s'' -> swept s s''.
Proof. intros [_ H1] [H2 H3]. split; [done|]. by apply (same_count_trans _ s'). Qed.

Lemma live_open_partial tf' s : clean e s ->
  let '(suppress, s') := take_open_partial tf' false false s in
  suppress = false /\ swept s s' /\ cell s' = cell s /\ slot_key s' = slot_key s.
Proof.
  intros H. unfold take_open_partial. pose proof (roll_live e tf' (negb (volume_baseline_seeded s) || replay_gap_rebase_pending s) s H) as Hr.
  destruct (roll_replay_bits _ _ _ _ _) as [b s'], Hr as (-> & ? & ? & [? ?]). done.
Qed.

Lemma rows_out tf' st w T :
  rows tf (sw_out (sweep_out false tf' st w)) T =
  if decide (tf' = tf) then store (rows tf (sw_out w) T) st else rows tf (sw_out w) T.
Proof.
  unfold sweep_out. cbn. rewrite rows_app. destruct (decide (tf' = tf)) as [->|].
  - apply rows_one.
  - by apply rows_other.
Qed.

Section catch_up.
Context (margin last cutoff : Z) (told : option (Z * Z)).

Lemma live_catch_up_frame w tf' T :
  clean e (sw_slot w) -> frame_told tf told (cell (sw_slot w)) (rows tf (sw_out w) T) ->
  let w' := catch_up_frame false live margin last cutoff w tf' in
  swept (sw_slot w) (sw_slot w') /\ frame_told tf told (cell (sw_slot w')) (rows tf (sw_out w') T).
Proof.
  intros Hc Ht. unfold catch_up_frame. rewrite (cl_held _ _ Hc), has_bit_zero. cbn [andb].
  replace (if would_catch_up_seal tf' cutoff (cell (sw_slot w)) then _ else w) with w.
  2: { destruct (would_catch_up_seal _ _ _); [|done]. symmetry. by apply sweep_same, live_hold. }
  assert (Hcell : let '(out, c') := catch_up_seal tf' cutoff (cell (sw_slot w)) in
    frame_told tf told c' (if decide (tf' = tf) then stored out (rows tf (sw_out w) T) else rows tf (sw_out w) T)).
  { destruct (decide (tf' = tf)) as [->|Hne].
    - exact (day_step_inv tf (DayDrain cutoff) told _ _ Ht (conj I I)).
    - pose proof (catch_up_other tf tf' Hne cutoff (cell (sw_slot w))) as Ho.
      destruct (catch_up_seal tf' _ _) as [out c']. exact (frame_told_same tf told _ _ _ Ho Ht). }
  destruct (catch_up_seal tf' cutoff (cell (sw_slot w))) as [out c].
  set (w1 := tset _ w). assert (H1 : swept (sw_slot w) (sw_slot w1)) by (split; [by apply (clean_part e (sw_slot w))|done]).
  assert (E1 : cell (sw_slot w1) = c /\ sw_out w1 = sw_out w) by done. clearbody w1. destruct E1 as [C1 O1].
  destruct out as [st|].
  - rewrite live_before by exact (proj1 H1). pose proof (live_open_partial tf' _ (proj1 H1)) as Hp.
    destruct (take_open_partial _ _ _ _) as [suppress s'], Hp as (-> & H2 & C2 & _). split.
    + apply (swept_trans _ _ _ H1). exact H2.
    + rewrite rows_out. cbn [sw_slot sw_out sweep_out]. change (cell _) with (cell s'). rewrite C2, C1.
      change (sw_out _) with (sw_out w1). by rewrite O1.
  - split; [done|]. rewrite C1, O1. by destruct (decide (tf' = tf)).
Qed.

Lemma live_catch_up d s T : slot_told e d tf told s T ->
  let w := catch_up_slot false e live margin last cutoff s in
  slot_told e d tf told (sw_slot w) (rows tf (sw_out w) T).
Proof.
  intros (Hc & Hp & Ht & Hb). unfold catch_up_slot, sync_replay_gap. rewrite (cl_epoch _ _ Hc), Z.eqb_refl.
  set (w := foldl _ _ _). assert (H : swept s (sw_slot w) /\ frame_told tf told (cell (sw_slot w)) (rows tf (sw_out w) T)).
  { subst w. apply (foldl_ind (fun w => swept s (sw_slot w) /\ frame_told tf told (cell (sw_slot w)) (rows tf (sw_out w) T))).
    - split; [by apply swept_refl|done].
    - intros w tf' [H1 H2]. destruct (live_catch_up_frame w tf' T (proj1 H1) H2) as [H3 H4].
      split; [by apply (swept_trans _ _ _ H1)|done]. }
  clearbody w. destruct H as ([H1 (L1 & L2 & L3 & L4)] & H2). split; [done|]. split; [lia|]. split; [done|].
  by rewrite L1, L2, L3.
Qed.
End catch_up.

Section force.
Context (margin last : Z) (told : option (Z * Z)).

Lemma live_force_frame w tf' T : clean e (sw_slot w) ->
  let w' := force_frame false live margin last w tf' in
  swept (sw_slot w) (sw_slot w') /\
  (tf' <> tf -> same_flow tf (cell (sw_slot w)) (cell (sw_slot w')) /\ rows tf (sw_out w') T = rows tf (sw_out w) T) /\
  (tf' = tf -> frame_told tf told (cell (sw_slot w)) (rows tf (sw_out w) T) ->
    total (rows tf (sw_out w') T) = day_volume told).
Proof.
  intros Hc. unfold force_frame. rewrite live_release by done. set (empty := is_uninitialised _). cbv zeta.
  replace (if empty then w else _) with w.
  2: { destruct empty; [done|]. symmetry. by apply sweep_same, live_hold. }
  assert (Hcell : let '(out, c') := force_seal tf' (cell (sw_slot w)) in
    (tf' <> tf -> same_flow tf (cell (sw_slot w)) c') /\
    (tf' = tf -> frame_told tf told (cell (sw_slot w)) (rows tf (sw_out w) T) ->
      total (stored out (rows tf (sw_out w) T)) = day_volume told)).
  { pose proof (fun H => force_other tf tf' H (cell (sw_slot w))) as Ho.
    destruct (force_seal tf' (cell (sw_slot w))) as [out c'] eqn:E. split; [exact Ho|]. intros ->.
    destruct told as [[b0 m]|].
    - intros H%force_total. by rewrite E in H.
    - intros [[Hf1 Hf2] ->]. cbn. unfold force_seal in E. cbn in E. rewrite Hf1, Hf2 in E. cbn in E.
      rewrite orb_true_r in E. by injection E as <- _. }
  destruct (force_seal tf' (cell (sw_slot w))) as [out c].
  set (w1 := tset _ w). assert (H1 : swept (sw_slot w) (sw_slot w1)) by (split; [by apply (clean_part e (sw_slot w))|done]).
  assert (E1 : cell (sw_slot w1) = c /\ sw_out w1 = sw_out w) by done. clearbody w1. destruct E1 as [C1 O1].
  destruct Hcell as [Hn Ht]. destruct out as [st|].
  2: { split; [done|]. rewrite C1, O1. split; [|done]. auto. }
  rewrite live_before by exact (proj1 H1).
  assert (Hp : let '(suppress, s') := if empty then (sealed_is_suppressed tf' false false (sw_slot w1), sw_slot w1)
      else take_open_partial tf' false false (sw_slot w1) in
    suppress = false /\ swept (sw_slot w1) s' /\ cell s' = cell (sw_slot w1)).
  { destruct empty.
    - unfold sealed_is_suppressed. rewrite (proj2 (cl_taint _ _ (proj1 H1))), has_bit_zero. cbn.
      split; [done|]. split; [by apply swept_refl, H1|done].
    - pose proof (live_open_partial tf' _ (proj1 H1)) as Hp.
      destruct (take_open_partial _ _ _ _) as [suppress s'], Hp as (-> & ? & ? & _). done. }
  destruct (if empty then _ else _) as [suppress s'], Hp as (-> & H2 & C2). rewrite rows_out.
  change (sw_slot (sweep_out _ _ _ _)) with s'. change (sw_out { w1 with sw_slot := s' }) with (sw_out w1).
  split; [by apply (swept_trans _ _ _ H1)|]. rewrite C2, C1, O1. split; intros Heq.
  - rewrite decide_False by done. auto.
  - rewrite decide_True by done. auto.
Qed.

Lemma live_force d s T : slot_told e d tf told s T ->
  total (rows tf (sw_out (force_slot false e live margin last s)) T) = day_volume told.
Proof.
  intros (Hc & _ & Ht & _). unfold force_slot, sync_replay_gap. rewrite (cl_epoch _ _ Hc), Z.eqb_refl.
  set (w0 := mkSweep s [] 0). rewrite sweep_set_out.
  assert (Hin : tf ∈ ALL) by (apply (bool_decide_unpack _); destruct tf; by vm_compute).
  assert (Hnd : NoDup ALL) by (apply (bool_decide_unpack _); by vm_compute).
  apply list_elem_of_split in Hin as (l1 & l2 & E). rewrite E in Hnd |- *.
  apply NoDup_app in Hnd as (_ & Hl1 & [Hl2 _]%NoDup_cons). rewrite foldl_app. cbn [foldl].
  assert (Hpass : forall l w, tf ∉ l -> clean e (sw_slot w) ->
    let w' := foldl (force_frame false live margin last) w l in
    clean e (sw_slot w') /\ same_flow tf (cell (sw_slot w)) (cell (sw_slot w')) /\
    rows tf (sw_out w') T = rows tf (sw_out w) T).
  { induction l as [|tf' l IH]; intros w Hni Hw; [done|]. cbn [foldl].
    apply not_elem_of_cons in Hni as [Hne Hni]. destruct (live_force_frame w tf' T Hw) as ([H1 _] & H2 & _).
    destruct (H2 (not_eq_sym Hne)) as [F1 R1]. destruct (IH _ Hni H1) as (H3 & F2 & R2).
    split; [done|]. split; [by etransitivity|congruence]. }
  destruct (Hpass l1 w0) as (H1 & F1 & R1); [|done|].
  { intros Hx. by apply (Hl1 tf Hx), list_elem_of_here. }
  set (w1 := foldl _ w0 l1) in *. clearbody w1. destruct (live_force_frame w1 tf T H1) as ([H2 _] & _ & H3).
  set (w2 := force_frame _ _ _ _ w1 tf) in *. clearbody w2. destruct (Hpass l2 w2) as (_ & _ & R2); [done..|].
  rewrite R2. apply H3; [done|]. rewrite R1. exact (frame_told_same tf told _ _ _ F1 Ht).
Qed.
End force.
End live_sweeps.

(** * The live day of the aggregator *)

(** The aggregator of a live feed that has not been replayed into. *)
Record live_agg (a : MultiTfAggregator) : Prop := {
  la_indexed : indexed a;
  la_replay : replay_mode a = false;
  la_from : before_session (live_capture_from_secs a);
  la_confirmed : capture_start_provisional a = false }.

(** What a live day does: ticks, catch-up seals, the settings they use, and the
    start of the capture, before the session, with nothing replayed to hand over. *)
Definition live_op (o : agg_op) : bool :=
  match o with
  | AggTick _ _ _ _ | AggCatchUp _ _ _ | AggMargin _ | AggWatermark _ | AggResetWatermark => true
  | AggFinish _ => true
  | AggCapture secs => secs mod SECS_PER_DAY <=? CANDLE_SESSION_OPEN_SECS_OF_DAY_IST - PRE_OPEN_DIAL_WINDOW_SECS
  | _ => false
  end.

(** The counter and day of the ticks taken from the instrument, each at most a
    window away from the highest before it. *)
Definition taken (key : CompositeKey) (o : agg_op) (a : MultiTfAggregator) : option (ParsedTick * option Z) :=
  match o with
  | AggTick muhurat feed t ov =>
      if bool_decide ((feed, security_id t, exchange_segment_code t) = key) &&
         folded (consume_tick muhurat feed t ov a).1.1
      then Some (t, ov) else None
  | _ => None
  end.

Definition op_told (key : CompositeKey) (tf : TfIndex) (o : agg_op) (c : Z) (a : MultiTfAggregator)
    (told : option (Z * Z)) : option (Z * Z) :=
  match taken key o a with
  | Some (t, _) => told_next (first_bar_includes_auction a) tf t c (slot_of key a) told
  | None => told
  end.

(** The run of a day: each operation with the counter its tick carries. *)
Fixpoint day_fed (key : CompositeKey) (tf : TfIndex) (d : Z) (ops : list (agg_op * Z)) (a : MultiTfAggregator)
    (told : option (Z * Z)) : Prop :=
  match ops with
  | [] => True
  | (o, c) :: ops =>
      live_op o = true /\ op_in_range o /\
      match taken key o a with Some (t, ov) => counter_told t ov c d told | None => True end /\
      day_fed key tf d ops (agg_step o a).2 (op_told key tf o c a told)
  end.

(** What the day told of the instrument: where the frame's bars start counting,
    and the highest counter of the ticks taken. *)
Fixpoint day_told (key : CompositeKey) (tf : TfIndex) (ops : list (agg_op * Z)) (a : MultiTfAggregator)
    (told : option (Z * Z)) : option (Z * Z) :=
  match ops with
  | [] => told
  | (o, c) :: ops => day_told key tf ops (agg_step o a).2 (op_told key tf o c a told)
  end.

(** Nothing of a tick touches the live capture's start once it is confirmed. *)
Definition same_capture (a a' : MultiTfAggregator) : Prop :=
  live_capture_from_secs a' = live_capture_from_secs a /\
  capture_start_provisional a' = capture_start_provisional a.

#[global] Instance same_capture_refl : Reflexive same_capture.
Proof. by intros a. Qed.
#[global] Instance same_capture_trans : Transitive same_capture.
Proof. intros a a' a'' (?&?) (?&?). split; congruence. Qed.

Lemma slot_index_capture key a : same_capture a (slot_index key a).2.
Proof. unfold slot_index. destruct (agg_index a !! key); [done|]. by destruct (_ <=? _). Qed.

Lemma live_proof_capture key received a : same_capture a (live_proof_slot key received a).2.
Proof.
  unfold live_proof_slot. destruct (replay_mode a); [done|]. destruct (receipt_ist_secs_of received); [|done].
  destruct (_ <? _); [done|]. destruct (agg_index a !! key); [done|]. destruct (_ <=? _); [done|].
  pose proof (slot_index_capture key a). by destruct (slot_index key a).
Qed.

Lemma record_proof_capture key received a : same_capture a (record_untraded_proof key received a).
Proof.
  unfold record_untraded_proof. pose proof (live_proof_capture key received a).
  destruct (live_proof_slot _ _ _) as [[[i p]|] a']; [|done]. done.
Qed.

Lemma record_auction_capture key received v a : same_capture a (record_pre_open_auction key received v a).
Proof.
  unfold record_pre_open_auction. destruct (_ || _); [done|]. pose proof (live_proof_capture key received a).
  destruct (live_proof_slot _ _ _) as [[[i p]|] a']; [|done]. done.
Qed.

Lemma gate_capture {A} a0 r rest (none : A) : same_capture a0 r.2 ->
  (forall a, r = (None, a) -> same_capture a (rest a).2) -> same_capture a0 (gate r rest none).2.
Proof.
  destruct r as [[st|] a]; intros H Hr; [done|]. cbn in *. etransitivity; [exact H|]. by apply Hr.
Qed.

Lemma fold_admitted_capture key t ov secs a : same_capture a (fold_admitted key t ov secs a).2.
Proof.
  unfold fold_admitted. pose proof (slot_index_capture key a) as H. destruct (slot_index key a) as [[i|] a1]; [|done].
  cbn in H. destruct (replay_mode a1); cbn; destruct (agg_slots a1 !! i); done.
Qed.

Lemma consume_tick_capture muhurat feed t ov a : replay_mode a = false -> capture_start_provisional a = false ->
  same_capture a (consume_tick muhurat feed t ov a).2.
Proof.
  intros Hr Hp. unfold consume_tick. set (key := (feed, security_id t, exchange_segment_code t)).
  assert (E : admit_clock a (received_at_nanos t) = a) by (unfold admit_clock; by rewrite Hr, Hp). rewrite E.
  apply gate_capture.
  { unfold admit_stamp. destruct (_ && negb _); [destruct (f64_eqb _ _); [apply record_proof_capture|done]|].
    by destruct (_ || _). }
  intros a1 _. apply gate_capture.
  { unfold admit_price. destruct (f64_eqb _ _); [|by destruct (negb _)].
    destruct (receipt_ist_secs_of _); [|done]. destruct (_ <? _); [apply record_proof_capture|done]. }
  intros a2 _. apply gate_capture.
  { unfold admit_day. destruct (0 <? _); [|done]. destruct (_ <? _); [done|].
    destruct (_ <? _); [apply record_proof_capture|]. by destruct (_ <? _). }
  intros a3 _. apply gate_capture; [|intros; apply fold_admitted_capture].
  unfold admit_session. set (a4 := if watermark_secs a3 <? _ then _ else a3).
  assert (H4 : same_capture a3 a4) by (subst a4; by destruct (_ <? _)). clearbody a4.
  destruct (_ <? _); [done|]. destruct (is_out_of_session _ _); [|done]. cbn. destruct (_ && _); [|done].
  etransitivity; [exact H4|apply record_auction_capture].
Qed.

Lemma slot_told_noted e d tf told s s' T : noted s s' -> slot_told e d tf told s T -> slot_told e d tf told s' T.
Proof.
  intros (p & v & -> & Hv) (H1 & H2 & H3 & H4). split; [by apply (clean_part e s)|]. split; [auto|]. by split.
Qed.

Lemma live_step key tf d o c a told T : live_agg a -> live_op o = true -> op_in_range o ->
  match taken key o a with Some (t, ov) => counter_told t ov c d told | None => True end ->
  slot_told (replay_gap_epoch a) d tf told (slot_of key a) T ->
  let '(out, a') := agg_step o a in
  live_agg a' /\ slot_told (replay_gap_epoch a') d tf (op_told key tf o c a told) (slot_of key a') (rows tf (mine key out) T).
Proof.
  intros [Hi Hr Hf Hp] Hl Hin Hc Hs.
  assert (Hset : forall a', before_session (live_capture_from_secs a') -> capture_start_provisional a' = capture_start_provisional a -> replay_mode a' = replay_mode a -> agg_slots a' = agg_slots a ->
    agg_index a' = agg_index a -> replay_gap_epoch a' = replay_gap_epoch a ->
    taken key o a = None ->
    live_agg a' /\ slot_told (replay_gap_epoch a') d tf (op_told key tf o c a told) (slot_of key a') (rows tf (mine key []) T)).
  { intros a' C1 C2 M1 E1 E2 E3 Et. split.
    - split; [by apply (indexed_ext_slots a)|congruence|done|congruence].
    - unfold op_told. rewrite Et. rewrite (slot_of_ext key a a') by done. by rewrite E3. }
  destruct o; try done; cbn [agg_step]; try (by apply Hset).
  3: { unfold finish_replay. rewrite Hr. by apply Hset. }
  3: { apply Hset; try done. by apply Z.leb_le. }
  - pose proof (consume_tick_spec muhurat feed t cumulative_volume_override a Hi Hin) as Hx.
    pose proof (consume_tick_capture muhurat feed t cumulative_volume_override a Hr Hp) as [C1 C2]. cbv zeta in Hx.
    unfold op_told, taken in *. set (k := (feed, security_id t, exchange_segment_code t)) in *.
    destruct (consume_tick muhurat feed t cumulative_volume_override a) as [[st out] a'].
    cbn [fst snd] in *. destruct Hx as (Hi' & (M1 & M2 & _) & Hadm & Hx).
    split; [split; congruence|]. rewrite M2. destruct (folded st) eqn:Ef.
    + destruct Hx as [(env & He & Ho & Hk & Hother) _]. cbv zeta in Ho, Hk. rewrite andb_true_r in *.
      assert (Hkeys : Forall (fun b : Seal => b.1.1 = k) out).
      { rewrite Ho. apply (Forall_impl (fun b : Seal => b.1.1 = slot_key (slot_of k a))); [apply slot_consume_key|].
        intros b. by rewrite slot_of_key. }
      destruct (bool_decide_reflect (k = key)) as [E|Hne].
      * rewrite <- E in *. rewrite (mine_all k out Hkeys), Ho, Hk. rewrite <- (eo_auction _ _ He).
        apply live_slot_tick; [|done|done|].
        -- destruct He as [? He2 He3 He4 _]. split; try congruence; auto. rewrite He4 by done. done.
        -- apply (admissible_facts muhurat k t a). by apply Hadm.
      * rewrite (mine_none key k out (not_eq_sym Hne) Hkeys), Hother by done. exact Hs.
    + destruct Hx as [-> Hu]. rewrite andb_false_r. exact (slot_told_noted _ _ _ _ _ _ _ (Hu key) Hs).
  - unfold catch_up_seal_slots. set (sw := catch_up_slot _ _ _ _ _ _).
    set (start := Nat.min _ _). set (stop := Nat.min (start + max_slots) _).
    assert (Hb : (start <= stop)%nat /\ (stop <= length (agg_slots a))%nat) by lia. destruct Hb as [B1 B2].
    pose proof (sweep_slots_spec sw (sweeps_catch_up _ _ _ _ _ _) start stop a Hi B1 B2) as Hx.
    assert (Hcap : same_capture a (sweep_slots sw start stop a).2 /\ replay_mode (sweep_slots sw start stop a).2 = replay_mode a) by done.
    destruct (sweep_slots sw start stop a) as [out a'], Hx as (Hi' & Ee & _ & Hx), Hcap as [[C1 C2] C3].
    cbn in C1, C2, C3. split; [split; congruence|]. rewrite Ee. unfold op_told. cbn [taken].
    destruct (proj2 (Hx key)) as [(-> & -> & _)|[-> ->]]; [done|]. subst sw. rewrite Hr. by apply live_catch_up.
Qed.

Lemma new_slot_told d tf key e : slot_told e d tf None (new_slot key e) ∅.
Proof. split; [by split|]. split; [done|]. split; [|done]. split; [by split|done]. Qed.

Lemma live_day key tf d ops : forall a told T, live_agg a ->
  slot_told (replay_gap_epoch a) d tf told (slot_of key a) T -> day_fed key tf d ops a told ->
  let '(out, a') := agg_run (fst <$> ops) a in
  live_agg a' /\ slot_told (replay_gap_epoch a') d tf (day_told key tf ops a told) (slot_of key a') (rows tf (mine key out) T).
Proof.
  induction ops as [|[o c] ops IH]; intros a told T Ha Hs Hf; [done|]. cbn [agg_run day_told fmap list_fmap fst].
  destruct Hf as (Hl & Hr & Hc & Hf). pose proof (live_step key tf d o c a told T Ha Hl Hr Hc Hs) as H1.
  destruct (agg_step o a) as [out a1], H1 as [Ha1 Hs1]. cbn [snd] in *.
  specialize (IH a1 _ _ Ha1 Hs1 Hf). destruct (agg_run (fst <$> ops) a1) as [outs a2].
  by rewrite mine_app, rows_app.
Qed.

(** C9: Over a live day of a process whose capture began before the 09:10 dial
    window with nothing to replay, of any ticks of any instruments, catch-up seals
    and setting changes, the rows a timeframe stores for an instrument by the
    day's end add up exactly to the growth of that instrument's own 64-bit
    counter, read through its 32-bit wire form and its wraps, however late,
    repeated or out of order its ticks come, provided they are of one day, the
    first counter read is under 2^32 and each counter is within 2^28 of the
    highest before it. *)
Theorem day_volume_is_the_counter policy key tf d ops :
  day_fed key tf d ops (new_aggregator policy) None ->
  let '(out, a) := agg_run (fst <$> ops) (new_aggregator policy) in
  total (rows tf (mine key (out ++ (force_seal_all a).1)) ∅) =
  day_volume (day_told key tf ops (new_aggregator policy) None).
Proof.
  intros Hf. assert (Ha : live_agg (new_aggregator policy)) by (split; [apply new_bars_ok|done..]).
  pose proof (live_day key tf d ops (new_aggregator policy) None ∅ Ha (new_slot_told _ _ _ _) Hf) as Hd.
  destruct (agg_run (fst <$> ops) (new_aggregator policy)) as [out a], Hd as [[Hi Hr Hl Hp] Hs].
  unfold force_seal_all. rewrite mine_app, rows_app, Hr. set (a1 := tset _ a). set (sw := force_slot _ _ _ _ _).
  pose proof (sweep_slots_spec sw (sweeps_force _ _ _ _ _) 0 (length (agg_slots a)) a1
    (indexed_ext_slots a a1 eq_refl eq_refl Hi) ltac:(lia) (le_n _)) as Hx.
  destruct (sweep_slots sw 0 (length (agg_slots a)) a1) as [out1 a2], Hx as (_ & _ & _ & Hx).
  destruct (Hx key) as [Hnone Hd]. cbn [fst].
  assert (Es : slot_of key a1 = slot_of key a) by by apply slot_of_ext.
  destruct (agg_index a !! key) as [i|] eqn:Ei.
  - destruct (ix_slot _ Hi _ _ Ei) as (s & Hsl & _). apply lookup_lt_Some in Hsl.
    destruct Hd as [(_ & _ & Hd)|[_ ->]]; [destruct (Hd i Ei); lia|]. rewrite Es. subst sw. by apply (live_force _ _ _ Hl _ _ _ d).
  - rewrite Hnone by done. unfold slot_of, lookup_slot in Hs. rewrite Ei in Hs.
    destruct (day_told _ _ _ _ _) as [[b0 m]|]; destruct Hs as (_ & _ & Ht & Hb); [by destruct Hb|].
    destruct Ht as [_ ->]. done.
Qed.

(** The day of a process started at nine: it notes when its capture began, has
    nothing to hand over, and takes the ticks with the counters they carry: 196
    traded across the wrap. *)
Definition sample_live_day : list (agg_op * Z) :=
  (AggCapture (ten_am - 3600), 0) :: (AggFinish false, 0) ::
  zip sample_ops [4294967200; 4294967396; 4294967356; 0].

Lemma day_fed_cons key tf d o c ops a told t told' :
  live_op o = true -> op_in_range o -> taken key o a = t ->
  match t with Some (t, ov) => counter_told t ov c d told | None => True end ->
  op_told key tf o c a told = told' -> day_fed key tf d ops (agg_step o a).2 told' ->
  day_fed key tf d ((o, c) :: ops) a told.
Proof. by intros ? ? <- ? <- ?. Qed.

Ltac feed t told :=
  apply (day_fed_cons _ _ _ _ _ _ _ _ t told);
  [reflexivity | unfold op_in_range, tick_in_range, in_i64, in_u32; numbers | vm_compute; reflexivity |
   | vm_compute; reflexivity |].

Lemma sample_live_day_fed : day_fed sample_key M1 20000 sample_live_day (new_aggregator Refold) None.
Proof.
  do 2 (feed (@None (ParsedTick * option Z)) (@None (Z * Z)); [done|]).
  feed (Some (sample_tick (ten_am + 5) 100 4294967200, @None Z)) (Some (4294967200, 4294967200)).
  { unfold counter_told. do 4 (split; [numbers|]). by intros ? ? [=]. }
  feed (Some (sample_tick (ten_am + 70) 101 100, @None Z)) (Some (4294967200, 4294967396)).
  { unfold counter_told. do 4 (split; [numbers|]). intros ? ? [= <- <-]. numbers. }
  feed (Some (sample_tick (ten_am + 9) 99 60, @None Z)) (Some (4294967200, 4294967396)).
  { unfold counter_told. do 4 (split; [numbers|]). intros ? ? [= <- <-]. numbers. }
  feed (@None (ParsedTick * option Z)) (Some (4294967200, 4294967396)).
  { done. }
  exact I.
Qed.

Lemma day_volume_is_the_counter_witness :
  let '(out, a) := agg_run (fst <$> sample_live_day) (new_aggregator Refold) in
  total (rows M1 (mine sample_key (out ++ (force_seal_all a).1)) ∅) =
  day_volume (Some (4294967200, 4294967396)).
Proof.
  replace (Some (4294967200, 4294967396)) with
    (day_told sample_key M1 sample_live_day (new_aggregator Refold) None) by (vm_compute; reflexivity).
  apply (day_volume_is_the_counter Refold sample_key M1 20000 sample_live_day). exact sample_live_day_fed.
Defined.
