(* ===== verification/TickGap.v ===== *)
(** The tick-gap tracker ([trading/src/risk/tick_gap_tracker.rs]): per-instrument
    arrival gaps with a warm-up, a backlog filter, an edge-triggered error alert,
    stale-price alerts and the out-of-order detector.  Clock readings are
    arguments; the alert lines a call logs are part of its result. *)
From coqutil Require Import Datatypes.RecordSettersUsingExistingGetters.
From S2P Require Import Prelude.
Local Open Scope Z_scope.

Definition TICK_GAP_MIN_TICKS_BEFORE_ACTIVE : Z := 5.
Definition TICK_GAP_ALERT_THRESHOLD_SECS : Z := 30.
Definition TICK_GAP_ERROR_THRESHOLD_SECS : Z := 300.
Definition STALE_LTP_THRESHOLD_SECS : Z := 600.
Definition BACKLOG_TICK_AGE_THRESHOLD_SECS : Z := 60.
Definition BACKLOG_TICK_AGE_MAX_SECS : Z := 86400.
Definition LOG_SUMMARY_INTERVAL_SECS : Z := 30.
Definition MAX_TRACKED_INSTRUMENTS : Z := 25000.

Definition Instrument : Type := Z * Z.

Record SecurityFeedState : Type := mkFeedState {
  last_exchange_timestamp : Z;
  tick_count : Z;
  last_wall_clock : Z;
  stale_alerted : bool;
  error_gap_alerted : bool }.

Record TickGapTracker : Type := mkTracker {
  states : gmap Instrument SecurityFeedState;
  total_warnings : Z;
  total_errors : Z;
  refused_instruments : Z;
  total_stale_alerts : Z;
  pending_warn_gaps : list (Z * Z);
  last_summary_log : Z }.

Inductive TickGapResult : Type := GapOk | GapWarning (gap_secs : Z) | GapError (gap_secs : Z).
Inductive BackwardsJumpResult : Type := Normal | Backwards (delta_secs last_seen : Z) | FirstSeen.

(** The lines a call logs. *)
Inductive alert : Type :=
  | GapLine (key : Instrument) (gap_secs : Z)
  | SummaryLine (count min_gap max_gap : Z)
  | StaleLine (key : Instrument)
  | BackwardsLine (key : Instrument) (delta_secs : Z).

Definition new_gap_tracker (now : Z) : TickGapTracker := mkTracker ∅ 0 0 0 0 [] now.

Definition tracked_securities (t : TickGapTracker) : Z := Z.of_nat (size (states t)).

(** [Instant] differences saturate at zero; [Instant]s count nanoseconds. *)
Definition elapsed_secs_reached (now since secs : Z) : bool := secs * 1000000000 <=? Z.max 0 (now - since).

Definition flush_warning_summary (now : Z) (t : TickGapTracker) : list alert * TickGapTracker :=
  match pending_warn_gaps t with
  | [] => ([], t)
  | (_, g) :: gaps =>
      ([SummaryLine (Z.of_nat (length (pending_warn_gaps t))) (foldr Z.min g (snd <$> gaps)) (foldr Z.max g (snd <$> gaps))],
       { t with pending_warn_gaps := []; last_summary_log := now })
  end.

Definition tick_age_secs (now_ist_secs exchange_timestamp : Z) : Z :=
  Z.min (u64_saturating_sub now_ist_secs exchange_timestamp) u32_max.

Definition is_backlog_tick (now_ist_secs exchange_timestamp : Z) : bool :=
  let age := tick_age_secs now_ist_secs exchange_timestamp in
  (BACKLOG_TICK_AGE_THRESHOLD_SECS <? age) && (age <=? BACKLOG_TICK_AGE_MAX_SECS).

Definition u32_saturating_sub (a b : Z) : Z := clamp 0 u32_max (a - b).

(** The tick that passed the filter and has a state: its result, the error line
    it logs, and what is left of the state and the totals. *)
Definition check_gap (key : Instrument) (ts : Z) (st : SecurityFeedState) (t : TickGapTracker)
    : TickGapResult * list alert * SecurityFeedState * TickGapTracker :=
  let gap := u32_saturating_sub ts (last_exchange_timestamp st) in
  if TICK_GAP_ERROR_THRESHOLD_SECS <=? gap then
    (GapError gap, if error_gap_alerted st then [] else [GapLine key gap],
     { st with error_gap_alerted := true }, { t with total_errors ::= fun n => u64_saturating_add n 1 })
  else if TICK_GAP_ALERT_THRESHOLD_SECS <=? gap then
    (GapWarning gap, [], st,
     { t with pending_warn_gaps ::= (fun l => l ++ [(key.1, gap)]); total_warnings ::= fun n => u64_saturating_add n 1 })
  else (GapOk, [], { st with error_gap_alerted := false }, t).

(** The end of the call: the state is stored, a due summary is flushed. *)
Definition store_and_flush (key : Instrument) (ts now : Z)
    (c : TickGapResult * list alert * SecurityFeedState * TickGapTracker) : TickGapResult * list alert * TickGapTracker :=
  let '(result, lines, st, t) := c in
  let t := { t with states ::= <[key := { st with last_exchange_timestamp := ts }]> } in
  if negb (bool_decide (pending_warn_gaps t = [])) &&
     elapsed_secs_reached now (last_summary_log t) LOG_SUMMARY_INTERVAL_SECS
  then let '(summary, t) := flush_warning_summary now t in (result, lines ++ summary, t)
  else (result, lines, t).

Definition record_tick_with_now_ist (key : Instrument) (ts now_ist_secs now : Z) (t : TickGapTracker)
    : TickGapResult * list alert * TickGapTracker :=
  if is_backlog_tick now_ist_secs ts then (GapOk, [], t) else
  if (MAX_TRACKED_INSTRUMENTS <=? tracked_securities t) && negb (bool_decide (is_Some (states t !! key))) then
    (GapOk, [], { t with refused_instruments ::= fun n => u64_saturating_add n 1 })
  else
    let st := default (mkFeedState ts 0 now false false) (states t !! key) in
    let st := { st with tick_count ::= (fun n => u32_saturating_add n 1); last_wall_clock := now;
                        stale_alerted := false } in
    if tick_count st <=? TICK_GAP_MIN_TICKS_BEFORE_ACTIVE then
      (GapOk, [], { t with states ::= <[key := { st with last_exchange_timestamp := ts }]> })
    else store_and_flush key ts now (check_gap key ts st t).

(** The scan for stale prices; the map's order of iteration is immaterial. *)
Definition is_newly_stale (now : Z) (st : SecurityFeedState) : bool :=
  negb (tick_count st <=? TICK_GAP_MIN_TICKS_BEFORE_ACTIVE) &&
  elapsed_secs_reached now (last_wall_clock st) STALE_LTP_THRESHOLD_SECS && negb (stale_alerted st).

Definition detect_stale_instruments (now : Z) (t : TickGapTracker) : Z * list alert * TickGapTracker :=
  let stale := filter (fun p => is_newly_stale now p.2 = true) (map_to_list (states t)) in
  let n := Z.of_nat (length stale) in
  (Z.min n u32_max, (fun p => StaleLine p.1) <$> stale,
   { t with states ::= fmap (fun st => if is_newly_stale now st then { st with stale_alerted := true } else st);
            total_stale_alerts ::= fun m => u64_saturating_add m n }).

Definition reset (now : Z) (t : TickGapTracker) : list alert * TickGapTracker :=
  let '(lines, t) := flush_warning_summary now t in
  (lines, { t with states := ∅; total_warnings := 0; total_errors := 0; total_stale_alerts := 0;
                   pending_warn_gaps := [] }).

Definition reset_for_securities (ids : list Z) (t : TickGapTracker) : TickGapTracker :=
  { t with states ::= filter (fun p => p.1.1 ∉ ids) }.

(** The instruments heard from within the window, past warm-up. *)
Definition snapshot_active_window (now window_secs : Z) (t : TickGapTracker) : list (Instrument * Z) :=
  (fun p => (p.1, last_exchange_timestamp p.2)) <$>
  filter (fun p => TICK_GAP_MIN_TICKS_BEFORE_ACTIVE < tick_count p.2 /\
                   Z.max 0 (now - last_wall_clock p.2) <= window_secs * 1000000000) (map_to_list (states t)).

Definition detect_timestamp_backwards_jump (key : Instrument) (ts now : Z) (t : TickGapTracker)
    : BackwardsJumpResult * list alert * TickGapTracker :=
  match states t !! key with
  | None => (FirstSeen, [], { t with states ::= <[key := mkFeedState ts 0 now false false]> })
  | Some st =>
      let last_seen := last_exchange_timestamp st in
      if last_seen <=? ts then
        (Normal, [], { t with states ::= <[key := { st with last_exchange_timestamp := ts }]> })
      else
        let delta := u32_saturating_sub last_seen ts in
        if TICK_GAP_ERROR_THRESHOLD_SECS <=? delta then
          (Backwards delta last_seen, [BackwardsLine key delta],
           { t with total_errors ::= fun n => u64_saturating_add n 1 })
        else (Backwards delta last_seen, [], t)
  end.

(** * The stream of one instrument

    What the tracker knows of an instrument is what that instrument's own ticks,
    the replayed backlog apart, have told it. *)

Record arrival : Type := mkArrival { ar_key : Instrument; ar_ts : Z; ar_now_ist : Z; ar_now : Z }.

Definition hear (a : arrival) (t : TickGapTracker) : TickGapResult * list alert * TickGapTracker :=
  record_tick_with_now_ist (ar_key a) (ar_ts a) (ar_now_ist a) (ar_now a) t.

Definition after (l : list arrival) (t : TickGapTracker) : TickGapTracker := foldl (fun t a => (hear a t).2) t l.

(** The stamps of the instrument's live ticks, oldest first. *)
Definition own (key : Instrument) (l : list arrival) : list Z :=
  ar_ts <$> filter (fun a => ar_key a = key /\ is_backlog_tick (ar_now_ist a) (ar_ts a) = false) l.

Definition gap (a b : Z) : Z := Z.max 0 (b - a).

(** The gap before the [i]-th stamp reaches [secs]. *)
Definition gap_at_least (secs : Z) (stamps : list Z) (i : nat) : Prop :=
  exists a b, stamps !! pred i = Some a /\ stamps !! i = Some b /\ secs <= gap a b.

(** An error gap past warm-up that no normal gap has closed since. *)
Definition in_episode (stamps : list Z) : Prop :=
  exists i, (5 <= i < length stamps)%nat /\ gap_at_least TICK_GAP_ERROR_THRESHOLD_SECS stamps i /\
    forall j, (i < j < length stamps)%nat -> gap_at_least TICK_GAP_ALERT_THRESHOLD_SECS stamps j.

Definition classify_gap (g : Z) : TickGapResult :=
  if TICK_GAP_ERROR_THRESHOLD_SECS <=? g then GapError g
  else if TICK_GAP_ALERT_THRESHOLD_SECS <=? g then GapWarning g else GapOk.

Lemma own_snoc key l a :
  own key (l ++ [a]) = own key l ++
    (if decide (ar_key a = key /\ is_backlog_tick (ar_now_ist a) (ar_ts a) = false) then [ar_ts a] else []).
Proof.
  unfold own. rewrite filter_app, fmap_app. f_equal.
  destruct (decide _); [by rewrite filter_cons_True|by rewrite filter_cons_False].
Qed.

Lemma gap_at_least_app secs l l' i : (i < length l)%nat ->
  gap_at_least secs (l ++ l') i <-> gap_at_least secs l i.
Proof. intros H. unfold gap_at_least. by rewrite !lookup_app_l by lia. Qed.

Lemma gap_at_least_last secs l a b : l <> [] -> last l = Some a ->
  gap_at_least secs (l ++ [b]) (length l) <-> secs <= gap a b.
Proof.
  intros Hn Hl. rewrite last_lookup in Hl. unfold gap_at_least. rewrite (lookup_app_r l [b] (length l)), Nat.sub_diag by lia.
  assert (0 < length l)%nat by (destruct l; [by destruct Hn|simpl; lia]). rewrite lookup_app_l by lia. split.
  - intros (a' & b' & H1 & H2 & H3). rewrite Hl in H1. by simplify_eq/=.
  - intros H'. by exists a, b.
Qed.

(** How one more stamp moves the episode. *)
Lemma in_episode_snoc l a b : last l = Some a ->
  in_episode (l ++ [b]) <->
    (5 <= length l)%nat /\ TICK_GAP_ERROR_THRESHOLD_SECS <= gap a b \/
    in_episode l /\ TICK_GAP_ALERT_THRESHOLD_SECS <= gap a b.
Proof.
  intros Hl. assert (Hn : l <> []) by by destruct l. unfold in_episode. rewrite length_app. cbn [length]. split.
  - intros (i & Hi & Hg & Hj). destruct (decide (i = length l)) as [->|].
    + left. split; [lia|]. by apply (gap_at_least_last _ l a b Hn Hl) in Hg.
    + right. split.
      * exists i. split; [lia|]. rewrite gap_at_least_app in Hg by lia. split; [done|].
        intros j Hlt. apply (gap_at_least_app _ l [b]); [lia|]. apply Hj. lia.
      * apply (gap_at_least_last _ l a b Hn Hl). apply Hj. lia.
  - intros [[H5 Hg]|[(i & Hi & Hg & Hj) Hw]].
    + exists (length l). split; [lia|]. split; [by apply (gap_at_least_last _ l a b)|]. intros. lia.
    + exists i. split; [lia|]. split; [apply gap_at_least_app; [lia|done]|].
      intros j Hlt. destruct (decide (j = length l)) as [->|]; [by apply (gap_at_least_last _ l a b)|].
      apply gap_at_least_app; [lia|]. apply Hj. lia.
Qed.

Lemma in_episode_short l : (length l <= 5)%nat -> ~ in_episode l.
Proof. intros H (i & ? & _). lia. Qed.

(** What the tracker holds of an instrument after its live stamps. *)
Definition holds (stamps : list Z) (st : option SecurityFeedState) : Prop :=
  match last stamps with
  | None => st = None
  | Some a => exists s, st = Some s /\ last_exchange_timestamp s = a /\
      tick_count s = Z.min (Z.of_nat (length stamps)) u32_max /\ (error_gap_alerted s = true <-> in_episode stamps)
  end.

Definition stamps_ok (l : list arrival) : Prop := Forall (fun a => in_u32 (ar_ts a)) l.

Definition admitted (key : Instrument) (t : TickGapTracker) : bool :=
  (tracked_securities t <? MAX_TRACKED_INSTRUMENTS) || bool_decide (is_Some (states t !! key)).

(** The instrument's state is a function of its own stamps. *)
Lemma flush_frame now t : let t' := (flush_warning_summary now t).2 in
  states t' = states t /\ refused_instruments t' = refused_instruments t /\ total_errors t' = total_errors t.
Proof. unfold flush_warning_summary. by destruct (pending_warn_gaps t) as [|[? ?] ?]. Qed.

Lemma flush_no_gap_line now t key g : GapLine key g ∉ (flush_warning_summary now t).1.
Proof.
  unfold flush_warning_summary. destruct (pending_warn_gaps t) as [|[? ?] ?]; cbn.
  - by intros ?%elem_of_nil.
  - by intros [?|?%elem_of_nil]%elem_of_cons.
Qed.

Lemma store_spec key ts now r lines st t :
  let '(r', lines', t') := store_and_flush key ts now (r, lines, st, t) in
  r' = r /\ states t' = <[key := { st with last_exchange_timestamp := ts }]> (states t) /\
  refused_instruments t' = refused_instruments t /\ forall k g, GapLine k g ∈ lines' <-> GapLine k g ∈ lines.
Proof.
  unfold store_and_flush. set (t1 := tset _ t).
  assert (F : states t1 = <[key := { st with last_exchange_timestamp := ts }]> (states t) /\
    refused_instruments t1 = refused_instruments t) by done. clearbody t1. destruct F as [F1 F2].
  destruct (_ && _); [|done]. pose proof (flush_frame now t1) as (G1 & G2 & _).
  pose proof (flush_no_gap_line now t1) as Gn. destruct (flush_warning_summary now t1) as [summary t2]. cbn in *.
  split; [done|]. split; [congruence|]. split; [congruence|]. intros k g. rewrite elem_of_app.
  split; [intros [?|?]; [done|by destruct (Gn k g)]|by left].
Qed.

Lemma check_gap_frame key ts st t : let '(_, _, _, t') := check_gap key ts st t in
  states t' = states t /\ refused_instruments t' = refused_instruments t.
Proof. unfold check_gap. destruct (_ <=? _); [done|]. by destruct (_ <=? _). Qed.

(** A live tick of an admitted instrument: what is classified, what is logged,
    and what is held after it. *)
Lemma hear_spec a t stamps : in_u32 (ar_ts a) -> Forall in_u32 stamps ->
  holds stamps (states t !! ar_key a) -> admitted (ar_key a) t = true ->
  is_backlog_tick (ar_now_ist a) (ar_ts a) = false ->
  let '(r, lines, t') := hear a t in
  refused_instruments t' = refused_instruments t /\
  (exists st, states t' = <[ar_key a := st]> (states t) /\ holds (stamps ++ [ar_ts a]) (Some st)) /\
  match last stamps with
  | Some s => if decide (5 <= length stamps)%nat then
      r = classify_gap (gap s (ar_ts a)) /\
      forall g, GapLine (ar_key a) g ∈ lines <->
        g = gap s (ar_ts a) /\ TICK_GAP_ERROR_THRESHOLD_SECS <= g /\ ~ in_episode stamps
    else r = GapOk /\ lines = []
  | None => r = GapOk /\ lines = []
  end.
Proof.
  intros Hu Hall Hh Hadm Hb. unfold hear, record_tick_with_now_ist. rewrite Hb.
  replace (_ && negb _) with false.
  2: { unfold admitted in Hadm. destruct (Z.leb_spec MAX_TRACKED_INSTRUMENTS (tracked_securities t)); [|done].
       destruct (Z.ltb_spec (tracked_securities t) MAX_TRACKED_INSTRUMENTS); [lia|]. cbn in *. by rewrite Hadm. }
  set (st0 := default _ _). set (st1 := { st0 with tick_count ::= _; last_wall_clock := _; stale_alerted := _ }).
  assert (H1 : tick_count st1 = Z.min (Z.of_nat (S (length stamps))) u32_max /\
    match last stamps with
    | Some s => last_exchange_timestamp st1 = s /\ (error_gap_alerted st1 = true <-> in_episode stamps)
    | None => error_gap_alerted st1 = false
    end).
  { subst st1 st0. unfold holds in Hh. destruct (last stamps) as [s|] eqn:El.
    - destruct Hh as (st & -> & H1 & H2 & H3). cbn. rewrite H1, H2. split; [zints|done].
    - rewrite Hh. apply last_None in El as ->. done. }
  clearbody st1. clear st0. destruct H1 as [Hc Hm].
  assert (Hlen : length (stamps ++ [ar_ts a]) = S (length stamps)) by (rewrite length_app; cbn; lia).
  unfold TICK_GAP_MIN_TICKS_BEFORE_ACTIVE. destruct (Z.leb_spec (tick_count st1) 5) as [H5|H5].
  { assert (Hs : (length stamps < 5)%nat) by (unfold u32_max in *; lia).
    split; [done|]. split.
    - eexists. split; [done|]. unfold holds. rewrite last_snoc. eexists. split; [done|]. split; [done|].
      split; [rewrite Hlen; exact Hc|]. cbn. split; [|intros []%in_episode_short; lia].
      destruct (last stamps); [|by rewrite Hm]. intros H. apply Hm in H. by apply in_episode_short in H; [|lia].
    - destruct (last stamps); [|done]. by rewrite decide_False by lia. }
  assert (Hs : (5 <= length stamps)%nat) by (unfold u32_max in *; lia).
  destruct (last stamps) as [s|] eqn:El; [|apply last_None in El as ->; cbn in Hs; lia].
  destruct (decide (5 <= length stamps)%nat) as [_|]; [|lia]. destruct Hm as [Hl Ha].
  assert (Hg : u32_saturating_sub (ar_ts a) (last_exchange_timestamp st1) = gap s (ar_ts a)).
  { rewrite Hl. assert (in_u32 s). { rewrite Forall_forall in Hall. apply Hall. rewrite last_lookup in El. by eapply list_elem_of_lookup_2. }
    unfold u32_saturating_sub, gap. zints. }
  assert (Hck : let '(r, lines, st2, t2) := check_gap (ar_key a) (ar_ts a) st1 t in
    states t2 = states t /\ refused_instruments t2 = refused_instruments t /\ tick_count st2 = tick_count st1 /\
    (error_gap_alerted st2 = true <-> in_episode (stamps ++ [ar_ts a])) /\ r = classify_gap (gap s (ar_ts a)) /\
    (forall g, GapLine (ar_key a) g ∈ lines <-> g = gap s (ar_ts a) /\ TICK_GAP_ERROR_THRESHOLD_SECS <= g /\ ~ in_episode stamps)).
  { unfold check_gap. rewrite Hg. unfold classify_gap. pose proof (in_episode_snoc stamps s (ar_ts a) El) as He.
    unfold TICK_GAP_ERROR_THRESHOLD_SECS, TICK_GAP_ALERT_THRESHOLD_SECS in *.
    destruct (Z.leb_spec 300 (gap s (ar_ts a))).
    - cbn. split_and!; try done.
      + rewrite He. split; [intros _; left; split; [done|lia]|done].
      + intros g. destruct (error_gap_alerted st1) eqn:E.
        * split; [by intros ?%elem_of_nil|]. intros (_ & _ & []). by apply Ha.
        * rewrite list_elem_of_singleton. split; [intros [= ->]|by intros (-> & _)].
          split; [done|]. split; [lia|]. intros H'. apply Ha in H'. done.
    - assert (Hno : forall g, GapLine (ar_key a) g ∈ @nil alert <->
          g = gap s (ar_ts a) /\ 300 <= g /\ ~ in_episode stamps).
      { intros g. split; [by intros ?%elem_of_nil|]. intros (-> & ? & _). lia. }
      destruct (Z.leb_spec 30 (gap s (ar_ts a))); cbn; split_and!; try done.
      + rewrite He, Ha. split; [intros; right; split; [done|lia]|]. intros [[? ?]|[? ?]]; [lia|done].
      + rewrite He. split; [done|]. intros [[? ?]|[? ?]]; lia. }
  destruct (check_gap (ar_key a) (ar_ts a) st1 t) as [[[r lines] st2] t2], Hck as (E1 & E2 & E3 & E4 & E5 & E6).
  pose proof (store_spec (ar_key a) (ar_ts a) (ar_now a) r lines st2 t2) as Hf.
  destruct (store_and_flush _ _ _ _) as [[r' lines'] t'], Hf as (-> & F1 & F2 & F3).
  split; [congruence|]. split.
  - eexists. split; [by rewrite F1, E1|]. unfold holds. rewrite last_snoc. eexists. split; [done|]. split; [done|].
    split; [rewrite Hlen; cbn; by rewrite E3|exact E4].
  - split; [done|]. intros g. by rewrite F3.
Qed.

Lemma hear_refused a t :
  ~ (admitted (ar_key a) t = true) \/ is_backlog_tick (ar_now_ist a) (ar_ts a) = true ->
  states (hear a t).2 = states t /\
  (is_backlog_tick (ar_now_ist a) (ar_ts a) = false ->
   refused_instruments (hear a t).2 = u64_saturating_add (refused_instruments t) 1) /\
  (is_backlog_tick (ar_now_ist a) (ar_ts a) = true -> hear a t = (GapOk, [], t)).
Proof.
  intros H. unfold hear, record_tick_with_now_ist. destruct (is_backlog_tick _ _); [done|].
  destruct H as [H|?]; [|done]. unfold admitted in H.
  destruct (Z.leb_spec MAX_TRACKED_INSTRUMENTS (tracked_securities t)).
  - destruct (Z.ltb_spec (tracked_securities t) MAX_TRACKED_INSTRUMENTS); [lia|]. cbn in *.
    destruct (bool_decide _); [by destruct H|]. done.
  - destruct (Z.ltb_spec (tracked_securities t) MAX_TRACKED_INSTRUMENTS); [by destruct H|lia].
Qed.

Lemma after_snoc l a t : after (l ++ [a]) t = (hear a (after l t)).2.
Proof. unfold after. by rewrite foldl_app. Qed.

Lemma own_ok key l : stamps_ok l -> Forall in_u32 (own key l).
Proof.
  intros H. unfold own, stamps_ok in *. rewrite Forall_forall in H. apply Forall_forall.
  intros x (a & -> & [_ Ha]%list_elem_of_filter)%list_elem_of_fmap. by apply H.
Qed.

Lemma after_holds now l : stamps_ok l ->
  let t := after l (new_gap_tracker now) in
  0 <= refused_instruments t /\
  (refused_instruments t = 0 -> forall key, holds (own key l) (states t !! key)).
Proof.
  cbv zeta. induction l as [|a l IH] using rev_ind; [by intros|]. intros [Hl Ha]%Forall_app. apply Forall_cons in Ha as [Ha _].
  destruct (IH Hl) as [IH0 IHk]. clear IH. rewrite after_snoc. set (t := after l (new_gap_tracker now)) in *. clearbody t.
  destruct (decide (is_backlog_tick (ar_now_ist a) (ar_ts a) = true)) as [Hb|Hb].
  { destruct (hear_refused a t (or_intror Hb)) as (_ & _ & H). rewrite (H Hb). cbn. split; [done|]. intros Hr key.
    rewrite own_snoc, decide_False by (intros [_ ?]; congruence). rewrite app_nil_r. auto. }
  apply not_true_is_false in Hb. destruct (decide (admitted (ar_key a) t = true)) as [Had|Had].
  - destruct (decide (refused_instruments t = 0)) as [Hr|Hr].
    + pose proof (hear_spec a t (own (ar_key a) l) Ha (own_ok _ _ Hl) (IHk Hr _) Had Hb) as H.
      destruct (hear a t) as [[r lines] t'], H as (E & (st & Es & Hh) & _). cbn. split; [lia|]. intros _ key.
      rewrite own_snoc, Es. destruct (decide (ar_key a = key)) as [<-|Hne].
      * rewrite decide_True by done. rewrite lookup_insert_eq. exact Hh.
      * rewrite decide_False by tauto. rewrite app_nil_r, lookup_insert_ne by done. auto.
    + (* refusals are never undone *)
      assert (H : refused_instruments (hear a t).2 = refused_instruments t).
      { unfold hear, record_tick_with_now_ist. rewrite Hb. unfold admitted in Had.
        replace (_ && negb _) with false.
        2: { destruct (Z.leb_spec MAX_TRACKED_INSTRUMENTS (tracked_securities t)); [|done].
             destruct (Z.ltb_spec (tracked_securities t) MAX_TRACKED_INSTRUMENTS); [lia|]. cbn in *. by rewrite Had. }
        set (st := { default _ _ with tick_count ::= _; last_wall_clock := _; stale_alerted := _ }). clearbody st.
        destruct (tick_count st <=? _); [done|]. pose proof (check_gap_frame (ar_key a) (ar_ts a) st t) as Hf.
        destruct (check_gap _ _ _ _) as [[[r lines] st2] t2], Hf as [_ E].
        pose proof (store_spec (ar_key a) (ar_ts a) (ar_now a) r lines st2 t2) as Hf.
        destruct (store_and_flush _ _ _ _) as [[? ?] ?], Hf as (_ & _ & F & _). cbn. congruence. }
      rewrite H. split; [done|]. lia.
  - destruct (hear_refused a t (or_introl Had)) as (_ & H & _). rewrite (H Hb). split; [zints|]. unfold u64_saturating_add, clamp, u64_max. lia.
Qed.

(** A live tick of an instrument heard at least five times is classified by
    the seconds since that instrument's own previous live tick, and an error line
    is logged exactly when the gap reaches the error threshold and no error gap is
    open; backlog ticks change nothing. *)
Theorem gap_is_between_own_ticks now l a :
  stamps_ok (l ++ [a]) ->
  let t := after l (new_gap_tracker now) in
  refused_instruments t = 0 ->
  tracked_securities t < MAX_TRACKED_INSTRUMENTS \/ own (ar_key a) l <> [] ->
  let '(r, lines, t') := hear a t in
  if is_backlog_tick (ar_now_ist a) (ar_ts a) then r = GapOk /\ lines = [] /\ t' = t
  else match last (own (ar_key a) l) with
       | Some s => if decide (5 <= length (own (ar_key a) l))%nat then
           r = classify_gap (gap s (ar_ts a)) /\
           forall g, GapLine (ar_key a) g ∈ lines <->
             g = gap s (ar_ts a) /\ TICK_GAP_ERROR_THRESHOLD_SECS <= g /\ ~ in_episode (own (ar_key a) l)
         else r = GapOk /\ lines = []
       | None => r = GapOk /\ lines = []
       end.
Proof.
  intros [Hl Ha]%Forall_app t Hr Hroom. apply Forall_cons in Ha as [Ha _].
  pose proof (proj2 (after_holds now l Hl) Hr (ar_key a)) as Hh. fold t in Hh.
  destruct (is_backlog_tick (ar_now_ist a) (ar_ts a)) eqn:Hb.
  { destruct (hear_refused a t (or_intror Hb)) as (_ & _ & H). by rewrite (H Hb). }
  assert (Had : admitted (ar_key a) t = true).
  { unfold admitted. destruct Hroom as [H|H]; [by rewrite (proj2 (Z.ltb_lt _ _) H)|]. apply orb_true_intro. right.
    apply bool_decide_eq_true. unfold holds in Hh. destruct (last _) eqn:E; [|by apply last_None in E].
    destruct Hh as (st & -> & _). done. }
  pose proof (hear_spec a t _ Ha (own_ok _ _ Hl) Hh Had Hb) as H.
  destruct (hear a t) as [[r lines] t']. apply H.
Qed.

(** Two instruments with one id in two segments; the first falls silent. *)
Definition sample_arrivals : list arrival :=
  ((fun i => mkArrival (27, 0) (1000000 + i) (1000000 + i) 0) <$> [0; 1; 2; 3; 4; 5; 6; 7]) ++
  [mkArrival (27, 1) 1000100 1000100 0; mkArrival (27, 1) 1000300 1000300 0].

Lemma gap_is_between_own_ticks_witness :
  let '(r, lines, _) := hear (mkArrival (27, 0) 1000400 1000400 0) (after sample_arrivals (new_gap_tracker 0)) in
  r = GapError 393 /\ forall g, GapLine (27, 0) g ∈ lines <->
    g = 393 /\ TICK_GAP_ERROR_THRESHOLD_SECS <= g /\ ~ in_episode [1000000; 1000001; 1000002; 1000003; 1000004; 1000005; 1000006; 1000007].
Proof.
  pose proof (gap_is_between_own_ticks 0 sample_arrivals (mkArrival (27, 0) 1000400 1000400 0)) as H. cbv zeta in H.
  destruct (hear _ _) as [[r lines] t']. apply H.
  - unfold stamps_ok. apply (bool_decide_unpack _). vm_compute. exact I.
  - vm_compute. reflexivity.
  - left. vm_compute. reflexivity.
Defined.

(** * The ceiling on tracked instruments *)

Lemma hear_tracked a t : tracked_securities t <= MAX_TRACKED_INSTRUMENTS ->
  tracked_securities (hear a t).2 <= MAX_TRACKED_INSTRUMENTS.
Proof.
  intros H. unfold hear, record_tick_with_now_ist. destruct (is_backlog_tick _ _); [done|].
  destruct (_ && negb _) eqn:E; [done|].
  assert (Hin : forall st, Z.of_nat (size (<[ar_key a := st]> (states t))) <= MAX_TRACKED_INSTRUMENTS).
  { intros st. unfold tracked_securities in *. rewrite map_size_insert. destruct (states t !! ar_key a) eqn:Ek; [done|].
    apply andb_false_iff in E as [E|E].
    - apply Z.leb_gt in E. lia.
    - apply negb_false_iff, bool_decide_eq_true in E. by destruct E. }
  set (st := { default _ _ with tick_count ::= _; last_wall_clock := _; stale_alerted := _ }). clearbody st.
  destruct (tick_count st <=? _); [exact (Hin _)|].
  pose proof (check_gap_frame (ar_key a) (ar_ts a) st t) as Hf.
  destruct (check_gap _ _ _ _) as [[[r lines] st2] t2], Hf as [E1 _].
  pose proof (store_spec (ar_key a) (ar_ts a) (ar_now a) r lines st2 t2) as Hf.
  destruct (store_and_flush _ _ _ _) as [[? ?] t3], Hf as (_ & F & _). cbn. unfold tracked_securities.
  rewrite F, E1. apply Hin.
Qed.

Lemma after_tracked now l : tracked_securities (after l (new_gap_tracker now)) <= MAX_TRACKED_INSTRUMENTS.
Proof.
  induction l as [|a l IH] using rev_ind; [done|]. rewrite after_snoc. by apply hear_tracked.
Qed.

(** The out-of-order detector, one instrument after another. *)
Definition jump_all (keys : list Instrument) (t : TickGapTracker) : TickGapTracker :=
  foldl (fun t k => (detect_timestamp_backwards_jump k 1000 0 t).2) t keys.

Lemma jump_tracked k t : states t !! k = None ->
  tracked_securities (detect_timestamp_backwards_jump k 1000 0 t).2 = tracked_securities t + 1.
Proof.
  intros H. unfold detect_timestamp_backwards_jump. rewrite H. unfold tracked_securities. cbn.
  rewrite map_size_insert, H. lia.
Qed.

Lemma jump_all_tracked n now : let t := jump_all ((fun i => (Z.of_nat i, 0)) <$> seq 0 n) (new_gap_tracker now) in
  tracked_securities t = Z.of_nat n /\ forall i, (n <= i)%nat -> states t !! (Z.of_nat i, 0) = None.
Proof.
  cbv zeta. induction n as [|n [IH1 IH2]]; [done|]. rewrite seq_S, fmap_app. unfold jump_all in *. rewrite foldl_app. cbn [foldl fmap list_fmap].
  set (t := foldl _ _ _) in *. clearbody t. cbn [Nat.add]. split.
  - rewrite jump_tracked by (apply IH2; lia). lia.
  - intros i Hi. unfold detect_timestamp_backwards_jump. rewrite IH2 by lia. cbn.
    rewrite lookup_insert_ne by (intros [= ?]; lia). apply IH2. lia.
Qed.

(** Ticks never make the tracker hold more than 25,000 instruments, but the
    backwards-jump detector inserts without that check: it can be driven to twice
    the ceiling. *)
Theorem backwards_jump_ignores_the_ceiling now :
  (forall l, tracked_securities (after l (new_gap_tracker now)) <= MAX_TRACKED_INSTRUMENTS) /\
  exists keys, tracked_securities (jump_all keys (new_gap_tracker now)) = 2 * MAX_TRACKED_INSTRUMENTS.
Proof.
  split; [apply after_tracked|].
  exists ((fun i => (Z.of_nat i, 0)) <$> seq 0 (Z.to_nat (2 * MAX_TRACKED_INSTRUMENTS))).
  rewrite (proj1 (jump_all_tracked _ now)). rewrite Z2Nat.id; [done|]. done.
Qed.
