(* ===== verification/ConnectionBudget.v ===== *)
(** The connection budget of the feed pools
    ([core/src/websocket/pool_budget.rs]): which endpoints an account may open,
    how many sockets of each, and the slot a granted socket gets.  Counters are
    [u8]s, totals [u16]s.  A refusal's metric and log line are left out. *)
From coqutil Require Import Datatypes.RecordSettersUsingExistingGetters.
From S2P Require Import Prelude FeedTypes.
Local Open Scope Z_scope.

(** * Caps *)

Definition MAX_WEBSOCKET_CONNECTIONS : Z := 5.
Definition MAX_TWENTY_DEPTH_CONNECTIONS : Z := 5.
Definition MAX_TWO_HUNDRED_DEPTH_CONNECTIONS : Z := 5.
Definition MAX_INSTRUMENTS_PER_WEBSOCKET_CONNECTION : Z := 5000.
Definition MAX_INSTRUMENTS_PER_TWENTY_DEPTH_CONNECTION : Z := 50.
Definition MAX_INSTRUMENTS_PER_TWO_HUNDRED_DEPTH_CONNECTION : Z := 1.

(** [as u8] of a constant. *)
Definition MAX_MAIN_FEED_CONNECTIONS : Z := MAX_WEBSOCKET_CONNECTIONS mod 256.
Definition MAX_DEPTH_20_CONNECTIONS : Z := MAX_TWENTY_DEPTH_CONNECTIONS mod 256.
Definition MAX_DEPTH_200_CONNECTIONS : Z := MAX_TWO_HUNDRED_DEPTH_CONNECTIONS mod 256.
Definition MAX_ORDER_UPDATE_CONNECTIONS : Z := 1.
Definition MAX_PRIMARY_ACCOUNT_CONNECTIONS : Z :=
  MAX_MAIN_FEED_CONNECTIONS + MAX_DEPTH_20_CONNECTIONS + MAX_DEPTH_200_CONNECTIONS +
  MAX_ORDER_UPDATE_CONNECTIONS.
Definition MAX_DEPTH_ACCOUNT_DEPTH_20_CONNECTIONS : Z := MAX_DEPTH_20_CONNECTIONS.
Definition MAX_DEPTH_ACCOUNT_DEPTH_200_CONNECTIONS : Z := MAX_DEPTH_200_CONNECTIONS.
Definition MAX_DEPTH_ACCOUNT_CONNECTIONS : Z :=
  MAX_DEPTH_ACCOUNT_DEPTH_20_CONNECTIONS + MAX_DEPTH_ACCOUNT_DEPTH_200_CONNECTIONS.
Definition MAX_TOTAL_DHAN_CONNECTIONS : Z :=
  MAX_PRIMARY_ACCOUNT_CONNECTIONS + MAX_DEPTH_ACCOUNT_CONNECTIONS.
Definition MAIN_FEED_INSTRUMENTS_PER_CONNECTION : Z := MAX_INSTRUMENTS_PER_WEBSOCKET_CONNECTION.
Definition DEPTH_20_INSTRUMENTS_PER_CONNECTION : Z := MAX_INSTRUMENTS_PER_TWENTY_DEPTH_CONNECTION.
Definition DEPTH_200_INSTRUMENTS_PER_CONNECTION : Z := MAX_INSTRUMENTS_PER_TWO_HUNDRED_DEPTH_CONNECTION.
Definition ORDER_UPDATE_INSTRUMENTS_PER_CONNECTION : Z := 0.
Definition MAIN_FEED_INSTRUMENTS_PER_SUBSCRIBE_MESSAGE : Z := 100.
Definition DEPTH_20_INSTRUMENTS_PER_SUBSCRIBE_MESSAGE : Z := 50.

(** The metric label of a slot, ["unknown"] past the table. *)
Definition CONNECTION_SLOT_LABELS : list string :=
  ["0"; "1"; "2"; "3"; "4"; "5"; "6"; "7"; "8"; "9"; "10"; "11"; "12"; "13"; "14"; "15"; "16";
   "17"; "18"; "19"; "20"; "21"; "22"; "23"; "24"; "25"]%string.
Definition connection_slot_label (global_index : Z) : string :=
  default "unknown"%string (CONNECTION_SLOT_LABELS !! Z.to_nat global_index).

(** * Endpoints and accounts *)

#[global] Instance endpoint_eq_dec : EqDecision DhanEndpointType.
Proof. solve_decision. Defined.

Definition ALL_ENDPOINTS : list DhanEndpointType := [MainFeed; Depth20; Depth200; OrderUpdateFeed].

Definition max_connections (e : DhanEndpointType) : Z :=
  match e with
  | MainFeed => MAX_MAIN_FEED_CONNECTIONS
  | Depth20 => MAX_DEPTH_20_CONNECTIONS
  | Depth200 => MAX_DEPTH_200_CONNECTIONS
  | OrderUpdateFeed => MAX_ORDER_UPDATE_CONNECTIONS
  end.

Definition needs_client_keepalive_ping (e : DhanEndpointType) : bool :=
  match e with
  | Depth200 => true
  | MainFeed | Depth20 | OrderUpdateFeed => false
  end.

Definition max_instruments_per_connection (e : DhanEndpointType) : Z :=
  match e with
  | MainFeed => MAIN_FEED_INSTRUMENTS_PER_CONNECTION
  | Depth20 => DEPTH_20_INSTRUMENTS_PER_CONNECTION
  | Depth200 => DEPTH_200_INSTRUMENTS_PER_CONNECTION
  | OrderUpdateFeed => ORDER_UPDATE_INSTRUMENTS_PER_CONNECTION
  end.

Definition subscription_capacity (e : DhanEndpointType) : Z :=
  max_connections e * max_instruments_per_connection e.

Definition max_instruments_per_subscribe_message (e : DhanEndpointType) : Z :=
  match e with
  | MainFeed => MAIN_FEED_INSTRUMENTS_PER_SUBSCRIBE_MESSAGE
  | Depth20 => DEPTH_20_INSTRUMENTS_PER_SUBSCRIBE_MESSAGE
  | Depth200 => DEPTH_200_INSTRUMENTS_PER_CONNECTION
  | OrderUpdateFeed => ORDER_UPDATE_INSTRUMENTS_PER_CONNECTION
  end.

Definition jitter_base (e : DhanEndpointType) : Z :=
  match e with
  | MainFeed => 0
  | Depth20 => MAX_MAIN_FEED_CONNECTIONS
  | Depth200 => MAX_MAIN_FEED_CONNECTIONS + MAX_DEPTH_20_CONNECTIONS
  | OrderUpdateFeed => MAX_MAIN_FEED_CONNECTIONS + MAX_DEPTH_20_CONNECTIONS + MAX_DEPTH_200_CONNECTIONS
  end.

Inductive DhanAccount : Type := PrimaryAccount | DepthAccount.

#[global] Instance account_eq_dec : EqDecision DhanAccount.
Proof. solve_decision. Defined.

Definition ALL_ACCOUNTS : list DhanAccount := [PrimaryAccount; DepthAccount].

Definition permits (a : DhanAccount) (e : DhanEndpointType) : bool :=
  match a with
  | PrimaryAccount => true
  | DepthAccount => match e with Depth20 | Depth200 => true | MainFeed | OrderUpdateFeed => false end
  end.

Definition max_connections_on (a : DhanAccount) (e : DhanEndpointType) : Z :=
  match a, e with
  | PrimaryAccount, _ => max_connections e
  | DepthAccount, Depth20 => MAX_DEPTH_ACCOUNT_DEPTH_20_CONNECTIONS
  | DepthAccount, Depth200 => MAX_DEPTH_ACCOUNT_DEPTH_200_CONNECTIONS
  | DepthAccount, (MainFeed | OrderUpdateFeed) => 0
  end.

Definition connection_ceiling (a : DhanAccount) : Z :=
  match a with
  | PrimaryAccount => MAX_PRIMARY_ACCOUNT_CONNECTIONS
  | DepthAccount => MAX_DEPTH_ACCOUNT_CONNECTIONS
  end.

Definition jitter_base_on (a : DhanAccount) (e : DhanEndpointType) : Z :=
  match a, e with
  | PrimaryAccount, _ => jitter_base e
  | DepthAccount, Depth20 => MAX_PRIMARY_ACCOUNT_CONNECTIONS
  | DepthAccount, Depth200 => MAX_PRIMARY_ACCOUNT_CONNECTIONS + MAX_DEPTH_ACCOUNT_DEPTH_20_CONNECTIONS
  | DepthAccount, (MainFeed | OrderUpdateFeed) => MAX_TOTAL_DHAN_CONNECTIONS
  end.

Definition u8_saturating_add (a b : Z) : Z := clamp 0 255 (a + b).
Definition u8_saturating_sub (a b : Z) : Z := clamp 0 255 (a - b).

(** Whether [global_index] lies in the range of the pool, a step of the scan. *)
Definition in_pool (global_index : Z) (a : DhanAccount) (e : DhanEndpointType) : bool :=
  let start := jitter_base_on a e in
  let stop := u8_saturating_add start (max_connections_on a e) in
  (start <=? global_index) && (global_index <? stop).

(** The account and endpoint that own a slot: the first pool, accounts outer,
    endpoints inner, whose range holds it. *)
Definition slot_owner (global_index : Z) : option (DhanAccount * DhanEndpointType) :=
  snd <$> list_find (fun p => in_pool global_index p.1 p.2 = true)
    (a ← ALL_ACCOUNTS; e ← ALL_ENDPOINTS; [(a, e)]).

(** * The budget *)

Inductive PoolBudgetRefusal : Type :=
  | EndpointTypeAtCapacity (a : DhanAccount) (e : DhanEndpointType) (open max : Z)
  | TotalAtCapacity (a : DhanAccount) (e : DhanEndpointType) (open max : Z)
  | EndpointNotPermittedOnAccount (a : DhanAccount) (e : DhanEndpointType).

Definition refusal_endpoint (r : PoolBudgetRefusal) : DhanEndpointType :=
  match r with
  | EndpointTypeAtCapacity _ e _ _ | TotalAtCapacity _ e _ _ | EndpointNotPermittedOnAccount _ e => e
  end.
Definition refusal_account (r : PoolBudgetRefusal) : DhanAccount :=
  match r with
  | EndpointTypeAtCapacity a _ _ _ | TotalAtCapacity a _ _ _ | EndpointNotPermittedOnAccount a _ => a
  end.

Record ConnectionSlot : Type := mkSlot {
  slot_account : DhanAccount;
  slot_endpoint : DhanEndpointType;
  pool_index : Z;
  global_index : Z }.

Record PoolBudget : Type := mkPoolBudget {
  pb_main_feed : Z;
  pb_depth_20 : Z;
  pb_depth_200 : Z;
  pb_order_update : Z;
  pb_depth_account_depth_20 : Z;
  pb_depth_account_depth_200 : Z }.

Definition new_pool_budget : PoolBudget := mkPoolBudget 0 0 0 0 0 0.

Definition open_count_on (a : DhanAccount) (e : DhanEndpointType) (b : PoolBudget) : Z :=
  match a, e with
  | PrimaryAccount, MainFeed => pb_main_feed b
  | PrimaryAccount, Depth20 => pb_depth_20 b
  | PrimaryAccount, Depth200 => pb_depth_200 b
  | PrimaryAccount, OrderUpdateFeed => pb_order_update b
  | DepthAccount, Depth20 => pb_depth_account_depth_20 b
  | DepthAccount, Depth200 => pb_depth_account_depth_200 b
  | DepthAccount, (MainFeed | OrderUpdateFeed) => 0
  end.
Definition open_count (e : DhanEndpointType) (b : PoolBudget) : Z := open_count_on PrimaryAccount e b.

Definition total_open_on (a : DhanAccount) (b : PoolBudget) : Z :=
  match a with
  | PrimaryAccount => pb_main_feed b + pb_depth_20 b + pb_depth_200 b + pb_order_update b
  | DepthAccount => pb_depth_account_depth_20 b + pb_depth_account_depth_200 b
  end.
Definition total_open (b : PoolBudget) : Z := total_open_on PrimaryAccount b + total_open_on DepthAccount b.

Definition set_open_count (a : DhanAccount) (e : DhanEndpointType) (value : Z) (b : PoolBudget) : PoolBudget :=
  match a, e with
  | PrimaryAccount, MainFeed => { b with pb_main_feed := value }
  | PrimaryAccount, Depth20 => { b with pb_depth_20 := value }
  | PrimaryAccount, Depth200 => { b with pb_depth_200 := value }
  | PrimaryAccount, OrderUpdateFeed => { b with pb_order_update := value }
  | DepthAccount, Depth20 => { b with pb_depth_account_depth_20 := value }
  | DepthAccount, Depth200 => { b with pb_depth_account_depth_200 := value }
  | DepthAccount, (MainFeed | OrderUpdateFeed) => b
  end.

Definition try_open_on (a : DhanAccount) (e : DhanEndpointType) (b : PoolBudget)
    : (ConnectionSlot + PoolBudgetRefusal) * PoolBudget :=
  if negb (permits a e) then (inr (EndpointNotPermittedOnAccount a e), b) else
  let total := total_open_on a b in
  let ceiling := connection_ceiling a in
  if ceiling <=? total then (inr (TotalAtCapacity a e total ceiling), b) else
  let open := open_count_on a e b in
  let max := max_connections_on a e in
  if max <=? open then (inr (EndpointTypeAtCapacity a e open max), b) else
  (inl (mkSlot a e open (u8_saturating_add (jitter_base_on a e) open)),
   set_open_count a e (u8_saturating_add open 1) b).
Definition try_open (e : DhanEndpointType) (b : PoolBudget) := try_open_on PrimaryAccount e b.

Definition release_on (a : DhanAccount) (e : DhanEndpointType) (b : PoolBudget) : PoolBudget :=
  set_open_count a e (u8_saturating_sub (open_count_on a e b) 1) b.
Definition release (e : DhanEndpointType) (b : PoolBudget) : PoolBudget := release_on PrimaryAccount e b.

(** A run of the budget: opens and releases in any order. *)
Inductive budget_op : Type :=
  | OpOpen (a : DhanAccount) (e : DhanEndpointType)
  | OpRelease (a : DhanAccount) (e : DhanEndpointType).

Definition budget_step (b : PoolBudget) (op : budget_op) : PoolBudget :=
  match op with
  | OpOpen a e => snd (try_open_on a e b)
  | OpRelease a e => release_on a e b
  end.
Definition budget_run (ops : list budget_op) : PoolBudget := foldl budget_step new_pool_budget ops.

(** The slots a list of requests is granted, in order, and the budget it leaves. *)
Fixpoint grant_all (reqs : list (DhanAccount * DhanEndpointType)) (b : PoolBudget) : list ConnectionSlot * PoolBudget :=
  match reqs with
  | [] => ([], b)
  | (a, e) :: rest =>
      let '(r, b) := try_open_on a e b in
      let '(slots, b) := grant_all rest b in
      (match r with inl s => s :: slots | inr _ => slots end, b)
  end.

(** * Lemmas *)

Ltac caps :=
  cbn in *;
  unfold RecordSettersUsingExistingGetters.const, MAX_TOTAL_DHAN_CONNECTIONS, MAX_DEPTH_ACCOUNT_CONNECTIONS, MAX_DEPTH_ACCOUNT_DEPTH_20_CONNECTIONS,
    MAX_DEPTH_ACCOUNT_DEPTH_200_CONNECTIONS, MAX_PRIMARY_ACCOUNT_CONNECTIONS, MAX_MAIN_FEED_CONNECTIONS,
    MAX_DEPTH_20_CONNECTIONS, MAX_DEPTH_200_CONNECTIONS, MAX_ORDER_UPDATE_CONNECTIONS,
    MAX_WEBSOCKET_CONNECTIONS, MAX_TWENTY_DEPTH_CONNECTIONS, MAX_TWO_HUNDRED_DEPTH_CONNECTIONS in *;
  change (5 mod 256) with 5 in *; lia.

Definition budget_ok (b : PoolBudget) : Prop :=
  forall a e, 0 <= open_count_on a e b <= max_connections_on a e.

Lemma open_set_same a e v b : permits a e = true -> open_count_on a e (set_open_count a e v b) = v.
Proof. by destruct a, e. Qed.

Lemma open_set_other a e v b a' e' :
    (a, e) <> (a', e') -> open_count_on a' e' (set_open_count a e v b) = open_count_on a' e' b.
Proof. by destruct a, e, a', e'. Qed.

Lemma open_set_refused a e v b : permits a e = false -> set_open_count a e v b = b.
Proof. by destruct a, e. Qed.

Lemma max_connections_on_range a e : 0 <= max_connections_on a e <= 5.
Proof. by destruct a, e. Qed.

Lemma total_below_ceiling a e b :
    budget_ok b -> open_count_on a e b < max_connections_on a e -> total_open_on a b < connection_ceiling a.
Proof.
  intros Hok Hlt. pose proof (Hok PrimaryAccount MainFeed). pose proof (Hok PrimaryAccount Depth20).
  pose proof (Hok PrimaryAccount Depth200). pose proof (Hok PrimaryAccount OrderUpdateFeed).
  pose proof (Hok DepthAccount Depth20). pose proof (Hok DepthAccount Depth200).
  destruct a, e; caps.
Qed.

Lemma try_open_grants a e b :
    budget_ok b -> open_count_on a e b < max_connections_on a e ->
    try_open_on a e b =
      (inl (mkSlot a e (open_count_on a e b) (jitter_base_on a e + open_count_on a e b)),
       set_open_count a e (open_count_on a e b + 1) b).
Proof.
  intros Hok Hlt. pose proof (total_below_ceiling a e b Hok Hlt). pose proof (Hok a e). unfold try_open_on.
  assert (permits a e = true) as -> by (destruct a, e; caps || reflexivity). simpl.
  destruct (Z.leb_spec (connection_ceiling a) (total_open_on a b)); [lia|].
  destruct (Z.leb_spec (max_connections_on a e) (open_count_on a e b)); [lia|].
  pose proof (max_connections_on_range a e).
  assert (0 <= jitter_base_on a e <= 26) by (destruct a, e; caps).
  unfold u8_saturating_add. by rewrite !clamp_id by lia.
Qed.

Lemma try_open_refuses a e b :
    max_connections_on a e <= open_count_on a e b ->
    exists r, try_open_on a e b = (inr r, b) /\ refusal_endpoint r = e /\ refusal_account r = a.
Proof.
  intros Hge. unfold try_open_on. destruct (permits a e); simpl; [|eauto].
  destruct (_ <=? total_open_on _ _); [eauto|].
  destruct (Z.leb_spec (max_connections_on a e) (open_count_on a e b)); [eauto|lia].
Qed.

Lemma budget_ok_set a e v b : budget_ok b -> 0 <= v <= max_connections_on a e -> budget_ok (set_open_count a e v b).
Proof.
  intros Hok Hv a' e'. destruct (decide ((a, e) = (a', e'))) as [[= <- <-]|Hne];
    [|rewrite open_set_other by done; apply Hok].
  destruct (permits a e) eqn:Hp; [by rewrite open_set_same|]. rewrite open_set_refused by done. apply Hok.
Qed.

Lemma try_open_ok a e b : budget_ok b -> budget_ok (snd (try_open_on a e b)).
Proof.
  intros Hok. destruct (Z_lt_le_dec (open_count_on a e b) (max_connections_on a e)) as [Hlt|Hge].
  - rewrite try_open_grants by done. apply budget_ok_set; [done|]. specialize (Hok a e). lia.
  - by destruct (try_open_refuses a e b Hge) as (r & -> & _).
Qed.

Lemma pool_release_ok a e b : budget_ok b -> budget_ok (release_on a e b).
Proof.
  intros Hok. apply budget_ok_set; [done|]. pose proof (Hok a e). pose proof (max_connections_on_range a e).
  unfold u8_saturating_sub, clamp. lia.
Qed.

Lemma pool_budget_new_ok : budget_ok new_pool_budget.
Proof. by intros [] []. Qed.

Lemma budget_run_ok ops : budget_ok (budget_run ops).
Proof.
  unfold budget_run. generalize pool_budget_new_ok. generalize new_pool_budget.
  induction ops as [|[a e|a e] ops IH]; intros b Hb; simpl; [done| |]; apply IH;
    [by apply try_open_ok|by apply pool_release_ok].
Qed.

Lemma slot_owner_in_pool a e i :
    0 <= i < max_connections_on a e -> slot_owner (jitter_base_on a e + i) = Some (a, e).
Proof.
  intros Hi. pose proof (max_connections_on_range a e).
  assert (i = 0 \/ i = 1 \/ i = 2 \/ i = 3 \/ i = 4) as Hcases by lia.
  destruct Hcases as [->|[->|[->|[->| ->]]]]; destruct a, e; first [reflexivity | exfalso; caps].
Qed.

(** What a granted slot satisfies in a budget that has not released anything. *)
Definition slot_of_budget (b : PoolBudget) (s : ConnectionSlot) : Prop :=
  0 <= pool_index s < open_count_on (slot_account s) (slot_endpoint s) b /\
  global_index s = jitter_base_on (slot_account s) (slot_endpoint s) + pool_index s.

Lemma slot_of_budget_owner b s :
    budget_ok b -> slot_of_budget b s -> slot_owner (global_index s) = Some (slot_account s, slot_endpoint s).
Proof. intros Hok [Hi ->]. apply slot_owner_in_pool. specialize (Hok (slot_account s) (slot_endpoint s)). lia. Qed.

Lemma slot_of_budget_step a e b s :
    budget_ok b -> open_count_on a e b < max_connections_on a e -> slot_of_budget b s ->
    slot_of_budget (set_open_count a e (open_count_on a e b + 1) b) s.
Proof.
  intros Hok Hlt [Hi Hg]. split; [|done].
  destruct (decide ((a, e) = (slot_account s, slot_endpoint s))) as [[= -> ->]|Hne];
    [|by rewrite open_set_other].
  rewrite open_set_same; [lia|]. destruct (slot_account s), (slot_endpoint s); caps || done.
Qed.

Lemma total_open_set a e b :
    open_count_on a e b < max_connections_on a e ->
    total_open (set_open_count a e (open_count_on a e b + 1) b) = total_open b + 1.
Proof. unfold total_open. intros; destruct a, e; caps. Qed.

(** The slots granted from [b], given those [b] already granted. *)
Lemma grant_all_spec reqs b old slots b' :
    budget_ok b -> Forall (slot_of_budget b) old -> NoDup (global_index <$> old) ->
    grant_all reqs b = (slots, b') ->
    budget_ok b' /\ Forall (slot_of_budget b') (slots ++ old) /\ NoDup (global_index <$> slots ++ old) /\
    total_open b' = total_open b + Z.of_nat (length slots).
Proof.
  revert b old slots. induction reqs as [|[a e] reqs IH]; intros b old slots Hok Hold Hnd.
  { intros [= <- <-]. simpl. split; [done|]. split; [done|]. split; [done|]. lia. }
  simpl. destruct (Z_lt_le_dec (open_count_on a e b) (max_connections_on a e)) as [Hlt|Hge].
  - rewrite try_open_grants by done.
    set (s := mkSlot _ _ _ _). set (b1 := set_open_count _ _ _ _).
    destruct (grant_all reqs b1) as [rest b2] eqn:Hrest. intros [= <- <-].
    assert (budget_ok b1) as Hok1 by (apply budget_ok_set; [done|]; specialize (Hok a e); lia).
    assert (slot_of_budget b1 s) as Hs.
    { split; [|done]. simpl. unfold b1. rewrite open_set_same; [specialize (Hok a e); lia|].
      destruct a, e; caps || done. }
    destruct (IH b1 (s :: old) rest Hok1) as (? & Hall & Hnd' & Htot); [| |exact Hrest|].
    + constructor; [done|]. eapply Forall_impl; [exact Hold|]. intros. by apply slot_of_budget_step.
    + constructor; [|done]. intros (s' & Heq & Hin)%list_elem_of_fmap.
      rewrite Forall_forall in Hold. pose proof (Hold s' Hin) as Hs'.
      pose proof (slot_of_budget_owner _ _ Hok1 Hs) as Ho. rewrite Heq in Ho.
      rewrite (slot_of_budget_owner _ _ Hok Hs') in Ho. injection Ho as Ha He.
      destruct Hs' as [Hi Hg]. destruct Hs as [_ Hgs]. rewrite Ha, He in *. simpl in *. lia.
    + split; [done|]. assert (Hperm : s :: rest ++ old ≡ₚ rest ++ s :: old) by apply Permutation_middle.
      simpl. split; [by rewrite <- Permutation_middle in Hall|]. split.
      * change (NoDup (global_index <$> s :: rest ++ old)). by rewrite Hperm.
      * unfold b1 in Htot. rewrite total_open_set in Htot by done. lia.
  - destruct (try_open_refuses a e b Hge) as (r & -> & _).
    destruct (grant_all reqs b) as [rest b2] eqn:Hrest. intros [= <- <-]. by apply (IH b).
Qed.

(** * Properties *)

Module PoolBudgets.
(** Whatever is opened and released, in any order and with releases of what was
    never opened, no pool passes its cap, no account its ceiling, and all
    accounts together hold at most 26 sockets. *)
Theorem caps_are_never_exceeded ops :
    (forall a e, 0 <= open_count_on a e (budget_run ops) <= max_connections_on a e) /\
    (forall a, 0 <= total_open_on a (budget_run ops) <= connection_ceiling a) /\
    0 <= total_open (budget_run ops) <= 26.
Proof.
  pose proof (budget_run_ok ops) as Hok. split; [exact Hok|].
  pose proof (Hok PrimaryAccount MainFeed) as H1. pose proof (Hok PrimaryAccount Depth20) as H2.
  pose proof (Hok PrimaryAccount Depth200) as H3. pose proof (Hok PrimaryAccount OrderUpdateFeed) as H4.
  pose proof (Hok DepthAccount Depth20) as H5. pose proof (Hok DepthAccount Depth200) as H6.
  unfold total_open. split; [intros []|]; caps.
Qed.

(** In every state the budget can reach, an open is granted exactly when its own
    pool is below its cap: neither the account's ceiling nor the permission
    check refuses more, and a refusal changes nothing. *)
Theorem granted_iff_pool_has_room ops a e :
    let b := budget_run ops in
    ((exists s b', try_open_on a e b = (inl s, b')) <-> open_count_on a e b < max_connections_on a e) /\
    (forall r b', try_open_on a e b = (inr r, b') -> b' = b).
Proof.
  intros b. pose proof (budget_run_ok ops) as Hok. fold b in Hok.
  destruct (Z_lt_le_dec (open_count_on a e b) (max_connections_on a e)) as [Hlt|Hge].
  - rewrite try_open_grants by done. split; [|by intros]. split; [done|]. intros _. eauto.
  - destruct (try_open_refuses a e b Hge) as (r & -> & _). split; [|by intros ? ? [= _ <-]].
    split; [by intros (? & ? & ?)|lia].
Qed.

(** C36: The slots of one boot, whatever is asked for in whatever order: no
    two share a global index, each index belongs to the pool the slot was granted
    from, there are as many as the budget counts open, and when everything is open
    the indexes are exactly 0 to 25. *)
Theorem granted_slots_are_distinct reqs slots b :
    grant_all reqs new_pool_budget = (slots, b) ->
    NoDup (global_index <$> slots) /\
    Forall (fun s => slot_owner (global_index s) = Some (slot_account s, slot_endpoint s) /\
      0 <= global_index s < 26) slots /\
    total_open b = Z.of_nat (length slots) /\
    (total_open b = 26 -> global_index <$> slots ≡ₚ seqZ 0 26).
Proof.
  intros Hg. destruct (grant_all_spec reqs new_pool_budget [] slots b) as (Hok & Hall & Hnd & Htot);
    [apply pool_budget_new_ok|constructor|constructor|done|].
  rewrite app_nil_r in *. assert (Hrange : Forall (fun s => 0 <= global_index s < 26) slots).
  { eapply Forall_impl; [exact Hall|]. intros s [Hi ->]. specialize (Hok (slot_account s) (slot_endpoint s)).
    destruct (slot_account s), (slot_endpoint s); caps. }
  split; [done|]. split.
  { rewrite Forall_forall in *. intros s Hs. split; [|by apply Hrange].
    apply (slot_of_budget_owner b); [done|]. by apply Hall. }
  change (total_open new_pool_budget) with 0 in Htot. split; [lia|]. intros Hfull.
  apply submseteq_length_Permutation.
  - apply NoDup_submseteq; [done|]. intros g (s & -> & Hs)%list_elem_of_fmap. apply elem_of_seqZ.
    rewrite Forall_forall in Hrange. specialize (Hrange s Hs). lia.
  - rewrite length_seqZ, length_fmap. lia.
Qed.

(** Every slot below the ceiling belongs to one pool, and no slot past it to any. *)
Lemma slots_are_tiled g :
    (0 <= g < 26 -> exists a e, slot_owner g = Some (a, e) /\ permits a e = true /\
       jitter_base_on a e <= g < jitter_base_on a e + max_connections_on a e) /\
    (26 <= g -> slot_owner g = None).
Proof.
  split.
  - intros Hg. assert (Hin : g ∈ seqZ 0 26) by (apply elem_of_seqZ; lia). revert Hin.
    change (seqZ 0 26) with [0;1;2;3;4;5;6;7;8;9;10;11;12;13;14;15;16;17;18;19;20;21;22;23;24;25].
    rewrite !elem_of_cons, elem_of_nil. intros Hin. clear Hg.
    repeat destruct Hin as [->|Hin]; [..|done]; eexists _, _; (split; [vm_compute; reflexivity|]); by vm_compute.
  - intros Hg. unfold slot_owner. rewrite fmap_None. apply list_find_None, Forall_forall.
    intros [a e] _. unfold in_pool. simpl. intros [_ Hlt%Z.ltb_lt]%andb_prop.
    assert (u8_saturating_add (jitter_base_on a e) (max_connections_on a e) <= 26) by (by destruct a, e). lia.
Qed.

(** A release followed by an open gives out the index of a socket that is still
    open when the released one was not the last opened: indexes are unique only
    while nothing is released, as in the program, which never releases. *)
Example release_can_reuse_an_open_index :
    let b := budget_run [OpOpen PrimaryAccount MainFeed; OpOpen PrimaryAccount MainFeed;
                         OpRelease PrimaryAccount MainFeed] in
    exists s, fst (try_open MainFeed b) = inl s /\ global_index s = 1.
Proof. eexists. split; reflexivity. Qed.

Lemma granted_slots_are_distinct_witness :
    let reqs := [(PrimaryAccount, MainFeed); (DepthAccount, Depth20); (DepthAccount, MainFeed);
                 (PrimaryAccount, OrderUpdateFeed); (PrimaryAccount, OrderUpdateFeed); (PrimaryAccount, MainFeed)] in
    global_index <$> fst (grant_all reqs new_pool_budget) = [0; 16; 15; 1] /\
    NoDup (global_index <$> fst (grant_all reqs new_pool_budget)).
Proof.
  intros reqs. split; [vm_compute; reflexivity|].
  exact (proj1 (granted_slots_are_distinct reqs _ _ (surjective_pairing _))).
Defined.
End PoolBudgets.
