(* ===== verification/ReconnectLadder.v ===== *)
(** Reconnect delays of one socket ([core/src/websocket/reconnect_ladder.rs]) and
    its idle watchdog ([core/src/websocket/idle_watchdog.rs]).  An [Instant] and
    a [Duration] count nanoseconds; differences of instants saturate at zero. *)
From coqutil Require Import Datatypes.RecordSettersUsingExistingGetters.
From S2P Require Import Prelude.
Local Open Scope Z_scope.

(** * The ladder *)

Definition RECONNECT_LADDER_MS : list Z := [0; 1000; 2000; 5000; 15000].
Definition RECONNECT_LADDER_CAP_MS : Z := 30000.
Definition RECONNECT_JITTER_STEP_MS : Z := 25.
Definition RECONNECT_JITTER_SLOTS : Z := 26.
Definition RECONNECT_JITTER_MAX_MS : Z := 625.
Definition RECONNECT_DELAY_WITH_JITTER_MAX_MS : Z := RECONNECT_LADDER_CAP_MS + RECONNECT_JITTER_MAX_MS.
Definition MIN_HEALTHY_SESSION_MS : Z := 30000.
Definition SHORT_SESSION_REDIAL_FLOOR_MS : Z := default 0 (RECONNECT_LADDER_MS !! 1%nat).
Definition FLAP_WINDOW_MS : Z := 300000.
Definition FLAP_REDIAL_CEILING : Z := 6.
Definition FLAP_CEILING_REDIAL_FLOOR_MS : Z := RECONNECT_LADDER_CAP_MS.

Inductive FlapVerdict : Type := Ladder | ShortSession | FlapCeiling.
Definition is_damped (v : FlapVerdict) : bool := match v with Ladder => false | _ => true end.

Record ReconnectDecision : Type := mkDecision {
  delay_ms : Z;
  verdict : FlapVerdict }.

(** [u32] to [usize] never fails on the 64-bit targets. *)
Definition reconnect_delay_ms (attempt : Z) : Z :=
  match RECONNECT_LADDER_MS !! Z.to_nat attempt with
  | Some ms => ms
  | None => RECONNECT_LADDER_CAP_MS
  end.

Definition reconnect_jitter_ms (global_connection_index : Z) : Z :=
  clamp 0 u64_max ((global_connection_index mod RECONNECT_JITTER_SLOTS) * RECONNECT_JITTER_STEP_MS).

(** A floor that does not raise the delay is not reported as one. *)
Definition verdict_for (base floored : Z) (v : FlapVerdict) : ReconnectDecision :=
  mkDecision floored (if base <? floored then v else Ladder).

Definition damped_reconnect_delay (attempt healthy_duration_ms recent_redial_count : Z) : ReconnectDecision :=
  let base := reconnect_delay_ms attempt in
  if FLAP_REDIAL_CEILING <=? recent_redial_count then
    verdict_for base (Z.max base FLAP_CEILING_REDIAL_FLOOR_MS) FlapCeiling
  else if healthy_duration_ms <? MIN_HEALTHY_SESSION_MS then
    verdict_for base (Z.max base SHORT_SESSION_REDIAL_FLOOR_MS) ShortSession
  else mkDecision base Ladder.

Definition damped_reconnect_delay_with_jitter
    (attempt healthy_duration_ms recent_redial_count global_connection_index : Z) : ReconnectDecision :=
  let decision := damped_reconnect_delay attempt healthy_duration_ms recent_redial_count in
  mkDecision (u64_saturating_add (delay_ms decision) (reconnect_jitter_ms global_connection_index))
    (verdict decision).

(** * The idle watchdog *)

Definition DHAN_SERVER_PING_INTERVAL_SECS : Z := 10.
Definition DHAN_SERVER_CLOSE_AFTER_SILENCE_SECS : Z := 40.
Definition IDLE_RECONNECT_TIMEOUT_SECS : Z := 27.
Definition NANOS_PER_SEC : Z := 1000000000.
Definition NANOS_PER_MS : Z := 1000000.
Definition IDLE_RECONNECT_TIMEOUT : Z := IDLE_RECONNECT_TIMEOUT_SECS * NANOS_PER_SEC.

(** [Instant::saturating_duration_since]. *)
Definition saturating_duration_since (now earlier : Z) : Z := Z.max 0 (now - earlier).

Record IdleWatchdog : Type := mkWatchdog {
  last_activity : Z;
  wd_timeout : Z }.

Definition new_watchdog (now : Z) : IdleWatchdog := mkWatchdog now IDLE_RECONNECT_TIMEOUT.
Definition with_timeout (now timeout : Z) : IdleWatchdog := mkWatchdog now timeout.
Definition record_activity (now : Z) (w : IdleWatchdog) : IdleWatchdog :=
  if last_activity w <? now then { w with last_activity := now } else w.
Definition idle_for (now : Z) (w : IdleWatchdog) : Z := saturating_duration_since now (last_activity w).
Definition is_expired (now : Z) (w : IdleWatchdog) : bool := wd_timeout w <=? idle_for now w.

(** * Lemmas *)

(** The rung of an attempt, as one case analysis. *)
Lemma reconnect_delay_cases attempt :
    0 <= attempt ->
    (attempt = 0 /\ reconnect_delay_ms attempt = 0) \/ (attempt = 1 /\ reconnect_delay_ms attempt = 1000) \/
    (attempt = 2 /\ reconnect_delay_ms attempt = 2000) \/ (attempt = 3 /\ reconnect_delay_ms attempt = 5000) \/
    (attempt = 4 /\ reconnect_delay_ms attempt = 15000) \/ (5 <= attempt /\ reconnect_delay_ms attempt = 30000).
Proof.
  intros H. assert (attempt = 0 \/ attempt = 1 \/ attempt = 2 \/ attempt = 3 \/ attempt = 4 \/ 5 <= attempt)
    as [->|[->|[->|[->|[->|H5]]]]] by lia; [by vm_compute; auto 10..|].
  do 5 right. split; [done|]. unfold reconnect_delay_ms. rewrite lookup_ge_None_2; [done|]. simpl. lia.
Qed.

Ltac ladder_rung attempt :=
  let H := fresh "Hrung" in
  assert (H := reconnect_delay_cases attempt);
  destruct H as [[? ?]|[[? ?]|[[? ?]|[[? ?]|[[? ?]|[? ?]]]]]]; [lia|..].

Lemma reconnect_delay_range attempt : 0 <= attempt -> 0 <= reconnect_delay_ms attempt <= RECONNECT_LADDER_CAP_MS.
Proof. intros. unfold RECONNECT_LADDER_CAP_MS. ladder_rung attempt; lia. Qed.

Lemma reconnect_delay_mono a b : 0 <= a <= b -> reconnect_delay_ms a <= reconnect_delay_ms b.
Proof. intros. ladder_rung a; ladder_rung b; lia. Qed.

Lemma reconnect_jitter_exact g : 0 <= g < 26 -> reconnect_jitter_ms g = 25 * g.
Proof.
  intros Hg. unfold reconnect_jitter_ms, RECONNECT_JITTER_SLOTS, RECONNECT_JITTER_STEP_MS, u64_max.
  rewrite Z.mod_small, clamp_id by lia. lia.
Qed.

Lemma reconnect_jitter_range g : 0 <= reconnect_jitter_ms g <= RECONNECT_JITTER_MAX_MS.
Proof.
  unfold reconnect_jitter_ms, RECONNECT_JITTER_SLOTS, RECONNECT_JITTER_STEP_MS, RECONNECT_JITTER_MAX_MS, u64_max.
  pose proof (Z.mod_pos_bound g 26 ltac:(lia)). rewrite clamp_id by lia. lia.
Qed.

(** The damped delay in closed form. *)
Lemma damped_delay_value attempt healthy redials :
    delay_ms (damped_reconnect_delay attempt healthy redials) =
      Z.max (reconnect_delay_ms attempt)
        (if 6 <=? redials then 30000 else if healthy <? 30000 then 1000 else reconnect_delay_ms attempt).
Proof.
  unfold damped_reconnect_delay, FLAP_REDIAL_CEILING, MIN_HEALTHY_SESSION_MS. zcases; simpl; try done. lia.
Qed.

Lemma damped_delay_range attempt healthy redials :
    0 <= attempt -> 0 <= delay_ms (damped_reconnect_delay attempt healthy redials) <= RECONNECT_LADDER_CAP_MS.
Proof.
  intros H. rewrite damped_delay_value. pose proof (reconnect_delay_range attempt H).
  unfold RECONNECT_LADDER_CAP_MS in *. zcases; lia.
Qed.

Lemma jittered_delay_value attempt healthy redials g :
    0 <= attempt ->
    delay_ms (damped_reconnect_delay_with_jitter attempt healthy redials g) =
      delay_ms (damped_reconnect_delay attempt healthy redials) + reconnect_jitter_ms g.
Proof.
  intros H. simpl. pose proof (damped_delay_range attempt healthy redials H). pose proof (reconnect_jitter_range g).
  unfold u64_saturating_add, RECONNECT_LADDER_CAP_MS, RECONNECT_JITTER_MAX_MS, u64_max in *. apply clamp_id. lia.
Qed.

(** * Properties *)

Module ReconnectDelays.
(** The delay before a redial lies between nothing and 30,625 ms; the 26 sockets
    that fail alike get 26 different delays; the delay never falls as attempts
    go up, sessions get shorter or redials more frequent; and it is zero in
    exactly one case, the first attempt of slot 0 (modulo the number of slots)
    after a session of at least 30 s with fewer than six recent redials. *)
Theorem delays_are_bounded_and_staggered attempt healthy redials g :
    0 <= attempt -> 0 <= g ->
    0 <= delay_ms (damped_reconnect_delay_with_jitter attempt healthy redials g)
      <= RECONNECT_DELAY_WITH_JITTER_MAX_MS /\
    (forall g', 0 <= g < 26 -> 0 <= g' < 26 -> g <> g' ->
       delay_ms (damped_reconnect_delay_with_jitter attempt healthy redials g) <>
       delay_ms (damped_reconnect_delay_with_jitter attempt healthy redials g')) /\
    (forall attempt' healthy' redials', attempt <= attempt' -> healthy' <= healthy -> redials <= redials' ->
       delay_ms (damped_reconnect_delay_with_jitter attempt healthy redials g) <=
       delay_ms (damped_reconnect_delay_with_jitter attempt' healthy' redials' g)) /\
    (delay_ms (damped_reconnect_delay_with_jitter attempt healthy redials g) = 0 <->
       attempt = 0 /\ 30000 <= healthy /\ redials < 6 /\ g mod 26 = 0).
Proof.
  intros Ha Hg. rewrite (jittered_delay_value attempt) by done.
  pose proof (damped_delay_range attempt healthy redials Ha) as Hd. pose proof (reconnect_jitter_range g) as Hj.
  split; [unfold RECONNECT_DELAY_WITH_JITTER_MAX_MS; lia|]. split.
  { intros g' H1 H2 Hne. rewrite jittered_delay_value by done. rewrite !reconnect_jitter_exact by done. lia. }
  split.
  { intros attempt' healthy' redials' H1 H2 H3. rewrite jittered_delay_value by lia. rewrite !damped_delay_value.
    pose proof (reconnect_delay_mono attempt attempt' ltac:(lia)).
    pose proof (reconnect_delay_range attempt Ha). unfold RECONNECT_LADDER_CAP_MS in *. zcases; lia. }
  rewrite damped_delay_value.
  assert (reconnect_jitter_ms g = 25 * (g mod 26)) as ->.
  { unfold reconnect_jitter_ms, RECONNECT_JITTER_SLOTS, RECONNECT_JITTER_STEP_MS, u64_max.
    pose proof (Z.mod_pos_bound g 26 ltac:(lia)). rewrite clamp_id by lia. lia. }
  pose proof (Z.mod_pos_bound g 26 ltac:(lia)). ladder_rung attempt; zcases; lia.
Qed.

Lemma delays_are_bounded_and_staggered_witness :
    0 <= 3 /\ 0 <= 7 /\ 0 <= delay_ms (damped_reconnect_delay_with_jitter 3 40 2 7) <= RECONNECT_DELAY_WITH_JITTER_MAX_MS.
Proof.
  split; [lia|]. split; [lia|].
  exact (proj1 (delays_are_bounded_and_staggered 3 40 2 7 ltac:(lia) ltac:(lia))).
Defined.

(** A damping is reported exactly when it raised the delay above the rung. *)
Lemma damped_iff_raised attempt healthy redials :
    is_damped (verdict (damped_reconnect_delay attempt healthy redials)) = true <->
    reconnect_delay_ms attempt < delay_ms (damped_reconnect_delay attempt healthy redials).
Proof.
  unfold damped_reconnect_delay, verdict_for.
  destruct (_ <=? _); [|destruct (_ <? _)]; simpl; [| |split; [done|lia]].
  all: destruct (Z.ltb_spec (reconnect_delay_ms attempt) (Z.max (reconnect_delay_ms attempt) FLAP_CEILING_REDIAL_FLOOR_MS));
       destruct (Z.ltb_spec (reconnect_delay_ms attempt) (Z.max (reconnect_delay_ms attempt) SHORT_SESSION_REDIAL_FLOOR_MS));
       simpl; split; done || lia.
Qed.

(** The damper never acts on a socket whose attempts climb to the cap by
    themselves: from the sixth attempt on the rung is what it would raise to. *)
Lemma never_damped_at_the_cap attempt healthy redials :
    5 <= attempt -> verdict (damped_reconnect_delay attempt healthy redials) = Ladder.
Proof.
  intros H. pose proof (damped_iff_raised attempt healthy redials) as [Hd _].
  pose proof (damped_delay_range attempt healthy redials ltac:(lia)).
  destruct (verdict _); [done|..]; exfalso; specialize (Hd eq_refl); ladder_rung attempt;
    unfold RECONNECT_LADDER_CAP_MS in *; lia.
Qed.

(** The watchdog: recording activity never shortens the window, and it expires
    exactly when nothing was recorded for the whole timeout. *)
Definition record_all (w : IdleWatchdog) (acts : list Z) : IdleWatchdog := foldl (flip record_activity) w acts.

Lemma record_all_last w acts :
    last_activity (record_all w acts) = foldl Z.max (last_activity w) acts /\
    wd_timeout (record_all w acts) = wd_timeout w.
Proof.
  revert w. induction acts as [|a acts IH]; intros w; simpl; [done|].
  destruct (IH (record_activity a w)) as [-> ->]. unfold record_activity.
  destruct (Z.ltb_spec (last_activity w) a); simpl; split; try done.
  - by rewrite Z.max_r by lia.
  - by rewrite Z.max_l by lia.
Qed.

Lemma foldl_max_le l m z : foldl Z.max m l <= z <-> m <= z /\ Forall (fun x => x <= z) l.
Proof.
  revert m. induction l as [|x l IH]; intros m; simpl.
  - split; [by split; [|constructor]|tauto].
  - rewrite IH, Forall_cons. split; intros; repeat split; try tauto; lia.
Qed.

(** The idle watchdog of a socket dialled at [start] has expired at [now] exactly
    when 27 s have passed since the dial and since every recorded activity, in
    whatever order the activities were recorded. *)
Theorem watchdog_expires_iff_silent start acts now :
    is_expired now (record_all (new_watchdog start) acts) = true <->
    Forall (fun t => t + 27 * NANOS_PER_SEC <= now) (start :: acts).
Proof.
  unfold is_expired, idle_for. destruct (record_all_last (new_watchdog start) acts) as [-> ->]. simpl.
  unfold saturating_duration_since, IDLE_RECONNECT_TIMEOUT, IDLE_RECONNECT_TIMEOUT_SECS, NANOS_PER_SEC.
  rewrite Z.leb_le. rewrite Forall_cons.
  assert (27 * 1000000000 <= Z.max 0 (now - foldl Z.max start acts) <->
          foldl Z.max start acts <= now - 27000000000) as -> by lia.
  rewrite foldl_max_le. split; intros [H1 H2]; (split; [lia|]); (eapply Forall_impl; [exact H2|]; simpl; lia).
Qed.
End ReconnectDelays.
