(* ===== verification/ConnectionSupervisor.v ===== *)
(** The supervisor of one feed connection
    ([core/src/websocket/pool_supervisor.rs]): classification of disconnects,
    the state machine [on_event], the two silence watchdogs of [poll_with], the
    episode of rejected logins.  It is a value owned by one task; what it tells
    process-wide state (overflow episodes, the 805 breaker, activity registers)
    is the list of [PoolCall]s a step returns, and the register of silence
    redials a poll claims is an argument and a result.  Monotonic instants count
    nanoseconds; the wall clock and the session calendar are arguments.  Metrics
    and logs, and the fields only they read, are left out. *)
From coqutil Require Import Datatypes.RecordSettersUsingExistingGetters.
From S2P Require Import Prelude FeedTypes OrderReadiness ConnectionBudget ReconnectLadder.
Local Open Scope Z_scope.

(** * Constants *)

Definition TOKEN_STALE_REDIAL_FLOOR_MS : Z := 5000.
Definition AUTH_REJECT_MAX_HARD_FAILURES : Z := 3.
Definition AUTH_REJECT_EPISODE_MAX_MS : Z := 300000.
Definition AUTH_REJECT_WINDOW_MS : Z := 300000.
Definition AUTH_REJECT_MAX_REFRESHES_PER_WINDOW : Z := 4.
Definition FRAME_SILENCE_REDIAL_SECS : Z := 300.
Definition MAIN_FEED_CONFIRMED_SILENCE_REDIAL_SECS : Z := 60.
Definition DEPTH20_CONFIRMED_SILENCE_REDIAL_SECS : Z := 90.
Definition DEPTH200_SILENCE_BACKSTOP_SECS : Z := 900.
Definition SIBLING_LIVE_EVIDENCE_SECS : Z := 10.
Definition SIBLING_FUTURE_SKEW_MS : Z := 5000.
Definition MIN_LIVE_SIBLINGS : Z := 2.
Definition MAIN_FEED_CONFIRMED_MIN_HELD : Z := 1000.
Definition DEPTH20_CONFIRMED_MIN_HELD : Z := 20.
Definition CONFIRMED_REDIAL_SPACING_SECS : Z := 15.
Definition SILENCE_STRIKE_RESET_SECS : Z := 900.
Definition CAS_WINDOW_OPEN_SECS_OF_DAY_IST : Z := 15 * 3600 + 15 * 60.
Definition CONFIRMED_SILENCE_CLOSE_SECS_OF_DAY_IST : Z := CAS_WINDOW_OPEN_SECS_OF_DAY_IST.
Definition MAX_SILENCE_STRIKE_SHIFT : Z := 3.
Definition FRAME_ACTIVITY_PUBLISH_INTERVAL : Z := 1 * NANOS_PER_SEC.
Definition CONTINUOUS_SESSION_OPEN_SECS_OF_DAY_IST : Z := 9 * 3600 + 15 * 60.
Definition CONTINUOUS_SESSION_CLOSE_SECS_OF_DAY_IST : Z := TICK_PERSIST_END_SECS_OF_DAY_IST.
Definition FLAP_HISTORY_SLOTS : Z := 8.
Definition GHOST_REDIAL_SLOTS : Z := 32.

(** * Data *)

Inductive TokenRefreshOutcome : Type := Fresh (current : Z) | Deferred | RefreshFailed | NotAttempted.
Record TokenRefreshReport : Type := mkReport {
  presented : Z;
  refresh_outcome : TokenRefreshOutcome }.

(** [started_at], read only by a log line, is left out. *)
Record AuthRejectEpisode : Type := mkAuthReject {
  hard_failures : Z;
  verified_generation : option Z;
  last_progress_at : Z;
  refreshed_this_cycle : bool;
  grace_refresh_used : bool }.

Inductive FrameSilenceFastPath : Type := FastOff | FastShadow | FastAct.
Inductive SilenceBasis : Type := Unconfirmed | SiblingConfirmed | CrossFeed | Backstop.
Inductive SiblingEvidence : Type := EvidenceOff | EvidencePool.
Inductive FrameSilenceGate : Type := AlwaysOn | ContinuousSessionIst | GateOff.

Inductive DisconnectClass : Type :=
  | Transient | TokenStaleClass | PoolOverflow | AuthRejectedClass | SubscriptionRejectedClass | Fatal.

Inductive ConnPhase : Type := PhaseIdle | Dialing | Subscribing | Live | Backoff | Parked.

Inductive ConnEvent : Type :=
  | BeginDial | DialSucceeded | DialFailed | SubscribeAcked | SubscribeFailed
  | FrameReceived | KeepAliveReceived | Disconnected (code : option DisconnectCode)
  | IdleElapsed | FrameSilenceElapsed | ProbeCloseRequested
  | OverflowProbeGranted | OverflowProbeFailed | ShutdownRequested.

Inductive ParkReason : Type := ParkPoolOverflow | FatalDisconnect | ParkSubscriptionRejected | Shutdown.

Inductive ReconnectReason : Type :=
  | RDialFailed | RSubscribeFailed | RDisconnected | RTokenStale | RIdleSilence | RProbeClose
  | ROverflowProbe | RAuthRejected.

Inductive SupervisorAction : Type :=
  | Dial
  | SleepThenDial (delay : Z)
  | RefreshTokenThenDial (delay : Z)
  | Subscribe
  | Park (reason : ParkReason)
  | Continue.

#[global] Instance conn_phase_eq_dec : EqDecision ConnPhase. Proof. solve_decision. Defined.
#[global] Instance park_reason_eq_dec : EqDecision ParkReason. Proof. solve_decision. Defined.
#[global] Instance disconnect_code_eq_dec : EqDecision DisconnectCode. Proof. solve_decision. Defined.
#[global] Instance conn_event_eq_dec : EqDecision ConnEvent. Proof. solve_decision. Defined.
#[global] Instance reconnect_reason_eq_dec : EqDecision ReconnectReason. Proof. solve_decision. Defined.
#[global] Instance silence_basis_eq_dec : EqDecision SilenceBasis. Proof. solve_decision. Defined.
#[global] Instance sibling_evidence_eq_dec : EqDecision SiblingEvidence. Proof. solve_decision. Defined.
#[global] Instance fast_path_eq_dec : EqDecision FrameSilenceFastPath. Proof. solve_decision. Defined.

(** What a connection tells process-wide state, in order.  All of it is told by the
    supervisor's steps, but for [NoteDialConnect] and [NoteDialFailed], which the loop
    tells around a dial ([ConnectionLoop]). *)
Inductive PoolCall : Type :=
  | NoteDialBegin (slot now : Z)
  | NoteDialConnect (slot now : Z)
  | NoteDialFailed (slot : Z) (reason : string)
  | BumpDialGeneration (slot : Z)
  | NoteDialSucceeded (slot now : Z)
  | NoteWatchedTornDown (slot now : Z)
  | StoreSubscribedAt (slot : Z)
  | GapPeakMax (slot gap_ms : Z)
  | GapPeakReset (slot : Z)
  | PublishFrameActivity (slot : Z)
  | NoteFirstFrame (slot : Z)
  | NoteDisconnect (code : option DisconnectCode) (slot now : Z)
  | HaltRotation
  | NoteSelfRedial (slot now : Z)
  | NoteWatchedRedialling (slot : Z)
  | NoteLeft (slot : Z) (reason : ParkReason) (now : Z).

(** * Classification *)

Definition classify_disconnect (code : option DisconnectCode) : DisconnectClass :=
  match code with
  | Some ExceededActiveConnections => PoolOverflow
  | Some (AccessTokenExpired | AccessTokenInvalid) => TokenStaleClass
  | Some AuthenticationFailed => AuthRejectedClass
  | Some (DataApiSubscriptionRequired | ClientIdInvalid) => Fatal
  | Some InstrumentsExceedLimit => SubscriptionRejectedClass
  | _ => Transient
  end.

Definition is_watchdog_eligible (p : ConnPhase) : bool :=
  match p with Dialing | Subscribing | Live => true | _ => false end.

Definition allows_one_respawn (r : ParkReason) : bool :=
  match r with ParkSubscriptionRejected => true | _ => false end.
Definition respawn_budget_allows (eligible already_used : bool) : bool := eligible && negb already_used.

Definition records_flap (r : ReconnectReason) : bool :=
  match r with RProbeClose => false | _ => true end.

(** Whether an endpoint takes part in an overflow episode:
    [OverflowEpisodeKind::for_endpoint(..).is_some()]. *)
Definition in_overflow_episode (e : DhanEndpointType) : bool :=
  match e with MainFeed | Depth20 | Depth200 => true | OrderUpdateFeed => false end.

(** * Silence rules *)

Definition confirmed_kind_index (e : DhanEndpointType) : option nat :=
  match e with MainFeed => Some 0%nat | Depth20 => Some 1%nat | Depth200 | OrderUpdateFeed => None end.

Definition confirmed_min_held (e : DhanEndpointType) : Z :=
  match e with
  | MainFeed => MAIN_FEED_CONFIRMED_MIN_HELD
  | Depth20 => DEPTH20_CONFIRMED_MIN_HELD
  | Depth200 | OrderUpdateFeed => u32_max
  end.

Definition confirmed_base_secs (e : DhanEndpointType) : Z :=
  match e with
  | MainFeed => MAIN_FEED_CONFIRMED_SILENCE_REDIAL_SECS
  | Depth20 => DEPTH20_CONFIRMED_SILENCE_REDIAL_SECS
  | Depth200 => DEPTH200_SILENCE_BACKSTOP_SECS
  | OrderUpdateFeed => FRAME_SILENCE_REDIAL_SECS
  end.

Definition silence_redial_basis (e : DhanEndpointType) (silent_secs confirmed_threshold_secs : Z)
    (confirmed_window_open overflow_or_halted : bool) (live_siblings held : Z) (spacing_ok : bool)
    : option SilenceBasis :=
  match e with
  | Depth200 => if DEPTH200_SILENCE_BACKSTOP_SECS <=? silent_secs then Some Backstop else None
  | MainFeed | Depth20 =>
      if FRAME_SILENCE_REDIAL_SECS <=? silent_secs then Some Unconfirmed
      else if (confirmed_threshold_secs <=? silent_secs) && confirmed_window_open &&
              negb overflow_or_halted && (MIN_LIVE_SIBLINGS <=? live_siblings) &&
              (confirmed_min_held e <=? held) && spacing_ok
      then Some SiblingConfirmed else None
  | OrderUpdateFeed => None
  end.

Definition i64_saturating_mul (a b : Z) : Z := clamp i64_min i64_max (a * b).

(** The slot is free when never taken, taken 15 s ago, or stamped more than the
    skew in the future; the claim is a compare-and-swap against [current], the
    value at that moment.  [Some] is the value it writes. *)
Definition claim_fallback_spacing (current last wall_ms : Z) : option Z :=
  let elapsed := i64_saturating_sub wall_ms last in
  let free := (last =? 0) || (i64_saturating_mul CONFIRMED_REDIAL_SPACING_SECS 1000 <=? elapsed) ||
              (elapsed <? - SIBLING_FUTURE_SKEW_MS) in
  if free && (current =? last) then Some wall_ms else None.

(** A sibling of the same kind whose stamp is recent. *)
Definition is_live_sibling (self_idx : Z) (e : DhanEndpointType) (now_wall_ms : Z) (p : nat * Z) : bool :=
  let '(j, stamp) := p in
  let age := i64_saturating_sub now_wall_ms stamp in
  negb (Z.of_nat j =? self_idx) && (0 <? stamp) &&
  match slot_owner (Z.of_nat j) with Some (_, kind) => bool_decide (kind = e) | None => false end &&
  (- SIBLING_FUTURE_SKEW_MS <=? age) && (age <=? SIBLING_LIVE_EVIDENCE_SECS * 1000).

(** The scan stops at the 256th slot, where the index no longer fits a [u8]. *)
Definition live_siblings (self_idx : Z) (e : DhanEndpointType) (now_wall_ms : Z) (stamps : list Z) : Z :=
  clamp 0 255 (Z.of_nat (length (filter (fun p => is_live_sibling self_idx e now_wall_ms p = true)
    (imap pair (take 256 stamps))))).

Definition is_open_at (g : FrameSilenceGate) (secs_of_day_ist : Z) : bool :=
  match g with
  | AlwaysOn => true
  | GateOff => false
  | ContinuousSessionIst =>
      (CONTINUOUS_SESSION_OPEN_SECS_OF_DAY_IST <=? secs_of_day_ist) &&
      (secs_of_day_ist <? CONTINUOUS_SESSION_CLOSE_SECS_OF_DAY_IST)
  end.

Definition confirmed_window_open_at (g : FrameSilenceGate) (secs_of_day_ist : Z) : bool :=
  match g with
  | AlwaysOn => true
  | GateOff => false
  | ContinuousSessionIst =>
      (CONTINUOUS_SESSION_OPEN_SECS_OF_DAY_IST <=? secs_of_day_ist) &&
      (secs_of_day_ist <? CONFIRMED_SILENCE_CLOSE_SECS_OF_DAY_IST)
  end.

(** * The supervisor *)

Record ConnectionSupervisor : Type := mkSupervisor {
  cs_slot : ConnectionSlot;
  cs_phase : ConnPhase;
  last_redial_reason : ReconnectReason;
  attempt : Z;
  watchdog : IdleWatchdog;
  frame_silence_gate : FrameSilenceGate;
  last_frame_at : Z;
  proven_healthy : bool;
  healthy_since : option Z;
  dial_started_at : option Z;
  outage_started_at : option Z;
  redial_history : list (option Z);
  redial_cursor : Z;
  frames : Z;
  reconnects : Z;
  park_reason : option ParkReason;
  respawn_used : bool;
  ever_delivered : bool;
  last_disconnect_code : option Z;
  auth_reject : option AuthRejectEpisode;
  auth_reject_refreshes : list (option Z);
  auth_reject_cursor : Z;
  silence_evidence : SiblingEvidence;
  fast_path : FrameSilenceFastPath;
  held_instruments : Z;
  silence_strikes : Z;
  last_silence_redial_at : option Z;
  last_silence_basis : SilenceBasis;
  next_silence_basis : SilenceBasis;
  would_redial_latched : bool;
  would_redials : Z;
  next_activity_publish_at : Z;
  gap_window_open : bool;
  gap_peak_ms : Z }.

Definition new_supervisor (slot : ConnectionSlot) (now : Z) : ConnectionSupervisor := {|
  cs_slot := slot; cs_phase := PhaseIdle; last_redial_reason := RDisconnected; attempt := 0;
  watchdog := new_watchdog now; frame_silence_gate := AlwaysOn; last_frame_at := now;
  proven_healthy := false; healthy_since := None; dial_started_at := None; outage_started_at := None;
  redial_history := replicate (Z.to_nat FLAP_HISTORY_SLOTS) None; redial_cursor := 0;
  frames := 0; reconnects := 0; park_reason := None; respawn_used := false; ever_delivered := false;
  last_disconnect_code := None; auth_reject := None;
  auth_reject_refreshes := replicate (Z.to_nat AUTH_REJECT_MAX_REFRESHES_PER_WINDOW) None;
  auth_reject_cursor := 0; silence_evidence := EvidenceOff; fast_path := FastShadow;
  held_instruments := 0; silence_strikes := 0; last_silence_redial_at := None;
  last_silence_basis := Unconfirmed; next_silence_basis := Unconfirmed; would_redial_latched := false;
  would_redials := 0; next_activity_publish_at := now; gap_window_open := false; gap_peak_ms := 0 |}.

Abbreviation sup_step := (SupervisorAction * list PoolCall * ConnectionSupervisor)%type.

Definition gidx (s : ConnectionSupervisor) : Z := global_index (cs_slot s).

(** The per-slot arrays have [GHOST_REDIAL_SLOTS] cells; a store past them does nothing. *)
Definition slot_store (s : ConnectionSupervisor) (c : PoolCall) : list PoolCall :=
  if gidx s <? GHOST_REDIAL_SLOTS then [c] else [].

Definition set_frame_silence_gate (g : FrameSilenceGate) (s : ConnectionSupervisor) : ConnectionSupervisor :=
  { s with frame_silence_gate := g }.
Definition set_silence_evidence (e : SiblingEvidence) (s : ConnectionSupervisor) : ConnectionSupervisor :=
  { s with silence_evidence := e }.
Definition set_fast_path (f : FrameSilenceFastPath) (s : ConnectionSupervisor) : ConnectionSupervisor :=
  { s with fast_path := f }.
Definition set_held_instruments (n : Z) (s : ConnectionSupervisor) : ConnectionSupervisor :=
  { s with held_instruments := n }.
Definition note_silence_basis (b : SilenceBasis) (s : ConnectionSupervisor) : ConnectionSupervisor :=
  { s with next_silence_basis := b }.

Definition as_millis (d : Z) : Z := Z.min u64_max (d / NANOS_PER_MS).
Definition as_secs (d : Z) : Z := d / NANOS_PER_SEC.

Definition frame_silent_for (now : Z) (s : ConnectionSupervisor) : Z :=
  saturating_duration_since now (last_frame_at s).

(** [checked_shl] of a base below [2^10] by at most three never drops a bit. *)
Definition confirmed_threshold_secs (s : ConnectionSupervisor) : Z :=
  Z.min (Z.shiftl (confirmed_base_secs (slot_endpoint (cs_slot s)))
           (Z.min (silence_strikes s) MAX_SILENCE_STRIKE_SHIFT))
        FRAME_SILENCE_REDIAL_SECS.

Definition healthy_duration_ms (now : Z) (s : ConnectionSupervisor) : Z :=
  match healthy_since s with
  | Some since => as_millis (saturating_duration_since now since)
  | None => 0
  end.

Definition recent_redial_count (now : Z) (s : ConnectionSupervisor) : Z :=
  Z.of_nat (length (filter (fun st => match st with
    | Some at_ => saturating_duration_since now at_ <=? FLAP_WINDOW_MS * NANOS_PER_MS
    | None => false end = true) (redial_history s))).

Definition record_redial (now : Z) (s : ConnectionSupervisor) : ConnectionSupervisor :=
  { s with redial_history ::= <[Z.to_nat (redial_cursor s) := Some now]>;
           redial_cursor ::= (fun c => (c + 1) mod FLAP_HISTORY_SLOTS) }.

Definition damped_decision (now : Z) (s : ConnectionSupervisor) : ReconnectDecision :=
  damped_reconnect_delay_with_jitter (attempt s) (healthy_duration_ms now s) (recent_redial_count now s) (gidx s).
Definition damped_decision_without_jitter (now : Z) (s : ConnectionSupervisor) : ReconnectDecision :=
  damped_reconnect_delay (attempt s) (healthy_duration_ms now s) (recent_redial_count now s).
Definition jitter_ms (s : ConnectionSupervisor) : Z := reconnect_jitter_ms (gidx s).

Definition token_floor_delay (now : Z) (s : ConnectionSupervisor) : Z :=
  u64_saturating_add (Z.max (delay_ms (damped_decision_without_jitter now s)) TOKEN_STALE_REDIAL_FLOOR_MS)
    (jitter_ms s).

(** The damper's verdict, which only a metric reads, is not passed. *)
Definition enter_backoff (reason : ReconnectReason) (now : Z) (s : ConnectionSupervisor) : ConnectionSupervisor :=
  let episode :=
    if proven_healthy s && negb (bool_decide (reason = RAuthRejected)) then None else auth_reject s in
  let s := { s with auth_reject := (fun e => { e with refreshed_this_cycle := false }) <$> episode;
                    last_redial_reason := reason;
                    attempt ::= fun n => u32_saturating_add n 1;
                    cs_phase := Backoff; proven_healthy := false; healthy_since := None;
                    outage_started_at ::= fun o => match o with None => Some now | _ => o end } in
  if records_flap reason then record_redial now s else s.

Definition schedule_redial (reason : ReconnectReason) (now : Z) (s : ConnectionSupervisor)
    : SupervisorAction * ConnectionSupervisor :=
  (SleepThenDial (delay_ms (damped_decision now s)), enter_backoff reason now s).

Definition park (reason : ParkReason) (now : Z) (s : ConnectionSupervisor) : sup_step :=
  let s := { s with auth_reject := None } in
  if respawn_budget_allows (allows_one_respawn reason) (respawn_used s) then
    let '(act, s) := schedule_redial RDisconnected now { s with respawn_used := true } in (act, [], s)
  else
    (Park reason,
     if decide (reason = ParkPoolOverflow) then [] else [NoteLeft (gidx s) reason now],
     { s with cs_phase := Parked; park_reason := Some reason }).

(** A redial that tells process-wide state something first. *)
Definition redial_telling (calls : list PoolCall) (reason : ReconnectReason) (now : Z) (s : ConnectionSupervisor)
    : sup_step :=
  let '(act, s) := schedule_redial reason now s in (act, calls, s).

(** * Rejected logins *)

Definition new_episode (now : Z) : AuthRejectEpisode := mkAuthReject 0 None now false false.

(** [usize::from(cursor) % 4]. *)
Definition refresh_cursor (s : ConnectionSupervisor) : Z :=
  auth_reject_cursor s mod AUTH_REJECT_MAX_REFRESHES_PER_WINDOW.

Definition refresh_ceiling_reached (now : Z) (s : ConnectionSupervisor) : bool :=
  match auth_reject_refreshes s !! Z.to_nat (refresh_cursor s) with
  | Some (Some oldest) => saturating_duration_since now oldest <? AUTH_REJECT_WINDOW_MS * NANOS_PER_MS
  | _ => false
  end.

Definition past_episode_bound (now : Z) (e : AuthRejectEpisode) : bool :=
  AUTH_REJECT_EPISODE_MAX_MS <=? as_millis (saturating_duration_since now (last_progress_at e)).

(** Step 1: a login rejected after a proven healthy session starts a new episode. *)
Definition drop_proven_episode (now : Z) (s : ConnectionSupervisor) : ConnectionSupervisor :=
  if bool_decide (is_Some (auth_reject s)) && (MIN_HEALTHY_SESSION_MS <=? healthy_duration_ms now s)
  then { s with auth_reject := None } else s.

Definition on_auth_rejected (now : Z) (s : ConnectionSupervisor) : sup_step :=
  let s := drop_proven_episode now s in
  let episode := default (new_episode now) (auth_reject s) in
  let s := { s with auth_reject := Some episode } in
  if refresh_ceiling_reached now s then park FatalDisconnect now s else
  let past_bound := past_episode_bound now episode in
  if (AUTH_REJECT_MAX_HARD_FAILURES <=? hard_failures episode) ||
     (past_bound && (refreshed_this_cycle episode || grace_refresh_used episode))
  then park FatalDisconnect now s else
  let s := if past_bound then { s with auth_reject := Some { episode with grace_refresh_used := true } } else s in
  (RefreshTokenThenDial (token_floor_delay now s), [], enter_backoff RAuthRejected now s).

(** [skip_if_presented] of the request. *)
Definition token_refresh_request (s : ConnectionSupervisor) : option Z :=
  if bool_decide (last_redial_reason s = RAuthRejected) then auth_reject s ≫= verified_generation else None.

Definition charge_refresh (now : Z) (s : ConnectionSupervisor) : ConnectionSupervisor :=
  let cursor := refresh_cursor s in
  { s with auth_reject_refreshes ::= <[Z.to_nat cursor := Some now]>;
           auth_reject_cursor := (cursor + 1) mod AUTH_REJECT_MAX_REFRESHES_PER_WINDOW }.

Definition u8_saturating_inc (n : Z) : Z := clamp 0 255 (n + 1).

Definition note_token_refresh (report : TokenRefreshReport) (now : Z) (s : ConnectionSupervisor)
    : option SupervisorAction * list PoolCall * ConnectionSupervisor :=
  if negb (bool_decide (last_redial_reason s = RAuthRejected)) then (None, [], s) else
  match auth_reject s with
  | None => (None, [], s)
  | Some e =>
      let e := { e with refreshed_this_cycle := true } in
      let s := { s with auth_reject := Some e } in
      if bool_decide (verified_generation e = Some (presented report)) then
        let '(act, calls, s) := park FatalDisconnect now s in (Some act, calls, s)
      else
        match refresh_outcome report with
        | Fresh current =>
            let e := { e with verified_generation := Some current; last_progress_at := now;
                              grace_refresh_used := false } in
            (None, [], charge_refresh now { s with auth_reject := Some e })
        | Deferred => (None, [], s)
        | RefreshFailed | NotAttempted =>
            (None, [], { s with auth_reject := Some { e with hard_failures ::= u8_saturating_inc } })
        end
  end.

(** * Events *)

Definition on_begin_dial (now : Z) (s : ConnectionSupervisor) : sup_step :=
  (Dial, [NoteDialBegin (gidx s) now],
   { s with last_disconnect_code := None; would_redial_latched := false; cs_phase := Dialing;
            proven_healthy := false; healthy_since := None; dial_started_at := Some now;
            outage_started_at ::= (fun o => match o with None => Some now | _ => o end);
            watchdog ::= record_activity now; last_frame_at := now }).

Definition on_dial_succeeded (now : Z) (s : ConnectionSupervisor) : sup_step :=
  (Subscribe, slot_store s (BumpDialGeneration (gidx s)) ++ [NoteDialSucceeded (gidx s) now],
   { s with cs_phase := Subscribing; watchdog ::= record_activity now; last_frame_at := now }).

Definition on_subscribe_acked (now : Z) (s : ConnectionSupervisor) : sup_step :=
  (Continue, slot_store s (StoreSubscribedAt (gidx s)),
   { s with cs_phase := Live; watchdog ::= record_activity now; last_frame_at := now }).

(** The largest gap between two frames inside the confirmed window. *)
Definition note_gap (now : Z) (s : ConnectionSupervisor) : list PoolCall * ConnectionSupervisor :=
  let gap_ms := as_millis (saturating_duration_since now (last_frame_at s)) in
  if gap_window_open s && proven_healthy s && (gap_peak_ms s <? gap_ms)
  then (slot_store s (GapPeakMax (gidx s) gap_ms), { s with gap_peak_ms := gap_ms }) else ([], s).

(** The liveness stamp for the siblings, at most once a second. *)
Definition publish_activity (now : Z) (s : ConnectionSupervisor) : list PoolCall * ConnectionSupervisor :=
  if next_activity_publish_at s <=? now
  then (slot_store s (PublishFrameActivity (gidx s)),
        { s with next_activity_publish_at := now + FRAME_ACTIVITY_PUBLISH_INTERVAL })
  else ([], s).

(** The first frame of a connection. *)
Definition prove_healthy (now : Z) (s : ConnectionSupervisor) : list PoolCall * ConnectionSupervisor :=
  if proven_healthy s then ([], s) else
  ([NoteFirstFrame (gidx s)],
   { s with proven_healthy := true; attempt := 0; dial_started_at := None; outage_started_at := None;
            ever_delivered := true; healthy_since := Some now }).

Definition on_frame_received (now : Z) (s : ConnectionSupervisor) : sup_step :=
  let s := { s with watchdog ::= record_activity now } in
  let '(c1, s) := note_gap now s in
  let s := { s with last_frame_at := now; frames ::= (fun n => u64_saturating_add n 1);
                    would_redial_latched := false } in
  let '(c2, s) := publish_activity now s in
  let '(c3, s) := prove_healthy now s in
  (Continue, c1 ++ c2 ++ c3,
   if decide (cs_phase s = Subscribing) then { s with cs_phase := Live } else s).

Definition tell_first (calls : list PoolCall) (r : sup_step) : sup_step :=
  let '(act, calls', s) := r in (act, calls ++ calls', s).

Definition on_disconnected (code : option DisconnectCode) (now : Z) (s : ConnectionSupervisor) : sup_step :=
  let s := { s with reconnects ::= (fun n => u64_saturating_add n 1);
                    last_disconnect_code := as_u16 <$> code } in
  let note := NoteDisconnect code (gidx s) now in
  match classify_disconnect code with
  | PoolOverflow => tell_first [note; HaltRotation] (park ParkPoolOverflow now s)
  | Fatal => tell_first [note] (park FatalDisconnect now s)
  | SubscriptionRejectedClass => tell_first [note] (park ParkSubscriptionRejected now s)
  | TokenStaleClass => (RefreshTokenThenDial (token_floor_delay now s), [note], enter_backoff RTokenStale now s)
  | AuthRejectedClass => tell_first [note] (on_auth_rejected now s)
  | Transient => redial_telling [note] RDisconnected now s
  end.

Definition on_idle_elapsed (now : Z) (s : ConnectionSupervisor) : sup_step :=
  if negb (is_watchdog_eligible (cs_phase s)) then (Continue, [], s) else
  redial_telling [NoteSelfRedial (gidx s) now] RIdleSilence now
    { s with reconnects ::= fun n => u64_saturating_add n 1 }.

Definition on_frame_silence_elapsed (now : Z) (s : ConnectionSupervisor) : sup_step :=
  let basis := next_silence_basis s in
  let s := { s with next_silence_basis := Unconfirmed } in
  if decide (cs_phase s = Live) then
    redial_telling
      [if decide (slot_endpoint (cs_slot s) = MainFeed) then NoteWatchedTornDown (gidx s) now
       else NoteWatchedRedialling (gidx s)] RIdleSilence now
      { s with last_silence_basis := basis; silence_strikes ::= u8_saturating_inc;
               last_silence_redial_at := Some now; reconnects ::= fun n => u64_saturating_add n 1 }
  else (Continue, [], s).

(** The exception to parking: a probe may release a market-data socket parked for 805. *)
Definition releasable (event : ConnEvent) (s : ConnectionSupervisor) : bool :=
  bool_decide (event = OverflowProbeGranted) && bool_decide (park_reason s = Some ParkPoolOverflow) &&
  in_overflow_episode (slot_endpoint (cs_slot s)).

Definition on_event (event : ConnEvent) (now : Z) (s : ConnectionSupervisor) : sup_step :=
  if decide (cs_phase s = Parked) then
    if releasable event s then redial_telling [] ROverflowProbe now { s with park_reason := None }
    else (Continue, [], s)
  else
  match event with
  | ShutdownRequested => park Shutdown now s
  | OverflowProbeGranted => (Continue, [], s)
  | OverflowProbeFailed =>
      if in_overflow_episode (slot_endpoint (cs_slot s)) then park ParkPoolOverflow now s else (Continue, [], s)
  | BeginDial => on_begin_dial now s
  | DialSucceeded => on_dial_succeeded now s
  | DialFailed => redial_telling [] RDialFailed now s
  | SubscribeFailed => redial_telling [NoteWatchedTornDown (gidx s) now] RSubscribeFailed now s
  | SubscribeAcked => on_subscribe_acked now s
  | FrameReceived => on_frame_received now s
  | KeepAliveReceived => (Continue, [], { s with watchdog ::= record_activity now })
  | Disconnected code => on_disconnected code now s
  | IdleElapsed => on_idle_elapsed now s
  | FrameSilenceElapsed => on_frame_silence_elapsed now s
  | ProbeCloseRequested =>
      if decide (cs_phase s = Live) then redial_telling [] RProbeClose now s else (Continue, [], s)
  end.

(** * The watchdogs *)

(** What a poll reads of process-wide state, when it reads it.  [spacing] is the
    register as loaded, [spacing_at_cas] as the compare-and-swap finds it. *)
Record SilenceInputs : Type := mkInputs {
  wall_ms : Z;
  overflow_or_halted : bool;
  stamps : list Z;
  spacing : list Z;
  spacing_at_cas : list Z }.

(** The first part of a poll: the gap window and the strikes. *)
Definition open_gap_window (confirmed_open : bool) (s : ConnectionSupervisor) : list PoolCall * ConnectionSupervisor :=
  if confirmed_open && negb (gap_window_open s)
  then (slot_store s (GapPeakReset (gidx s)), { s with gap_peak_ms := 0; gap_window_open := confirmed_open })
  else ([], { s with gap_window_open := confirmed_open }).

Definition reset_strikes (now : Z) (s : ConnectionSupervisor) : ConnectionSupervisor :=
  match last_silence_redial_at s with
  | Some at_ =>
      if SILENCE_STRIKE_RESET_SECS * NANOS_PER_SEC <=? saturating_duration_since now at_
      then { s with silence_strikes := 0; last_silence_redial_at := None } else s
  | None => s
  end.

(** What the evidence of a poll amounts to: whether it was read, whether an
    episode or the breaker is on, the live siblings, whether the slot is free,
    and the slot's loaded and current value. *)
Record Evidence : Type := mkEvidence {
  ev_overflow_or_halted : bool;
  ev_siblings : Z;
  ev_spacing_ok : bool;
  ev_slot : option (nat * Z * Z) }.

Definition gather_evidence (inputs : SilenceInputs) (silent_secs : Z) (s : ConnectionSupervisor) : Evidence :=
  let e := slot_endpoint (cs_slot s) in
  let kind := confirmed_kind_index e in
  let read_evidence := bool_decide (silence_evidence s = EvidencePool) &&
    negb (bool_decide (fast_path s = FastOff)) && bool_decide (is_Some kind) &&
    (confirmed_threshold_secs s <=? silent_secs) && (silent_secs <? FRAME_SILENCE_REDIAL_SECS) in
  let read_fallback_spacing := bool_decide (silence_evidence s = EvidencePool) &&
    bool_decide (is_Some kind) && (FRAME_SILENCE_REDIAL_SECS <=? silent_secs) in
  if read_evidence || read_fallback_spacing then
    let siblings := live_siblings (gidx s) e (wall_ms inputs) (stamps inputs) in
    match (k ← kind; last ← spacing inputs !! k; current ← spacing_at_cas inputs !! k; Some (k, last, current)) with
    | Some (k, last, current) =>
        mkEvidence (overflow_or_halted inputs) siblings
          ((last =? 0) || (i64_saturating_mul CONFIRMED_REDIAL_SPACING_SECS 1000 <=? i64_saturating_sub (wall_ms inputs) last))
          (Some (k, last, current))
    | None => mkEvidence (overflow_or_halted inputs) siblings false None
    end
  else mkEvidence true 0 false None.

(** The claim of the spacing slot: [None] when the poll must wait, otherwise the
    cell it wrote, if any. *)
Definition claim_slot (basis : SilenceBasis) (wall : Z) (ev : Evidence) (s : ConnectionSupervisor)
    : option (option (nat * Z)) * ConnectionSupervisor :=
  match basis, ev_slot ev with
  | Unconfirmed, Some (k, last, current) =>
      ((fun w => Some (k, w)) <$> claim_fallback_spacing current last wall, s)
  | SiblingConfirmed, slot =>
      match fast_path s with
      | FastOff => (None, s)
      | FastShadow =>
          (None, if would_redial_latched s then s
                 else { s with would_redial_latched := true; would_redials ::= fun n => u64_saturating_add n 1 })
      | FastAct =>
          match slot with
          | Some (k, last, current) => (if current =? last then Some (Some (k, wall)) else None, s)
          | None => (None, s)
          end
      end
  | _, _ => (Some None, s)
  end.

(** [poll_with]: the step, and the cell of the spacing register it wrote.
    [secs_of_day] is the session calendar's second of the day. *)
Definition poll_with (inputs : SilenceInputs) (secs_of_day now : Z) (s : ConnectionSupervisor)
    : sup_step * option (nat * Z) :=
  if negb (is_watchdog_eligible (cs_phase s)) then (Continue, [], s, None) else
  if is_expired now (watchdog s) then (on_event IdleElapsed now s, None) else
  let secs_of_day := match frame_silence_gate s with ContinuousSessionIst => secs_of_day | _ => 0 end in
  let confirmed_open := confirmed_window_open_at (frame_silence_gate s) secs_of_day in
  let '(calls, s) := open_gap_window confirmed_open s in
  if decide (cs_phase s <> Live) then (Continue, calls, s, None) else
  let s := reset_strikes now s in
  if negb (is_open_at (frame_silence_gate s) secs_of_day)
  then (Continue, calls, { s with last_frame_at := now }, None) else
  let silent_secs := as_secs (frame_silent_for now s) in
  let ev := gather_evidence inputs silent_secs s in
  match silence_redial_basis (slot_endpoint (cs_slot s)) silent_secs (confirmed_threshold_secs s) confirmed_open
          (ev_overflow_or_halted ev) (ev_siblings ev) (held_instruments s) (ev_spacing_ok ev) with
  | None => (Continue, calls, s, None)
  | Some basis =>
      let '(claim, s) := claim_slot basis (wall_ms inputs) ev s in
      match claim with
      | None => (Continue, calls, s, None)
      | Some wrote =>
          (tell_first calls (on_event FrameSilenceElapsed now { s with next_silence_basis := basis }), wrote)
      end
  end.
