(* ===== verification/SupervisorSafety.v ===== *)
(** Theorems on the supervisor of a feed connection ([ConnectionSupervisor]):
    its runs, the state invariant, what parks for good, the bounds on delays and
    on the rate of redials, the end of a storm of rejected logins, and when the
    silence watchdogs act. *)
From coqutil Require Import Datatypes.RecordSettersUsingExistingGetters.
From Stdlib Require Import Sorting.Sorted.
From S2P Require Import Prelude FeedTypes ConnectionBudget ReconnectLadder ConnectionSupervisor.
Local Open Scope Z_scope.

(** * Runs *)

(** What the connection task does to its supervisor. *)
Inductive sup_op : Type :=
  | OpEvent (ev : ConnEvent)
  | OpPoll (inputs : SilenceInputs) (secs_of_day : Z)
  | OpTokenRefresh (report : TokenRefreshReport)
  | OpHeld (n : Z)
  | OpBasis (b : SilenceBasis)
  | OpGate (g : FrameSilenceGate)
  | OpEvidence (e : SiblingEvidence)
  | OpFastPath (f : FrameSilenceFastPath).

(** One operation; a refresh that needs no park returns no action, [Continue]. *)
Definition sup_apply (op : sup_op) (now : Z) (s : ConnectionSupervisor) : sup_step :=
  match op with
  | OpEvent ev => on_event ev now s
  | OpPoll inputs secs => fst (poll_with inputs secs now s)
  | OpTokenRefresh report =>
      let '(act, calls, s) := note_token_refresh report now s in (default Continue act, calls, s)
  | OpHeld n => (Continue, [], set_held_instruments n s)
  | OpBasis b => (Continue, [], note_silence_basis b s)
  | OpGate g => (Continue, [], set_frame_silence_gate g s)
  | OpEvidence e => (Continue, [], set_silence_evidence e s)
  | OpFastPath f => (Continue, [], set_fast_path f s)
  end.

Definition next_of (r : sup_step) : ConnectionSupervisor := snd r.
Definition action_of (r : sup_step) : SupervisorAction := fst (fst r).

(** The actions of a run, with the operations and times, and its last state. *)
Fixpoint sup_run (ops : list (sup_op * Z)) (s : ConnectionSupervisor)
    : list (sup_op * Z * SupervisorAction) * ConnectionSupervisor :=
  match ops with
  | [] => ([], s)
  | (op, now) :: rest =>
      let r := sup_apply op now s in
      let '(tr, s') := sup_run rest (next_of r) in ((op, now, action_of r) :: tr, s')
  end.

Definition redial_delay (a : SupervisorAction) : option Z :=
  match a with SleepThenDial d | RefreshTokenThenDial d => Some d | _ => None end.

(** * The state invariant *)

Record sup_wf (s : ConnectionSupervisor) : Prop := mkSupWf {
  wf_history : length (redial_history s) = 8%nat;
  wf_cursor : 0 <= redial_cursor s < 8;
  wf_refreshes : length (auth_reject_refreshes s) = 4%nat;
  wf_refresh_cursor : 0 <= auth_reject_cursor s < 4;
  wf_attempt : in_u32 (attempt s);
  wf_strikes : in_u8 (silence_strikes s);
  wf_healthy : is_Some (healthy_since s) <-> proven_healthy s = true;
  wf_parked : cs_phase s = Parked <-> is_Some (park_reason s);
  wf_no_episode : cs_phase s = Parked -> auth_reject s = None;
  wf_hard : forall e, auth_reject s = Some e -> in_u8 (hard_failures e) }.

(** Closes the fields of [sup_wf] after an update. *)
Ltac wf_fields :=
  simpl in *; unfold in_u8, in_u32, u32_max, u8_saturating_inc, clamp in *;
  first [ done | lia | by rewrite length_insert | by intros | (split; intros; (done || (exfalso; done) || eauto; fail)) | idtac ].

Lemma wf_new slot now : sup_wf (new_supervisor slot now).
Proof.
  split; simpl; try done; try (split; intros H; by destruct H); unfold in_u32, in_u8, u32_max; lia.
Qed.

Lemma wf_record_redial now s : sup_wf s -> sup_wf (record_redial now s).
Proof.
  intros [H1 H2 H3 H4 H5 H6 H7 H8 H9 H10]. split; simpl; try done; [by rewrite length_insert|].
  unfold FLAP_HISTORY_SLOTS. apply Z.mod_pos_bound. lia.
Qed.

(** Everything but the phase fields: what [enter_backoff] and [park] may start from. *)
Record sup_wf_core (s : ConnectionSupervisor) : Prop := mkWfCore {
  wfc_history : length (redial_history s) = 8%nat;
  wfc_cursor : 0 <= redial_cursor s < 8;
  wfc_refreshes : length (auth_reject_refreshes s) = 4%nat;
  wfc_refresh_cursor : 0 <= auth_reject_cursor s < 4;
  wfc_attempt : in_u32 (attempt s);
  wfc_strikes : in_u8 (silence_strikes s);
  wfc_healthy : is_Some (healthy_since s) <-> proven_healthy s = true;
  wfc_hard : forall e, auth_reject s = Some e -> in_u8 (hard_failures e) }.

Lemma wf_core s : sup_wf s -> sup_wf_core s.
Proof. intros []. by split. Qed.

Lemma wf_backoff reason now s :
    sup_wf_core s -> park_reason s = None -> sup_wf (enter_backoff reason now s).
Proof.
  intros [H1 H2 H3 H4 H5 H6 H7 H10] Hp. unfold enter_backoff. cbv zeta.
  match goal with |- sup_wf (if _ then record_redial now ?x else _) => set (s1 := x); assert (Hw : sup_wf s1) end.
  { subst s1. split; simpl; try done.
    - apply u32_saturating_add_range.
    - split; [by intros []|done].
    - rewrite Hp. split; [done|by intros []].
    - intros e He. destruct (if proven_healthy s && negb (bool_decide (reason = RAuthRejected)) then None else auth_reject s) as [e0|] eqn:Hif; [|done]. injection He as <-. simpl.
      apply H10. by destruct (proven_healthy s && negb (bool_decide (reason = RAuthRejected))). }
  destruct (records_flap reason); [by apply wf_record_redial|done].
Qed.

Lemma wf_park reason now s :
    sup_wf_core s -> park_reason s = None -> sup_wf (next_of (park reason now s)).
Proof.
  intros [H1 H2 H3 H4 H5 H6 H7 H10] Hp. unfold park, schedule_redial, next_of. cbv zeta.
  destruct (respawn_budget_allows _ _); simpl; [apply wf_backoff; [by split|done]|].
  split; simpl; try done.
Qed.

Lemma wf_redial calls reason now s :
    sup_wf_core s -> park_reason s = None -> sup_wf (next_of (redial_telling calls reason now s)).
Proof. intros. by apply wf_backoff. Qed.

Lemma not_parked_no_reason s : sup_wf s -> cs_phase s <> Parked -> park_reason s = None.
Proof. intros H Hp. destruct (park_reason s) eqn:E; [|done]. exfalso. apply Hp, (wf_parked s H). by rewrite E. Qed.

Lemma wf_auth_rejected now s :
    sup_wf_core s -> park_reason s = None -> sup_wf (next_of (on_auth_rejected now s)).
Proof.
  intros Hc Hp. unfold on_auth_rejected. cbv zeta.
  set (s0 := drop_proven_episode now s).
  assert (Hc0 : sup_wf_core s0 /\ park_reason s0 = None).
  { subst s0. unfold drop_proven_episode. destruct (bool_decide _ && _); [|done]. destruct Hc. by split. }
  clearbody s0. clear Hc Hp s. destruct Hc0 as [Hc Hp].
  assert (Hep : in_u8 (hard_failures (default (new_episode now) (auth_reject s0)))).
  { destruct (auth_reject s0) as [e|] eqn:E; simpl; [by apply (wfc_hard s0 Hc)|unfold in_u8; lia]. }
  set (e := default _ _) in *. clearbody e. destruct Hc as [H1 H2 H3 H4 H5 H6 H7 H10].
  destruct (refresh_ceiling_reached now _); [apply wf_park; [|done]; split; simpl; try done; by intros ? [= <-]|].
  destruct (_ || _); [apply wf_park; [|done]; split; simpl; try done; by intros ? [= <-]|].
  unfold next_of. simpl.
  destruct (past_episode_bound now e); (apply wf_backoff; [|done]; split; simpl; try done; by intros ? [= <-]).
Qed.

(** Updates of fields that neither the invariant nor a redial reads. *)
Record keeps (s s' : ConnectionSupervisor) : Prop := mkKeeps {
  k_slot : cs_slot s' = cs_slot s;
  k_phase : cs_phase s' = cs_phase s;
  k_reason : last_redial_reason s' = last_redial_reason s;
  k_attempt : attempt s' = attempt s;
  k_proven : proven_healthy s' = proven_healthy s;
  k_healthy : healthy_since s' = healthy_since s;
  k_history : redial_history s' = redial_history s;
  k_cursor : redial_cursor s' = redial_cursor s;
  k_park : park_reason s' = park_reason s;
  k_respawn : respawn_used s' = respawn_used s;
  k_auth : auth_reject s' = auth_reject s;
  k_refreshes : auth_reject_refreshes s' = auth_reject_refreshes s;
  k_refresh_cursor : auth_reject_cursor s' = auth_reject_cursor s;
  k_strikes : in_u8 (silence_strikes s) -> in_u8 (silence_strikes s') }.

Lemma keeps_refl s : keeps s s.
Proof. by split. Qed.

Lemma sup_keeps_trans s1 s2 s3 : keeps s1 s2 -> keeps s2 s3 -> keeps s1 s3.
Proof. intros [] []. split; try congruence. auto. Qed.

Lemma wf_keeps s s' : keeps s s' -> sup_wf s -> sup_wf s'.
Proof.
  intros [E1 E2 E3 E4 E5 E6 E7 E8 E9 E10 E11 E12 E13 Hs] [].
  split; rewrite ?E2, ?E4, ?E5, ?E6, ?E7, ?E8, ?E9, ?E11, ?E12, ?E13; auto.
Qed.

(** Closes a [keeps] goal about an explicit update. *)
Ltac keeps_update :=
  split; simpl; try done; unfold in_u8, u8_saturating_inc, clamp; lia.

Lemma keeps_note_gap now s : keeps s (snd (note_gap now s)).
Proof. unfold note_gap. cbv zeta. case_match; [keeps_update|apply keeps_refl]. Qed.

Lemma keeps_publish now s : keeps s (snd (publish_activity now s)).
Proof. unfold publish_activity. case_match; [keeps_update|apply keeps_refl]. Qed.

Lemma keeps_gap_window b s : keeps s (snd (open_gap_window b s)).
Proof. unfold open_gap_window. case_match; keeps_update. Qed.

Lemma keeps_reset_strikes now s : keeps s (reset_strikes now s).
Proof. unfold reset_strikes. repeat case_match; try apply keeps_refl. keeps_update. Qed.

Lemma keeps_claim basis wall ev s : keeps s (snd (claim_slot basis wall ev s)).
Proof. unfold claim_slot. repeat case_match; simpl; try apply keeps_refl; keeps_update. Qed.

(** The first frame and the phase change of a frame. *)
Lemma wf_prove_healthy now s : sup_wf s -> sup_wf (snd (prove_healthy now s)).
Proof.
  intros H. unfold prove_healthy. destruct (proven_healthy s) eqn:E; [done|]. simpl.
  destruct H; split; simpl; try done; unfold in_u32, u32_max; lia.
Qed.

(** A move to another phase that is not [Parked], from one that is not. *)
Lemma wf_set_phase p s : sup_wf s -> cs_phase s <> Parked -> p <> Parked -> sup_wf { s with cs_phase := p }.
Proof.
  intros H Hs Hp. pose proof (not_parked_no_reason s H Hs) as Hr. destruct H. split; simpl; try done.
  rewrite Hr. split; [done|by intros []].
Qed.

Lemma wf_frame_received now s : sup_wf s -> sup_wf (next_of (on_frame_received now s)).
Proof.
  intros H. unfold on_frame_received, next_of. cbv zeta.
  match goal with |- context [note_gap now ?x] => assert (H1 : sup_wf x) by (eapply wf_keeps, H; keeps_update) end.
  match goal with |- context [note_gap now ?x] => pose proof (wf_keeps _ _ (keeps_note_gap now x) H1) as H2; destruct (note_gap now x) as [c1 s1] end.
  simpl in H2.
  match goal with |- context [publish_activity now ?x] => assert (H3 : sup_wf x) by (eapply wf_keeps, H2; keeps_update) end.
  match goal with |- context [publish_activity now ?x] => pose proof (wf_keeps _ _ (keeps_publish now x) H3) as H4; destruct (publish_activity now x) as [c2 s2] end.
  simpl in H4. pose proof (wf_prove_healthy now s2 H4) as H5. destruct (prove_healthy now s2) as [c3 s3]. simpl in *.
  destruct (decide _) as [E|]; [|done]. apply wf_set_phase; [done|by rewrite E|done].
Qed.

Lemma wf_tell calls r : sup_wf (next_of r) -> sup_wf (next_of (tell_first calls r)).
Proof. by destruct r as [[act c] s]. Qed.

Lemma wf_on_disconnected code now s :
    sup_wf s -> cs_phase s <> Parked -> sup_wf (next_of (on_disconnected code now s)).
Proof.
  intros H Hp. pose proof (not_parked_no_reason s H Hp) as Hr. unfold on_disconnected. cbv zeta.
  match goal with |- context [park FatalDisconnect now ?x] => set (s0 := x);
    assert (Hc : sup_wf_core s0 /\ park_reason s0 = None) by (split; [apply wf_core; eapply wf_keeps, H; keeps_update|done]) end.
  clearbody s0. destruct Hc as [Hc Hr0]. destruct (classify_disconnect code).
  - by apply wf_redial.
  - by apply wf_backoff.
  - by apply wf_tell, wf_park.
  - by apply wf_tell, wf_auth_rejected.
  - by apply wf_tell, wf_park.
  - by apply wf_tell, wf_park.
Qed.

Lemma wf_on_event ev now s : sup_wf s -> sup_wf (next_of (on_event ev now s)).
Proof.
  intros H. unfold on_event. destruct (decide (cs_phase s = Parked)) as [E|E].
  { destruct (releasable ev s); [|done]. apply wf_redial; [|done]. destruct H. by split. }
  pose proof (not_parked_no_reason s H E) as Hr. pose proof (wf_core s H) as Hc.
  destruct ev; try (by apply wf_redial); try done.
  - destruct H; split; simpl; try done.
    + split; [by intros []|done].
    + rewrite Hr. split; [done|by intros []].
  - destruct H; split; simpl; try done. rewrite Hr. split; [done|by intros []].
  - destruct H; split; simpl; try done. rewrite Hr. split; [done|by intros []].
  - by apply wf_frame_received.
  - eapply wf_keeps, H. keeps_update.
  - by apply wf_on_disconnected.
  - unfold on_idle_elapsed. destruct (negb _); [done|]. apply wf_redial; [|done]. apply wf_core. eapply wf_keeps, H. keeps_update.
  - unfold on_frame_silence_elapsed. cbv zeta. simpl. destruct (decide _) as [El|].
    + apply wf_redial; [|done]. apply wf_core. eapply wf_keeps, H. keeps_update.
    + simpl. eapply wf_keeps, H. keeps_update.
  - destruct (decide _); [by apply wf_redial|done].
  - destruct (in_overflow_episode _); [by apply wf_park|done].
  - by apply wf_park.
Qed.

(** A poll does nothing the invariant sees, or raises one of two events. *)
Lemma poll_cases inputs secs now s :
    exists s1, keeps s s1 /\
      ((action_of (fst (poll_with inputs secs now s)) = Continue /\ next_of (fst (poll_with inputs secs now s)) = s1) \/
       fst (poll_with inputs secs now s) = on_event IdleElapsed now s \/
       (exists calls, cs_phase s1 = Live /\
          fst (poll_with inputs secs now s) = tell_first calls (on_event FrameSilenceElapsed now s1))).
Proof.
  unfold poll_with. destruct (negb _); [exists s; split; [apply keeps_refl|by left]|].
  destruct (is_expired now _); [exists s; split; [apply keeps_refl|by right; left]|].
  set (secs' := match frame_silence_gate s with ContinuousSessionIst => secs | _ => 0 end).
  set (co := confirmed_window_open_at _ secs'). pose proof (keeps_gap_window co s) as K1.
  destruct (open_gap_window co s) as [calls s1]. simpl in K1.
  destruct (decide (cs_phase s1 <> Live)) as [|E1]; [exists s1; split; [done|by left]|].
  pose proof (sup_keeps_trans _ _ _ K1 (keeps_reset_strikes now s1)) as K2.
  set (s2 := reset_strikes now s1) in *.
  destruct (negb _).
  { eexists. split; [eapply sup_keeps_trans; [exact K2|]|left; split; reflexivity]. keeps_update. }
  cbv zeta. match goal with |- context [silence_redial_basis ?a ?b ?c ?d ?e ?f ?g ?h] =>
    destruct (silence_redial_basis a b c d e f g h) as [basis|] end; [|exists s2; split; [done|by left]].
  set (ev := gather_evidence _ _ _).
  pose proof (sup_keeps_trans _ _ _ K2 (keeps_claim basis (wall_ms inputs) ev s2)) as K3.
  destruct (claim_slot basis (wall_ms inputs) ev s2) as [[wrote|] s3] eqn:Ec; simpl in K3;
    [|exists s3; split; [done|by left]].
  exists { s3 with next_silence_basis := basis }. split; [eapply sup_keeps_trans; [exact K3|keeps_update]|].
  right. right. exists calls. split; [|done]. simpl. rewrite (k_phase _ _ K3), <- (k_phase _ _ K1).
  destruct (decide (cs_phase s1 = Live)); tauto.
Qed.

Lemma wf_charge now s : sup_wf s -> sup_wf (charge_refresh now s).
Proof.
  intros []. split; simpl; try done; [by rewrite length_insert|].
  unfold AUTH_REJECT_MAX_REFRESHES_PER_WINDOW. apply Z.mod_pos_bound. lia.
Qed.

Lemma wf_with_episode e s :
    sup_wf s -> cs_phase s <> Parked -> in_u8 (hard_failures e) -> sup_wf { s with auth_reject := Some e }.
Proof. intros [] Hp He. split; simpl; try done. by intros ? [= <-]. Qed.

Lemma wf_refresh report now s : sup_wf s -> sup_wf (snd (note_token_refresh report now s)).
Proof.
  intros H. unfold note_token_refresh. destruct (negb _); [done|].
  destruct (auth_reject s) as [e|] eqn:E; [|done]. cbv zeta.
  assert (Hp : cs_phase s <> Parked) by (intros Hp; pose proof (wf_no_episode s H Hp); congruence).
  pose proof (not_parked_no_reason s H Hp) as Hr. pose proof (wf_hard s H e E) as Hh.
  assert (Hu : forall n, in_u8 n -> in_u8 (u8_saturating_inc n))
    by (intros n; unfold in_u8, u8_saturating_inc, clamp; lia).
  destruct (bool_decide _).
  { match goal with |- context [park FatalDisconnect now ?x] =>
      assert (Hw : sup_wf (next_of (park FatalDisconnect now x))) by
        (apply wf_park; [by apply wf_core, wf_with_episode|done]) end.
    by destruct (park FatalDisconnect now _) as [[act calls] s']. }
  destruct (refresh_outcome report); simpl; try apply wf_charge;
    repeat (apply wf_with_episode; [|done|simpl; auto]); done.
Qed.

Lemma wf_apply op now s : sup_wf s -> sup_wf (next_of (sup_apply op now s)).
Proof.
  intros H. destruct op; simpl; try (eapply wf_keeps, H; keeps_update).
  - by apply wf_on_event.
  - destruct (poll_cases inputs secs_of_day now s) as (s1 & K & [[_ ->]|[->|(calls & _ & ->)]]).
    + by eapply wf_keeps.
    + by apply wf_on_event.
    + apply wf_tell, wf_on_event. by eapply wf_keeps.
  - pose proof (wf_refresh report now s H) as Hw. by destruct (note_token_refresh report now s) as [[act calls] s'].
Qed.

Lemma wf_run ops s : sup_wf s -> sup_wf (snd (sup_run ops s)).
Proof.
  revert s. induction ops as [|[op now] ops IH]; intros s H; simpl; [done|].
  specialize (IH _ (wf_apply op now s H)). by destruct (sup_run ops _).
Qed.

(** * The shape of a step *)

(** [s0] is [s] up to what a redial decision does not read. *)
Record same_decision (s s0 : ConnectionSupervisor) : Prop := mkSameDecision {
  sd_slot : cs_slot s0 = cs_slot s;
  sd_attempt : attempt s0 = attempt s;
  sd_healthy : healthy_since s0 = healthy_since s;
  sd_history : redial_history s0 = redial_history s;
  sd_cursor : redial_cursor s0 = redial_cursor s }.

(** The two delays a redial may carry. *)
Definition redial_action (act : SupervisorAction) (now : Z) (s : ConnectionSupervisor) : Prop :=
  act = SleepThenDial (delay_ms (damped_decision now s)) \/ act = RefreshTokenThenDial (token_floor_delay now s).

(** Every operation stays, redials through [enter_backoff], or parks. *)
Inductive step_shape (now : Z) (s : ConnectionSupervisor) : sup_step -> Prop :=
  | shape_stay act calls s' :
      redial_delay act = None -> (forall r, act <> Park r) ->
      cs_slot s' = cs_slot s -> redial_history s' = redial_history s -> redial_cursor s' = redial_cursor s ->
      respawn_used s' = respawn_used s -> park_reason s' = park_reason s ->
      (cs_phase s' = Parked <-> cs_phase s = Parked) ->
      (cs_phase s = Parked -> act = Continue) ->
      step_shape now s (act, calls, s')
  | shape_redial act calls s0 reason :
      same_decision s s0 -> redial_action act now s ->
      (respawn_used s0 = respawn_used s \/ (respawn_used s = false /\ respawn_used s0 = true)) ->
      (cs_phase s = Parked -> park_reason s = Some ParkPoolOverflow /\
         in_overflow_episode (slot_endpoint (cs_slot s)) = true /\ reason = ROverflowProbe) ->
      step_shape now s (act, calls, enter_backoff reason now s0)
  | shape_park r calls s' :
      cs_phase s <> Parked -> cs_phase s' = Parked -> park_reason s' = Some r ->
      cs_slot s' = cs_slot s -> redial_history s' = redial_history s -> redial_cursor s' = redial_cursor s ->
      respawn_used s' = respawn_used s ->
      (r = ParkSubscriptionRejected -> respawn_used s = true) ->
      step_shape now s (Park r, calls, s').

Lemma same_decision_refl s : same_decision s s.
Proof. by split. Qed.

Lemma same_decision_trans s1 s2 s3 : same_decision s1 s2 -> same_decision s2 s3 -> same_decision s1 s3.
Proof. intros [] []. split; congruence. Qed.

Lemma same_decision_keeps s s' : keeps s s' -> same_decision s s'.
Proof. intros []. by split. Qed.

Lemma damped_same now s s0 :
    same_decision s s0 -> damped_decision_without_jitter now s0 = damped_decision_without_jitter now s.
Proof.
  intros [E1 E2 E3 E4 E5]. unfold damped_decision_without_jitter, healthy_duration_ms, recent_redial_count.
  by rewrite E2, E3, E4.
Qed.

Lemma jitter_same s s0 : same_decision s s0 -> jitter_ms s0 = jitter_ms s.
Proof. intros [E1 _ _ _ _]. unfold jitter_ms, gidx. by rewrite E1. Qed.

Lemma damped_decision_same now s s0 : same_decision s s0 -> damped_decision now s0 = damped_decision now s.
Proof.
  intros H. pose proof (damped_same now s s0 H) as Hd. pose proof (jitter_same s s0 H) as Hj.
  unfold damped_decision, damped_reconnect_delay_with_jitter, damped_decision_without_jitter, jitter_ms in *.
  by rewrite Hd, Hj.
Qed.

Lemma token_floor_same now s s0 : same_decision s s0 -> token_floor_delay now s0 = token_floor_delay now s.
Proof. intros H. unfold token_floor_delay. by rewrite (damped_same now s s0 H), (jitter_same s s0 H). Qed.

Lemma shape_tell now s calls r : step_shape now s r -> step_shape now s (tell_first calls r).
Proof. intros [|act c s0 reason|]; simpl; [by apply shape_stay|by apply shape_redial|by apply shape_park]. Qed.

Lemma shape_pre now s s1 r : keeps s s1 -> step_shape now s1 r -> step_shape now s r.
Proof.
  intros K Hr. pose proof (same_decision_keeps _ _ K) as Hd. destruct K as [K1 K2 _ _ _ _ K7 K8 K9 K10 _ _ _ _].
  destruct Hr as [act calls s' H1 H2 H3 H4 H5 H6 H7 H8 H9|act calls s0 reason H1 H2 H3 H4|r calls s' H1 H2 H3 H4 H5 H6 H7 H8].
  - apply shape_stay; try congruence. all: rewrite <- K2; auto.
  - apply shape_redial; [by eapply same_decision_trans| | |].
    + unfold redial_action in *. by rewrite (damped_decision_same now s s1 Hd), (token_floor_same now s s1 Hd) in H2.
    + by rewrite K10 in H3.
    + by rewrite K2, K9, K1 in H4.
  - apply shape_park; try congruence. by rewrite <- K10.
Qed.

Lemma shape_stay_keeps now s calls s' : keeps s s' -> step_shape now s (Continue, calls, s').
Proof. intros []. apply shape_stay; try done. by rewrite k_phase0. Qed.

(** A step that stays, from a state that is not parked to one that is not. *)
Lemma shape_stay_live now s act calls s' :
    redial_delay act = None -> (forall r, act <> Park r) -> cs_phase s <> Parked -> cs_phase s' <> Parked ->
    cs_slot s' = cs_slot s -> redial_history s' = redial_history s -> redial_cursor s' = redial_cursor s ->
    respawn_used s' = respawn_used s -> park_reason s' = park_reason s ->
    step_shape now s (act, calls, s').
Proof. intros. apply shape_stay; try done; split; done. Qed.

Lemma shape_redial_telling now s s0 calls reason :
    same_decision s s0 -> respawn_used s0 = respawn_used s -> cs_phase s <> Parked ->
    step_shape now s (redial_telling calls reason now s0).
Proof.
  intros Hd Hr Hp. apply shape_redial; [done| |by left|done].
  left. by rewrite (damped_decision_same now s s0 Hd).
Qed.

Lemma shape_of_park now s s0 r :
    same_decision s s0 -> respawn_used s0 = respawn_used s -> cs_phase s <> Parked ->
    step_shape now s (park r now s0).
Proof.
  intros Hd Hr Hp. unfold park. cbv zeta. destruct (respawn_budget_allows _ _) eqn:E.
  - unfold respawn_budget_allows in E. apply andb_prop in E as [_ E%negb_true_iff]. simpl in E.
    unfold schedule_redial. cbv beta iota. apply shape_redial.
    + eapply same_decision_trans; [exact Hd|]. by split.
    + left. f_equal. f_equal. apply damped_decision_same. eapply same_decision_trans; [exact Hd|]. by split.
    + right. split; [by rewrite <- Hr|done].
    + done.
  - destruct Hd. apply shape_park; simpl; try done. intros ->. unfold respawn_budget_allows in E. simpl in E.
    apply negb_false_iff in E. congruence.
Qed.

Lemma shape_auth_rejected now s s0 :
    same_decision s s0 -> respawn_used s0 = respawn_used s -> cs_phase s <> Parked ->
    step_shape now s (on_auth_rejected now s0).
Proof.
  intros Hd Hr Hp. unfold on_auth_rejected. cbv zeta. set (s1 := drop_proven_episode now s0).
  assert (Hs1 : same_decision s s1 /\ respawn_used s1 = respawn_used s).
  { subst s1. unfold drop_proven_episode. destruct (_ && _); [|done]. split; [|done]. destruct Hd. by split. }
  clearbody s1. destruct Hs1 as [Hd1 Hr1].
  set (e := default _ _). clearbody e.
  destruct (refresh_ceiling_reached now _).
  { apply shape_of_park; [|done|done]. eapply same_decision_trans; [exact Hd1|]. by split. }
  destruct (_ || _).
  { apply shape_of_park; [|done|done]. eapply same_decision_trans; [exact Hd1|]. by split. }
  match goal with |- step_shape _ _ (_, _, enter_backoff _ _ ?x) => assert (Hx : same_decision s x /\ respawn_used x = respawn_used s) end.
  { destruct (past_episode_bound now e); (split; [|done]); (eapply same_decision_trans; [exact Hd1|]); by split. }
  destruct Hx as [Hx1 Hx2]. apply shape_redial; [done| |by left|done].
  right. by rewrite (token_floor_same now s _ Hx1).
Qed.

Lemma shape_frame_received now s : cs_phase s <> Parked -> step_shape now s (on_frame_received now s).
Proof.
  intros Hp. unfold on_frame_received. cbv zeta.
  match goal with |- context [note_gap now ?x] => pose proof (keeps_note_gap now x) as K1; destruct (note_gap now x) as [c1 s1] end.
  match goal with |- context [publish_activity now ?x] => pose proof (keeps_publish now x) as K2; destruct (publish_activity now x) as [c2 s2] end.
  assert (K : keeps s s2).
  { eapply sup_keeps_trans; [|exact K2]. eapply sup_keeps_trans; [|eapply sup_keeps_trans; [exact K1|keeps_update]]. keeps_update. }
  destruct K as [K1' K2' _ _ _ _ K7 K8 K9 K10 _ _ _ _]. clear K1 K2.
  unfold prove_healthy. destruct (proven_healthy s2); destruct (decide _) as [E|E]; simpl in E;
    apply shape_stay_live; simpl; try done; congruence.
Qed.

Lemma shape_on_disconnected code now s : cs_phase s <> Parked -> step_shape now s (on_disconnected code now s).
Proof.
  intros Hp. unfold on_disconnected. cbv zeta.
  match goal with |- context [park FatalDisconnect now ?x] => set (s0 := x); assert (K : keeps s s0) by keeps_update end.
  clearbody s0. pose proof (same_decision_keeps _ _ K) as Hd. pose proof (k_respawn _ _ K) as Hr.
  destruct (classify_disconnect code).
  - by apply shape_redial_telling.
  - apply shape_redial; [done| |by left|done]. right. by rewrite (token_floor_same now s s0 Hd).
  - by apply shape_tell, shape_of_park.
  - by apply shape_tell, shape_auth_rejected.
  - by apply shape_tell, shape_of_park.
  - by apply shape_tell, shape_of_park.
Qed.

Lemma shape_on_event ev now s : sup_wf s -> step_shape now s (on_event ev now s).
Proof.
  intros H. unfold on_event. destruct (decide (cs_phase s = Parked)) as [E|E].
  { destruct (releasable ev s) eqn:Hrel; [|apply shape_stay_keeps, keeps_refl].
    unfold releasable in Hrel. apply andb_prop in Hrel as [Hrel Hov]. apply andb_prop in Hrel as [_ Hrel].
    apply bool_decide_eq_true in Hrel. unfold redial_telling, schedule_redial. cbv beta iota.
    apply shape_redial; [by split| |by left|done]. left. by rewrite (damped_decision_same now s) by (by split). }
  destruct ev.
  - by apply shape_stay_live.
  - by apply shape_stay_live.
  - by apply shape_redial_telling.
  - by apply shape_stay_live.
  - by apply shape_redial_telling.
  - by apply shape_frame_received.
  - by apply shape_stay_keeps.
  - by apply shape_on_disconnected.
  - unfold on_idle_elapsed. destruct (negb _); [apply shape_stay_keeps, keeps_refl|].
    by apply shape_redial_telling.
  - unfold on_frame_silence_elapsed. cbv zeta. destruct (decide _); [|by apply shape_stay_keeps].
    by apply shape_redial_telling.
  - destruct (decide _); [by apply shape_redial_telling|apply shape_stay_keeps, keeps_refl].
  - apply shape_stay_keeps, keeps_refl.
  - destruct (in_overflow_episode _); [by apply shape_of_park|apply shape_stay_keeps, keeps_refl].
  - by apply shape_of_park.
Qed.

Lemma shape_refresh report now s :
    sup_wf s -> step_shape now s (sup_apply (OpTokenRefresh report) now s).
Proof.
  intros H. unfold sup_apply, note_token_refresh. destruct (negb _); [apply shape_stay_keeps, keeps_refl|].
  destruct (auth_reject s) as [e|] eqn:E; [|apply shape_stay_keeps, keeps_refl]. cbv zeta.
  assert (Hp : cs_phase s <> Parked) by (intros Hp; pose proof (wf_no_episode s H Hp); congruence).
  destruct (bool_decide _).
  - match goal with |- context [park FatalDisconnect now ?x] =>
      assert (Hs : step_shape now s (park FatalDisconnect now x)) by (by apply shape_of_park);
      destruct (park FatalDisconnect now x) as [[act calls] s'] end. exact Hs.
  - destruct (refresh_outcome report); by apply shape_stay_live.
Qed.

Lemma shape_apply op now s : sup_wf s -> step_shape now s (sup_apply op now s).
Proof.
  intros H. destruct op; try (by apply shape_stay_keeps).
  - by apply shape_on_event.
  - simpl. destruct (poll_cases inputs secs_of_day now s) as (s1 & K & [[Ha Hs]|[->|(calls & _ & ->)]]).
    + destruct (fst (poll_with _ _ _ _)) as [[act calls] s']. unfold action_of, next_of in *. simpl in *. subst.
      by apply shape_stay_keeps.
    + by apply shape_on_event.
    + apply shape_tell. eapply shape_pre; [exact K|]. by apply shape_on_event, (wf_keeps s).
  - by apply shape_refresh.
Qed.

(** * Delays *)

Lemma redial_action_range act now s :
    0 <= attempt s -> redial_action act now s ->
    match act with
    | SleepThenDial d => 0 <= d <= RECONNECT_DELAY_WITH_JITTER_MAX_MS
    | RefreshTokenThenDial d => TOKEN_STALE_REDIAL_FLOOR_MS <= d <= RECONNECT_DELAY_WITH_JITTER_MAX_MS
    | _ => False
    end.
Proof.
  intros Ha Hact. pose proof (damped_delay_range (attempt s) (healthy_duration_ms now s) (recent_redial_count now s) Ha) as Hd.
  pose proof (reconnect_jitter_range (gidx s)) as Hj.
  unfold RECONNECT_DELAY_WITH_JITTER_MAX_MS, RECONNECT_LADDER_CAP_MS, RECONNECT_JITTER_MAX_MS, TOKEN_STALE_REDIAL_FLOOR_MS in *.
  destruct Hact as [->| ->].
  - unfold damped_decision. rewrite jittered_delay_value by done. lia.
  - unfold token_floor_delay, damped_decision_without_jitter, jitter_ms, TOKEN_STALE_REDIAL_FLOOR_MS.
    unfold u64_saturating_add, u64_max. rewrite clamp_id by lia. lia.
Qed.

(** A redial waits at least what the damper asks. *)
Lemma redial_action_damped act now s d :
    0 <= attempt s -> redial_action act now s -> redial_delay act = Some d ->
    delay_ms (damped_decision_without_jitter now s) <= d.
Proof.
  intros Ha Hact Hd. pose proof (damped_delay_range (attempt s) (healthy_duration_ms now s) (recent_redial_count now s) Ha) as Hr.
  pose proof (reconnect_jitter_range (gidx s)) as Hj. unfold RECONNECT_LADDER_CAP_MS, RECONNECT_JITTER_MAX_MS in *.
  destruct Hact as [->| ->]; simpl in Hd; injection Hd as <-.
  - pose proof (jittered_delay_value (attempt s) (healthy_duration_ms now s) (recent_redial_count now s) (gidx s) Ha) as Hv.
    unfold damped_decision, damped_reconnect_delay_with_jitter in *. simpl in Hv. rewrite Hv.
    unfold damped_decision_without_jitter. lia.
  - unfold token_floor_delay, jitter_ms, u64_saturating_add, u64_max, TOKEN_STALE_REDIAL_FLOOR_MS.
    unfold damped_decision_without_jitter in *. rewrite clamp_id by lia. lia.
Qed.

(** * Runs of a fresh supervisor *)

Lemma sup_run_cons op now rest s :
    sup_run ((op, now) :: rest) s =
      ((op, now, action_of (sup_apply op now s)) :: fst (sup_run rest (next_of (sup_apply op now s))),
       snd (sup_run rest (next_of (sup_apply op now s)))).
Proof. simpl. by destruct (sup_run rest _). Qed.

Lemma sup_run_app ops1 ops2 s :
    sup_run (ops1 ++ ops2) s =
      (fst (sup_run ops1 s) ++ fst (sup_run ops2 (snd (sup_run ops1 s))),
       snd (sup_run ops2 (snd (sup_run ops1 s)))).
Proof.
  revert s. induction ops1 as [|[op now] ops1 IH]; intros s; [by simpl; destruct (sup_run ops2 s)|].
  simpl. rewrite IH. by destruct (sup_run ops1 _).
Qed.

Definition is_grant (op : sup_op) : bool :=
  match op with OpEvent OverflowProbeGranted => true | _ => false end.

(** Nothing but a grant moves a parked supervisor, and a grant only one parked for 805. *)
Lemma parked_step op now s :
    sup_wf s -> cs_phase s = Parked ->
    (is_grant op = false \/ park_reason s <> Some ParkPoolOverflow \/ in_overflow_episode (slot_endpoint (cs_slot s)) = false) ->
    action_of (sup_apply op now s) = Continue /\ cs_phase (next_of (sup_apply op now s)) = Parked /\
    park_reason (next_of (sup_apply op now s)) = park_reason s /\ cs_slot (next_of (sup_apply op now s)) = cs_slot s.
Proof.
  intros H Hp Hno.
  assert (Hst : forall act calls s0 reason, sup_apply op now s = (act, calls, enter_backoff reason now s0) ->
    redial_action act now s -> False).
  { intros act calls s0 reason Heq Hact. destruct op; simpl in Heq.
    - unfold on_event in Heq. rewrite decide_True in Heq by done. unfold releasable in Heq.
      destruct (bool_decide_reflect (ev = OverflowProbeGranted)) as [->|];
        [destruct (bool_decide_reflect (park_reason s = Some ParkPoolOverflow)) as [Hr|];
         [destruct (in_overflow_episode _) eqn:Ho|]|]; simpl in Heq;
        [by destruct Hno as [|[|]]|..]; injection Heq as <- _ _; destruct Hact; done.
    - unfold poll_with in Heq. rewrite Hp in Heq. simpl in Heq. injection Heq as <- _ _. by destruct Hact.
    - unfold note_token_refresh in Heq. rewrite (wf_no_episode s H Hp) in Heq.
      destruct (negb _); simpl in Heq; injection Heq as <- _ _; by destruct Hact.
    - injection Heq as <- _ _. by destruct Hact.
    - injection Heq as <- _ _. by destruct Hact.
    - injection Heq as <- _ _. by destruct Hact.
    - injection Heq as <- _ _. by destruct Hact.
    - injection Heq as <- _ _. by destruct Hact. }
  pose proof (shape_apply op now s H) as Hs. remember (sup_apply op now s) as r eqn:Hr. destruct Hs.
  - unfold action_of, next_of. simpl. repeat split; auto. tauto.
  - exfalso. by eapply Hst.
  - done.
Qed.

(** Folds a per-step property over a run from a well-formed state. *)
Lemma run_forall (P : sup_op * Z * SupervisorAction -> Prop) ops s :
    sup_wf s ->
    (forall op now s', sup_wf s' -> P (op, now, action_of (sup_apply op now s'))) ->
    Forall P (fst (sup_run ops s)).
Proof.
  intros H HP. revert s H. induction ops as [|[op now] ops IH]; intros s H; [constructor|].
  rewrite sup_run_cons. simpl. constructor; [by apply HP|]. by apply IH, wf_apply.
Qed.

Lemma respawn_stays_used op now s :
    sup_wf s -> respawn_used s = true -> respawn_used (next_of (sup_apply op now s)) = true.
Proof.
  intros H Hr. destruct (shape_apply op now s H) as [| act calls s0 reason _ _ [E|[E _]] _|]; unfold next_of; simpl; try congruence.
  unfold enter_backoff. cbv zeta. destruct (records_flap reason); simpl; congruence.
Qed.

(** A redial answered to an 804: it spends the slot's one respawn. *)
Definition is_respawn (x : sup_op * Z * SupervisorAction) : bool :=
  match x with
  | (OpEvent (Disconnected (Some InstrumentsExceedLimit)), _, act) =>
      match redial_delay act with Some _ => true | None => false end
  | _ => false
  end.

Lemma is_respawn_spends op now s :
    sup_wf s -> is_respawn (op, now, action_of (sup_apply op now s)) = true ->
    respawn_used s = false /\ respawn_used (next_of (sup_apply op now s)) = true.
Proof.
  intros H Hr. destruct op as [ev| | | | | | |]; try done. destruct ev as [| | | | | | |code| | | | | |]; try done.
  destruct code as [[]|]; try done. revert Hr. simpl. unfold on_event.
  destruct (decide (cs_phase s = Parked)); [by simpl|].
  unfold on_disconnected. cbv zeta. simpl. unfold park. cbv zeta. simpl.
  unfold respawn_budget_allows. simpl. destruct (respawn_used s); [done|]. by simpl.
Qed.

(** * The flap ceiling *)

(** The times of the redials a run recorded as flaps, newest first. *)
Fixpoint flap_log (ops : list (sup_op * Z)) (s : ConnectionSupervisor) (log : list Z) : list Z :=
  match ops with
  | [] => log
  | (op, now) :: rest =>
      let r := sup_apply op now s in
      flap_log rest (next_of r)
        (match redial_delay (action_of r) with
         | Some _ => if records_flap (last_redial_reason (next_of r)) then now :: log else log
         | None => log end)
  end.

(** The ring holds the last eight entries of the log. *)
Definition flap_ring (s : ConnectionSupervisor) (log : list Z) : Prop :=
  forall i, (i < 8)%nat ->
    redial_history s !! Z.to_nat ((redial_cursor s + 7 - Z.of_nat i) mod 8) = Some (log !! i).

Lemma ring_new slot now : flap_ring (new_supervisor slot now) [].
Proof. intros i Hi. do 8 (destruct i as [|i]; [reflexivity|]). lia. Qed.

Lemma ring_keeps s s' log :
    redial_history s' = redial_history s -> redial_cursor s' = redial_cursor s -> flap_ring s log -> flap_ring s' log.
Proof. intros E1 E2 H i Hi. rewrite E1, E2. by apply H. Qed.

Lemma ring_record now s log :
    sup_wf s -> flap_ring s log -> flap_ring (record_redial now s) (now :: log).
Proof.
  intros Hw H i Hi. pose proof (wf_history s Hw) as Hlen. pose proof (wf_cursor s Hw) as Hc.
  unfold record_redial. simpl. unfold FLAP_HISTORY_SLOTS.
  set (c := redial_cursor s) in *.
  destruct i as [|i].
  - assert (((c + 1) mod 8 + 7 - Z.of_nat 0) mod 8 = c) as ->.
    { rewrite <- (Z.mod_small c 8) at 2 by lia. replace (_ + 7 - _) with ((c + 1) mod 8 + 7) by lia.
      rewrite Z.add_mod_idemp_l by lia. replace (c + 1 + 7) with (c + 1 * 8) by lia. by rewrite Z.mod_add by lia. }
    rewrite list_lookup_insert_eq by lia. done.
  - assert (((c + 1) mod 8 + 7 - Z.of_nat (S i)) mod 8 = (c + 7 - Z.of_nat i) mod 8) as ->.
    { rewrite <- Z.add_sub_assoc, Z.add_mod_idemp_l by lia. f_equal. lia. }
    rewrite list_lookup_insert_ne; [apply H; lia|].
    intros Heq. assert (Hm : c = (c + 7 - Z.of_nat i) mod 8).
    { pose proof (Z.mod_pos_bound (c + 7 - Z.of_nat i) 8 ltac:(lia)). lia. }
    pose proof (Z.div_mod (c + 7 - Z.of_nat i) 8 ltac:(lia)). lia.
Qed.

Lemma ring_contents s log :
    sup_wf s -> flap_ring s log -> redial_history s ≡ₚ (fun i => log !! i) <$> seq 0 8.
Proof.
  intros Hw H. pose proof (wf_history s Hw) as Hlen. pose proof (wf_cursor s Hw) as Hc.
  unfold flap_ring in H. generalize dependent (redial_history s). intros h H Hlen.
  destruct h as [|x0 [|x1 [|x2 [|x3 [|x4 [|x5 [|x6 [|x7 [|]]]]]]]]]; try done. clear Hlen.
  pose proof (H 0%nat ltac:(lia)) as H0. pose proof (H 1%nat ltac:(lia)) as H1.
  pose proof (H 2%nat ltac:(lia)) as H2. pose proof (H 3%nat ltac:(lia)) as H3.
  pose proof (H 4%nat ltac:(lia)) as H4. pose proof (H 5%nat ltac:(lia)) as H5.
  pose proof (H 6%nat ltac:(lia)) as H6. pose proof (H 7%nat ltac:(lia)) as H7. clear H.
  change ((fun i => log !! i) <$> seq 0 8) with
    [log !! 0%nat; log !! 1%nat; log !! 2%nat; log !! 3%nat; log !! 4%nat; log !! 5%nat; log !! 6%nat; log !! 7%nat].
  assert (Hcs : redial_cursor s = 0 \/ redial_cursor s = 1 \/ redial_cursor s = 2 \/ redial_cursor s = 3 \/
    redial_cursor s = 4 \/ redial_cursor s = 5 \/ redial_cursor s = 6 \/ redial_cursor s = 7) by lia.
  clear Hc Hw. generalize dependent (redial_cursor s). intros c H0 H1 H2 H3 H4 H5 H6 H7 Hcs.
  generalize dependent (log !! 0%nat). generalize dependent (log !! 1%nat). generalize dependent (log !! 2%nat).
  generalize dependent (log !! 3%nat). generalize dependent (log !! 4%nat). generalize dependent (log !! 5%nat).
  generalize dependent (log !! 6%nat). generalize dependent (log !! 7%nat). intros l7 H7 l6 H6 l5 H5 l4 H4 l3 H3 l2 H2 l1 H1 l0 H0.
  destruct Hcs as [->|[->|[->|[->|[->|[->|[->| ->]]]]]]];
    vm_compute in H0, H1, H2, H3, H4, H5, H6, H7; simplify_eq; solve_Permutation.
Qed.

Definition newest_first : list Z -> Prop := StronglySorted (fun a b => b <= a).

Lemma newest_prefix w log n :
    newest_first log -> (n <= length (filter (fun t => (w <=? t)%Z = true) log))%nat ->
    forall i, (i < n)%nat -> exists t, log !! i = Some t /\ w <= t.
Proof.
  intros Hs. revert n. induction Hs as [|a log Hs IH Hall]; intros n Hn i Hi; simpl in *; [lia|].
  destruct (decide ((w <=? a) = true)) as [Ha|Ha].
  - rewrite filter_cons_True in Hn by done. simpl in Hn. destruct i as [|i]; [exists a; split; [done|lia]|].
    simpl. apply (IH (n - 1)%nat); lia.
  - rewrite filter_cons_False in Hn by done.
    assert (Hnil : filter (fun t => (w <=? t) = true) log = []).
    { clear -Hall Ha. induction Hall as [|b log Hb Hall IH]; [done|]. rewrite filter_cons_False by lia. done. }
    rewrite Hnil in Hn. simpl in Hn. lia.
Qed.

Definition in_window (now : Z) (st : option Z) : bool :=
  match st with Some at_ => saturating_duration_since now at_ <=? FLAP_WINDOW_MS * NANOS_PER_MS | None => false end.

Lemma in_window_Some now t : in_window now (Some t) = true <-> now - FLAP_WINDOW_MS * NANOS_PER_MS <= t.
Proof. unfold in_window, saturating_duration_since, FLAP_WINDOW_MS, NANOS_PER_MS. lia. Qed.

(** Six recorded redials inside the window make the count reach the ceiling. *)
Lemma ceiling_counted now s log :
    sup_wf s -> flap_ring s log -> newest_first log ->
    (6 <= length (filter (fun t => (now - FLAP_WINDOW_MS * NANOS_PER_MS <=? t)%Z = true) log))%nat ->
    6 <= recent_redial_count now s.
Proof.
  intros Hw Hr Hs Hn. unfold recent_redial_count.
  change (filter _ (redial_history s)) with (filter (fun st => in_window now st = true) (redial_history s)).
  rewrite (ring_contents s log Hw Hr).
  assert (Hin : forall i, (i < 6)%nat -> in_window now (log !! i) = true).
  { intros i Hi. destruct (newest_prefix _ log 6 Hs Hn i Hi) as (t & -> & Ht). by apply in_window_Some. }
  change ((fun i => log !! i) <$> seq 0 8) with
    [log !! 0%nat; log !! 1%nat; log !! 2%nat; log !! 3%nat; log !! 4%nat; log !! 5%nat; log !! 6%nat; log !! 7%nat].
  do 6 (rewrite filter_cons_True by (apply Hin; lia)). simpl length. lia.
Qed.

Lemma enter_backoff_fields reason now s :
    last_redial_reason (enter_backoff reason now s) = reason /\
    cs_slot (enter_backoff reason now s) = cs_slot s /\ cs_phase (enter_backoff reason now s) = Backoff /\
    respawn_used (enter_backoff reason now s) = respawn_used s /\
    park_reason (enter_backoff reason now s) = park_reason s.
Proof. unfold enter_backoff. cbv zeta. by destruct (records_flap reason). Qed.

(** One step of the ring and its log. *)
Lemma ring_step op now s log :
    sup_wf s -> flap_ring s log -> newest_first log -> Forall (fun t => t <= now) log ->
    let r := sup_apply op now s in
    let log' := match redial_delay (action_of r) with
                | Some _ => if records_flap (last_redial_reason (next_of r)) then now :: log else log
                | None => log end in
    flap_ring (next_of r) log' /\ newest_first log' /\ Forall (fun t => t <= now) log'.
Proof.
  intros Hw Hr Hs Hall. cbv zeta. destruct (shape_apply op now s Hw) as
    [act calls s' Ha _ _ E1 E2 _ _ _ _|act calls s0 reason Hd Hact _ _|r calls s' _ _ _ _ E1 E2 _ _];
    unfold action_of, next_of; simpl.
  - rewrite Ha. split; [by eapply ring_keeps|done].
  - assert (Hred : exists d, redial_delay act = Some d) by (destruct Hact as [->| ->]; eauto).
    destruct Hred as [d ->]. destruct (enter_backoff_fields reason now s0) as [-> _].
    destruct Hd as [_ _ _ E1 E2]. unfold enter_backoff. cbv zeta. destruct (records_flap reason).
    + split; [|split; [by constructor|by constructor; [lia|]]].
      match goal with |- flap_ring (record_redial now ?x) _ =>
        intros i Hi; apply (ring_keeps (record_redial now s) (record_redial now x)); [| |by apply ring_record|done] end;
        unfold record_redial; simpl; by rewrite ?E1, ?E2.
    + split; [|done]. eapply ring_keeps, Hr; simpl; done.
  - split; [by eapply ring_keeps|done].
Qed.

Lemma flap_log_ring ops s log start :
    sup_wf s -> flap_ring s log -> newest_first log -> Forall (fun t => t <= start) log ->
    Sorted Z.le (start :: (snd <$> ops)) ->
    flap_ring (snd (sup_run ops s)) (flap_log ops s log) /\ newest_first (flap_log ops s log).
Proof.
  revert s log start. induction ops as [|[op now] ops IH]; intros s log start Hw Hr Hs Hall Hsort; [done|].
  simpl fmap in Hsort. apply Sorted_inv in Hsort as [Hsort Hle]. apply HdRel_inv in Hle. simpl in Hle.
  rewrite sup_run_cons. simpl.
  assert (Hall' : Forall (fun t => t <= now) log) by (eapply Forall_impl; [exact Hall|]; simpl; lia).
  destruct (ring_step op now s log Hw Hr Hs Hall') as (H1 & H2 & H3).
  apply (IH _ _ now); try done. by apply wf_apply.
Qed.

(** * Rejected logins *)

(** The episode has used up what it may: three refreshes failed, or the bound of
    300 s without a fresh token passed by [t] and the grace refresh is spent. *)
Definition episode_spent (t : Z) (e : AuthRejectEpisode) : Prop :=
  AUTH_REJECT_MAX_HARD_FAILURES <= hard_failures e \/
  (grace_refresh_used e = true /\ past_episode_bound t e = true).

Definition login_spent (t : Z) (s : ConnectionSupervisor) : Prop :=
  cs_phase s = Parked \/
  (proven_healthy s = false /\ exists e, auth_reject s = Some e /\ episode_spent t e).

(** Operations that neither deliver a frame, nor report a fresh token, nor spend
    the slot's respawn, nor release a parked slot. *)
Definition no_remedy (op : sup_op) : bool :=
  match op with
  | OpEvent FrameReceived | OpEvent OverflowProbeGranted
  | OpEvent (Disconnected (Some InstrumentsExceedLimit)) => false
  | OpTokenRefresh report => match refresh_outcome report with Fresh _ => false | _ => true end
  | _ => true
  end.

Definition login_rejected (op : sup_op) : bool :=
  match op with OpEvent (Disconnected (Some AuthenticationFailed)) => true | _ => false end.

Lemma past_bound_mono t now e : t <= now -> past_episode_bound t e = true -> past_episode_bound now e = true.
Proof.
  unfold past_episode_bound, as_millis, saturating_duration_since, NANOS_PER_MS, AUTH_REJECT_EPISODE_MAX_MS, u64_max.
  rewrite !Z.leb_le. intros Ht H.
  pose proof (Z.div_le_mono (Z.max 0 (t - last_progress_at e)) (Z.max 0 (now - last_progress_at e)) 1000000 ltac:(lia) ltac:(lia)).
  lia.
Qed.

Lemma episode_spent_mono t now e : t <= now -> episode_spent t e -> episode_spent now e.
Proof. intros Ht [H|[H1 H2]]; [by left|right]. split; [done|by eapply past_bound_mono]. Qed.

Lemma login_spent_mono t now s : t <= now -> login_spent t s -> login_spent now s.
Proof.
  intros Ht [H|(H1 & e & H2 & H3)]; [by left|right]. split; [done|]. exists e. split; [done|by eapply episode_spent_mono].
Qed.

Lemma spent_keeps t s s' : keeps s s' -> login_spent t s -> login_spent t s'.
Proof. intros [] [H|(H1 & e & H2 & H3)]; [left; congruence|right]. split; [congruence|]. exists e. by rewrite k_auth0. Qed.

Lemma spent_backoff t reason now s :
    login_spent t s -> cs_phase s <> Parked -> login_spent t (enter_backoff reason now s).
Proof.
  intros [H|(H1 & e & H2 & H3)] Hp; [done|]. right. unfold enter_backoff. cbv zeta. rewrite H1. simpl.
  assert (episode_spent t { e with refreshed_this_cycle := false }) by exact H3.
  destruct (records_flap reason); simpl; (split; [done|]); rewrite H2; eexists; split; try reflexivity; done.
Qed.

Lemma spent_park t r now s : r <> ParkSubscriptionRejected -> login_spent t (next_of (park r now s)).
Proof. intros Hr. left. by destruct r. Qed.

(** A spent episode parks on the next rejected login. *)
Lemma spent_rejected_parks now s :
    sup_wf s -> cs_phase s <> Parked -> login_spent now s -> exists s0, on_auth_rejected now s = park FatalDisconnect now s0.
Proof.
  intros Hw Hp [H|(H1 & e & H2 & H3)]; [done|]. unfold on_auth_rejected, drop_proven_episode. cbv zeta.
  assert (healthy_duration_ms now s = 0) as ->.
  { unfold healthy_duration_ms. destruct (healthy_since s) eqn:E; [|done].
    assert (proven_healthy s = true) by (apply (wf_healthy s Hw); eauto). congruence. }
  change (MIN_HEALTHY_SESSION_MS <=? 0) with false. rewrite andb_false_r. simpl. rewrite H2. simpl.
  destruct (refresh_ceiling_reached now _); [eauto|].
  assert ((AUTH_REJECT_MAX_HARD_FAILURES <=? hard_failures e)
    || past_episode_bound now e && (refreshed_this_cycle e || grace_refresh_used e) = true) as ->; [|eauto].
  destruct H3 as [H3|[H3 H4]]; [apply orb_true_intro; left; lia|].
  rewrite H3, H4, orb_true_r. by rewrite orb_true_r.
Qed.

Lemma spent_on_event t ev now s :
    sup_wf s -> t <= now -> login_spent t s -> no_remedy (OpEvent ev) = true ->
    login_spent t (next_of (on_event ev now s)).
Proof.
  intros Hw Ht Hsp Hq. unfold on_event. destruct (decide (cs_phase s = Parked)) as [E|E].
  { assert (releasable ev s = false) as -> by (destruct ev; done). by left. }
  assert (Hk : forall f, keeps s f -> forall reason, login_spent t (enter_backoff reason now f)).
  { intros f K reason. apply spent_backoff; [by eapply spent_keeps|]. by rewrite (k_phase _ _ K). }
  destruct ev; try done; try (apply (Hk s (keeps_refl s))).
  - destruct Hsp as [Hsp|(H1 & e & H2 & H3)]; [done|]. right. split; [done|]. exists e. by split.
  - destruct Hsp as [Hsp|(H1 & e & H2 & H3)]; [done|]. right. split; [done|]. exists e. by split.
  - destruct Hsp as [Hsp|(H1 & e & H2 & H3)]; [done|]. right. split; [done|]. exists e. by split.
  - unfold on_disconnected. cbv zeta.
    match goal with |- context [park FatalDisconnect now ?x] => set (s0 := x); assert (K : keeps s s0) by keeps_update end.
    clearbody s0. destruct (classify_disconnect code) eqn:Ec.
    + apply (Hk s0 K).
    + apply (Hk s0 K).
    + left. reflexivity.
    + destruct (spent_rejected_parks now s0) as [s1 ->]; [by eapply wf_keeps|by rewrite (k_phase _ _ K)| |by left].
      eapply login_spent_mono, spent_keeps; eauto.
    + destruct code as [[]|]; done.
    + left. reflexivity.
  - unfold on_idle_elapsed. destruct (negb _); [done|]. apply Hk. keeps_update.
  - unfold on_frame_silence_elapsed. cbv zeta. destruct (decide _); [apply Hk; keeps_update|].
    eapply spent_keeps, Hsp. keeps_update.
  - destruct (decide _); [by apply (Hk s (keeps_refl s))|done].
  - destruct (in_overflow_episode _); [by apply spent_park|done].
  - by apply spent_park.
Qed.

Lemma spent_apply t op now s :
    sup_wf s -> t <= now -> login_spent t s -> no_remedy op = true -> login_spent t (next_of (sup_apply op now s)).
Proof.
  intros Hw Ht Hsp Hq. destruct op; try (eapply spent_keeps, Hsp; keeps_update).
  - by apply spent_on_event.
  - simpl. destruct (poll_cases inputs secs_of_day now s) as (s1 & K & [[_ ->]|[->|(calls & _ & ->)]]).
    + by eapply spent_keeps.
    + by apply spent_on_event.
    + pose proof (spent_on_event t FrameSilenceElapsed now s1 (wf_keeps _ _ K Hw) Ht (spent_keeps _ _ _ K Hsp) eq_refl) as H.
      by destruct (on_event FrameSilenceElapsed now s1) as [[act c] s2].
  - simpl in *. unfold note_token_refresh. destruct (negb _); [done|]. destruct Hsp as [Hsp|(H1 & e & H2 & H3)].
    { rewrite (wf_no_episode s Hw Hsp). by left. }
    rewrite H2. cbv zeta. destruct (bool_decide _); [by left|].
    destruct (refresh_outcome report); [done|..]; right; (split; [done|]); eexists; (split; [reflexivity|]); simpl.
    + exact H3.
    + destruct H3 as [H3|H3]; [left|by right]. pose proof (wf_hard s Hw e H2) as Hh. unfold in_u8 in Hh.
      unfold AUTH_REJECT_MAX_HARD_FAILURES, u8_saturating_inc, clamp in *. simpl. lia.
    + destruct H3 as [H3|H3]; [left|by right]. pose proof (wf_hard s Hw e H2) as Hh. unfold in_u8 in Hh.
      unfold AUTH_REJECT_MAX_HARD_FAILURES, u8_saturating_inc, clamp in *. simpl. lia.
Qed.

Lemma spent_run ops now s :
    sup_wf s -> login_spent now s -> Forall (fun x => no_remedy x.1 = true /\ now <= x.2) ops ->
    sup_wf (snd (sup_run ops s)) /\ login_spent now (snd (sup_run ops s)).
Proof.
  intros Hw Hsp Hall. revert s Hw Hsp. induction Hall as [|[op t] ops [Hq Ht] _ IH]; intros s Hw Hsp; [done|].
  rewrite sup_run_cons. simpl. apply IH; [by apply wf_apply|by apply spent_apply].
Qed.

Lemma login_rejected_event op : login_rejected op = true -> op = OpEvent (Disconnected (Some AuthenticationFailed)).
Proof. by destruct op as [[| | | | | | |[[]|]| | | | | |]| | | | | | |]. Qed.

(** The answer of a spent supervisor to a rejected login. *)
Lemma spent_answer op now s :
    sup_wf s -> login_spent now s -> login_rejected op = true ->
    (action_of (sup_apply op now s) = Park FatalDisconnect /\ cs_phase (next_of (sup_apply op now s)) = Parked) \/
    (cs_phase s = Parked /\ action_of (sup_apply op now s) = Continue /\ cs_phase (next_of (sup_apply op now s)) = Parked).
Proof.
  intros Hw Hsp ->%login_rejected_event. simpl. unfold on_event.
  destruct (decide (cs_phase s = Parked)) as [E|E]; [by right|left].
  unfold on_disconnected. cbv zeta. simpl classify_disconnect. cbv iota.
  match goal with |- context [on_auth_rejected now ?x] => set (s0 := x); assert (K : keeps s s0) by keeps_update end.
  destruct (spent_rejected_parks now s0) as [s1 ->]; [by eapply wf_keeps|by rewrite (k_phase _ _ K)|by eapply spent_keeps|done].
Qed.

(** * Properties *)

Module Supervisor.
(** Whatever happens to a connection in whatever order, every redial waits at
    most 30,625 ms, a redial that must first obtain a token at least 5 s, and the
    state stays well formed: the rings keep their sizes and cursors, a slot is
    parked exactly when it has a reason, and a parked slot has no open episode. *)
Theorem delays_stay_bounded slot start ops :
    Forall (fun x => match snd x with
      | SleepThenDial d => 0 <= d <= RECONNECT_DELAY_WITH_JITTER_MAX_MS
      | RefreshTokenThenDial d => TOKEN_STALE_REDIAL_FLOOR_MS <= d <= RECONNECT_DELAY_WITH_JITTER_MAX_MS
      | _ => True end) (fst (sup_run ops (new_supervisor slot start))) /\
    sup_wf (snd (sup_run ops (new_supervisor slot start))).
Proof.
  split; [|apply wf_run, wf_new]. apply run_forall; [apply wf_new|]. intros op now s Hw. simpl.
  pose proof (shape_apply op now s Hw) as Hs. destruct Hs as [act calls s' Ha| act calls s0 reason _ Hact|];
    unfold action_of; simpl; [by destruct act| |done].
  pose proof (redial_action_range act now s (proj1 (wf_attempt s Hw)) Hact). by destruct act.
Qed.

(** A parked connection stays parked: it answers every event, poll and refresh
    with "nothing to do", for ever, unless the overflow probe grants a release
    to a market-data slot that parked for 805. *)
Theorem parked_is_final slot start pre ops :
    let s := snd (sup_run pre (new_supervisor slot start)) in
    cs_phase s = Parked ->
    park_reason s <> Some ParkPoolOverflow \/ in_overflow_episode (slot_endpoint (cs_slot s)) = false \/
      Forall (fun x => is_grant x.1 = false) ops ->
    Forall (fun x => snd x = Continue) (fst (sup_run ops s)) /\
    cs_phase (snd (sup_run ops s)) = Parked /\ park_reason (snd (sup_run ops s)) = park_reason s.
Proof.
  cbv zeta. assert (Hw : sup_wf (snd (sup_run pre (new_supervisor slot start)))) by apply wf_run, wf_new.
  generalize dependent (snd (sup_run pre (new_supervisor slot start))). clear slot start pre.
  induction ops as [|[op now] ops IH]; intros s Hw Hp Hno; [done|].
  rewrite sup_run_cons. simpl.
  destruct (parked_step op now s Hw Hp) as (E1 & E2 & E3 & E4).
  { destruct Hno as [H|[H|H]]; [by right; left|by right; right|left]. by inversion H. }
  destruct (IH _ (wf_apply op now s Hw) E2) as (I1 & I2 & I3).
  { rewrite E3, E4. destruct Hno as [H|[H|H]]; [by left|by right; left|right; right]. by inversion H. }
  split; [by constructor|]. split; [done|by rewrite I3].
Qed.

(** C12: An 805 parks the connection at once, whatever it was doing, trips the
    process-wide breaker, and never leads to a redial by itself: until the
    overflow probe grants a release, every later answer is that there is nothing
    to do. *)
Theorem overflow_never_redials slot start pre now ops :
    let s := snd (sup_run pre (new_supervisor slot start)) in
    let r := on_event (Disconnected (Some ExceededActiveConnections)) now s in
    cs_phase s <> Parked -> Forall (fun x => is_grant x.1 = false) ops ->
    action_of r = Park ParkPoolOverflow /\ HaltRotation ∈ snd (fst r) /\
    Forall (fun x => snd x = Continue) (fst (sup_run ops (next_of r))).
Proof.
  cbv zeta. intros Hp Hops.
  set (ev := OpEvent (Disconnected (Some ExceededActiveConnections))).
  pose proof (sup_run_app pre [(ev, now)] (new_supervisor slot start)) as Happ.
  set (s := snd (sup_run pre (new_supervisor slot start))) in *.
  assert (Hr : snd (sup_run (pre ++ [(ev, now)]) (new_supervisor slot start)) =
    next_of (on_event (Disconnected (Some ExceededActiveConnections)) now s)) by (by rewrite Happ).
  assert (Hact : action_of (on_event (Disconnected (Some ExceededActiveConnections)) now s) = Park ParkPoolOverflow /\
    HaltRotation ∈ snd (fst (on_event (Disconnected (Some ExceededActiveConnections)) now s)) /\
    cs_phase (next_of (on_event (Disconnected (Some ExceededActiveConnections)) now s)) = Parked).
  { unfold on_event. rewrite decide_False by done. unfold on_disconnected. cbv zeta. simpl.
    split; [done|]. split; [set_solver|done]. }
  destruct Hact as (H1 & H2 & H3). split; [done|]. split; [done|].
  rewrite <- Hr. apply (parked_is_final slot start (pre ++ [(ev, now)]) ops); [by rewrite Hr|]. by right; right.
Qed.

(** At most one 804 in the life of a connection is answered with a redial. *)
Theorem one_respawn_per_slot slot start ops :
    (length (filter (fun x => is_respawn x = true) (fst (sup_run ops (new_supervisor slot start)))) <= 1)%nat.
Proof.
  assert (H : forall s, sup_wf s ->
    (length (filter (fun x => is_respawn x = true) (fst (sup_run ops s))) <= (if respawn_used s then 0 else 1))%nat).
  { induction ops as [|[op now] ops IH]; intros s Hw; [simpl; lia|].
    rewrite sup_run_cons. cbn [fst]. specialize (IH _ (wf_apply op now s Hw)).
    destruct (decide (is_respawn (op, now, action_of (sup_apply op now s)) = true)) as [Hr|Hr].
    - rewrite filter_cons_True by done. destruct (is_respawn_spends op now s Hw Hr) as [-> E]. rewrite E in IH. simpl. lia.
    - rewrite filter_cons_False by done. destruct (respawn_used s) eqn:E.
      + by rewrite (respawn_stays_used op now s Hw E) in IH.
      + by destruct (respawn_used (next_of _)); lia. }
  apply (H (new_supervisor slot start)), wf_new.
Qed.

Definition first_slot : ConnectionSlot := mkSlot PrimaryAccount MainFeed 0 0.
Definition overflow_run : list (sup_op * Z) :=
  [(OpEvent BeginDial, 0); (OpEvent DialSucceeded, 1); (OpEvent (Disconnected (Some ExceededActiveConnections)), 2)].

Lemma parked_is_final_witness :
    let s := snd (sup_run overflow_run (new_supervisor first_slot 0)) in
    cs_phase s = Parked /\
    Forall (fun x => snd x = Continue) (fst (sup_run [(OpEvent BeginDial, 3); (OpEvent FrameReceived, 4)] s)).
Proof.
  intros s. split; [reflexivity|].
  refine (proj1 (parked_is_final first_slot 0 overflow_run [(OpEvent BeginDial, 3); (OpEvent FrameReceived, 4)] eq_refl _)).
  right. right. repeat constructor.
Defined.

Lemma overflow_never_redials_witness :
    let s := snd (sup_run [(OpEvent BeginDial, 0)] (new_supervisor first_slot 0)) in
    cs_phase s <> Parked /\
    action_of (on_event (Disconnected (Some ExceededActiveConnections)) 5 s) = Park ParkPoolOverflow.
Proof.
  intros s. assert (Hp : cs_phase s <> Parked) by (vm_compute; discriminate). split; [exact Hp|].
  exact (proj1 (overflow_never_redials first_slot 0 [(OpEvent BeginDial, 0)] 5 [] Hp (Forall_nil_2 _))).
Defined.
End Supervisor.
