(* ===== verification/SupervisorTiming.v ===== *)
(** Timing theorems on the supervisor of a feed connection
    ([ConnectionSupervisor]): the rate of fast redials, the end of a run of
    rejected logins, when silence redials a socket, and how the silence redials
    of a pool are spaced. *)
From coqutil Require Import Datatypes.RecordSettersUsingExistingGetters.
From Stdlib Require Import Sorting.Sorted.
From S2P Require Import Prelude FeedTypes ConnectionBudget ReconnectLadder ConnectionSupervisor SupervisorSafety.
Local Open Scope Z_scope.

(** * What a poll reads *)

(** The fields the silence rules read, unchanged by the first part of a poll. *)
Record same_silence (s s' : ConnectionSupervisor) : Prop := mkSameSilence {
  ss_keeps : keeps s s';
  ss_frame : last_frame_at s' = last_frame_at s;
  ss_gate : frame_silence_gate s' = frame_silence_gate s;
  ss_evidence : silence_evidence s' = silence_evidence s;
  ss_fast : fast_path s' = fast_path s;
  ss_held : held_instruments s' = held_instruments s }.

Lemma same_silence_gap b s : same_silence s (snd (open_gap_window b s)).
Proof. split; [apply keeps_gap_window|..]; unfold open_gap_window; by destruct (_ && _). Qed.

Lemma same_silence_strikes now s : same_silence s (reset_strikes now s).
Proof.
  split; [apply keeps_reset_strikes|..]; unfold reset_strikes;
    destruct (last_silence_redial_at s); try done; by destruct (_ <=? _).
Qed.

Lemma same_silence_trans s1 s2 s3 : same_silence s1 s2 -> same_silence s2 s3 -> same_silence s1 s3.
Proof. intros [] []. split; [by eapply sup_keeps_trans|congruence..]. Qed.

(** The cell a silence redial of this socket must claim. *)
Definition spacing_kind (s : ConnectionSupervisor) : option nat :=
  if bool_decide (silence_evidence s = EvidencePool) then confirmed_kind_index (slot_endpoint (cs_slot s)) else None.

(** The value a claim may overwrite. *)
Definition spaced (v w : Z) : Prop := v = 0 \/ v + 15000 <= w \/ w < v - 5000.

Definition silent_secs (now : Z) (s : ConnectionSupervisor) : Z := as_secs (frame_silent_for now s).

(** What must hold for silence to redial the socket. *)
Definition silence_cause (inputs : SilenceInputs) (now : Z) (s : ConnectionSupervisor) : Prop :=
  match slot_endpoint (cs_slot s) with
  | OrderUpdateFeed => False
  | Depth200 => 900 <= silent_secs now s
  | e =>
      300 <= silent_secs now s \/
      (confirmed_base_secs e <= silent_secs now s /\ fast_path s = FastAct /\ silence_evidence s = EvidencePool /\
       overflow_or_halted inputs = false /\ 2 <= live_siblings (gidx s) e (wall_ms inputs) (stamps inputs) /\
       confirmed_min_held e <= held_instruments s)
  end.

Lemma confirmed_threshold_ge s :
    sup_wf s -> confirmed_base_secs (slot_endpoint (cs_slot s)) <= 300 ->
    confirmed_base_secs (slot_endpoint (cs_slot s)) <= confirmed_threshold_secs s <= 300.
Proof.
  intros Hw Hb. pose proof (wf_strikes s Hw) as Hs. unfold in_u8 in Hs.
  unfold confirmed_threshold_secs, MAX_SILENCE_STRIKE_SHIFT, FRAME_SILENCE_REDIAL_SECS.
  assert (0 <= confirmed_base_secs (slot_endpoint (cs_slot s))) by (by destruct (slot_endpoint _)).
  rewrite Z.shiftl_mul_pow2 by lia. pose proof (Z.pow_pos_nonneg 2 (Z.min (silence_strikes s) 3)). nia.
Qed.

(** The claim a poll makes on the spacing register, by the value it found. *)
Lemma claim_fallback_spaced current last wall w :
    claim_fallback_spacing current last wall = Some w -> w = wall /\ spaced current wall.
Proof.
  unfold claim_fallback_spacing, spaced, i64_saturating_mul, i64_saturating_sub, clamp, i64_min, i64_max,
    CONFIRMED_REDIAL_SPACING_SECS, SIBLING_FUTURE_SKEW_MS.
  destruct (_ && _) eqn:E; [|done]. intros [= <-]. split; [done|]. lia.
Qed.

(** The evidence of a poll that reads the register, and of one that does not. *)
Lemma gather_read inputs n s k last current :
    spacing_kind s = Some k -> spacing inputs !! k = Some last -> spacing_at_cas inputs !! k = Some current ->
    (300 <= n \/ (fast_path s <> FastOff /\ confirmed_threshold_secs s <= n)) ->
    gather_evidence inputs n s =
      mkEvidence (overflow_or_halted inputs)
        (live_siblings (gidx s) (slot_endpoint (cs_slot s)) (wall_ms inputs) (stamps inputs))
        ((last =? 0) || (i64_saturating_mul CONFIRMED_REDIAL_SPACING_SECS 1000 <=? i64_saturating_sub (wall_ms inputs) last))
        (Some (k, last, current)).
Proof.
  unfold spacing_kind, gather_evidence. destruct (bool_decide (silence_evidence s = EvidencePool)); [|done].
  intros -> Hl Hc Hn. simpl. rewrite Hl, Hc. simpl.
  destruct (Z.ltb_spec n FRAME_SILENCE_REDIAL_SECS) as [Hlt|Hge]; unfold FRAME_SILENCE_REDIAL_SECS in *.
  - destruct Hn as [Hn|[Hf Hn]]; [lia|]. rewrite bool_decide_eq_false_2 by done. simpl.
    by rewrite (proj2 (Z.leb_le _ _) Hn).
  - rewrite andb_false_r. simpl. by rewrite (proj2 (Z.leb_le _ _) Hge).
Qed.

Lemma gather_unread inputs n s :
    spacing_kind s = None \/ (n < 300 /\ fast_path s = FastOff) -> gather_evidence inputs n s = mkEvidence true 0 false None.
Proof.
  unfold spacing_kind, gather_evidence. destruct (bool_decide (silence_evidence s = EvidencePool)); [|done].
  intros [->|[Hn ->]]; simpl; [by rewrite andb_false_r|].
  unfold FRAME_SILENCE_REDIAL_SECS. rewrite (proj2 (Z.leb_gt 300 n) Hn). by rewrite andb_false_r.
Qed.

Lemma spacing_ok_spaced last wall :
    (last =? 0) || (i64_saturating_mul CONFIRMED_REDIAL_SPACING_SECS 1000 <=? i64_saturating_sub wall last) = true ->
    spaced last wall.
Proof.
  unfold spaced, i64_saturating_mul, i64_saturating_sub, clamp, i64_min, i64_max, CONFIRMED_REDIAL_SPACING_SECS. lia.
Qed.

(** A granted claim had a cause and took the kind's cell, if the kind has one. *)
Lemma claim_granted inputs now co s basis wrote s' :
    sup_wf s -> length (spacing inputs) = 2%nat -> length (spacing_at_cas inputs) = 2%nat ->
    silence_redial_basis (slot_endpoint (cs_slot s)) (silent_secs now s) (confirmed_threshold_secs s) co
      (ev_overflow_or_halted (gather_evidence inputs (silent_secs now s) s))
      (ev_siblings (gather_evidence inputs (silent_secs now s) s)) (held_instruments s)
      (ev_spacing_ok (gather_evidence inputs (silent_secs now s) s)) = Some basis ->
    claim_slot basis (wall_ms inputs) (gather_evidence inputs (silent_secs now s) s) s = (Some wrote, s') ->
    silence_cause inputs now s /\
    match spacing_kind s with
    | Some k => wrote = Some (k, wall_ms inputs) /\ exists v, spacing_at_cas inputs !! k = Some v /\ spaced v (wall_ms inputs)
    | None => wrote = None
    end.
Proof.
  intros Hw Hl1 Hl2. set (n := silent_secs now s).
  assert (Hlook : forall k, (k < 2)%nat -> exists a b, spacing inputs !! k = Some a /\ spacing_at_cas inputs !! k = Some b).
  { intros k Hk. destruct (lookup_lt_is_Some_2 (spacing inputs) k ltac:(lia)) as [a Ha].
    destruct (lookup_lt_is_Some_2 (spacing_at_cas inputs) k ltac:(lia)) as [b Hb]. eauto. }
  pose proof (confirmed_threshold_ge s Hw) as Hth.
  destruct (decide (slot_endpoint (cs_slot s) = Depth200 \/ slot_endpoint (cs_slot s) = OrderUpdateFeed)) as [He|He].
  { assert (Hk : spacing_kind s = None).
    { unfold spacing_kind. destruct (bool_decide _); [|done]. by destruct He as [-> | ->]. }
    rewrite Hk. unfold silence_cause. destruct He as [-> | ->]; simpl; [|done].
    destruct (Z.leb_spec DEPTH200_SILENCE_BACKSTOP_SECS n) as [Hn|]; [|done]. intros [= <-] [= <- _]. by split. }
  assert (Hkind : exists k, confirmed_kind_index (slot_endpoint (cs_slot s)) = Some k /\ (k < 2)%nat)
    by (destruct (slot_endpoint (cs_slot s)); [exists 0%nat; split; [done|lia]|exists 1%nat; split; [done|lia]|exfalso; tauto..]).
  destruct Hkind as (k & Hk & Hk2). destruct (Hlook k Hk2) as (last & current & Hlast & Hcur).
  assert (Hb : silence_redial_basis (slot_endpoint (cs_slot s)) n (confirmed_threshold_secs s) co
      (ev_overflow_or_halted (gather_evidence inputs n s)) (ev_siblings (gather_evidence inputs n s)) (held_instruments s)
      (ev_spacing_ok (gather_evidence inputs n s)) = Some basis ->
    (basis = Unconfirmed /\ 300 <= n) \/
    (basis = SiblingConfirmed /\ n < 300 /\ confirmed_threshold_secs s <= n /\
     ev_overflow_or_halted (gather_evidence inputs n s) = false /\ 2 <= ev_siblings (gather_evidence inputs n s) /\
     confirmed_min_held (slot_endpoint (cs_slot s)) <= held_instruments s /\ ev_spacing_ok (gather_evidence inputs n s) = true)).
  { unfold silence_redial_basis, MIN_LIVE_SIBLINGS, FRAME_SILENCE_REDIAL_SECS.
    destruct (slot_endpoint (cs_slot s)); try (exfalso; tauto); destruct (Z.leb_spec 300 n);
      try (intros [= <-]; by left); destruct (_ && _) eqn:Ea; try done; intros [= <-]; right;
      apply andb_prop in Ea as [Ea ?]; apply andb_prop in Ea as [Ea ?%Z.leb_le]; apply andb_prop in Ea as [Ea ?%Z.leb_le];
      apply andb_prop in Ea as [Ea ?%negb_true_iff]; apply andb_prop in Ea as [?%Z.leb_le _]; done. }
  intros Hbasis Hclaim. specialize (Hb Hbasis). clear Hbasis.
  destruct (spacing_kind s) as [k'|] eqn:Esk.
  - assert (k' = k) as -> by (unfold spacing_kind in Esk; destruct (bool_decide _); congruence).
    assert (Hpool : silence_evidence s = EvidencePool)
      by (unfold spacing_kind in Esk; destruct (bool_decide_reflect (silence_evidence s = EvidencePool)); done).
    destruct Hb as [[-> Hn]|(-> & Hlt & Hn & Hov & Hsib & Hheld & Hok)].
    + rewrite (gather_read inputs n s k last current) in Hclaim by auto. simpl in Hclaim.
      injection Hclaim as Hc _. destruct (claim_fallback_spacing current last (wall_ms inputs)) as [w|] eqn:E; [|done].
      injection Hc as <-. apply claim_fallback_spaced in E as [-> Hsp]. split; [|eauto].
      unfold silence_cause. destruct (slot_endpoint (cs_slot s)); try (exfalso; tauto); by left.
    + destruct (decide (fast_path s = FastOff)) as [Ef|Ef].
      { rewrite gather_unread in Hov by auto. done. }
      rewrite (gather_read inputs n s k last current) in Hclaim, Hov, Hsib, Hok by auto. simpl in *.
      destruct (fast_path s) eqn:Efp; try done. destruct (Z.eqb_spec current last) as [->|]; [|done].
      injection Hclaim as <- _. split; [|split; [done|]; exists last; split; [done|by apply spacing_ok_spaced]].
      unfold silence_cause. destruct (slot_endpoint (cs_slot s)); try (exfalso; tauto);
        right; (split; [|done]); (etrans; [|exact Hn]); apply Hth; done.
  - assert (Hu : gather_evidence inputs n s = mkEvidence true 0 false None) by (apply gather_unread; by left).
    rewrite Hu in *. destruct Hb as [[-> Hn]|(_ & _ & _ & Hov & _)]; [|done].
    simpl in Hclaim. injection Hclaim as <- _. split; [|done].
    unfold silence_cause. destruct (slot_endpoint (cs_slot s)); try (exfalso; tauto); by left.
Qed.

(** A poll either does not redial and writes nothing, or raises the idle event
    and writes nothing, or redials a live socket for silence: then it had a
    cause, and it claimed its kind's cell exactly when it has one. *)
Lemma poll_silence inputs secs now s :
    sup_wf s -> length (spacing inputs) = 2%nat -> length (spacing_at_cas inputs) = 2%nat ->
    let r := fst (poll_with inputs secs now s) in
    let wrote := snd (poll_with inputs secs now s) in
    (redial_delay (action_of r) = None /\ wrote = None) \/
    (is_expired now (watchdog s) = true /\ wrote = None /\ r = on_event IdleElapsed now s) \/
    (is_expired now (watchdog s) = false /\ cs_phase s = Live /\ is_open_at (frame_silence_gate s) secs = true /\
     redial_delay (action_of r) = Some (delay_ms (damped_decision now s)) /\ cs_phase (next_of r) = Backoff /\
     silence_cause inputs now s /\
     match spacing_kind s with
     | Some k => wrote = Some (k, wall_ms inputs) /\ exists v, spacing_at_cas inputs !! k = Some v /\ spaced v (wall_ms inputs)
     | None => wrote = None
     end).
Proof.
  intros Hw Hl1 Hl2. unfold poll_with. destruct (negb _); [by left|].
  destruct (is_expired now (watchdog s)); [by right; left|]. cbv zeta.
  set (secs' := match frame_silence_gate s with ContinuousSessionIst => secs | _ => 0 end).
  set (co := confirmed_window_open_at _ secs'). pose proof (same_silence_gap co s) as K1.
  destruct (open_gap_window co s) as [calls s1]. simpl in K1.
  destruct (decide (cs_phase s1 <> Live)) as [|E1]; [by left|].
  assert (Elive : cs_phase s = Live) by (rewrite <- (k_phase _ _ (ss_keeps _ _ K1)); destruct (decide (cs_phase s1 = Live)); tauto).
  pose proof (same_silence_trans _ _ _ K1 (same_silence_strikes now s1)) as K2.
  set (s2 := reset_strikes now s1) in *. clearbody s2. clear K1 E1.
  destruct K2 as [K2 Ef Eg Ee Efp Eh]. pose proof (wf_keeps _ _ K2 Hw) as Hw2.
  rewrite Eg. destruct (is_open_at (frame_silence_gate s) secs') eqn:Eopen; [|by left]. simpl negb. cbv iota.
  assert (Hopen : is_open_at (frame_silence_gate s) secs = true) by (subst secs'; by destruct (frame_silence_gate s)).
  destruct (silence_redial_basis _ _ _ _ _ _ _ _) as [basis|] eqn:Eb; [|by left].
  destruct (claim_slot basis _ _ s2) as [[wrote|] s3] eqn:Ec; [|by left].
  pose proof (keeps_claim basis (wall_ms inputs) (gather_evidence inputs (silent_secs now s2) s2) s2) as K3.
  unfold silent_secs in K3. rewrite Ec in K3. simpl in K3.
  destruct (claim_granted inputs now co s2 basis wrote s3 Hw2 Hl1 Hl2 Eb Ec) as [Hcause Hwrote].
  right. right. split; [done|]. split; [done|]. split; [done|].
  assert (Hd : same_decision s s3) by (apply same_decision_keeps; by eapply sup_keeps_trans).
  assert (Elive3 : cs_phase s3 = Live) by (rewrite (k_phase _ _ K3), (k_phase _ _ K2); done).
  match goal with |- context [on_event FrameSilenceElapsed now ?x] => set (s4 := x) end.
  assert (Hev : exists act c s5, on_event FrameSilenceElapsed now s4 = (act, c, s5) /\
    redial_delay act = Some (delay_ms (damped_decision now s)) /\ cs_phase s5 = Backoff).
  { unfold on_event. rewrite decide_False by (simpl; by rewrite Elive3).
    unfold on_frame_silence_elapsed. cbv zeta. rewrite decide_True by done.
    unfold redial_telling, schedule_redial. cbv beta iota. eexists _, _, _. split; [reflexivity|]. split; [|apply enter_backoff_fields].
    cbn [redial_delay]. f_equal. f_equal. apply damped_decision_same. eapply same_decision_trans; [exact Hd|]. by split. }
  destruct Hev as (act & c & s5 & -> & Hact & Hs5). simpl. split; [done|]. split; [done|].
  pose proof (ss_keeps) as _. unfold silence_cause, spacing_kind, silent_secs, frame_silent_for in *.
  rewrite (k_slot _ _ K2), Ef, Ee, Efp, Eh in Hcause. rewrite (k_slot _ _ K2), Ee in Hwrote.
  unfold gidx in *. rewrite (k_slot _ _ K2) in Hcause. done.
Qed.

(** * A pool that shares the spacing register

    Each connection polls on its own; what a poll loaded from the register is an
    argument, what its compare-and-swap finds is the register itself. *)
Record SpacedPool : Type := mkSpacedPool {
  sp_register : list Z;
  sp_conns : list ConnectionSupervisor }.

Definition with_register (reg : list Z) (i : SilenceInputs) : SilenceInputs :=
  mkInputs (wall_ms i) (overflow_or_halted i) (stamps i) (spacing i) reg.

(** One operation of connection [i] and what a silence redial of it claimed: the
    kind and the wall time. *)
Definition pool_step (i : nat) (op : sup_op) (now : Z) (p : SpacedPool) : option (nat * Z) * SpacedPool :=
  match sp_conns p !! i with
  | None => (None, p)
  | Some s =>
      match op with
      | OpPoll inputs secs =>
          let '(r, wrote) := poll_with (with_register (sp_register p) inputs) secs now s in
          let redialled := match redial_delay (action_of r) with
            | Some _ => if is_expired now (watchdog s) then None else spacing_kind s | None => None end in
          ((fun k => (k, wall_ms inputs)) <$> redialled,
           mkSpacedPool (match wrote with Some (k, w) => <[k := w]> (sp_register p) | None => sp_register p end)
             (<[i := next_of r]> (sp_conns p)))
      | op => (None, mkSpacedPool (sp_register p) (<[i := next_of (sup_apply op now s)]> (sp_conns p)))
      end
  end.

(** The silence redials of one kind in a run, oldest first. *)
Fixpoint claims_of (k : nat) (steps : list (nat * sup_op * Z)) (p : SpacedPool) : list Z :=
  match steps with
  | [] => []
  | (i, op, now) :: rest =>
      let '(claim, p) := pool_step i op now p in
      match claim with
      | Some (k', w) => if decide (k' = k) then w :: claims_of k rest p else claims_of k rest p
      | None => claims_of k rest p
      end
  end.

Definition pool_wf (p : SpacedPool) : Prop := length (sp_register p) = 2%nat /\ Forall sup_wf (sp_conns p).

(** Every wall reading of the run is after the epoch, every load has two cells. *)
Definition sane_step (x : nat * sup_op * Z) : Prop :=
  match x with
  | (_, OpPoll inputs _, _) => 0 < wall_ms inputs /\ length (spacing inputs) = 2%nat
  | _ => True
  end.

Lemma with_register_cas reg inputs : spacing_at_cas (with_register reg inputs) = reg.
Proof. done. Qed.

(** A step claims a cell exactly by writing the wall time over a value it may replace. *)
Lemma pool_step_claims i op now p :
    pool_wf p -> sane_step (i, op, now) ->
    pool_wf (snd (pool_step i op now p)) /\
    match fst (pool_step i op now p) with
    | Some (k, w) => exists v, sp_register p !! k = Some v /\ spaced v w /\ 0 < w /\
        sp_register (snd (pool_step i op now p)) = <[k := w]> (sp_register p)
    | None => sp_register (snd (pool_step i op now p)) = sp_register p
    end.
Proof.
  intros [Hl Hall] Hsane. unfold pool_step. destruct (sp_conns p !! i) as [s|] eqn:Es; [|by repeat split].
  assert (Hw : sup_wf s) by (rewrite Forall_lookup in Hall; by eapply Hall).
  assert (Hins : forall o, Forall sup_wf (<[i := next_of (sup_apply o now s)]> (sp_conns p)))
    by (intros o; apply Forall_insert; [done|by apply wf_apply]).
  destruct op as [| inputs secs | | | | | |]; try (split; [by split; [|apply Hins]|done]).
  destruct Hsane as [Hwall Hload]. set (inp := with_register (sp_register p) inputs).
  pose proof (poll_silence inp secs now s Hw Hload Hl) as Hp. pose proof (Hins (OpPoll inp secs)) as Hc.
  cbv zeta in Hp. simpl in Hc. destruct (poll_with inp secs now s) as [r wrote]. simpl in Hp, Hc.
  destruct Hp as [[Ha ->]|[(He & -> & _)|(He & _ & _ & Ha & _ & _ & Hwr)]]; rewrite ?Ha, ?He; simpl.
  - split; [by split|done].
  - destruct (redial_delay (action_of r)); (split; [by split|done]).
  - destruct (spacing_kind s) as [k|]; [|subst wrote; split; [by split|done]].
    destruct Hwr as (-> & v & Hv & Hsp). simpl. split; [split; [by simpl; rewrite length_insert|done]|]. by exists v.
Qed.

Lemma claims_spaced_from k steps p v :
    pool_wf p -> Forall sane_step steps -> sp_register p !! k = Some v ->
    Sorted (fun a b => a + 15000 <= b \/ b < a - 5000) (claims_of k steps p) /\
    (forall w, head (claims_of k steps p) = Some w -> spaced v w).
Proof.
  revert p v. induction steps as [|[[i op] now] steps IH]; intros p v Hp Hsane Hv; [by split|].
  apply Forall_cons in Hsane as [H1 Hsane]. destruct (pool_step_claims i op now p Hp H1) as [Hp' Hc].
  simpl. destruct (pool_step i op now p) as [[[k' w]|] p']; simpl in *.
  - destruct Hc as (v' & Hv' & Hsp & Hpos & Hreg). destruct (decide (k' = k)) as [->|Hne].
    + rewrite Hv in Hv'. injection Hv' as <-.
      destruct (IH p' w Hp' Hsane) as [I1 I2].
      { rewrite Hreg, list_lookup_insert_eq; [done|]. by eapply lookup_lt_Some. }
      split; [|by intros ? [= <-]]. constructor; [done|]. destruct (claims_of k steps p') as [|w' l]; [done|].
      constructor. destruct (I2 w' eq_refl) as [->|H]; [lia|exact H].
    + apply (IH p' v Hp' Hsane). by rewrite Hreg, list_lookup_insert_ne.
  - apply (IH p' v Hp' Hsane). by rewrite Hc.
Qed.

Lemma sorted_prefix (l l' : list Z) : Sorted Z.le (l ++ l') -> Sorted Z.le l.
Proof.
  induction l as [|a l IH]; intros H; [constructor|]. simpl in H. apply Sorted_inv in H as [H Hd].
  constructor; [by apply IH|]. destruct l; [constructor|]. constructor. by apply HdRel_inv in Hd.
Qed.

(** * Properties *)

Module Timing.
(** C34: Whenever a connection redials after less than the ladder's cap of 30
    s, it redialled, probe closes apart, fewer than six times in the five minutes
    before, so a socket that flaps is slowed whatever its disconnects, sessions
    and refreshes look like. *)
Theorem fast_redials_are_rare slot start ops op now d :
    Sorted Z.le (start :: (snd <$> ops) ++ [now]) ->
    let s := snd (sup_run ops (new_supervisor slot start)) in
    redial_delay (action_of (sup_apply op now s)) = Some d -> d < RECONNECT_LADDER_CAP_MS ->
    (length (filter (fun t => (now - FLAP_WINDOW_MS * NANOS_PER_MS <=? t)%Z = true)
       (flap_log ops (new_supervisor slot start) [])) < 6)%nat.
Proof.
  intros Hsort. cbv zeta. intros Hd Hlt.
  assert (Hops : Sorted Z.le (start :: (snd <$> ops))).
  { rewrite app_comm_cons in Hsort. by apply sorted_prefix in Hsort. }
  destruct (flap_log_ring ops _ [] start (wf_new slot start) (ring_new slot start) (SSorted_nil _) (Forall_nil_2 _) Hops) as [Hr Hn].
  pose proof (wf_run ops _ (wf_new slot start)) as Hw.
  set (s := snd (sup_run ops (new_supervisor slot start))) in *. set (log := flap_log _ _ _) in *.
  apply Nat.lt_nge. intros H6. pose proof (ceiling_counted now s log Hw Hr Hn H6) as Hc.
  destruct (shape_apply op now s Hw) as [act calls s' Ha|act calls s0 reason _ Hact|]; unfold action_of in Hd; simpl in Hd; [congruence| |done].
  pose proof (redial_action_damped act now s d (proj1 (wf_attempt s Hw)) Hact Hd) as Hge.
  unfold damped_decision_without_jitter in Hge. rewrite damped_delay_value in Hge. unfold RECONNECT_LADDER_CAP_MS in Hlt.
  destruct (Z.leb_spec 6 (recent_redial_count now s)); lia.
Qed.

(** C17: A run of rejected logins ends. Once three refreshes have failed and
    no session was proven since, or a login was rejected 300 s after the last
    fresh token and still answered with a refresh, then as long as no frame
    arrives, no refresh produces a fresh token, no 804 spends the respawn of the
    slot and no 805 probe is granted to it, which both start the episode afresh,
    every later 808 parks the slot unless it is parked already, whatever dials,
    other closes, polls and refreshes come in between; and a fresh token that is
    itself rejected parks it before the next dial. *)
Theorem rejected_logins_end slot start pre now :
    let s := snd (sup_run pre (new_supervisor slot start)) in
    (forall e, auth_reject s = Some e -> cs_phase s <> Parked -> proven_healthy s = false ->
       AUTH_REJECT_MAX_HARD_FAILURES <= hard_failures e -> login_spent now s) /\
    (forall d calls s1, on_event (Disconnected (Some AuthenticationFailed)) now s = (RefreshTokenThenDial d, calls, s1) ->
       forall e, auth_reject s1 = Some e -> past_episode_bound now e = true -> login_spent now s1) /\
    (forall s1, sup_wf s1 -> login_spent now s1 -> forall ops op t,
       Forall (fun x => no_remedy x.1 = true /\ now <= x.2) ops -> now <= t -> login_rejected op = true ->
       let s2 := snd (sup_run ops s1) in
       (cs_phase s2 <> Parked -> action_of (sup_apply op t s2) = Park FatalDisconnect) /\
       cs_phase (next_of (sup_apply op t s2)) = Parked) /\
    (forall report e, last_redial_reason s = RAuthRejected -> auth_reject s = Some e ->
       verified_generation e = Some (presented report) ->
       fst (fst (note_token_refresh report now s)) = Some (Park FatalDisconnect)).
Proof.
  cbv zeta. pose proof (wf_run pre _ (wf_new slot start)) as Hw.
  set (s := snd (sup_run pre (new_supervisor slot start))) in *.
  split; [intros e He Hp Hh H3; right; split; [done|]; exists e; split; [done|by left]|]. split.
  - intros d calls s1 Hev e He Hb. right. revert Hev. unfold on_event.
    destruct (decide (cs_phase s = Parked)); [by destruct (releasable _ _)|].
    unfold on_disconnected. cbv zeta. simpl classify_disconnect. cbv iota.
    match goal with |- context [on_auth_rejected now ?x] => set (s0 := x) end. clearbody s0.
    unfold on_auth_rejected. cbv zeta. set (s2 := drop_proven_episode now s0). clearbody s2.
    set (ep := default _ _). clearbody ep.
    assert (Hpark : forall c x, tell_first c (park FatalDisconnect now x)
      <> (RefreshTokenThenDial d, calls, s1)) by (intros c x; unfold park; simpl; congruence).
    destruct (refresh_ceiling_reached now _); [by intros ?%Hpark|].
    destruct (_ || _); [by intros ?%Hpark|]. intros Heq. injection Heq as _ _ Hs1. subst s1. revert He.
    destruct (past_episode_bound now ep) eqn:Ep; unfold enter_backoff; simpl; rewrite andb_false_r; intros [= <-];
      (split; [done|]); eexists; (split; [reflexivity|]); right; (split; [|done]).
    + done.
    + exfalso. unfold past_episode_bound in *. simpl in Hb. congruence.
  - split.
    + intros s1 Hw1 Hsp ops op t Hall Ht Hr. destruct (spent_run ops now s1 Hw1 Hsp Hall) as [Hw2 Hsp2]. cbv zeta.
      destruct (spent_answer op t _ Hw2 (login_spent_mono now t _ Ht Hsp2) Hr) as [[Ha Hp]|(Hp & _ & Hp')]; [by split|].
      by split.
    + intros report e Hr He Hv. unfold note_token_refresh. rewrite Hr, bool_decide_eq_true_2, He by done. simpl.
      by rewrite bool_decide_eq_true_2.
Qed.

(** Silence redials a connection only for cause, and with cause: a poll that
    redials found the socket idle past 27 s, or live, inside the session and
    without data for 300 s (900 s on a depth-200 socket, never on an order-update
    socket), or for the kind's confirmed time with two live siblings, enough
    instruments and no overflow in the acting mode.  Conversely a live main-feed
    or depth-20 socket inside the session that has been silent for 300 s is
    redialled by the poll unless another socket of its kind holds the slot. *)
Theorem silence_redials_for_cause slot start ops inputs secs now :
    let s := snd (sup_run ops (new_supervisor slot start)) in
    length (spacing inputs) = 2%nat -> length (spacing_at_cas inputs) = 2%nat ->
    (redial_delay (action_of (fst (poll_with inputs secs now s))) <> None ->
       is_expired now (watchdog s) = true \/
       (cs_phase s = Live /\ is_open_at (frame_silence_gate s) secs = true /\ silence_cause inputs now s)) /\
    (cs_phase s = Live -> is_open_at (frame_silence_gate s) secs = true -> 300 <= silent_secs now s ->
       (slot_endpoint (cs_slot s) = MainFeed \/ slot_endpoint (cs_slot s) = Depth20) ->
       (forall k v, spacing_kind s = Some k -> spacing inputs !! k = Some v ->
          spacing_at_cas inputs !! k = Some v /\ (v = 0 \/ v + 15000 <= wall_ms inputs) /\ in_i64 (wall_ms inputs - v)) ->
       exists d, action_of (fst (poll_with inputs secs now s)) = SleepThenDial d).
Proof.
  cbv zeta. intros Hl1 Hl2. pose proof (wf_run ops _ (wf_new slot start)) as Hw.
  set (s := snd (sup_run ops (new_supervisor slot start))) in *. clearbody s. split.
  - intros Ha. destruct (poll_silence inputs secs now s Hw Hl1 Hl2) as [[H _]|[(H & _)|(_ & H1 & H2 & _ & _ & H3 & _)]]; auto.
  - intros Hlive Hopen Hsil Hend Hslot.
    assert (Hidle : exists d, action_of (on_event IdleElapsed now s) = SleepThenDial d).
    { unfold on_event, on_idle_elapsed. rewrite decide_False by congruence. rewrite Hlive. simpl. eauto. }
    unfold poll_with. rewrite Hlive. simpl. destruct (is_expired now (watchdog s)); [exact Hidle|].
    set (secs' := match frame_silence_gate s with ContinuousSessionIst => secs | _ => 0 end).
    set (co := confirmed_window_open_at _ secs'). pose proof (same_silence_gap co s) as K1.
    destruct (open_gap_window co s) as [calls s1]. simpl in K1.
    rewrite decide_False by (rewrite (k_phase _ _ (ss_keeps _ _ K1)); tauto).
    pose proof (same_silence_trans _ _ _ K1 (same_silence_strikes now s1)) as K2.
    set (s2 := reset_strikes now s1) in *. clearbody s2. destruct K2 as [K2 Ef Eg Ee Efp Eh].
    assert (Ho : is_open_at (frame_silence_gate s2) secs' = true)
      by (rewrite Eg; subst secs'; by destruct (frame_silence_gate s)).
    rewrite Ho. cbn [negb].
    assert (Hn : as_secs (frame_silent_for now s2) = silent_secs now s) by (unfold silent_secs, frame_silent_for; by rewrite Ef).
    rewrite Hn. assert (Hb : forall a b c d e f, silence_redial_basis (slot_endpoint (cs_slot s2)) (silent_secs now s) a b c d e f = Some Unconfirmed).
    { intros. rewrite (k_slot _ _ K2). unfold silence_redial_basis. by destruct Hend as [-> | ->];
        rewrite (proj2 (Z.leb_le FRAME_SILENCE_REDIAL_SECS (silent_secs now s)) Hsil). }
    rewrite Hb.
    assert (Hk : spacing_kind s2 = spacing_kind s) by (unfold spacing_kind; by rewrite Ee, (k_slot _ _ K2)).
    assert (Hclaim : exists wrote, claim_slot Unconfirmed (wall_ms inputs) (gather_evidence inputs (silent_secs now s) s2) s2 = (Some wrote, s2)).
    { destruct (spacing_kind s) as [k|] eqn:Esk.
      - assert (Hk2 : (k < 2)%nat) by (unfold spacing_kind in Esk; destruct (bool_decide _); [|done];
          destruct Hend as [E|E]; rewrite E in Esk; injection Esk as <-; lia).
        destruct (lookup_lt_is_Some_2 (spacing inputs) k ltac:(lia)) as [v Hv]. destruct (Hslot k v eq_refl Hv) as (Hcas & Hfree & Hint).
        rewrite (gather_read inputs _ s2 k v v) by auto. simpl. unfold claim_fallback_spacing. rewrite Z.eqb_refl.
        assert (((v =? 0) || (i64_saturating_mul CONFIRMED_REDIAL_SPACING_SECS 1000 <=? i64_saturating_sub (wall_ms inputs) v)
          || (i64_saturating_sub (wall_ms inputs) v <? - SIBLING_FUTURE_SKEW_MS)) = true) as ->; [|simpl; eauto].
        unfold i64_saturating_mul, i64_saturating_sub, clamp, CONFIRMED_REDIAL_SPACING_SECS, SIBLING_FUTURE_SKEW_MS.
        unfold in_i64, i64_min, i64_max in *. lia.
      - rewrite gather_unread by (left; congruence). simpl. eauto. }
    destruct Hclaim as [wrote ->]. simpl.
    unfold on_event. rewrite decide_False by (simpl; rewrite (k_phase _ _ K2), Hlive; done).
    unfold on_frame_silence_elapsed. cbv zeta. rewrite decide_True by (simpl; rewrite (k_phase _ _ K2); done). simpl. eauto.
Qed.

(** Two silence redials of main-feed sockets, or two of depth-20 sockets, are
    at least 15 s apart on the wall clock, whatever the interleaving of the polls
    of the pool and however stale what they loaded, unless the clock stepped back
    by more than 5 s between them. *)
Theorem silence_redials_are_spaced k steps conns :
    Forall sup_wf conns -> Forall sane_step steps ->
    Sorted (fun a b => a + 15000 <= b \/ b < a - 5000) (claims_of k steps (mkSpacedPool [0; 0] conns)).
Proof.
  intros Hc Hs. destruct (decide (k < 2)%nat) as [Hk|Hk].
  - apply (claims_spaced_from k steps _ 0); [by split|done|]. simpl. destruct k as [|[|]]; [done..|lia].
  - assert (Hnone : forall p, pool_wf p -> claims_of k steps p = []); [|rewrite Hnone; [constructor|by split]].
    clear Hc conns. induction Hs as [|[[i op] now] steps H1 Hs IH]; intros p Hp; [done|]. simpl.
    destruct (pool_step_claims i op now p Hp H1) as [Hp' Hcl].
    destruct (pool_step i op now p) as [[[k' w]|] p']; simpl in *; [|by apply IH].
    rewrite decide_False; [by apply IH|]. intros ->. destruct Hcl as (v & Hv & _). destruct Hp as [Hl _].
    apply lookup_lt_Some in Hv. lia.
Qed.

Lemma fast_redials_are_rare_witness :
    let ops := [(OpEvent BeginDial, 0)] in
    redial_delay (action_of (sup_apply (OpEvent DialFailed) 9 (snd (sup_run ops (new_supervisor Supervisor.first_slot 0))))) = Some 1000 /\
    (length (filter (fun t => (9 - FLAP_WINDOW_MS * NANOS_PER_MS <=? t)%Z = true)
       (flap_log ops (new_supervisor Supervisor.first_slot 0) [])) < 6)%nat.
Proof.
  intros ops. split; [vm_compute; reflexivity|].
  refine (fast_redials_are_rare Supervisor.first_slot 0 ops (OpEvent DialFailed) 9 1000 _ _ _);
    [repeat constructor; vm_compute; discriminate|vm_compute; reflexivity|vm_compute; reflexivity].
Defined.

(** A main-feed connection that went live at 0 and answered pings since. *)
Definition deaf_socket (slot : ConnectionSlot) : ConnectionSupervisor :=
  snd (sup_run [(OpEvidence EvidencePool, 0); (OpEvent BeginDial, 0); (OpEvent DialSucceeded, 0); (OpEvent SubscribeAcked, 0);
                (OpEvent KeepAliveReceived, 300 * NANOS_PER_SEC)] (new_supervisor slot 0)).
Definition quiet_inputs (wall : Z) : SilenceInputs := mkInputs wall false (replicate 32 0) [0; 0] [0; 0].

Lemma silence_redials_for_cause_witness :
    let ops := [(OpEvent BeginDial, 0); (OpEvent DialSucceeded, 0); (OpEvent SubscribeAcked, 0);
                (OpEvent KeepAliveReceived, 300 * NANOS_PER_SEC)] in
    exists d, action_of (fst (poll_with (quiet_inputs 1) 0 (301 * NANOS_PER_SEC)
                (snd (sup_run ops (new_supervisor Supervisor.first_slot 0))))) = SleepThenDial d.
Proof.
  intros ops.
  refine (proj2 (silence_redials_for_cause Supervisor.first_slot 0 ops (quiet_inputs 1) 0 (301 * NANOS_PER_SEC) eq_refl eq_refl) _ _ _ _ _);
    [reflexivity|reflexivity|vm_compute; discriminate|left; reflexivity|intros k v Hk; discriminate Hk].
Defined.

(** Two deaf sockets: the second is held off while the first one's stamp is fresh,
    and redialled 15 s later. *)
Definition deaf_steps : list (nat * sup_op * Z) :=
  [(0%nat, OpPoll (quiet_inputs 1000) 0, 301 * NANOS_PER_SEC); (1%nat, OpPoll (quiet_inputs 1001) 0, 301 * NANOS_PER_SEC);
   (1%nat, OpPoll (mkInputs 16000 false (replicate 32 0) [1000; 0] [0; 0]) 0, 316 * NANOS_PER_SEC)].

Lemma silence_redials_are_spaced_witness :
    let conns := [deaf_socket Supervisor.first_slot; deaf_socket (mkSlot PrimaryAccount MainFeed 1 1)] in
    claims_of 0 deaf_steps (mkSpacedPool [0; 0] conns) = [1000; 16000] /\
    Sorted (fun a b => a + 15000 <= b \/ b < a - 5000) (claims_of 0 deaf_steps (mkSpacedPool [0; 0] conns)).
Proof.
  intros conns. split; [vm_compute; reflexivity|].
  refine (silence_redials_are_spaced 0 deaf_steps conns _ _).
  - constructor; [apply wf_run, wf_new|]. constructor; [apply wf_run, wf_new|constructor].
  - repeat constructor.
Defined.

(** Three failed refreshes, then the fourth rejected login parks. *)
Definition rejected_cycle (t : Z) : list (sup_op * Z) :=
  [(OpEvent BeginDial, t); (OpEvent (Disconnected (Some AuthenticationFailed)), t + 1);
   (OpTokenRefresh (mkReport 7 RefreshFailed), t + 2)].

Lemma rejected_logins_end_witness :
    let pre := rejected_cycle 0 ++ rejected_cycle 10 ++ rejected_cycle 20 in
    let s := snd (sup_run pre (new_supervisor Supervisor.first_slot 0)) in
    let s2 := snd (sup_run [(OpEvent BeginDial, 40)] s) in
    let op := OpEvent (Disconnected (Some AuthenticationFailed)) in
    (cs_phase s2 <> Parked -> action_of (sup_apply op 41 s2) = Park FatalDisconnect) /\
    cs_phase (next_of (sup_apply op 41 s2)) = Parked.
Proof.
  intros pre s. destruct (rejected_logins_end Supervisor.first_slot 0 pre 30) as (H1 & _ & H3 & _).
  refine (H3 s _ (H1 _ _ _ _ _) [(OpEvent BeginDial, 40)] _ 41 _ _ _).
  - apply wf_run, wf_new.
  - vm_compute. reflexivity.
  - vm_compute. discriminate.
  - vm_compute. reflexivity.
  - vm_compute. discriminate.
  - repeat constructor; vm_compute; discriminate.
  - vm_compute. discriminate.
  - reflexivity.
Defined.
End Timing.
