(* ===== verification/SubscribeGuard.v ===== *)
(** The subscription set of one connection
    ([core/src/websocket/pool_supervisor.rs], [SubscribeGuard]): the set that is
    replayed on every connect, its batches, and the changes made to it while a
    socket is up.  A set keyed on [(security_id, segment)] is a list of those
    pairs, looked up by membership; metrics and log lines are left out. *)
From coqutil Require Import Datatypes.RecordSettersUsingExistingGetters.
From S2P Require Import Prelude Bytes FeedTypes OrderTypes ConnectionBudget.
Local Open Scope Z_scope.

(** * Data *)

Record SubscribeInstrument : Type := mkInstrument {
  si_security_id : Z;
  si_segment : ExchangeSegment }.

#[global] Instance subscribe_instrument_eq_dec : EqDecision SubscribeInstrument.
Proof. solve_decision. Defined.

Inductive SubscribeGuardRefusal : Type :=
  | TooManyInstruments (endpoint : DhanEndpointType) (requested max : Z)
  | NotSubscribed (endpoint : DhanEndpointType)
  | AlreadySubscribed (endpoint : DhanEndpointType).

Record SubscribeGuard : Type := mkGuard {
  g_endpoint : DhanEndpointType;
  instruments : list SubscribeInstrument;
  generation : Z;
  confirmed : bool }.

(** The wire work of a many-for-many change and of a one-for-one change. *)
Record ResubscribePlan : Type := mkPlan {
  removed : list SubscribeInstrument;
  subscribe_from : nat }.

Record SubscribeSwap : Type := mkSwap {
  swap_unsubscribe : option SubscribeInstrument;
  swap_subscribe : option SubscribeInstrument }.

Definition NO_OP : SubscribeSwap := mkSwap None None.

Definition swap_is_no_op (w : SubscribeSwap) : bool :=
  bool_decide (swap_unsubscribe w = None) && bool_decide (swap_subscribe w = None).

Definition plan_is_no_op (p : ResubscribePlan) (guard_len : nat) : bool :=
  bool_decide (removed p = []) && (guard_len <=? subscribe_from p)%nat.

(** * Operations *)

(** The instruments of [incoming] that are new to [seen] and to one another, in order. *)
Fixpoint drop_duplicates (seen incoming : list SubscribeInstrument) : list SubscribeInstrument :=
  match incoming with
  | [] => []
  | i :: rest =>
      if decide (i ∈ seen) then drop_duplicates seen rest
      else i :: drop_duplicates (i :: seen) rest
  end.

Definition try_new (e : DhanEndpointType) (ins : list SubscribeInstrument)
    : res SubscribeGuardRefusal SubscribeGuard :=
  let ins := drop_duplicates [] ins in
  let max := max_instruments_per_connection e in
  let requested := zlen ins in
  if max <? requested then Err (TooManyInstruments e requested max) else Ok (mkGuard e ins 0 false).

Definition guard_len (g : SubscribeGuard) : nat := length (instruments g).
Definition guard_is_empty (g : SubscribeGuard) : bool := (guard_len g =? 0)%nat.
Definition holds (i : SubscribeInstrument) (g : SubscribeGuard) : bool := bool_decide (i ∈ instruments g).
Definition first (g : SubscribeGuard) : option SubscribeInstrument := head (instruments g).
Definition is_confirmed (g : SubscribeGuard) : bool := confirmed g.
Definition needs_resubscribe (g : SubscribeGuard) : bool := negb (confirmed g).

(** [slice::chunks]: pieces of [n], the last one shorter; a zero [n] panics in
    Rust and never reaches here, see [per_message]. *)
Fixpoint chunks_fuel (fuel n : nat) (l : list SubscribeInstrument) : list (list SubscribeInstrument) :=
  match fuel, l with
  | S fuel, _ :: _ => take n l :: chunks_fuel fuel n (drop n l)
  | _, _ => []
  end.
Definition chunks (n : nat) (l : list SubscribeInstrument) : list (list SubscribeInstrument) :=
  chunks_fuel (length l) n l.

Definition per_message (g : SubscribeGuard) : nat :=
  Nat.max (Z.to_nat (max_instruments_per_subscribe_message (g_endpoint g))) 1.

Definition batches (g : SubscribeGuard) : list (list SubscribeInstrument) :=
  chunks (per_message g) (instruments g).
Definition batch_count (g : SubscribeGuard) : nat := length (batches g).

(** [get(start..)] past the end is no slice, and there is nothing to send. *)
Definition batches_from (start : nat) (g : SubscribeGuard) : list (list SubscribeInstrument) :=
  chunks (per_message g) (if (start <=? guard_len g)%nat then drop start (instruments g) else []).

Definition try_extend (more : list SubscribeInstrument) (g : SubscribeGuard)
    : res SubscribeGuardRefusal nat * SubscribeGuard :=
  if decide (more = []) then (Ok (guard_len g), g) else
  let more := drop_duplicates (instruments g) more in
  if decide (more = []) then (Ok (guard_len g), g) else
  let max := max_instruments_per_connection (g_endpoint g) in
  let combined := u64_saturating_add (zlen (instruments g)) (zlen more) in
  if max <? combined then (Err (TooManyInstruments (g_endpoint g) combined max), g)
  else (Ok (guard_len g), { g with instruments ::= fun ins => ins ++ more }).

Definition truncate_to (len : nat) (g : SubscribeGuard) : SubscribeGuard :=
  if (len <? guard_len g)%nat then { g with instruments ::= take len } else g.

Definition take_from (len : nat) (g : SubscribeGuard) : list SubscribeInstrument * SubscribeGuard :=
  let at_ := Nat.min len (guard_len g) in
  (drop at_ (instruments g), { g with instruments ::= take at_ }).

Definition spare_capacity (g : SubscribeGuard) : Z :=
  u64_saturating_sub (max_instruments_per_connection (g_endpoint g)) (zlen (instruments g)).

Definition mark_confirmed (g : SubscribeGuard) : SubscribeGuard :=
  { g with confirmed := true; generation ::= fun n => u64_saturating_add n 1 }.
Definition mark_lost (g : SubscribeGuard) : SubscribeGuard := { g with confirmed := false }.

(** [iter().position]. *)
Fixpoint position (i : SubscribeInstrument) (l : list SubscribeInstrument) : option nat :=
  match l with
  | [] => None
  | j :: rest => if decide (j = i) then Some 0%nat else S <$> position i rest
  end.

Definition try_swap (old new : SubscribeInstrument) (g : SubscribeGuard)
    : res SubscribeGuardRefusal SubscribeSwap * SubscribeGuard :=
  match position old (instruments g) with
  | None => (Err (NotSubscribed (g_endpoint g)), g)
  | Some at_ =>
      if decide (old = new) then (Ok NO_OP, g)
      else if decide (new ∈ instruments g) then (Err (AlreadySubscribed (g_endpoint g)), g)
      else (Ok (mkSwap (Some old) (Some new)), { g with instruments ::= <[at_ := new]> })
  end.

Definition undo_swap (new old : SubscribeInstrument) (g : SubscribeGuard) : bool * SubscribeGuard :=
  if decide (new = old \/ old ∈ instruments g) then (false, g)
  else match position new (instruments g) with
       | Some at_ => (true, { g with instruments ::= <[at_ := old]> })
       | None => (false, g)
       end.

(** The loop over the instruments to drop: [None] when one is not held. *)
Fixpoint plan_removals (held staying acc unsub : list SubscribeInstrument)
    : option (list SubscribeInstrument) :=
  match unsub with
  | [] => Some acc
  | i :: rest =>
      if decide (i ∈ held) then
        if decide (i ∈ staying) then plan_removals held staying acc rest
        else plan_removals held staying (if decide (i ∈ acc) then acc else acc ++ [i]) rest
      else None
  end.

Definition try_resubscribe (unsub sub : list SubscribeInstrument) (g : SubscribeGuard)
    : res SubscribeGuardRefusal ResubscribePlan * SubscribeGuard :=
  match plan_removals (instruments g) sub [] unsub with
  | None => (Err (NotSubscribed (g_endpoint g)), g)
  | Some gone =>
      let kept := filter (fun i => i ∉ gone) (instruments g) in
      let adds := drop_duplicates kept sub in
      let max := max_instruments_per_connection (g_endpoint g) in
      let after := u64_saturating_add (zlen kept) (zlen adds) in
      if max <? after then (Err (TooManyInstruments (g_endpoint g) after max), g)
      else (Ok (mkPlan gone (length kept)), { g with instruments := kept ++ adds })
  end.

Definition put_back (ins : list SubscribeInstrument) (g : SubscribeGuard) : SubscribeGuard :=
  { g with instruments ::=
      fun held => foldl (fun held i => if decide (i ∈ held) then held else held ++ [i]) held ins }.

(** * Lists of instruments *)

Section lists.
Implicit Types (i : SubscribeInstrument) (l seen held : list SubscribeInstrument).

Lemma elem_of_drop_duplicates i seen l : i ∈ drop_duplicates seen l <-> i ∈ l /\ i ∉ seen.
Proof.
  revert seen. induction l as [|j l IH]; intros seen; cbn; [set_solver|].
  destruct (decide (j ∈ seen)); [rewrite IH; set_solver|].
  rewrite !elem_of_cons, IH, not_elem_of_cons. destruct (decide (i = j)) as [->|]; tauto.
Qed.

Lemma NoDup_drop_duplicates seen l : NoDup (drop_duplicates seen l).
Proof.
  revert seen. induction l as [|j l IH]; intros seen; cbn; [constructor|].
  destruct (decide (j ∈ seen)); [apply IH|]. constructor; [|apply IH].
  rewrite elem_of_drop_duplicates. set_solver.
Qed.

Lemma drop_duplicates_id seen l :
    NoDup l -> (forall i, i ∈ l -> i ∉ seen) -> drop_duplicates seen l = l.
Proof.
  revert seen. induction l as [|j l IH]; intros seen Hl Hs; cbn; [done|].
  apply NoDup_cons in Hl as [Hj Hl].
  rewrite decide_False by (apply Hs; left). f_equal. apply IH; [done|].
  intros i Hi. apply not_elem_of_cons. split; [by intros ->|]. apply Hs. by right.
Qed.

Lemma chunks_fuel_cover fuel n l :
    (0 < n)%nat -> (length l <= fuel)%nat ->
    concat (chunks_fuel fuel n l) = l /\
    Forall (fun b => 0 < length b <= n)%nat (chunks_fuel fuel n l).
Proof.
  intros Hn. revert l. induction fuel as [|fuel IH]; intros [|i l] Hl; cbn in Hl; try (by cbn); [lia|].
  destruct (IH (drop n (i :: l))) as [E F]; [rewrite length_drop; cbn; lia|].
  change (chunks_fuel (S fuel) n (i :: l)) with (take n (i :: l) :: chunks_fuel fuel n (drop n (i :: l))).
  split.
  - cbn [concat]. by rewrite E, take_drop.
  - constructor; [|done]. rewrite length_take. cbn. lia.
Qed.

Lemma chunks_cover n l :
    (0 < n)%nat -> concat (chunks n l) = l /\ Forall (fun b => 0 < length b <= n)%nat (chunks n l).
Proof. intros Hn. by apply chunks_fuel_cover. Qed.

Lemma position_Some i l k : position i l = Some k -> l !! k = Some i.
Proof.
  revert k. induction l as [|j l IH]; intros k; cbn; [done|].
  destruct (decide (j = i)) as [->|]; [by intros [= <-]|].
  intros (k' & Hk & ->)%fmap_Some. by apply IH.
Qed.

Lemma position_None i l : position i l = None <-> i ∉ l.
Proof.
  induction l as [|j l IH]; cbn; [set_solver|].
  destruct (decide (j = i)) as [->|]; [set_solver|].
  rewrite fmap_None, IH, not_elem_of_cons. set_solver.
Qed.

Lemma position_is_Some i l : i ∈ l -> exists k, position i l = Some k.
Proof.
  intros Hi. destruct (position i l) as [k|] eqn:E; [by exists k|].
  by apply position_None in E.
Qed.

(** Replacing one instrument by a new one. *)
Lemma replace_perm l k old new :
    l !! k = Some old -> exists rest, l ≡ₚ old :: rest /\ <[k := new]> l ≡ₚ new :: rest.
Proof.
  intros Hk. exists (take k l ++ drop (S k) l). split.
  - rewrite <- (take_drop_middle l k old) at 1 by done. by rewrite Permutation_middle.
  - rewrite insert_take_drop by (by apply lookup_lt_Some in Hk). by rewrite Permutation_middle.
Qed.

(** What the loop over the removals plans. *)
Lemma plan_removals_acc held sub acc unsub gone :
    NoDup acc -> (forall i, i ∈ acc -> i ∈ held /\ i ∉ sub) ->
    plan_removals held sub acc unsub = Some gone ->
    NoDup gone /\ (forall i, i ∈ unsub -> i ∈ held) /\
    forall i, i ∈ gone <-> i ∈ acc \/ (i ∈ unsub /\ i ∉ sub).
Proof.
  revert acc. induction unsub as [|j unsub IH]; intros acc Hn Ha; cbn.
  { intros [= <-]. set_solver. }
  destruct (decide (j ∈ held)) as [Hj|]; [|done].
  destruct (decide (j ∈ sub)) as [Hs|Hs].
  { intros H. destruct (IH _ Hn Ha H) as (N & H1 & H2). split_and!; [done|set_solver|].
    intros i. rewrite H2. destruct (decide (i = j)) as [->|]; set_solver. }
  destruct (decide (j ∈ acc)) as [Hc|Hc]; intros H.
  { destruct (IH _ Hn Ha H) as (N & H1 & H2). split_and!; [done|set_solver|].
    intros i. rewrite H2. destruct (decide (i = j)) as [->|]; set_solver. }
  destruct (IH (acc ++ [j])) as (N & H1 & H2); try done.
  - apply NoDup_app. split_and!; [done|set_solver|apply NoDup_singleton].
  - set_solver.
  - split_and!; [done|set_solver|]. intros i. rewrite H2. set_solver.
Qed.

Lemma plan_removals_Some held sub unsub gone :
    plan_removals held sub [] unsub = Some gone ->
    NoDup gone /\ (forall i, i ∈ unsub -> i ∈ held) /\ forall i, i ∈ gone <-> i ∈ unsub /\ i ∉ sub.
Proof.
  intros H. apply plan_removals_acc in H as (N & A & B); [|constructor|by intros i ?%elem_of_nil].
  split_and!; [done..|]. intros i. rewrite B, elem_of_nil. tauto.
Qed.

Lemma plan_removals_None held sub acc unsub :
    plan_removals held sub acc unsub = None <-> exists i, i ∈ unsub /\ i ∉ held.
Proof.
  revert acc. induction unsub as [|j unsub IH]; intros acc; cbn; [set_solver|].
  destruct (decide (j ∈ held)); [|split; [exists j; set_solver|done]].
  destruct (decide (j ∈ sub)); rewrite IH; set_solver.
Qed.

(** Putting instruments back adds those that are missing, once each. *)
Lemma put_back_list held l :
    NoDup held ->
    let out := foldl (fun held i => if decide (i ∈ held) then held else held ++ [i]) held l in
    NoDup out /\ forall i, i ∈ out <-> i ∈ held \/ i ∈ l.
Proof.
  revert held. induction l as [|j l IH]; intros held Hn; cbn; [set_solver|].
  destruct (decide (j ∈ held)) as [Hj|Hj].
  - destruct (IH held Hn) as [N E]. split; [done|]. intros i. rewrite E. set_solver.
  - destruct (IH (held ++ [j])) as [N E].
    { apply NoDup_app. split_and!; [done|set_solver|apply NoDup_singleton]. }
    split; [done|]. intros i. rewrite E. set_solver.
Qed.
End lists.

Lemma per_message_pos g : (0 < per_message g)%nat.
Proof. unfold per_message. lia. Qed.

(** * Well-formedness *)

(** No instrument twice, and no more of them than one connection may hold. *)
Definition guard_wf (g : SubscribeGuard) : Prop :=
  NoDup (instruments g) /\ zlen (instruments g) <= max_instruments_per_connection (g_endpoint g).

Lemma capped_add_le a b max : 0 <= a -> 0 <= b -> max < u64_max ->
    u64_saturating_add a b <= max -> a + b <= max.
Proof. zints. Qed.

Lemma connection_cap_small e : 0 <= max_instruments_per_connection e < u64_max.
Proof. destruct e; done. Qed.

#[export] Hint Resolve zlen_nonneg : tickdb.

Lemma try_new_wf e ins g : try_new e ins = Ok g -> guard_wf g /\ g_endpoint g = e.
Proof.
  unfold try_new. zcases; intros [= <-]. split; [|done]. split; cbn; [apply NoDup_drop_duplicates|done].
Qed.

Lemma take_wf n g g' :
    guard_wf g -> instruments g' = take n (instruments g) -> g_endpoint g' = g_endpoint g -> guard_wf g'.
Proof.
  intros [Hn Hc] E1 E2. unfold guard_wf. rewrite E1, E2. split.
  - eapply sublist_NoDup; [done|apply sublist_take].
  - revert Hc. unfold zlen. rewrite length_take. lia.
Qed.

Lemma truncate_to_wf n g : guard_wf g -> guard_wf (truncate_to n g).
Proof. intros H. unfold truncate_to. destruct (_ <? _)%nat; [|done]. by eapply (take_wf n g). Qed.

Lemma take_from_wf n g : guard_wf g -> guard_wf (take_from n g).2.
Proof. intros H. by eapply (take_wf _ g). Qed.

(** A top-up on every branch. *)
Lemma try_extend_cases more g :
    guard_wf g ->
    let adds := drop_duplicates (instruments g) more in
    (exists r, try_extend more g = (Err r, g) /\
       max_instruments_per_connection (g_endpoint g) < zlen (instruments g ++ adds)) \/
    (exists g', try_extend more g = (Ok (guard_len g), g') /\
       instruments g' = instruments g ++ adds /\ g_endpoint g' = g_endpoint g /\
       generation g' = generation g /\ confirmed g' = confirmed g /\ guard_wf g').
Proof.
  intros [Hn Hc] adds. unfold try_extend.
  assert (Hskip : adds = [] -> exists g', (Ok (guard_len g), g) = (Ok (E := SubscribeGuardRefusal) (guard_len g), g') /\
       instruments g' = instruments g ++ adds /\ g_endpoint g' = g_endpoint g /\
       generation g' = generation g /\ confirmed g' = confirmed g /\ guard_wf g').
  { intros E. exists g. rewrite E, app_nil_r. done. }
  destruct (decide (more = [])) as [->|_]; [right; by apply Hskip|].
  fold adds. destruct (decide (adds = [])) as [E|_]; [right; by apply Hskip|].
  destruct (Z.ltb_spec (max_instruments_per_connection (g_endpoint g))
              (u64_saturating_add (zlen (instruments g)) (zlen adds))) as [L|L].
  - left. eexists. split; [reflexivity|]. rewrite zlen_app.
    pose proof (zlen_nonneg (instruments g)). pose proof (zlen_nonneg adds). zints.
  - right. eexists. split; [reflexivity|]. cbn. split_and!; try done.
    split; cbn.
    + apply NoDup_app. split_and!; [done| |apply NoDup_drop_duplicates].
      intros i Hi. unfold adds. rewrite elem_of_drop_duplicates. tauto.
    + rewrite zlen_app. apply capped_add_le; auto with tickdb; apply connection_cap_small.
Qed.

(** A one-for-one change on every branch. *)
Lemma try_swap_cases old new g :
    guard_wf g ->
    (try_swap old new g = (Err (NotSubscribed (g_endpoint g)), g) /\ old ∉ instruments g) \/
    (try_swap old new g = (Ok NO_OP, g) /\ old = new /\ old ∈ instruments g) \/
    (try_swap old new g = (Err (AlreadySubscribed (g_endpoint g)), g) /\
       old <> new /\ old ∈ instruments g /\ new ∈ instruments g) \/
    (exists k g', try_swap old new g = (Ok (mkSwap (Some old) (Some new)), g') /\
       position old (instruments g) = Some k /\ old <> new /\ new ∉ instruments g /\
       instruments g' = <[k := new]> (instruments g) /\ g_endpoint g' = g_endpoint g /\
       generation g' = generation g /\ confirmed g' = confirmed g /\ guard_wf g').
Proof.
  intros [Hn Hc]. unfold try_swap. destruct (position old (instruments g)) as [k|] eqn:E.
  2:{ left. split; [done|]. by apply position_None. }
  pose proof (position_Some _ _ _ E) as Hk. pose proof (list_elem_of_lookup_2 _ _ _ Hk) as Ho.
  destruct (decide (old = new)) as [->|Ne]; [right; by left|].
  destruct (decide (new ∈ instruments g)) as [Hi|Hi]; [do 2 right; by left|].
  do 3 right. exists k. eexists. split; [reflexivity|]. cbn. split_and!; try done. split; cbn.
  - destruct (replace_perm _ _ _ new Hk) as (rest & P & Q). rewrite Q. rewrite P in Hn, Hi.
    apply NoDup_cons in Hn as [_ Hn]. apply NoDup_cons. split; [|done].
    intros H. apply Hi. by right.
  - unfold zlen in *. by rewrite length_insert.
Qed.

Lemma undo_swap_wf new old g : guard_wf g -> guard_wf (undo_swap new old g).2.
Proof.
  intros [Hn Hc]. unfold undo_swap. destruct (decide _) as [|Ne]; [done|].
  destruct (position new (instruments g)) as [k|] eqn:E; [|done].
  apply position_Some in E. split; cbn; [|unfold zlen in *; by rewrite length_insert].
  destruct (replace_perm _ _ _ old E) as (rest & P & Q). rewrite Q. rewrite P in Hn, Ne.
  apply NoDup_cons in Hn as [_ Hn]. apply NoDup_cons. split; [|done].
  intros H. apply Ne. right. by right.
Qed.

(** A many-for-many change on every branch. *)
Lemma try_resubscribe_cases unsub sub g :
    guard_wf g ->
    (try_resubscribe unsub sub g = (Err (NotSubscribed (g_endpoint g)), g) /\
       exists i, i ∈ unsub /\ i ∉ instruments g) \/
    (exists gone kept adds,
       NoDup gone /\ (forall i, i ∈ unsub -> i ∈ instruments g) /\
       (forall i, i ∈ gone <-> i ∈ unsub /\ i ∉ sub) /\
       kept = filter (fun i => i ∉ gone) (instruments g) /\ adds = drop_duplicates kept sub /\
       instruments g ≡ₚ kept ++ gone /\ NoDup (kept ++ adds) /\
       ((exists r, try_resubscribe unsub sub g = (Err r, g) /\ (forall e, r <> NotSubscribed e) /\
           max_instruments_per_connection (g_endpoint g) < zlen (kept ++ adds)) \/
        (exists g', try_resubscribe unsub sub g = (Ok (mkPlan gone (length kept)), g') /\
           instruments g' = kept ++ adds /\ g_endpoint g' = g_endpoint g /\
           generation g' = generation g /\ confirmed g' = confirmed g /\ guard_wf g'))).
Proof.
  intros [Hn Hc]. unfold try_resubscribe.
  destruct (plan_removals (instruments g) sub [] unsub) as [gone|] eqn:E.
  2:{ left. split; [done|]. by apply plan_removals_None in E. }
  apply plan_removals_Some in E as (Ng & Hu & Hg). right.
  exists gone, (filter (fun i => i ∉ gone) (instruments g)),
    (drop_duplicates (filter (fun i => i ∉ gone) (instruments g)) sub).
  set (kept := filter _ _). set (adds := drop_duplicates kept sub).
  assert (Nk : NoDup kept) by by apply NoDup_filter.
  assert (Na : NoDup (kept ++ adds)).
  { apply NoDup_app. split_and!; [done| |apply NoDup_drop_duplicates].
    intros i Hi. unfold adds. rewrite elem_of_drop_duplicates. tauto. }
  split_and!; try done.
  { apply NoDup_Permutation; [done| |].
    - apply NoDup_app. split_and!; [done| |done]. intros i. unfold kept. rewrite list_elem_of_filter. tauto.
    - intros i. rewrite elem_of_app. unfold kept. rewrite list_elem_of_filter.
      destruct (decide (i ∈ gone)) as [H|H]; [|tauto]. apply Hg in H as H'. naive_solver. }
  destruct (Z.ltb_spec (max_instruments_per_connection (g_endpoint g))
              (u64_saturating_add (zlen kept) (zlen adds))) as [L|L].
  - left. eexists. split; [reflexivity|]. split; [done|]. rewrite zlen_app.
    pose proof (zlen_nonneg kept). pose proof (zlen_nonneg adds). zints.
  - right. eexists. split; [reflexivity|]. cbn. split_and!; try done. split; cbn; [done|].
    change (zlen (kept ++ adds) <= max_instruments_per_connection (g_endpoint g)). rewrite zlen_app. apply capped_add_le; auto with tickdb; apply connection_cap_small.
Qed.

(** * Properties *)

Inductive GuardOp : Type :=
  | OpExtend (more : list SubscribeInstrument)
  | OpTruncate (len : nat)
  | OpTakeFrom (len : nat)
  | OpConfirmed
  | OpLost
  | OpSwap (old new : SubscribeInstrument)
  | OpUndoSwap (new old : SubscribeInstrument)
  | OpResubscribe (unsub sub : list SubscribeInstrument).

Definition guard_op (op : GuardOp) (g : SubscribeGuard) : SubscribeGuard :=
  match op with
  | OpExtend more => (try_extend more g).2
  | OpTruncate len => truncate_to len g
  | OpTakeFrom len => (take_from len g).2
  | OpConfirmed => mark_confirmed g
  | OpLost => mark_lost g
  | OpSwap old new => (try_swap old new g).2
  | OpUndoSwap new old => (undo_swap new old g).2
  | OpResubscribe unsub sub => (try_resubscribe unsub sub g).2
  end.

Lemma guard_op_wf op g : guard_wf g -> guard_wf (guard_op op g) /\ g_endpoint (guard_op op g) = g_endpoint g.
Proof.
  intros H. destruct op as [more|len|len| | |old new|new old|u s]; cbn [guard_op].
  - destruct (try_extend_cases more g H) as [(r & -> & _)|(g' & -> & _ & He & _ & _ & Hw)]; done.
  - split; [by apply truncate_to_wf|]. unfold truncate_to. by destruct (_ <? _)%nat.
  - split; [by apply take_from_wf|done].
  - done.
  - done.
  - destruct (try_swap_cases old new g H)
      as [(-> & _)|[(-> & _)|[(-> & _)|(k & g' & -> & _ & _ & _ & _ & He & _ & _ & Hw)]]]; done.
  - split; [by apply undo_swap_wf|]. unfold undo_swap.
    destruct (decide _); [done|]. by destruct (position _ _).
  - destruct (try_resubscribe_cases u s g H)
      as [(-> & _)|(?&?&?&_&_&_&_&_&_&_&[(r & -> & _)|(g' & -> & _ & He & _ & _ & Hw)])]; done.
Qed.

(** A set built by [try_new] and changed by any operations. *)
Lemma guard_ops_wf e ins g ops :
    try_new e ins = Ok g -> guard_wf (foldr guard_op g ops) /\ g_endpoint (foldr guard_op g ops) = e.
Proof.
  intros Hnew. induction ops as [|op ops [IHw IHe]]; [by eapply try_new_wf|]. cbn.
  destruct (guard_op_wf op _ IHw) as [W E]. split; [done|congruence].
Qed.

#[export] Instance zlen_proper {A} : Proper (Permutation ==> eq) (@zlen A).
Proof. intros l k H. unfold zlen. by rewrite H. Qed.

Lemma insert_back_id (l : list SubscribeInstrument) k old new :
    l !! k = Some old -> <[k := old]> (<[k := new]> l) = l.
Proof. intros H. rewrite list_insert_insert_eq. by apply list_insert_id. Qed.

(** A swap is undone to exactly the set it started from. *)
Lemma undo_after_swap old new g g' k :
    guard_wf g -> position old (instruments g) = Some k -> old <> new -> new ∉ instruments g ->
    instruments g' = <[k := new]> (instruments g) ->
    exists g2, undo_swap new old g' = (true, g2) /\ instruments g2 = instruments g /\ g_endpoint g2 = g_endpoint g'.
Proof.
  intros [Hn _] Hk Ne Hi Hl. apply position_Some in Hk as Hk'.
  destruct (replace_perm _ _ _ new Hk') as (rest & P & Q).
  unfold undo_swap. rewrite Hl. rewrite decide_False.
  2:{ intros [->|Ho]; [done|]. rewrite Q in Ho. rewrite P in Hn. apply NoDup_cons in Hn as [Hn _]. set_solver. }
  assert (Hp : position new (<[k := new]> (instruments g)) = Some k).
  { destruct (position_is_Some new (<[k := new]> (instruments g))) as [k' Hk2].
    { apply list_elem_of_insert. by apply lookup_lt_Some in Hk'. }
    rewrite Hk2. f_equal. apply position_Some in Hk2.
    destruct (decide (k' = k)) as [|Nk]; [done|].
    rewrite list_lookup_insert_ne in Hk2 by done. by apply list_elem_of_lookup_2 in Hk2. }
  rewrite Hp. eexists. split; [reflexivity|]. split; [|done]. cbn. rewrite Hl. by apply insert_back_id.
Qed.

Module Guards.

(** Whatever happens to a connection's set after it was accepted, it never
    names an instrument twice or more than the connection's cap, and its messages
    are non-empty, within the feed's length and together name exactly the set. *)
Theorem sets_fit_the_connection e ins g ops :
    try_new e ins = Ok g ->
    let g' := foldr guard_op g ops in
    NoDup (instruments g') /\ zlen (instruments g') <= max_instruments_per_connection e /\
    concat (batches g') = instruments g' /\
    Forall (fun b => 0 < length b <= per_message g')%nat (batches g').
Proof.
  intros Hnew g'. destruct (guard_ops_wf _ _ _ ops Hnew) as [[Hn Hc] E]. rewrite E in Hc.
  split; [done|]. split; [done|]. apply chunks_cover, per_message_pos.
Qed.

(** A swap that changed the set is undone exactly: undoing it gives back the
    very set before it. *)
Theorem undo_restores_the_set e ins g ops old new w g1 g2 :
    try_new e ins = Ok g -> g1 = foldr guard_op g ops ->
    try_swap old new g1 = (Ok w, g2) -> w <> NO_OP ->
    w = mkSwap (Some old) (Some new) /\ new ∈ instruments g2 /\ old ∉ instruments g2 /\
    undo_swap new old g2 = (true, g1).
Proof.
  intros Hnew -> Hs Hw. destruct (guard_ops_wf _ _ _ ops Hnew) as [H _].
  revert H Hs. generalize (foldr guard_op g ops) as h. clear Hnew g. intros h H Hs.
  pose proof H as [Hn Hc].
  destruct (try_swap_cases old new h H)
    as [(E & _)|[(E & _)|[(E & _)|(k & g' & E & Hk & Ne & Hi & Hl & He & Hgen & Hcf & _)]]];
    rewrite E in Hs; [naive_solver..|].
  injection Hs as <- <-. destruct (undo_after_swap old new h g' k H Hk Ne Hi Hl) as (g2 & Hu & Hl2 & He2).
  apply position_Some in Hk as Hk'. destruct (replace_perm _ _ _ new Hk') as (rest & P & Q).
  split_and!; [done|rewrite Hl, Q; by left| |].
  - rewrite Hl, Q. rewrite P in Hn. apply NoDup_cons in Hn as [Hn _]. set_solver.
  - rewrite Hu. f_equal. unfold undo_swap in Hu. destruct (decide _) in Hu; [done|].
    destruct (position new (instruments g')) as [k2|]; [|done]. injection Hu as <-.
    destruct h as [he hi hg hc], g' as [ge gi gg gc]. cbn in Hl, He, Hgen, Hcf, Hl2. subst gi ge gg gc.
    change (mkGuard he (<[k2 := old]> (<[k := new]> hi)) hg hc = mkGuard he hi hg hc).
    change (<[k2 := old]> (<[k := new]> hi) = hi) in Hl2. by rewrite Hl2.
Qed.

(** A many-for-many change makes the set what was held and not removed, with
    what was added, tells exactly what to unsubscribe and what to subscribe, and
    is refused only for an instrument not held or when the result is over the cap;
    a refusal changes nothing. *)
Theorem resubscribe_is_exact e ins g ops unsub sub r g' :
    try_new e ins = Ok g ->
    let g0 := foldr guard_op g ops in
    try_resubscribe unsub sub g0 = (r, g') ->
    match r with
    | Ok p =>
        (forall i, i ∈ instruments g' <-> (i ∈ instruments g0 /\ i ∉ unsub) \/ i ∈ sub) /\
        (forall i, i ∈ removed p <-> i ∈ instruments g0 /\ i ∉ instruments g') /\
        (forall i, i ∈ drop (subscribe_from p) (instruments g') <-> i ∉ instruments g0 /\ i ∈ instruments g')
    | Err (NotSubscribed _) => g' = g0 /\ exists i, i ∈ unsub /\ i ∉ instruments g0
    | Err _ =>
        g' = g0 /\ forall l, NoDup l ->
          (forall i, i ∈ l <-> (i ∈ instruments g0 /\ i ∉ unsub) \/ i ∈ sub) ->
          max_instruments_per_connection e < zlen l
    | Panic => False
    end.
Proof.
  intros Hnew g0 Hr. destruct (guard_ops_wf _ _ _ ops Hnew) as [Hw He]. fold g0 in Hw, He.
  revert Hr Hw He. generalize g0 as h. clear. intros h Hr Hw <-.
  destruct (try_resubscribe_cases unsub sub h Hw)
    as [(E & Hx)|(gone & kept & adds & Ng & Hu & Hgone & -> & -> & P & Na & Hcase)].
  { rewrite E in Hr. injection Hr as <- <-. done. }
  set (kept := filter (fun i => i ∉ gone) (instruments h)) in *.
  assert (Hk : forall i, i ∈ kept <-> i ∈ instruments h /\ i ∉ gone).
  { intros i. unfold kept. rewrite list_elem_of_filter. tauto. }
  assert (Hset : forall i, i ∈ kept ++ drop_duplicates kept sub <->
                           (i ∈ instruments h /\ i ∉ unsub) \/ i ∈ sub).
  { intros i. rewrite elem_of_app, elem_of_drop_duplicates, Hk, Hgone.
    destruct (decide (i ∈ sub)), (decide (i ∈ unsub)), (decide (i ∈ instruments h)); naive_solver. }
  destruct Hcase as [(rf & E & Hrf & Hcap)|(h' & E & Hl & _ & _ & _ & Hw')]; rewrite E in Hr;
    injection Hr as <- <-.
  - assert (Hgoal : forall l, NoDup l ->
        (forall i, i ∈ l <-> (i ∈ instruments h /\ i ∉ unsub) \/ i ∈ sub) ->
        max_instruments_per_connection (g_endpoint h) < zlen l).
    { intros l Hl Hs. replace (zlen l) with (zlen (kept ++ drop_duplicates kept sub)); [done|].
      unfold zlen. f_equal. apply Permutation_length, NoDup_Permutation; [done..|].
      intros i. by rewrite Hset, Hs. }
    destruct rf; [done|by edestruct Hrf|done].
  - cbn. rewrite Hl, drop_app_length. split_and!; [done| |].
    + intros i. rewrite Hset, Hgone.
      specialize (Hu i). destruct (decide (i ∈ sub)), (decide (i ∈ unsub)); naive_solver.
    + intros i. rewrite Hset, elem_of_drop_duplicates, Hk, Hgone.
      destruct (decide (i ∈ sub)), (decide (i ∈ unsub)), (decide (i ∈ instruments h)); naive_solver.
Qed.

End Guards.
