(* ===== verification/LiveCommands.v ===== *)
(** Changes to a live socket's subscription
    ([core/src/websocket/pool_supervisor.rs]: the writes the drain awaits while it
    keeps reading, the top-up, the many-for-many and the one-for-one change, the
    unsubscribe probe, the first dispatch of a set, and the two resends).

    What the socket does is an argument: the events read while a write is in
    flight, how the write ends, and the disconnect code the socket still owes.
    Every event goes through [ConnectionSupervisor.on_event].  A write handed to
    the socket is logged with its outcome.  The sink that stores frames, the
    audit rows, metrics, log lines and the silent-swap watch are left out. *)
From coqutil Require Import Datatypes.RecordSettersUsingExistingGetters.
From S2P Require Import Prelude FeedTypes OrderTypes ConnectionBudget ConnectionSupervisor SubscribeGuard.
Local Open Scope Z_scope.

(** * The socket *)

Inductive SocketEvent : Type :=
  | Frame
  | KeepAlive
  | Closed (code : option DisconnectCode).

(** [Ok(Ok(()))], [Ok(Err(SocketFailure))] and [Err(WireElapsed)]. *)
Inductive WriteOutcome : Type := Written | WriteFailed | WireElapsed.

#[global] Instance write_outcome_eq_dec : EqDecision WriteOutcome.
Proof. solve_decision. Defined.

Record WireWait : Type := mkWait {
  wait_outcome : WriteOutcome;
  socket_decision : option SupervisorAction }.

(** How the wait on a write ends when no event read decides the socket's fate:
    the writer answers, for the connection in hand or for one since replaced, or
    the budget runs out. *)
Inductive WriteEnd : Type :=
  | Answered (issued current : Z) (ok : bool)
  | BudgetElapsed.

Record WriteInput : Type := mkWrite {
  reads : list (SocketEvent * Z);
  write_end : WriteEnd;
  owed_close : option DisconnectCode;
  owed_at : Z }.

Inductive InPlaceLeg : Type := Unsubscribe | SubscribeLeg.

(** A write on the current connection. *)
Record WireMessage : Type := mkMessage {
  wm_leg : InPlaceLeg;
  wm_batch : list SubscribeInstrument;
  wm_outcome : WriteOutcome }.

(** The supervised connection: its supervisor, its set, what the supervisor told
    process-wide state, the writes of the current connection, and its row in the
    register of depth-200 contracts. *)
Record Conn : Type := mkConn {
  sup : ConnectionSupervisor;
  guard : SubscribeGuard;
  calls : list PoolCall;
  wire : list WireMessage;
  depth200_held : option SubscribeInstrument }.

Definition conn_endpoint (c : Conn) : DhanEndpointType := slot_endpoint (cs_slot (sup c)).

Definition sup_event (ev : ConnEvent) (now : Z) (c : Conn) : SupervisorAction * Conn :=
  let '(act, told, s) := on_event ev now (sup c) in
  (act, { c with sup := s; calls ::= fun l => l ++ told }).

Definition handle_socket_event (ev : SocketEvent) (now : Z) (c : Conn) : SupervisorAction * Conn :=
  sup_event (match ev with
             | KeepAlive => KeepAliveReceived
             | Frame => FrameReceived
             | Closed code => Disconnected code
             end) now c.

#[global] Instance supervisor_action_eq_dec : EqDecision SupervisorAction.
Proof. solve_decision. Defined.

(** [(action != Continue).then_some(action)]. *)
Definition decision (a : SupervisorAction) : option SupervisorAction :=
  if decide (a = Continue) then None else Some a.

(** Reads until one event decides. *)
Fixpoint read_events (evs : list (SocketEvent * Z)) (c : Conn) : option SupervisorAction * Conn :=
  match evs with
  | [] => (None, c)
  | (ev, now) :: rest =>
      let '(a, c) := handle_socket_event ev now c in
      match decision a with
      | Some d => (Some d, c)
      | None => read_events rest c
      end
  end.

Definition owed_close_decision (owed : option DisconnectCode) (now : Z) (c : Conn)
    : option SupervisorAction * Conn :=
  match owed with
  | None => (None, c)
  | Some code => let '(a, c) := sup_event (Disconnected (Some code)) now c in (decision a, c)
  end.

Definition write_answer_is_current (issued current : Z) : bool := issued =? current.

Definition await_write (i : WriteInput) (c : Conn) : WireWait * Conn :=
  let '(d, c) := read_events (reads i) c in
  match d with
  | Some a => (mkWait WriteFailed (Some a), c)
  | None =>
      let owed c := owed_close_decision (owed_close i) (owed_at i) c in
      match write_end i with
      | Answered issued current ok =>
          if write_answer_is_current issued current && ok then (mkWait Written None, c)
          else let '(d, c) := owed c in (mkWait WriteFailed d, c)
      | BudgetElapsed => let '(d, c) := owed c in (mkWait WireElapsed d, c)
      end
  end.

Definition TOPUP_GAP_MAX_EVENTS : nat := 1024.

Definition read_until (evs : list (SocketEvent * Z)) (c : Conn) : option SupervisorAction * Conn :=
  read_events (take TOPUP_GAP_MAX_EVENTS evs) c.

(** Hands one message to the socket and awaits it. *)
Definition send (leg : InPlaceLeg) (batch : list SubscribeInstrument) (i : WriteInput) (c : Conn)
    : WireWait * Conn :=
  let '(w, c) := await_write i c in
  (w, { c with wire ::= fun l => l ++ [mkMessage leg batch (wait_outcome w)] }).

(** * One leg of a change *)

Record LegRun : Type := mkRun {
  sent : nat;
  timed_out : nat;
  failed : bool;
  budget_exhausted : bool;
  decided : option SupervisorAction }.

(** One turn of the loop: whether the deadline has passed, the write, and what is
    read in the pacing gap after it. *)
Record BatchInput : Type := mkBatch {
  past_deadline : bool;
  write : WriteInput;
  gap : list (SocketEvent * Z) }.

Fixpoint write_batches (leg : InPlaceLeg) (bs : list (list SubscribeInstrument))
    (inp : nat -> BatchInput) (run : LegRun) (c : Conn) : LegRun * Conn :=
  match bs with
  | [] => (run, c)
  | batch :: rest =>
      let i := inp 0%nat in
      if past_deadline i then ({ run with budget_exhausted := true }, c) else
      let '(w, c) := send leg batch (write i) c in
      match socket_decision w with
      | Some d => ({ run with decided := Some d; failed := true }, c)
      | None =>
          match wait_outcome w with
          | WireElapsed => ({ run with timed_out := length batch; budget_exhausted := true }, c)
          | WriteFailed => ({ run with failed := true }, c)
          | Written =>
              let run := { run with sent ::= fun n => (n + length batch)%nat } in
              let '(d, c) := read_until (gap i) c in
              match d with
              | Some d => ({ run with decided := Some d; failed := true }, c)
              | None => write_batches leg rest (fun k => inp (S k)) run c
              end
          end
      end
  end.

Definition write_batches_in_place (leg : InPlaceLeg) (bs : list (list SubscribeInstrument))
    (inp : nat -> BatchInput) (c : Conn) : LegRun * Conn :=
  write_batches leg bs inp (mkRun 0 0 false false None) c.

Definition inplace_change_blocked_by_805 (e : DhanEndpointType) (halted : bool) : bool :=
  halted && match e with Depth20 | Depth200 => true | _ => false end.

(** * What the supervisor is told of the set *)

Definition guard_len_u32 (g : SubscribeGuard) : Z := Z.min (Z.of_nat (guard_len g)) u32_max.

Definition note_held_set (c : Conn) : Conn :=
  let c := { c with sup ::= set_held_instruments (guard_len_u32 (guard c)) } in
  if decide (conn_endpoint c = Depth200) then { c with depth200_held := first (guard c) } else c.

Definition note_held_cleared (c : Conn) : Conn :=
  let c := { c with sup ::= set_held_instruments 0 } in
  if decide (conn_endpoint c = Depth200) then { c with depth200_held := None } else c.

(** * Many for many *)

Inductive RefusedReason : Type := NotHeldReason | OverCap | Halted805.

Inductive ResubscribeOutcome : Type :=
  | Applied
  | Refused (reason : RefusedReason)
  | Stopped (not_unsubscribed not_subscribed : list SubscribeInstrument)
  | ReplayPending.

(** What the socket does during one command, and the clock when it ends. *)
Record LegsInput : Type := mkLegs {
  halted : bool;
  unsub_leg : nat -> BatchInput;
  sub_leg : nat -> BatchInput;
  ended_at : Z }.

(** The unsubscribe leg did not finish: the unsent rest goes back into the set. *)
Definition stop_unsubscribing (plan : ResubscribePlan) (landed : nat) (c : Conn)
    : SupervisorAction * ResubscribeOutcome * Conn :=
  let '(not_subscribed, g) := take_from (subscribe_from plan) (guard c) in
  let not_unsubscribed := drop landed (removed plan) in
  (Continue, Stopped not_unsubscribed not_subscribed,
   note_held_set { c with guard := put_back not_unsubscribed g }).

(** The subscribe leg did not finish. *)
Definition stop_subscribing (plan : ResubscribePlan) (landed_until : nat) (now : Z) (c : Conn)
    : SupervisorAction * ResubscribeOutcome * Conn :=
  if (landed_until =? 0)%nat then
    let '(a, c) := sup_event SubscribeFailed now c in (a, ReplayPending, c)
  else
    let '(not_subscribed, g) := take_from landed_until (guard c) in
    (Continue, Stopped [] not_subscribed, note_held_set { c with guard := g }).

Definition apply_resubscribe (i : LegsInput) (unsub sub : list SubscribeInstrument) (c : Conn)
    : SupervisorAction * ResubscribeOutcome * Conn :=
  if inplace_change_blocked_by_805 (conn_endpoint c) (halted i) then (Continue, Refused Halted805, c) else
  match try_resubscribe unsub sub (guard c) with
  | (Err (TooManyInstruments _ _ _), _) => (Continue, Refused OverCap, c)
  | (Err _, _) | (Panic, _) => (Continue, Refused NotHeldReason, c)
  | (Ok plan, g) =>
      let c := { c with guard := g } in
      if plan_is_no_op plan (guard_len g) then (Continue, Applied, c) else
      let '(u, c) := write_batches_in_place Unsubscribe (chunks (per_message g) (removed plan)) (unsub_leg i) c in
      let landed := (sent u + timed_out u)%nat in
      match decided u with
      | Some d => (d, ReplayPending, c)
      | None =>
          if failed u || budget_exhausted u then stop_unsubscribing plan landed c else
          let '(s, c) := write_batches_in_place SubscribeLeg (batches_from (subscribe_from plan) (guard c)) (sub_leg i) c in
          match decided s with
          | Some d => (d, ReplayPending, c)
          | None =>
              if failed s || budget_exhausted s
              then stop_subscribing plan (subscribe_from plan + sent s) (ended_at i) c
              else (Continue, Applied, note_held_set c)
          end
      end
  end.

(** * The top-up *)

Inductive ExtendOutcome : Type :=
  | ExtendHeld
  | ExtendRefused
  | Truncated (not_held : list SubscribeInstrument).

Definition on_extend (i : LegsInput) (more : list SubscribeInstrument) (c : Conn)
    : SupervisorAction * ExtendOutcome * Conn :=
  match try_extend more (guard c) with
  | (Ok start, g) =>
      let '(run, c) := write_batches_in_place SubscribeLeg (batches_from start g) (sub_leg i) { c with guard := g } in
      let action := default Continue (decided run) in
      if budget_exhausted run then
        let '(not_held, g) := take_from (start + sent run) (guard c) in
        (action, Truncated not_held, { c with guard := g })
      else if failed run then (action, ExtendHeld, c)
      else (action, ExtendHeld, note_held_set c)
  | _ => (Continue, ExtendRefused, c)
  end.

(** * One for one *)

Inductive SwapReason : Type := RefusedSwap | WireFailedReason | WireFailedReverted | Emptied.
Inductive SwapOutcome : Type := SwapHeld | SwapNotHeld (reason : SwapReason).

Definition caller_should_unmark (o : SwapOutcome) : bool :=
  match o with
  | SwapHeld => false
  | SwapNotHeld RefusedSwap | SwapNotHeld WireFailedReverted => true
  | SwapNotHeld _ => false
  end.

Record SwapInput : Type := mkSwapInput {
  sw_halted : bool;
  sw_unsub : WriteInput;
  sw_sub : WriteInput;
  sw_ended_at : Z }.

(** The unsubscribe of a swap: whether it went out, whether it failed and timed
    out, whether the set was reverted, and the socket's own decision. *)
Definition swap_unsubscribe_leg (i : SwapInput) (old new : SubscribeInstrument) (c : Conn)
    : (WireWait * bool) * Conn :=
  let '(w, c) := send Unsubscribe [old] (sw_unsub i) c in
  match wait_outcome w with
  | WriteFailed => let '(reverted, g) := undo_swap new old (guard c) in ((w, reverted), { c with guard := g })
  | _ => ((w, false), c)
  end.

(** A swap whose wire work failed. *)
Definition swap_failed (i : SwapInput) (unsub_written unsub_timed_out reverted : bool)
    (d : option SupervisorAction) (c : Conn) : SupervisorAction * SwapOutcome * Conn :=
  if (unsub_written || unsub_timed_out) && bool_decide (d = None) then
    let '(a, c) := sup_event SubscribeFailed (sw_ended_at i) (note_held_cleared c) in
    (a, SwapNotHeld Emptied, c)
  else
    (default Continue d, SwapNotHeld (if reverted then WireFailedReverted else WireFailedReason),
     note_held_set c).

Definition on_swap (i : SwapInput) (old new : SubscribeInstrument) (c : Conn)
    : SupervisorAction * SwapOutcome * Conn :=
  if bool_decide (conn_endpoint c = Depth200) && sw_halted i then (Continue, SwapNotHeld RefusedSwap, c) else
  match try_swap old new (guard c) with
  | (Ok w, g) =>
      let c := { c with guard := g } in
      if swap_is_no_op w then (Continue, SwapHeld, note_held_set c) else
      let '((u, reverted), c) := swap_unsubscribe_leg i old new c in
      match wait_outcome u with
      | Written =>
          let '(s, c) := send SubscribeLeg [new] (sw_sub i) c in
          match wait_outcome s with
          | Written => (Continue, SwapHeld, note_held_set c)
          | _ => swap_failed i true false reverted (socket_decision s) c
          end
      | o => swap_failed i false (bool_decide (o = WireElapsed)) reverted (socket_decision u) c
      end
  | _ => (Continue, SwapNotHeld RefusedSwap, note_held_set c)
  end.

(** * The unsubscribe probe *)

Inductive ProbeReason : Type := NotExactlyOne | DifferentInstrument.
Inductive ProbeUnsubscribeOutcome : Type :=
  | Dropped
  | ProbeRefused (reason : ProbeReason)
  | ProbeWireFailed (write_timed_out : bool).

Definition needs_restore (o : ProbeUnsubscribeOutcome) : bool :=
  match o with Dropped => true | _ => false end.
Definition verdict_admissible (o : ProbeUnsubscribeOutcome) : bool :=
  match o with Dropped => true | _ => false end.

Definition on_probe_unsubscribe (i : WriteInput) (drop_this : SubscribeInstrument) (send_wire : bool) (c : Conn)
    : SupervisorAction * ProbeUnsubscribeOutcome * Conn :=
  let held_one := (guard_len (guard c) =? 1)%nat in
  let holds_named := bool_decide (head (concat (batches (guard c))) = Some drop_this) in
  if held_one && holds_named then
    if send_wire then
      let '(w, c) := send Unsubscribe [drop_this] i c in
      let action := default Continue (socket_decision w) in
      match wait_outcome w with
      | Written => (action, Dropped, { c with guard ::= truncate_to 0 })
      | o => (action, ProbeWireFailed (bool_decide (o = WireElapsed)), c)
      end
    else (Continue, Dropped, { c with guard ::= truncate_to 0 })
  else (Continue, ProbeRefused (if held_one then DifferentInstrument else NotExactlyOne), c).

(** * The first dispatch of a set *)

Record SubscribeDispatch : Type := mkDispatch {
  batches_sent : nat;
  batches_total : nat;
  instruments_sent : nat;
  instruments_total : nat }.

Definition stopped_early (d : SubscribeDispatch) : bool := (batches_sent d <? batches_total d)%nat.
Definition instruments_undispatched (d : SubscribeDispatch) : nat := (instruments_total d - instruments_sent d)%nat.

(** The loop over the batches; a pacing gap comes before every batch but the
    first, and a write has no budget. *)
Fixpoint dispatch_loop (bs : list (list SubscribeInstrument)) (inp : nat -> BatchInput) (k : nat)
    (d : SubscribeDispatch) (c : Conn) : SubscribeDispatch * option SupervisorAction * Conn :=
  match bs with
  | [] => (d, None, c)
  | batch :: rest =>
      let '(stop, c) := if (0 <? k)%nat then read_until (gap (inp k)) c else (None, c) in
      match stop with
      | Some a => (d, Some a, c)
      | None =>
          let '(w, c) := send SubscribeLeg batch (write (inp k)) c in
          match socket_decision w with
          | Some a => (d, Some a, c)
          | None =>
              if decide (wait_outcome w = Written) then
                dispatch_loop rest inp (S k)
                  { d with batches_sent ::= S; instruments_sent ::= fun n => (n + length batch)%nat } c
              else (d, None, c)
          end
      end
  end.

Definition dispatch_subscribe (inp : nat -> BatchInput) (c : Conn)
    : SubscribeDispatch * option SupervisorAction * Conn :=
  dispatch_loop (batches (guard c)) inp 0 (mkDispatch 0 (batch_count (guard c)) 0 (guard_len (guard c))) c.

(** * The two resends *)

Inductive GhostOutcome : Type := HeldAgain | GhostHalted | GhostSent | GhostWireFailed | GhostTimedOut.

Definition resend_ghost_unsubscribe (rotation_halted : bool) (i : WriteInput) (ghost : SubscribeInstrument) (c : Conn)
    : GhostOutcome * option SupervisorAction * Conn :=
  if holds ghost (guard c) then (HeldAgain, None, c)
  else if rotation_halted then (GhostHalted, None, c)
  else
    let '(w, c) := send Unsubscribe [ghost] i c in
    (match wait_outcome w with Written => GhostSent | WriteFailed => GhostWireFailed | WireElapsed => GhostTimedOut end,
     socket_decision w, c).

Inductive ResendGate : Type := ResendSend | RefusedHalted805 | RefusedNotHeld.

Definition resend_gate (rotation_halted guard_holds : bool) : ResendGate :=
  if rotation_halted then RefusedHalted805 else if negb guard_holds then RefusedNotHeld else ResendSend.

Definition resubscribe_silent_swap (rotation_halted : bool) (iu is_ : WriteInput) (now : Z)
    (silent : SubscribeInstrument) (c : Conn) : SupervisorAction * Conn :=
  match resend_gate rotation_halted (holds silent (guard c)) with
  | ResendSend =>
      let empty c := sup_event SubscribeFailed now (note_held_cleared c) in
      let '(u, c) := send Unsubscribe [silent] iu c in
      match socket_decision u with
      | Some d => (d, c)
      | None =>
          match wait_outcome u with
          | Written =>
              let '(s, c) := send SubscribeLeg [silent] is_ c in
              match socket_decision s with
              | Some d => (d, c)
              | None => if decide (wait_outcome s = Written) then (Continue, c) else empty c
              end
          | WireElapsed => empty c
          | WriteFailed => (Continue, c)
          end
      end
  | _ => (Continue, c)
  end.
