(* ===== verification/LiveSafety.v ===== *)
(** What changing a live subscription does to the socket, the set and the caller
    ([LiveCommands]): no change makes the socket carry an instrument twice or more
    than its cap, the answer says exactly what the set then names, and where a
    write that timed out lands late. *)
From coqutil Require Import Datatypes.RecordSettersUsingExistingGetters.
From S2P Require Import Prelude Bytes FeedTypes OrderTypes ConnectionBudget ReconnectLadder ConnectionSupervisor SupervisorSafety SubscribeGuard LiveCommands.
Local Open Scope Z_scope.

(** * Commands *)

Inductive LiveSubscriptionCommand : Type :=
  | CmdExtend (more : list SubscribeInstrument)
  | CmdSwap (old new : SubscribeInstrument)
  | CmdProbeUnsubscribe (drop_this : SubscribeInstrument) (send_wire : bool)
  | CmdResubscribe (unsub sub : list SubscribeInstrument).

Inductive Answer : Type :=
  | AnsExtend (o : ExtendOutcome)
  | AnsSwap (o : SwapOutcome)
  | AnsProbe (o : ProbeUnsubscribeOutcome)
  | AnsResubscribe (o : ResubscribeOutcome).

(** Whatever the socket and the clock do during a command. *)
Record CommandInput : Type := mkCommandInput {
  legs : LegsInput;
  swap_input : SwapInput;
  probe_write : WriteInput }.

Definition run_command (i : CommandInput) (cmd : LiveSubscriptionCommand) (c : Conn)
    : SupervisorAction * Answer * Conn :=
  match cmd with
  | CmdExtend more => let '(a, o, c) := on_extend (legs i) more c in (a, AnsExtend o, c)
  | CmdSwap old new => let '(a, o, c) := on_swap (swap_input i) old new c in (a, AnsSwap o, c)
  | CmdProbeUnsubscribe d sw => let '(a, o, c) := on_probe_unsubscribe (probe_write i) d sw c in (a, AnsProbe o, c)
  | CmdResubscribe u s => let '(a, o, c) := apply_resubscribe (legs i) u s c in (a, AnsResubscribe o, c)
  end.

(** * What the socket carries

    The net effect of the messages that reached it.  A message that timed out may
    have reached it or not. *)

Definition lands (o : WriteOutcome) (late : bool) : bool :=
  match o with Written => true | WriteFailed => false | WireElapsed => late end.

Definition apply_leg (leg : InPlaceLeg) (batch held : list SubscribeInstrument) : list SubscribeInstrument :=
  match leg with
  | Unsubscribe => filter (fun i => i ∉ batch) held
  | SubscribeLeg => held ++ batch
  end.

Definition after_message (m : WireMessage) (late : bool) (held : list SubscribeInstrument) : list SubscribeInstrument :=
  if lands (wm_outcome m) late then apply_leg (wm_leg m) (wm_batch m) held else held.

(** The documented rules of the feed: so many instruments a message, so many a
    connection, none subscribed twice; and no unsubscribe of what is not there. *)
Definition legal (e : DhanEndpointType) (m : WireMessage) (held : list SubscribeInstrument) : Prop :=
  zlen (wm_batch m) <= Z.max (max_instruments_per_subscribe_message e) 1 /\
  match wm_leg m with
  | Unsubscribe => forall i, i ∈ wm_batch m -> i ∈ held
  | SubscribeLeg => NoDup (held ++ wm_batch m) /\ zlen (held ++ wm_batch m) <= max_instruments_per_connection e
  end.

(** Every message that lands is legal, whichever late ones land. *)
Fixpoint accepts (e : DhanEndpointType) (held : list SubscribeInstrument) (log : list WireMessage) : Prop :=
  match log with
  | [] => True
  | m :: rest => forall late,
      (lands (wm_outcome m) late = true -> legal e m held) /\ accepts e (after_message m late held) rest
  end.

(** What the socket may carry after the messages. *)
Fixpoint may_carry (held : list SubscribeInstrument) (log : list WireMessage) (held' : list SubscribeInstrument) : Prop :=
  match log with
  | [] => held' = held
  | m :: rest => exists late, may_carry (after_message m late held) rest held'
  end.

Definition written (leg : InPlaceLeg) (batch : list SubscribeInstrument) : WireMessage :=
  mkMessage leg batch Written.

Lemma accepts_app e held log1 log2 :
    accepts e held (log1 ++ log2) <->
    accepts e held log1 /\ forall held', may_carry held log1 held' -> accepts e held' log2.
Proof.
  revert held. induction log1 as [|m log1 IH]; intros held; cbn [app accepts may_carry].
  { split; [|by intros [_ H]; apply H]. intros H. split; [done|]. by intros held' ->. }
  split.
  - intros H. split; [intros late; destruct (H late) as [A B]; apply IH in B as [B _]; done|].
    intros held' [late Hl]. destruct (H late) as [_ B]. apply IH in B as [_ B]. by apply B.
  - intros [H1 H2] late. destruct (H1 late) as [A B]. split; [done|]. apply IH. split; [done|].
    intros held' Hh. apply H2. by exists late.
Qed.

Lemma may_carry_app held log1 log2 held' :
    may_carry held (log1 ++ log2) held' <-> exists mid, may_carry held log1 mid /\ may_carry mid log2 held'.
Proof.
  revert held. induction log1 as [|m log1 IH]; intros held; cbn [app may_carry].
  { split; [by exists held|by intros (? & -> & ?)]. }
  split.
  - intros [late H]. apply IH in H as (mid & A & B). exists mid. split; [by exists late|done].
  - intros (mid & [late A] & B). exists late. apply IH. by exists mid.
Qed.

(** ** Batches that were written *)

Lemma may_carry_subscribed held bs held' :
    may_carry held (written SubscribeLeg <$> bs) held' <-> held' = held ++ concat bs.
Proof.
  revert held. induction bs as [|b bs IH]; intros held; cbn; [by rewrite app_nil_r|].
  setoid_rewrite IH. rewrite <- app_assoc. split; [by intros [_ ->]|by exists true].
Qed.

Lemma accepts_subscribed e held bs :
    NoDup (held ++ concat bs) -> zlen (held ++ concat bs) <= max_instruments_per_connection e ->
    Forall (fun b => zlen b <= Z.max (max_instruments_per_subscribe_message e) 1) bs ->
    accepts e held (written SubscribeLeg <$> bs).
Proof.
  revert held. induction bs as [|b bs IH]; intros held Hn Hc Hf; cbn; [done|]. intros late.
  apply Forall_cons in Hf as [Hb Hf]. cbn in Hn, Hc. rewrite app_assoc in Hn, Hc. split.
  - intros _. split; [done|]. cbn. split.
    + by apply NoDup_app in Hn as (? & _ & _).
    + rewrite zlen_app in Hc. pose proof (zlen_nonneg (concat bs)). lia.
  - by apply IH.
Qed.

Lemma filter_not_in_nil (held : list SubscribeInstrument) : filter (fun i => i ∉ []) held = held.
Proof.
  induction held as [|j held IH]; [done|].
  rewrite filter_cons_True by apply not_elem_of_nil. by rewrite IH.
Qed.

Lemma may_carry_unsubscribed held bs held' :
    may_carry held (written Unsubscribe <$> bs) held' <-> held' = filter (fun i => i ∉ concat bs) held.
Proof.
  revert held. induction bs as [|b bs IH]; intros held; cbn.
  { by rewrite filter_not_in_nil. }
  setoid_rewrite IH. unfold after_message. cbn. rewrite list_filter_filter.
  rewrite (list_filter_iff _ (fun i => i ∉ b ++ concat bs)) by (intros i; rewrite not_elem_of_app; tauto).
  split; [by intros [_ ->]|by exists true].
Qed.

Lemma accepts_unsubscribed e held bs :
    NoDup (concat bs) -> (forall i, i ∈ concat bs -> i ∈ held) ->
    Forall (fun b => zlen b <= Z.max (max_instruments_per_subscribe_message e) 1) bs ->
    accepts e held (written Unsubscribe <$> bs).
Proof.
  revert held. induction bs as [|b bs IH]; intros held Hn Hi Hf; cbn; [done|]. intros late.
  apply Forall_cons in Hf as [Hb Hf]. cbn in Hn, Hi. apply NoDup_app in Hn as (_ & Hd & Hn). split.
  - intros _. split; [done|]. intros i H. apply Hi. apply elem_of_app. by left.
  - apply IH; [done| |done]. intros i H. apply list_elem_of_filter. split; [|apply Hi, elem_of_app; by right].
    intros Hb'. by apply (Hd i).
Qed.

(** * The connection while it waits *)

(** Reading changes the supervisor only. *)
Record reads_only (c c' : Conn) : Prop := {
  ro_guard : guard c' = guard c;
  ro_wire : wire c' = wire c;
  ro_held : depth200_held c' = depth200_held c;
  ro_slot : cs_slot (sup c') = cs_slot (sup c);
  ro_wf : sup_wf (sup c') }.

Definition up (c : Conn) : Prop := sup_wf (sup c) /\ cs_phase (sup c) <> Parked.

(** What the supervisor's answer says of its own state. *)
Record after_event (a : SupervisorAction) (c : Conn) : Prop := {
  ae_wf : sup_wf (sup c);
  ae_mode :
    match a with
    | Park r => cs_phase (sup c) = Parked /\ park_reason (sup c) = Some r
    | Subscribe => False
    | _ => cs_phase (sup c) <> Parked
    end }.

Lemma after_continue c : after_event Continue c <-> up c.
Proof. split; [by intros [? ?]|by intros [? ?]]. Qed.

(** Another set, another log: the supervisor is the same. *)
Lemma after_event_sup a c c' : after_event a c -> sup c' = sup c -> after_event a c'.
Proof. intros [A B] E. split; by rewrite E. Qed.

Lemma reads_only_refl c : sup_wf (sup c) -> reads_only c c.
Proof. by split. Qed.

Lemma reads_only_trans c1 c2 c3 : reads_only c1 c2 -> reads_only c2 c3 -> reads_only c1 c3.
Proof. intros [] []. split; congruence. Qed.

(** Only a dial that succeeded asks for a subscribe. *)
Lemma park_no_subscribe r now s : action_of (park r now s) <> Subscribe.
Proof. unfold park, schedule_redial. by destruct (respawn_budget_allows _ _). Qed.

Lemma tell_action calls r : action_of (tell_first calls r) = action_of r.
Proof. by destruct r as [[]]. Qed.

Lemma auth_no_subscribe now s : action_of (on_auth_rejected now s) <> Subscribe.
Proof.
  unfold on_auth_rejected. cbv zeta. destruct (refresh_ceiling_reached _ _); [apply park_no_subscribe|].
  destruct (_ || _); [apply park_no_subscribe|]. by destruct (past_episode_bound _ _).
Qed.

Lemma subscribe_after_dial ev now s : action_of (on_event ev now s) = Subscribe -> ev = DialSucceeded.
Proof.
  unfold on_event. destruct (decide (cs_phase s = Parked)); [by destruct (releasable ev s)|].
  destruct ev as [| | | | | | |code| | | | | |]; try done; intros H; exfalso; revert H.
  - unfold on_frame_received. cbv zeta. by destruct (note_gap _ _), (publish_activity _ _), (prove_healthy _ _).
  - unfold on_disconnected. cbv zeta. destruct (classify_disconnect code); rewrite ?tell_action; try done;
      first [apply park_no_subscribe|apply auth_no_subscribe].
  - unfold on_idle_elapsed. by destruct (negb _).
  - unfold on_frame_silence_elapsed. cbv zeta. by destruct (decide _).
  - by destruct (decide _).
  - destruct (in_overflow_episode _); [apply park_no_subscribe|done].
Qed.

Lemma sup_event_spec ev now c a c' :
    up c -> sup_event ev now c = (a, c') ->
    reads_only c c' /\ (a = Continue -> up c') /\ (ev <> DialSucceeded -> after_event a c').
Proof.
  intros [Hw Hp] H. unfold sup_event in H.
  pose proof (shape_on_event ev now (sup c) Hw) as Hs. pose proof (wf_on_event ev now (sup c) Hw) as Hw'.
  destruct (on_event ev now (sup c)) as [[act told] s] eqn:Eev. injection H as <- <-. unfold next_of in Hw'. cbn in Hw'.
  assert (Hslot : cs_slot s = cs_slot (sup c)).
  { inversion Hs as [|? ? s0 reason Hd|]; subst; try done.
    destruct (enter_backoff_fields reason now s0) as (_ & -> & _). apply Hd. }
  assert (Hne : ev <> DialSucceeded -> act <> Subscribe).
  { intros Hev ->. apply Hev, (subscribe_after_dial ev now (sup c)). by rewrite Eev. }
  assert (Hafter : act <> Subscribe -> after_event act (mkConn s (guard c) (calls c ++ told) (wire c) (depth200_held c))).
  { intros Hns. split; [done|]. cbn.
    inversion Hs as [? ? ? Hr Hnp _ _ _ _ _ Hph Hc|? ? s0 reason _ [->| ->] _ _|]; subst.
    - destruct act as [|d|d| |r|]; try done; try (by rewrite Hph); by destruct (Hnp r).
    - by destruct (enter_backoff_fields reason now s0) as (_ & _ & -> & _).
    - by destruct (enter_backoff_fields reason now s0) as (_ & _ & -> & _).
    - done. }
  split_and!; [by split| |by intros ?%Hne%Hafter].
  intros ->. apply after_continue. by apply Hafter.
Qed.

Lemma read_events_spec evs c d c' :
    up c -> read_events evs c = (d, c') -> reads_only c c' /\ (d = None -> up c') /\ d <> Some Continue /\
    forall a, d = Some a -> after_event a c'.
Proof.
  revert c. induction evs as [|[ev now] evs IH]; intros c Hu; cbn.
  { intros [= <- <-]. split; [by apply reads_only_refl, Hu|done]. }
  unfold handle_socket_event. destruct (sup_event _ now c) as [a c1] eqn:E.
  apply sup_event_spec in E as (Hr & Hup & Haf); [|done].
  unfold decision. destruct (decide (a = Continue)) as [->|Ha].
  - intros H. destruct (IH c1 (Hup eq_refl) H) as (A & B & C & D).
    split; [by eapply reads_only_trans|done].
  - intros [= <- <-]. split_and!; [done..|congruence|]. intros ? [= <-]. apply Haf. by destruct ev.
Qed.

Lemma owed_close_spec owed now c d c' :
    up c -> owed_close_decision owed now c = (d, c') ->
    reads_only c c' /\ (d = None -> up c') /\ d <> Some Continue /\
    forall a, d = Some a -> after_event a c'.
Proof.
  intros Hu. unfold owed_close_decision. destruct owed as [code|].
  2:{ intros [= <- <-]. split; [by apply reads_only_refl, Hu|done]. }
  destruct (sup_event _ now c) as [a c1] eqn:E. apply sup_event_spec in E as (Hr & Hup & Haf); [|done].
  unfold decision. destruct (decide (a = Continue)) as [->|Ha]; intros [= <- <-]; split_and!; try done; [auto|congruence|].
  intros ? [= <-]. by apply Haf.
Qed.

(** A write leaves the connection up unless it decides the socket's fate, which a
    write that succeeds never does. *)
Lemma await_write_spec i c w c' :
    up c -> await_write i c = (w, c') ->
    reads_only c c' /\ (socket_decision w = None -> up c') /\ socket_decision w <> Some Continue /\
    (wait_outcome w = Written -> socket_decision w = None) /\
    forall a, socket_decision w = Some a -> after_event a c'.
Proof.
  intros Hu. unfold await_write. destruct (read_events (reads i) c) as [d c1] eqn:E.
  apply read_events_spec in E as (Hr & Hup & Hd & Haf); [|done].
  destruct d as [a|]; [intros [= <- <-]; split_and!; try done|].
  specialize (Hup eq_refl).
  assert (Ho : forall o d c2, owed_close_decision (owed_close i) (owed_at i) c1 = (d, c2) -> o <> Written ->
    let w := mkWait o d in
    reads_only c c2 /\ (socket_decision w = None -> up c2) /\ socket_decision w <> Some Continue /\
    (wait_outcome w = Written -> socket_decision w = None) /\
    forall a, socket_decision w = Some a -> after_event a c2).
  { intros o d c2 E Ho. apply owed_close_spec in E as (A & B & C & D); [|done].
    cbn. split_and!; [by eapply reads_only_trans|done..]. }
  destruct (write_end i) as [issued current ok|].
  - destruct (write_answer_is_current issued current && ok); [intros [= <- <-]; split_and!; done|].
    destruct (owed_close_decision _ _ c1) as [d c2] eqn:E. intros [= <- <-]. by apply (Ho WriteFailed).
  - destruct (owed_close_decision _ _ c1) as [d c2] eqn:E. intros [= <- <-]. by apply (Ho WireElapsed).
Qed.

(** What writing adds to the log; the rest of the connection is only read. *)
Record writes (log : list WireMessage) (c c' : Conn) : Prop := {
  wr_guard : guard c' = guard c;
  wr_wire : wire c' = wire c ++ log;
  wr_held : depth200_held c' = depth200_held c;
  wr_slot : cs_slot (sup c') = cs_slot (sup c);
  wr_wf : sup_wf (sup c') }.

Lemma writes_trans log1 log2 c1 c2 c3 : writes log1 c1 c2 -> writes log2 c2 c3 -> writes (log1 ++ log2) c1 c3.
Proof. intros [? W1 ? ?] [? W2 ? ?]. split; try congruence. by rewrite W2, W1, app_assoc. Qed.

Lemma reads_writes c c' : reads_only c c' -> writes [] c c'.
Proof. intros [? W ? ?]. split; try congruence. by rewrite app_nil_r. Qed.

Lemma send_spec leg batch i c w c' :
    up c -> send leg batch i c = (w, c') ->
    writes [mkMessage leg batch (wait_outcome w)] c c' /\
    (socket_decision w = None -> up c') /\ socket_decision w <> Some Continue /\
    (wait_outcome w = Written -> socket_decision w = None) /\
    forall a, socket_decision w = Some a -> after_event a c'.
Proof.
  intros Hu. unfold send. destruct (await_write i c) as [w0 c1] eqn:E. intros [= <- <-].
  apply await_write_spec in E as ([Hg Hw Hh Hs Hf] & A & B & D & F); [|done].
  split_and!; [split; cbn; congruence|done|done|done|].
  intros a Ha. eapply after_event_sup; [by apply F|done].
Qed.

(** How a leg ends: everything written; out of time before a batch; a batch timed
    out; a batch refused; or the socket's fate decided. *)
Inductive leg_end (leg : InPlaceLeg) : list (list SubscribeInstrument) -> list WireMessage -> LegRun -> Prop :=
  | end_all n : leg_end leg [] [] (mkRun n 0 false false None)
  | end_late n b rest : leg_end leg (b :: rest) [] (mkRun n 0 false true None)
  | end_elapsed n b rest :
      leg_end leg (b :: rest) [mkMessage leg b WireElapsed] (mkRun n (length b) false true None)
  | end_refused n b rest :
      leg_end leg (b :: rest) [mkMessage leg b WriteFailed] (mkRun n 0 true false None)
  | end_decided n rest tail a :
      a <> Continue -> (tail = [] \/ exists b rest' o, rest = b :: rest' /\ tail = [mkMessage leg b o]) ->
      leg_end leg rest tail (mkRun n 0 true false (Some a)).

Lemma write_batches_spec leg bs inp n c run c' :
    up c -> write_batches leg bs inp (mkRun n 0 false false None) c = (run, c') ->
    exists done rest tail,
      bs = done ++ rest /\ writes ((written leg <$> done) ++ tail) c c' /\
      sent run = (n + length (concat done))%nat /\ leg_end leg rest tail run /\
      (decided run = None -> up c') /\ forall a, decided run = Some a -> after_event a c'.
Proof.
  revert inp n c. induction bs as [|b bs IH]; intros inp n c Hu; cbn [write_batches].
  { intros [= <- <-]. exists [], [], []. split_and!; [done| |cbn; lia|constructor|done|done].
    by apply reads_writes, reads_only_refl, Hu. }
  destruct (past_deadline (inp 0%nat)).
  { intros [= <- <-]. exists [], (b :: bs), []. split_and!; [done| |cbn; lia|constructor|done|done].
    by apply reads_writes, reads_only_refl, Hu. }
  destruct (send leg b (write (inp 0%nat)) c) as [w c1] eqn:Es.
  apply send_spec in Es as (Hw & Hup & Hc & Hok & Haf); [|done].
  destruct (socket_decision w) as [a|] eqn:Ed.
  { intros [= <- <-]. exists [], (b :: bs), [mkMessage leg b (wait_outcome w)].
    split_and!; [done|done|cbn; lia| |done|intros ? [= <-]; by apply Haf]. constructor; [congruence|]. right. by exists b, bs, (wait_outcome w). }
  specialize (Hup eq_refl). destruct (wait_outcome w) eqn:Eo.
  - destruct (read_until (gap (inp 0%nat)) c1) as [d c2] eqn:Er.
    apply read_events_spec in Er as (Hr & Hu2 & Hd & Haf2); [|done].
    pose proof (writes_trans _ _ _ _ _ Hw (reads_writes _ _ Hr)) as Hw2. cbn in Hw2.
    destruct d as [a|].
    + intros [= <- <-]. exists [b], bs, []. split_and!; [done|done|cbn; rewrite app_nil_r; lia| |done|intros ? [= <-]; by apply Haf2].
      cbn. constructor; [congruence|by left].
    + intros H. cbn in H. apply IH in H as (done_ & rest & tail & -> & Hw3 & Hs & He & Hl & Hl2); [|auto].
      exists (b :: done_), rest, tail. split_and!; [done| | |done|done|done].
      * pose proof (writes_trans _ _ _ _ _ Hw2 Hw3) as Hw4. exact Hw4.
      * rewrite Hs. cbn. rewrite length_app. lia.
  - intros [= <- <-]. exists [], (b :: bs), [mkMessage leg b WriteFailed].
    split_and!; [done|done|cbn; lia|constructor|done|done].
  - intros [= <- <-]. exists [], (b :: bs), [mkMessage leg b WireElapsed].
    split_and!; [done|done|cbn; lia|constructor|done|done].
Qed.

(** * One command *)

(** What is left out of the claim that the set follows the socket: a write that
    timed out, a top-up with a refused write, and a probe that sends nothing. *)
Definition settles (cmd : LiveSubscriptionCommand) (log : list WireMessage) : Prop :=
  Forall (fun m => wm_outcome m <> WireElapsed) log /\
  match cmd with
  | CmdExtend _ => Forall (fun m => wm_outcome m = Written) log
  | CmdProbeUnsubscribe _ false => False
  | _ => True
  end.

(** A command whose messages are all legal on a socket that carries [held], and
    after which the set is again what the socket carries. *)
Definition legal_step (cmd : LiveSubscriptionCommand) (held : list SubscribeInstrument) (c : Conn)
    (a : SupervisorAction) (c' : Conn) : Prop :=
  exists log,
    wire c' = wire c ++ log /\ accepts (g_endpoint (guard c)) held log /\
    guard_wf (guard c') /\ g_endpoint (guard c') = g_endpoint (guard c) /\
    after_event a c' /\
    (a = Continue -> settles cmd log ->
     forall held', may_carry held log held' -> held' ≡ₚ instruments (guard c')).

(** Nothing sent, set and socket as before. *)
Lemma legal_step_idle cmd held c c' :
    guard_wf (guard c) -> held ≡ₚ instruments (guard c) -> guard c' = guard c -> wire c' = wire c ->
    up c' -> legal_step cmd held c Continue c'.
Proof.
  intros Hw Hh Hg Hwi Hu%after_continue. exists []. rewrite Hg, Hwi, app_nil_r. split_and!; try done.
  intros _ _ held' ->. done.
Qed.

Lemma up_note_held n c : up c -> sup_wf (set_held_instruments n (sup c)) /\ cs_phase (set_held_instruments n (sup c)) <> Parked.
Proof. intros [H Hp]. split; [|done]. apply (wf_apply (OpHeld n) 0 (sup c) H). Qed.

Lemma note_held_set_spec c :
    guard (note_held_set c) = guard c /\ wire (note_held_set c) = wire c /\ (up c -> up (note_held_set c)).
Proof.
  unfold note_held_set. cbv zeta. destruct (decide _); cbn; split_and!; try done; apply up_note_held.
Qed.

Lemma note_held_set_after a c : after_event a c -> after_event a (note_held_set c).
Proof.
  intros [Hw Hm]. pose proof (wf_apply (OpHeld (guard_len_u32 (guard c))) 0 (sup c) Hw) as Hw'.
  unfold note_held_set. cbv zeta. destruct (decide _); (split; [exact Hw'|exact Hm]).
Qed.

Lemma note_held_cleared_spec c :
    guard (note_held_cleared c) = guard c /\ wire (note_held_cleared c) = wire c /\ (up c -> up (note_held_cleared c)).
Proof.
  unfold note_held_cleared. cbv zeta. destruct (decide _); cbn; split_and!; try done; apply up_note_held.
Qed.

(** A failed subscribe always schedules a redial. *)
Lemma subscribe_failed_redials now c a c' :
    up c -> sup_event SubscribeFailed now c = (a, c') -> a <> Continue /\ reads_only c c' /\ after_event a c'.
Proof.
  intros Hu E. pose proof E as E'. apply sup_event_spec in E' as (Hr & _ & Haf); [|done]. split; [|split; [done|by apply Haf]].
  destruct Hu as [_ Hp]. unfold sup_event, on_event in E. rewrite decide_False in E by done. by injection E as <- _.
Qed.

Lemma small_batches (g : SubscribeGuard) bs :
    Forall (fun b : list SubscribeInstrument => 0 < length b <= per_message g)%nat bs ->
    Forall (fun b => zlen b <= Z.max (max_instruments_per_subscribe_message (g_endpoint g)) 1) bs.
Proof. intros H. eapply Forall_impl; [exact H|]. intros b [_ Hb]. cbn in Hb. unfold zlen, per_message in *. lia. Qed.

(** Batches of the set's own size are within the feed's size of a message. *)
Lemma chunk_sizes g l :
    Forall (fun b => zlen b <= Z.max (max_instruments_per_subscribe_message (g_endpoint g)) 1) (chunks (per_message g) l).
Proof.
  apply small_batches, chunks_cover, per_message_pos.
Qed.

(** One leg on a socket that carries [held]: the messages are legal, and unless
    one timed out the socket ends with the batches written. *)
Lemma one_message_accepts e held m : legal e m held -> accepts e held [m].
Proof. intros H. cbn. by intros late. Qed.

Lemma leg_tail leg rest tail run :
    leg_end leg rest tail run ->
    tail = [] \/ exists b rest' o, rest = b :: rest' /\ tail = [mkMessage leg b o].
Proof. intros []; eauto 10. Qed.

Lemma leg_settled_tail leg rest tail run held held' :
    leg_end leg rest tail run -> decided run = None -> Forall (fun m => wm_outcome m <> WireElapsed) tail ->
    may_carry held tail held' -> held' = held.
Proof.
  intros H Hd Hf. destruct H as [| |n b r|n b r|]; cbn; [done|done| |by intros [_ ->]|done].
  by apply Forall_cons in Hf as [Hf _].
Qed.

Lemma subscribe_leg_legal e held done_ rest tail run :
    leg_end SubscribeLeg rest tail run ->
    NoDup (held ++ concat (done_ ++ rest)) ->
    zlen (held ++ concat (done_ ++ rest)) <= max_instruments_per_connection e ->
    Forall (fun b => zlen b <= Z.max (max_instruments_per_subscribe_message e) 1) (done_ ++ rest) ->
    accepts e held ((written SubscribeLeg <$> done_) ++ tail) /\
    (decided run = None -> Forall (fun m => wm_outcome m <> WireElapsed) tail ->
     forall held', may_carry held ((written SubscribeLeg <$> done_) ++ tail) held' -> held' = held ++ concat done_).
Proof.
  intros He Hn Hc [Hf1 Hf2]%Forall_app. rewrite concat_app, app_assoc in Hn, Hc. split.
  - apply accepts_app. split.
    + apply accepts_subscribed; [by apply NoDup_app in Hn as (? & _ & _)| |done].
      rewrite zlen_app in Hc. pose proof (zlen_nonneg (concat rest)). lia.
    + intros held' ->%may_carry_subscribed.
      destruct (leg_tail _ _ _ _ He) as [->|(b & r & o & -> & ->)]; [done|].
      apply Forall_cons in Hf2 as [Hb _]. cbn in Hn, Hc. rewrite app_assoc in Hn, Hc.
      apply one_message_accepts. split; [done|]. cbn. split; [by apply NoDup_app in Hn as (? & _ & _)|].
      rewrite zlen_app in Hc. pose proof (zlen_nonneg (concat r)). lia.
  - intros Hd Ht held' (mid & ->%may_carry_subscribed & Hm)%may_carry_app.
    by eapply leg_settled_tail.
Qed.

Lemma unsubscribe_leg_legal e held done_ rest tail run :
    leg_end Unsubscribe rest tail run ->
    NoDup (concat (done_ ++ rest)) -> (forall i, i ∈ concat (done_ ++ rest) -> i ∈ held) ->
    Forall (fun b => zlen b <= Z.max (max_instruments_per_subscribe_message e) 1) (done_ ++ rest) ->
    accepts e held ((written Unsubscribe <$> done_) ++ tail) /\
    (decided run = None -> Forall (fun m => wm_outcome m <> WireElapsed) tail ->
     forall held', may_carry held ((written Unsubscribe <$> done_) ++ tail) held' ->
       held' = filter (fun i => i ∉ concat done_) held).
Proof.
  intros He Hn Hi [Hf1 Hf2]%Forall_app. rewrite concat_app in Hn, Hi.
  apply NoDup_app in Hn as (Hn1 & Hd & Hn2). split.
  - apply accepts_app. split.
    + apply accepts_unsubscribed; [done| |done]. intros i H. apply Hi, elem_of_app. by left.
    + intros held' ->%may_carry_unsubscribed.
      destruct (leg_tail _ _ _ _ He) as [->|(b & r & o & -> & ->)]; [done|].
      apply Forall_cons in Hf2 as [Hb _]. apply one_message_accepts. split; [done|]. cbn.
      intros i H. apply list_elem_of_filter.
      assert (Hr : i ∈ concat (b :: r)) by (cbn; apply elem_of_app; by left).
      split; [intros Hx; by apply (Hd i)|]. apply Hi, elem_of_app. by right.
  - intros Hdec Ht held' (mid & ->%may_carry_unsubscribed & Hm)%may_carry_app.
    by eapply leg_settled_tail.
Qed.

(** ** The top-up *)

Lemma writes_up_with g log c c' : writes log { c with guard := g } c' ->
    guard c' = g /\ wire c' = wire c ++ log /\ depth200_held c' = depth200_held c.
Proof. intros [A B C _ _]. done. Qed.

Lemma take_from_spec n g l k :
    instruments g = l ++ k -> (n <= length k)%nat ->
    exists g', take_from (length l + n) g = (drop n k, g') /\ instruments g' = l ++ take n k /\
      g_endpoint g' = g_endpoint g.
Proof.
  intros E Hn. unfold take_from, guard_len. rewrite E, length_app, Nat.min_l by lia.
  eexists. split; [f_equal; by rewrite drop_app_add|]. cbn. by rewrite E, take_app_add.
Qed.

(** The connection with another set: nothing else of it changes. *)
Lemma up_with_guard g c : up c -> up { c with guard := g }.
Proof. done. Qed.

(** What a run of batches leaves of the list they cut up. *)
Lemma batches_split g l done_ rest :
    chunks (per_message g) l = done_ ++ rest -> l = concat done_ ++ concat rest.
Proof.
  intros E. rewrite <- concat_app, <- E. by destruct (chunks_cover (per_message g) l (per_message_pos g)) as [-> _].
Qed.

(** The leg run of a command, on the set it was planned with. *)
Lemma leg_run leg g l inp c run c' :
    up c -> write_batches_in_place leg (chunks (per_message g) l) inp c = (run, c') ->
    exists done_ rest tail,
      l = concat done_ ++ concat rest /\
      Forall (fun b => zlen b <= Z.max (max_instruments_per_subscribe_message (g_endpoint g)) 1) (done_ ++ rest) /\
      writes ((written leg <$> done_) ++ tail) c c' /\ sent run = length (concat done_) /\
      leg_end leg rest tail run /\ (decided run = None -> up c') /\
      forall a, decided run = Some a -> after_event a c'.
Proof.
  intros Hu H. apply write_batches_spec in H as (done_ & rest & tail & E & Hw & Hs & He & Hl & Hl2); [|done].
  exists done_, rest, tail. split_and!; try done.
  - by eapply batches_split.
  - rewrite <- E. apply chunk_sizes.
Qed.

Lemma written_only leg done_ tail :
    Forall (fun m => wm_outcome m = Written) ((written leg <$> done_) ++ tail) -> Forall (fun m => wm_outcome m = Written) tail.
Proof. by intros [_ H]%Forall_app. Qed.

Lemma not_elapsed_tail leg done_ tail :
    Forall (fun m => wm_outcome m <> WireElapsed) ((written leg <$> done_) ++ tail) ->
    Forall (fun m => wm_outcome m <> WireElapsed) tail.
Proof. by intros [_ H]%Forall_app. Qed.

(** A top-up, with what it sent. *)
Lemma extend_run i more c a o c' :
    up c -> guard_wf (guard c) -> on_extend i more c = (a, o, c') ->
    (o = ExtendRefused /\ c' = c /\ a = Continue) \/
    exists done_ rest tail run,
      drop_duplicates (instruments (guard c)) more = concat done_ ++ concat rest /\
      NoDup (instruments (guard c) ++ concat done_ ++ concat rest) /\
      zlen (instruments (guard c) ++ concat done_ ++ concat rest) <= max_instruments_per_connection (g_endpoint (guard c)) /\
      Forall (fun b => 0 < length b <= per_message (guard c))%nat (done_ ++ rest) /\
      wire c' = wire c ++ ((written SubscribeLeg <$> done_) ++ tail) /\
      leg_end SubscribeLeg rest tail run /\ guard_wf (guard c') /\ g_endpoint (guard c') = g_endpoint (guard c) /\
      after_event a c' /\ (a = Continue -> decided run = None) /\
      if budget_exhausted run
      then o = Truncated (concat rest) /\ instruments (guard c') = instruments (guard c) ++ concat done_
      else o = ExtendHeld /\ instruments (guard c') = instruments (guard c) ++ concat done_ ++ concat rest.
Proof.
  intros Hu Hw H. unfold on_extend in H.
  destruct (try_extend_cases more (guard c) Hw) as [(r & E & _)|(g & E & Hg & He & _ & _ & Hwg)]; rewrite E in H.
  { injection H as <- <- <-. by left. }
  set (adds := drop_duplicates (instruments (guard c)) more) in *.
  assert (Eb : batches_from (guard_len (guard c)) g = chunks (per_message g) adds).
  { unfold batches_from, guard_len. rewrite Hg, length_app, drop_app_length.
    destruct (Nat.leb_spec (length (instruments (guard c))) (length (instruments (guard c)) + length adds)); [done|lia]. }
  rewrite Eb in H. destruct (write_batches_in_place _ _ _ _) as [run c2] eqn:Er.
  apply write_batches_spec in Er as (dn & rest & tail & Ech & Hwr & Hs & Hend & Hup & Haf); [|by apply up_with_guard].
  cbn in Hs.
  destruct (writes_up_with _ _ _ _ Hwr) as (G2 & W2 & _). pose proof (batches_split _ _ _ _ Ech) as Ea.
  destruct (take_from_spec (length (concat dn)) g (instruments (guard c)) adds Hg) as (gt & Et & Hgt & Hegt).
  { rewrite Ea, length_app. lia. }
  rewrite Ea, take_app_length in Hgt. rewrite Ea, drop_app_length in Et.
  rewrite G2, Hs in H. unfold guard_len in H. rewrite Et in H.
  right. exists dn, rest, tail, run. rewrite <- Ea, <- Hg, <- He. destruct Hwg as [Hng Hcg].
  do 3 (split; [done|]). split.
  { rewrite <- Ech. replace (per_message (guard c)) with (per_message g) by (unfold per_message; by rewrite He).
    apply chunks_cover, per_message_pos. }
  destruct (note_held_set_spec c2) as (N1 & N2 & N3).
  assert (Ha : after_event (default Continue (decided run)) c2 /\
               (default Continue (decided run) = Continue -> decided run = None)).
  { destruct Hend as [| | | |? ? ? ? Hd]; cbn in *; try (split; [by apply after_continue, Hup|done]). split; [by apply Haf|done]. }
  destruct Ha as [Ha1 Ha2].
  destruct (budget_exhausted run) eqn:Eb2.
  - injection H as <- <- <-. change (guard { c2 with guard := gt }) with gt. change (wire { c2 with guard := gt }) with (wire c2).
    split_and!; try done; [|by eapply after_event_sup].
    eapply (take_wf (length (instruments (guard c)) + length (concat dn)) g); [done| |done].
    by rewrite Hgt, Hg, Ea, app_assoc, <- length_app, take_app_length.
  - destruct (failed run) eqn:Ef; injection H as <- <- <-; rewrite ?N1, ?N2, G2; split_and!; try done.
    assert (Hdn : decided run = None) by by destruct Hend. rewrite Hdn. apply after_continue, N3, Hup, Hdn.
Qed.

Lemma extend_legal i more held c a o c' :
    up c -> guard_wf (guard c) -> held ≡ₚ instruments (guard c) ->
    on_extend i more c = (a, o, c') -> legal_step (CmdExtend more) held c a c'.
Proof.
  intros Hu Hw Hh H. destruct (extend_run i more c a o c' Hu Hw H) as [(_ & -> & ->)|Hr]; [by apply legal_step_idle|].
  destruct Hr as (dn & rest & tail & run & _ & Hn & Hc & Hf & W & Hend & Hw' & He' & Haf & Hup & Ho).
  apply small_batches in Hf.
  destruct (subscribe_leg_legal (g_endpoint (guard c)) held dn rest tail run Hend) as [Hacc Hcar];
    [by rewrite concat_app, Hh|by rewrite concat_app, Hh|done|].
  exists ((written SubscribeLeg <$> dn) ++ tail). split_and!; try done.
  intros Hcont [Hs1 Hs2] held' Hm. apply written_only in Hs2. apply not_elapsed_tail in Hs1.
  destruct Hend as [n|n b r|n b r|n b r|n r t d Hd Ht]; cbn in Ho, Hcar.
  - destruct Ho as [_ ->]. by rewrite (Hcar eq_refl Hs1 held' Hm), Hh, app_nil_r.
  - destruct Ho as [_ ->]. by rewrite (Hcar eq_refl Hs1 held' Hm), Hh.
  - by apply Forall_cons in Hs1 as [Hs1 _].
  - by apply Forall_cons in Hs2 as [Hs2 _].
  - by specialize (Hup Hcont).
Qed.

(** ** One for one *)

(** After a failed subscribe the connection redials, so nothing is claimed of it. *)
Lemma swap_failed_spec i uw ut rv d c a o c' :
    (d = None -> up c) -> (forall a, d = Some a -> after_event a c) -> d <> Some Continue ->
    swap_failed i uw ut rv d c = (a, o, c') ->
    guard c' = guard c /\ wire c' = wire c /\ after_event a c' /\
    ((uw || ut) && bool_decide (d = None) = true /\ a <> Continue /\ o = SwapNotHeld Emptied \/
     (uw || ut) && bool_decide (d = None) = false /\
       o = SwapNotHeld (if rv then WireFailedReverted else WireFailedReason) /\ (a = Continue -> d = None)).
Proof.
  intros Hu Haf Hd. unfold swap_failed. destruct ((uw || ut) && bool_decide (d = None)) eqn:El.
  - destruct (note_held_cleared_spec c) as (N1 & N2 & N3).
    destruct (sup_event _ _ _) as [a1 c1] eqn:E. intros [= <- <- <-].
    apply andb_true_iff in El as [_ El]. apply bool_decide_eq_true in El.
    apply subscribe_failed_redials in E as (Ha & [Hg Hw _ _ _] & Hae); [|auto].
    rewrite Hg, Hw. split_and!; [done..|]. left. done.
  - destruct (note_held_set_spec c) as (N1 & N2 & N3). intros [= <- <- <-].
    split_and!; [done..| |].
    + destruct d as [d|]; cbn; [|by apply after_continue, N3, Hu]. apply note_held_set_after. by apply Haf.
    + right. split_and!; try done. intros Hc. by destruct d; cbn in Hc; [congruence|].
Qed.

Lemma swap_filter (held : list SubscribeInstrument) old new l k :
    NoDup held -> held ≡ₚ l -> l !! k = Some old ->
    filter (fun i => i ∉ [old]) held ++ [new] ≡ₚ <[k := new]> l.
Proof.
  intros Hn Hh Hk. destruct (replace_perm l k old new Hk) as (rest & P & Q). rewrite Q.
  rewrite Permutation_app_comm. cbn. apply Permutation_skip. rewrite Hh, P. rewrite Hh, P in Hn.
  apply NoDup_cons in Hn as [Ho Hn].
  rewrite filter_cons_False by set_solver.
  apply NoDup_Permutation; [by apply NoDup_filter|done|].
  intros i. rewrite list_elem_of_filter. set_solver.
Qed.

Lemma legal_unsubscribe e old held o late_ok :
    old ∈ held -> late_ok = mkMessage Unsubscribe [old] o -> legal e late_ok held.
Proof.
  intros Ho ->. split; cbn; [unfold zlen; cbn; lia|]. intros j Hj. by apply list_elem_of_singleton in Hj as ->.
Qed.

Lemma swap_legal i old new held c a o c' :
    up c -> guard_wf (guard c) -> held ≡ₚ instruments (guard c) ->
    on_swap i old new c = (a, o, c') -> legal_step (CmdSwap old new) held c a c'.
Proof.
  intros Hu Hw Hh H. unfold on_swap in H. pose proof Hw as [Hn Hc].
  destruct (_ && sw_halted i); [injection H as <- _ <-; by apply legal_step_idle|].
  destruct (note_held_set_spec c) as (N1 & N2 & N3).
  destruct (try_swap_cases old new (guard c) Hw)
    as [(E & _)|[(E & _)|[(E & _)|(k & g & E & Hk & Ne & Hi & Hl & He & _ & _ & Hwg)]]]; rewrite E in H; cbn in H.
  1, 3: injection H as <- _ <-; apply legal_step_idle; auto.
  { injection H as <- _ <-. destruct (note_held_set_spec { c with guard := guard c }) as (M1 & M2 & M3).
    apply legal_step_idle; auto. }
  unfold swap_unsubscribe_leg in H. destruct (send Unsubscribe [old] (sw_unsub i) _) as [u c1] eqn:Eu.
  apply send_spec in Eu as (Hwr & Hup & Hcont & Hok & Haf); [|by apply up_with_guard].
  destruct (writes_up_with _ _ _ _ Hwr) as (G1 & W1 & _).
  pose proof (position_Some _ _ _ Hk) as Hk'.
  assert (Ho : old ∈ held) by (rewrite Hh; by eapply list_elem_of_lookup_2).
  assert (Hnh : NoDup held) by by rewrite Hh.
  destruct (wait_outcome u) eqn:Eo; cbv beta iota zeta in H; rewrite ?Eo in H.
  - specialize (Hok eq_refl). destruct (send SubscribeLeg [new] (sw_sub i) c1) as [s c2] eqn:Es.
    apply send_spec in Es as (Hwr2 & Hup2 & Hcont2 & Hok2 & Haf2); [|auto].
    destruct Hwr2 as [G2 W2 _ _ _].
    set (log := [written Unsubscribe [old]; mkMessage SubscribeLeg [new] (wait_outcome s)]).
    assert (Hacc : accepts (g_endpoint (guard c)) held log).
    { apply (accepts_app _ _ [written Unsubscribe [old]]). split.
      { apply one_message_accepts. by eapply legal_unsubscribe. }
      intros mid [late Hm]. change (mid = filter (fun i => i ∉ [old]) held) in Hm.
      assert (Hmid : mid ++ [new] ≡ₚ instruments g) by (rewrite Hm, Hl; by apply swap_filter).
      apply one_message_accepts. split; [unfold zlen; cbn; lia|].
      change (NoDup (mid ++ [new]) /\ zlen (mid ++ [new]) <= max_instruments_per_connection (g_endpoint (guard c))).
      rewrite Hmid, <- He. exact Hwg. }
    assert (Hwire : wire c2 = wire c ++ log) by by rewrite W2, W1, <- app_assoc.
    destruct (wait_outcome s) eqn:Eos.
    2, 3: apply swap_failed_spec in H as (F1 & F2 & F3 & F4); [|done..]; exists log;
      rewrite F1, F2, G2, G1; split_and!; try done; intros Hx;
      destruct F4 as [(_ & Ha & _)|(F & _ & Fu)]; [done|]; by rewrite (Fu Hx) in F.
    injection H as <- _ <-. destruct (note_held_set_spec c2) as (M1 & M2 & M3). exists log.
    rewrite M1, M2, G2, G1. split_and!; try done; [apply after_continue; auto|].
    intros _ _ held' (l1 & l2 & Hm).
    change (held' = filter (fun i => i ∉ [old]) held ++ [new]) in Hm. rewrite Hm, Hl. by apply swap_filter.
  - (* the unsubscribe was refused: the set is what it was *)
    destruct (undo_after_swap old new (guard c) g k Hw Hk Ne Hi Hl) as (g2 & Eun & Hl2 & He2).
    rewrite G1, Eun, Eo in H. cbn in H.
    apply swap_failed_spec in H as (F1 & F2 & F3 & _);
      [|done|intros ? ?; eapply after_event_sup; [by apply Haf|done]|done].
    exists [mkMessage Unsubscribe [old] WriteFailed]. rewrite F1, F2. change (guard { c1 with guard := g2 }) with g2.
    split_and!; try done.
    + split; rewrite Hl2; [done|]. by rewrite He2, He.
    + by rewrite He2.
    + intros _ _ held' [late ->]. cbn. by rewrite Hl2.
  - (* it timed out *)
    apply swap_failed_spec in H as (F1 & F2 & F3 & _); [|done..].
    exists [mkMessage Unsubscribe [old] WireElapsed]. rewrite F1, F2, G1.
    split_and!; try done.
    + apply one_message_accepts. by eapply legal_unsubscribe.
    + intros _ [[Hf _]%Forall_cons _]. done.
Qed.

(** ** The probe *)

Lemma head_of_batches g : head (concat (batches g)) = head (instruments g).
Proof. unfold batches. by destruct (chunks_cover (per_message g) (instruments g) (per_message_pos g)) as [-> _]. Qed.

Lemma only_instrument g d :
    (guard_len g =? 1)%nat && bool_decide (head (concat (batches g)) = Some d) = true -> instruments g = [d].
Proof.
  intros [Hl Hd]%andb_true_iff. apply bool_decide_eq_true in Hd. rewrite head_of_batches in Hd.
  unfold guard_len in Hl. destruct (instruments g) as [|x [|y l]]; [done| |done]. by injection Hd as ->.
Qed.

Lemma probe_legal i d sw held c a o c' :
    up c -> guard_wf (guard c) -> held ≡ₚ instruments (guard c) ->
    on_probe_unsubscribe i d sw c = (a, o, c') -> legal_step (CmdProbeUnsubscribe d sw) held c a c'.
Proof.
  intros Hu Hw Hh H. unfold on_probe_unsubscribe in H.
  destruct ((guard_len (guard c) =? 1)%nat && _) eqn:E.
  2:{ injection H as <- _ <-. by apply legal_step_idle. }
  apply only_instrument in E. rewrite E in Hh.
  assert (Hheld : held = [d]) by by apply Permutation_singleton_r in Hh.
  pose proof (truncate_to_wf 0 (guard c) Hw) as Hwt.
  assert (Ht : instruments (truncate_to 0 (guard c)) = [] /\ g_endpoint (truncate_to 0 (guard c)) = g_endpoint (guard c)).
  { unfold truncate_to, guard_len. rewrite E. split; [|done]. done. }
  destruct Ht as [Ht1 Ht2]. destruct sw.
  2:{ injection H as <- _ <-. exists []. cbn. rewrite app_nil_r. split_and!; try done;
      [by apply after_continue|by intros _ [_ ?]]. }
  destruct (send Unsubscribe [d] i c) as [w c1] eqn:Es.
  apply send_spec in Es as ([G W Hd _ _] & Hup & Hcont & Hok & Haf); [|done].
  assert (Hacc : accepts (g_endpoint (guard c)) held [mkMessage Unsubscribe [d] (wait_outcome w)]).
  { apply one_message_accepts. eapply legal_unsubscribe; [|done]. rewrite Hheld. by left. }
  assert (Hdec : forall c2, sup c2 = sup c1 -> after_event (default Continue (socket_decision w)) c2).
  { intros c2 E2. eapply after_event_sup; [|exact E2].
    destruct (socket_decision w); cbn; [by apply Haf|by apply after_continue, Hup]. }
  destruct (wait_outcome w) eqn:Eo; cbv beta iota zeta in H; injection H as <- _ <-.
  - exists [written Unsubscribe [d]]. change (guard { c1 with guard ::= truncate_to 0 }) with (truncate_to 0 (guard c1)).
    rewrite G. split_and!; try done; [by apply Hdec|].
    intros _ _ held' [late Hm]. change (held' = filter (fun i => i ∉ [d]) held) in Hm.
    rewrite Hm, Hheld, Ht1. rewrite filter_cons_False by set_solver. done.
  - exists [mkMessage Unsubscribe [d] WriteFailed]. rewrite G. split_and!; try done; [by apply Hdec|].
    intros _ _ held' [late Hm]. change (held' = held) in Hm. by rewrite Hm, Hheld, E.
  - exists [mkMessage Unsubscribe [d] WireElapsed]. rewrite G. split_and!; try done; [by apply Hdec|].
    by intros _ [[Hx _]%Forall_cons _].
Qed.

(** ** Many for many *)

Lemma filter_gone (gone kept held : list SubscribeInstrument) :
    NoDup held -> held ≡ₚ kept ++ gone -> filter (fun i => i ∉ gone) held ≡ₚ kept.
Proof.
  intros Hn Hh. assert (Hn2 : NoDup (kept ++ gone)) by by rewrite <- Hh.
  apply NoDup_app in Hn2 as (Hk & Hd & Hg).
  apply NoDup_Permutation; [by apply NoDup_filter|done|].
  intros i. rewrite list_elem_of_filter, Hh, elem_of_app. specialize (Hd i). tauto.
Qed.

Lemma put_back_spec l g :
    NoDup (instruments g ++ l) -> instruments (put_back l g) ≡ₚ instruments g ++ l /\
    g_endpoint (put_back l g) = g_endpoint g.
Proof.
  intros Hn. split; [|done]. pose proof Hn as (Hi & _ & _)%NoDup_app.
  destruct (put_back_list (instruments g) l Hi) as [N E].
  apply NoDup_Permutation; [exact N|done|]. intros i. rewrite elem_of_app. apply E.
Qed.

(** The unsubscribe leg stopped: the set is what was kept and what never left. *)
Lemma stop_unsubscribing_spec plan landed kept adds c a o c' :
    instruments (guard c) = kept ++ adds -> subscribe_from plan = length kept ->
    NoDup (kept ++ removed plan) -> up c ->
    stop_unsubscribing plan landed c = (a, o, c') ->
    a = Continue /\ o = Stopped (drop landed (removed plan)) adds /\ wire c' = wire c /\ after_event a c' /\
    instruments (guard c') ≡ₚ kept ++ drop landed (removed plan) /\ g_endpoint (guard c') = g_endpoint (guard c).
Proof.
  intros Hg Hp Hn Hu. unfold stop_unsubscribing.
  destruct (take_from_spec 0 (guard c) kept adds Hg) as (g' & Et & Hl & He); [lia|].
  rewrite Nat.add_0_r in Et. rewrite Hp, Et. cbn in Hl. rewrite app_nil_r in Hl.
  destruct (note_held_set_spec { c with guard := put_back (drop landed (removed plan)) g' }) as (N1 & N2 & N3).
  change (guard { c with guard := put_back (drop landed (removed plan)) g' }) with (put_back (drop landed (removed plan)) g') in N1.
  change (wire { c with guard := put_back (drop landed (removed plan)) g' }) with (wire c) in N2.
  destruct (put_back_spec (drop landed (removed plan)) g') as [Pi Pe].
  { rewrite Hl. eapply sublist_NoDup; [exact Hn|]. by apply sublist_app, sublist_drop. }
  intros [= <- <- <-]. rewrite N1, N2, Pe. split_and!; try done; [apply after_continue; auto|].
  rewrite Pi, Hl. done.
Qed.

Lemma stop_subscribing_spec plan n kept adds now c a o c' :
    up c -> instruments (guard c) = kept ++ adds -> (n <= length adds)%nat ->
    stop_subscribing plan (length kept + n) now c = (a, o, c') ->
    wire c' = wire c /\ g_endpoint (guard c') = g_endpoint (guard c) /\ after_event a c' /\
    ((kept = [] /\ n = 0%nat /\ a <> Continue /\ o = ReplayPending /\ guard c' = guard c) \/
     ((0 < length kept + n)%nat /\ a = Continue /\ o = Stopped [] (drop n adds) /\
      instruments (guard c') = kept ++ take n adds)).
Proof.
  intros Hu Hg Hn. unfold stop_subscribing.
  destruct (Nat.eqb_spec (length kept + n) 0) as [Hz|Hz].
  - destruct (sup_event SubscribeFailed now c) as [a1 c1] eqn:E. intros [= <- <- <-].
    apply subscribe_failed_redials in E as (Ha & [Hgg Hw _ _ _] & Haf); [|done].
    rewrite Hgg, Hw. split_and!; [done..|]. left. split_and!; try done; [destruct kept; [done|cbn in Hz; lia]|lia].
  - destruct (take_from_spec n (guard c) kept adds Hg Hn) as (g' & Et & Hl & He). rewrite Et.
    destruct (note_held_set_spec { c with guard := g' }) as (N1 & N2 & N3).
    change (guard { c with guard := g' }) with g' in N1. change (wire { c with guard := g' }) with (wire c) in N2.
    intros [= <- <- <-]. rewrite N1, N2. split_and!; try done; [apply after_continue; auto|].
    right. split_and!; try done. lia.
Qed.

(** What a many-for-many change asks for. *)
Definition requested (unsub sub held : list SubscribeInstrument) (i : SubscribeInstrument) : Prop :=
  (i ∈ held /\ i ∉ unsub) \/ i ∈ sub.

(** What its answer says of the set: all of it, nothing of it, or all but the
    instruments returned. *)
Definition resubscribe_told (unsub sub : list SubscribeInstrument) (o : ResubscribeOutcome)
    (before after : list SubscribeInstrument) (a : SupervisorAction) : Prop :=
  match o with
  | Applied => a = Continue /\ forall i, i ∈ after <-> requested unsub sub before i
  | ReplayPending => a <> Continue /\ forall i, i ∈ after <-> requested unsub sub before i
  | Refused _ => a = Continue /\ after = before
  | Stopped nu ns =>
      a = Continue /\ exists l, after ≡ₚ l ++ nu /\ NoDup (l ++ ns) /\
        (forall i, i ∈ l ++ ns <-> requested unsub sub before i)
  end.

Lemma chunks_nil n : chunks n [] = [].
Proof. done. Qed.

Lemma sublist_drop_app (k l : list SubscribeInstrument) n : k ++ drop n l `sublist_of` k ++ l.
Proof. apply sublist_app; [done|apply sublist_drop]. Qed.

Section resubscribe.
Context (u s held gone kept adds : list SubscribeInstrument) (c : Conn) (g : SubscribeGuard).
Hypotheses (Hw : guard_wf (guard c)) (Hh : held ≡ₚ instruments (guard c))
  (P : instruments (guard c) ≡ₚ kept ++ gone) (Hg : instruments g = kept ++ adds)
  (He : g_endpoint g = g_endpoint (guard c)) (Hwg : guard_wf g)
  (Hreq : forall j, j ∈ kept ++ adds <-> requested u s (instruments (guard c)) j).

Lemma resub_held : NoDup held /\ NoDup (kept ++ gone) /\ held ≡ₚ kept ++ gone.
Proof using Hw Hh P. rewrite Hh. split_and!; [apply Hw| |done]. rewrite <- P. apply Hw. Qed.

(** Nothing to do. *)
Lemma resubscribe_idle :
    plan_is_no_op (mkPlan gone (length kept)) (guard_len g) = true -> up c ->
    legal_step (CmdResubscribe u s) held c Continue { c with guard := g } /\
    resubscribe_told u s Applied (instruments (guard c)) (instruments g) Continue.
Proof using All.
  intros [En1 En2]%andb_true_iff Hu. apply bool_decide_eq_true in En1.
  apply Nat.leb_le in En2. cbn in En1, En2. unfold guard_len in En2. rewrite Hg, length_app in En2.
  assert (Ha : adds = []) by (destruct adds; [done|cbn in En2; lia]).
  assert (Hi : instruments g ≡ₚ instruments (guard c)) by by rewrite Hg, P, En1, Ha.
  split; [|split; [done|intros j; by rewrite Hg]].
  exists []. rewrite app_nil_r. split_and!; try done; [by apply after_continue|]. intros _ _ held' ->. by rewrite Hi.
Qed.

(** The unsubscribe leg stopped part-way. *)
Lemma resubscribe_stopped dn rest tail ru c1 a o c' :
    gone = concat dn ++ concat rest -> up c1 -> guard c1 = g ->
    wire c1 = wire c ++ ((written Unsubscribe <$> dn) ++ tail) -> sent ru = length (concat dn) ->
    leg_end Unsubscribe rest tail ru ->
    accepts (g_endpoint (guard c)) held ((written Unsubscribe <$> dn) ++ tail) ->
    (Forall (fun m => wm_outcome m <> WireElapsed) tail -> forall held',
       may_carry held ((written Unsubscribe <$> dn) ++ tail) held' ->
       held' = filter (fun i => i ∉ concat dn) held) ->
    stop_unsubscribing (mkPlan gone (length kept)) (sent ru + timed_out ru) c1 = (a, o, c') ->
    legal_step (CmdResubscribe u s) held c a c' /\
    resubscribe_told u s o (instruments (guard c)) (instruments (guard c')) a.
Proof using All.
  intros Eg Hup G1 W1 Hs Hend Hacc Hcar H. destruct resub_held as (Hnh & Hnk & Hhk).
  assert (Na : NoDup (kept ++ adds)) by (rewrite <- Hg; apply Hwg).
  destruct (stop_unsubscribing_spec (mkPlan gone (length kept)) (sent ru + timed_out ru) kept adds c1 a o c'
    ltac:(by rewrite G1) eq_refl Hnk Hup H) as (-> & -> & Hwi & Haf & Hi & Hee).
  cbn [removed] in Hi. split; [|split; [done|]; exists kept; by rewrite Hi].
  eexists. rewrite Hwi, W1. split_and!; try done.
  - split; rewrite Hi.
    + eapply sublist_NoDup; [exact Hnk|]. apply sublist_drop_app.
    + rewrite Hee, G1, He. destruct Hw as [_ Hc]. etrans; [|exact Hc]. rewrite P, !zlen_app.
      unfold zlen. rewrite length_drop. lia.
  - by rewrite Hee, G1, He.
  - intros _ [Hs1 _] held' Hm. apply not_elapsed_tail in Hs1. rewrite (Hcar Hs1 held' Hm), Hi.
    assert (Hto : timed_out ru = 0%nat).
    { destruct Hend; try done. by apply Forall_cons in Hs1 as [Hs1 _]. }
    rewrite Hto, Nat.add_0_r, Hs, Eg, drop_app_length.
    apply filter_gone; [done|]. rewrite Hhk, Eg. solve_Permutation.
Qed.

(** The unsubscribe leg went out; the subscribe leg on every ending. *)
Lemma resubscribe_subscribing dn inp now c1 rs c2 a o c' :
    up c1 -> guard c1 = g -> wire c1 = wire c ++ (written Unsubscribe <$> dn) ->
    accepts (g_endpoint (guard c)) held (written Unsubscribe <$> dn) ->
    (forall mid, may_carry held (written Unsubscribe <$> dn) mid -> mid ≡ₚ kept) ->
    write_batches_in_place SubscribeLeg (batches_from (length kept) (guard c1)) inp c1 = (rs, c2) ->
    match decided rs with
    | Some d => (d, ReplayPending, c2)
    | None =>
        if failed rs || budget_exhausted rs
        then stop_subscribing (mkPlan gone (length kept)) (length kept + sent rs) now c2
        else (Continue, Applied, note_held_set c2)
    end = (a, o, c') ->
    legal_step (CmdResubscribe u s) held c a c' /\
    resubscribe_told u s o (instruments (guard c)) (instruments (guard c')) a.
Proof using All.
  intros Hup G1 W1 Hacc Hmid Es2 H. pose proof Hwg as [Hng Hcg]. rewrite Hg in Hng. rewrite Hg, He in Hcg.
  assert (Eb : batches_from (length kept) (guard c1) = chunks (per_message g) adds).
  { unfold batches_from, guard_len. rewrite G1, Hg, length_app, drop_app_length.
    destruct (Nat.leb_spec (length kept) (length kept + length adds)); [done|lia]. }
  rewrite Eb in Es2.
  apply leg_run in Es2 as (dn2 & rest2 & tail2 & Ea & Hf2 & [G2 W2 _ _ _] & Hs2 & Hend2 & Hup2 & Haf2); [|done].
  rewrite G1 in G2. rewrite He in Hf2.
  assert (Hsub : forall mid, mid ≡ₚ kept ->
     accepts (g_endpoint (guard c)) mid ((written SubscribeLeg <$> dn2) ++ tail2) /\
     (decided rs = None -> Forall (fun m => wm_outcome m <> WireElapsed) tail2 ->
      forall held', may_carry mid ((written SubscribeLeg <$> dn2) ++ tail2) held' -> held' = mid ++ concat dn2)).
  { intros mid Hm.
    apply (subscribe_leg_legal _ mid dn2 rest2 tail2 rs Hend2); [| |done]; rewrite concat_app, <- Ea, Hm; done. }
  assert (Hlog : guard_wf (guard c') -> g_endpoint (guard c') = g_endpoint g -> wire c' = wire c2 ->
     after_event a c' ->
     (a = Continue -> decided rs = None /\ instruments (guard c') = kept ++ concat dn2) ->
     legal_step (CmdResubscribe u s) held c a c').
  { intros Hwg' Heg Hwc Haf Hact.
    exists ((written Unsubscribe <$> dn) ++ (written SubscribeLeg <$> dn2) ++ tail2).
    rewrite Hwc, W2, W1, <- app_assoc. split_and!; try done; [|congruence|].
    - apply accepts_app. split; [done|]. intros mid Hm. by apply Hsub, Hmid.
    - intros (Hdn & Hig)%Hact [[_ Ht]%Forall_app _] held' (mid & Hm1 & Hm2)%may_carry_app.
      apply not_elapsed_tail in Ht. destruct (Hsub mid (Hmid mid Hm1)) as [_ Hc2].
      by rewrite (Hc2 Hdn Ht held' Hm2), Hig, (Hmid mid Hm1). }
  destruct (decided rs) as [d|] eqn:Ed2.
  { injection H as <- <- <-. assert (Hd : d <> Continue).
    { destruct Hend2 as [| | | |? ? ? ? Hd]; cbn in Ed2; congruence. }
    split; [apply Hlog; rewrite ?G2; try done; by apply Haf2|split; [done|by rewrite G2, Hg]]. }
  specialize (Hup2 eq_refl). destruct (failed rs || budget_exhausted rs) eqn:Efb2.
  - rewrite Hs2 in H.
    destruct (stop_subscribing_spec (mkPlan gone (length kept)) (length (concat dn2)) kept adds now c2 a o c'
        Hup2 ltac:(by rewrite G2) ltac:(rewrite Ea, length_app; lia) H)
      as (Hwi & Hee & Haf & [(Hk & Hz & Ha & -> & Hgg)|(Hpos & -> & -> & Hi)]); rewrite G2 in Hee.
    + split; [apply Hlog; rewrite ?Hgg, ?G2; try done|split; [done|by rewrite Hgg, G2, Hg]].
    + rewrite Ea, take_app_length in Hi. rewrite Ea, drop_app_length. split.
      * apply Hlog; try done. eapply (take_wf (length kept + length (concat dn2)) g); [done| |done].
        by rewrite Hi, Hg, Ea, app_assoc, <- length_app, take_app_length.
      * split; [done|]. exists (kept ++ concat dn2). by rewrite Hi, app_nil_r, <- app_assoc, <- Ea.
  - injection H as <- <- <-. destruct (note_held_set_spec c2) as (N1 & N2 & N3).
    assert (Hall : rest2 = []) by (destruct Hend2; done). subst rest2. cbn in Ea. rewrite app_nil_r in Ea.
    rewrite N1, G2 in *. split; [|by rewrite Hg].
    apply Hlog; try done; [apply after_continue; auto|]. intros _. by rewrite Hg, Ea.
Qed.
End resubscribe.

Lemma resubscribe_spec i u s held c a o c' :
    up c -> guard_wf (guard c) -> held ≡ₚ instruments (guard c) ->
    apply_resubscribe i u s c = (a, o, c') ->
    legal_step (CmdResubscribe u s) held c a c' /\
    resubscribe_told u s o (instruments (guard c)) (instruments (guard c')) a.
Proof.
  intros Hu Hw Hh H. unfold apply_resubscribe in H.
  destruct (inplace_change_blocked_by_805 _ _).
  { injection H as <- <- <-. split; [by apply legal_step_idle|done]. }
  destruct (try_resubscribe_cases u s (guard c) Hw)
    as [(E & _)|(gone & kept & adds & _ & _ & Hgone & Hkept & Hadds & P & _ & Hcase)].
  { rewrite E in H. injection H as <- <- <-. split; [by apply legal_step_idle|done]. }
  assert (Hreq : forall j, j ∈ kept ++ adds <-> requested u s (instruments (guard c)) j).
  { intros j. unfold requested. rewrite elem_of_app, Hadds, elem_of_drop_duplicates, Hkept, list_elem_of_filter, Hgone.
    destruct (decide (j ∈ s)), (decide (j ∈ u)), (decide (j ∈ instruments (guard c))); naive_solver. }
  destruct Hcase as [(r & E & Hr & _)|(g & E & Hg & He & _ & _ & Hwg)]; rewrite E in H.
  { destruct r; cbn in H; injection H as <- <- <-; (split; [by apply legal_step_idle|done]). }
  clear E Hkept Hadds Hgone. destruct (resub_held held gone kept c Hw Hh P) as (Hnh & Hnk & Hhk).
  destruct (plan_is_no_op _ _) eqn:Eno.
  { injection H as <- <- <-. by apply (resubscribe_idle u s held gone kept adds). }
  change (removed (mkPlan gone (length kept))) with gone in H.
  change (subscribe_from (mkPlan gone (length kept))) with (length kept) in H.
  destruct (write_batches_in_place Unsubscribe _ _ _) as [ru c1] eqn:Eu.
  apply leg_run in Eu as (dn & rest & tail & Eg & Hf & Hwr & Hs & Hend & Hup & Haf); [|by apply up_with_guard].
  destruct (writes_up_with _ _ _ _ Hwr) as (G1 & W1 & _). rewrite He in Hf.
  destruct (unsubscribe_leg_legal (g_endpoint (guard c)) held dn rest tail ru Hend) as [Hacc Hcar]; [| |done|].
  { rewrite concat_app, <- Eg. by apply NoDup_app in Hnk as (_ & _ & ?). }
  { rewrite concat_app, <- Eg. intros j Hj. rewrite Hhk. apply elem_of_app. by right. }
  destruct (decided ru) as [d|] eqn:Ed.
  { injection H as <- <- <-. assert (Hd : d <> Continue).
    { destruct Hend as [| | | |? ? ? ? Hd]; cbn in Ed; congruence. }
    split; [|split; [done|by rewrite G1, Hg]]. eexists. rewrite G1. split_and!; try done. by apply Haf. }
  destruct (failed ru || budget_exhausted ru) eqn:Efb.
  { apply (resubscribe_stopped u s held gone kept adds c g Hw Hh P Hg He Hwg Hreq dn rest tail ru c1); auto. }
  assert (Hall : rest = [] /\ tail = []) by (destruct Hend; done). destruct Hall as [-> ->].
  cbn in Eg. rewrite app_nil_r in Eg. rewrite app_nil_r in Hacc, W1, Hcar.
  destruct (write_batches_in_place SubscribeLeg _ _ _) as [rs c2] eqn:Es2.
  apply (resubscribe_subscribing u s held gone kept adds c g Hw Hh P Hg He Hwg Hreq dn (sub_leg i) (ended_at i) c1 rs c2); auto.
  intros mid Hm. rewrite (Hcar eq_refl (Forall_nil_2 _) mid Hm), <- Eg. by apply filter_gone.
Qed.

(** * What the answers say *)

Definition extend_told (more : list SubscribeInstrument) (o : ExtendOutcome)
    (before after : list SubscribeInstrument) : Prop :=
  match o with
  | ExtendHeld => after = before ++ drop_duplicates before more
  | ExtendRefused => after = before
  | Truncated nh => exists l, after = before ++ l /\ drop_duplicates before more = l ++ nh
  end.

Definition swap_told (old new : SubscribeInstrument) (o : SwapOutcome)
    (before after : list SubscribeInstrument) (a : SupervisorAction) : Prop :=
  (o = SwapNotHeld Emptied -> a <> Continue) /\
  if caller_should_unmark o then after = before
  else new ∈ after /\ old ∈ before /\ (old = new \/ old ∉ after).

Definition probe_told (d : SubscribeInstrument) (o : ProbeUnsubscribeOutcome)
    (before after : list SubscribeInstrument) : Prop :=
  if needs_restore o then before = [d] /\ after = [] else after = before.

Definition told (cmd : LiveSubscriptionCommand) (ans : Answer)
    (before after : list SubscribeInstrument) (a : SupervisorAction) : Prop :=
  match cmd, ans with
  | CmdExtend more, AnsExtend o => extend_told more o before after
  | CmdSwap old new, AnsSwap o => swap_told old new o before after a
  | CmdProbeUnsubscribe d _, AnsProbe o => probe_told d o before after
  | CmdResubscribe u s, AnsResubscribe o => resubscribe_told u s o before after a
  | _, _ => False
  end.

Lemma swap_answer i old new c a o c' :
    up c -> guard_wf (guard c) -> on_swap i old new c = (a, o, c') ->
    swap_told old new o (instruments (guard c)) (instruments (guard c')) a.
Proof.
  intros Hu Hw H. unfold on_swap in H. pose proof Hw as [Hn Hc].
  destruct (_ && sw_halted i); [injection H as <- <- <-; done|].
  destruct (note_held_set_spec c) as (N1 & N2 & N3).
  destruct (try_swap_cases old new (guard c) Hw)
    as [(E & _)|[(E & -> & Hin)|[(E & _)|(k & g & E & Hk & Ne & Hi & Hl & He & _ & _ & Hwg)]]]; rewrite E in H; cbn in H.
  1, 3: injection H as <- <- <-; split; [done|by rewrite N1].
  { injection H as <- <- <-. destruct (note_held_set_spec { c with guard := guard c }) as (M1 & M2 & M3).
    split; [done|]. cbn. rewrite M1. auto. }
  unfold swap_unsubscribe_leg in H. destruct (send Unsubscribe [old] (sw_unsub i) _) as [u c1] eqn:Eu.
  apply send_spec in Eu as (Hwr & Hup & Hcont & Hok & Haf); [|by apply up_with_guard].
  destruct (writes_up_with _ _ _ _ Hwr) as (G1 & _ & _).
  pose proof (position_Some _ _ _ Hk) as Hk'. destruct (replace_perm _ _ _ new Hk') as (rest & P & Q).
  assert (Hnew : new ∈ instruments g /\ old ∈ instruments (guard c) /\ (old = new \/ old ∉ instruments g)).
  { rewrite Hl, Q, P. split_and!; [by left|by left|]. right. rewrite P in Hn. apply NoDup_cons in Hn as [Hn _]. set_solver. }
  destruct (wait_outcome u) eqn:Eo; cbv beta iota zeta in H; rewrite ?Eo in H.
  - specialize (Hok eq_refl). destruct (send SubscribeLeg [new] (sw_sub i) c1) as [s c2] eqn:Es.
    apply send_spec in Es as ([G2 _ _ _ _] & Hup2 & Hcont2 & Hok2 & Haf2); [|auto]. rewrite G1 in G2.
    destruct (note_held_set_spec c2) as (M1 & M2 & M3).
    destruct (wait_outcome s) eqn:Eos.
    2, 3: apply swap_failed_spec in H as (F1 & _ & _ & [(_ & Ha & ->)|(_ & -> & _)]); [..|done|done|done];
        (split; [done|cbn; by rewrite F1, G2]).
    injection H as <- <- <-. split; [done|]. cbn. by rewrite M1, G2.
  - destruct (undo_after_swap old new (guard c) g k Hw Hk Ne Hi Hl) as (g2 & Eun & Hl2 & He2).
    rewrite G1, Eun, Eo in H. cbn in H.
    apply swap_failed_spec in H as (F1 & _ & _ & [(? & _)|(_ & -> & _)]);
      [done| |done|intros ? ?; eapply after_event_sup; [by apply Haf|done]|done].
    split; [done|]. cbn. by rewrite F1.
  - apply swap_failed_spec in H as (F1 & _ & _ & [(_ & Ha & ->)|(_ & -> & _)]); [..|done|done|done];
      (split; [done|cbn; by rewrite F1, G1]).
Qed.

Lemma probe_answer i d sw c a o c' :
    up c -> on_probe_unsubscribe i d sw c = (a, o, c') ->
    probe_told d o (instruments (guard c)) (instruments (guard c')).
Proof.
  intros Hu H. unfold on_probe_unsubscribe in H.
  destruct ((guard_len (guard c) =? 1)%nat && _) eqn:E; [|by injection H as <- <- <-].
  apply only_instrument in E.
  assert (Ht : forall g, guard g = guard c -> instruments (truncate_to 0 (guard g)) = []).
  { intros g ->. unfold truncate_to, guard_len. by rewrite E. }
  destruct sw; [|injection H as <- <- <-; split; [done|by apply (Ht c)]].
  destruct (send Unsubscribe [d] i c) as [w c1] eqn:Es.
  apply send_spec in Es as ([G W Hd _ _] & Hup & Hcont & Hok & Haf); [|done].
  destruct (wait_outcome w) eqn:Eo; cbv beta iota zeta in H; injection H as <- <- <-; cbn; [|by rewrite G..].
  split; [done|]. by apply Ht.
Qed.

Lemma command_spec i cmd held c a ans c' :
    up c -> guard_wf (guard c) -> held ≡ₚ instruments (guard c) ->
    run_command i cmd c = (a, ans, c') ->
    legal_step cmd held c a c' /\ told cmd ans (instruments (guard c)) (instruments (guard c')) a.
Proof.
  intros Hu Hw Hh H. destruct cmd as [more|old new|d sw|u s]; cbn in H.
  - destruct (on_extend _ _ _) as [[a1 o1] c1] eqn:E. injection H as <- <- <-.
    split; [by eapply extend_legal|]. cbn.
    destruct (extend_run _ _ _ _ _ _ Hu Hw E) as [(-> & -> & _)|(dn & rest & tail & run & Ea & _ & _ & _ & _ & _ & _ & _ & _ & _ & Ho)]; [done|].
    destruct (budget_exhausted run), Ho as [-> ->]; cbn; [by exists (concat dn)|by rewrite Ea].
  - destruct (on_swap _ _ _ _) as [[a1 o1] c1] eqn:E. injection H as <- <- <-.
    split; [by eapply swap_legal|by eapply swap_answer].
  - destruct (on_probe_unsubscribe _ _ _ _) as [[a1 o1] c1] eqn:E. injection H as <- <- <-.
    split; [by eapply probe_legal|by eapply probe_answer].
  - destruct (apply_resubscribe _ _ _ _) as [[a1 o1] c1] eqn:E. injection H as <- <- <-.
    by eapply resubscribe_spec.
Qed.

(** A run of commands on one connection, each of which settles. *)
Inductive settled_run : Conn -> list WireMessage -> Conn -> Prop :=
  | settled_nil c : settled_run c [] c
  | settled_cons c i cmd ans c1 log log' c2 :
      run_command i cmd c = (Continue, ans, c1) -> wire c1 = wire c ++ log -> settles cmd log ->
      settled_run c1 log' c2 -> settled_run c (log ++ log') c2.

Lemma settled_run_spec c log c1 held :
    up c -> guard_wf (guard c) -> held ≡ₚ instruments (guard c) -> settled_run c log c1 ->
    up c1 /\ guard_wf (guard c1) /\ g_endpoint (guard c1) = g_endpoint (guard c) /\ wire c1 = wire c ++ log /\
    accepts (g_endpoint (guard c)) held log /\
    forall held', may_carry held log held' -> held' ≡ₚ instruments (guard c1).
Proof.
  intros Hu Hw Hh H. revert held Hu Hw Hh.
  induction H as [c|c i cmd ans c1 log log' c2 E Hwi Hset Hrun IH]; intros held Hu Hw Hh.
  { rewrite app_nil_r. split_and!; try done. by intros held' ->. }
  destruct (command_spec _ _ held _ _ _ _ Hu Hw Hh E) as [(log0 & W0 & Hacc & Hw1 & He1 & Hu1 & Hc1) _].
  rewrite W0 in Hwi. apply app_inv_head in Hwi as ->. apply after_continue in Hu1. specialize (Hc1 eq_refl Hset).
  assert (Hmid : exists mid, may_carry held log mid).
  { clear. revert held. induction log as [|m log IH]; intros held; [by exists held|].
    destruct (IH (after_message m true held)) as [mid H]. exists mid. by exists true. }
  assert (HIH : forall mid, may_carry held log mid ->
    up c2 /\ guard_wf (guard c2) /\ g_endpoint (guard c2) = g_endpoint (guard c) /\ wire c2 = wire c ++ log ++ log' /\
    accepts (g_endpoint (guard c)) mid log' /\ forall held', may_carry mid log' held' -> held' ≡ₚ instruments (guard c2)).
  { intros mid Hm. destruct (IH mid Hu1 Hw1 (Hc1 mid Hm)) as (A & B & C & D & F & G).
    rewrite He1 in C, F. split_and!; try done. by rewrite D, W0, app_assoc. }
  destruct Hmid as [mid Hm]. destruct (HIH mid Hm) as (A & B & C & D & _ & _).
  split_and!; try done.
  - apply accepts_app. split; [done|]. intros m Hmm. apply (HIH m Hmm).
  - intros held' (m & H1 & H2)%may_carry_app. by apply (HIH m H1).
Qed.

(** The first message of a leg that is not out of time. *)
Lemma first_write leg b bs inp n c run c' :
    up c -> past_deadline (inp 0%nat) = false ->
    write_batches leg (b :: bs) inp (mkRun n 0 false false None) c = (run, c') ->
    exists o rest, wire c' = wire c ++ mkMessage leg b o :: rest.
Proof.
  intros Hu Hd H. cbn [write_batches] in H. rewrite Hd in H.
  destruct (send leg b _ c) as [w c1] eqn:Es.
  apply send_spec in Es as ([_ W _ _ _] & Hup & _ & Hok & _); [|done].
  assert (Hone : forall c2 rest, wire c2 = wire c1 ++ rest -> exists o rest, wire c2 = wire c ++ mkMessage leg b o :: rest).
  { intros c2 rest E. exists (wait_outcome w), rest. by rewrite E, W, <- app_assoc. }
  destruct (socket_decision w) eqn:Ed; [injection H as _ <-; apply (Hone c1 []); by rewrite app_nil_r|].
  destruct (wait_outcome w) eqn:Eo; [|injection H as _ <-; apply (Hone c1 []); by rewrite app_nil_r..].
  destruct (read_until _ c1) as [d c2] eqn:Er. apply read_events_spec in Er as ([_ W2 _ _ _] & Hu2 & _); [|auto].
  destruct d as [d|]; [injection H as _ <-; apply (Hone c2 []); by rewrite app_nil_r|].
  apply write_batches_spec in H as (dn & r & tail & _ & [_ W3 _ _ _] & _); [|auto].
  rewrite W2 in W3. by eapply Hone.
Qed.

Lemma extend_first_write i more c a o c' b bs :
    up c -> guard_wf (guard c) -> past_deadline (sub_leg i 0%nat) = false ->
    on_extend i more c = (a, o, c') -> o <> ExtendRefused ->
    chunks (per_message (guard c)) (drop_duplicates (instruments (guard c)) more) = b :: bs ->
    exists out rest, wire c' = wire c ++ mkMessage SubscribeLeg b out :: rest.
Proof.
  intros Hu Hw Hd H Ho Eb. unfold on_extend in H.
  destruct (try_extend_cases more (guard c) Hw) as [(r & E & _)|(g & E & Hg & He & _ & _ & Hwg)]; rewrite E in H.
  { by injection H as <- <- <-. }
  assert (Ebf : batches_from (guard_len (guard c)) g = b :: bs).
  { rewrite <- Eb. unfold batches_from, guard_len. rewrite Hg, length_app, drop_app_length.
    replace (per_message (guard c)) with (per_message g) by (unfold per_message; by rewrite He).
    destruct (Nat.leb_spec (length (instruments (guard c)))
      (length (instruments (guard c)) + length (drop_duplicates (instruments (guard c)) more))); [done|lia]. }
  rewrite Ebf in H. destruct (write_batches_in_place _ _ _ _) as [run c2] eqn:Er.
  apply first_write in Er as (out & rest & W); [|by apply up_with_guard|done]. exists out, rest.
  change (wire { c with guard := g }) with (wire c) in W. rewrite <- W.
  destruct (note_held_set_spec c2) as (N1 & N2 & N3). destruct (budget_exhausted run).
  - destruct (take_from _ _) as [nh g']. by injection H as _ _ <-.
  - destruct (failed run); by injection H as _ _ <-.
Qed.

Lemma chunks_head n x l : (0 < n)%nat -> exists b bs, chunks n (x :: l) = b :: bs /\ x ∈ b.
Proof.
  intros Hn. eexists _, _. split; [reflexivity|]. destruct n; [lia|]. by left.
Qed.

(** A socket that does and hears nothing, and answers no write in time. *)
Definition quiet_write : WriteInput := mkWrite [] BudgetElapsed None 0.

Lemma quiet_send leg b c : send leg b quiet_write c = (mkWait WireElapsed None, { c with wire ::= fun l => l ++ [mkMessage leg b WireElapsed] }).
Proof. done. Qed.

Lemma one_for_one_plan old new g :
    g_endpoint g = Depth200 -> instruments g = [old] -> old <> new ->
    try_resubscribe [old] [new] g = (Ok (mkPlan [old] 0), { g with instruments := [new] }) /\
    try_swap old new g = (Ok (mkSwap (Some old) (Some new)), { g with instruments := [new] }).
Proof.
  destruct g as [ge gi gg gc]. cbn. intros -> -> Ne.
  assert (H1 : old ∉ [new]) by set_solver. assert (H2 : new ∉ [old]) by set_solver.
  assert (H3 : old ∉ []) by set_solver. assert (H4 : old ∈ [old]) by set_solver.
  assert (H5 : new ∉ []) by set_solver.
  unfold try_resubscribe, try_swap. cbn [instruments g_endpoint plan_removals position].
  rewrite (decide_True (P := old ∈ [old])) by done. rewrite (decide_False (P := old ∈ [new])) by done.
  rewrite (decide_False (P := old ∈ [])) by done. cbn [app].
  rewrite filter_cons_False by tauto. cbn [filter list_filter drop_duplicates].
  rewrite (decide_False (P := new ∈ [])) by done.
  rewrite decide_True by done. rewrite decide_False by done. by rewrite (decide_False (P := new ∈ [old])) by done.
Qed.

(** ** A connection to run the properties on *)

Definition nifty (n : Z) : SubscribeInstrument := mkInstrument n NseFno.

Definition sample_slot (e : DhanEndpointType) : ConnectionSlot := mkSlot PrimaryAccount e 0 (jitter_base e).

Definition sample_conn (e : DhanEndpointType) (ins : list SubscribeInstrument) : Conn :=
  mkConn (new_supervisor (sample_slot e) 0) (mkGuard e ins 1 true) [] [] None.

Definition good_batch : BatchInput := mkBatch false (mkWrite [] (Answered 1 1 true) None 0) [].
Definition late_batch : BatchInput := mkBatch false quiet_write [].

(** Every write answered but for the one with the given number. *)
Definition sample_legs (late : option nat) : LegsInput :=
  mkLegs false (fun k => if decide (late = Some k) then late_batch else good_batch)
    (fun k => if decide (late = Some k) then late_batch else good_batch) 9.
Definition sample_input (late : option nat) : CommandInput :=
  mkCommandInput (sample_legs late) (mkSwapInput false quiet_write quiet_write 9) quiet_write.

Lemma sample_up e ins : up (sample_conn e ins).
Proof. split; [apply wf_new|done]. Defined.

Lemma sample_wf e ins : NoDup ins -> zlen ins <= max_instruments_per_connection e -> guard_wf (guard (sample_conn e ins)).
Proof. by split. Defined.

Module LiveSubscription.

(** C11: After any run of commands that settled, the next one, whatever the
    socket does meanwhile, sends only legal messages whichever late writes land:
    no instrument twice, never past the connection's cap, nothing unsubscribed
    that is not there. If it settles in turn, the set is again what the socket
    carries. *)
Theorem live_changes_are_legal c log c1 i cmd a ans c2 held :
    up c -> guard_wf (guard c) -> held ≡ₚ instruments (guard c) ->
    settled_run c log c1 -> run_command i cmd c1 = (a, ans, c2) ->
    exists new,
      wire c2 = wire c ++ log ++ new /\
      accepts (g_endpoint (guard c)) held (log ++ new) /\
      guard_wf (guard c2) /\
      (a = Continue -> settles cmd new ->
       forall held', may_carry held (log ++ new) held' -> held' ≡ₚ instruments (guard c2)).
Proof.
  intros Hu Hw Hh Hrun E.
  destruct (settled_run_spec _ _ _ _ Hu Hw Hh Hrun) as (Hu1 & Hw1 & He1 & W1 & Hacc & Hmid).
  assert (Hstep : forall mid, may_carry held log mid -> legal_step cmd mid c1 a c2).
  { intros mid Hm. by destruct (command_spec _ _ mid _ _ _ _ Hu1 Hw1 (Hmid mid Hm) E). }
  destruct (command_spec _ _ (instruments (guard c1)) _ _ _ _ Hu1 Hw1 (reflexivity _) E) as [(new & W2 & _ & Hw2 & _) _].
  exists new. split; [by rewrite W2, W1, app_assoc|].
  assert (Huse : forall mid, may_carry held log mid ->
    accepts (g_endpoint (guard c)) mid new /\
    (a = Continue -> settles cmd new -> forall held', may_carry mid new held' -> held' ≡ₚ instruments (guard c2))).
  { intros mid Hm. destruct (Hstep mid Hm) as (new' & W' & A & _ & _ & _ & F).
    rewrite W2 in W'. apply app_inv_head in W' as <-. by rewrite He1 in A. }
  split_and!; [|done|].
  - apply accepts_app. split; [done|]. intros mid Hm. by apply Huse.
  - intros Hc Hs held' (mid & H1 & H2)%may_carry_app. by apply (Huse mid H1).
Qed.

(** The answer to a command says what the set then names, on every branch:
    what was added and what was cut off by a top-up, whether a swap must be taken
    back, whether a probe emptied the set, and how far a many-for-many change
    came. *)
Theorem the_answer_is_the_set i cmd c a ans c' :
    up c -> guard_wf (guard c) -> run_command i cmd c = (a, ans, c') ->
    told cmd ans (instruments (guard c)) (instruments (guard c')) a.
Proof. intros Hu Hw E. by destruct (command_spec i cmd (instruments (guard c)) c a ans c' Hu Hw (reflexivity _) E). Qed.

(** A top-up cut short by a write that timed out hands the rest back, and
    offering the rest again subscribes an instrument that the late write may have
    put on the socket. *)
Theorem a_late_top_up_is_sent_twice i more c nh c1 log i2 a2 o2 c2 :
    up c -> guard_wf (guard c) -> on_extend i more c = (Continue, Truncated nh, c1) ->
    wire c1 = wire c ++ log -> Exists (fun m => wm_outcome m = WireElapsed) log ->
    past_deadline (sub_leg i2 0%nat) = false -> on_extend i2 nh c1 = (a2, o2, c2) ->
    exists held again out rest x,
      may_carry (instruments (guard c)) log held /\
      wire c2 = wire c ++ log ++ mkMessage SubscribeLeg again out :: rest /\
      x ∈ again /\ x ∈ held.
Proof.
  intros Hu Hw E W Hex Hd E2.
  destruct (extend_run _ _ _ _ _ _ Hu Hw E)
    as [(? & _)|(dn & rest & tail & run & Ea & Hn & Hc & Hf & W1 & Hend & Hw1 & He1 & Hup & _ & Ho)]; [done|].
  apply after_continue in Hup. rewrite W in W1. apply app_inv_head in W1 as ->.
  apply Exists_app in Hex as [Hex|Hex].
  { apply Exists_exists in Hex as (m & (b & -> & _)%list_elem_of_fmap & Hm). done. }
  destruct Hend as [n|n b r|n b r|n b r|n r t d Hdc Ht]; cbn in Ho; try by destruct Ho.
  { by apply Exists_nil in Hex. }
  destruct Ho as [[= ->] Hi]. apply Forall_app in Hf as [_ [[Hb _] _]%Forall_cons].
  destruct b as [|x b]; [cbn in Hb; lia|]. cbn in Hn, Hc.
  change ((x :: b) ++ concat r) with (x :: b ++ concat r) in E2.
  assert (Hdd : drop_duplicates (instruments (guard c1)) (x :: b ++ concat r) = x :: b ++ concat r).
  { rewrite app_assoc in Hn. apply NoDup_app in Hn as (_ & Hdis & Hnd). apply drop_duplicates_id; [done|].
    intros j Hj Hin. rewrite Hi in Hin. by apply (Hdis j). }
  destruct (chunks_head (per_message (guard c1)) x (b ++ concat r) (per_message_pos _)) as (again & bs & Ech & Hx).
  destruct (extend_first_write i2 (x :: b ++ concat r) c1 a2 o2 c2 again bs) as (out & rest & W2); try done.
  { intros ->. unfold on_extend in E2.
    destruct (try_extend_cases (x :: b ++ concat r) (guard c1) Hw1) as [(rf & Et & Hcap)|(g & Et & _)]; rewrite Et in E2.
    - rewrite Hdd, Hi, <- app_assoc, He1 in Hcap. cbn in Hcap. lia.
    - destruct (write_batches_in_place _ _ _ _) as [run2 c3]. destruct (budget_exhausted run2);
        [destruct (take_from _ _); done|destruct (failed run2); done]. }
  { by rewrite Hdd. }
  exists (instruments (guard c) ++ concat dn ++ x :: b), again, out, rest, x. split_and!.
  - apply may_carry_app. exists (instruments (guard c) ++ concat dn). split; [by apply may_carry_subscribed|].
    exists true. cbn. by rewrite <- app_assoc.
  - by rewrite W2, W, <- !app_assoc.
  - done.
  - set_solver.
Qed.

(** On a connection of one instrument whose unsubscribe times out, a many-for-
    many change leaves an empty set, answers that it stopped and does nothing
    more, where the one-for-one change keeps the new instrument in the set and
    redials. *)
Theorem a_timed_out_change_is_left_empty i j old new c :
    up c -> conn_endpoint c = Depth200 -> g_endpoint (guard c) = Depth200 -> instruments (guard c) = [old] -> old <> new ->
    halted i = false -> past_deadline (unsub_leg i 0%nat) = false -> write (unsub_leg i 0%nat) = quiet_write ->
    sw_halted j = false -> sw_unsub j = quiet_write ->
    (exists c', apply_resubscribe i [old] [new] c = (Continue, Stopped [] [new], c') /\
       instruments (guard c') = [] /\ wire c' = wire c ++ [mkMessage Unsubscribe [old] WireElapsed]) /\
    (exists a c', on_swap j old new c = (a, SwapNotHeld Emptied, c') /\ a <> Continue /\
       instruments (guard c') = [new] /\ wire c' = wire c ++ [mkMessage Unsubscribe [old] WireElapsed]).
Proof.
  intros Hu Hce Hge Hi Ne Hh Hd Hwr Hsh Hsu.
  destruct (one_for_one_plan old new (guard c) Hge Hi Ne) as [E1 E2]. split.
  - unfold apply_resubscribe. rewrite Hh, E1. cbn [andb inplace_change_blocked_by_805].
    set (g := { guard c with instruments := [new] }). set (c0 := { c with guard := g }).
    assert (Hg : guard c0 = g) by done.
    assert (Hp : per_message g = 1%nat) by (unfold per_message; change (g_endpoint g) with (g_endpoint (guard c)); by rewrite Hge).
    assert (Hno : plan_is_no_op (mkPlan [old] 0) (guard_len g) = false) by done.
    rewrite Hno, Hp. change (chunks 1 (removed (mkPlan [old] 0))) with [[old]].
    unfold write_batches_in_place. cbn [write_batches]. rewrite Hd, Hwr, quiet_send.
    cbn [socket_decision wait_outcome failed budget_exhausted decided orb sent timed_out length Nat.add].
    set (c1 := { c0 with wire ::= _ }).
    destruct (stop_unsubscribing (mkPlan [old] 0) 1 c1) as [[a o] c'] eqn:E.
    destruct (stop_unsubscribing_spec (mkPlan [old] 0) 1 [] [new] c1 a o c') as (-> & -> & W & _ & P & _);
      [done|done|apply NoDup_singleton|done|done|].
    exists c'. split; [done|]. split; [|by rewrite W]. cbn in P. by apply Permutation_nil_r in P.
  - unfold on_swap. rewrite Hsh, andb_false_r, E2. cbn [swap_is_no_op].
    set (g := { guard c with instruments := [new] }). set (c0 := { c with guard := g }).
    assert (Hno : swap_is_no_op (mkSwap (Some old) (Some new)) = false) by done. rewrite Hno.
    unfold swap_unsubscribe_leg. rewrite Hsu, quiet_send. cbn [wait_outcome socket_decision].
    set (c1 := { c0 with wire ::= _ }).
    destruct (swap_failed j false _ false None c1) as [[a o] c'] eqn:E.
    apply swap_failed_spec in E as (G & W & _ & [(_ & Ha & ->)|(F & _)]); try done.
    exists a, c'. by rewrite G, W.
Qed.

Lemma live_changes_are_legal_witness :
    let c := sample_conn Depth20 [nifty 1; nifty 2] in
    let r := run_command (sample_input None) (CmdResubscribe [nifty 1] [nifty 3]) c in
    wire r.2 = [written Unsubscribe [nifty 1]; written SubscribeLeg [nifty 3]] /\
    accepts Depth20 [nifty 1; nifty 2] (wire r.2).
Proof.
  intros c r. split; [reflexivity|].
  destruct (live_changes_are_legal c [] c (sample_input None) (CmdResubscribe [nifty 1] [nifty 3]) r.1.1 r.1.2 r.2
              [nifty 1; nifty 2]) as (new & W & A & _).
  - apply sample_up.
  - apply sample_wf; [repeat constructor; set_solver|done].
  - reflexivity.
  - constructor.
  - reflexivity.
  - change (wire r.2 = new) in W. rewrite W. exact A.
Defined.

Lemma the_answer_is_the_set_witness :
    let c := sample_conn Depth20 [nifty 1; nifty 2] in
    let r := run_command (sample_input (Some 0%nat)) (CmdResubscribe [nifty 1] [nifty 3]) c in
    r.1.2 = AnsResubscribe (Stopped [] [nifty 3]) /\ instruments (guard r.2) = [nifty 2] /\
    told (CmdResubscribe [nifty 1] [nifty 3]) r.1.2 (instruments (guard c)) (instruments (guard r.2)) r.1.1.
Proof.
  intros c r. split; [reflexivity|]. split; [reflexivity|].
  refine (the_answer_is_the_set (sample_input (Some 0%nat)) (CmdResubscribe [nifty 1] [nifty 3]) c r.1.1 r.1.2 r.2 _ _ _).
  - apply sample_up.
  - apply sample_wf; [repeat constructor; set_solver|done].
  - reflexivity.
Defined.

Lemma a_late_top_up_is_sent_twice_witness :
    let c := sample_conn Depth20 [nifty 1] in
    let r := on_extend (sample_legs (Some 0%nat)) [nifty 2] c in
    let r2 := on_extend (sample_legs None) [nifty 2] r.2 in
    r.1.2 = Truncated [nifty 2] /\
    exists held again out rest x,
      may_carry [nifty 1] [mkMessage SubscribeLeg [nifty 2] WireElapsed] held /\
      wire r2.2 = [mkMessage SubscribeLeg [nifty 2] WireElapsed] ++ mkMessage SubscribeLeg again out :: rest /\
      x ∈ again /\ x ∈ held.
Proof.
  intros c r r2. split; [reflexivity|].
  refine (a_late_top_up_is_sent_twice (sample_legs (Some 0%nat)) [nifty 2] c [nifty 2] r.2
            [mkMessage SubscribeLeg [nifty 2] WireElapsed] (sample_legs None) r2.1.1 r2.1.2 r2.2 _ _ _ _ _ _ _).
  - apply sample_up.
  - apply sample_wf; [repeat constructor; set_solver|done].
  - reflexivity.
  - reflexivity.
  - by left.
  - reflexivity.
  - reflexivity.
Defined.

Lemma a_timed_out_change_is_left_empty_witness :
    let c := sample_conn Depth200 [nifty 1] in
    instruments (guard c) = [nifty 1] /\
    (exists c', apply_resubscribe (sample_legs (Some 0%nat)) [nifty 1] [nifty 2] c = (Continue, Stopped [] [nifty 2], c') /\
       instruments (guard c') = [] /\ wire c' = [mkMessage Unsubscribe [nifty 1] WireElapsed]).
Proof.
  intros c. split; [reflexivity|].
  refine (proj1 (a_timed_out_change_is_left_empty (sample_legs (Some 0%nat)) (mkSwapInput false quiet_write quiet_write 9)
    (nifty 1) (nifty 2) c _ _ _ _ _ _ _ _ _ _)); try reflexivity; [apply sample_up|done].
Defined.

End LiveSubscription.
