(* ===== verification/ConnectionLoop.v ===== *)
(** The loop that drives one connection
    ([core/src/websocket/pool_supervisor.rs], [run_connection_with_commands] and
    [drain]): dial, replay the set, read until something decides the socket's
    fate, close, wait, dial again.  One step is one turn of the loop, or one turn
    of the drain inside it; what the process, the clock and the socket do in that
    turn is its argument.  Sleeps, lifecycle rows, the instance-lock log line,
    metrics and the silent-swap watch are left out. *)
From coqutil Require Import Datatypes.RecordSettersUsingExistingGetters.
From S2P Require Import Prelude FeedTypes OrderTypes ConnectionBudget ReconnectLadder ConnectionSupervisor SupervisorSafety SubscribeGuard LiveCommands LiveSafety.
Local Open Scope Z_scope.

(** * The state of the task *)

Definition CLIENT_KEEPALIVE_PING_INTERVAL : Z := 10 * NANOS_PER_SEC.

(** What the drain keeps between its turns. *)
Record DrainState : Type := mkDrain {
  pending_ping : bool;
  pending_ghost : option SubscribeInstrument;
  pending_silent : option SubscribeInstrument;
  last_client_ping : Z }.

Inductive LoopMode : Type :=
  | AtTop (a : SupervisorAction)
  | WaitingForGrant (reason : ParkReason)
  | Draining (d : DrainState)
  | Ended (reason : ParkReason).

(** * One turn at the top *)

Record TopInput : Type := mkTop {
  stop_requested : bool;
  late_close : option DisconnectCode;
  now1 : Z;
  now2 : Z;
  report : TokenRefreshReport;
  overflow_probe_enabled : bool;
  overflow_repark : bool;
  overflow_grant : bool;
  overflow_down : bool;
  dial_permitted : bool;
  connected : bool;
  connect_now : Z;
  dial_failure : string;
  dispatch_input : nat -> BatchInput }.

(** A code the close found after a redial was chosen. *)
Definition late_close_decision (code : option DisconnectCode) (already_refreshing : bool) (now : Z) (c : Conn)
    : option SupervisorAction * Conn :=
  match code with
  | None => (None, c)
  | Some code =>
      let feed :=
        let '(a, c) := sup_event (Disconnected (Some code)) now c in (decision a, c) in
      match classify_disconnect (Some code) with
      | Transient => (None, c)
      | TokenStaleClass => if already_refreshing then (None, c) else feed
      | _ => feed
      end
  end.

(** An overflow probe that failed re-parks its slot on its tick; the episode's own
    poll is process-wide. *)
Definition overflow_probe_tick (enabled repark : bool) (now : Z) (c : Conn) : SupervisorAction * Conn :=
  if enabled && repark then sup_event OverflowProbeFailed now c else (Continue, c).

Definition token_refreshed (r : TokenRefreshReport) (now : Z) (c : Conn) : option SupervisorAction * Conn :=
  let '(a, told_, s) := note_token_refresh r now (sup c) in
  (a, { c with sup := s; calls ::= fun l => l ++ told_ }).

(** The socket is gone: the set is kept for the next one. *)
Definition socket_lost (c : Conn) : Conn := note_held_cleared { c with guard ::= mark_lost }.

Definition begin_dial (now : Z) (c : Conn) : LoopMode * Conn :=
  let '(a, c) := sup_event BeginDial now c in (AtTop a, c).

Definition on_park (i : TopInput) (reason : ParkReason) (c : Conn) : LoopMode * Conn :=
  let c := note_held_cleared c in
  if bool_decide (reason = ParkPoolOverflow) && in_overflow_episode (conn_endpoint c) && overflow_probe_enabled i
  then (WaitingForGrant reason, c) else (Ended reason, c).

Definition on_sleep_then_dial (i : TopInput) (c : Conn) : LoopMode * Conn :=
  let '(late, c) := late_close_decision (late_close i) false (now1 i) c in
  match late with
  | Some a => (AtTop a, c)
  | None => begin_dial (now2 i) (socket_lost c)
  end.

Definition on_refresh_then_dial (i : TopInput) (c : Conn) : LoopMode * Conn :=
  let '(late, c) := late_close_decision (late_close i) true (now1 i) c in
  match late with
  | Some a => (AtTop a, c)
  | None =>
      let c := socket_lost c in
      let '(parked, c) := if stop_requested i then (None, c) else token_refreshed (report i) (now2 i) c in
      match parked with
      | Some a => (AtTop a, c)
      | None => begin_dial (now2 i) c
      end
  end.

(** A call the loop itself makes. *)
Definition tell_pool (call : PoolCall) (c : Conn) : Conn := { c with calls ::= fun l => l ++ [call] }.

(** A dial: never once the process stops or may not dial; it is stamped where it leaves
    the process, a failed one takes its stamp back, and a new connection has an empty
    log. *)
Definition on_dial (i : TopInput) (c : Conn) : LoopMode * Conn :=
  let c := note_held_cleared c in
  if stop_requested i then let '(a, c) := sup_event ShutdownRequested (now1 i) c in (AtTop a, c) else
  let '(probe, c) := overflow_probe_tick (overflow_probe_enabled i) (overflow_repark i) (now1 i) c in
  if decide (probe <> Continue) then (AtTop probe, c) else
  if negb (dial_permitted i) then (AtTop Dial, c) else
  let slot := gidx (sup c) in
  let c := tell_pool (NoteDialConnect slot (connect_now i)) c in
  let '(a, c) := if connected i then sup_event DialSucceeded (now2 i) { c with wire := [] }
                 else sup_event DialFailed (now2 i) (tell_pool (NoteDialFailed slot (dial_failure i)) c) in
  (AtTop a, c).

Definition new_drain (now : Z) : DrainState := mkDrain false None None now.

(** The replay of the set, and the start of the drain. *)
Definition on_subscribe (i : TopInput) (c : Conn) : LoopMode * Conn :=
  let '(outcome, d, c) := dispatch_subscribe (dispatch_input i) c in
  match d with
  | Some a => (AtTop a, c)
  | None =>
      if stopped_early outcome then let '(a, c) := sup_event SubscribeFailed (now1 i) c in (AtTop a, c) else
      let c := note_held_set { c with guard ::= mark_confirmed } in
      let '(a, c) := sup_event SubscribeAcked (now1 i) c in
      if decide (a = Continue) then (Draining (new_drain (now2 i)), c) else (AtTop a, c)
  end.

Definition on_continue (i : TopInput) (c : Conn) : LoopMode * Conn :=
  match park_reason (sup c) with
  | Some r => (Ended r, c)
  | None => begin_dial (now1 i) c
  end.

Definition at_top (i : TopInput) (a : SupervisorAction) (c : Conn) : LoopMode * Conn :=
  match a with
  | Park reason => on_park i reason c
  | Continue => on_continue i c
  | SleepThenDial _ => on_sleep_then_dial i c
  | RefreshTokenThenDial _ => on_refresh_then_dial i c
  | Dial => on_dial i c
  | Subscribe => on_subscribe i c
  end.

(** One poll of the wait for a grant. *)
Definition wait_for_overflow_grant (i : TopInput) (reason : ParkReason) (c : Conn) : LoopMode * Conn :=
  if stop_requested i || overflow_down i then (Ended reason, c) else
  if overflow_grant i then
    let '(a, c) := sup_event OverflowProbeGranted (now1 i) c in
    (if decide (a = Continue) then WaitingForGrant reason else AtTop a, c)
  else (WaitingForGrant reason, c).

(** * One turn of the drain *)

Record TickInput : Type := mkTick {
  tk_now : Z;
  tk_silence : SilenceInputs;
  tk_secs_of_day : Z;
  tk_ghost : option SubscribeInstrument;
  tk_silent : option SubscribeInstrument;
  tk_probe_close : bool;
  tk_data_silence : bool;
  tk_halted : bool;
  tk_probe_enabled : bool;
  tk_repark : bool }.

(** What the drain's select takes: an event, the one-second tick, or the answer to
    the keepalive ping. *)
Inductive Selected : Type :=
  | SelEvent (ev : SocketEvent) (now : Z)
  | SelTick (t : TickInput)
  | SelPing.

Record DrainInput : Type := mkDrainInput {
  di_stop : bool;
  di_command : option (CommandInput * LiveSubscriptionCommand);
  di_halted : bool;
  di_ghost_write : WriteInput;
  di_silent_unsub : WriteInput;
  di_silent_sub : WriteInput;
  di_now : Z;
  di_selected : Selected }.

(** Runs [f] while nothing has been decided. *)
Definition and_then (r : SupervisorAction * Conn) (f : Conn -> SupervisorAction * Conn) : SupervisorAction * Conn :=
  let '(a, c) := r in if decide (a = Continue) then f c else (a, c).

Definition sup_poll (t : TickInput) (c : Conn) : SupervisorAction * Conn :=
  let '(act, told_, s) := fst (poll_with (tk_silence t) (tk_secs_of_day t) (tk_now t) (sup c)) in
  (act, { c with sup := s; calls ::= fun l => l ++ told_ }).

(** The tick after the poll: a probe close, a cross-feed silence redial, each
    refused once an 805 halted rotation, and a probe's re-park. *)
Definition tick_requests (t : TickInput) (c : Conn) : SupervisorAction * Conn :=
  let r := if tk_probe_close t && negb (tk_halted t) then sup_event ProbeCloseRequested (tk_now t) c else (Continue, c) in
  let r := and_then r (fun c =>
    if tk_data_silence t && negb (tk_halted t)
    then sup_event FrameSilenceElapsed (tk_now t) { c with sup ::= note_silence_basis CrossFeed }
    else (Continue, c)) in
  and_then r (overflow_probe_tick (tk_probe_enabled t) (tk_repark t) (tk_now t)).

Definition on_tick (t : TickInput) (d : DrainState) (c : Conn) : SupervisorAction * DrainState * Conn :=
  let d := if needs_client_keepalive_ping (conn_endpoint c) &&
              (CLIENT_KEEPALIVE_PING_INTERVAL <=? saturating_duration_since (tk_now t) (last_client_ping d))
           then { d with last_client_ping := tk_now t; pending_ping := true } else d in
  let '(a, c) := sup_poll t c in
  let d := if decide (a = Continue) then
             { d with pending_ghost ::= (fun g => match g with None => tk_ghost t | _ => g end);
                      pending_silent ::= (fun s => match s with
                                                   | None => if decide (conn_endpoint c = Depth200) then tk_silent t else None
                                                   | _ => s
                                                   end) }
           else d in
  let '(a, c) := and_then (a, c) (tick_requests t) in
  (a, d, c).

Definition on_selected (sel : Selected) (d : DrainState) (c : Conn) : SupervisorAction * DrainState * Conn :=
  match sel with
  | SelEvent ev now => let '(a, c) := handle_socket_event ev now c in (a, d, c)
  | SelTick t => on_tick t d c
  | SelPing => (Continue, { d with pending_ping := false }, c)
  end.

(** A swap refused by the 805 breaker skips the rest of the turn. *)
Definition skips_turn (i : CommandInput) (cmd : LiveSubscriptionCommand) (c : Conn) : bool :=
  match cmd with
  | CmdSwap _ _ => bool_decide (conn_endpoint c = Depth200) && sw_halted (swap_input i)
  | _ => false
  end.

(** The pending resends, in order. *)
Definition drain_resends (i : DrainInput) (d : DrainState) (r : SupervisorAction * Conn)
    : SupervisorAction * DrainState * Conn :=
  if pending_ping d then (fst r, d, snd r) else
  let '(a, c) := r in
  let '(a, d, c) :=
    match pending_ghost d with
    | Some g =>
        if decide (a = Continue) then
          let '(_, dec, c) := resend_ghost_unsubscribe (di_halted i) (di_ghost_write i) g c in
          (default a dec, { d with pending_ghost := None }, c)
        else (a, d, c)
    | None => (a, d, c)
    end in
  match pending_silent d with
  | Some s =>
      if decide (a = Continue) then
        let '(a, c) := resubscribe_silent_swap (di_halted i) (di_silent_unsub i) (di_silent_sub i) (di_now i) s c in
        (a, { d with pending_silent := None }, c)
      else (a, d, c)
  | None => (a, d, c)
  end.

Definition drain_rest (i : DrainInput) (d : DrainState) (r : SupervisorAction * Conn) : LoopMode * Conn :=
  let '(a, d, c) := drain_resends i d r in
  if decide (a <> Continue) then (AtTop a, c) else
  let '(a, d, c) := on_selected (di_selected i) d c in
  (if decide (a = Continue) then Draining d else AtTop a, c).

Definition drain_turn (i : DrainInput) (d : DrainState) (c : Conn) : LoopMode * Conn :=
  if di_stop i then let '(a, c) := sup_event ShutdownRequested (di_now i) c in (AtTop a, c) else
  match di_command i with
  | Some (ci, cmd) =>
      if pending_ping d then drain_rest i d (Continue, c) else
      let '(a, _, c') := run_command ci cmd c in
      if skips_turn ci cmd c then (Draining d, c') else drain_rest i d (a, c')
  | None => drain_rest i d (Continue, c)
  end.

(** * The loop *)

Inductive TurnInput : Type :=
  | TopTurn (i : TopInput)
  | DrainTurn (i : DrainInput).

(** A turn of the kind the mode waits for; any other input does nothing. *)
Definition turn (i : TurnInput) (st : LoopMode * Conn) : LoopMode * Conn :=
  let '(m, c) := st in
  match m, i with
  | AtTop a, TopTurn i => at_top i a c
  | WaitingForGrant r, TopTurn i => wait_for_overflow_grant i r c
  | Draining d, DrainTurn i => drain_turn i d c
  | _, _ => (m, c)
  end.

Definition start (slot : ConnectionSlot) (g : SubscribeGuard) (created now : Z) : LoopMode * Conn :=
  begin_dial now (mkConn (new_supervisor slot created) g [] [] None).

Definition run_connection (turns : list TurnInput) (st : LoopMode * Conn) : LoopMode * Conn :=
  foldl (fun st i => turn i st) st turns.
