(* ===== verification/ConnectionSafety.v ===== *)
(** What the loop of a connection does over its whole life ([ConnectionLoop]):
    it only ever runs the supervisor's own steps, it ends parked and nowhere
    else, a stop ends it, each new connection replays the set, and only commands
    change the set. *)
From coqutil Require Import Datatypes.RecordSettersUsingExistingGetters.
From S2P Require Import Prelude Bytes FeedTypes OrderTypes ConnectionBudget ReconnectLadder ConnectionSupervisor SupervisorSafety SubscribeGuard LiveCommands LiveSafety ConnectionLoop.
Local Open Scope Z_scope.

(** * What runs the supervisor *)

(** One supervisor state leads to another by the operations of [SupervisorSafety]. *)
Definition sup_reach (s s' : ConnectionSupervisor) : Prop := exists ops, snd (sup_run ops s) = s'.

#[global] Instance sup_reach_preorder : PreOrder sup_reach.
Proof.
  split; [by exists []|]. intros s1 s2 s3 [o1 <-] [o2 <-]. exists (o1 ++ o2). by rewrite sup_run_app.
Qed.

Lemma reach_op op now s : sup_reach s (next_of (sup_apply op now s)).
Proof. exists [(op, now)]. by rewrite sup_run_cons. Qed.

(** What a piece of the loop does to the connection: supervisor steps, and, for
    everything but a command, no change to the named instruments. *)
Record moves (c c' : Conn) : Prop := mkMoves {
  mv_sup : sup_reach (sup c) (sup c');
  mv_set : instruments (guard c') = instruments (guard c) }.

#[global] Instance moves_preorder : PreOrder moves.
Proof.
  split; [by intros c; split|]. intros c1 c2 c3 [A1 B1] [A2 B2]. split; [by etrans|congruence].
Qed.

Lemma moves_event ev now c : moves c (sup_event ev now c).2.
Proof.
  unfold sup_event. pose proof (reach_op (OpEvent ev) now (sup c)) as H. cbn in H.
  by destruct (on_event ev now (sup c)) as [[a t] s].
Qed.

Lemma moves_set c : moves c (note_held_set c).
Proof.
  pose proof (reach_op (OpHeld (guard_len_u32 (guard c))) 0 (sup c)) as H.
  unfold note_held_set. cbv zeta. by destruct (decide _).
Qed.

Lemma moves_cleared c : moves c (note_held_cleared c).
Proof.
  pose proof (reach_op (OpHeld 0) 0 (sup c)) as H.
  unfold note_held_cleared. cbv zeta. by destruct (decide _).
Qed.

Lemma moves_poll t c : moves c (sup_poll t c).2.
Proof.
  pose proof (reach_op (OpPoll (tk_silence t) (tk_secs_of_day t)) (tk_now t) (sup c)) as H. cbn in H.
  unfold sup_poll. by destruct (fst (poll_with _ _ _ _)) as [[a told_] s].
Qed.

Lemma moves_refresh r now c : moves c (token_refreshed r now c).2.
Proof.
  pose proof (reach_op (OpTokenRefresh r) now (sup c)) as H. cbn in H.
  unfold token_refreshed. by destruct (note_token_refresh r now (sup c)) as [[a told_] s].
Qed.

Lemma moves_basis b c : moves c { c with sup ::= note_silence_basis b }.
Proof. split; [|done]. apply (reach_op (OpBasis b) 0). Qed.

(** The same supervisor and set: logs, registers, a guard's confirmation. *)
Lemma moves_same c c' : sup c' = sup c -> instruments (guard c') = instruments (guard c) -> moves c c'.
Proof. intros E1 E2. split; [by rewrite E1|done]. Qed.


Lemma moves_read evs c : moves c (read_events evs c).2.
Proof.
  revert c. induction evs as [|[ev now] evs IH]; intros c; cbn; [done|].
  unfold handle_socket_event. pose proof (moves_event
    (match ev with KeepAlive => KeepAliveReceived | Frame => FrameReceived | Closed code => Disconnected code end) now c) as H.
  destruct (sup_event _ now c) as [a c1]. destruct (decision a); [done|]. by etrans.
Qed.

Lemma moves_owed o now c : moves c (owed_close_decision o now c).2.
Proof.
  destruct o as [code|]; cbn; [|done]. pose proof (moves_event (Disconnected (Some code)) now c) as H.
  by destruct (sup_event _ now c).
Qed.

Lemma moves_await i c : moves c (await_write i c).2.
Proof.
  unfold await_write. pose proof (moves_read (reads i) c) as H. destruct (read_events (reads i) c) as [d c1].
  destruct d; [done|]. pose proof (moves_owed (owed_close i) (owed_at i) c1) as H2.
  destruct (write_end i); [destruct (_ && _); [done|]|]; destruct (owed_close_decision _ _ _); by etrans.
Qed.

Lemma moves_send leg b i c : moves c (send leg b i c).2.
Proof.
  unfold send. pose proof (moves_await i c) as H. destruct (await_write i c) as [w c1].
  etrans; [exact H|]. by apply moves_same.
Qed.

Lemma moves_batches leg bs inp run c : moves c (write_batches leg bs inp run c).2.
Proof.
  revert inp run c. induction bs as [|b bs IH]; intros inp run c; [done|]. cbn [write_batches].
  destruct (past_deadline _); [done|]. pose proof (moves_send leg b (write (inp 0%nat)) c) as H.
  destruct (send leg b _ c) as [w c1]. destruct (socket_decision w); [done|]. destruct (wait_outcome w); try done.
  pose proof (moves_read (take TOPUP_GAP_MAX_EVENTS (gap (inp 0%nat))) c1) as H2.
  unfold read_until. destruct (read_events _ c1) as [d c2]. cbn in H, H2.
  destruct d; [by etrans|]. etrans; [exact H|]. etrans; [exact H2|]. apply IH.
Qed.


Lemma moves_dispatch bs inp k d c : moves c (dispatch_loop bs inp k d c).2.
Proof.
  revert k d c. induction bs as [|b bs IH]; intros k d c; [done|]. cbn [dispatch_loop].
  assert (H0 : moves c (if (0 <? k)%nat then read_until (gap (inp k)) c else (None, c)).2)
    by (destruct (0 <? k)%nat; [apply moves_read|done]).
  destruct (if (0 <? k)%nat then _ else _) as [stop c1]. cbn in H0. destruct stop; [done|].
  pose proof (moves_send SubscribeLeg b (write (inp k)) c1) as H1.
  destruct (send _ _ _ c1) as [w c2]. cbn in H1. destruct (socket_decision w); [by etrans|].
  destruct (decide _); [|by etrans]. etrans; [exact H0|]. etrans; [exact H1|]. apply IH.
Qed.

Lemma moves_ghost h i g c : moves c (resend_ghost_unsubscribe h i g c).2.
Proof.
  unfold resend_ghost_unsubscribe. destruct (holds _ _); [done|]. destruct h; [done|].
  pose proof (moves_send Unsubscribe [g] i c) as H. by destruct (send _ _ _ _).
Qed.

Lemma moves_silent h iu is_ now s c : moves c (resubscribe_silent_swap h iu is_ now s c).2.
Proof.
  unfold resubscribe_silent_swap. destruct (resend_gate _ _); try done. cbv zeta.
  pose proof (moves_send Unsubscribe [s] iu c) as H. destruct (send _ _ _ c) as [u c1]. cbn in H.
  assert (He : forall c2, moves c c2 -> moves c (sup_event SubscribeFailed now (note_held_cleared c2)).2).
  { intros c2 E. etrans; [exact E|]. etrans; [apply moves_cleared|apply moves_event]. }
  destruct (socket_decision u); [done|]. destruct (wait_outcome u); [|done|by apply He].
  pose proof (moves_send SubscribeLeg [s] is_ c1) as H2. destruct (send _ _ _ c1) as [w c2]. cbn in H2.
  destruct (socket_decision w); [by etrans|]. destruct (decide _); [by etrans|]. apply He. by etrans.
Qed.

Lemma moves_then r f : (forall c, moves c (f c).2) -> moves r.2 (and_then r f).2.
Proof. intros H. destruct r as [a c]. unfold and_then. destruct (decide _); [apply H|done]. Qed.

Lemma moves_repark e r now c : moves c (overflow_probe_tick e r now c).2.
Proof. unfold overflow_probe_tick. destruct (e && r); [apply moves_event|done]. Qed.

Lemma moves_requests t c : moves c (tick_requests t c).2.
Proof.
  unfold tick_requests. etrans; [|apply moves_then; intros; apply moves_repark].
  etrans; [|apply moves_then; intros c1].
  - destruct (_ && _); [apply moves_event|done].
  - destruct (_ && _); [|done]. etrans; [apply moves_basis|apply moves_event].
Qed.

Lemma moves_selected sel d c : moves c (on_selected sel d c).2.
Proof.
  destruct sel as [ev now|t|]; cbn; [| |done].
  - pose proof (moves_read [(ev, now)] c) as H. cbn in H. unfold handle_socket_event in *.
    destruct (sup_event _ now c) as [a c1]. by destruct (decision a).
  - unfold on_tick. pose proof (moves_poll t c) as H. destruct (sup_poll t c) as [a c1]. cbn in H.
    pose proof (moves_then (a, c1) (tick_requests t) (moves_requests t)) as H2.
    destruct (and_then _ _) as [a2 c2]. cbn in *. by etrans.
Qed.

(** ** The commands *)

Definition reaches (c c' : Conn) : Prop := sup_reach (sup c) (sup c').

#[global] Instance reaches_preorder : PreOrder reaches.
Proof. split; [by intros c; unfold reaches|]. intros c1 c2 c3. unfold reaches. apply transitivity. Qed.

Lemma moves_reaches c c' : moves c c' -> reaches c c'.
Proof. by intros []. Qed.

Lemma reaches_guard c g : reaches c { c with guard := g }.
Proof. by unfold reaches. Qed.

Lemma reaches_batches leg bs inp c g :
    reaches c (write_batches_in_place leg bs inp { c with guard := g }).2.
Proof. etrans; [apply (reaches_guard c g)|]. apply moves_reaches, moves_batches. Qed.

Lemma reaches_extend i more c : reaches c (on_extend i more c).2.
Proof.
  unfold on_extend. destruct (try_extend more (guard c)) as [[n| |] g]; try done. cbv zeta.
  pose proof (reaches_batches SubscribeLeg (batches_from n g) (sub_leg i) c g) as H.
  destruct (write_batches_in_place _ _ _ _) as [run c1]. cbn in H.
  destruct (budget_exhausted run); [destruct (take_from _ _); by etrans; [|apply reaches_guard]|].
  destruct (failed run); [done|]. etrans; [exact H|]. apply moves_reaches, moves_set.
Qed.

Lemma reaches_swap_failed i uw ut rv d c : reaches c (swap_failed i uw ut rv d c).2.
Proof.
  unfold swap_failed. destruct (_ && _); [|apply moves_reaches, moves_set].
  pose proof (moves_event SubscribeFailed (sw_ended_at i) (note_held_cleared c)) as H.
  destruct (sup_event _ _ _) as [a c1]. cbn in H. apply moves_reaches. etrans; [apply moves_cleared|done].
Qed.

Lemma reaches_swap i old new c : reaches c (on_swap i old new c).2.
Proof.
  unfold on_swap. destruct (_ && sw_halted i); [done|].
  destruct (try_swap old new (guard c)) as [[w| |] g]; [|apply moves_reaches, moves_set..]. cbv zeta.
  destruct (swap_is_no_op w).
  { etrans; [apply (reaches_guard c g)|]. apply moves_reaches, moves_set. }
  unfold swap_unsubscribe_leg. set (c0 := { c with guard := g }).
  assert (H0 : reaches c c0) by apply reaches_guard. pose proof (moves_send Unsubscribe [old] (sw_unsub i) c0) as H.
  destruct (send _ _ _ c0) as [u c1]. apply moves_reaches in H. cbn in H.
  assert (Hf : forall uw ut rv d c2, reaches c1 c2 -> reaches c (swap_failed i uw ut rv d c2).2).
  { intros uw ut rv d c2 E. etrans; [exact H0|]. etrans; [exact H|]. etrans; [exact E|]. apply reaches_swap_failed. }
  destruct (wait_outcome u) eqn:Eu; cbv beta iota; rewrite ?Eu.
  - pose proof (moves_send SubscribeLeg [new] (sw_sub i) c1) as H2. destruct (send _ _ _ c1) as [s c2].
    apply moves_reaches in H2. cbn in H2. destruct (wait_outcome s); [|by apply Hf..].
    etrans; [exact H0|]. etrans; [exact H|]. etrans; [exact H2|]. apply moves_reaches, moves_set.
  - destruct (undo_swap _ _ _) as [rv g2]. rewrite Eu. apply Hf, reaches_guard.
  - by apply Hf.
Qed.

Lemma reaches_probe i d sw c : reaches c (on_probe_unsubscribe i d sw c).2.
Proof.
  unfold on_probe_unsubscribe. cbv zeta. destruct (_ && _); [|done]. destruct sw; [|apply (reaches_guard c)].
  pose proof (moves_send Unsubscribe [d] i c) as H. destruct (send _ _ _ c) as [w c1]. apply moves_reaches in H.
  destruct (wait_outcome w); [|done|done]. etrans; [exact H|]. apply (reaches_guard c1).
Qed.

Lemma reaches_resubscribe i u s c : reaches c (apply_resubscribe i u s c).2.
Proof.
  unfold apply_resubscribe. destruct (inplace_change_blocked_by_805 _ _); [done|].
  destruct (try_resubscribe u s (guard c)) as [[plan|[] |] g]; try done. cbv zeta.
  destruct (plan_is_no_op _ _); [apply (reaches_guard c)|].
  pose proof (reaches_batches Unsubscribe (chunks (per_message g) (removed plan)) (unsub_leg i) c g) as H.
  destruct (write_batches_in_place Unsubscribe _ _ _) as [ru c1]. cbn in H. destruct (decided ru); [done|].
  destruct (_ || _).
  { unfold stop_unsubscribing. destruct (take_from _ _) as [ns g2]. etrans; [exact H|].
    etrans; [apply reaches_guard|]. apply moves_reaches, moves_set. }
  pose proof (moves_batches SubscribeLeg (batches_from (subscribe_from plan) (guard c1)) (sub_leg i) (mkRun 0 0 false false None) c1) as H2.
  unfold write_batches_in_place. destruct (write_batches SubscribeLeg _ _ _ _) as [rs c2].
  apply moves_reaches in H2. assert (Hc : reaches c c2) by (by etrans).
  destruct (decided rs); [done|]. destruct (_ || _); [|etrans; [exact Hc|apply moves_reaches, moves_set]].
  unfold stop_subscribing. destruct (_ =? 0)%nat.
  - pose proof (moves_event SubscribeFailed (ended_at i) c2) as H3. destruct (sup_event _ _ c2) as [a c3].
    etrans; [exact Hc|]. by apply moves_reaches.
  - destruct (take_from _ _) as [ns g2]. etrans; [exact Hc|]. etrans; [apply reaches_guard|]. apply moves_reaches, moves_set.
Qed.

Lemma reaches_command i cmd c : reaches c (run_command i cmd c).2.
Proof.
  destruct cmd as [more|old new|d sw|u s]; cbn.
  - pose proof (reaches_extend (legs i) more c). by destruct (on_extend _ _ _) as [[a o] c1].
  - pose proof (reaches_swap (swap_input i) old new c). by destruct (on_swap _ _ _ _) as [[a o] c1].
  - pose proof (reaches_probe (probe_write i) d sw c). by destruct (on_probe_unsubscribe _ _ _ _) as [[a o] c1].
  - pose proof (reaches_resubscribe (legs i) u s c). by destruct (apply_resubscribe _ _ _ _) as [[a o] c1].
Qed.

(** ** The turns *)

Lemma moves_lost c : moves c (socket_lost c).
Proof. etrans; [by apply (moves_same c { c with guard ::= mark_lost })|]. apply moves_cleared. Qed.

Lemma moves_begin now c : moves c (begin_dial now c).2.
Proof. unfold begin_dial. pose proof (moves_event BeginDial now c). by destruct (sup_event _ _ _). Qed.

Lemma moves_late o b now c : moves c (late_close_decision o b now c).2.
Proof.
  destruct o as [code|]; [|done]. unfold late_close_decision. cbv zeta.
  pose proof (moves_event (Disconnected (Some code)) now c) as H. destruct (sup_event _ _ _) as [a c1].
  by destruct (classify_disconnect _), b.
Qed.

Lemma moves_at_top i a c : moves c (at_top i a c).2.
Proof.
  destruct a as [|d|d| |r|]; cbn.
  - unfold on_dial. destruct (stop_requested i).
    { pose proof (moves_event ShutdownRequested (now1 i) (note_held_cleared c)) as H.
      destruct (sup_event _ _ _) as [a c1]. cbn in *. etrans; [apply moves_cleared|done]. }
    pose proof (moves_repark (overflow_probe_enabled i) (overflow_repark i) (now1 i) (note_held_cleared c)) as H.
    destruct (overflow_probe_tick _ _ _ _) as [p c1]. cbn in H.
    assert (H1 : moves c c1) by (etrans; [apply moves_cleared|done]).
    destruct (decide _); [done|]. destruct (negb _); [done|].
    set (c1' := tell_pool _ c1). assert (H1' : moves c c1') by (etrans; [exact H1|by apply moves_same]).
    destruct (connected i).
    + pose proof (moves_event DialSucceeded (now2 i) { c1' with wire := [] }) as H2.
      destruct (sup_event _ _ _) as [a c2]. cbn in *. etrans; [exact H1'|]. etrans; [|exact H2]. by apply moves_same.
    + set (c1'' := tell_pool _ c1'). pose proof (moves_event DialFailed (now2 i) c1'') as H2.
      destruct (sup_event _ _ _) as [a c2]. cbn in *. etrans; [exact H1'|]. etrans; [|exact H2]. by apply moves_same.
  - unfold on_sleep_then_dial. pose proof (moves_late (late_close i) false (now1 i) c) as H.
    destruct (late_close_decision _ _ _ _) as [[a|] c1]; [done|]. cbn in H.
    etrans; [exact H|]. etrans; [apply moves_lost|apply moves_begin].
  - unfold on_refresh_then_dial. pose proof (moves_late (late_close i) true (now1 i) c) as H.
    destruct (late_close_decision _ _ _ _) as [[a|] c1]; [done|]. cbn in H. cbv zeta.
    assert (H2 : moves (socket_lost c1) (if stop_requested i then (None, socket_lost c1) else token_refreshed (report i) (now2 i) (socket_lost c1)).2)
      by (destruct (stop_requested i); [done|apply moves_refresh]).
    destruct (if stop_requested i then _ else _) as [p c2]. cbn in H2.
    assert (H3 : moves c c2) by (etrans; [exact H|]; etrans; [apply moves_lost|done]).
    destruct p; [done|]. etrans; [exact H3|apply moves_begin].
  - unfold on_subscribe, dispatch_subscribe.
    pose proof (moves_dispatch (batches (guard c)) (dispatch_input i) 0 (mkDispatch 0 (batch_count (guard c)) 0 (guard_len (guard c))) c) as H.
    destruct (dispatch_loop _ _ _ _ c) as [[o d] c1]. cbn in H. destruct d as [a|]; [done|].
    destruct (stopped_early o).
    + pose proof (moves_event SubscribeFailed (now1 i) c1) as H2. destruct (sup_event _ _ _) as [a c2]. by etrans.
    + cbv zeta. set (c2 := { c1 with guard ::= mark_confirmed }).
      pose proof (moves_event SubscribeAcked (now1 i) (note_held_set c2)) as H2. destruct (sup_event _ _ _) as [a c3].
      assert (H3 : moves c c3).
      { etrans; [exact H|]. etrans; [by apply (moves_same c1 c2)|]. etrans; [apply moves_set|done]. }
      by destruct (decide _).
  - unfold on_park. cbv zeta. destruct (_ && _); apply moves_cleared.
  - unfold on_continue. destruct (park_reason _); [done|apply moves_begin].
Qed.

Lemma moves_wait i r c : moves c (wait_for_overflow_grant i r c).2.
Proof.
  unfold wait_for_overflow_grant. destruct (_ || _); [done|]. destruct (overflow_grant i); [|done].
  pose proof (moves_event OverflowProbeGranted (now1 i) c). by destruct (sup_event _ _ _).
Qed.

Lemma moves_resends i d r : moves r.2 (drain_resends i d r).2.
Proof.
  unfold drain_resends. destruct (pending_ping d); [done|]. destruct r as [a c].
  assert (H : moves c (match pending_ghost d with
    | Some g => if decide (a = Continue) then
        let '(_, dec, c) := resend_ghost_unsubscribe (di_halted i) (di_ghost_write i) g c in
        (default a dec, { d with pending_ghost := None }, c) else (a, d, c)
    | None => (a, d, c) end).2).
  { destruct (pending_ghost d) as [g|]; [|done]. destruct (decide _); [|done].
    pose proof (moves_ghost (di_halted i) (di_ghost_write i) g c). by destruct (resend_ghost_unsubscribe _ _ _ _) as [[o dec] c1]. }
  destruct (match pending_ghost d with Some _ => _ | None => _ end) as [[a1 d1] c1]. cbn in *.
  destruct (pending_silent d1) as [s|]; [|done]. destruct (decide _); [|done].
  pose proof (moves_silent (di_halted i) (di_silent_unsub i) (di_silent_sub i) (di_now i) s c1) as H2.
  destruct (resubscribe_silent_swap _ _ _ _ _ _) as [a2 c2]. by etrans.
Qed.

Lemma moves_rest i d r : moves r.2 (drain_rest i d r).2.
Proof.
  unfold drain_rest. pose proof (moves_resends i d r) as H. destruct (drain_resends i d r) as [[a d1] c1]. cbn in H.
  destruct (decide _); [done|]. pose proof (moves_selected (di_selected i) d1 c1) as H2.
  destruct (on_selected _ _ _) as [[a2 d2] c2]. cbn in *. by etrans.
Qed.

Lemma moves_stop now c :
    moves c (let '(a, c1) := sup_event ShutdownRequested now c in (AtTop a, c1)).2.
Proof. pose proof (moves_event ShutdownRequested now c). by destruct (sup_event _ _ _). Qed.

(** A turn without a command. *)
Definition no_command (i : TurnInput) : Prop :=
  match i with DrainTurn i => di_command i = None | TopTurn _ => True end.

Lemma moves_turn i st : no_command i -> moves st.2 (turn i st).2.
Proof.
  destruct st as [[a|r|d|r] c], i as [i|i]; cbn; intros Hn; try done.
  - apply moves_at_top.
  - apply moves_wait.
  - unfold drain_turn. destruct (di_stop i); [apply moves_stop|]. rewrite Hn. apply (moves_rest i d (Continue, c)).
Qed.

Lemma reaches_turn i st : reaches st.2 (turn i st).2.
Proof.
  destruct i as [i|i]; [by apply moves_reaches, moves_turn|]. destruct st as [[a|r|d|r] c]; try done. cbn.
  unfold drain_turn. destruct (di_stop i); [apply moves_reaches, moves_stop|].
  destruct (di_command i) as [[ci cmd]|]; [|apply moves_reaches, (moves_rest i d (Continue, c))].
  destruct (pending_ping d); [apply moves_reaches, (moves_rest i d (Continue, c))|].
  pose proof (reaches_command ci cmd c) as H. destruct (run_command ci cmd c) as [[a an] c1]. cbn in H.
  destruct (skips_turn _ _ _); [done|]. etrans; [exact H|]. apply moves_reaches, (moves_rest i d (a, c1)).
Qed.

Lemma run_connection_app ts1 ts2 st :
    run_connection (ts1 ++ ts2) st = run_connection ts2 (run_connection ts1 st).
Proof. apply foldl_app. Qed.

(** Induction on a run. *)
Lemma run_connection_ind (P : LoopMode * Conn -> Prop) (Q : TurnInput -> Prop) ts st :
    P st -> (forall i st, Q i -> P st -> P (turn i st)) -> Forall Q ts -> P (run_connection ts st).
Proof.
  intros H0 Hs. revert st H0. induction ts as [|i ts IH]; intros st H0 HF; [done|].
  apply Forall_cons in HF as [Hi HF]. cbn. apply IH; [by apply Hs|done].
Qed.

(** * What a connection's socket carries *)

Definition written_log : list WireMessage -> Prop := Forall (fun m => wm_outcome m = Written).

(** The net effect of messages that all reached the socket. *)
Definition net (held : list SubscribeInstrument) (log : list WireMessage) : list SubscribeInstrument :=
  foldl (fun h m => apply_leg (wm_leg m) (wm_batch m) h) held log.

(** No message too long, and no subscribe that repeats an instrument or passes the
    connection's cap. *)
Fixpoint never_over (e : DhanEndpointType) (held : list SubscribeInstrument) (log : list WireMessage) : Prop :=
  match log with
  | [] => True
  | m :: rest =>
      zlen (wm_batch m) <= Z.max (max_instruments_per_subscribe_message e) 1 /\
      (wm_leg m = SubscribeLeg ->
         NoDup (held ++ wm_batch m) /\ zlen (held ++ wm_batch m) <= max_instruments_per_connection e) /\
      never_over e (apply_leg (wm_leg m) (wm_batch m) held) rest
  end.

Lemma never_over_app e held l1 l2 :
    never_over e held (l1 ++ l2) <-> never_over e held l1 /\ never_over e (net held l1) l2.
Proof. revert held. induction l1 as [|m l1 IH]; intros held; cbn; [tauto|]. rewrite IH. tauto. Qed.

Lemma net_app held l1 l2 : net held (l1 ++ l2) = net (net held l1) l2.
Proof. apply foldl_app. Qed.

Lemma net_may_carry held log : written_log log -> may_carry held log (net held log).
Proof.
  revert held. induction log as [|m log IH]; intros held H; [done|]. apply Forall_cons in H as [Hm H].
  exists true. unfold after_message. rewrite Hm. by apply IH.
Qed.

Lemma accepts_never_over e held log : written_log log -> accepts e held log -> never_over e held log.
Proof.
  revert held. induction log as [|m log IH]; intros held H Ha; [done|]. apply Forall_cons in H as [Hm H].
  destruct (Ha true) as [Hl Hr]. unfold after_message in Hr. rewrite Hm in Hl, Hr. destruct (Hl eq_refl) as [Hz Hleg].
  cbn. split_and!; [done| |by apply IH]. intros E. by rewrite E in Hleg.
Qed.

(** ** The state between two steps *)

(** The set is well formed and what was sent is within the feed's rules; the
    latter is only claimed under [S]. *)
Record ground (S : Prop) (e : DhanEndpointType) (c : Conn) : Prop := mkGround {
  gr_wf : guard_wf (guard c);
  gr_endpoint : g_endpoint (guard c) = e;
  gr_legal : S -> written_log (wire c) -> never_over e [] (wire c) }.

(** The set is what the socket carries. *)
Definition in_step (S : Prop) (c : Conn) : Prop :=
  S -> written_log (wire c) -> net [] (wire c) ≡ₚ instruments (guard c).

Record after_step (S : Prop) (e : DhanEndpointType) (a : SupervisorAction) (c : Conn) : Prop := mkStep {
  as_ground : ground S e c;
  as_event : after_event a c;
  as_set : a = Continue -> in_step S c }.

Lemma ground_same S e c c' :
    ground S e c -> instruments (guard c') = instruments (guard c) ->
    g_endpoint (guard c') = g_endpoint (guard c) -> wire c' = wire c -> ground S e c'.
Proof. intros [A B C] E1 E2 E3. split; [|congruence|by rewrite E3]. unfold guard_wf. by rewrite E1, E2. Qed.

Lemma step_same S e a c c' :
    after_step S e Continue c -> guard c' = guard c -> wire c' = wire c -> after_event a c' -> after_step S e a c'.
Proof.
  intros [G _ Hs] E1 E2 Ha. split; [by apply (ground_same S e c); rewrite ?E1|done|].
  intros _ H1 H2. rewrite E1, E2 in *. by apply Hs.
Qed.

Lemma step_up S e c : after_step S e Continue c -> up c.
Proof. intros [_ H _]. by apply after_continue. Qed.

(** An event other than a dial that succeeded. *)
Lemma step_event S e ev now c :
    after_step S e Continue c -> ev <> DialSucceeded ->
    after_step S e (sup_event ev now c).1 (sup_event ev now c).2.
Proof.
  intros H Hev. destruct (sup_event ev now c) as [a c'] eqn:E.
  apply sup_event_spec in E as ([Hg Hw _ _ _] & _ & Ha); [|by eapply step_up]. by apply (step_same S e a c c'); auto.
Qed.

(** One message sent on a socket that has room for it. *)
Lemma step_send S e leg b i c w c1 :
    ground S e c -> up c -> zlen b <= Z.max (max_instruments_per_subscribe_message e) 1 ->
    (S -> written_log (wire c) -> leg = SubscribeLeg ->
       NoDup (net [] (wire c) ++ b) /\ zlen (net [] (wire c) ++ b) <= max_instruments_per_connection e) ->
    send leg b i c = (w, c1) ->
    ground S e c1 /\ guard c1 = guard c /\
    (written_log (wire c1) -> wait_outcome w = Written /\ written_log (wire c) /\ net [] (wire c1) = apply_leg leg b (net [] (wire c))) /\
    (socket_decision w = None -> up c1) /\ socket_decision w <> Some Continue /\
    forall a, socket_decision w = Some a -> after_event a c1.
Proof.
  intros [Hw He Hl] Hu Hz Hroom E. apply send_spec in E as ([Hg W _ _ _] & Hup & Hc & _ & Ha); [|done].
  assert (Hlog : written_log (wire c1) -> wait_outcome w = Written /\ written_log (wire c) /\ net [] (wire c1) = apply_leg leg b (net [] (wire c))).
  { rewrite W. intros [H [Ho _]%Forall_cons]%Forall_app. split_and!; [done..|]. by rewrite net_app. }
  split_and!; try done. split; [by rewrite Hg|by rewrite Hg|]. intros HS HW. destruct (Hlog HW) as (_ & HW0 & _).
  rewrite W. apply never_over_app. split; [by apply Hl|]. cbn. split_and!; try done. by apply Hroom.
Qed.

(** A connection whose socket was left empty redials. *)
Lemma step_empty S e now c :
    ground S e c -> up c ->
    after_step S e (sup_event SubscribeFailed now (note_held_cleared c)).1
      (sup_event SubscribeFailed now (note_held_cleared c)).2.
Proof.
  intros G Hu. destruct (note_held_cleared_spec c) as (N1 & N2 & N3).
  destruct (sup_event _ _ _) as [a c'] eqn:E.
  apply subscribe_failed_redials in E as (Ha & [Hg Hw _ _ _] & Hae); [|auto].
  split; [|done|done]. apply (ground_same S e c); cbn; congruence.
Qed.

Lemma step_ghost S e h i g c :
    after_step S e Continue c ->
    let '(_, d, c1) := resend_ghost_unsubscribe h i g c in after_step S e (default Continue d) c1.
Proof.
  intros H. unfold resend_ghost_unsubscribe, holds. case_bool_decide as Hg; [done|]. destruct h; [done|].
  destruct (send Unsubscribe [g] i c) as [w c1] eqn:E. pose proof H as [G _ Hs].
  apply (step_send S e) in E as (G1 & Eg & Hn & Hup & Hc & Ha);
    [|done|by eapply step_up|unfold zlen; cbn; lia|done].
  split; [done| |].
  - destruct (socket_decision w) as [a|]; cbn; [by apply Ha|by apply after_continue, Hup].
  - intros _ HS HW. destruct (Hn HW) as (_ & HW0 & ->). cbn. rewrite (Hs eq_refl HS HW0), Eg.
    clear -Hg. induction (instruments (guard c)) as [|x l IH]; [done|]. apply not_elem_of_cons in Hg as [Hx Hl].
    rewrite filter_cons_True by set_solver. by rewrite IH.
Qed.

Lemma step_silent S e h iu is_ now s c :
    after_step S e Continue c ->
    after_step S e (resubscribe_silent_swap h iu is_ now s c).1 (resubscribe_silent_swap h iu is_ now s c).2.
Proof.
  intros H. unfold resubscribe_silent_swap, resend_gate. destruct h; [done|].
  unfold holds. case_bool_decide as Hs; cbn [negb]; [|done]. cbv zeta.
  pose proof H as [G _ Hset]. pose proof (step_up _ _ _ H) as Hu. pose proof G as [[Hnd Hcap] He _].
  assert (Hone : zlen [s] <= Z.max (max_instruments_per_subscribe_message e) 1) by (unfold zlen; cbn; lia).
  destruct (send Unsubscribe [s] iu c) as [u c1] eqn:E.
  apply (step_send S e) in E as (G1 & Eg & Hn & Hup & Hc & Ha); [|done|done|done|done].
  destruct (socket_decision u) as [a|] eqn:Ed.
  { cbn. split; [done|by apply Ha|intros ->; done]. }
  destruct (wait_outcome u) eqn:Eo.
  2:{ split; [done|by apply after_continue, Hup|]. intros _ HS HW. destruct (Hn HW) as [? _]. congruence. }
  2:{ by apply step_empty; [|apply Hup]. }
  assert (Hroom : S -> written_log (wire c1) ->
     filter (fun i => i ∉ [s]) (net [] (wire c)) ++ [s] ≡ₚ instruments (guard c)).
  { intros HS HW. destruct (Hn HW) as (_ & HW0 & _). specialize (Hset eq_refl HS HW0).
    assert (Hnn : NoDup (net [] (wire c))) by by rewrite Hset.
    apply list_elem_of_lookup in Hs as [k Hk].
    etrans; [by apply (swap_filter _ s s (instruments (guard c)) k)|]. by rewrite list_insert_id. }
  destruct (send SubscribeLeg [s] is_ c1) as [w c2] eqn:E2.
  apply (step_send S e) in E2 as (G2 & Eg2 & Hn2 & Hup2 & Hc2 & Ha2); [|done|by apply Hup|done|].
  2:{ intros HS HW _. destruct (Hn HW) as (_ & _ & ->). cbn. rewrite (Hroom HS HW). by rewrite He in Hcap. }
  destruct (socket_decision w) as [a|] eqn:Ed2; [cbn; split; [done|by apply Ha2|intros ->; done]|].
  destruct (decide _); [|by apply step_empty; [|apply Hup2]]. cbn.
  split; [done|by apply after_continue, Hup2|]. intros _ HS HW. destruct (Hn2 HW) as (_ & HW1 & Hn3). rewrite Hn3.
  destruct (Hn HW1) as (_ & _ & ->). cbn. rewrite (Hroom HS HW1), Eg2, Eg. done.
Qed.

(** ** The drain *)

Lemma step_poll S e t c :
    after_step S e Continue c -> after_step S e (sup_poll t c).1 (sup_poll t c).2.
Proof.
  intros H. pose proof (step_up _ _ _ H) as [Hw Hp]. unfold sup_poll.
  destruct (poll_cases (tk_silence t) (tk_secs_of_day t) (tk_now t) (sup c)) as (s1 & K & Hc).
  assert (Hs : forall ev s2, keeps (sup c) s2 -> ev <> DialSucceeded ->
    forall calls0, let '(act, told_, s) := tell_first calls0 (on_event ev (tk_now t) s2) in
    after_step S e act { c with sup := s; calls ::= fun l => l ++ told_ }).
  { intros ev s2 K2 Hev calls0. destruct (on_event ev (tk_now t) s2) as [[act told_] s] eqn:E. cbn.
    apply (step_same S e act c); [done..|]. eapply after_event_sup.
    - apply (sup_event_spec ev (tk_now t) { c with sup := s2 } act { c with sup := s; calls ::= fun l => l ++ told_ }).
      + split; [by eapply wf_keeps|]. change (cs_phase s2 <> Parked). by rewrite (k_phase _ _ K2).
      + unfold sup_event. change (sup { c with sup := s2 }) with s2. by rewrite E.
      + done.
    - done. }
  destruct Hc as [[Ha Hn]|[->|(calls0 & _ & ->)]].
  - destruct (fst (poll_with _ _ _ _)) as [[act told_] s]. unfold action_of, next_of in Ha, Hn. cbn in Ha, Hn. subst act s.
    apply (step_same S e Continue c); [done..|]. apply after_continue.
    split; [by eapply wf_keeps|]. change (cs_phase s1 <> Parked). by rewrite (k_phase _ _ K).
  - specialize (Hs IdleElapsed (sup c) (keeps_refl _) ltac:(done) []).
    by destruct (on_event IdleElapsed _ _) as [[act told_] s].
  - specialize (Hs FrameSilenceElapsed s1 K ltac:(done) calls0).
    by destruct (tell_first calls0 _) as [[act told_] s].
Qed.

Lemma step_then S e r f :
    (forall c, after_step S e Continue c -> after_step S e (f c).1 (f c).2) ->
    after_step S e r.1 r.2 -> after_step S e (and_then r f).1 (and_then r f).2.
Proof. intros Hf H. destruct r as [a c]. unfold and_then. destruct (decide (a = Continue)) as [->|]; auto. Qed.

Lemma step_repark S e en rp now c :
    after_step S e Continue c -> after_step S e (overflow_probe_tick en rp now c).1 (overflow_probe_tick en rp now c).2.
Proof. intros H. unfold overflow_probe_tick. destruct (en && rp); [by apply step_event|done]. Qed.

Lemma step_requests S e t c :
    after_step S e Continue c -> after_step S e (tick_requests t c).1 (tick_requests t c).2.
Proof.
  intros H. unfold tick_requests. apply step_then; [intros; by apply step_repark|].
  apply step_then.
  - intros c1 H1. destruct (_ && _); [|done]. apply step_event; [|done].
    eapply (step_same S e Continue c1); try done. apply after_continue. pose proof (step_up _ _ _ H1) as [Hw Hp].
    split; [|done]. apply (wf_apply (OpBasis CrossFeed) 0 (sup c1) Hw).
  - destruct (_ && _); [by apply step_event|done].
Qed.

Lemma step_selected S e sel d c :
    after_step S e Continue c ->
    after_step S e (on_selected sel d c).1.1 (on_selected sel d c).2.
Proof.
  intros H. destruct sel as [ev now|t|]; cbn; [| |done].
  - unfold handle_socket_event. pose proof (step_event S e
      (match ev with KeepAlive => KeepAliveReceived | Frame => FrameReceived | Closed code => Disconnected code end) now c H) as H1.
    destruct (sup_event _ now c). apply H1. by destruct ev.
  - unfold on_tick. pose proof (step_poll S e t c H) as H1. destruct (sup_poll t c) as [a c1].
    pose proof (step_then S e (a, c1) (tick_requests t) (step_requests S e t) H1) as H2.
    by destruct (and_then _ _).
Qed.

(** A probe that changes the set and sends nothing. *)
Definition silent_probe (cmd : LiveSubscriptionCommand) : bool :=
  match cmd with CmdProbeUnsubscribe _ false => true | _ => false end.

Lemma step_command S e ci cmd c :
    (S -> silent_probe cmd = false) -> after_step S e Continue c ->
    after_step S e (run_command ci cmd c).1.1 (run_command ci cmd c).2.
Proof.
  intros Hns H. pose proof H as [[Hw He Hl] _ Hs]. pose proof (step_up _ _ _ H) as Hu.
  destruct (run_command ci cmd c) as [[a an] c1] eqn:E. cbn.
  destruct (command_spec ci cmd (instruments (guard c)) c a an c1 Hu Hw (reflexivity _) E)
    as [(log & W & _ & Hw1 & He1 & Ha & _) _].
  assert (Hstep : S -> written_log (wire c1) ->
    written_log (wire c) /\ written_log log /\
    exists log', log' = log /\ accepts e (net [] (wire c)) log' /\
      (a = Continue -> net (net [] (wire c)) log ≡ₚ instruments (guard c1))).
  { intros HS HW. rewrite W in HW. apply Forall_app in HW as [HW0 HWl]. split_and!; [done..|].
    destruct (command_spec ci cmd (net [] (wire c)) c a an c1 Hu Hw (Hs eq_refl HS HW0) E)
      as [(log' & W' & Hacc & _ & _ & _ & Hset) _].
    rewrite W in W'. apply app_inv_head in W' as <-. exists log. split_and!; [done|by rewrite <- He|].
    intros Hc. apply (Hset Hc); [|by apply net_may_carry]. split.
    - eapply Forall_impl; [exact HWl|]. cbn. intros m Hm. by rewrite Hm.
    - specialize (Hns HS). by destruct cmd as [| |? []|]. }
  split; [split; [done|by rewrite He1|]|done|].
  - intros HS HW. destruct (Hstep HS HW) as (HW0 & HWl & log' & -> & Hacc & _). rewrite W.
    apply never_over_app. split; [by apply Hl|by apply accepts_never_over].
  - intros Hc HS HW. destruct (Hstep HS HW) as (HW0 & HWl & log' & -> & _ & Hset). rewrite W, net_app. by apply Hset.
Qed.

Lemma step_resends S e i d a c :
    after_step S e a c -> after_step S e (drain_resends i d (a, c)).1.1 (drain_resends i d (a, c)).2.
Proof.
  intros H. unfold drain_resends. destruct (pending_ping d); [done|].
  assert (H1 : let r := match pending_ghost d with
    | Some g => if decide (a = Continue) then
        let '(_, dec, c) := resend_ghost_unsubscribe (di_halted i) (di_ghost_write i) g c in
        (default a dec, { d with pending_ghost := None }, c) else (a, d, c)
    | None => (a, d, c) end in after_step S e r.1.1 r.2).
  { destruct (pending_ghost d) as [g|]; [|done]. destruct (decide (a = Continue)) as [->|]; [|done].
    pose proof (step_ghost S e (di_halted i) (di_ghost_write i) g c H) as H1.
    by destruct (resend_ghost_unsubscribe _ _ _ _) as [[o dec] c1]. }
  cbv zeta in H1. destruct (match pending_ghost d with Some _ => _ | None => _ end) as [[a1 d1] c1]. cbn in H1.
  destruct (pending_silent d1) as [s|]; [|done]. destruct (decide (a1 = Continue)) as [->|]; [|done].
  pose proof (step_silent S e (di_halted i) (di_silent_unsub i) (di_silent_sub i) (di_now i) s c1 H1) as H2.
  by destruct (resubscribe_silent_swap _ _ _ _ _ _).
Qed.

(** ** The modes *)

Definition fits (m : LoopMode) (c : Conn) : Prop :=
  match m with
  | AtTop Subscribe => up c /\ wire c = []
  | AtTop a => a <> Continue /\ after_event a c
  | Draining _ => up c
  | WaitingForGrant r => sup_wf (sup c) /\ cs_phase (sup c) = Parked /\ park_reason (sup c) = Some r /\ r = ParkPoolOverflow
  | Ended r => sup_wf (sup c) /\ cs_phase (sup c) = Parked /\ park_reason (sup c) = Some r
  end.

(** The state between two turns. *)
Record linked (S : Prop) (e : DhanEndpointType) (st : LoopMode * Conn) : Prop := mkLinked {
  lk_ground : ground S e st.2;
  lk_mode : fits st.1 st.2;
  lk_set : forall d, st.1 = Draining d -> in_step S st.2 }.

Lemma linked_top S e a c :
    ground S e c -> after_event a c -> a <> Continue -> linked S e (AtTop a, c).
Proof. intros G Ha Hc. split; cbn; [done| |done]. destruct Ha as [Hw Hm]. by destruct a. Qed.

Lemma linked_step S e a d c :
    after_step S e a c -> linked S e (if decide (a = Continue) then Draining d else AtTop a, c).
Proof.
  intros H. destruct (decide (a = Continue)) as [->|Hc].
  - split; cbn; [by destruct H|by eapply step_up|]. intros _ _. by apply H.
  - apply linked_top; [by destruct H..|done].
Qed.

Lemma linked_rest S e i d a c : after_step S e a c -> linked S e (drain_rest i d (a, c)).
Proof.
  intros H. unfold drain_rest. pose proof (step_resends S e i d a c H) as H1.
  destruct (drain_resends i d (a, c)) as [[a1 d1] c1]. cbn in H1. destruct (decide _) as [Hc|Hc].
  - apply linked_top; [by destruct H1..|done].
  - apply dec_stable in Hc as ->. pose proof (step_selected S e (di_selected i) d1 c1 H1) as H2.
    destruct (on_selected _ _ _) as [[a2 d2] c2]. by apply linked_step.
Qed.

(** A shutdown parks. *)
Lemma shutdown_parks now c : up c -> (sup_event ShutdownRequested now c).1 = Park Shutdown.
Proof. intros [_ Hp]. unfold sup_event, on_event. by rewrite decide_False. Qed.

Lemma linked_drain S e i d c :
    (S -> forall ci cmd, di_command i = Some (ci, cmd) -> silent_probe cmd = false) ->
    linked S e (Draining d, c) -> linked S e (drain_turn i d c).
Proof.
  intros Hns [G Hu Hs]. cbn in G, Hu. specialize (Hs d eq_refl). cbn in Hs.
  assert (H : after_step S e Continue c) by (split; [done|by apply after_continue|done]).
  unfold drain_turn. destruct (di_stop i).
  { pose proof (step_event S e ShutdownRequested (di_now i) c H ltac:(done)) as H1.
    pose proof (shutdown_parks (di_now i) c Hu) as Ep. destruct (sup_event _ _ _) as [a c1]. cbn in H1, Ep. subst a.
    apply linked_top; [by destruct H1..|done]. }
  destruct (di_command i) as [[ci cmd]|] eqn:Ec; [|by apply linked_rest].
  destruct (pending_ping d); [by apply linked_rest|].
  pose proof (step_command S e ci cmd c (fun HS => Hns HS ci cmd eq_refl) H) as H1.
  destruct (run_command ci cmd c) as [[a an] c1] eqn:E. cbn in H1. destruct (skips_turn ci cmd c) eqn:Es.
  - assert (Hc1 : a = Continue /\ c1 = c).
    { destruct cmd; try done. cbn in E, Es. unfold on_swap in E. rewrite Es in E. by injection E as <- _ <-. }
    destruct Hc1 as [-> ->]. by apply (linked_step S e Continue d c).
  - by apply linked_rest.
Qed.

(** ** The top of the loop *)

(** The rules of the feed held so far, the supervisor not parked: what the top has
    to hand on. *)
Lemma event_ground S e ev now c :
    ground S e c -> up c -> ev <> DialSucceeded ->
    ground S e (sup_event ev now c).2 /\ after_event (sup_event ev now c).1 (sup_event ev now c).2 /\
    guard (sup_event ev now c).2 = guard c /\ wire (sup_event ev now c).2 = wire c.
Proof.
  intros G Hu Hev. destruct (sup_event ev now c) as [a c1] eqn:E. apply sup_event_spec in E as ([Hg Hw _ _ _] & _ & Ha); [|done].
  cbn. split_and!; auto. apply (ground_same S e c); by rewrite ?Hg.
Qed.

(** Events that always decide. *)
Definition decides (ev : ConnEvent) : bool :=
  match ev with
  | BeginDial | DialFailed | SubscribeFailed | ShutdownRequested => true
  | _ => false
  end.

Lemma decides_acts ev now c : up c -> decides ev = true -> (sup_event ev now c).1 <> Continue.
Proof.
  intros [_ Hp] Hd. unfold sup_event, on_event. rewrite decide_False by done. by destruct ev.
Qed.

Lemma linked_event S e ev now c :
    ground S e c -> up c -> decides ev = true ->
    linked S e (let '(a, c1) := sup_event ev now c in (AtTop a, c1)).
Proof.
  intros G Hu Hd. destruct (event_ground S e ev now c G Hu) as (G1 & Ha & _); [by destruct ev|].
  pose proof (decides_acts ev now c Hu Hd) as Hc. destruct (sup_event _ _ _) as [a c1]. by apply linked_top.
Qed.

Lemma linked_late S e o b now c :
    ground S e c -> up c ->
    ground S e (late_close_decision o b now c).2 /\
    match (late_close_decision o b now c).1 with
    | Some a => a <> Continue /\ after_event a (late_close_decision o b now c).2
    | None => up (late_close_decision o b now c).2
    end.
Proof.
  intros G Hu. destruct o as [code|]; [|done]. unfold late_close_decision. cbv zeta.
  destruct (event_ground S e (Disconnected (Some code)) now c G Hu) as (G1 & Ha & _); [done|].
  destruct (sup_event _ _ _) as [a c1]. cbn in G1, Ha.
  assert (Hf : ground S e (decision a, c1).2 /\
    match decision a with Some a => a <> Continue /\ after_event a c1 | None => up c1 end).
  { split; [done|]. unfold decision. destruct (decide (a = Continue)) as [->|]; [by apply after_continue|done]. }
  by destruct (classify_disconnect _), b.
Qed.

Lemma ground_cleared S e c : ground S e c -> ground S e (note_held_cleared c).
Proof. intros G. destruct (note_held_cleared_spec c) as (N1 & N2 & _). by apply (ground_same S e c); rewrite ?N1. Qed.

Lemma ground_lost S e c : ground S e c -> up c -> ground S e (socket_lost c) /\ up (socket_lost c).
Proof.
  intros G Hu. split; [|by apply note_held_cleared_spec].
  apply ground_cleared. by apply (ground_same S e c).
Qed.

Lemma linked_refresh S e r now c :
    ground S e c -> up c ->
    ground S e (token_refreshed r now c).2 /\
    match (token_refreshed r now c).1 with
    | Some a => a <> Continue /\ after_event a (token_refreshed r now c).2
    | None => up (token_refreshed r now c).2
    end.
Proof.
  intros G [Hw Hp]. unfold token_refreshed. pose proof (wf_apply (OpTokenRefresh r) now (sup c) Hw) as Hw1. cbn in Hw1.
  assert (Hm : let '(a, _, s) := note_token_refresh r now (sup c) in
    match a with
    | Some a => exists r, a = Park r /\ cs_phase s = Parked /\ park_reason s = Some r
    | None => cs_phase s <> Parked
    end).
  { unfold note_token_refresh. destruct (negb _); [done|]. destruct (auth_reject (sup c)); [|done]. cbv zeta.
    destruct (bool_decide _); [by exists FatalDisconnect|]. by destruct (refresh_outcome r). }
  destruct (note_token_refresh r now (sup c)) as [[a told_] s]. cbn in *.
  split; [by apply (ground_same S e c)|]. destruct a as [a|]; [|done].
  destruct Hm as (r0 & -> & Hph & Hr). done.
Qed.

Lemma dispatch_spec bs inp k d c :
    up c -> let '(d', dec, c') := dispatch_loop bs inp k d c in
    guard c' = guard c /\ (dec = None -> up c') /\ dec <> Some Continue /\ (forall a, dec = Some a -> after_event a c') /\
    exists dn rest tail, bs = dn ++ rest /\ wire c' = wire c ++ (written SubscribeLeg <$> dn) ++ tail /\
      batches_total d' = batches_total d /\ batches_sent d' = (batches_sent d + length dn)%nat /\
      (written_log tail -> tail = []) /\ (rest = [] -> tail = []).
Proof.
  revert k d c. induction bs as [|b bs IH]; intros k d c Hu.
  { cbn. split_and!; try done. exists [], [], []. cbn. rewrite app_nil_r, Nat.add_0_r. done. }
  cbn [dispatch_loop].
  destruct (if (0 <? k)%nat then read_until (gap (inp k)) c else (None, c)) as [stop c1] eqn:Eg.
  assert (Hread : reads_only c c1 /\ (stop = None -> up c1) /\ stop <> Some Continue /\ forall a, stop = Some a -> after_event a c1).
  { destruct (0 <? k)%nat; [by apply read_events_spec in Eg|]. injection Eg as <- <-. split; [|done].
    by apply reads_only_refl, Hu. }
  clear Eg. destruct Hread as ([G1 W1 _ _ _] & Hu1 & Hc1 & Ha1). destruct stop as [a|].
  { split_and!; try done. exists [], (b :: bs), []. cbn. rewrite app_nil_r, Nat.add_0_r. done. }
  specialize (Hu1 eq_refl). destruct (send SubscribeLeg b _ c1) as [w c2] eqn:Es.
  apply send_spec in Es as ([G2 W2 _ _ _] & Hu2 & Hc2 & Hok & Ha2); [|done].
  assert (Hstop : wait_outcome w <> Written -> exists dn rest tail, b :: bs = dn ++ rest /\
     wire c2 = wire c ++ (written SubscribeLeg <$> dn) ++ tail /\
     batches_total d = batches_total d /\ batches_sent d = (batches_sent d + length dn)%nat /\
     (written_log tail -> tail = []) /\ (rest = [] -> tail = [])).
  { intros Ho. exists [], (b :: bs), [mkMessage SubscribeLeg b (wait_outcome w)]. cbn.
    rewrite W2, W1, Nat.add_0_r. split_and!; try done. by intros [? _]%Forall_cons. }
  destruct (socket_decision w) as [a|] eqn:Ed.
  { split_and!; try done; [congruence|]. apply Hstop. intros Ho. by specialize (Hok Ho). }
  destruct (decide (wait_outcome w = Written)) as [Ho|Ho].
  2:{ split; [congruence|]. split; [by apply Hu2|]. split; [done|]. split; [done|]. by apply Hstop. }
  specialize (IH (S k) { d with batches_sent ::= S; instruments_sent ::= fun n => (n + length b)%nat } c2 (Hu2 eq_refl)).
  destruct (dispatch_loop bs inp (S k) _ c2) as [[d' dec] c3].
  destruct IH as (G3 & Hu3 & Hc3 & Ha3 & dn & rest & tail & -> & W3 & T3 & S3 & Ht & Hr).
  split_and!; try done; [congruence|]. exists (b :: dn), rest, tail. split_and!; try done.
  - rewrite W3, W2, W1, Ho, <- !app_assoc. done.
  - rewrite S3. cbn. lia.
Qed.

(** A set replayed on a new connection: within the rules, and whole once nothing
    stopped early. *)
Lemma linked_subscribe S e i c : linked S e (AtTop Subscribe, c) -> linked S e (on_subscribe i c).
Proof.
  intros [[[Hnd Hcap] He Hl] [Hu Hw] _]. cbn in Hnd, Hcap, He, Hu, Hw.
  unfold on_subscribe, dispatch_subscribe.
  pose proof (dispatch_spec (batches (guard c)) (dispatch_input i) 0 (mkDispatch 0 (batch_count (guard c)) 0 (guard_len (guard c))) c Hu) as H.
  destruct (dispatch_loop _ _ _ _ c) as [[o d] c1].
  destruct H as (Hg & Hu1 & Hd & Ha & dn & rest & tail & Eb & W & T & Se & Ht & Hr). cbn in T, Se. rewrite Hw in W. cbn in W.
  destruct (chunks_cover (per_message (guard c)) (instruments (guard c)) (per_message_pos _)) as [Hcat Hsz].
  fold (batches (guard c)) in Hcat, Hsz. rewrite Eb, concat_app in Hcat.
  assert (G1 : ground S e c1).
  { split; rewrite ?Hg; try done. intros _ HW. rewrite W in HW |- *. apply Forall_app in HW as [HW Htl].
    rewrite (Ht Htl), app_nil_r. apply accepts_never_over; [done|].
    rewrite <- He. apply accepts_subscribed; cbn.
    - rewrite <- Hcat in Hnd. by apply NoDup_app in Hnd as [? _].
    - rewrite <- Hcat, zlen_app in Hcap. pose proof (zlen_nonneg (concat rest)). lia.
    - apply small_batches. rewrite Eb in Hsz. by apply Forall_app in Hsz as [? _]. }
  destruct d as [a|]; [apply linked_top; [done|by apply Ha|congruence]|]. specialize (Hu1 eq_refl).
  destruct (stopped_early o) eqn:Est; [by apply linked_event|]. cbv zeta.
  set (c2 := { c1 with guard ::= mark_confirmed }).
  destruct (note_held_set_spec c2) as (N1 & N2 & N3).
  assert (G2 : ground S e (note_held_set c2)) by (apply (ground_same S e c1); by rewrite ?N1, ?N2).
  assert (Hu2 : up (note_held_set c2)) by by apply N3.
  destruct (event_ground S e SubscribeAcked (now1 i) _ G2 Hu2) as (G3 & Ha3 & Eg3 & Ew3); [done|].
  destruct (sup_event SubscribeAcked _ _) as [a c3]. cbn in G3, Ha3, Eg3, Ew3.
  assert (Hst : after_step S e a c3).
  { split; [done..|]. intros _ _ _. rewrite Ew3, Eg3, N1, N2. change (wire c2) with (wire c1).
    change (instruments (guard c2)) with (instruments (guard c1)). rewrite W, Hg.
    unfold stopped_early in Est. apply Nat.ltb_ge in Est. rewrite T, Se in Est. unfold batch_count in Est.
    rewrite Eb, length_app in Est. assert (Hrest : rest = []) by (destruct rest; [done|cbn in Est; lia]).
    rewrite (Hr Hrest), app_nil_r. rewrite Hrest in Hcat. cbn in Hcat. rewrite app_nil_r in Hcat. rewrite <- Hcat.
    clear. assert (H : forall l0 : list SubscribeInstrument, net l0 (written SubscribeLeg <$> dn) = l0 ++ concat dn).
    { induction dn as [|b dn IH]; intros l0; cbn; [by rewrite app_nil_r|].
      unfold net in IH. by rewrite IH, <- app_assoc. }
    by rewrite H. }
  pose proof (linked_step S e a (new_drain (now2 i)) c3 Hst) as Hl3. by destruct (decide (a = Continue)).
Qed.

Lemma linked_dial S e i c : ground S e c -> up c -> linked S e (on_dial i c).
Proof.
  intros G Hu. unfold on_dial. cbv zeta.
  pose proof (ground_cleared S e c G) as G0. destruct (note_held_cleared_spec c) as (_ & _ & Hu0). specialize (Hu0 Hu).
  destruct (stop_requested i); [by apply linked_event|].
  assert (Hp : let r := overflow_probe_tick (overflow_probe_enabled i) (overflow_repark i) (now1 i) (note_held_cleared c) in
    ground S e r.2 /\ after_event r.1 r.2).
  { unfold overflow_probe_tick. destruct (_ && _); [|split; [done|by apply after_continue]].
    by destruct (event_ground S e OverflowProbeFailed (now1 i) _ G0 Hu0) as (? & ? & _). }
  destruct (overflow_probe_tick _ _ _ _) as [p c1]. cbn in Hp. destruct Hp as [G1 Ha1].
  destruct (decide (p <> Continue)) as [Hc|Hc]; [by apply linked_top|]. apply dec_stable in Hc as ->.
  apply after_continue in Ha1. destruct (negb _); [apply linked_top; [done| |done]; by split; apply Ha1|].
  set (slot := gidx (sup c1)). clearbody slot.
  set (c1' := tell_pool _ c1). assert (G1' : ground S e c1') by by apply (ground_same S e c1).
  assert (Ha1' : up c1') by (by split; apply Ha1). clearbody c1'. clear c1 G1 Ha1. rename c1' into c1, G1' into G1, Ha1' into Ha1.
  destruct (connected i); [|apply linked_event; [by apply (ground_same S e c1)|by split; apply Ha1|done]].
  assert (G2 : ground S e { c1 with wire := [] }) by (destruct G1; split; [done..|]; by intros _ _).
  unfold sup_event, on_event. destruct Ha1 as [Hw1 Hp1]. rewrite decide_False by done. cbn.
  split; cbn; [by apply (ground_same S e { c1 with wire := [] })| |done]. split; [|done].
  pose proof (wf_on_event DialSucceeded (now2 i) (sup c1) Hw1) as Hw2. unfold on_event in Hw2.
  rewrite decide_False in Hw2 by done. split; [exact Hw2|done].
Qed.

Lemma linked_at_top S e i a c : linked S e (AtTop a, c) -> linked S e (at_top i a c).
Proof.
  intros H. pose proof H as [G Hm _]. cbn in G, Hm.
  destruct a as [|d|d| |r|]; cbn [at_top].
  - apply linked_dial; [done|]. by destruct Hm as [_ []].
  - assert (Hu : up c) by by destruct Hm as [_ []]. unfold on_sleep_then_dial.
    destruct (linked_late S e (late_close i) false (now1 i) c G Hu) as [G1 Hl].
    destruct (late_close_decision _ _ _ _) as [[a|] c1]; cbn in G1, Hl; [by apply linked_top; destruct Hl|].
    destruct (ground_lost S e c1 G1 Hl). by apply linked_event.
  - assert (Hu : up c) by by destruct Hm as [_ []]. unfold on_refresh_then_dial.
    destruct (linked_late S e (late_close i) true (now1 i) c G Hu) as [G1 Hl].
    destruct (late_close_decision _ _ _ _) as [[a|] c1]; cbn in G1, Hl; [by apply linked_top; destruct Hl|].
    cbv zeta. destruct (ground_lost S e c1 G1 Hl) as [G2 Hu2].
    destruct (stop_requested i); [by apply linked_event|].
    destruct (linked_refresh S e (report i) (now2 i) _ G2 Hu2) as [G3 Hl3].
    destruct (token_refreshed _ _ _) as [[a|] c2]; cbn in G3, Hl3; [by apply linked_top; destruct Hl3|by apply linked_event].
  - by apply linked_subscribe.
  - destruct Hm as [_ [Hw [Hph Hr]]]. unfold on_park. cbv zeta.
    assert (Hp : sup_wf (sup (note_held_cleared c)) /\ cs_phase (sup (note_held_cleared c)) = Parked /\
      park_reason (sup (note_held_cleared c)) = Some r).
    { pose proof (wf_apply (OpHeld 0) 0 (sup c) Hw) as Hw1. unfold note_held_cleared. cbv zeta. by destruct (decide _). }
    destruct Hp as (A & B & C). pose proof (ground_cleared S e c G) as G1.
    case_bool_decide; cbn; [destruct (_ && _)|]; split; cbn; done.
  - by destruct Hm.
Qed.

Lemma linked_wait S e i r c : linked S e (WaitingForGrant r, c) -> linked S e (wait_for_overflow_grant i r c).
Proof.
  intros H. pose proof H as [G (Hw & Hp & Hr & ->) _]. cbn in G, Hw, Hp, Hr. unfold wait_for_overflow_grant.
  destruct (_ || _); [by split|]. destruct (overflow_grant i); [|done].
  pose proof (wf_on_event OverflowProbeGranted (now1 i) (sup c) Hw) as Hw1.
  unfold sup_event, on_event in *. rewrite decide_True in * by done. unfold releasable in *.
  destruct (_ && in_overflow_episode _); [|split; cbn; [by apply (ground_same S e c)|done|done]].
  unfold redial_telling, schedule_redial in *. cbv zeta in *.
  destruct (enter_backoff_fields ROverflowProbe (now1 i) { sup c with park_reason := None }) as (_ & _ & Hph & _ & _).
  apply linked_top; [by apply (ground_same S e c)| |done]. split; [exact Hw1|].
  change (cs_phase (enter_backoff ROverflowProbe (now1 i) { sup c with park_reason := None }) <> Parked). by rewrite Hph.
Qed.

(** ** The invariant of the loop *)

Definition no_silent_probe (i : TurnInput) : Prop :=
  match i with
  | DrainTurn i => forall ci cmd, di_command i = Some (ci, cmd) -> silent_probe cmd = false
  | TopTurn _ => True
  end.

Lemma linked_turn S e i st : (S -> no_silent_probe i) -> linked S e st -> linked S e (turn i st).
Proof.
  intros Hn H. destruct st as [[a|r|d|r] c], i as [i|i]; try done; cbn.
  - by apply linked_at_top.
  - by apply linked_wait.
  - by apply linked_drain.
Qed.

Lemma linked_start S slot g created now : guard_wf g -> linked S (g_endpoint g) (start slot g created now).
Proof.
  intros Hg. unfold start, begin_dial. apply linked_event; [|split; [apply wf_new|done]|done].
  split; [done..|]. by intros _ _.
Qed.

Lemma linked_run S slot g created now ts :
    guard_wf g -> (S -> Forall no_silent_probe ts) ->
    linked S (g_endpoint g) (run_connection ts (start slot g created now)).
Proof.
  intros Hg Hn. apply (run_connection_ind (linked S (g_endpoint g)) (fun i => S -> no_silent_probe i)).
  - by apply linked_start.
  - intros i st. apply linked_turn.
  - apply Forall_forall. intros i Hi HS. by apply (proj1 (Forall_forall _ _) (Hn HS)).
Qed.

(** A connection that comes up was told of the set and nothing else. *)
Lemma subscribe_written i c d c1 :
    up c -> wire c = [] -> on_subscribe i c = (Draining d, c1) ->
    wire c1 = written SubscribeLeg <$> batches (guard c) /\ instruments (guard c1) = instruments (guard c).
Proof.
  intros Hu Hw E. pose proof (mv_set _ _ (moves_at_top i Subscribe c)) as Hset. cbn [at_top] in Hset. rewrite E in Hset.
  split; [|done]. unfold on_subscribe, dispatch_subscribe in E.
  pose proof (dispatch_spec (batches (guard c)) (dispatch_input i) 0 (mkDispatch 0 (batch_count (guard c)) 0 (guard_len (guard c))) c Hu) as H.
  destruct (dispatch_loop _ _ _ _ c) as [[o x] c2].
  destruct H as (_ & Hu2 & _ & _ & dn & rest & tail & Eb & W & T & Se & _ & Hr). cbn in T, Se. rewrite Hw in W. cbn in W.
  destruct x; [done|]. destruct (stopped_early o) eqn:Est; [by destruct (sup_event _ _ _)|]. cbv zeta in E.
  destruct (note_held_set_spec { c2 with guard ::= mark_confirmed }) as (_ & N2 & N3).
  destruct (sup_event SubscribeAcked _ _) as [a c3] eqn:Ea. apply sup_event_spec in Ea as ([_ W3 _ _ _] & _); [|by apply N3, Hu2].
  destruct (decide _); [injection E as _ <-|done]. rewrite W3, N2. change (wire { c2 with guard ::= mark_confirmed }) with (wire c2).
  unfold stopped_early in Est. apply Nat.ltb_ge in Est. rewrite T, Se in Est. unfold batch_count in Est.
  rewrite Eb, length_app in Est. assert (Hrest : rest = []) by (destruct rest; [done|cbn in Est; lia]).
  by rewrite W, (Hr Hrest), app_nil_r, Eb, Hrest, app_nil_r.
Qed.

(** Only a command changes the named instruments. *)
Lemma set_kept ts st : Forall no_command ts -> instruments (guard (run_connection ts st).2) = instruments (guard st.2).
Proof.
  intros H. apply (run_connection_ind (fun s => instruments (guard s.2) = instruments (guard st.2)) no_command); [done| |done].
  intros i s Hi Hs. rewrite <- Hs. by apply moves_turn.
Qed.

(** ** A stop *)

(** The process stops: every flag read from now on is set, and the closed socket
    has no code left to hand over. *)
Definition stopping (i : TopInput * DrainInput) : Prop :=
  stop_requested i.1 = true /\ late_close i.1 = None /\ di_stop i.2 = true.

(** The turn the mode waits for. *)
Definition next_turn (st : LoopMode * Conn) (i : TopInput * DrainInput) : LoopMode * Conn :=
  turn (match st.1 with Draining _ => DrainTurn i.2 | _ => TopTurn i.1 end) st.

(** How many turns a stop may still take. *)
Definition turns_left (m : LoopMode) : nat :=
  match m with
  | Ended _ => 0
  | WaitingForGrant _ => 1
  | AtTop (Park r) => if decide (r = ParkPoolOverflow) then 2 else 1
  | AtTop Dial | Draining _ => 2
  | AtTop Subscribe => 4
  | AtTop _ => 3
  end.

Lemma turns_left_event a c : after_event a c -> a <> Continue -> (turns_left (AtTop a) <= 3)%nat.
Proof. intros [_ H] Ha. destruct a; cbn; try lia. destruct (decide _); lia. Qed.

Lemma subscribe_next i c : up c -> (turns_left (on_subscribe i c).1 <= 3)%nat.
Proof.
  intros Hu. unfold on_subscribe, dispatch_subscribe.
  pose proof (dispatch_spec (batches (guard c)) (dispatch_input i) 0 (mkDispatch 0 (batch_count (guard c)) 0 (guard_len (guard c))) c Hu) as H.
  destruct (dispatch_loop _ _ _ _ c) as [[o [a|]] c1]; destruct H as (_ & Hu1 & Hd & Ha & _).
  { apply (turns_left_event a c1); [by apply Ha|congruence]. }
  specialize (Hu1 eq_refl). destruct (stopped_early o).
  - pose proof (decides_acts SubscribeFailed (now1 i) c1 Hu1 eq_refl) as Hc.
    destruct (sup_event _ _ _) as [a c2] eqn:E. apply sup_event_spec in E as (_ & _ & Ha2); [|done].
    by apply (turns_left_event a c2); [apply Ha2|].
  - cbv zeta. destruct (note_held_set_spec { c1 with guard ::= mark_confirmed }) as (_ & _ & N3).
    destruct (sup_event SubscribeAcked _ _) as [a c2] eqn:E.
    apply sup_event_spec in E as (_ & _ & Ha2); [|by apply N3].
    destruct (decide (a = Continue)); [cbn; lia|]. by apply (turns_left_event a c2); [apply Ha2|].
Qed.

Lemma stop_progress i st e :
    linked False e st -> stopping i -> (turns_left (next_turn st i).1 <= turns_left st.1 - 1)%nat.
Proof.
  intros H (Hs & Hl & Hd). pose proof H as [G Hm _]. destruct st as [[a|r|d|r] c]; cbn in G, Hm; unfold next_turn; cbn [fst turn].
  - destruct a as [|d|d| |r|]; cbn [at_top] in *.
    + unfold on_dial. cbv zeta. rewrite Hs. destruct (note_held_cleared_spec c) as (_ & _ & Hu0).
      assert (Hp := shutdown_parks (now1 i.1) (note_held_cleared c)). destruct Hm as [_ [Hw Hph]].
      specialize (Hp (Hu0 (conj Hw Hph))). destruct (sup_event _ _ _). cbn in Hp. by subst.
    + unfold on_sleep_then_dial in *. rewrite Hl in *. cbn in *. unfold begin_dial in *.
      destruct Hm as [_ [Hw Hph]]. destruct (note_held_cleared_spec { c with guard ::= mark_lost }) as (_ & _ & Hu0).
      specialize (Hu0 (conj Hw Hph)). fold (socket_lost c) in Hu0. unfold sup_event, on_event.
      rewrite decide_False by apply Hu0. done.
    + unfold on_refresh_then_dial in *. rewrite Hl, Hs in *. cbn in *. unfold begin_dial in *.
      destruct Hm as [_ [Hw Hph]]. destruct (note_held_cleared_spec { c with guard ::= mark_lost }) as (_ & _ & Hu0).
      specialize (Hu0 (conj Hw Hph)). fold (socket_lost c) in Hu0. unfold sup_event, on_event.
      rewrite decide_False by apply Hu0. done.
    + etrans; [apply subscribe_next, Hm|done].
    + unfold on_park. cbv zeta. case_bool_decide; cbn; [|lia]. rewrite decide_True by done. destruct (_ && _); cbn; lia.
    + by destruct Hm.
  - unfold wait_for_overflow_grant. by rewrite Hs.
  - unfold drain_turn. rewrite Hd. pose proof (shutdown_parks (di_now i.2) c Hm) as Hp.
    destruct (sup_event _ _ _). cbn in Hp. by subst.
  - done.
Qed.

(** ** A connection to run the properties on *)

Definition quiet_top : TopInput :=
  mkTop false None 10 11 (mkReport 0 NotAttempted) true false false false true true 11 EmptyString (fun _ => good_batch).
Definition stop_top : TopInput :=
  mkTop true None 10 11 (mkReport 0 NotAttempted) true false false false true true 11 EmptyString (fun _ => good_batch).
Definition plain_drain (cmd : option (CommandInput * LiveSubscriptionCommand)) (ev : SocketEvent) : DrainInput :=
  mkDrainInput false cmd false quiet_write quiet_write quiet_write 12 (SelEvent ev 13).
Definition stop_drain : DrainInput :=
  mkDrainInput true None false quiet_write quiet_write quiet_write 12 (SelEvent Frame 13).

Definition sample_guard : SubscribeGuard := mkGuard Depth20 [nifty 1; nifty 2] 1 false.

(** Dial, subscribe, change the set, then lose the socket. *)
Definition sample_turns : list TurnInput :=
  [TopTurn quiet_top; TopTurn quiet_top;
   DrainTurn (plain_drain (Some (sample_input None, CmdResubscribe [nifty 1] [nifty 3])) Frame)].
Definition lost_turns : list TurnInput :=
  [TopTurn quiet_top; TopTurn quiet_top; DrainTurn (plain_drain None (Closed None)); TopTurn quiet_top; TopTurn quiet_top].

Lemma sample_guard_wf : guard_wf sample_guard.
Proof. split; [repeat constructor; set_solver|done]. Defined.

Module Loop.

(** Whatever the loop of a connection does, in any number of turns, it only
    ever steps its supervisor by the supervisor's own operations. *)
Theorem the_loop_runs_the_supervisor slot g created now ts :
    exists ops, snd (sup_run ops (new_supervisor slot created)) = sup (run_connection ts (start slot g created now)).2.
Proof.
  apply (run_connection_ind (fun st => sup_reach (new_supervisor slot created) (sup st.2)) (fun _ => True)).
  - unfold start. apply (moves_begin now (mkConn (new_supervisor slot created) g [] [] None)).
  - intros i st _ H. etrans; [exact H|]. apply reaches_turn.
  - by apply Forall_true.
Qed.

(** The loop and its supervisor never disagree: the loop is ended, at a park,
    or waiting for a grant exactly with a supervisor parked for that reason, it
    waits only after an 805, anywhere else the supervisor is not parked, and the
    loop's arm for an answer that decides nothing is never reached. *)
Theorem the_mode_is_the_phase slot g created now ts :
    guard_wf g ->
    let '(m, c) := run_connection ts (start slot g created now) in
    match m with
    | Ended r | AtTop (Park r) => cs_phase (sup c) = Parked /\ park_reason (sup c) = Some r
    | WaitingForGrant r => cs_phase (sup c) = Parked /\ park_reason (sup c) = Some r /\ r = ParkPoolOverflow
    | AtTop a => a <> Continue /\ cs_phase (sup c) <> Parked
    | Draining _ => cs_phase (sup c) <> Parked
    end.
Proof.
  intros Hg. destruct (linked_run False slot g created now ts Hg (fun H => match H with end)) as [_ H _].
  destruct (run_connection _ _) as [[a|r|d|r] c]; cbn in H.
  - destruct a; cbn in H; try (by destruct H as [? []]). by destruct H as [[_ ?] _].
  - by destruct H as (_ & ? & ? & ?).
  - by destruct H.
  - by destruct H.
Qed.

(** C10: Over the whole life of a connection, through dials, replays,
    commands, resends, ticks, closes and redials in any order: while every message
    of the current socket was answered as written, and no probe emptied the set
    without a message, no message subscribed an instrument the socket already
    carried, passed the connection's cap or was over length, and while the socket
    drains, what it carries is exactly the set. *)
Theorem the_set_is_on_the_socket slot g created now ts m c :
    guard_wf g -> Forall no_silent_probe ts ->
    run_connection ts (start slot g created now) = (m, c) -> written_log (wire c) ->
    never_over (g_endpoint g) [] (wire c) /\
    ((exists d, m = Draining d) -> net [] (wire c) ≡ₚ instruments (guard c)).
Proof.
  intros Hg Hn E HW. destruct (linked_run True slot g created now ts Hg (fun _ => Hn)) as [[_ _ Hl] _ Hs].
  rewrite E in Hl, Hs. split; [by apply Hl|]. intros [d Hd]. by apply (Hs d Hd).
Qed.

(** A connection that comes up, the first or after any number of lost ones,
    was sent exactly the set, batch by batch, within the feed's limits; and unless
    a command ran, that is the set the connection started with. *)
Theorem a_new_connection_replays_the_set slot g created now ts i c d c1 :
    guard_wf g -> run_connection ts (start slot g created now) = (AtTop Subscribe, c) ->
    turn (TopTurn i) (AtTop Subscribe, c) = (Draining d, c1) ->
    wire c1 = written SubscribeLeg <$> batches (guard c) /\ concat (batches (guard c)) = instruments (guard c) /\
    never_over (g_endpoint g) [] (wire c1) /\ instruments (guard c1) = instruments (guard c) /\
    (Forall no_command ts -> instruments (guard c) = instruments g).
Proof.
  intros Hg E E1. pose proof (linked_run False slot g created now ts Hg (fun H => match H with end)) as H0. rewrite E in H0.
  destruct H0 as [[Hw He _] [Hu Hwi] _]. cbn in Hw, He, Hu, Hwi.
  destruct (subscribe_written i c d c1 Hu Hwi E1) as [W Hi].
  destruct (chunks_cover (per_message (guard c)) (instruments (guard c)) (per_message_pos _)) as [Hcat Hsz].
  split; [done|]. split; [done|]. split; [|split; [done|]].
  - rewrite W. apply accepts_never_over; [by apply Forall_fmap, Forall_true|]. rewrite <- He. destruct Hw as [Hn Hc].
    apply accepts_subscribed; cbn; [by unfold batches; rewrite Hcat..|]. by apply small_batches.
  - intros Hnc. pose proof (set_kept ts (start slot g created now) Hnc) as Hk. rewrite E in Hk. cbn in Hk. rewrite Hk.
    apply (mv_set _ _ (moves_begin now (mkConn (new_supervisor slot created) g [] [] None))).
Qed.

(** C16: Once the process stops, and no closed socket still owes a disconnect
    code, the loop of a connection ends within four turns, wherever it was:
    parked, and with the reason its supervisor gives. *)
Theorem a_stop_ends_the_loop slot g created now ts ins :
    guard_wf g -> length ins = 4%nat -> Forall stopping ins ->
    let st := foldl next_turn (run_connection ts (start slot g created now)) ins in
    exists r, st.1 = Ended r /\ cs_phase (sup st.2) = Parked /\ park_reason (sup st.2) = Some r.
Proof.
  intros Hg Hlen HF. pose proof (linked_run False slot g created now ts Hg (fun H => match H with end)) as H.
  assert (H0 : (turns_left (run_connection ts (start slot g created now)).1 <= length ins)%nat).
  { rewrite Hlen. destruct (run_connection _ _) as [[[]|r|d|r] c]; cbn; try lia. destruct (decide _); lia. }
  clear Hlen. generalize dependent (run_connection ts (start slot g created now)).
  induction HF as [|i ins Hi HF IH]; intros st H H0; cbn.
  - destruct H as [_ Hm _]. destruct st as [[[]|r|d|r] c]; cbn in H0, Hm; try lia; [destruct (decide _); lia|].
    exists r. by destruct Hm as (_ & ? & ?).
  - apply IH; [by apply linked_turn|]. pose proof (stop_progress i st (g_endpoint g) H Hi). cbn in H0. lia.
Qed.

Lemma the_mode_is_the_phase_witness :
    (run_connection sample_turns (start (sample_slot Depth20) sample_guard 0 1)).1 = Draining (mkDrain false None None 11) /\
    cs_phase (sup (run_connection sample_turns (start (sample_slot Depth20) sample_guard 0 1)).2) <> Parked.
Proof.
  pose proof (the_mode_is_the_phase (sample_slot Depth20) sample_guard 0 1 sample_turns sample_guard_wf) as H.
  assert (E : (run_connection sample_turns (start (sample_slot Depth20) sample_guard 0 1)).1 =
    Draining (mkDrain false None None 11)) by (vm_compute; reflexivity).
  destruct (run_connection _ _) as [m c]. cbn in E. subst m. by split.
Defined.

Lemma the_set_is_on_the_socket_witness :
    exists m c, run_connection sample_turns (start (sample_slot Depth20) sample_guard 0 1) = (m, c) /\
    wire c = [written SubscribeLeg [nifty 1; nifty 2]; written Unsubscribe [nifty 1]; written SubscribeLeg [nifty 3]] /\
    never_over Depth20 [] (wire c) /\ net [] (wire c) ≡ₚ instruments (guard c).
Proof.
  assert (E : let r := run_connection sample_turns (start (sample_slot Depth20) sample_guard 0 1) in
    wire r.2 = [written SubscribeLeg [nifty 1; nifty 2]; written Unsubscribe [nifty 1]; written SubscribeLeg [nifty 3]] /\
    r.1 = Draining (mkDrain false None None 11)) by (vm_compute; split; reflexivity).
  destruct (run_connection sample_turns (start (sample_slot Depth20) sample_guard 0 1)) as [m c] eqn:Er.
  destruct E as [W M]. cbn in W, M. exists m, c. split; [done|]. split; [done|].
  destruct (the_set_is_on_the_socket (sample_slot Depth20) sample_guard 0 1 sample_turns m c) as [A B].
  - exact sample_guard_wf.
  - repeat constructor; cbn; try done. by intros ? ? [= <- <-].
  - exact Er.
  - rewrite W. repeat constructor.
  - split; [exact A|]. apply B. by eexists.
Defined.

Lemma a_new_connection_replays_the_set_witness :
    exists c d c1, run_connection lost_turns (start (sample_slot Depth20) sample_guard 0 1) = (AtTop Subscribe, c) /\
    turn (TopTurn quiet_top) (AtTop Subscribe, c) = (Draining d, c1) /\
    wire c1 = written SubscribeLeg <$> batches (guard c) /\ instruments (guard c) = [nifty 1; nifty 2].
Proof.
  assert (E : let r := run_connection lost_turns (start (sample_slot Depth20) sample_guard 0 1) in
    r.1 = AtTop Subscribe /\ (turn (TopTurn quiet_top) (AtTop Subscribe, r.2)).1 = Draining (mkDrain false None None 11))
    by (vm_compute; split; reflexivity).
  destruct (run_connection lost_turns (start (sample_slot Depth20) sample_guard 0 1)) as [m c] eqn:Er.
  destruct E as [M T]. cbn [fst snd] in M, T. subst m.
  destruct (turn (TopTurn quiet_top) (AtTop Subscribe, c)) as [m1 c1] eqn:Et. cbn [fst] in T. subst m1.
  destruct (a_new_connection_replays_the_set (sample_slot Depth20) sample_guard 0 1 lost_turns quiet_top c _ c1
    sample_guard_wf Er Et) as (W & _ & _ & _ & Hk).
  exists c, (mkDrain false None None 11), c1. split_and!; try done. apply Hk. by repeat constructor.
Defined.

Lemma a_stop_ends_the_loop_witness :
    exists r, (foldl next_turn (run_connection sample_turns (start (sample_slot Depth20) sample_guard 0 1))
      (replicate 4 (stop_top, stop_drain))).1 = Ended r.
Proof.
  destruct (a_stop_ends_the_loop (sample_slot Depth20) sample_guard 0 1 sample_turns (replicate 4 (stop_top, stop_drain)))
    as (r & H & _).
  - exact sample_guard_wf.
  - reflexivity.
  - repeat constructor.
  - by exists r.
Defined.

End Loop.
