(* ===== verification/OverflowEpisode.v ===== *)
(** The recovery from an 805, the broker's answer to too many connections
    ([core/src/websocket/pool_supervisor.rs], [OverflowEpisode] to
    [overflow_probe_window_open]): every market-data socket that parked for it
    waits; one of its pool is redialled as a test under a watched window, and only
    a window that passes releases the next.  An episode is a value with no clock
    of its own; the pair of them and the registers the connections read are
    process-wide, one step at a time under a lock.  Logs, metrics and the
    instants an outcome is reported with are left out. *)
From coqutil Require Import Datatypes.RecordSettersUsingExistingGetters.
From S2P Require Import Prelude FeedTypes ConnectionBudget ReconnectLadder ConnectionSupervisor.
Local Open Scope Z_scope.

(** * Constants *)

Definition OVERFLOW_PROBE_DELAYS_SECS : list Z := [300; 600; 1200].
Definition OVERFLOW_PROBE_MAX_ATTEMPTS : Z := 3.
Definition OVERFLOW_PROBE_WATCH_SECS : Z := 120.
Definition OVERFLOW_PROBE_EVICTION_ATTRIBUTION_SECS : Z := 20.
Definition OVERFLOW_PROBE_SIBLING_BURST_MS : Z := 2000.
Definition OVERFLOW_PROBE_SIBLING_HEAL_DEADLINE_SECS : Z := 120.
Definition OVERFLOW_PROBE_NOTE_CUTOFF_SECS : Z := OVERFLOW_PROBE_WATCH_SECS + OVERFLOW_PROBE_SIBLING_HEAL_DEADLINE_SECS.
Definition OVERFLOW_PROBE_DEFERRAL_CAP_SECS : Z :=
  OVERFLOW_PROBE_NOTE_CUTOFF_SECS + OVERFLOW_PROBE_SIBLING_HEAL_DEADLINE_SECS + OVERFLOW_PROBE_EVICTION_ATTRIBUTION_SECS.
Definition OVERFLOW_PROBE_FIRST_FRAME_DEADLINE_SECS : Z := 120.
Definition OVERFLOW_PROBE_REPARK_HOLD_SECS : Z := OVERFLOW_PROBE_FIRST_FRAME_DEADLINE_SECS.
Definition OVERFLOW_PROBE_WINDOW_MAX_SECS : Z :=
  OVERFLOW_PROBE_FIRST_FRAME_DEADLINE_SECS + OVERFLOW_PROBE_DEFERRAL_CAP_SECS +
  OVERFLOW_PROBE_FIRST_FRAME_DEADLINE_SECS + OVERFLOW_PROBE_WATCH_SECS.
Definition OVERFLOW_PROBE_GRANT_NOTE_CUTOFF_SECS : Z :=
  OVERFLOW_PROBE_WINDOW_MAX_SECS - OVERFLOW_PROBE_SIBLING_HEAL_DEADLINE_SECS - OVERFLOW_PROBE_EVICTION_ATTRIBUTION_SECS.
Definition DEPTH_OVERFLOW_PROBE_BASE_DELAY_SECS : Z := 300.
Definition DEPTH_OVERFLOW_PROBE_MAX_DELAY_SECS : Z := 1800.
Definition DEPTH_OVERFLOW_PROBE_MAX_ATTEMPTS : Z := 6.

Definition secs (n : Z) : Z := n * NANOS_PER_SEC.

(** * Data *)

Inductive OverflowEpisodeKind : Type := KindMainFeed | KindDepth.

Inductive OverflowEpisodePhase : Type :=
  | Quiet | Waiting | Probing | Releasing | Resuming | Recovered | DownForSession.

Inductive OverflowProbeOutcome : Type :=
  | ProbeGranted | ProbePassed | ReleaseGranted | ReleasePassed | FailedOverflow | FailedBareReset
  | FailedNoFrame | OutcomeRecovered | OutcomeDownForSession | SiblingResetNoted | SiblingHealed
  | FailedEvictionCorroborated | FailedSiblingUnhealed | FailedWatchedSilent | WatchedRestarted
  | FailedWatchedClosed | FailedDeferralExhausted | HeldAfterFailedWindow.

#[global] Instance episode_kind_eq_dec : EqDecision OverflowEpisodeKind. Proof. solve_decision. Defined.
#[global] Instance episode_phase_eq_dec : EqDecision OverflowEpisodePhase. Proof. solve_decision. Defined.
#[global] Instance probe_outcome_eq_dec : EqDecision OverflowProbeOutcome. Proof. solve_decision. Defined.

Definition for_endpoint (e : DhanEndpointType) : option OverflowEpisodeKind :=
  match e with
  | MainFeed => Some KindMainFeed
  | Depth20 | Depth200 => Some KindDepth
  | OrderUpdateFeed => None
  end.

Definition max_attempts (k : OverflowEpisodeKind) : Z :=
  match k with KindMainFeed => OVERFLOW_PROBE_MAX_ATTEMPTS | KindDepth => DEPTH_OVERFLOW_PROBE_MAX_ATTEMPTS end.

(** The doubling of a 64-bit wait by less than 6 never drops a bit. *)
Definition delay_secs (k : OverflowEpisodeKind) (attempt : Z) : option Z :=
  match k with
  | KindMainFeed => OVERFLOW_PROBE_DELAYS_SECS !! Z.to_nat attempt
  | KindDepth =>
      if attempt <? DEPTH_OVERFLOW_PROBE_MAX_ATTEMPTS
      then Some (Z.min (Z.shiftl DEPTH_OVERFLOW_PROBE_BASE_DELAY_SECS attempt) DEPTH_OVERFLOW_PROBE_MAX_DELAY_SECS)
      else None
  end.

Definition is_note (o : OverflowProbeOutcome) : bool :=
  match o with SiblingResetNoted | SiblingHealed | WatchedRestarted | HeldAfterFailedWindow => true | _ => false end.

Record OverflowEpisodeEffect : Type := mkEffect {
  outcomes : option OverflowProbeOutcome * option OverflowProbeOutcome;
  ef_grant : option Z;
  ef_repark : option Z;
  ef_sibling : option Z;
  restart_watch : bool }.

Definition no_effect : OverflowEpisodeEffect := mkEffect (None, None) None None None false.
Definition one_outcome (o : OverflowProbeOutcome) : OverflowEpisodeEffect := { no_effect with outcomes := (Some o, None) }.

Record OverflowEpisode : Type := mkEpisode {
  oe_kind : OverflowEpisodeKind;
  oe_phase : OverflowEpisodePhase;
  parked_mask : Z;
  probes_started : Z;
  phase_since : option Z;
  granted_at : option Z;
  watched_slot : Z;
  first_frame_at : option Z;
  suspect_mask : Z;
  suspect_since : list (option Z);
  burst_start : option Z;
  burst_mask : Z;
  settle_until : option Z;
  watch_restarted : bool;
  watched_down : bool;
  failed_since_pass : bool;
  held_reported : bool;
  reparking_mask : Z;
  reparking_until : option Z }.

Definition NO_SLOT : Z := 255.
Definition no_suspects : list (option Z) := replicate (Z.to_nat GHOST_REDIAL_SLOTS) None.

Definition of_kind (k : OverflowEpisodeKind) : OverflowEpisode := {|
  oe_kind := k; oe_phase := Quiet; parked_mask := 0; probes_started := 0; phase_since := None;
  granted_at := None; watched_slot := NO_SLOT; first_frame_at := None; suspect_mask := 0;
  suspect_since := no_suspects; burst_start := None; burst_mask := 0; settle_until := None;
  watch_restarted := false; watched_down := false; failed_since_pass := false;
  held_reported := false; reparking_mask := 0; reparking_until := None |}.

(** * Masks of slots *)

(** [1u32.checked_shl(slot)]. *)
Definition slot_bit (slot : Z) : option Z := if slot <? 32 then Some (Z.shiftl 1 slot) else None.

(** [mask & !bits], [u32] masks. *)
Definition mask_clear (mask bits : Z) : Z := Z.ldiff mask bits.

(** [mask.trailing_zeros()]. *)
Definition trailing_zeros (mask : Z) : Z :=
  match list_find (fun i => Z.testbit mask i = true) (seqZ 0 32) with
  | Some (_, i) => i
  | None => 32
  end.

Definition elapsed_at_least (d now since : Z) : bool := d <=? saturating_duration_since now since.

(** * One episode *)

Definition clear_reparking (slot : Z) (e : OverflowEpisode) : OverflowEpisode :=
  let e := match slot_bit slot with
           | Some bit => { e with reparking_mask ::= fun m => mask_clear m bit }
           | None => e
           end in
  if reparking_mask e =? 0 then { e with reparking_until := None } else e.

Definition clear_attribution (e : OverflowEpisode) : OverflowEpisode :=
  { e with suspect_mask := 0; suspect_since := no_suspects; burst_start := None; burst_mask := 0;
           settle_until := None; watched_down := false }.

Definition unsettled (now : Z) (e : OverflowEpisode) : bool :=
  negb (suspect_mask e =? 0) || watched_down e ||
  match settle_until e with Some u => now <? u | None => false end.

Definition window_overrun (now : Z) (e : OverflowEpisode) : bool :=
  match granted_at e with
  | None => true
  | Some g => elapsed_at_least (secs OVERFLOW_PROBE_WINDOW_MAX_SECS) now g
  end.

Definition watched (e : OverflowEpisode) : option Z :=
  match oe_phase e with Probing | Resuming => Some (watched_slot e) | _ => None end.

Definition widen_permitted (e : OverflowEpisode) : bool :=
  match oe_phase e with Quiet | Recovered => true | _ => false end.

Definition is_down (e : OverflowEpisode) : bool := bool_decide (oe_phase e = DownForSession).

Definition holds_turn (e : OverflowEpisode) : bool :=
  match oe_phase e with
  | Probing | Resuming => true
  | Waiting | Releasing => negb (Z.lor (parked_mask e) (reparking_mask e) =? 0)
  | Quiet | Recovered | DownForSession => false
  end.

(** A window failed. *)
Definition fail (o : OverflowProbeOutcome) (now : Z) (e : OverflowEpisode) : OverflowEpisodeEffect * OverflowEpisode :=
  let slot := watched_slot e in
  let e := clear_attribution { e with watched_slot := NO_SLOT; granted_at := None; first_frame_at := None;
                                      watch_restarted := false } in
  let e := { e with failed_since_pass := true } in
  if max_attempts (oe_kind e) <=? probes_started e then
    (mkEffect (Some o, Some OutcomeDownForSession) None (Some slot) None false,
     { e with oe_phase := DownForSession; phase_since := None })
  else
    let e := { e with oe_phase := Waiting; phase_since := Some now } in
    (mkEffect (Some o, None) None (Some slot) None false,
     match slot_bit slot with
     | Some bit => { e with reparking_mask ::= fun m => Z.lor m bit;
                            reparking_until := Some (now + secs OVERFLOW_PROBE_REPARK_HOLD_SECS) }
     | None => e
     end).

(** A failure about a sibling. *)
Definition fail_for (o : OverflowProbeOutcome) (sibling : option Z) (now : Z) (e : OverflowEpisode)
    : OverflowEpisodeEffect * OverflowEpisode :=
  let '(f, e) := fail o now e in ({ f with ef_sibling := sibling }, e).

Definition fail_deferral_exhausted (now : Z) (e : OverflowEpisode) : OverflowEpisodeEffect * OverflowEpisode :=
  let lowest := trailing_zeros (suspect_mask e) in
  fail_for FailedDeferralExhausted (if lowest <? GHOST_REDIAL_SLOTS then Some lowest else None) now e.

Definition ep_on_parked (slot : Z) (e : OverflowEpisode) : OverflowEpisode :=
  let e := match slot_bit slot with
           | Some bit => { e with parked_mask ::= fun m => Z.lor m bit }
           | None => e
           end in
  let e := { clear_reparking slot e with held_reported := false } in
  if bool_decide (oe_phase e = Recovered) && bool_decide (is_Some (phase_since e))
  then { e with oe_phase := Waiting } else e.

Definition ep_on_overflow (now : Z) (e : OverflowEpisode) : OverflowEpisodeEffect * OverflowEpisode :=
  let wait := (no_effect, { e with oe_phase := Waiting; phase_since := Some now }) in
  match oe_phase e with
  | Quiet | Waiting => wait
  | Probing | Resuming => fail FailedOverflow now e
  | Releasing | Recovered =>
      if max_attempts (oe_kind e) <=? probes_started e
      then (one_outcome OutcomeDownForSession, { e with oe_phase := DownForSession })
      else wait
  | DownForSession => (no_effect, e)
  end.

Definition join_burst (bit now : Z) (e : OverflowEpisode) : OverflowEpisode :=
  let joins := match burst_start e with
               | Some start => saturating_duration_since now start <=? OVERFLOW_PROBE_SIBLING_BURST_MS * NANOS_PER_MS
               | None => false
               end in
  let e := if joins then e else { e with burst_start := Some now; burst_mask := 0 } in
  { e with burst_mask ::= fun m => Z.lor m bit }.

Definition past_note_cutoff (now : Z) (e : OverflowEpisode) : bool :=
  match first_frame_at e with
  | Some first => elapsed_at_least (secs OVERFLOW_PROBE_NOTE_CUTOFF_SECS) now first
  | None => false
  end ||
  match granted_at e with
  | Some g => elapsed_at_least (secs OVERFLOW_PROBE_GRANT_NOTE_CUTOFF_SECS) now g
  | None => true
  end.

Definition note_sibling (slot bit now : Z) (e : OverflowEpisode) : OverflowEpisodeEffect * OverflowEpisode :=
  if past_note_cutoff now e then fail_for FailedDeferralExhausted (Some slot) now e else
  ({ one_outcome SiblingResetNoted with ef_sibling := Some slot },
   { e with suspect_mask ::= (fun m => Z.lor m bit);
            suspect_since ::= alter (fun s => match s with None => Some now | _ => s end) (Z.to_nat slot) }).

Definition watched_went_down (now : Z) (e : OverflowEpisode) : OverflowEpisodeEffect * OverflowEpisode :=
  if watch_restarted e then fail FailedWatchedClosed now e else
  let e := match slot_bit (watched_slot e) with Some bit => join_burst bit now e | None => e end in
  ({ one_outcome WatchedRestarted with restart_watch := true },
   { e with watch_restarted := true; first_frame_at := None; phase_since := Some now }).

Definition ep_on_bare_reset (slot recent_dials now : Z) (e : OverflowEpisode) : OverflowEpisodeEffect * OverflowEpisode :=
  if bool_decide (watched e = None) then (no_effect, e)
  else if slot =? watched_slot e then fail FailedBareReset now e
  else match slot_bit slot with
  | None => fail FailedBareReset now e
  | Some bit =>
      let e := join_burst bit now e in
      let evictors := mask_clear (mask_clear recent_dials bit) (burst_mask e) in
      if evictors =? 0 then note_sibling slot bit now e
      else fail_for FailedEvictionCorroborated (Some slot) now e
  end.

Definition ep_on_coded_close (slot now : Z) (e : OverflowEpisode) : OverflowEpisodeEffect * OverflowEpisode :=
  if bool_decide (watched e = None) then (no_effect, e)
  else if slot =? watched_slot e then watched_went_down now e
  else match slot_bit slot with
  | None => fail FailedBareReset now e
  | Some bit => note_sibling slot bit now (join_burst bit now e)
  end.

Definition ep_on_watched_torn_down (slot now : Z) (e : OverflowEpisode) : OverflowEpisodeEffect * OverflowEpisode :=
  if bool_decide (watched e = Some slot) then watched_went_down now e else (no_effect, e).

Definition ep_on_sibling_left (slot : Z) (e : OverflowEpisode) : OverflowEpisode :=
  let e := match slot_bit slot with
           | Some bit => { e with suspect_mask ::= fun m => mask_clear m bit }
           | None => e
           end in
  let e := clear_reparking slot e in
  { e with suspect_since ::= alter (fun _ => None) (Z.to_nat slot) }.

Definition ep_on_left (slot now : Z) (e : OverflowEpisode) : OverflowEpisodeEffect * OverflowEpisode :=
  if bool_decide (watched e = Some slot) then
    let '(f, e) := fail FailedWatchedClosed now e in (f, clear_reparking slot e)
  else (no_effect, ep_on_sibling_left slot e).

(** A noted sibling past its own deadline. *)
Definition sibling_overdue (slot now : Z) (e : OverflowEpisode) : bool :=
  match suspect_since e !! Z.to_nat slot with
  | Some (Some since) => elapsed_at_least (secs OVERFLOW_PROBE_SIBLING_HEAL_DEADLINE_SECS) now since
  | _ => true
  end.

(** A redial could itself evict someone: no pass before it has settled. *)
Definition settle (now : Z) (e : OverflowEpisode) : OverflowEpisode :=
  let u := now + secs OVERFLOW_PROBE_EVICTION_ATTRIBUTION_SECS in
  { e with settle_until ::= fun s => Some (match s with Some until => Z.max until u | None => u end) }.

Definition ep_on_sibling_dialled (slot now : Z) (e : OverflowEpisode) : OverflowEpisodeEffect * OverflowEpisode :=
  match slot_bit slot with
  | None => (no_effect, e)
  | Some bit =>
      if bool_decide (watched e = None) || (Z.land (suspect_mask e) bit =? 0) then (no_effect, e) else
      if sibling_overdue slot now e then fail_for FailedSiblingUnhealed (Some slot) now e else
      let e := { e with suspect_mask ::= (fun m => mask_clear m bit);
                        suspect_since ::= alter (fun _ => None) (Z.to_nat slot) } in
      ({ one_outcome SiblingHealed with ef_sibling := Some slot }, settle now e)
  end.

Definition ep_on_watched_redialling (slot : Z) (e : OverflowEpisode) : OverflowEpisode :=
  if bool_decide (watched e = Some slot) then { e with watched_down := true } else e.

Definition ep_on_watched_dialled (slot now : Z) (e : OverflowEpisode) : OverflowEpisode :=
  if bool_decide (watched e = Some slot) && watched_down e then settle now { e with watched_down := false } else e.

Definition ep_on_watched_self_redial (slot now : Z) (e : OverflowEpisode) : OverflowEpisodeEffect * OverflowEpisode :=
  if bool_decide (watched e = Some slot) then fail FailedWatchedSilent now e else (no_effect, e).

Definition ep_on_first_frame (slot now : Z) (e : OverflowEpisode) : OverflowEpisode :=
  if bool_decide (watched e = Some slot) && bool_decide (first_frame_at e = None)
  then { e with first_frame_at := Some now } else e.

(** ** The poll *)

Definition start_watch (p : OverflowEpisodePhase) (slot now : Z) (e : OverflowEpisode) : OverflowEpisode :=
  clear_attribution { e with oe_phase := p; watched_slot := slot; phase_since := Some now; granted_at := Some now;
                             first_frame_at := None; watch_restarted := false }.

Definition take_lowest_parked (e : OverflowEpisode) : Z * OverflowEpisode :=
  if parked_mask e =? 0 then (NO_SLOT, e) else
  let slot := trailing_zeros (parked_mask e) in
  (slot, { e with parked_mask ::= fun m => mask_clear m (Z.shiftl 1 slot) }).

Definition release_next (now : Z) (window_open : bool) (e : OverflowEpisode) : OverflowEpisodeEffect * OverflowEpisode :=
  if parked_mask e =? 0 then (one_outcome OutcomeRecovered, { e with oe_phase := Recovered })
  else if negb window_open then (no_effect, e) else
  let '(slot, e) := take_lowest_parked e in
  ({ one_outcome ReleaseGranted with ef_grant := Some slot }, start_watch Resuming slot now e).

Definition poll_waiting (now : Z) (window_open : bool) (e : OverflowEpisode) : OverflowEpisodeEffect * OverflowEpisode :=
  match delay_secs (oe_kind e) (probes_started e) with
  | None => (one_outcome OutcomeDownForSession, { e with oe_phase := DownForSession })
  | Some delay =>
      let waited := match phase_since e with Some s => saturating_duration_since now s | None => 0 end in
      if waited <? secs delay then (no_effect, e)
      else if parked_mask e =? 0 then
        if negb (failed_since_pass e) then (no_effect, { e with oe_phase := Recovered })
        else if negb (held_reported e) then (one_outcome HeldAfterFailedWindow, { e with held_reported := true })
        else (no_effect, e)
      else if negb window_open then (no_effect, e) else
      let '(slot, e) := take_lowest_parked e in
      let e := { e with probes_started ::= fun n => u8_saturating_add n 1 } in
      ({ one_outcome ProbeGranted with ef_grant := Some slot }, start_watch Probing slot now e)
  end.

(** The window passed. *)
Definition pass_window (now : Z) (window_open : bool) (e : OverflowEpisode) : OverflowEpisodeEffect * OverflowEpisode :=
  let passed := if decide (oe_phase e = Probing) then ProbePassed else ReleasePassed in
  let e := { clear_attribution e with failed_since_pass := false; held_reported := false; oe_phase := Releasing;
                                      first_frame_at := None; phase_since := None; granted_at := None } in
  let '(next, e) := release_next now window_open e in
  ({ next with outcomes := (Some passed, fst (outcomes next)) }, e).

Definition poll_window (now : Z) (window_open : bool) (e : OverflowEpisode) : OverflowEpisodeEffect * OverflowEpisode :=
  match list_find (fun s => (Z.testbit (suspect_mask e) s && sibling_overdue s now e) = true) (seqZ 0 32) with
  | Some (_, s) => fail_for FailedSiblingUnhealed (Some s) now e
  | None =>
      let overrun := window_overrun now e in
      match first_frame_at e with
      | None =>
          let granted_for := match phase_since e with Some s => saturating_duration_since now s | None => 0 end in
          if secs OVERFLOW_PROBE_FIRST_FRAME_DEADLINE_SECS <=? granted_for then fail FailedNoFrame now e
          else if overrun then fail_deferral_exhausted now e
          else (no_effect, e)
      | Some first =>
          if saturating_duration_since now first <? secs OVERFLOW_PROBE_WATCH_SECS then
            if overrun then fail_deferral_exhausted now e else (no_effect, e)
          else if unsettled now e then
            if (saturating_duration_since now first <? secs OVERFLOW_PROBE_DEFERRAL_CAP_SECS) && negb overrun
            then (no_effect, e) else fail_deferral_exhausted now e
          else pass_window now window_open e
      end
  end.

Definition ep_poll (now : Z) (window_open : bool) (e : OverflowEpisode) : OverflowEpisodeEffect * OverflowEpisode :=
  let e := match reparking_until e with
           | Some until => if until <=? now then { e with reparking_mask := 0; reparking_until := None } else e
           | None => e
           end in
  match oe_phase e with
  | Waiting => poll_waiting now window_open e
  | Probing | Resuming => poll_window now window_open e
  | Releasing => release_next now window_open e
  | Quiet | Recovered | DownForSession => (no_effect, e)
  end.

(** * Both episodes *)

Record OverflowEpisodes : Type := mkEpisodes { main_ep : OverflowEpisode; depth_ep : OverflowEpisode }.
Record OverflowEpisodesEffect : Type := mkEpisodesEffect { main_effect : OverflowEpisodeEffect; depth_effect : OverflowEpisodeEffect }.

Definition new_episodes : OverflowEpisodes := mkEpisodes (of_kind KindMainFeed) (of_kind KindDepth).

Definition watched_any (eps : OverflowEpisodes) : option Z :=
  match watched (main_ep eps) with Some s => Some s | None => watched (depth_ep eps) end.

(** An event fed to both. *)
Definition feed_both (f : OverflowEpisode -> OverflowEpisodeEffect * OverflowEpisode) (eps : OverflowEpisodes)
    : OverflowEpisodesEffect * OverflowEpisodes :=
  let '(m, me) := f (main_ep eps) in
  let '(d, de) := f (depth_ep eps) in
  (mkEpisodesEffect m d, mkEpisodes me de).

Definition quietly (f : OverflowEpisode -> OverflowEpisode) (e : OverflowEpisode) : OverflowEpisodeEffect * OverflowEpisode :=
  (no_effect, f e).

Definition on_parked (ep : DhanEndpointType) (slot : Z) (eps : OverflowEpisodes) : OverflowEpisodes :=
  match for_endpoint ep with
  | Some KindMainFeed => { eps with main_ep ::= ep_on_parked slot }
  | Some KindDepth => { eps with depth_ep ::= ep_on_parked slot }
  | None => eps
  end.

Definition on_overflow (now : Z) : OverflowEpisodes -> OverflowEpisodesEffect * OverflowEpisodes := feed_both (ep_on_overflow now).
Definition on_bare_reset (slot recent_dials now : Z) : OverflowEpisodes -> OverflowEpisodesEffect * OverflowEpisodes :=
  feed_both (ep_on_bare_reset slot recent_dials now).
Definition on_sibling_dialled (slot now : Z) : OverflowEpisodes -> OverflowEpisodesEffect * OverflowEpisodes :=
  feed_both (ep_on_sibling_dialled slot now).
Definition on_sibling_left (slot : Z) : OverflowEpisodes -> OverflowEpisodesEffect * OverflowEpisodes :=
  feed_both (quietly (ep_on_sibling_left slot)).
Definition on_watched_redialling (slot : Z) : OverflowEpisodes -> OverflowEpisodesEffect * OverflowEpisodes :=
  feed_both (quietly (ep_on_watched_redialling slot)).
Definition on_dialled (slot now : Z) (eps : OverflowEpisodes) : OverflowEpisodesEffect * OverflowEpisodes :=
  on_sibling_dialled slot now
    (mkEpisodes (ep_on_watched_dialled slot now (main_ep eps)) (ep_on_watched_dialled slot now (depth_ep eps))).
Definition on_coded_close (slot now : Z) : OverflowEpisodes -> OverflowEpisodesEffect * OverflowEpisodes :=
  feed_both (ep_on_coded_close slot now).
Definition on_left (slot now : Z) : OverflowEpisodes -> OverflowEpisodesEffect * OverflowEpisodes := feed_both (ep_on_left slot now).
Definition on_watched_torn_down (slot now : Z) : OverflowEpisodes -> OverflowEpisodesEffect * OverflowEpisodes :=
  feed_both (ep_on_watched_torn_down slot now).
Definition on_watched_self_redial (slot now : Z) : OverflowEpisodes -> OverflowEpisodesEffect * OverflowEpisodes :=
  feed_both (ep_on_watched_self_redial slot now).
Definition on_first_frame (slot now : Z) (eps : OverflowEpisodes) : OverflowEpisodes :=
  mkEpisodes (ep_on_first_frame slot now (main_ep eps)) (ep_on_first_frame slot now (depth_ep eps)).

(** The main feed goes first; depth grants only while the main feed does not hold
    the turn. *)
Definition poll_episodes (now : Z) (window_open : bool) (eps : OverflowEpisodes) : OverflowEpisodesEffect * OverflowEpisodes :=
  let '(m, me) := ep_poll now (window_open && bool_decide (watched (depth_ep eps) = None)) (main_ep eps) in
  let '(d, de) := ep_poll now (window_open && negb (holds_turn me)) (depth_ep eps) in
  (mkEpisodesEffect m d, mkEpisodes me de).

(** * The registers

    What the connections read without the lock: the widen word, whose low bit is
    the main episode's verdict and whose other bits count 805s noted but not yet
    applied; the slot whose first frame was seen; a grant and a re-park request per
    slot; when each slot last began a dial, in milliseconds from the first such
    instant plus one, and the stamp before that.  The published copies of an
    episode's own fields are read from it. *)

Record OverflowState : Type := mkOverflow {
  episodes : OverflowEpisodes;
  engaged : bool;
  widen_state : Z;
  watched_first_frame : Z;
  grants : list bool;
  reparks : list bool;
  dial_begin_ms : list Z;
  dial_prior_ms : list Z;
  dial_epoch : option Z }.

Definition WIDEN_PERMITTED_BIT : Z := 1.
Definition WIDEN_PENDING_805 : Z := 2.

Definition new_overflow : OverflowState := {|
  episodes := new_episodes; engaged := false; widen_state := WIDEN_PERMITTED_BIT; watched_first_frame := NO_SLOT;
  grants := replicate (Z.to_nat GHOST_REDIAL_SLOTS) false; reparks := replicate (Z.to_nat GHOST_REDIAL_SLOTS) false;
  dial_begin_ms := replicate (Z.to_nat GHOST_REDIAL_SLOTS) 0; dial_prior_ms := replicate (Z.to_nat GHOST_REDIAL_SLOTS) 0;
  dial_epoch := None |}.

Definition widen_word_permits (w : Z) : bool := w =? WIDEN_PERMITTED_BIT.
Definition widen_word_note_805 (w : Z) : Z := (w + WIDEN_PENDING_805) mod 4294967296.
Definition widen_word_publish (permitted : bool) (w : Z) : Z :=
  if permitted then Z.lor w WIDEN_PERMITTED_BIT else mask_clear w WIDEN_PERMITTED_BIT.
Definition widen_word_settle_805 (w : Z) : Z := (w - WIDEN_PENDING_805) mod 4294967296.
Definition main_feed_overflow_widen_permitted (st : OverflowState) : bool := widen_word_permits (widen_state st).

Definition set_slot {A} (slot : Z) (v : A) (l : list A) : list A := <[Z.to_nat slot := v]> l.

Definition apply_overflow_effect (f : OverflowEpisodeEffect) (st : OverflowState) : OverflowState :=
  let st := match ef_repark f with Some s => { st with reparks ::= set_slot s true } | None => st end in
  match ef_grant f with
  | Some s => { st with reparks ::= set_slot s false; grants ::= set_slot s true }
  | None => st
  end.

(** One step under the lock. *)
Definition overflow_episode_step (settles_805 : bool)
    (step : OverflowEpisodes -> OverflowEpisodesEffect * OverflowEpisodes) (st : OverflowState) : OverflowState :=
  let '(f, eps) := step (episodes st) in
  let moved := negb (bool_decide (watched_any eps = watched_any (episodes st))) ||
               restart_watch (main_effect f) || restart_watch (depth_effect f) in
  let st := { st with episodes := eps; widen_state ::= widen_word_publish (widen_permitted (main_ep eps)) } in
  let st := if settles_805 then { st with widen_state ::= widen_word_settle_805 } else st in
  let st := if moved then { st with watched_first_frame := NO_SLOT } else st in
  apply_overflow_effect (depth_effect f) (apply_overflow_effect (main_effect f) st).

(** ** Dial stamps *)

(** [get_or_init]: the first use of the epoch sets it. *)
Definition dial_stamp_ms (now : Z) (st : OverflowState) : Z * OverflowState :=
  let epoch := default now (dial_epoch st) in
  (as_millis (saturating_duration_since now epoch), { st with dial_epoch := Some epoch }).

Definition record_dial_begin (slot ms : Z) (st : OverflowState) : OverflowState :=
  { st with dial_begin_ms ::= set_slot slot (u64_saturating_add ms 1) }.

Definition stamp_dial_begin (slot now : Z) (st : OverflowState) : OverflowState :=
  let '(ms, st) := dial_stamp_ms now st in record_dial_begin slot ms st.

Definition stamp_dial_attempt (slot now : Z) (st : OverflowState) : OverflowState :=
  let st := match dial_begin_ms st !! Z.to_nat slot with
            | Some v => { st with dial_prior_ms ::= set_slot slot v }
            | None => st
            end in
  stamp_dial_begin slot now st.

Definition recent_dial_mask (now_ms within_ms : Z) (table : list Z) : Z :=
  foldr Z.lor 0 (imap (fun i v =>
    if negb (v =? 0) && (u64_saturating_sub (u64_saturating_add now_ms 1) v <=? within_ms)
    then default 0 (slot_bit (Z.of_nat i)) else 0) table).

Definition DIAL_FAILURE_UPGRADE_REFUSED : string := "upgrade_refused".

Definition dial_failure_proves_no_accept (r : string) : bool :=
  bool_decide (r = DIAL_FAILURE_UPGRADE_REFUSED) || bool_decide (r ∈ ["no_token"; "tls_config"; "bad_url"]).

Definition note_dial_failed_in (slot : Z) (r : string) (st : OverflowState) : OverflowState :=
  if dial_failure_proves_no_accept r then
    match dial_begin_ms st !! Z.to_nat slot, dial_prior_ms st !! Z.to_nat slot with
    | Some _, Some kept => { st with dial_begin_ms ::= set_slot slot kept }
    | _, _ => st
    end
  else st.

(** ** What a connection reports *)

Inductive OverflowCloseRoute : Type := RouteOverflow | BareReset | CodedClose | Ignore.

Definition overflow_close_route (code : option DisconnectCode) (engaged : bool) : OverflowCloseRoute :=
  match classify_disconnect code with
  | PoolOverflow => RouteOverflow
  | _ => if negb engaged then Ignore else match code with None => BareReset | Some _ => CodedClose end
  end.

(** An 805, noted before the lock and applied under it. *)
Definition note_805 (st : OverflowState) : OverflowState :=
  { st with engaged := true; widen_state ::= widen_word_note_805 }.
Definition apply_805 (now : Z) (st : OverflowState) : OverflowState :=
  overflow_episode_step true (on_overflow now) st.

Definition overflow_episode_note_disconnect (code : option DisconnectCode) (slot now : Z) (st : OverflowState) : OverflowState :=
  match overflow_close_route code (engaged st) with
  | RouteOverflow => apply_805 now (note_805 st)
  | BareReset =>
      let '(ms, st) := dial_stamp_ms now st in
      let recent := recent_dial_mask ms (OVERFLOW_PROBE_EVICTION_ATTRIBUTION_SECS * 1000) (dial_begin_ms st) in
      overflow_episode_step false (on_bare_reset slot recent now) st
  | CodedClose => overflow_episode_step false (on_coded_close slot now) st
  | Ignore => st
  end.

Definition suspect_bit_set (slot : Z) (st : OverflowState) : bool :=
  match slot_bit slot with
  | Some bit => negb (Z.land (Z.lor (suspect_mask (main_ep (episodes st))) (suspect_mask (depth_ep (episodes st)))) bit =? 0)
  | None => false
  end.

Definition is_watched (slot : Z) (st : OverflowState) : bool :=
  default NO_SLOT (watched_any (episodes st)) =? slot.

Definition overflow_episode_note_dial_succeeded (slot now : Z) (st : OverflowState) : OverflowState :=
  if negb (suspect_bit_set slot st) && negb (is_watched slot st) then st
  else overflow_episode_step false (on_dialled slot now) st.

Definition overflow_episode_note_self_redial (slot now : Z) (st : OverflowState) : OverflowState :=
  if negb (engaged st) || negb (is_watched slot st) then st
  else overflow_episode_step false (on_watched_self_redial slot now) st.

Definition overflow_episode_note_watched_torn_down (slot now : Z) (st : OverflowState) : OverflowState :=
  if negb (engaged st) || negb (is_watched slot st) then st
  else overflow_episode_step false (on_watched_torn_down slot now) st.

Definition overflow_episode_note_watched_redialling (slot : Z) (st : OverflowState) : OverflowState :=
  if negb (engaged st) || negb (is_watched slot st) then st
  else overflow_episode_step false (on_watched_redialling slot) st.

Definition left_reaches_episode (slot : Z) (reason : ParkReason) (st : OverflowState) : bool :=
  suspect_bit_set slot st ||
  negb (bool_decide (reason = Shutdown)) && is_watched slot st ||
  default false (reparks st !! Z.to_nat slot).

Definition overflow_episode_note_left (slot : Z) (reason : ParkReason) (now : Z) (st : OverflowState) : OverflowState :=
  if negb (left_reaches_episode slot reason st) then st else
  overflow_episode_step false
    (if decide (reason = Shutdown) then on_sibling_left slot else on_left slot now) st.

Definition overflow_episode_note_first_frame (slot : Z) (st : OverflowState) : OverflowState :=
  if is_watched slot st then { st with watched_first_frame := slot } else st.

Definition overflow_episode_note_parked (ep : DhanEndpointType) (slot : Z) (st : OverflowState) : OverflowState :=
  overflow_episode_step false (fun eps => (mkEpisodesEffect no_effect no_effect, on_parked ep slot eps)) st.

Definition overflow_episode_poll (now : Z) (window_open : bool) (st : OverflowState) : OverflowState :=
  overflow_episode_step false (fun eps =>
    poll_episodes now window_open
      match watched_any eps with
      | Some w => if watched_first_frame st =? w then on_first_frame w now eps else eps
      | None => eps
      end) st.

Definition overflow_episode_down_for (ep : DhanEndpointType) (st : OverflowState) : bool :=
  match for_endpoint ep with
  | Some KindMainFeed => is_down (main_ep (episodes st))
  | Some KindDepth => is_down (depth_ep (episodes st))
  | None => true
  end.

Definition take_overflow_grant (slot : Z) (st : OverflowState) : bool * OverflowState :=
  (default false (grants st !! Z.to_nat slot), { st with grants ::= set_slot slot false }).
Definition take_overflow_repark (slot : Z) (st : OverflowState) : bool * OverflowState :=
  (default false (reparks st !! Z.to_nat slot), { st with reparks ::= set_slot slot false }).

Definition overflow_probe_window_open (g : FrameSilenceGate) (secs_of_day : Z) : bool := is_open_at g secs_of_day.

(** What a connection tells the episodes, its supervisor's step or the loop around a
    dial; the other calls are not about them. *)
Definition tell_overflow (call : PoolCall) (st : OverflowState) : OverflowState :=
  match call with
  | NoteDialBegin slot now => stamp_dial_attempt slot now st
  | NoteDialConnect slot now => stamp_dial_begin slot now st
  | NoteDialFailed slot reason => note_dial_failed_in slot reason st
  | NoteDialSucceeded slot now => overflow_episode_note_dial_succeeded slot now st
  | NoteWatchedTornDown slot now => overflow_episode_note_watched_torn_down slot now st
  | NoteFirstFrame slot => overflow_episode_note_first_frame slot st
  | NoteDisconnect code slot now => overflow_episode_note_disconnect code slot now st
  | NoteSelfRedial slot now => overflow_episode_note_self_redial slot now st
  | NoteWatchedRedialling slot => overflow_episode_note_watched_redialling slot st
  | NoteLeft slot reason now => overflow_episode_note_left slot reason now st
  | BumpDialGeneration _ | StoreSubscribedAt _ | GapPeakMax _ _ | GapPeakReset _ | PublishFrameActivity _ | HaltRotation => st
  end.
