(* ===== verification/OverflowSafety.v ===== *)
(** What the recovery from an 805 promises ([OverflowEpisode]): one window runs at
    a time, for a socket that had parked; a window passes only when it was earned;
    the probes are few and far apart; and the main feed opens no new connection
    between an 805 and the recovery. *)
From coqutil Require Import Datatypes.RecordSettersUsingExistingGetters.
From S2P Require Import Prelude FeedTypes ConnectionBudget ReconnectLadder ConnectionSupervisor OverflowEpisode.
Local Open Scope Z_scope.

(** * Masks *)

Definition mask_ok (m : Z) : Prop := 0 <= m < 2 ^ 32.

Lemma slot_bit_inv s b : slot_bit s = Some b -> s < 32 /\ b = Z.shiftl 1 s.
Proof. unfold slot_bit. destruct (Z.ltb_spec s 32); naive_solver. Qed.

Lemma shiftl_one_testbit s t : 0 <= s -> Z.testbit (Z.shiftl 1 s) t = (s =? t).
Proof. intros. rewrite Z.shiftl_1_l. apply Z.pow2_bits_eqb. done. Qed.

Lemma mask_ok_bits m : 0 <= m -> (mask_ok m <-> forall i, 32 <= i -> Z.testbit m i = false).
Proof. intros H. unfold mask_ok. rewrite <- Z.bounded_iff_bits_nonneg by lia. lia. Qed.

Lemma mask_ok_lor a b : mask_ok a -> mask_ok b -> mask_ok (Z.lor a b).
Proof.
  intros Ha Hb. assert (0 <= Z.lor a b) by (apply Z.lor_nonneg; unfold mask_ok in *; lia).
  apply mask_ok_bits; [done|]. intros i Hi. rewrite Z.lor_spec.
  rewrite (proj1 (mask_ok_bits a ltac:(unfold mask_ok in *; lia)) Ha) by done.
  by rewrite (proj1 (mask_ok_bits b ltac:(unfold mask_ok in *; lia)) Hb).
Qed.

Lemma mask_ok_clear a b : mask_ok a -> mask_ok (mask_clear a b).
Proof.
  intros Ha. unfold mask_clear. assert (0 <= Z.ldiff a b) by (apply Z.ldiff_nonneg; unfold mask_ok in *; lia).
  apply mask_ok_bits; [done|]. intros i Hi. rewrite Z.ldiff_spec.
  by rewrite (proj1 (mask_ok_bits a ltac:(unfold mask_ok in *; lia)) Ha).
Qed.

Lemma mask_ok_bit s b : 0 <= s -> slot_bit s = Some b -> mask_ok b.
Proof.
  intros Hs (Hlt & ->)%slot_bit_inv. assert (0 <= Z.shiftl 1 s) by (rewrite Z.shiftl_1_l; apply Z.pow_nonneg; lia).
  apply mask_ok_bits; [done|]. intros i Hi. rewrite shiftl_one_testbit by done. lia.
Qed.

Lemma mask_ok_0 : mask_ok 0. Proof. unfold mask_ok. lia. Qed.
#[export] Hint Resolve mask_ok_lor mask_ok_clear mask_ok_bit mask_ok_0 : tickdb.

(** The lowest slot of a mask that has one. *)
Lemma trailing_zeros_spec m : mask_ok m -> m <> 0 ->
  0 <= trailing_zeros m < 32 /\ Z.testbit m (trailing_zeros m) = true.
Proof.
  intros Hm Hz. unfold trailing_zeros.
  destruct (list_find _ _) as [[n i]|] eqn:E.
  - apply list_find_Some in E as (Hi & Hb & _). apply list_elem_of_lookup_2, elem_of_seqZ in Hi. split; [lia|done].
  - exfalso. apply Hz. apply Z.bits_inj_0. intros i. rewrite list_find_None in E.
    destruct (decide (0 <= i)); [|apply Z.testbit_neg_r; lia].
    destruct (decide (32 <= i)); [by apply mask_ok_bits; unfold mask_ok in *; try lia|].
    rewrite Forall_forall in E. apply not_true_is_false, E, elem_of_seqZ. lia.
Qed.

(** * Histories

    What can happen to one episode, newest first. *)

Inductive EpisodeEvent : Type :=
  | EvParked (slot : Z)
  | EvOverflow (now : Z)
  | EvBareReset (slot recent_dials now : Z)
  | EvCodedClose (slot now : Z)
  | EvTornDown (slot now : Z)
  | EvLeft (slot now : Z)
  | EvSiblingLeft (slot : Z)
  | EvDialled (slot now : Z)
  | EvRedialling (slot : Z)
  | EvSelfRedial (slot now : Z)
  | EvFirstFrame (slot now : Z)
  | EvPoll (now : Z) (window_open : bool).

Definition ep_event (ev : EpisodeEvent) (e : OverflowEpisode) : OverflowEpisodeEffect * OverflowEpisode :=
  match ev with
  | EvParked slot => quietly (ep_on_parked slot) e
  | EvOverflow now => ep_on_overflow now e
  | EvBareReset slot recent now => ep_on_bare_reset slot recent now e
  | EvCodedClose slot now => ep_on_coded_close slot now e
  | EvTornDown slot now => ep_on_watched_torn_down slot now e
  | EvLeft slot now => ep_on_left slot now e
  | EvSiblingLeft slot => quietly (ep_on_sibling_left slot) e
  | EvDialled slot now => ep_on_sibling_dialled slot now (ep_on_watched_dialled slot now e)
  | EvRedialling slot => quietly (ep_on_watched_redialling slot) e
  | EvSelfRedial slot now => ep_on_watched_self_redial slot now e
  | EvFirstFrame slot now => quietly (ep_on_first_frame slot now) e
  | EvPoll now window_open => ep_poll now window_open e
  end.

Definition slot_of (ev : EpisodeEvent) : option Z :=
  match ev with
  | EvParked s | EvBareReset s _ _ | EvCodedClose s _ | EvTornDown s _ | EvLeft s _ | EvSiblingLeft s
  | EvDialled s _ | EvRedialling s | EvSelfRedial s _ | EvFirstFrame s _ => Some s
  | EvOverflow _ | EvPoll _ _ => None
  end.

Definition time_of (ev : EpisodeEvent) : option Z :=
  match ev with
  | EvOverflow t | EvBareReset _ _ t | EvCodedClose _ t | EvTornDown _ t | EvLeft _ t | EvDialled _ t
  | EvSelfRedial _ t | EvFirstFrame _ t | EvPoll t _ => Some t
  | EvParked _ | EvSiblingLeft _ | EvRedialling _ => None
  end.

(** Slots are bytes. *)
Definition event_ok (ev : EpisodeEvent) : Prop := forall s, slot_of ev = Some s -> 0 <= s < 256.

(** What an episode is after a history. *)
Definition ep_after (k : OverflowEpisodeKind) (h : list EpisodeEvent) : OverflowEpisode :=
  foldr (fun ev e => snd (ep_event ev e)) (of_kind k) h.

(** * The shape of an episode *)

(** Whether the phase belongs to a recovery that has not failed since the last pass. *)
Definition unfailed_phase (p : OverflowEpisodePhase) : bool :=
  match p with Quiet | Releasing | Resuming | Recovered => true | _ => false end.

(** Whether a socket that parks now, or a poll, may start another probe. *)
Definition may_wait (e : OverflowEpisode) : bool :=
  match oe_phase e with
  | Quiet | Waiting => true
  | Recovered => bool_decide (is_Some (phase_since e))
  | _ => false
  end.

Record ep_ok (k : OverflowEpisodeKind) (e : OverflowEpisode) : Prop := {
  eo_kind : oe_kind e = k;
  eo_parked : mask_ok (parked_mask e);
  eo_probes : 0 <= probes_started e <= max_attempts k;
  eo_window : forall s, watched e = Some s -> 0 <= s < 32 /\ is_Some (granted_at e);
  eo_wait : may_wait e = true -> probes_started e < max_attempts k;
  eo_since : oe_phase e = Waiting -> is_Some (phase_since e);
  eo_release : oe_phase e = Releasing -> phase_since e = None;
  eo_failed : unfailed_phase (oe_phase e) = true -> failed_since_pass e = false }.

Lemma max_attempts_pos k : 0 < max_attempts k < 255.
Proof. by destruct k. Qed.

Lemma of_kind_ok k : ep_ok k (of_kind k).
Proof. pose proof (max_attempts_pos k). constructor; cbn; try done; auto with tickdb; lia. Qed.

(** The fields the shape reads, unchanged. *)
Lemma ep_ok_same k e e' :
  oe_kind e' = oe_kind e -> oe_phase e' = oe_phase e -> mask_ok (parked_mask e') ->
  probes_started e' = probes_started e -> (watched e = None -> phase_since e' = phase_since e) ->
  granted_at e' = granted_at e -> watched_slot e' = watched_slot e -> failed_since_pass e' = failed_since_pass e ->
  ep_ok k e -> ep_ok k e'.
Proof.
  intros Ek Ep Hm En Es Eg Ew Ef [K P N W M S R F].
  constructor; unfold watched, may_wait in *; rewrite ?Ek, ?Ep, ?En, ?Eg, ?Ew, ?Ef; auto.
  - intros Hw. apply M. destruct (oe_phase e); try done. by rewrite <- Es.
  - intros Hp. rewrite Es by (by rewrite Hp). auto.
  - intros Hp. rewrite Es by (by rewrite Hp). auto.
Qed.

Lemma fail_ok k o now e : ep_ok k e -> is_Some (watched e) -> ep_ok k (snd (fail o now e)).
Proof.
  intros [K P N W M S R F] Hw. unfold fail. cbn. rewrite K.
  destruct (Z.leb_spec (max_attempts k) (probes_started e)); cbn.
  - constructor; cbn; auto; done.
  - destruct (slot_bit (watched_slot e)); constructor; cbn; auto; try done; eauto; lia.
Qed.

Lemma fail_effect o now e : exists next, fst (fail o now e) = mkEffect (Some o, next) None (Some (watched_slot e)) None false.
Proof. unfold fail. cbv zeta. case_match; eexists; cbn [fst]; reflexivity. Qed.

Lemma fail_for_effect o s now e : exists next, fst (fail_for o s now e) = mkEffect (Some o, next) None (Some (watched_slot e)) s false.
Proof.
  destruct (fail_effect o now e) as [next E]. unfold fail_for. destruct (fail o now e) as [f e']. cbn in E. subst f.
  by exists next.
Qed.

Lemma fail_watched o now e : watched (snd (fail o now e)) = None.
Proof.
  unfold fail. cbn. destruct (_ <=? _); [done|]. by destruct (slot_bit _).
Qed.

Lemma fail_for_snd o s now e : snd (fail_for o s now e) = snd (fail o now e).
Proof. unfold fail_for. by destruct (fail o now e). Qed.

Lemma clear_reparking_fields s e :
  exists m u, clear_reparking s e = { e with reparking_mask := m; reparking_until := u }.
Proof.
  exists (reparking_mask (clear_reparking s e)), (reparking_until (clear_reparking s e)).
  unfold clear_reparking. destruct e. destruct (slot_bit s); cbn; case_match; done.
Qed.

(** What an event other than a park, an 805 or a poll does to the fields of the shape:
    nothing, or it fails the window. *)
Definition shape_kept (e e' : OverflowEpisode) : Prop :=
  oe_kind e' = oe_kind e /\ oe_phase e' = oe_phase e /\ parked_mask e' = parked_mask e /\
  probes_started e' = probes_started e /\ (watched e = None -> phase_since e' = phase_since e) /\
  granted_at e' = granted_at e /\ watched_slot e' = watched_slot e /\ failed_since_pass e' = failed_since_pass e.

Lemma shape_kept_refl e : shape_kept e e.
Proof. unfold shape_kept. tauto. Qed.

Lemma shape_kept_watched e e' : shape_kept e e' -> watched e' = watched e.
Proof. unfold shape_kept, watched. intros (_&->&_&_&_&_&->&_). done. Qed.

Lemma shape_kept_trans e1 e2 e3 : shape_kept e1 e2 -> shape_kept e2 e3 -> shape_kept e1 e3.
Proof.
  intros H H'. pose proof (shape_kept_watched _ _ H) as E.
  destruct H as (?&?&?&?&Hp&?&?&?), H' as (?&?&?&?&Hp'&?&?&?). repeat split; try congruence.
  intros Hw. rewrite Hp', Hp by congruence. done.
Qed.

Lemma shape_kept_ok k e e' : shape_kept e e' -> ep_ok k e -> ep_ok k e'.
Proof. intros (?&?&E&?&?&?&?&?) Hk. eapply ep_ok_same; eauto. rewrite E. apply Hk. Qed.

Ltac same_shape := repeat split; done.

Lemma clear_reparking_shape s e : shape_kept e (clear_reparking s e).
Proof. destruct (clear_reparking_fields s e) as (m & u & ->). same_shape. Qed.
#[export] Hint Resolve shape_kept_refl clear_reparking_shape : tickdb.

Lemma join_burst_shape b now e : shape_kept e (join_burst b now e).
Proof. unfold join_burst. repeat case_match; same_shape. Qed.

Lemma settle_shape now e : shape_kept e (settle now e).
Proof. same_shape. Qed.

Lemma sibling_left_shape s e : shape_kept e (ep_on_sibling_left s e).
Proof.
  unfold ep_on_sibling_left. eapply shape_kept_trans; [|same_shape].
  eapply shape_kept_trans; [|apply clear_reparking_shape]. destruct (slot_bit s); same_shape.
Qed.

Lemma watched_dialled_shape s now e : shape_kept e (ep_on_watched_dialled s now e).
Proof. unfold ep_on_watched_dialled. case_match; [|auto with tickdb]. same_shape. Qed.

(** Either the window goes on, or it failed. *)
Definition kept_or_failed (now : Z) (e : OverflowEpisode) (r : OverflowEpisodeEffect * OverflowEpisode) : Prop :=
  shape_kept e (snd r) \/
  exists o e1, shape_kept e e1 /\ is_Some (watched e) /\ shape_kept (snd (fail o now e1)) (snd r).

Lemma kept_or_failed_fail o now e e1 r :
  shape_kept e e1 -> is_Some (watched e) -> snd r = snd (fail o now e1) -> kept_or_failed now e r.
Proof. intros H Hw Hr. right. exists o, e1. rewrite Hr. split; [exact H|]. split; [exact Hw|apply shape_kept_refl]. Qed.

Lemma kept_or_failed_for o s now e e1 :
  shape_kept e e1 -> is_Some (watched e) -> kept_or_failed now e (fail_for o s now e1).
Proof. intros H Hw. eapply kept_or_failed_fail; [exact H|exact Hw|apply fail_for_snd]. Qed.

Lemma note_sibling_kept s b now e e1 : shape_kept e e1 -> is_Some (watched e) -> kept_or_failed now e (note_sibling s b now e1).
Proof.
  intros H Hw. unfold note_sibling. destruct (past_note_cutoff now e1); [by apply kept_or_failed_for|].
  left. eapply shape_kept_trans; [exact H|]. same_shape.
Qed.

Lemma went_down_kept now e : is_Some (watched e) -> kept_or_failed now e (watched_went_down now e).
Proof.
  intros Hw. unfold watched_went_down. destruct (watch_restarted e).
  - eapply kept_or_failed_fail; [apply shape_kept_refl|exact Hw|reflexivity].
  - left. destruct Hw as [s Hw].
    assert (H : shape_kept e match slot_bit (watched_slot e) with Some bit => join_burst bit now e | None => e end).
    { destruct (slot_bit _); [apply join_burst_shape|auto with tickdb]. }
    eapply shape_kept_trans; [exact H|]. apply shape_kept_watched in H. rewrite Hw in H.
    repeat split; try done. cbn. by rewrite H.
Qed.

(** Every event but a park, an 805 and a poll leaves the shape alone or fails the window. *)
Definition shape_event (ev : EpisodeEvent) : bool :=
  match ev with EvParked _ | EvOverflow _ | EvPoll _ _ => false | _ => true end.

Lemma shape_event_kept ev e :
  shape_event ev = true ->
  shape_kept e (snd (ep_event ev e)) \/ exists now, time_of ev = Some now /\ kept_or_failed now e (ep_event ev e).
Proof.
  destruct ev; try done; intros _; cbn [ep_event]; unfold quietly.
  - right. exists now. split; [done|]. unfold ep_on_bare_reset. case_bool_decide as Hw; [by left; apply shape_kept_refl|].
    apply not_eq_None_Some in Hw.
    case_match; [by eapply kept_or_failed_fail; [apply shape_kept_refl|exact Hw|]|].
    destruct (slot_bit slot) as [b|]; [|by eapply kept_or_failed_fail; [apply shape_kept_refl|exact Hw|]].
    case_match; [apply note_sibling_kept|apply kept_or_failed_for]; auto using join_burst_shape.
  - right. exists now. split; [done|]. unfold ep_on_coded_close. case_bool_decide as Hw; [by left; apply shape_kept_refl|].
    apply not_eq_None_Some in Hw. case_match; [by apply went_down_kept|].
    destruct (slot_bit slot) as [b|]; [|by eapply kept_or_failed_fail; [apply shape_kept_refl|exact Hw|]].
    apply note_sibling_kept; auto using join_burst_shape.
  - right. exists now. split; [done|]. unfold ep_on_watched_torn_down. case_bool_decide as Hw; [|left; auto with tickdb].
    apply went_down_kept. by rewrite Hw.
  - right. exists now. split; [done|]. unfold ep_on_left. case_bool_decide as Hw; [|left; apply sibling_left_shape].
    rewrite (surjective_pairing (fail _ _ _)). right. exists FailedWatchedClosed, e. cbn [snd].
    split; [apply shape_kept_refl|]. split; [by rewrite Hw|apply clear_reparking_shape].
  - left. apply sibling_left_shape.
  - right. exists now. split; [done|]. unfold ep_on_sibling_dialled. pose proof (watched_dialled_shape slot now e) as H.
    destruct (slot_bit slot) as [b|]; [|by left]. case_match eqn:E; [by left|].
    apply orb_false_iff in E as [E _]. apply bool_decide_eq_false, not_eq_None_Some in E.
    rewrite (shape_kept_watched _ _ H) in E.
    case_match; [by apply kept_or_failed_for|]. left. eapply shape_kept_trans; [exact H|]. same_shape.
  - left. unfold ep_on_watched_redialling. case_match; [same_shape|auto with tickdb].
  - right. exists now. split; [done|]. unfold ep_on_watched_self_redial. case_bool_decide as Hw; [|left; auto with tickdb].
    by eapply kept_or_failed_fail; [apply shape_kept_refl|rewrite Hw|].
  - right. exists now. split; [done|]. left. unfold ep_on_first_frame. case_match; [same_shape|auto with tickdb].
Qed.

Lemma kept_or_failed_ok k now e r : kept_or_failed now e r -> ep_ok k e -> ep_ok k (snd r).
Proof.
  intros [H|(o & e1 & H1 & Hw & H2)] Hk; [by eapply shape_kept_ok|].
  eapply shape_kept_ok; [exact H2|]. apply fail_ok; [by eapply shape_kept_ok|]. by rewrite (shape_kept_watched _ _ H1).
Qed.

Lemma kept_or_failed_watched now e r : kept_or_failed now e r -> watched (snd r) = watched e \/ watched (snd r) = None.
Proof.
  intros [H|(o & e1 & H1 & Hw & H2)]; [left; by apply shape_kept_watched|right].
  by rewrite (shape_kept_watched _ _ H2), fail_watched.
Qed.

Lemma parked_ok k s e : 0 <= s -> ep_ok k e -> ep_ok k (ep_on_parked s e).
Proof.
  intros Hs Hk. unfold ep_on_parked.
  set (e1 := match slot_bit s with Some b => { e with parked_mask ::= fun m => Z.lor m b } | None => e end).
  assert (H1 : ep_ok k e1).
  { unfold e1. destruct (slot_bit s) as [b|] eqn:Eb; [|done].
    eapply ep_ok_same; [..|exact Hk]; try done. apply mask_ok_lor; [apply Hk|eauto with tickdb]. }
  assert (H2 : ep_ok k { clear_reparking s e1 with held_reported := false }).
  { eapply shape_kept_ok; [|exact H1]. eapply shape_kept_trans; [apply clear_reparking_shape|same_shape]. }
  revert H2. generalize { clear_reparking s e1 with held_reported := false }. intros e2 H2.
  case_match eqn:Ep; [|done]. apply andb_true_iff in Ep as [Ep%bool_decide_eq_true Es].
  destruct H2 as [K P N W M S R F]. unfold watched, may_wait in *. rewrite Ep in *.
  constructor; cbn; auto; try done. intros _. by apply bool_decide_eq_true in Es.
Qed.

Lemma waiting_now_ok k now e :
  probes_started e < max_attempts k -> ep_ok k e -> ep_ok k { e with oe_phase := Waiting; phase_since := Some now }.
Proof. intros Hn [K P N W M S R F]. constructor; cbn; auto; done. Qed.

Lemma down_ok k e : ep_ok k e -> ep_ok k { e with oe_phase := DownForSession }.
Proof. intros [K P N W M S R F]. constructor; cbn; auto; done. Qed.

Lemma overflow_ok k now e : ep_ok k e -> ep_ok k (snd (ep_on_overflow now e)).
Proof.
  intros Hk. pose proof Hk as [K P N W M S R F]. unfold ep_on_overflow, may_wait in *. rewrite K.
  destruct (oe_phase e) eqn:Ep; cbn [snd]; auto.
  - apply waiting_now_ok; auto.
  - apply waiting_now_ok; auto.
  - apply fail_ok; [done|]. unfold watched. by rewrite Ep.
  - destruct (Z.leb_spec (max_attempts k) (probes_started e)); [by apply down_ok|by apply waiting_now_ok].
  - apply fail_ok; [done|]. unfold watched. by rewrite Ep.
  - destruct (Z.leb_spec (max_attempts k) (probes_started e)); [by apply down_ok|by apply waiting_now_ok].
Qed.

(** ** The poll *)

Lemma take_lowest_parked_spec e : mask_ok (parked_mask e) -> parked_mask e <> 0 ->
  let s := trailing_zeros (parked_mask e) in
  exists m, take_lowest_parked e = (s, { e with parked_mask := m }) /\ 0 <= s < 32 /\
    Z.testbit (parked_mask e) s = true /\ mask_ok m /\ m = mask_clear (parked_mask e) (Z.shiftl 1 s).
Proof.
  intros Hm Hz s. destruct (trailing_zeros_spec _ Hm Hz) as [Hs Hb].
  exists (mask_clear (parked_mask e) (Z.shiftl 1 s)). split; [|split; [lia|by auto with tickdb]].
  unfold take_lowest_parked. by rewrite (proj2 (Z.eqb_neq _ _)) by done.
Qed.

(** A window starts with nothing noted. *)
Definition nothing_noted (e : OverflowEpisode) : Prop :=
  suspect_mask e = 0 /\ settle_until e = None /\ burst_start e = None.

(** A window that starts: for a parked slot, with nothing noted. *)
Definition starts (e e' : OverflowEpisode) (s now : Z) : Prop :=
  0 <= s < 32 /\ Z.testbit (parked_mask e) s = true /\ watched e' = Some s /\ phase_since e' = Some now /\
  granted_at e' = Some now /\ first_frame_at e' = None /\ watch_restarted e' = false /\ watched_down e' = false /\
  parked_mask e' = mask_clear (parked_mask e) (Z.shiftl 1 s) /\ nothing_noted e'.

Lemma release_next_spec k now open e : ep_ok k e -> oe_phase e = Releasing ->
  let '(f, e') := release_next now open e in
  ep_ok k e' /\ ef_repark f = None /\
  ((ef_grant f = None /\ watched e' = None /\ (e' = e /\ f = no_effect \/ outcomes f = (Some OutcomeRecovered, None) /\ oe_phase e' = Recovered)) \/
   exists s, ef_grant f = Some s /\ open = true /\ starts e e' s now /\ oe_phase e' = Resuming /\ outcomes f = (Some ReleaseGranted, None)).
Proof.
  intros Hk Ep. pose proof Hk as [K P N W M S R F]. unfold release_next.
  destruct (Z.eqb_spec (parked_mask e) 0) as [Hz|Hz].
  { split; [|split; [done|left; cbn; auto 6]]. specialize (R Ep). rewrite Ep in F.
    constructor; cbn; auto; try done. unfold may_wait. cbn. by rewrite R. }
  destruct open; cbn [negb].
  - destruct (take_lowest_parked_spec e P Hz) as (m & -> & Hs & Hb & Hm & Em). revert Hs Hb Em. generalize (trailing_zeros (parked_mask e)). intros s Hs Hb Em. cbn.
    split; [|split; [done|right; exists s; split_and!; try done; by constructor]].
    rewrite Ep in F. constructor; cbn; auto; try done. intros s' [= <-]. eauto.
  - split; [done|]. split; [done|]. left. split; [done|]. unfold watched. rewrite Ep. auto.
Qed.

Lemma delay_secs_spec k n d : 0 <= n -> delay_secs k n = Some d -> n < max_attempts k /\ 300 <= d <= 1800.
Proof.
  intros Hn. unfold delay_secs, max_attempts. destruct k.
  - intros H. assert (Hl := lookup_lt_Some _ _ _ H). cbn in Hl. unfold OVERFLOW_PROBE_MAX_ATTEMPTS. split; [lia|].
    destruct (Z.to_nat n) as [|[|[|]]]; cbn in H; simplify_eq; lia.
  - case_match eqn:E; [|done]. intros [= <-]. split; [lia|].
    unfold DEPTH_OVERFLOW_PROBE_BASE_DELAY_SECS, DEPTH_OVERFLOW_PROBE_MAX_DELAY_SECS, DEPTH_OVERFLOW_PROBE_MAX_ATTEMPTS in *.
    rewrite Z.shiftl_mul_pow2 by done. assert (1 <= 2 ^ n) by (apply (Z.pow_le_mono_r 2 0 n); lia). lia.
Qed.

(** What a poll of a wait does. *)
Inductive waited (now : Z) (open : bool) (e : OverflowEpisode) : OverflowEpisodeEffect * OverflowEpisode -> Prop :=
  | waited_on : waited now open e (no_effect, e)
  | waited_held : failed_since_pass e = true ->
      waited now open e (one_outcome HeldAfterFailedWindow, { e with held_reported := true })
  | waited_out : failed_since_pass e = false -> parked_mask e = 0 ->
      waited now open e (no_effect, { e with oe_phase := Recovered })
  | waited_probe s d since e' :
      open = true -> delay_secs (oe_kind e) (probes_started e) = Some d -> phase_since e = Some since ->
      secs d <= saturating_duration_since now since -> starts e e' s now -> oe_phase e' = Probing ->
      probes_started e' = probes_started e + 1 -> failed_since_pass e' = failed_since_pass e -> oe_kind e' = oe_kind e ->
      mask_ok (parked_mask e') -> suspect_mask e' = 0 ->
      waited now open e ({ one_outcome ProbeGranted with ef_grant := Some s }, e').

Lemma poll_waiting_spec k now open e : ep_ok k e -> oe_phase e = Waiting -> waited now open e (poll_waiting now open e).
Proof.
  intros Hk Ep. pose proof Hk as [K P N W M S R F]. unfold poll_waiting.
  specialize (S Ep). destruct S as [since Es]. unfold may_wait in M. rewrite Ep in M. specialize (M eq_refl).
  assert (Hd : exists d, delay_secs (oe_kind e) (probes_started e) = Some d).
  { rewrite K. unfold delay_secs, max_attempts in *. destruct k.
    - apply lookup_lt_is_Some. cbn. unfold OVERFLOW_PROBE_MAX_ATTEMPTS in *. lia.
    - rewrite (proj2 (Z.ltb_lt _ _)) by done. eauto. }
  destruct Hd as [d Hd]. rewrite Hd, Es.
  destruct (Z.ltb_spec (saturating_duration_since now since) (secs d)); [constructor|].
  destruct (Z.eqb_spec (parked_mask e) 0) as [Hz|Hz].
  { destruct (failed_since_pass e) eqn:Ef; cbn [negb]; [|by constructor].
    destruct (held_reported e); cbn [negb]; [constructor|by constructor]. }
  destruct open; cbn [negb]; [|constructor].
  destruct (take_lowest_parked_spec e P Hz) as (m & -> & Hs & Hb & Hm & Em).
  revert Hs Hb Em. generalize (trailing_zeros (parked_mask e)). intros s Hs Hb Em.
  pose proof (max_attempts_pos k).
  eapply waited_probe; try done; try exact Hd; try exact Es.
  cbn. unfold u8_saturating_add. zints.
Qed.

(** What a poll of a window does. *)
Definition window_earned (now : Z) (e : OverflowEpisode) : Prop :=
  exists first, first_frame_at e = Some first /\
    secs OVERFLOW_PROBE_WATCH_SECS <= saturating_duration_since now first /\ unsettled now e = false.

Inductive window_polled (now : Z) (open : bool) (e : OverflowEpisode) : OverflowEpisodeEffect * OverflowEpisode -> Prop :=
  | window_runs : window_overrun now e = false -> window_polled now open e (no_effect, e)
  | window_fails r o : snd r = snd (fail o now e) -> ef_grant (fst r) = None ->
      is_note o = false -> o <> ProbeGranted -> fst (outcomes (fst r)) = Some o -> o <> ProbePassed -> o <> ReleasePassed ->
      window_polled now open e r
  | window_passes : window_earned now e -> window_polled now open e (pass_window now open e).

Lemma window_fails_for now open e o sib :
  is_note o = false -> o <> ProbeGranted -> o <> ProbePassed -> o <> ReleasePassed ->
  window_polled now open e (fail_for o sib now e) /\ window_polled now open e (fail o now e).
Proof.
  intros. destruct (fail_effect o now e) as [n1 E1], (fail_for_effect o sib now e) as [n2 E2]. split.
  - apply (window_fails _ _ _ _ o); rewrite ?E2; try done. apply fail_for_snd.
  - apply (window_fails _ _ _ _ o); rewrite ?E1; done.
Qed.

Lemma poll_window_spec now open e : window_polled now open e (poll_window now open e).
Proof.
  unfold poll_window.
  assert (Hf : forall o sib, is_note o = false -> o <> ProbeGranted -> o <> ProbePassed -> o <> ReleasePassed ->
    window_polled now open e (fail_for o sib now e)) by (intros; by apply window_fails_for).
  assert (Hd : window_polled now open e (fail_deferral_exhausted now e)) by (unfold fail_deferral_exhausted; apply Hf; done).
  destruct (list_find _ _) as [[i s]|]; [by apply Hf|].
  destruct (first_frame_at e) as [first|] eqn:Ef.
  - destruct (Z.ltb_spec (saturating_duration_since now first) (secs OVERFLOW_PROBE_WATCH_SECS)).
    { destruct (window_overrun now e) eqn:Eo; [done|by constructor]. }
    destruct (unsettled now e) eqn:Eu; [|constructor; by exists first].
    case_match eqn:Ec; [|done]. apply andb_true_iff in Ec as [_ Ec%negb_true_iff]. by constructor.
  - case_match; [by apply (window_fails_for now open e FailedNoFrame None)|].
    destruct (window_overrun now e) eqn:Eo; [done|by constructor].
Qed.

Definition expire_reparking (now : Z) (e : OverflowEpisode) : OverflowEpisode :=
  match reparking_until e with
  | Some until => if until <=? now then { e with reparking_mask := 0; reparking_until := None } else e
  | None => e
  end.

Lemma expire_reparking_shape now e : shape_kept e (expire_reparking now e).
Proof. unfold expire_reparking. repeat case_match; same_shape. Qed.

Lemma passed_ok k e : ep_ok k e -> is_Some (watched e) ->
  ep_ok k { clear_attribution e with failed_since_pass := false; held_reported := false; oe_phase := Releasing;
                                     first_frame_at := None; phase_since := None; granted_at := None }.
Proof. intros [K P N W M S R F] Hw. constructor; cbn; auto; done. Qed.

(** A pass ends the window, or starts the next one. *)
Lemma pass_window_spec k now open e : ep_ok k e -> is_Some (watched e) ->
  let '(f, e') := pass_window now open e in
  ep_ok k e' /\
  fst (outcomes f) = Some (if decide (oe_phase e = Probing) then ProbePassed else ReleasePassed) /\
  ((ef_grant f = None /\ watched e' = None) \/
   exists s, ef_grant f = Some s /\ open = true /\ starts e e' s now).
Proof.
  intros Hk Hw. unfold pass_window.
  pose proof (release_next_spec k now open _ (passed_ok k e Hk Hw) eq_refl) as H.
  destruct (release_next _ _ _) as [f e']. destruct H as (Hk' & _ & H).
  split; [exact Hk'|]. split; [reflexivity|].
  destruct H as [(Hg & Hn & _)|(s & Hg & Ho & Hs & _ & _)]; [by left|right].
  exists s. auto.
Qed.

(** What a step does to the window: it goes on, it ends, or a poll starts one. *)
Inductive window_effect (ev : EpisodeEvent) (e : OverflowEpisode) (f : OverflowEpisodeEffect) (e' : OverflowEpisode) : Prop :=
  | goes_on : watched e' = watched e -> ef_grant f = None -> window_effect ev e f e'
  | ended : watched e' = None -> ef_grant f = None -> window_effect ev e f e'
  | started now s : ev = EvPoll now true -> starts e e' s now -> ef_grant f = Some s ->
      (is_Some (watched e) -> window_earned now e) -> window_effect ev e f e'.

Definition poll_body (now : Z) (window_open : bool) (e : OverflowEpisode) : OverflowEpisodeEffect * OverflowEpisode :=
  match oe_phase e with
  | Waiting => poll_waiting now window_open e
  | Probing | Resuming => poll_window now window_open e
  | Releasing => release_next now window_open e
  | Quiet | Recovered | DownForSession => (no_effect, e)
  end.

Lemma ep_poll_body now open e : ep_poll now open e = poll_body now open (expire_reparking now e).
Proof. reflexivity. Qed.

Lemma polled_window_effect k now open e r : ep_ok k e -> is_Some (watched e) -> window_polled now open e r ->
  ep_ok k (snd r) /\ window_effect (EvPoll now open) e (fst r) (snd r).
Proof.
  intros Hk Hw [Ho|r' o Hr Hg _ _ _ _ _|He].
  - split; [exact Hk|]. by apply goes_on.
  - rewrite Hr. split; [by apply fail_ok|]. apply ended; [apply fail_watched|done].
  - pose proof (pass_window_spec k now open e Hk Hw) as H. destruct (pass_window now open e) as [f e'].
    destruct H as (Hk' & _ & [[Hg Hn]|(s & Hg & -> & Hs)]); (split; [exact Hk'|]); [by apply ended|].
    by eapply started.
Qed.

Lemma waited_effect k now open e r : ep_ok k e -> oe_phase e = Waiting -> waited now open e r ->
  ep_ok k (snd r) /\ window_effect (EvPoll now open) e (fst r) (snd r).
Proof.
  intros Hk Ep Hw. pose proof Hk as [K P N W M S R F]. assert (Hn : watched e = None) by (unfold watched; by rewrite Ep).
  destruct Hw as [|Hf|Hf Hz|s d since e' -> Hd Es Hle Hs Hp Hn' Hf Hk' Hm Hsu].
  - split; [exact Hk|]. by apply goes_on.
  - split; [|by apply goes_on]. eapply shape_kept_ok; [|exact Hk]. same_shape.
  - split; [|by apply ended]. unfold may_wait in M. rewrite Ep in M. specialize (M eq_refl).
    constructor; cbn; auto; try done.
  - cbn [snd fst]. destruct Hs as (Hs & Hb & Hws & Hph & Hg & Hff & Hwr & Hwd & Hmm). split.
    + destruct (delay_secs_spec _ _ _ (proj1 N) Hd) as [Hlt _]. rewrite K in Hlt.
      constructor; try done; try (unfold unfailed_phase, may_wait; by rewrite Hp); try congruence.
      * rewrite Hn'. lia.
      * rewrite Hws, Hg. intros s' [= <-]. eauto.
    + eapply started; [done| |done|rewrite Hn; intros [? [=]]]. unfold starts. auto 10.
Qed.

Lemma poll_body_effect k now open e : ep_ok k e ->
  ep_ok k (snd (poll_body now open e)) /\
  window_effect (EvPoll now open) e (fst (poll_body now open e)) (snd (poll_body now open e)).
Proof.
  intros Hk. unfold poll_body.
  assert (Hidle : ep_ok k (snd (no_effect, e)) /\ window_effect (EvPoll now open) e (fst (no_effect, e)) (snd (no_effect, e)))
    by (split; [exact Hk|by apply goes_on]).
  destruct (oe_phase e) eqn:Ep; try exact Hidle.
  - apply waited_effect; [done|done|]. by eapply poll_waiting_spec.
  - apply polled_window_effect; [done|unfold watched; by rewrite Ep|apply poll_window_spec].
  - pose proof (release_next_spec k now open e Hk Ep) as H. destruct (release_next now open e) as [f e']. cbn.
    assert (Hn : watched e = None) by (unfold watched; by rewrite Ep).
    destruct H as (Hk' & _ & [(Hg & Hn' & _)|(s & Hg & -> & Hs & _)]); (split; [exact Hk'|]); [by apply ended|].
    eapply started; [done|done|done|]. rewrite Hn. by intros [? [=]].
  - apply polled_window_effect; [done|unfold watched; by rewrite Ep|apply poll_window_spec].
Qed.

Lemma poll_effect k now open e : ep_ok k e ->
  ep_ok k (snd (ep_poll now open e)) /\
  window_effect (EvPoll now open) e (fst (ep_poll now open e)) (snd (ep_poll now open e)).
Proof.
  intros Hk. rewrite ep_poll_body. pose proof (expire_reparking_shape now e) as Hx.
  destruct (poll_body_effect k now open _ (shape_kept_ok _ _ _ Hx Hk)) as [Hk' He]. split; [exact Hk'|].
  destruct He as [Hw Hg|Hw Hg|t s E Hs Hg Hea].
  - apply goes_on; [|done]. by rewrite Hw, (shape_kept_watched _ _ Hx).
  - by apply ended.
  - eapply started; [exact E| |exact Hg|].
    + unfold starts in *. destruct Hx as (_ & _ & Em & _). by rewrite Em in Hs.
    + rewrite (shape_kept_watched _ _ Hx) in Hea. intros H. specialize (Hea H).
      unfold expire_reparking in Hea. repeat case_match; done.
Qed.

(** Only a poll grants or passes. *)
Definition modest (f : OverflowEpisodeEffect) : Prop :=
  ef_grant f = None /\ (forall o, fst (outcomes f) = Some o -> o <> ProbePassed /\ o <> ReleasePassed /\ o <> ProbeGranted).

Definition failure (o : OverflowProbeOutcome) : bool :=
  negb (bool_decide (o ∈ [ProbePassed; ReleasePassed; ProbeGranted])).

Lemma fail_modest o now e : failure o = true -> modest (fst (fail o now e)).
Proof.
  intros Ho. destruct (fail_effect o now e) as [n ->]. split; [done|]. intros o' [= <-]. by destruct o.
Qed.

Lemma fail_for_modest o s now e : failure o = true -> modest (fst (fail_for o s now e)).
Proof.
  intros Ho. destruct (fail_for_effect o s now e) as [n ->]. split; [done|]. intros o' [= <-]. by destruct o.
Qed.

Lemma no_effect_modest : modest no_effect.
Proof. done. Qed.

Lemma note_sibling_modest s b now e : modest (fst (note_sibling s b now e)).
Proof. unfold note_sibling. case_match; [by apply fail_for_modest|]. split; [done|]. by intros o [= <-]. Qed.

Lemma went_down_modest now e : modest (fst (watched_went_down now e)).
Proof.
  unfold watched_went_down. destruct (watch_restarted e); [by apply fail_modest|].
  destruct (slot_bit _); (split; [done|]; by intros o [= <-]).
Qed.
#[export] Hint Resolve fail_modest fail_for_modest no_effect_modest note_sibling_modest went_down_modest : tickdb.

Lemma other_events_modest ev e :
  (forall now open, ev <> EvPoll now open) -> modest (fst (ep_event ev e)).
Proof.
  destruct ev; intros Hn; try apply no_effect_modest; try (by destruct (Hn now window_open)); cbn [ep_event].
  - unfold ep_on_overflow. destruct (oe_phase e); auto with tickdb; case_match; auto with tickdb; (split; [done|]; by intros o [= <-]).
  - unfold ep_on_bare_reset. repeat case_match; auto with tickdb.
  - unfold ep_on_coded_close. repeat case_match; auto with tickdb.
  - unfold ep_on_watched_torn_down. case_match; auto with tickdb.
  - pose proof (fail_modest FailedWatchedClosed now e eq_refl) as Hg. unfold ep_on_left. case_match; [|apply no_effect_modest].
    destruct (fail _ _ _) as [f e1]. exact Hg.
  - unfold ep_on_sibling_dialled. repeat case_match; auto with tickdb; (split; [done|]; by intros o [= <-]).
  - unfold ep_on_watched_self_redial. case_match; auto with tickdb.
Qed.

Lemma overflow_watched now e : watched (snd (ep_on_overflow now e)) = None.
Proof. unfold ep_on_overflow. destruct (oe_phase e) eqn:Ep; try done; try apply fail_watched; try (by case_match). unfold watched. cbn. by rewrite Ep. Qed.

Lemma parked_watched s e : watched (ep_on_parked s e) = watched e.
Proof.
  unfold ep_on_parked. set (e1 := match slot_bit s with Some b => _ | None => e end).
  assert (H1 : watched e1 = watched e) by (unfold e1; by destruct (slot_bit s)). rewrite <- H1.
  pose proof (shape_kept_watched _ _ (clear_reparking_shape s e1)) as H2. rewrite <- H2.
  generalize (clear_reparking s e1). intros e2. unfold watched. cbn. case_bool_decide as E; [|done].
  cbn. case_bool_decide; [|done]. cbn. by rewrite E.
Qed.

Lemma event_effect k ev e : event_ok ev -> ep_ok k e ->
  ep_ok k (snd (ep_event ev e)) /\ window_effect ev e (fst (ep_event ev e)) (snd (ep_event ev e)).
Proof.
  intros Hev Hk.
  assert (Hgr : (forall now open, ev <> EvPoll now open) -> ep_ok k (snd (ep_event ev e)) ->
    watched (snd (ep_event ev e)) = watched e \/ watched (snd (ep_event ev e)) = None ->
    ep_ok k (snd (ep_event ev e)) /\ window_effect ev e (fst (ep_event ev e)) (snd (ep_event ev e))).
  { intros Hp Hk' Hw. split; [exact Hk'|]. destruct (other_events_modest ev e Hp) as [Hg _].
    destruct Hw; [by apply goes_on|by apply ended]. }
  destruct (shape_event ev) eqn:Es.
  - destruct (shape_event_kept ev e Es) as [Hsk|(now & _ & Hkf)].
    { apply Hgr; [by destruct ev|by eapply shape_kept_ok|left; by apply shape_kept_watched]. }
    apply Hgr; [by destruct ev|by eapply kept_or_failed_ok|by eapply kept_or_failed_watched].
  - destruct ev; try done.
    + apply Hgr; [done| |left; apply parked_watched]. apply parked_ok; [|done]. apply (Hev slot). done.
    + apply Hgr; [done|by apply overflow_ok|right; apply overflow_watched].
    + by apply poll_effect.
Qed.

Lemma ep_after_ok k h : Forall event_ok h -> ep_ok k (ep_after k h).
Proof.
  induction 1 as [|ev h Hev _ IH]; [apply of_kind_ok|]. by apply event_effect.
Qed.

(** * What a window asks

    A window's own history, newest first: everything since its grant. *)

(** The clock does not go back. *)
Fixpoint clock_ok (h : list EpisodeEvent) : Prop :=
  match h with
  | [] => True
  | ev :: r => (forall now ev' t, time_of ev = Some now -> ev' ∈ r -> time_of ev' = Some t -> t <= now) /\ clock_ok r
  end.

(** A socket that went down and is to redial. *)
Definition goes_down (slot : Z) (ev : EpisodeEvent) : option Z :=
  match ev with
  | EvBareReset s _ t | EvCodedClose s t | EvTornDown s t => if s =? slot then Some t else None
  | _ => None
  end.

(** What no window for [s] survives: an 805 anywhere; the watched socket reset with no
    code, silent or gone; a close of a slot there is no register for. *)
Definition ruins (s : Z) (ev : EpisodeEvent) : bool :=
  match ev with
  | EvOverflow _ => true
  | EvBareReset t _ _ => (t =? s) || (32 <=? t)
  | EvCodedClose t _ => 32 <=? t
  | EvSelfRedial t _ | EvLeft t _ => t =? s
  | _ => false
  end.

(** Another socket [u] that dialled just before a reset is not what caused it: it had
    gone down itself within the burst. *)
Definition same_burst (u d : Z) (r : list EpisodeEvent) : Prop :=
  exists ev t, ev ∈ r /\ goes_down u ev = Some t /\ d - t <= OVERFLOW_PROBE_SIBLING_BURST_MS * NANOS_PER_MS.

(** Every event, against those before it: none ruins the window, no reset follows the
    dial of another socket, and the watched socket went down at most once. *)
Fixpoint window_clean (s : Z) (w : list EpisodeEvent) : Prop :=
  match w with
  | [] => True
  | ev :: r =>
      ruins s ev = false /\
      (forall t recent d u, ev = EvBareReset t recent d -> 0 <= u -> Z.testbit recent u = true -> u <> t -> same_burst u d r) /\
      (is_Some (goes_down s ev) -> Forall (fun ev' => goes_down s ev' = None) r) /\
      window_clean s r
  end.

(** A socket that has to redial before a pass: another one that closed; the watched
    one after a silence of its own. *)
Definition owes (s t : Z) (ev : EpisodeEvent) : bool :=
  match ev with
  | EvBareReset t' _ _ | EvCodedClose t' _ => (t' =? t) && negb (t =? s)
  | EvRedialling t' => (t' =? t) && (t =? s)
  | _ => false
  end.

Definition pays (s t : Z) (ev : EpisodeEvent) : bool :=
  match ev with
  | EvDialled t' _ => t' =? t
  | EvLeft t' _ | EvSiblingLeft t' => (t' =? t) && negb (t =? s)
  | _ => false
  end.

Fixpoint owed (s t : Z) (w : list EpisodeEvent) : bool :=
  match w with
  | [] => false
  | ev :: r => owes s t ev || (negb (pays s t ev) && owed s t r)
  end.

(** Every redial that was owed is at least the settle time before [now]. *)
Fixpoint settled (s now : Z) (w : list EpisodeEvent) : Prop :=
  match w with
  | [] => True
  | ev :: r =>
      (forall t d, ev = EvDialled t d -> owed s t r = true -> d + secs OVERFLOW_PROBE_EVICTION_ATTRIBUTION_SECS <= now) /\
      settled s now r
  end.

(** A first frame at [f], and the socket up since. *)
Definition framed (s f : Z) (w : list EpisodeEvent) : Prop :=
  exists w1 w2, w = w1 ++ EvFirstFrame s f :: w2 /\ Forall (fun ev => goes_down s ev = None) w1.

(** What a pass at [now] has behind it. *)
Definition earned (s now : Z) (w : list EpisodeEvent) : Prop :=
  window_clean s w /\
  (exists f, framed s f w /\ f + secs OVERFLOW_PROBE_WATCH_SECS <= now) /\
  (forall t, 0 <= t -> owed s t w = false) /\
  settled s now w.

(** ** The episode keeps it *)

Record window_inv (s : Z) (w : list EpisodeEvent) (e : OverflowEpisode) : Prop := {
  wi_watched : watched e = Some s;
  wi_slot : 0 <= s < 32;
  wi_clean : window_clean s w;
  wi_down : watch_restarted e = false -> Forall (fun ev => goes_down s ev = None) w;
  wi_frame : forall f, first_frame_at e = Some f -> framed s f w;
  wi_owed : forall t, 0 <= t -> owed s t w = true ->
    if t =? s then watched_down e = true else Z.testbit (suspect_mask e) t = true;
  wi_settle : forall n, (forall u, settle_until e = Some u -> u <= n) -> settled s n w;
  wi_start : forall b, burst_start e = Some b -> exists ev, ev ∈ w /\ time_of ev = Some b;
  wi_burst : forall b u, burst_start e = Some b -> 0 <= u -> Z.testbit (burst_mask e) u = true ->
    exists ev t, ev ∈ w /\ goes_down u ev = Some t /\ b <= t }.

Lemma window_inv_start s e e' now : starts e e' s now -> window_inv s [] e'.
Proof.
  intros (Hs & _ & Hw & _ & _ & Hf & _ & _ & _ & Hm & Hu & Hb).
  constructor; try done; rewrite ?Hf, ?Hb; try done. 
Qed.

(** The fields of the window. *)
Definition window_same (e e' : OverflowEpisode) : Prop :=
  watched e' = watched e /\ watch_restarted e' = watch_restarted e /\ first_frame_at e' = first_frame_at e /\
  watched_down e' = watched_down e /\ suspect_mask e' = suspect_mask e /\ settle_until e' = settle_until e /\
  burst_start e' = burst_start e /\ burst_mask e' = burst_mask e.

(** An event that says nothing about the window. *)
Definition idle (s : Z) (ev : EpisodeEvent) : Prop :=
  ruins s ev = false /\ (forall t recent d, ev <> EvBareReset t recent d) /\ goes_down s ev = None /\
  (forall t, owes s t ev = false) /\
  (forall t d, ev <> EvDialled t d).

Lemma framed_cons s f ev w : goes_down s ev = None -> framed s f w -> framed s f (ev :: w).
Proof. intros H (w1 & w2 & -> & H1). exists (ev :: w1), w2. split; [done|]. by constructor. Qed.

Lemma owed_cons s t ev w : owed s t (ev :: w) = true -> owes s t ev = true \/ (pays s t ev = false /\ owed s t w = true).
Proof. cbn. intros [H|[H%negb_true_iff H']%andb_true_iff]%orb_true_iff; auto. Qed.

Lemma start_cons ev w (o : option Z) :
  (forall b, o = Some b -> exists ev', ev' ∈ w /\ time_of ev' = Some b) ->
  forall b, o = Some b -> exists ev', ev' ∈ ev :: w /\ time_of ev' = Some b.
Proof. intros B b Hb. destruct (B b Hb) as (ev' & ? & ?). exists ev'. split; [by right|done]. Qed.

Lemma burst_cons ev w (o : option Z) m :
  (forall b u, o = Some b -> 0 <= u -> Z.testbit m u = true -> exists ev' t, ev' ∈ w /\ goes_down u ev' = Some t /\ b <= t) ->
  forall b u, o = Some b -> 0 <= u -> Z.testbit m u = true -> exists ev' t, ev' ∈ ev :: w /\ goes_down u ev' = Some t /\ b <= t.
Proof. intros U b u Hb Hu Hm. destruct (U b u Hb Hu Hm) as (ev' & t & ? & ? & ?). exists ev', t. split; [by right|done]. Qed.

Lemma window_inv_idle s w e e' ev :
  window_inv s w e -> window_same e e' -> idle s ev -> window_inv s (ev :: w) e'.
Proof.
  intros [W S C D F O T B U] (E1 & E2 & E3 & E4 & E5 & E6 & E7 & E8) (I1 & I2 & I3 & I4 & I5).
  constructor; rewrite ?E1, ?E2, ?E3, ?E4, ?E5, ?E6, ?E7, ?E8; auto.
  - cbn. split; [done|]. split; [intros; by destruct (I2 t recent d)|]. split; [|done]. rewrite I3. by intros [? [=]].
  - intros f Hf. apply framed_cons; [done|]. by apply F.
  - intros t Ht [Ho|[_ Ho]]%owed_cons; [by rewrite I4 in Ho|]. exact (O t Ht Ho).
  - intros n Hn. cbn. split; [intros; by destruct (I5 t d)|]. auto.
  - by apply start_cons.
  - by apply burst_cons.
Qed.

(** ** The closes *)

Lemma burst_time_start s w e b ev' now :
  window_inv s w e -> burst_start e = Some b -> time_of ev' = Some now ->
  (forall now0 ev t, time_of ev' = Some now0 -> ev ∈ w -> time_of ev = Some t -> t <= now0) -> b <= now.
Proof. intros HI Hb Ht Hc. destruct (wi_start _ _ _ HI b Hb) as (ev & Hin & Hev). by eapply Hc. Qed.

Lemma goes_down_time u ev t : goes_down u ev = Some t -> time_of ev = Some t.
Proof. destruct ev; cbn; try done; case_match; naive_solver. Qed.

(** Joining the burst keeps what the burst knows, with the close that joined it. *)
Lemma join_burst_inv s w e ev slot b now :
  window_inv s w e -> slot_bit slot = Some b -> 0 <= slot -> goes_down slot ev = Some now ->
  (forall now0 ev' t, time_of ev = Some now0 -> ev' ∈ w -> time_of ev' = Some t -> t <= now0) ->
  let e' := join_burst b now e in
  (forall c, burst_start e' = Some c -> exists ev', ev' ∈ ev :: w /\ time_of ev' = Some c) /\
  (forall c u, burst_start e' = Some c -> 0 <= u -> Z.testbit (burst_mask e') u = true ->
    exists ev' t, ev' ∈ ev :: w /\ goes_down u ev' = Some t /\ c <= t) /\
  (forall u, 0 <= u -> Z.testbit (burst_mask e') u = true -> u <> slot -> same_burst u now w).
Proof.
  intros HI Hb Hs Hd Hc e'. apply slot_bit_inv in Hb as [_ ->].
  pose proof (goes_down_time _ _ _ Hd) as Ht.
  set (fresh := { e with burst_start := Some now; burst_mask := Z.shiftl 1 slot }).
  assert (Hf : join_burst (Z.shiftl 1 slot) now e = fresh \/
    exists c0, burst_start e = Some c0 /\ saturating_duration_since now c0 <= OVERFLOW_PROBE_SIBLING_BURST_MS * NANOS_PER_MS /\
      join_burst (Z.shiftl 1 slot) now e = { e with burst_mask ::= fun m => Z.lor m (Z.shiftl 1 slot) }).
  { unfold join_burst. destruct (burst_start e) as [c0|]; [|by left].
    destruct (Z.leb_spec (saturating_duration_since now c0) (OVERFLOW_PROBE_SIBLING_BURST_MS * NANOS_PER_MS)); [right; eauto|by left]. }
  unfold e'. destruct Hf as [->|(c0 & Eb & Hle0 & ->)].
  - unfold fresh. cbn -[Z.shiftl Z.testbit]. unfold RecordSettersUsingExistingGetters.const. split_and!.
    + intros c [= <-]. exists ev. split; [by left|done].
    + intros c u [= <-] Hu. rewrite shiftl_one_testbit by done. intros Hm%Z.eqb_eq. subst u.
      exists ev, now. split; [by left|]. split; [done|lia].
    + intros u Hu. rewrite shiftl_one_testbit by done. lia.
  - cbn -[Z.shiftl Z.testbit]. rewrite Eb. pose proof (burst_time_start _ _ _ _ _ _ HI Eb Ht Hc) as Hle. split_and!.
    + intros c [= <-]. destruct (wi_start _ _ _ HI _ Eb) as (ev' & ? & ?). exists ev'. split; [by right|done].
    + intros c u [= <-] Hu. rewrite Z.lor_spec, shiftl_one_testbit by done. intros [Hm|Hm]%orb_true_iff.
      * destruct (wi_burst _ _ _ HI _ u Eb Hu Hm) as (ev' & t & ? & ? & ?). exists ev', t. split; [by right|done].
      * apply Z.eqb_eq in Hm as ->. exists ev, now. split; [by left|done].
    + intros u Hu. rewrite Z.lor_spec, shiftl_one_testbit by done. intros [Hm|Hm]%orb_true_iff Hne; [|lia].
      destruct (wi_burst _ _ _ HI _ u Eb Hu Hm) as (ev' & t & ? & ? & ?). exists ev', t. split; [done|].
      split; [done|]. unfold saturating_duration_since in *. lia.
Qed.

Definition after_all (ev : EpisodeEvent) (w : list EpisodeEvent) : Prop :=
  forall now ev' t, time_of ev = Some now -> ev' ∈ w -> time_of ev' = Some t -> t <= now.

(** The window goes on with the event in its history, or it ended. *)
Definition window_next (s : Z) (w : list EpisodeEvent) (ev : EpisodeEvent) (e' : OverflowEpisode) : Prop :=
  watched e' = None \/ window_inv s (ev :: w) e'.

Lemma goes_down_other slot s ev now : goes_down slot ev = Some now -> slot <> s -> goes_down s ev = None.
Proof. intros H Hn. destruct ev; cbn in *; try done; destruct (Z.eqb_spec slot0 slot), (Z.eqb_spec slot0 s); naive_solver. Qed.

Lemma goes_down_not_dial slot ev now t d : goes_down slot ev = Some now -> ev <> EvDialled t d.
Proof. intros H ->. done. Qed.

Lemma owes_goes_down s t slot ev now : goes_down slot ev = Some now -> owes s t ev = true -> t = slot /\ slot <> s.
Proof.
  intros H Ho. destruct ev; cbn in *; try done; destruct (Z.eqb_spec slot0 slot); try done; subst;
    apply andb_true_iff in Ho as [Ho%Z.eqb_eq Hs%negb_true_iff%Z.eqb_neq]; naive_solver.
Qed.

Lemma join_burst_fields b now e : exists c m, join_burst b now e = { e with burst_start := c; burst_mask := m }.
Proof.
  exists (burst_start (join_burst b now e)), (burst_mask (join_burst b now e)).
  destruct e. unfold join_burst. cbn. repeat case_match; done.
Qed.

Lemma noted_inv s w e ev slot b now :
  window_inv s w e -> slot_bit slot = Some b -> 0 <= slot -> slot <> s -> goes_down slot ev = Some now ->
  ruins s ev = false -> after_all ev w ->
  (forall t recent d u, ev = EvBareReset t recent d -> 0 <= u -> Z.testbit recent u = true -> u <> t -> same_burst u d w) ->
  window_next s w ev (snd (note_sibling slot b now (join_burst b now e))).
Proof.
  intros HI Hb Hs Hn Hd Hr Hc Hev. unfold note_sibling.
  destruct (past_note_cutoff _ _); [left; by rewrite fail_for_snd, fail_watched|right].
  destruct (join_burst_inv s w e ev slot b now HI Hb Hs Hd Hc) as (J1 & J2 & _).
  destruct (join_burst_fields b now e) as (c & m & Ej). rewrite Ej in J1, J2 |- *.
  apply slot_bit_inv in Hb as [_ ->]. destruct HI as [W S C D F O T B U]. cbn [snd].
  pose proof (goes_down_other _ _ _ _ Hd Hn) as Hds.
  constructor; auto.
  - cbn. split; [done|]. split; [exact Hev|]. split; [|done]. rewrite Hds. by intros [? [=]].
  - intros f Hf. apply framed_cons; [done|]. by apply F.
  - intros t Ht [Ho|[_ Ho]]%owed_cons.
    + destruct (owes_goes_down _ _ _ _ _ Hd Ho) as [-> _].
      rewrite (proj2 (Z.eqb_neq _ _)) by done. cbn -[Z.shiftl Z.testbit].
      rewrite Z.lor_spec, shiftl_one_testbit, Z.eqb_refl by done. by rewrite orb_true_r.
    + specialize (O t Ht Ho). destruct (t =? s); [done|]. cbn -[Z.shiftl Z.testbit]. by rewrite Z.lor_spec, O.
  - intros n Hu. cbn. split; [intros t d ->; done|]. by apply T.
Qed.

(** The watched socket went down and will redial. *)
Lemma went_down_inv s w e ev now :
  window_inv s w e -> goes_down s ev = Some now -> ruins s ev = false -> after_all ev w ->
  (forall t recent d, ev <> EvBareReset t recent d) ->
  window_next s w ev (snd (watched_went_down now e)).
Proof.
  intros HI Hd Hr Hc Hev. unfold watched_went_down.
  destruct (watch_restarted e) eqn:Er; [left; by rewrite fail_watched|right].
  assert (Hws : watched_slot e = s) by (pose proof (wi_watched _ _ _ HI) as H; unfold watched in H; destruct (oe_phase e); naive_solver).
  rewrite Hws. pose proof (wi_slot _ _ _ HI) as Hs.
  assert (Hb : slot_bit s = Some (Z.shiftl 1 s)) by (unfold slot_bit; by rewrite (proj2 (Z.ltb_lt _ _)) by lia).
  rewrite Hb. destruct (join_burst_inv s w e ev s _ now HI Hb ltac:(lia) Hd Hc) as (J1 & J2 & _).
  destruct (join_burst_fields (Z.shiftl 1 s) now e) as (c & m & Ej). rewrite Ej in J1, J2 |- *.
  destruct HI as [W S C D F O T B U]. cbn [snd].
  constructor; auto; try done.
  - cbn. split; [done|]. split; [intros t recent d u ->; by destruct (Hev t recent d)|]. split; [|done]. auto.
  - intros t Ht [Ho|[_ Ho]]%owed_cons; [|exact (O t Ht Ho)].
    by destruct (owes_goes_down _ _ _ _ _ Hd Ho).
  - intros n Hu. cbn. split; [intros t d ->; done|]. by apply T.
Qed.

(** ** The dials *)

Lemma settled_mono s n n' w : n <= n' -> settled s n w -> settled s n' w.
Proof. intros Hle. induction w as [|ev w IH]; [done|]. cbn. intros [H H']. split; [|auto]. intros t d E Ho. specialize (H t d E Ho). lia. Qed.

(** A dial that pays what was owed starts the settle time. *)
Lemma dialled_inv s w e e' slot now :
  window_inv s w e -> 0 <= slot ->
  watched e' = Some s -> watch_restarted e' = watch_restarted e -> first_frame_at e' = first_frame_at e ->
  burst_start e' = burst_start e -> burst_mask e' = burst_mask e ->
  (forall t, 0 <= t -> t <> slot -> Z.testbit (suspect_mask e) t = true -> Z.testbit (suspect_mask e') t = true) ->
  (slot <> s -> watched_down e = true -> watched_down e' = true) ->
  (forall u, settle_until e = Some u -> exists u', settle_until e' = Some u' /\ u <= u') ->
  (owed s slot w = true -> exists u, settle_until e' = Some u /\ now + secs OVERFLOW_PROBE_EVICTION_ATTRIBUTION_SECS <= u) ->
  window_inv s (EvDialled slot now :: w) e'.
Proof.
  intros [W S C D F O T B U] Hs E1 E2 E3 E4 E5 Hm Hd Hu Hp.
  constructor; rewrite ?E2, ?E3, ?E4, ?E5; auto.
  - cbn. split; [done|]. split; [done|]. split; [by intros [? [=]]|done].
  - intros f Hf. apply framed_cons; [done|]. by apply F.
  - intros t Ht [Ho|[Hpay Ho]]%owed_cons; [done|]. cbn in Hpay. apply Z.eqb_neq in Hpay.
    specialize (O t Ht Ho). revert O. destruct (Z.eqb_spec t s) as [E|]; intros O; [apply Hd; congruence|by apply Hm].
  - intros n Hn. cbn. split.
    + intros t d [= <- <-] Ho. destruct (Hp Ho) as (u & Eu & Hle). specialize (Hn u Eu). lia.
    + apply T. intros u Eu. destruct (Hu u Eu) as (u' & Eu' & Hle). specialize (Hn u' Eu'). lia.
  - by apply start_cons.
  - by apply burst_cons.
Qed.

Lemma settle_spec now e :
  (forall u, settle_until e = Some u -> exists u', settle_until (settle now e) = Some u' /\ u <= u') /\
  exists u, settle_until (settle now e) = Some u /\ now + secs OVERFLOW_PROBE_EVICTION_ATTRIBUTION_SECS <= u.
Proof.
  unfold settle. cbn -[secs]. split.
  - intros u ->. eexists. split; [reflexivity|]. lia.
  - eexists. split; [reflexivity|]. destruct (settle_until e); lia.
Qed.

Lemma testbit_clear_other m t slot : 0 <= slot -> t <> slot -> Z.testbit (mask_clear m (Z.shiftl 1 slot)) t = Z.testbit m t.
Proof.
  intros Hs Hn. unfold mask_clear. rewrite Z.ldiff_spec, shiftl_one_testbit by done.
  rewrite (proj2 (Z.eqb_neq slot t)) by lia. by rewrite andb_true_r.
Qed.

Lemma land_bit m slot : 0 <= slot -> (Z.land m (Z.shiftl 1 slot) =? 0) = false <-> Z.testbit m slot = true.
Proof.
  intros Hs. rewrite Z.eqb_neq. split.
  - intros Hn. destruct (Z.testbit m slot) eqn:E; [done|]. exfalso. apply Hn, Z.bits_inj_0. intros i.
    destruct (decide (0 <= i)); [|apply Z.testbit_neg_r; lia].
    rewrite Z.land_spec, shiftl_one_testbit by done. destruct (Z.eqb_spec slot i); [subst; by rewrite E|apply andb_false_r].
  - intros Hb E. assert (H : Z.testbit (Z.land m (Z.shiftl 1 slot)) slot = false) by (rewrite E; apply Z.bits_0).
    rewrite Z.land_spec, shiftl_one_testbit, Hb, Z.eqb_refl in H by done. done.
Qed.

(** Only a slot with a register is ever owed. *)
Lemma owed_slot s t w : window_clean s w -> t <> s -> owed s t w = true -> t < 32.
Proof.
  intros Hc Hn. induction w as [|ev w IH]; [done|]. destruct Hc as (Hr & _ & _ & Hc).
  intros [Ho|[_ Ho]]%owed_cons; [|auto].
  destruct ev; cbn in Ho, Hr; try done.
  - apply andb_true_iff in Ho as [->%Z.eqb_eq _]. apply orb_false_iff in Hr as [_ Hr]. lia.
  - apply andb_true_iff in Ho as [->%Z.eqb_eq _]. lia.
  - apply andb_true_iff in Ho as [_ ->%Z.eqb_eq]. done.
Qed.

Lemma dialled_next s w e slot now : 0 <= slot < 256 -> window_inv s w e ->
  window_next s w (EvDialled slot now) (snd (ep_on_sibling_dialled slot now (ep_on_watched_dialled slot now e))).
Proof.
  intros Hslot HI. pose proof (wi_watched _ _ _ HI) as W. pose proof (wi_slot _ _ _ HI) as S.
  destruct (Z.eqb_spec slot s) as [->|Hn].
  - (* the watched socket *)
    set (set_down := fun e : OverflowEpisode => { e with watched_down := false }).
    assert (H1 : exists e1, ep_on_watched_dialled s now e = e1 /\ window_inv s (EvDialled s now :: w) e1).
    { unfold ep_on_watched_dialled. rewrite W, bool_decide_true by done. cbn [andb].
      destruct (watched_down e) eqn:Ed; (eexists; split; [reflexivity|]); (eapply dialled_inv; [exact HI|lia|..]); try done; auto.
      - exact (proj1 (settle_spec now (set_down e))).
      - intros _. exact (proj2 (settle_spec now (set_down e))).
      - intros u Hu. exists u. split; [done|lia].
      - intros Ho. pose proof (wi_owed _ _ _ HI s ltac:(lia) Ho) as Hd. rewrite Z.eqb_refl in Hd. congruence. }
    destruct H1 as (e1 & -> & HI1). unfold ep_on_sibling_dialled.
    destruct (slot_bit s) as [b|] eqn:Eb; [|by right]. apply slot_bit_inv in Eb as [_ ->].
    case_match; [by right|]. case_match; [left; by rewrite fail_for_snd, fail_watched|right]. cbn [snd].
    destruct HI1 as [W1 S1 C D F O T B U]. destruct (settle_spec now { e1 with suspect_mask ::= (fun m => mask_clear m (Z.shiftl 1 s)); suspect_since ::= alter (fun _ => None) (Z.to_nat s) }) as [Q1 Q2].
    constructor; auto.
    + intros t Ht Ho. specialize (O t Ht Ho). destruct (Z.eqb_spec t s); [done|].
      cbn -[Z.shiftl Z.testbit]. by rewrite testbit_clear_other by lia.
    + intros n Hu. apply T. intros u Eu. destruct (Q1 u Eu) as (u' & Eu' & Hle). specialize (Hu u' Eu'). lia.
  - assert (Hsame : ep_on_watched_dialled slot now e = e).
    { unfold ep_on_watched_dialled. rewrite W, bool_decide_false by congruence. done. }
    rewrite Hsame.
    assert (Hidle : owed s slot w = false -> window_inv s (EvDialled slot now :: w) e).
    { intros Ho. eapply dialled_inv; [exact HI|lia|..]; try done.
      - intros u Hu. exists u. split; [done|lia].
      - by rewrite Ho. }
    pose proof (wi_owed _ _ _ HI slot ltac:(lia)) as Ow. rewrite (proj2 (Z.eqb_neq _ _)) in Ow by done.
    unfold ep_on_sibling_dialled. destruct (slot_bit slot) as [b|] eqn:Eb.
    + apply slot_bit_inv in Eb as [_ ->]. rewrite W. cbn [bool_decide orb].
      case_match eqn:Em.
      * right. apply Hidle. apply not_true_is_false. intros Ho. apply Ow in Ho.
        apply orb_true_iff in Em as [Em|Em]; [by apply bool_decide_eq_true in Em|].
        apply land_bit in Ho; [congruence|lia].
      * case_match; [left; by rewrite fail_for_snd, fail_watched|right]. cbn [snd].
        destruct (settle_spec now { e with suspect_mask ::= (fun m => mask_clear m (Z.shiftl 1 slot)); suspect_since ::= alter (fun _ => None) (Z.to_nat slot) }) as [Q1 Q2].
        eapply dialled_inv; [exact HI|lia|..]; try done; auto.
        intros t Ht Hts Hm. cbn -[Z.shiftl Z.testbit]. by rewrite testbit_clear_other by lia.
    + right. apply Hidle. apply not_true_is_false. intros Ho.
      apply (owed_slot _ _ _ (wi_clean _ _ _ HI)) in Ho; [|done].
      unfold slot_bit in Eb. case_match eqn:E32; [done|]. apply Z.ltb_ge in E32. lia.
Qed.

(** ** Every event *)

Lemma redialling_inv s w e : window_inv s w e -> window_inv s (EvRedialling s :: w) { e with watched_down := true }.
Proof.
  intros [W S C D F O T B U]. constructor; auto.
  - cbn. split; [done|]. split; [done|]. split; [by intros [? [=]]|done].
  - intros f Hf. apply framed_cons; [done|]. by apply F.
  - intros t Ht [Ho|[_ Ho]]%owed_cons.
    + cbn in Ho. apply andb_true_iff in Ho as [_ ->]. done.
    + specialize (O t Ht Ho). by destruct (t =? s).
  - intros n Hn. cbn. split; [done|by apply T].
  - by apply start_cons.
  - by apply burst_cons.
Qed.

Lemma first_frame_inv s w e now : first_frame_at e = None -> window_inv s w e ->
  window_inv s (EvFirstFrame s now :: w) { e with first_frame_at := Some now }.
Proof.
  intros Hn [W S C D F O T B U]. constructor; auto.
  - cbn. split; [done|]. split; [done|]. split; [by intros [? [=]]|done].
  - intros f [= <-]. exists [], w. done.
  - intros n Hu. cbn. split; [done|by apply T].
  - by apply start_cons.
  - by apply burst_cons.
Qed.

(** Another socket left for good: it owes nothing any more. *)
Lemma left_inv s w e ev slot : window_inv s w e -> 0 <= slot ->
  (ev = EvSiblingLeft slot \/ (slot <> s /\ exists now, ev = EvLeft slot now)) ->
  window_inv s (ev :: w) (ep_on_sibling_left slot e).
Proof.
  intros HI Hs Hev. pose proof HI as [W S C D F O T B U].
  pose proof (shape_kept_watched _ _ (sibling_left_shape slot e)) as Ew.
  assert (Hpay : forall t, pays s t ev = (slot =? t) && negb (t =? s)) by (intros; destruct Hev as [->|[? [? ->]]]; done).
  assert (Hidle : owes s s ev = false /\ (forall t, owes s t ev = false) /\ goes_down s ev = None /\ ruins s ev = false)
    by (destruct Hev as [->|[Hn [? ->]]]; cbn; rewrite ?(proj2 (Z.eqb_neq _ _) Hn); done).
  destruct Hidle as (_ & Hno & Hgd & Hru).
  assert (Hm : forall t, 0 <= t -> t <> slot -> Z.testbit (suspect_mask e) t = true ->
    Z.testbit (suspect_mask (ep_on_sibling_left slot e)) t = true).
  { intros t Ht Hts Hm. unfold ep_on_sibling_left.
    match goal with |- context [clear_reparking slot ?x] => destruct (clear_reparking_fields slot x) as (m & u & ->) end.
    destruct (slot_bit slot) as [b|] eqn:Eb; [|done]. apply slot_bit_inv in Eb as [_ ->].
    cbn -[Z.shiftl Z.testbit]. by rewrite testbit_clear_other by lia. }
  assert (Hf : window_same { e with suspect_mask := suspect_mask (ep_on_sibling_left slot e) } (ep_on_sibling_left slot e)).
  { unfold ep_on_sibling_left in *.
    match goal with |- context [clear_reparking slot ?x] => destruct (clear_reparking_fields slot x) as (m & u & ->) end.
    destruct (slot_bit slot); repeat split; done. }
  destruct Hf as (_ & E2 & E3 & E4 & _ & E6 & E7 & E8).
  constructor; rewrite ?E2, ?E3, ?E4, ?E6, ?E7, ?E8; auto.
  - by rewrite Ew.
  - cbn. split; [done|]. split; [destruct Hev as [->|[? [? ->]]]; done|]. split; [|done]. rewrite Hgd. by intros [? [=]].
  - intros f Hf. apply framed_cons; [done|]. by apply F.
  - intros t Ht [Ho|[Hp Ho]]%owed_cons; [by rewrite Hno in Ho|]. rewrite Hpay in Hp.
    specialize (O t Ht Ho). revert O Hp. destruct (Z.eqb_spec t s) as [->|]; intros O Hp; [done|].
    apply Hm; [done| |done]. intros ->. by rewrite Z.eqb_refl in Hp.
  - intros n Hu. cbn. split; [destruct Hev as [->|[? [? ->]]]; done|by apply T].
  - by apply start_cons.
  - by apply burst_cons.
Qed.

(** A poll that neither ends the window nor passes it. *)
Lemma poll_window_next k s w e now open : ep_ok k e -> window_inv s w e ->
  window_next s w (EvPoll now open) (snd (ep_poll now open e)) \/
  (window_earned now e /\ ep_poll now open e = pass_window now open (expire_reparking now e)).
Proof.
  intros Hk HI. rewrite ep_poll_body.
  set (e0 := expire_reparking now e).
  assert (Hsame : window_same e e0) by (unfold e0, expire_reparking; repeat case_match; repeat split; done).
  assert (Hearn : window_earned now e0 -> window_earned now e) by (unfold e0, expire_reparking; repeat case_match; done).
  assert (Hidle : idle s (EvPoll now open)) by (repeat split; done).
  assert (Hw : watched e0 = Some s) by (destruct Hsame as [-> _]; apply HI).
  assert (Hp : window_polled now open e0 (poll_body now open e0)).
  { clearbody e0. unfold poll_body, watched in *. destruct (oe_phase e0); try done; apply poll_window_spec. }
  destruct Hp as [Ho|r o Hr _ _ _ _ _ _|He]; [left; right; by eapply window_inv_idle| |right; by auto].
  left. left. by rewrite Hr, fail_watched.
Qed.

Lemma parked_same s e : window_same e (ep_on_parked s e).
Proof.
  pose proof (parked_watched s e) as Hw. split; [exact Hw|]. clear Hw. unfold ep_on_parked.
  set (e1 := match slot_bit s with Some b => _ | None => e end).
  destruct (clear_reparking_fields s e1) as (m & u & ->). unfold e1.
  destruct (slot_bit s); case_match; repeat split; done.
Qed.

(** No dial to blame: each slot that dialled is the one that closed, or of its burst. *)
Lemma no_evictors recent slot burst u : 0 <= slot ->
  (mask_clear (mask_clear recent (Z.shiftl 1 slot)) burst =? 0) = true ->
  0 <= u -> Z.testbit recent u = true -> u <> slot -> Z.testbit burst u = true.
Proof.
  intros Hs E Hu Hr Hn. apply Z.eqb_eq in E.
  assert (H : Z.testbit (mask_clear (mask_clear recent (Z.shiftl 1 slot)) burst) u = false) by (rewrite E; apply Z.bits_0).
  unfold mask_clear at 1 in H. rewrite Z.ldiff_spec, testbit_clear_other, Hr in H by done.
  by apply negb_false_iff in H.
Qed.

Lemma bare_reset_next s w e slot recent now :
  0 <= slot < 256 -> after_all (EvBareReset slot recent now) w -> window_inv s w e ->
  window_next s w (EvBareReset slot recent now) (snd (ep_on_bare_reset slot recent now e)).
Proof.
  intros Hslot Hc HI. pose proof (wi_watched _ _ _ HI) as W.
  assert (Hws : watched_slot e = s) by (unfold watched in W; destruct (oe_phase e); naive_solver).
  unfold ep_on_bare_reset. rewrite bool_decide_false by (by rewrite W). rewrite Hws.
  destruct (Z.eqb_spec slot s) as [|Hn]; [left; by apply fail_watched|].
  destruct (slot_bit slot) as [b|] eqn:Eb; [|left; apply fail_watched].
  destruct (_ =? 0) eqn:Ee; [|left; by rewrite fail_for_snd, fail_watched].
  assert (Hd : goes_down slot (EvBareReset slot recent now) = Some now) by (cbn; by rewrite Z.eqb_refl).
  destruct (join_burst_inv s w e _ slot b now HI Eb ltac:(lia) Hd Hc) as (_ & _ & J3).
  pose proof (slot_bit_inv _ _ Eb) as [H32 ->].
  eapply noted_inv; [done|done|lia|done|done| |done|].
  - cbn. rewrite (proj2 (Z.eqb_neq _ _) Hn). cbn. lia.
  - intros t recent' d u [= <- <- <-] Hu Hr Hne. apply J3; [done| |done].
    eapply no_evictors; [|exact Ee|..]; done || lia.
Qed.

Lemma coded_close_next s w e slot now :
  0 <= slot < 256 -> after_all (EvCodedClose slot now) w -> window_inv s w e ->
  window_next s w (EvCodedClose slot now) (snd (ep_on_coded_close slot now e)).
Proof.
  intros Hslot Hc HI. pose proof (wi_watched _ _ _ HI) as W. pose proof (wi_slot _ _ _ HI) as S.
  assert (Hws : watched_slot e = s) by (unfold watched in W; destruct (oe_phase e); naive_solver).
  assert (Hd : goes_down slot (EvCodedClose slot now) = Some now) by (cbn; by rewrite Z.eqb_refl).
  unfold ep_on_coded_close. rewrite bool_decide_false by (by rewrite W). rewrite Hws.
  destruct (Z.eqb_spec slot s) as [->|Hn]; [eapply went_down_inv; try done; cbn; lia|].
  destruct (slot_bit slot) as [b|] eqn:Eb; [|left; apply fail_watched].
  pose proof (slot_bit_inv _ _ Eb) as [H32 _].
  eapply noted_inv; try done; cbn; lia.
Qed.

Lemma event_window k s w ev e :
  event_ok ev -> after_all ev w -> ep_ok k e -> window_inv s w e ->
  window_next s w ev (snd (ep_event ev e)) \/
  exists now open, ev = EvPoll now open /\ ep_poll now open e = pass_window now open (expire_reparking now e).
Proof.
  intros Hev Hc Hk HI. pose proof (wi_watched _ _ _ HI) as W.
  assert (Hidle : forall e', window_same e e' -> idle s ev -> window_next s w ev e') by (intros; right; by eapply window_inv_idle).
  assert (Hsame : window_same e e) by (repeat split).
  destruct ev; cbn [ep_event]; unfold quietly; [left|left|left|left|left|left|left|left|left|left|left|]; cbn [snd].
  - apply Hidle; [apply parked_same|repeat split; done].
  - left. apply overflow_watched.
  - apply bare_reset_next; [by apply (Hev slot)|done|done].
  - apply coded_close_next; [by apply (Hev slot)|done|done].
  - unfold ep_on_watched_torn_down. rewrite W. case_bool_decide as E; simplify_eq.
    + eapply went_down_inv; try done. cbn. by rewrite Z.eqb_refl.
    + apply Hidle; [done|]. repeat split; try done. cbn. case_match; [|done]. exfalso. apply E. f_equal. lia.
  - unfold ep_on_left. rewrite W. case_bool_decide as E; simplify_eq.
    + left. pose proof (fail_watched FailedWatchedClosed now e) as Hf. destruct (fail _ _ _) as [f e1].
      cbn [snd] in *. by rewrite (shape_kept_watched _ _ (clear_reparking_shape _ _)).
    + right. apply left_inv; [done|by apply (Hev slot)|right]. split; [congruence|eauto].
  - right. apply left_inv; [done|by apply (Hev slot)|by left].
  - apply dialled_next; [by apply (Hev slot)|done].
  - unfold ep_on_watched_redialling. rewrite W. case_bool_decide as E; simplify_eq.
    + right. by apply redialling_inv.
    + apply Hidle; [done|]. repeat split; try done. cbn. intros t.
      destruct (Z.eqb_spec slot t), (Z.eqb_spec t s); naive_solver.
  - unfold ep_on_watched_self_redial. rewrite W. case_bool_decide as E; simplify_eq.
    + left. apply fail_watched.
    + apply Hidle; [done|]. repeat split; try done. cbn. apply Z.eqb_neq. congruence.
  - unfold ep_on_first_frame. rewrite W. case_bool_decide as E; simplify_eq; cbn [andb].
    + case_bool_decide; [right; by apply first_frame_inv|]. apply Hidle; [done|]. repeat split; done.
    + apply Hidle; [done|]. repeat split; done.
  - destruct (poll_window_next k s w e now window_open Hk HI) as [|[_ ?]]; [by left|right; eauto].
Qed.

(** * A pass is earned *)

Lemma history_window k h : Forall event_ok h -> clock_ok h ->
  watched (ep_after k h) = None \/
  exists s w g h0, h = w ++ EvPoll g true :: h0 /\
    ef_grant (fst (ep_event (EvPoll g true) (ep_after k h0))) = Some s /\
    Z.testbit (parked_mask (ep_after k h0)) s = true /\ window_inv s w (ep_after k h).
Proof.
  intros Hev. induction Hev as [|ev h Hev Hh IH]; [by left|]. intros [Hc Hcl].
  pose proof (ep_after_ok k h Hh) as Hk. destruct (event_effect k ev _ Hev Hk) as [_ He].
  change (ep_after k (ev :: h)) with (snd (ep_event ev (ep_after k h))).
  destruct He as [Hw Hg|Hw _|now s -> Hs Hg _]; [|by left|].
  - destruct (IH Hcl) as [Hn|(s & w & g & h0 & Eh & Hgr & Hp & HI)]; [left; by rewrite Hw|].
    assert (Hc' : after_all ev w).
    { intros now ev' t Ht Hin. apply Hc; [done|]. rewrite Eh. apply elem_of_app. by left. }
    destruct (event_window k s w ev _ Hev Hc' Hk HI) as [[Hn|HI']|(now & open & -> & Ep)]; [by left|right|].
    + exists s, (ev :: w), g, h0. split; [by rewrite Eh|done].
    + cbn [ep_event] in *. left. rewrite Ep in Hg |- *.
      pose proof (expire_reparking_shape now (ep_after k h)) as Hx.
      pose proof (pass_window_spec k now open _ (shape_kept_ok _ _ _ Hx Hk)) as H.
      rewrite (shape_kept_watched _ _ Hx), (wi_watched _ _ _ HI) in H. specialize (H ltac:(eauto)).
      destruct (pass_window _ _ _) as [f e']. destruct H as (_ & _ & [[_ ?]|(s' & Hg' & _)]); [done|].
      cbn in Hg. congruence.
  - right. exists s, [], now, h. split; [done|]. split; [done|]. split; [apply Hs|]. by eapply window_inv_start.
Qed.

(** Only a poll of an earned window passes. *)
Definition passed (o : OverflowProbeOutcome) : bool := bool_decide (o = ProbePassed \/ o = ReleasePassed).

Lemma pass_outcome k ev e o : ep_ok k e ->
  fst (outcomes (fst (ep_event ev e))) = Some o -> passed o = true ->
  exists now open, ev = EvPoll now open /\ is_Some (watched e) /\ window_earned now e.
Proof.
  intros Hk Ho Hp%bool_decide_eq_true.
  assert (Hd : (exists now open, ev = EvPoll now open) \/ forall now open, ev <> EvPoll now open) by (destruct ev; eauto; right; done).
  destruct Hd as [(now & open & ->)|Hn].
  2:{ destruct (other_events_modest ev e Hn) as [_ H]. destruct (H _ Ho) as (? & ? & _). naive_solver. }
  exists now, open. split; [done|]. cbn [ep_event] in Ho. rewrite ep_poll_body in Ho.
  pose proof (expire_reparking_shape now e) as Hx.
  rewrite <- (shape_kept_watched _ _ Hx).
  assert (Hea : window_earned now (expire_reparking now e) -> window_earned now e).
  { unfold expire_reparking. repeat case_match; done. }
  pose proof (shape_kept_ok _ _ _ Hx Hk) as Hk0. revert Ho Hea Hk0.
  generalize (expire_reparking now e). intros e0 Ho Hea Hk0.
  unfold poll_body in Ho. destruct (oe_phase e0) eqn:Ep; cbn in Ho; try (naive_solver; fail).
  - destruct (poll_waiting_spec k now open e0 Hk0 Ep); cbn in Ho; naive_solver.
  - assert (Hw : watched e0 = Some (watched_slot e0)) by (unfold watched; by rewrite Ep). split; [by rewrite Hw|].
    destruct (poll_window_spec now open e0); cbn in Ho; naive_solver.
  - pose proof (release_next_spec k now open e0 Hk0 Ep) as H. revert Ho. destruct (release_next now open e0) as [f e']. intros Ho. cbn in Ho.
    destruct H as (_ & _ & [(_ & _ & [[_ ->]|[Hf _]])|(s & _ & _ & _ & _ & Hf)]); [done|rewrite Hf in Ho; naive_solver|rewrite Hf in Ho; naive_solver].
  - assert (Hw : watched e0 = Some (watched_slot e0)) by (unfold watched; by rewrite Ep). split; [by rewrite Hw|].
    destruct (poll_window_spec now open e0); cbn in Ho; naive_solver.
Qed.

Lemma window_earned_inv s w e now : window_inv s w e -> window_earned now e -> earned s now w.
Proof.
  intros [W S C D F O T B U] (f & Ef & Hle & Hu). unfold unsettled in Hu.
  apply orb_false_iff in Hu as [[Hm%negb_false_iff%Z.eqb_eq Hd]%orb_false_iff Hs].
  split; [done|]. split; [exists f; split; [by apply F|]|split].
  - unfold saturating_duration_since, secs, OVERFLOW_PROBE_WATCH_SECS, NANOS_PER_SEC in *. lia.
  - intros t Ht. apply not_true_is_false. intros Ho. specialize (O t Ht Ho). destruct (t =? s); [congruence|].
    by rewrite Hm, Z.bits_0 in O.
  - apply T. intros u Eu. rewrite Eu in Hs. by apply Z.ltb_ge in Hs.
Qed.

(** * Probes are few and far apart *)

Definition grants_probe (ev : EpisodeEvent) (e : OverflowEpisode) : bool :=
  bool_decide (fst (outcomes (fst (ep_event ev e))) = Some ProbeGranted).

(** The probes of a history. *)
Fixpoint probes (k : OverflowEpisodeKind) (h : list EpisodeEvent) : Z :=
  match h with
  | [] => 0
  | ev :: r => probes k r + (if grants_probe ev (ep_after k r) then 1 else 0)
  end.

(** The last 805 is what a wait is measured from. *)
Definition since_ok (h : list EpisodeEvent) (e : OverflowEpisode) : Prop :=
  (oe_phase e = Quiet -> forall t, EvOverflow t ∉ h) /\
  (may_wait e = true -> forall p t, phase_since e = Some p -> EvOverflow t ∈ h -> t <= p).

Lemma since_kept h ev e e' : (forall t, ev <> EvOverflow t) -> shape_kept e e' -> since_ok h e -> since_ok (ev :: h) e'.
Proof.
  intros Hn (_ & Ep & _ & _ & Es & _ & _ & _) [Q W].
  unfold since_ok. rewrite Ep. split.
  - intros Hq t [E|Hin]%elem_of_cons; [by destruct (Hn t)|]. by eapply Q.
  - intros Hm p t Hp [E|Hin]%elem_of_cons; [by destruct (Hn t)|].
    destruct (watched e) eqn:Ew; [unfold may_wait, watched in *; rewrite Ep in Hm; by destruct (oe_phase e)|].
    specialize (Es eq_refl). rewrite Es in Hp. eapply W; [|exact Hp|exact Hin]. unfold may_wait in *. by rewrite Ep, Es in Hm.
Qed.

Lemma since_failed h ev e o now : after_all ev h -> time_of ev = Some now -> since_ok (ev :: h) (snd (fail o now e)).
Proof.
  intros Hc Ht.
  assert (Hall : forall t, EvOverflow t ∈ ev :: h -> t <= now).
  { intros t [E|Hin]%elem_of_cons; [rewrite <- E in Ht; cbn in Ht; simplify_eq; lia|]. by eapply Hc. }
  unfold fail. cbv zeta. case_match; [by split|].
  split; [cbn; by destruct (slot_bit _)|]. intros _ p t Hp Hin.
  assert (p = now) as -> by (revert Hp; cbn [snd]; destruct (slot_bit _); by intros [= <-]). auto.
Qed.
Lemma fail_probes o now e : probes_started (snd (fail o now e)) = probes_started e.
Proof. unfold fail. cbv zeta. case_match; [done|]. by destruct (slot_bit _). Qed.

Lemma kept_or_failed_probes now e r : kept_or_failed now e r -> probes_started (snd r) = probes_started e.
Proof.
  intros [(_&_&_&->&_)|(o & e1 & (_&_&_&H1&_) & _ & (_&_&_&H2&_))]; [done|]. by rewrite H2, fail_probes.
Qed.

(** ** What the pace says of each step *)

Lemma shape_event_paced ev e h :
  shape_event ev = true -> after_all ev h -> since_ok h e ->
  probes_started (snd (ep_event ev e)) = probes_started e /\ since_ok (ev :: h) (snd (ep_event ev e)).
Proof.
  intros Es Hc HS. assert (Hn : forall t, ev <> EvOverflow t) by (by destruct ev).
  destruct (shape_event_kept ev e Es) as [Hk|(now & Ht & Hk)].
  - split; [apply Hk|by eapply since_kept].
  - split; [by eapply kept_or_failed_probes|].
    destruct Hk as [Hk|(o & e1 & H1 & Hw & H2)]; [by eapply since_kept|].
    pose proof (since_failed h ev e1 o now Hc Ht) as [Q W].
    split.
    + destruct H2 as (_ & -> & _). intros Hq. by apply Q.
    + intros Hm p t Hp. pose proof (fail_watched o now e1) as Hn'. destruct H2 as (_ & Ep & _ & _ & Eq & _).
      specialize (Eq Hn'). rewrite Eq in Hp. apply W; [|done]. unfold may_wait in *. by rewrite Ep, Eq in Hm.
Qed.

Lemma parked_paced slot e h : since_ok h e ->
  probes_started (ep_on_parked slot e) = probes_started e /\ since_ok (EvParked slot :: h) (ep_on_parked slot e).
Proof.
  intros HS. unfold ep_on_parked. set (e1 := match slot_bit slot with Some b => _ | None => e end).
  set (e2 := { clear_reparking slot e1 with held_reported := false }).
  assert (H2 : probes_started e2 = probes_started e /\ oe_phase e2 = oe_phase e /\ phase_since e2 = phase_since e).
  { unfold e2. destruct (clear_reparking_fields slot e1) as (m & u & ->). unfold e1. by destruct (slot_bit slot). }
  clearbody e2. destruct H2 as (En & Ep & Es). destruct HS as [Q W].
  assert (HW : may_wait e2 = true -> forall p t, phase_since e2 = Some p -> EvOverflow t ∈ EvParked slot :: h -> t <= p).
  { intros Hm p t Hp [?|Hin]%elem_of_cons; [done|]. eapply W; [|by rewrite <- Es|done]. unfold may_wait in *. by rewrite <- Ep, <- Es. }
  assert (HQ : oe_phase e2 = Quiet -> forall t, EvOverflow t ∉ EvParked slot :: h).
  { rewrite Ep. intros Hq t [?|Hin]%elem_of_cons; [done|]. by eapply Q. }
  case_match eqn:E; [|by split; [|split]].
  split; [done|]. split; [done|]. apply andb_true_iff in E as [Er%bool_decide_eq_true Ei].
  intros _ p t Hp. apply HW; [|done]. unfold may_wait. by rewrite Er.
Qed.

Lemma overflow_paced k now e h : ep_ok k e -> after_all (EvOverflow now) h -> since_ok h e ->
  probes_started (snd (ep_on_overflow now e)) = probes_started e /\ since_ok (EvOverflow now :: h) (snd (ep_on_overflow now e)).
Proof.
  intros Hk Hc HS.
  assert (Hall : forall t, EvOverflow t ∈ EvOverflow now :: h -> t <= now).
  { intros t [[= ->]|Hin]%elem_of_cons; [lia|]. by eapply Hc. }
  assert (Hwait : since_ok (EvOverflow now :: h) { e with oe_phase := Waiting; phase_since := Some now }).
  { split; [done|]. intros _ p t [= <-]. apply Hall. }
  assert (Hfail : probes_started (snd (fail FailedOverflow now e)) = probes_started e /\ since_ok (EvOverflow now :: h) (snd (fail FailedOverflow now e))).
  { split; [apply fail_probes|by apply since_failed]. }
  unfold ep_on_overflow. destruct (oe_phase e) eqn:Ep; try exact Hfail; try (by split; [|exact Hwait]);
    try (case_match; [by split|by split; [|exact Hwait]]).
  split; [done|]. cbn. unfold since_ok, may_wait. rewrite Ep. done.
Qed.
Lemma release_next_paced now open e : oe_phase e = Releasing -> phase_since e = None ->
  let e' := snd (release_next now open e) in
  probes_started e' = probes_started e /\ may_wait e' = false /\ oe_phase e' <> Quiet /\
  fst (outcomes (fst (release_next now open e))) <> Some ProbeGranted.
Proof.
  intros Ep Es. unfold release_next, take_lowest_parked. destruct (parked_mask e =? 0); cbn [snd fst].
  - unfold may_wait. cbn. by rewrite Es.
  - destruct open; cbn [negb]; [done|]. unfold may_wait. cbn. by rewrite Ep.
Qed.

Lemma no_wait_since h e : may_wait e = false -> oe_phase e <> Quiet -> since_ok h e.
Proof. intros Hm Hq. split; [done|]. by rewrite Hm. Qed.

Lemma pass_window_paced now open e :
  let e' := snd (pass_window now open e) in
  probes_started e' = probes_started e /\ may_wait e' = false /\ oe_phase e' <> Quiet /\
  fst (outcomes (fst (pass_window now open e))) <> Some ProbeGranted.
Proof.
  unfold pass_window. cbv zeta.
  match goal with |- context [release_next now open ?x] => pose proof (release_next_paced now open x eq_refl eq_refl) as H end.
  destruct (release_next _ _ _) as [f e']. destruct H as (Hn & Hm & Hq & _). split; [exact Hn|]. split; [exact Hm|].
  split; [exact Hq|]. cbn. by case_decide.
Qed.

(** The clock of a poll's probe. *)
Definition probe_due (now : Z) (open : bool) (h : list EpisodeEvent) (e : OverflowEpisode) : Prop :=
  open = true /\ exists d, delay_secs (oe_kind e) (probes_started e) = Some d /\
    forall t, EvOverflow t ∈ h -> t + secs d <= now.

Lemma poll_body_paced k now open e h : ep_ok k e -> after_all (EvPoll now open) h -> since_ok h e ->
  let r := poll_body now open e in
  since_ok (EvPoll now open :: h) (snd r) /\
  (if bool_decide (fst (outcomes (fst r)) = Some ProbeGranted)
   then probes_started (snd r) = probes_started e + 1 /\ probe_due now open h e
   else probes_started (snd r) = probes_started e).
Proof.
  intros Hk Hc HS r.
  assert (Hsame : since_ok (EvPoll now open :: h) e) by (eapply since_kept; [done|apply shape_kept_refl|done]).
  assert (Hwin : window_polled now open e (poll_window now open e) -> oe_phase e <> Quiet ->
    since_ok (EvPoll now open :: h) (snd (poll_window now open e)) /\
    (if bool_decide (fst (outcomes (fst (poll_window now open e))) = Some ProbeGranted)
     then probes_started (snd (poll_window now open e)) = probes_started e + 1 /\ probe_due now open h e
     else probes_started (snd (poll_window now open e)) = probes_started e)).
  { intros [Ho|r' o Hr _ _ Hpg Ho _ _|He] _.
    - by split.
    - rewrite Ho, bool_decide_false by congruence. rewrite Hr. split; [by apply since_failed|apply fail_probes].
    - destruct (pass_window_paced now open e) as (Hn & Hm & Hq & Ho). rewrite bool_decide_false by exact Ho.
      split; [by apply no_wait_since|exact Hn]. }
  unfold r, poll_body. destruct (oe_phase e) eqn:Ep; try (by split).
  - destruct (poll_waiting_spec k now open e Hk Ep) as [|Hf|Hf Hz|s d since e' Ho Hd Es Hle Hs Hp Hn Hff Hkk Hm Hsu]; cbn [fst snd].
    + by split.
    + split; [|done]. eapply since_kept; [done| |exact HS]. same_shape.
    + split; [|done]. destruct HS as [_ W]. split; [done|]. cbn. intros Hm p t Hp [?|Hin]%elem_of_cons; [done|].
      eapply W; [|exact Hp|exact Hin]. unfold may_wait. by rewrite Ep.
    + split; [apply no_wait_since; unfold may_wait; by rewrite Hp|]. cbn. split; [done|]. split; [done|].
      exists d. split; [done|]. intros t Hin. destruct HS as [_ W].
      assert (t <= since) by (eapply W; [|exact Es|exact Hin]; unfold may_wait; by rewrite Ep).
      destruct (delay_secs_spec _ _ _ (proj1 (eo_probes _ _ Hk)) Hd) as [_ [H300 _]].
      unfold saturating_duration_since, secs, NANOS_PER_SEC in *. lia.
  - apply Hwin; [apply poll_window_spec|done].
  - destruct (release_next_paced now open e Ep (eo_release _ _ Hk Ep)) as (Hn & Hm & Hq & Ho).
    rewrite bool_decide_false by exact Ho. split; [by apply no_wait_since|exact Hn].
  - apply Hwin; [apply poll_window_spec|done].
Qed.

(** The pace of a whole history. *)
Lemma event_paced k h ev : Forall event_ok (ev :: h) -> clock_ok (ev :: h) -> since_ok h (ep_after k h) ->
  since_ok (ev :: h) (ep_after k (ev :: h)) /\
  (if grants_probe ev (ep_after k h)
   then probes_started (ep_after k (ev :: h)) = probes_started (ep_after k h) + 1 /\
        exists now open, ev = EvPoll now open /\ probe_due now open h (ep_after k h)
   else probes_started (ep_after k (ev :: h)) = probes_started (ep_after k h)).
Proof.
  intros [Hev Hh]%Forall_cons [Hc _] HS. pose proof (ep_after_ok k h Hh) as Hk.
  change (ep_after k (ev :: h)) with (snd (ep_event ev (ep_after k h))). unfold grants_probe.
  generalize dependent (ep_after k h). intros e HS Hk.
  assert (Hd : (exists now open, ev = EvPoll now open) \/ forall now open, ev <> EvPoll now open) by (destruct ev; eauto; right; done).
  destruct Hd as [(now & open & ->)|Hn].
  - cbn [ep_event]. rewrite ep_poll_body. pose proof (expire_reparking_shape now e) as Hx.
    assert (HS' : since_ok h (expire_reparking now e)).
    { unfold expire_reparking. repeat case_match; done. }
    destruct (poll_body_paced k now open _ h (shape_kept_ok _ _ _ Hx Hk) Hc HS') as [H1 H2]. split; [exact H1|].
    unfold probe_due in H2. destruct Hx as (Ek & _ & _ & En & _). rewrite En, Ek in H2.
    case_bool_decide; [|exact H2]. destruct H2 as [H2 H3]. split; [exact H2|]. exists now, open. done.
  - rewrite bool_decide_false.
    2:{ intros Ho. destruct (other_events_modest ev e Hn) as [_ Hm]. by destruct (Hm _ Ho) as (_ & _ & ?). }
    destruct (shape_event ev) eqn:Es.
    + destruct (shape_event_paced ev e h Es Hc HS). done.
    + destruct ev; try done; cbn [ep_event]; unfold quietly; cbn [snd].
      * destruct (parked_paced slot e h HS). done.
      * destruct (overflow_paced k now e h Hk Hc HS). done.
      * by destruct (Hn now window_open).
Qed.

Lemma ep_after_paced k h : Forall event_ok h -> clock_ok h ->
  probes_started (ep_after k h) = probes k h /\ since_ok h (ep_after k h).
Proof.
  intros Hh. induction h as [|ev h IH]; intros Hc; [split; [done|split; [intros _ t Hin|intros _ p t _ Hin]; by inversion Hin]|].
  pose proof Hh as [_ Hh']%Forall_cons. destruct (IH Hh' (proj2 Hc)) as [Hn HS].
  destruct (event_paced k h ev Hh Hc HS) as [HS' Hp]. split; [|done]. cbn [probes].
  destruct (grants_probe ev (ep_after k h)); [destruct Hp as [Hp _]|]; rewrite Hp, Hn; lia.
Qed.

Ltac slots_ok := repeat (apply Forall_cons; split; [intros ? [=]; lia|]); apply Forall_nil; exact I.

Ltac clock_holds :=
  cbn; repeat split; intros now ev' t [= <-] Hin Ht;
  repeat (apply elem_of_cons in Hin as [->|Hin]; [cbn in Ht; simplify_eq; unfold secs, NANOS_PER_SEC; lia|]); by inversion Hin.

Module Episodes.
(** C13: Whatever happens to a recovery from an 805, in whatever order: when a
    poll passes a window, the window was granted by an earlier poll to a slot that
    had parked, and since then no 805 arrived anywhere; the watched socket was
    never reset without a code, silent or gone, and went down for another reason
    at most once; no other socket was reset after the dial of a socket outside the
    burst of closes; the watched socket's first frame is two minutes old with the
    socket up since; every other socket that closed has redialled or left, the
    watched one redialled after its own silence, and each such redial is at least
    20 s old. *)
Theorem a_pass_is_earned k h ev o :
  Forall event_ok (ev :: h) -> clock_ok (ev :: h) ->
  fst (outcomes (fst (ep_event ev (ep_after k h)))) = Some o -> passed o = true ->
  exists now open s w g h0,
    ev = EvPoll now open /\ h = w ++ EvPoll g true :: h0 /\
    ef_grant (fst (ep_event (EvPoll g true) (ep_after k h0))) = Some s /\
    Z.testbit (parked_mask (ep_after k h0)) s = true /\
    earned s now w.
Proof.
  intros Hev [_ Hc] Ho Hp. apply Forall_cons in Hev as [_ Hev].
  destruct (pass_outcome k ev _ o (ep_after_ok k h Hev) Ho Hp) as (now & open & -> & Hw & He).
  destruct (history_window k h Hev Hc) as [Hn|(s & w & g & h0 & -> & Hg & Hpk & HI)].
  - rewrite Hn in Hw. by destruct Hw.
  - exists now, open, s, w, g, h0. split_and!; try done. by eapply window_earned_inv.
Qed.

(** C35: Whatever happens to a recovery, it grants at most three probes (six
    for depth) in a process, each by a poll inside the session and at least the
    delay of its turn (300, 600, 1,200 s; for depth 300 s doubling to 1,800 s)
    after every 805 before it. *)
Theorem probes_are_few_and_spaced k h : Forall event_ok h -> clock_ok h ->
  probes k h <= max_attempts k /\
  forall ev, event_ok ev -> after_all ev h -> grants_probe ev (ep_after k h) = true ->
    exists now d, ev = EvPoll now true /\ delay_secs k (probes k h) = Some d /\ 300 <= d <= 1800 /\
      forall t, EvOverflow t ∈ h -> t + secs d <= now.
Proof.
  intros Hh Hc. pose proof (ep_after_ok k h Hh) as Hk. destruct (ep_after_paced k h Hh Hc) as [Hn HS].
  split; [rewrite <- Hn; apply Hk|]. intros ev Hev Hall Hg.
  destruct (event_paced k h ev ltac:(by constructor) ltac:(by split) HS) as [_ Hp]. rewrite Hg in Hp.
  destruct Hp as (_ & now & open & -> & -> & d & Hd & Ht). rewrite Hn, (eo_kind _ _ Hk) in Hd.
  exists now, d. split; [done|]. split; [done|]. split; [|done].
  eapply delay_secs_spec; [|exact Hd]. rewrite <- Hn. apply Hk.
Qed.

(** An 805, a park, a probe; then a sibling that drops and comes back. *)
Definition waiting_history : list EpisodeEvent := [EvParked 1; EvOverflow 0].
Definition window_history : list EpisodeEvent :=
  [EvDialled 2 (secs 331); EvBareReset 2 4 (secs 330); EvFirstFrame 1 (secs 310)] ++ EvPoll (secs 300) true :: waiting_history.

Lemma a_pass_is_earned_witness :
  exists now open s w g h0,
    EvPoll (secs 430) true = EvPoll now open /\ window_history = w ++ EvPoll g true :: h0 /\
    ef_grant (fst (ep_event (EvPoll g true) (ep_after KindMainFeed h0))) = Some s /\
    Z.testbit (parked_mask (ep_after KindMainFeed h0)) s = true /\
    earned s now w.
Proof.
  apply (a_pass_is_earned KindMainFeed window_history (EvPoll (secs 430) true) ProbePassed).
  - slots_ok.
  - clock_holds.
  - vm_compute. reflexivity.
  - reflexivity.
Defined.

Lemma probes_are_few_and_spaced_witness :
  probes KindMainFeed waiting_history <= 3 /\
  exists now d, EvPoll (secs 300) true = EvPoll now true /\ delay_secs KindMainFeed (probes KindMainFeed waiting_history) = Some d /\
    300 <= d <= 1800 /\ forall t, EvOverflow t ∈ waiting_history -> t + secs d <= now.
Proof.
  destruct (probes_are_few_and_spaced KindMainFeed waiting_history) as [H1 H2].
  - slots_ok.
  - clock_holds.
  - split; [exact H1|]. apply (H2 (EvPoll (secs 300) true)); [by intros s [=]| |vm_compute; reflexivity].
    clock_holds.
Defined.
End Episodes.
