(* ===== verification/OverflowTurns.v ===== *)
(** Both recoveries from an 805 and the registers the connections read
    ([OverflowEpisode]), over every interleaving of the calls that reach them: each
    call is a few events of each episode, so what holds of an episode's history
    ([OverflowSafety]) holds of the process; the two share one turn; and the widen
    word refuses the main feed from the first 805 to the recovery. *)
From coqutil Require Import Datatypes.RecordSettersUsingExistingGetters.
From S2P Require Import Prelude FeedTypes ConnectionBudget ReconnectLadder ConnectionSupervisor OverflowEpisode OverflowSafety.
Local Open Scope Z_scope.

(** * Calls

    A supervisor's report, an 805 between its note and the lock, a park, a poll,
    a connection reading its own registers.  Lists of calls are newest first. *)

Inductive OverflowCall : Type :=
  | Told (c : PoolCall)
  | Noted805
  | Applied805 (now : Z)
  | ParkedFor (ep : DhanEndpointType) (slot : Z)
  | Polled (now : Z) (window_open : bool)
  | TookGrant (slot : Z)
  | TookRepark (slot : Z).

Definition overflow_call (c : OverflowCall) (st : OverflowState) : OverflowState :=
  match c with
  | Told c => tell_overflow c st
  | Noted805 => note_805 st
  | Applied805 now => apply_805 now st
  | ParkedFor ep slot => overflow_episode_note_parked ep slot st
  | Polled now window_open => overflow_episode_poll now window_open st
  | TookGrant slot => snd (take_overflow_grant slot st)
  | TookRepark slot => snd (take_overflow_repark slot st)
  end.

Definition after_calls (calls : list OverflowCall) : OverflowState := foldr overflow_call new_overflow calls.

(** * What each episode sees of a call *)

Definition run_events (evs : list EpisodeEvent) (e : OverflowEpisode) : OverflowEpisode :=
  foldr (fun ev e => snd (ep_event ev e)) e evs.

Definition first_frame_events (now : Z) (st : OverflowState) : list EpisodeEvent :=
  match watched_any (episodes st) with
  | Some w => if watched_first_frame st =? w then [EvFirstFrame w now] else []
  | None => []
  end.

Definition main_poll_events (now : Z) (open : bool) (st : OverflowState) : list EpisodeEvent :=
  let first := first_frame_events now st in
  EvPoll now (open && bool_decide (watched (run_events first (depth_ep (episodes st))) = None)) :: first.

Definition depth_poll_events (now : Z) (open : bool) (st : OverflowState) : list EpisodeEvent :=
  EvPoll now (open && negb (holds_turn (run_events (main_poll_events now open st) (main_ep (episodes st))))) ::
  first_frame_events now st.

Definition report_events (c : PoolCall) (st : OverflowState) : list EpisodeEvent :=
  match c with
  | NoteDialSucceeded slot now =>
      if negb (suspect_bit_set slot st) && negb (is_watched slot st) then [] else [EvDialled slot now]
  | NoteWatchedTornDown slot now => if negb (engaged st) || negb (is_watched slot st) then [] else [EvTornDown slot now]
  | NoteSelfRedial slot now => if negb (engaged st) || negb (is_watched slot st) then [] else [EvSelfRedial slot now]
  | NoteWatchedRedialling slot => if negb (engaged st) || negb (is_watched slot st) then [] else [EvRedialling slot]
  | NoteLeft slot reason now =>
      if negb (left_reaches_episode slot reason st) then [] else
      if decide (reason = Shutdown) then [EvSiblingLeft slot] else [EvLeft slot now]
  | NoteDisconnect code slot now =>
      match overflow_close_route code (engaged st) with
      | RouteOverflow => [EvOverflow now]
      | BareReset =>
          let '(ms, st) := dial_stamp_ms now st in
          [EvBareReset slot (recent_dial_mask ms (OVERFLOW_PROBE_EVICTION_ATTRIBUTION_SECS * 1000) (dial_begin_ms st)) now]
      | CodedClose => [EvCodedClose slot now]
      | Ignore => []
      end
  | _ => []
  end.

Definition call_events (k : OverflowEpisodeKind) (c : OverflowCall) (st : OverflowState) : list EpisodeEvent :=
  match c with
  | Told c => report_events c st
  | Applied805 now => [EvOverflow now]
  | ParkedFor ep slot => if decide (for_endpoint ep = Some k) then [EvParked slot] else []
  | Polled now open => match k with KindMainFeed => main_poll_events now open st | KindDepth => depth_poll_events now open st end
  | Noted805 | TookGrant _ | TookRepark _ => []
  end.

Definition feed_events (c : OverflowCall) (st : OverflowState) (eps : OverflowEpisodes) : OverflowEpisodes :=
  mkEpisodes (run_events (call_events KindMainFeed c st) (main_ep eps)) (run_events (call_events KindDepth c st) (depth_ep eps)).

Lemma apply_effect_episodes f st : episodes (apply_overflow_effect f st) = episodes st.
Proof. unfold apply_overflow_effect. by destruct (ef_repark f), (ef_grant f). Qed.

Lemma apply_effect_widen f st : widen_state (apply_overflow_effect f st) = widen_state st.
Proof. unfold apply_overflow_effect. by destruct (ef_repark f), (ef_grant f). Qed.

Lemma step_episodes b step st : episodes (overflow_episode_step b step st) = snd (step (episodes st)).
Proof.
  unfold overflow_episode_step. destruct (step (episodes st)) as [f eps]. rewrite !apply_effect_episodes.
  destruct b; by case_match.
Qed.

Lemma feed_both_snd f eps : snd (feed_both f eps) = mkEpisodes (snd (f (main_ep eps))) (snd (f (depth_ep eps))).
Proof. unfold feed_both. by destruct (f (main_ep eps)), (f (depth_ep eps)). Qed.

Lemma stamp_episodes slot now st : episodes (stamp_dial_attempt slot now st) = episodes st.
Proof. unfold stamp_dial_attempt. by case_match. Qed.

Lemma dial_failed_episodes slot r st : episodes (note_dial_failed_in slot r st) = episodes st.
Proof. unfold note_dial_failed_in. by repeat case_match. Qed.

Lemma dial_failed_widen slot r st : widen_state (note_dial_failed_in slot r st) = widen_state st.
Proof. unfold note_dial_failed_in. by repeat case_match. Qed.

Lemma report_is_events c st : episodes (tell_overflow c st) = feed_events (Told c) st (episodes st).
Proof.
  assert (Hid : episodes st = mkEpisodes (main_ep (episodes st)) (depth_ep (episodes st))) by (by destruct (episodes st)).
  unfold feed_events. destruct c; cbn [tell_overflow call_events report_events run_events foldr]; try exact Hid.
  - by rewrite stamp_episodes.
  - by rewrite dial_failed_episodes.
  - unfold overflow_episode_note_dial_succeeded. case_match; [exact Hid|]. rewrite step_episodes.
    unfold on_dialled, on_sibling_dialled. by rewrite feed_both_snd.
  - unfold overflow_episode_note_watched_torn_down. case_match; [exact Hid|]. rewrite step_episodes.
    unfold on_watched_torn_down. by rewrite feed_both_snd.
  - unfold overflow_episode_note_first_frame. by case_match.
  - unfold overflow_episode_note_disconnect. destruct (overflow_close_route code (engaged st)).
    + unfold apply_805. rewrite step_episodes. unfold on_overflow. by rewrite feed_both_snd.
    + unfold dial_stamp_ms. rewrite step_episodes. unfold on_bare_reset. by rewrite feed_both_snd.
    + rewrite step_episodes. unfold on_coded_close. by rewrite feed_both_snd.
    + exact Hid.
  - unfold overflow_episode_note_self_redial. case_match; [exact Hid|]. rewrite step_episodes.
    unfold on_watched_self_redial. by rewrite feed_both_snd.
  - unfold overflow_episode_note_watched_redialling. case_match; [exact Hid|]. rewrite step_episodes.
    unfold on_watched_redialling. by rewrite feed_both_snd.
  - unfold overflow_episode_note_left. destruct (left_reaches_episode slot reason st); cbn [negb]; [|exact Hid].
    rewrite step_episodes. destruct (decide (reason = Shutdown)).
    + unfold on_sibling_left. by rewrite feed_both_snd.
    + unfold on_left. by rewrite feed_both_snd.
Qed.

Lemma poll_episodes_snd now open eps :
  let me := snd (ep_poll now (open && bool_decide (watched (depth_ep eps) = None)) (main_ep eps)) in
  snd (poll_episodes now open eps) = mkEpisodes me (snd (ep_poll now (open && negb (holds_turn me)) (depth_ep eps))).
Proof. unfold poll_episodes. destruct (ep_poll _ _ (main_ep eps)) as [m me]. cbn [snd]. by destruct (ep_poll _ _ (depth_ep eps)). Qed.

Lemma call_is_events c st : episodes (overflow_call c st) = feed_events c st (episodes st).
Proof.
  assert (Hid : episodes st = mkEpisodes (main_ep (episodes st)) (depth_ep (episodes st))) by (by destruct (episodes st)).
  destruct c; cbn [overflow_call]; try exact Hid.
  - apply report_is_events.
  - unfold apply_805. rewrite step_episodes. unfold on_overflow. by rewrite feed_both_snd.
  - unfold overflow_episode_note_parked. rewrite step_episodes. cbn [snd]. unfold on_parked, feed_events. cbn [call_events].
    destruct (for_endpoint ep) as [[]|]; cbn; try exact Hid; by destruct (episodes st).
  - unfold overflow_episode_poll. rewrite step_episodes, poll_episodes_snd.
    unfold feed_events, call_events, depth_poll_events, main_poll_events, first_frame_events.
    destruct (watched_any (episodes st)) as [w|]; [|reflexivity]. destruct (watched_first_frame st =? w); reflexivity.
Qed.

(** ** Histories of the two episodes *)

Fixpoint history (k : OverflowEpisodeKind) (calls : list OverflowCall) : list EpisodeEvent :=
  match calls with
  | [] => []
  | c :: r => call_events k c (after_calls r) ++ history k r
  end.

Lemma run_events_app a b e : run_events (a ++ b) e = run_events a (run_events b e).
Proof. unfold run_events. apply foldr_app. Qed.

Lemma ep_after_run k h : ep_after k h = run_events h (of_kind k).
Proof. reflexivity. Qed.

Lemma calls_are_histories calls :
  episodes (after_calls calls) = mkEpisodes (ep_after KindMainFeed (history KindMainFeed calls)) (ep_after KindDepth (history KindDepth calls)).
Proof.
  induction calls as [|c calls IH]; [reflexivity|].
  change (after_calls (c :: calls)) with (overflow_call c (after_calls calls)).
  rewrite call_is_events. unfold feed_events. rewrite IH. cbn [main_ep depth_ep history].
  by rewrite !ep_after_run, !run_events_app.
Qed.

(** Slots are bytes. *)
Definition call_slot (c : OverflowCall) : option Z :=
  match c with
  | Told (NoteDialBegin s _ | NoteDialConnect s _ | NoteDialFailed s _ | NoteDialSucceeded s _ | NoteWatchedTornDown s _ | NoteFirstFrame s | NoteDisconnect _ s _
         | NoteSelfRedial s _ | NoteWatchedRedialling s | NoteLeft s _ _) => Some s
  | ParkedFor _ s | TookGrant s | TookRepark s => Some s
  | _ => None
  end.

Definition call_ok (c : OverflowCall) : Prop := forall s, call_slot c = Some s -> 0 <= s < 256.

Definition eps_ok (eps : OverflowEpisodes) : Prop :=
  ep_ok KindMainFeed (main_ep eps) /\ ep_ok KindDepth (depth_ep eps) /\
  (watched (main_ep eps) = None \/ watched (depth_ep eps) = None).

Lemma watched_any_slot eps s : eps_ok eps -> watched_any eps = Some s -> 0 <= s < 32.
Proof.
  intros (Hm & Hd & _). unfold watched_any. destruct (watched (main_ep eps)) as [w|] eqn:E.
  - intros [= <-]. apply (eo_window _ _ Hm _ E).
  - intros Hw. apply (eo_window _ _ Hd _ Hw).
Qed.

Lemma first_frame_events_ok now st : eps_ok (episodes st) -> Forall event_ok (first_frame_events now st).
Proof.
  intros H. unfold first_frame_events. destruct (watched_any (episodes st)) as [w|] eqn:E; [|done].
  pose proof (watched_any_slot _ _ H E). case_match; [|done]. constructor; [|done]. intros s [= <-]. lia.
Qed.

Lemma call_events_ok k c st : call_ok c -> eps_ok (episodes st) -> Forall event_ok (call_events k c st).
Proof.
  intros Hc H. pose proof (first_frame_events_ok) as Hf. unfold call_ok in Hc.
  destruct c; cbn [call_events]; try done.
  - destruct c; cbn [report_events]; try done; cbn in Hc; specialize (Hc _ eq_refl);
      repeat case_match; try done; (constructor; [|done]); intros s [= <-]; lia.
  - constructor; [intros s [=]|done].
  - case_decide; [|done]. constructor; [|done]. intros s [= <-]. by apply Hc.
  - destruct k; (constructor; [intros s [=]|by apply Hf]).
Qed.

(** Without a poll that may grant, a window goes on or ends. *)
Definition grantless (ev : EpisodeEvent) : bool := match ev with EvPoll _ open => negb open | _ => true end.

Lemma grantless_watched k ev e : event_ok ev -> grantless ev = true -> ep_ok k e ->
  ep_ok k (snd (ep_event ev e)) /\ (watched (snd (ep_event ev e)) = watched e \/ watched (snd (ep_event ev e)) = None).
Proof.
  intros Hev Hg Hk. destruct (event_effect k ev e Hev Hk) as [Hk' [?|?|now s -> _ _ _]]; [auto|auto|done].
Qed.

Lemma grantless_run k evs e : Forall event_ok evs -> forallb grantless evs = true -> ep_ok k e ->
  ep_ok k (run_events evs e) /\ (watched (run_events evs e) = watched e \/ watched (run_events evs e) = None).
Proof.
  induction 1 as [|ev evs Hev _ IH]; [by auto|]. cbn [forallb]. intros [Hg Hgs]%andb_true_iff Hk.
  destruct (IH Hgs Hk) as [Hk' Hw]. destruct (grantless_watched k ev _ Hev Hg Hk') as [Hk2 Hw2].
  change (run_events (ev :: evs) e) with (snd (ep_event ev (run_events evs e))).
  split; [exact Hk2|]. destruct Hw2 as [->|]; auto.
Qed.

Lemma run_ok k evs e : Forall event_ok evs -> ep_ok k e -> ep_ok k (run_events evs e).
Proof. induction 1 as [|ev evs Hev _ IH]; [done|]. intros Hk. by apply event_effect; auto. Qed.

Lemma polled_none k now e : ep_ok k e -> watched e = None -> watched (snd (ep_poll now false e)) = None.
Proof.
  intros Hk Hn. destruct (grantless_watched k (EvPoll now false) e ltac:(by intros ? [=]) eq_refl Hk) as [_ [H|H]]; cbn in H; congruence.
Qed.

Lemma first_frame_grantless now st : forallb grantless (first_frame_events now st) = true.
Proof. unfold first_frame_events. by repeat case_match. Qed.

Lemma holds_turn_watched e : is_Some (watched e) -> holds_turn e = true.
Proof. unfold watched, holds_turn. destruct (oe_phase e); intros [? [=]]; done. Qed.

Lemma call_keeps_turns c st : call_ok c -> eps_ok (episodes st) -> eps_ok (episodes (overflow_call c st)).
Proof.
  intros Hc H. rewrite call_is_events. pose proof H as (Hm & Hd & Hone).
  assert (Hok : forall k, Forall event_ok (call_events k c st)) by (intros; by apply call_events_ok).
  split; [by apply run_ok|]. split; [by apply run_ok|].
  assert (Hpoll : (exists now open, c = Polled now open) \/ forall k, forallb grantless (call_events k c st) = true).
  { destruct c; eauto; right; intros k; cbn [call_events]; try done; [destruct c|]; cbn; repeat case_match; done. }
  destruct Hpoll as [(now & open & ->)|Hg].
  - cbn [feed_events call_events main_ep depth_ep] in *. 
    pose proof (first_frame_events_ok now st H) as Hf. pose proof (first_frame_grantless now st) as Hfg.
    destruct (grantless_run _ _ _ Hf Hfg Hm) as [Hm1 Hw1]. destruct (grantless_run _ _ _ Hf Hfg Hd) as [Hd1 Hw2].
    set (me := run_events (main_poll_events now open st) (main_ep (episodes st))).
    destruct (watched me) as [s|] eqn:Em; [right|by left].
    unfold depth_poll_events. fold me. rewrite holds_turn_watched, andb_false_r by (by rewrite Em).
    cbn [run_events foldr ep_event]. eapply polled_none; [exact Hd1|].
    destruct (watched (run_events (first_frame_events now st) (depth_ep (episodes st)))) as [s'|] eqn:Ed; [|exact Ed]. exfalso.
    destruct Hone as [Hn|Hn]; [|rewrite Hn in Hw2; fold (run_events (first_frame_events now st) (depth_ep (episodes st))) in *; naive_solver].
    unfold me, main_poll_events in Em. rewrite Ed, bool_decide_false, andb_false_r in Em by done.
    cbn [run_events foldr ep_event] in Em. erewrite polled_none in Em; [done|exact Hm1|].
    rewrite Hn in Hw1. naive_solver.
  - destruct (grantless_run _ _ _ (Hok KindMainFeed) (Hg _) Hm) as [_ Hw1].
    destruct (grantless_run _ _ _ (Hok KindDepth) (Hg _) Hd) as [_ Hw2].
    cbn [feed_events main_ep depth_ep]. destruct Hone as [Hn|Hn]; [left|right]; rewrite Hn in *; naive_solver.
Qed.

Lemma after_calls_ok calls : Forall call_ok calls -> eps_ok (episodes (after_calls calls)).
Proof.
  induction 1 as [|c calls Hc _ IH]; [|by apply call_keeps_turns].
  split; [apply (of_kind_ok KindMainFeed)|]. split; [apply (of_kind_ok KindDepth)|by left].
Qed.

(** What a grant of an episode says. *)
Lemma poll_grant k now open e s : ep_ok k e -> ef_grant (fst (ep_poll now open e)) = Some s ->
  open = true /\ Z.testbit (parked_mask e) s = true /\ watched (snd (ep_poll now open e)) = Some s.
Proof.
  intros Hk Hg. destruct (poll_effect k now open e Hk) as [_ [_ Hn|_ Hn|t s' [= -> ->] Hs Hg' _]]; try congruence.
  rewrite Hg in Hg'. injection Hg' as <-. split; [done|]. destruct Hs as (_ & ? & ? & _). done.
Qed.

(** * The widen word *)

(** What a call adds to the 805s noted and not yet applied. *)
Definition pending_delta (c : OverflowCall) : Z :=
  match c with Noted805 => 1 | Applied805 _ => -1 | _ => 0 end.

Fixpoint pending_805 (calls : list OverflowCall) : Z :=
  match calls with [] => 0 | c :: r => pending_805 r + pending_delta c end.

(** An 805 is applied once, after its note, and few are ever in flight. *)
Fixpoint noted_first (calls : list OverflowCall) : Prop :=
  match calls with
  | [] => True
  | c :: r => 0 <= pending_805 (c :: r) < 2 ^ 30 /\ noted_first r
  end.

Definition is_805 (c : OverflowCall) : bool :=
  match c with
  | Noted805 => true
  | Told (NoteDisconnect code _ _) => match classify_disconnect code with PoolOverflow => true | _ => false end
  | _ => false
  end.

Definition saw_805 (calls : list OverflowCall) : bool := existsb is_805 calls.

(** The word is the count and the verdict. *)
Definition widen_word (n : Z) (permitted : bool) : Z := 2 * n + (if permitted then 1 else 0).

Lemma one_testbit j : 0 <= j -> Z.testbit 1 (Z.succ j) = false.
Proof. intros Hj. apply (Z.testbit_odd_succ 0 j) in Hj as H. rewrite Z.bits_0 in H. exact H. Qed.

Lemma widen_word_bit n b i : 0 <= i -> Z.testbit (widen_word n b) i = if i =? 0 then b else Z.testbit n (Z.pred i).
Proof.
  intros Hi. unfold widen_word. destruct (Z.eqb_spec i 0) as [->|Hz].
  - destruct b; rewrite ?Z.add_0_r, ?Z.testbit_odd_0, ?Z.testbit_even_0; done.
  - replace i with (Z.succ (Z.pred i)) at 1 by lia.
    destruct b; rewrite ?Z.add_0_r, ?Z.testbit_odd_succ, ?Z.testbit_even_succ by lia; done.
Qed.

Lemma publish_word n b b' : widen_word_publish b' (widen_word n b) = widen_word n b'.
Proof.
  apply Z.bits_inj'. intros i Hi. rewrite widen_word_bit by done.
  unfold widen_word_publish, mask_clear, WIDEN_PERMITTED_BIT.
  destruct b'; rewrite ?Z.lor_spec, ?Z.ldiff_spec, widen_word_bit by done;
    (destruct (Z.eqb_spec i 0) as [->|Hz]; [by destruct b|]).
  - replace i with (Z.succ (Z.pred i)) at 2 by lia. rewrite one_testbit by lia. apply orb_false_r.
  - replace i with (Z.succ (Z.pred i)) at 2 by lia. rewrite one_testbit by lia. apply andb_true_r.
Qed.

Lemma note_word n b : 0 <= n < 2 ^ 30 -> widen_word_note_805 (widen_word n b) = widen_word (n + 1) b.
Proof. unfold widen_word_note_805, widen_word, WIDEN_PENDING_805. intros H. destruct b; rewrite Z.mod_small; lia. Qed.

Lemma settle_word n b : 0 <= n < 2 ^ 30 -> widen_word_settle_805 (widen_word (n + 1) b) = widen_word n b.
Proof. unfold widen_word_settle_805, widen_word, WIDEN_PENDING_805. intros H. destruct b; rewrite Z.mod_small; lia. Qed.

Lemma step_widen b step st :
  widen_state (overflow_episode_step b step st) =
  let w := widen_word_publish (widen_permitted (main_ep (snd (step (episodes st))))) (widen_state st) in
  if b then widen_word_settle_805 w else w.
Proof.
  unfold overflow_episode_step. destruct (step (episodes st)) as [f eps]. rewrite !apply_effect_widen.
  destruct b; by case_match.
Qed.

(** The word says what it should. *)
Definition widen_ok (n : Z) (st : OverflowState) : Prop :=
  widen_state st = widen_word n (widen_permitted (main_ep (episodes st))).

Lemma plain_step_widen n step st : widen_ok n st -> widen_ok n (overflow_episode_step false step st).
Proof. unfold widen_ok. intros H. by rewrite step_widen, step_episodes, H, publish_word. Qed.

Lemma settle_step_widen n step st : 0 <= n < 2 ^ 30 -> widen_ok (n + 1) st -> widen_ok n (overflow_episode_step true step st).
Proof. unfold widen_ok. intros Hn H. cbn zeta. rewrite step_widen, step_episodes, H, publish_word. by apply settle_word. Qed.

Lemma note_widen n st : 0 <= n < 2 ^ 30 -> widen_ok n st -> widen_ok (n + 1) (note_805 st).
Proof. unfold widen_ok, note_805. cbn. intros Hn ->. by apply note_word. Qed.

Lemma call_widen n c st : 0 <= n < 2 ^ 30 -> 0 <= n + pending_delta c < 2 ^ 30 -> widen_ok n st -> widen_ok (n + pending_delta c) (overflow_call c st).
Proof.
  intros Hn Hn' H. destruct c; cbn [pending_delta overflow_call]; rewrite ?Z.add_0_r; try done.
  - destruct c; cbn [tell_overflow]; try done.
    + unfold widen_ok in *. rewrite stamp_episodes. unfold stamp_dial_attempt. by case_match.
    + unfold widen_ok in *. by rewrite dial_failed_episodes, dial_failed_widen.
    + unfold overflow_episode_note_dial_succeeded. case_match; [done|by apply plain_step_widen].
    + unfold overflow_episode_note_watched_torn_down. case_match; [done|by apply plain_step_widen].
    + unfold overflow_episode_note_first_frame. by case_match.
    + unfold overflow_episode_note_disconnect. destruct (overflow_close_route _ _); [| | |done].
      * apply settle_step_widen; [done|]. by apply note_widen.
      * unfold dial_stamp_ms. by apply plain_step_widen.
      * by apply plain_step_widen.
    + unfold overflow_episode_note_self_redial. case_match; [done|by apply plain_step_widen].
    + unfold overflow_episode_note_watched_redialling. case_match; [done|by apply plain_step_widen].
    + unfold overflow_episode_note_left. case_match; [done|by apply plain_step_widen].
  - by apply note_widen.
  - cbn in Hn'. apply settle_step_widen; [lia|]. by replace (n + -1 + 1) with n by lia.
  - by apply plain_step_widen.
  - by apply plain_step_widen.
Qed.

Lemma noted_first_pending calls : noted_first calls -> 0 <= pending_805 calls < 2 ^ 30.
Proof. destruct calls; [cbn; lia|]. by intros [H _]. Qed.

Lemma after_calls_widen calls : noted_first calls -> widen_ok (pending_805 calls) (after_calls calls).
Proof.
  induction calls as [|c calls IH]; [done|]. intros [Hn Hc]. cbn [pending_805].
  apply call_widen; [by apply noted_first_pending|done|auto].
Qed.
(** ** Quiet until the first 805 *)

Lemma fail_not_quiet o now e : oe_phase (snd (fail o now e)) <> Quiet.
Proof. unfold fail. cbv zeta. case_match; [done|]. by destruct (slot_bit _). Qed.

Lemma poll_body_quiet k now open e : ep_ok k e -> (oe_phase (snd (poll_body now open e)) = Quiet <-> oe_phase e = Quiet).
Proof.
  intros Hk. unfold poll_body.
  assert (Hw : oe_phase (snd (poll_window now open e)) <> Quiet \/ oe_phase (snd (poll_window now open e)) = oe_phase e).
  { destruct (poll_window_spec now open e) as [|r o -> _ _ _ _ _ _|]; [by right|left; apply fail_not_quiet|left; apply pass_window_paced]. }
  destruct (oe_phase e) eqn:Ep; cbn [snd]; try (by rewrite Ep).
  - destruct (poll_waiting_spec k now open e Hk Ep); cbn [snd]; [by rewrite Ep|cbn; by rewrite Ep|done|].
    split; congruence.
  - split; [destruct Hw; congruence|done].
  - destruct (release_next_paced now open e Ep (eo_release _ _ Hk Ep)) as (_ & _ & Hq & _). split; [done|done].
  - split; [destruct Hw; congruence|done].
Qed.

Lemma event_quiet k ev e : ep_ok k e -> (forall t, ev <> EvOverflow t) ->
  (oe_phase (snd (ep_event ev e)) = Quiet <-> oe_phase e = Quiet).
Proof.
  intros Hk Hn. destruct (shape_event ev) eqn:Es.
  - assert (Hk2 : shape_kept e (snd (ep_event ev e)) \/ exists now, kept_or_failed now e (ep_event ev e)).
    { destruct (shape_event_kept ev e Es) as [|(now & _ & ?)]; eauto. }
    destruct Hk2 as [(_ & -> & _)|(now & [(_ & -> & _)|(o & e1 & _ & Hw & (_ & -> & _))])]; [done|done|].
    pose proof (fail_not_quiet o now e1). split; [done|]. intros Hq. unfold watched in Hw. rewrite Hq in Hw. by destruct Hw.
  - destruct ev; try done; cbn [ep_event]; unfold quietly; cbn [snd].
    + unfold ep_on_parked. set (e1 := match slot_bit slot with Some b => _ | None => e end).
      destruct (clear_reparking_fields slot e1) as (m & u & ->).
      assert (Ep : oe_phase e1 = oe_phase e) by (unfold e1; by destruct (slot_bit slot)). rewrite <- Ep.
      case_match eqn:E; [|done]. apply andb_true_iff in E as [Er%bool_decide_eq_true _]. cbn in Er. cbn. rewrite Er. done.
    + by destruct (Hn now).
    + rewrite ep_poll_body. pose proof (expire_reparking_shape now e) as Hx.
      rewrite (poll_body_quiet k) by (by eapply shape_kept_ok). destruct Hx as (_ & -> & _). done.
Qed.

Lemma overflow_not_quiet now e : oe_phase (snd (ep_on_overflow now e)) <> Quiet.
Proof. unfold ep_on_overflow. destruct (oe_phase e) eqn:Ep; try done; try apply fail_not_quiet; try (by case_match). cbn. congruence. Qed.

(** A call that applies an 805, or one that leaves the main episode as quiet as it was. *)
Definition applies_805 (c : OverflowCall) : bool :=
  match c with Applied805 _ => true | Noted805 => false | c => is_805 c end.

Ltac not_here :=
  match goal with H : _ ∈ _ |- False => repeat (apply elem_of_cons in H as [?|H]; [done|]); by inversion H end.

Lemma call_quiet c st : call_ok c -> eps_ok (episodes st) ->
  if applies_805 c then oe_phase (main_ep (episodes (overflow_call c st))) <> Quiet
  else (oe_phase (main_ep (episodes (overflow_call c st))) = Quiet <-> oe_phase (main_ep (episodes st)) = Quiet).
Proof.
  intros Hc H. rewrite call_is_events. cbn [feed_events main_ep].
  destruct (applies_805 c) eqn:Ea.
  - destruct c; try done; [|apply overflow_not_quiet].
    destruct c; try done. cbn in Ea. cbn [call_events report_events]. unfold overflow_close_route.
    destruct (classify_disconnect code); try done. apply overflow_not_quiet.
  - assert (Hno : forall t, EvOverflow t ∉ call_events KindMainFeed c st).
    { intros t Hin. destruct c; cbn [call_events] in Hin; try not_here.
      - destruct c; cbn [report_events] in Hin; cbn in Ea; unfold overflow_close_route in Hin; repeat case_match; try done; not_here.
      - case_decide; not_here.
      - unfold main_poll_events, first_frame_events in Hin. repeat case_match; not_here. }
    pose proof (call_events_ok KindMainFeed c st Hc H) as Hev. pose proof (proj1 H) as Hk.
    revert Hev Hno. generalize (call_events KindMainFeed c st). intros evs Hev Hno.
    induction Hev as [|ev evs Hev Hevs IH]; [done|].
    change (run_events (ev :: evs) ?e) with (snd (ep_event ev (run_events evs e))).
    rewrite (event_quiet KindMainFeed).
    + apply IH. intros t Hin. apply (Hno t). by right.
    + by apply run_ok.
    + intros t ->. apply (Hno t). by left.
Qed.

Lemma pending_saw calls : noted_first calls -> 0 < pending_805 calls -> saw_805 calls = true.
Proof.
  induction calls as [|c calls IH]; [cbn; lia|]. intros [_ Hc] Hp. cbn. apply orb_true_iff.
  destruct c; cbn in Hp |- *; [right; apply IH; [done|lia]|by left|..]; right; (apply IH; [done|lia]).
Qed.

Lemma calls_quiet calls : Forall call_ok calls -> noted_first calls ->
  if saw_805 calls then 0 < pending_805 calls \/ oe_phase (main_ep (episodes (after_calls calls))) <> Quiet
  else oe_phase (main_ep (episodes (after_calls calls))) = Quiet.
Proof.
  induction 1 as [|c calls Hc Hcs IH]; [done|]. intros [Hn Hf]. specialize (IH Hf).
  pose proof (call_quiet c _ Hc (after_calls_ok calls Hcs)) as Hq.
  change (after_calls (c :: calls)) with (overflow_call c (after_calls calls)).
  pose proof (pending_saw calls Hf) as Hps. pose proof (noted_first_pending calls Hf) as Hpos.
  change (saw_805 (c :: calls)) with (is_805 c || saw_805 calls). cbn [pending_805] in *.
  destruct (applies_805 c) eqn:Ea.
  - assert (is_805 c || saw_805 calls = true) as ->; [|by right].
    destruct c; cbn in Ea |- *; try done; [by rewrite Ea|]. cbn in Hn. apply Hps. lia.
  - destruct (is_805 c) eqn:E8; cbn [orb].
    + destruct c; try done; [cbn in Ea, E8; congruence|]. left. cbn. lia.
    + assert (pending_delta c = 0) as -> by (by destruct c). rewrite Z.add_0_r.
      destruct (saw_805 calls); [destruct IH as [|IH]; [by left|right; by rewrite Hq]|by rewrite Hq].
Qed.

(** ** Windows lost

    A window is lost when it is over and no pass is reported of it. *)

Definition is_pass (f : OverflowEpisodeEffect) : bool :=
  bool_decide (fst (outcomes f) = Some ProbePassed) || bool_decide (fst (outcomes f) = Some ReleasePassed).

Fixpoint lost_since_pass (k : OverflowEpisodeKind) (h : list EpisodeEvent) : Prop :=
  match h with
  | [] => False
  | ev :: r =>
      let '(f, e') := ep_event ev (ep_after k r) in
      is_pass f = false /\ ((is_Some (watched (ep_after k r)) /\ watched e' = None) \/ lost_since_pass k r)
  end.

(** A step of an episode marks the window it loses, and only a pass unmarks it. *)
Definition marks_losses (e : OverflowEpisode) (r : OverflowEpisodeEffect * OverflowEpisode) : Prop :=
  is_pass (fst r) = true \/
  ((failed_since_pass e = true -> failed_since_pass (snd r) = true) /\
   (is_Some (watched e) -> watched (snd r) = None -> failed_since_pass (snd r) = true)).

Lemma marks_kept e r : shape_kept e (snd r) -> marks_losses e r.
Proof.
  intros H. right. rewrite (shape_kept_watched _ _ H). destruct H as (_ & _ & _ & _ & _ & _ & _ & ->).
  split; [done|]. intros Hw Hn. rewrite Hn in Hw. by destruct Hw.
Qed.

Lemma fail_marked o now e : failed_since_pass (snd (fail o now e)) = true.
Proof. unfold fail. cbv zeta. case_match; [done|]. by destruct (slot_bit _). Qed.

Lemma marks_failed e r : failed_since_pass (snd r) = true -> marks_losses e r.
Proof. by right. Qed.

Lemma marks_unwatched e r : watched e = None -> (failed_since_pass e = true -> failed_since_pass (snd r) = true) ->
  marks_losses e r.
Proof. intros Hn Hf. right. split; [done|]. rewrite Hn. by intros [? [=]]. Qed.

Lemma poll_marks k now open e : ep_ok k e -> marks_losses e (ep_poll now open e).
Proof.
  intros Hk. rewrite ep_poll_body. pose proof (expire_reparking_shape now e) as Hx.
  enough (H : marks_losses (expire_reparking now e) (poll_body now open (expire_reparking now e))).
  { unfold marks_losses in *. rewrite (shape_kept_watched _ _ Hx) in H. by destruct Hx as (_ & _ & _ & _ & _ & _ & _ & <-). }
  apply (shape_kept_ok _ _ _ Hx) in Hk. revert Hk. generalize (expire_reparking now e). clear. intros e Hk.
  assert (Hw : marks_losses e (poll_window now open e) \/ watched e = None).
  { destruct (watched e) as [s|] eqn:Ew; [left|by right].
    destruct (poll_window_spec now open e) as [|r o Hr _ _ _ _ _ _|].
    - apply marks_kept, shape_kept_refl.
    - apply marks_failed. rewrite Hr. apply fail_marked.
    - left. pose proof (pass_window_spec k now open e Hk ltac:(by rewrite Ew)) as Hp. destruct (pass_window now open e) as [f e'].
      destruct Hp as (_ & Hp & _). unfold is_pass. cbn [fst]. rewrite Hp. by destruct (decide _). }
  unfold poll_body. unfold watched in Hw. destruct (oe_phase e) eqn:Ep; try (apply marks_kept, shape_kept_refl);
    try (destruct Hw; done).
  - apply marks_unwatched; [unfold watched; by rewrite Ep|]. intros Hf.
    destruct (poll_waiting_spec k now open e Hk Ep) as [| |Hf' _|s d since e' _ _ _ _ _ _ _ Hf' _ _ _]; cbn; congruence.
  - apply marks_unwatched; [unfold watched; by rewrite Ep|]. rewrite (eo_failed _ _ Hk); [done|by rewrite Ep].
Qed.

Lemma event_marks k ev e : ep_ok k e -> marks_losses e (ep_event ev e).
Proof.
  intros Hk. destruct (shape_event ev) eqn:Es.
  - destruct (shape_event_kept ev e Es) as [H|(now & _ & [H|(o & e1 & _ & _ & H)])]; [by apply marks_kept..|].
    apply marks_failed. destruct H as (_ & _ & _ & _ & _ & _ & _ & ->). apply fail_marked.
  - destruct ev; try done; cbn [ep_event]; unfold quietly.
    + assert (Hf : failed_since_pass (ep_on_parked slot e) = failed_since_pass e).
      { unfold ep_on_parked. set (e1 := match slot_bit slot with Some b => _ | None => e end).
        assert (E1 : failed_since_pass e1 = failed_since_pass e) by (unfold e1; by destruct (slot_bit slot)). rewrite <- E1.
        destruct (clear_reparking_fields slot e1) as (m & u & ->). by case_match. }
      right. cbn [snd]. rewrite parked_watched, Hf. split; [done|]. intros Hw Hn. rewrite Hn in Hw. by destruct Hw.
    + unfold ep_on_overflow. destruct (oe_phase e) eqn:Ep; try (apply marks_failed, fail_marked);
        try (case_match); (apply marks_unwatched; [unfold watched; by rewrite Ep|done]).
    + by apply (poll_marks k).
Qed.

Lemma lost_marked k h : Forall event_ok h -> lost_since_pass k h -> failed_since_pass (ep_after k h) = true.
Proof.
  induction 1 as [|ev h Hev Hh IH]; [done|]. cbn [lost_since_pass].
  pose proof (event_marks k ev _ (ep_after_ok k h Hh)) as Hm.
  change (ep_after k (ev :: h)) with (snd (ep_event ev (ep_after k h))).
  destruct (ep_event ev (ep_after k h)) as [f e']. cbn [snd fst] in *. intros [Hp Hl].
  destruct Hm as [Hm|[Hkeep Hlose]]; cbn [fst snd] in *; [congruence|]. destruct Hl as [[Hw Hn]|Hl]; auto.
Qed.

Lemma history_ok k calls : Forall call_ok calls -> Forall event_ok (history k calls).
Proof.
  induction 1 as [|c calls Hc Hcs IH]; [done|]. cbn [history]. apply Forall_app. split; [|done].
  apply call_events_ok; [done|by apply after_calls_ok].
Qed.

Module Turns.
(** C15: Whatever the reports, parks, 805s and polls of the process and their
    interleaving, at most one of the two recoveries has a window running; the main
    feed grants only inside the session, to a slot that had parked, with no depth
    window running; depth grants only while the main feed does not hold the turn;
    and one poll never grants for both. *)
Theorem one_window_at_a_time calls : Forall call_ok calls ->
  let eps := episodes (after_calls calls) in
  (watched (main_ep eps) = None \/ watched (depth_ep eps) = None) /\
  forall now open,
    let '(f, eps') := poll_episodes now open eps in
    (forall s, ef_grant (main_effect f) = Some s ->
      open = true /\ Z.testbit (parked_mask (main_ep eps)) s = true /\
      watched (depth_ep eps) = None /\ ef_grant (depth_effect f) = None) /\
    (forall s, ef_grant (depth_effect f) = Some s ->
      open = true /\ Z.testbit (parked_mask (depth_ep eps)) s = true /\
      holds_turn (main_ep eps') = false).
Proof.
  intros Hc eps. destruct (after_calls_ok calls Hc) as (Hm & Hd & Hone). fold eps in Hm, Hd, Hone.
  split; [exact Hone|]. intros now open. unfold poll_episodes.
  pose proof (fun s => poll_grant _ now (open && bool_decide (watched (depth_ep eps) = None)) _ s Hm) as Pm.
  destruct (ep_poll _ _ (main_ep eps)) as [m me] eqn:Em. cbn [fst snd] in Pm.
  pose proof (fun s => poll_grant _ now (open && negb (holds_turn me)) _ s Hd) as Pd.
  destruct (ep_poll _ _ (depth_ep eps)) as [d de] eqn:Ed. cbn [fst snd main_effect depth_effect main_ep depth_ep] in *.
  split.
  - intros s Hg. destruct (Pm s Hg) as ([-> Hn%bool_decide_eq_true]%andb_true_iff & Hp & Hw).
    split; [done|]. split; [done|]. split; [done|]. destruct (ef_grant d) as [s'|] eqn:Eg; [|done].
    destruct (Pd s' eq_refl) as ([_ Ht%negb_true_iff]%andb_true_iff & _).
    rewrite holds_turn_watched in Ht by (by rewrite Hw). done.
  - intros s Hg. destruct (Pd s Hg) as ([-> Ht%negb_true_iff]%andb_true_iff & Hp & _). done.
Qed.

(** C14: Whatever the interleaving of the calls, an 805 between its note and
    the lock included, the main feed may open new connections exactly when no
    noted 805 is still to be applied and either no 805 was ever seen or the main
    feed's recovery is complete; and then no window of the main feed has been
    lost, over without a pass reported of it, since its last pass. *)
Theorem widening_waits_for_the_recovery calls : Forall call_ok calls -> noted_first calls ->
  let st := after_calls calls in
  (main_feed_overflow_widen_permitted st = true <->
     pending_805 calls = 0 /\ (saw_805 calls = false \/ oe_phase (main_ep (episodes st)) = Recovered)) /\
  (main_feed_overflow_widen_permitted st = true -> ~ lost_since_pass KindMainFeed (history KindMainFeed calls)).
Proof.
  intros Hc Hn st. pose proof (after_calls_widen calls Hn) as Hw. pose proof (noted_first_pending calls Hn) as Hp.
  pose proof (calls_quiet calls Hc Hn) as Hq. destruct (after_calls_ok calls Hc) as (Hm & _).
  fold st in Hw, Hq, Hm. unfold main_feed_overflow_widen_permitted, widen_word_permits. rewrite Hw.
  unfold widen_word, WIDEN_PERMITTED_BIT, widen_permitted.
  assert (Hf : unfailed_phase (oe_phase (main_ep (episodes st))) = true -> ~ lost_since_pass KindMainFeed (history KindMainFeed calls)).
  { intros Hu%(eo_failed _ _ Hm) Hl%lost_marked; [|by apply history_ok]. unfold st in Hu. rewrite calls_are_histories in Hu.
    cbn [main_ep] in Hu. congruence. }
  pose proof (pending_saw calls Hn) as Hs.
  destruct (oe_phase (main_ep (episodes st))) eqn:Ep; rewrite Z.eqb_eq;
    destruct (saw_805 calls) eqn:Es; try done; split; naive_solver lia.
Qed.

(** Both pools parked by one 805, and the first poll after the wait. *)
Definition parked_calls : list OverflowCall :=
  [Polled (secs 300) true; ParkedFor Depth20 9; ParkedFor MainFeed 1; Applied805 0; Noted805].

Lemma parked_calls_ok : Forall call_ok parked_calls.
Proof. slots_ok. Qed.

Lemma one_window_at_a_time_witness :
  watched (main_ep (episodes (after_calls parked_calls))) = Some 1 /\
  watched (depth_ep (episodes (after_calls parked_calls))) = None.
Proof.
  destruct (one_window_at_a_time parked_calls parked_calls_ok) as [[H|H] _].
  - exfalso. vm_compute in H. discriminate.
  - split; [vm_compute; reflexivity|exact H].
Defined.

Lemma widening_waits_for_the_recovery_witness :
  main_feed_overflow_widen_permitted (after_calls parked_calls) = false.
Proof.
  destruct (widening_waits_for_the_recovery parked_calls parked_calls_ok) as [H _]; [vm_compute; repeat split; discriminate|].
  apply not_true_is_false. intros Hp. apply H in Hp as [_ [Hp|Hp]]; vm_compute in Hp; discriminate.
Defined.
End Turns.
