(* ===== verification/Crc32.v ===== *)
(** The CRC-32 of the write-ahead log's side files
    ([storage/src/wal_applied_watermark.rs]): the table-driven IEEE 802.3 sum. *)
From S2P Require Import Prelude Bytes.
Local Open Scope Z_scope.

(** One entry of the table: eight shifts of the reflected polynomial. *)
Fixpoint crc_shift (n : nat) (c : Z) : Z :=
  match n with
  | O => c
  | S n => crc_shift n (if Z.odd c then Z.lxor 3988292384 (Z.shiftr c 1) else Z.shiftr c 1)
  end.

Definition CRC32_TABLE : list Z := crc_shift 8 <$> seqZ 0 256.

Definition crc_step (c b : Z) : Z :=
  Z.lxor (nth (Z.to_nat (Z.land (Z.lxor c b) 255)) CRC32_TABLE 0) (Z.shiftr c 8).

Definition crc32_ieee (bytes : list byte) : Z :=
  Z.lxor (foldl (fun c b => crc_step c (byte_val b)) u32_max bytes) u32_max.

Example crc_check : crc32_ieee (bytes_of [49; 50; 51; 52; 53; 54; 55; 56; 57]) = 3421780262.
Proof. by vm_compute. Qed.

(** * What the sum detects *)

Definition word (c : Z) : Prop := 0 <= c < 4294967296.

Lemma word_shift c : word c <-> 0 <= c /\ Z.shiftr c 32 = 0.
Proof.
  unfold word. rewrite Z.shiftr_div_pow2 by lia. change (2 ^ 32) with 4294967296. split; intros [? H]; (split; [done|]).
  - by apply Z.div_small.
  - pose proof (Z.div_mod c 4294967296). pose proof (Z.mod_pos_bound c 4294967296). lia.
Qed.

Lemma word_lxor a b : word a -> word b -> word (Z.lxor a b).
Proof.
  rewrite !word_shift. intros [? Ha] [? Hb]. split; [by apply Z.lxor_nonneg|]. by rewrite Z.shiftr_lxor, Ha, Hb.
Qed.

(** The tops of the table's entries are the 256 bytes, each once. *)
Lemma table_words : Forall word CRC32_TABLE.
Proof. apply (bool_decide_unpack _). by vm_compute. Qed.
Lemma table_tops : NoDup ((fun t => Z.shiftr t 24) <$> CRC32_TABLE).
Proof. apply (bool_decide_unpack _). by vm_compute. Qed.

Definition slot_of_step (c b : Z) : nat := Z.to_nat (Z.land (Z.lxor c b) 255).

Lemma low_byte x : Z.land x 255 = x mod 256.
Proof. change 255 with (Z.ones 8). by rewrite Z.land_ones by lia. Qed.

Lemma slot_lookup c b : exists t, CRC32_TABLE !! slot_of_step c b = Some t /\
  nth (slot_of_step c b) CRC32_TABLE 0 = t /\ word t.
Proof.
  assert (H : (slot_of_step c b < length CRC32_TABLE)%nat).
  { change (length CRC32_TABLE) with 256%nat. unfold slot_of_step. rewrite low_byte.
    pose proof (Z.mod_pos_bound (Z.lxor c b) 256). lia. }
  destruct (lookup_lt_is_Some_2 _ _ H) as [t Ht]. exists t. split; [done|]. split.
  - by apply nth_lookup_Some.
  - pose proof table_words as Hw. rewrite Forall_lookup in Hw. by apply (Hw _ _ Ht).
Qed.

Lemma crc_step_word c b : word c -> word (crc_step c b).
Proof.
  intros H. unfold crc_step. destruct (slot_lookup c b) as (t & _ & E & Ht). unfold slot_of_step in E. rewrite E.
  apply word_lxor; [done|]. apply word_shift. apply word_shift in H as [? H].
  split; [by apply Z.shiftr_nonneg|]. rewrite Z.shiftr_shiftr by lia.
  rewrite (Z.shiftr_div_pow2 c) in * by lia. change (2 ^ (8 + 32)) with (4294967296 * 256).
  change (2 ^ 32) with 4294967296 in H. by rewrite <- Z.div_div, H by lia.
Qed.

(** The top byte of a step names the table slot it used. *)
Lemma step_slot c c' b b' : word c -> word c' -> crc_step c b = crc_step c' b' ->
  slot_of_step c b = slot_of_step c' b' /\ Z.shiftr c 8 = Z.shiftr c' 8.
Proof.
  intros H H' E. unfold crc_step in E.
  destruct (slot_lookup c b) as (t & Ht & Et & _), (slot_lookup c' b') as (t' & Ht' & Et' & _).
  unfold slot_of_step in Et, Et'. rewrite Et, Et' in E.
  assert (Htop : Z.shiftr t 24 = Z.shiftr t' 24).
  { assert (Hs : forall x, word x -> Z.shiftr (Z.shiftr x 8) 24 = 0).
    { intros x Hx. rewrite Z.shiftr_shiftr by lia. by apply word_shift in Hx as [_ ?]. }
    apply (f_equal (fun x => Z.shiftr x 24)) in E. by rewrite !Z.shiftr_lxor, !Hs, !Z.lxor_0_r in E. }
  assert (Hslot : slot_of_step c b = slot_of_step c' b').
  { apply (NoDup_lookup _ _ _ (Z.shiftr t 24) table_tops); rewrite list_lookup_fmap; [by rewrite Ht|].
    rewrite Ht'. cbn. by rewrite Htop. }
  split; [done|]. rewrite Hslot in Ht. assert (t = t') as -> by congruence.
  apply (f_equal (Z.lxor t')) in E. by rewrite <- !Z.lxor_assoc, !Z.lxor_nilpotent, !Z.lxor_0_l in E.
Qed.

Lemma land_lxor a b m : Z.land (Z.lxor a b) m = Z.lxor (Z.land a m) (Z.land b m).
Proof.
  apply Z.bits_inj'. intros n Hn. rewrite ?Z.land_spec, ?Z.lxor_spec, ?Z.land_spec.
  by destruct (Z.testbit a n), (Z.testbit b n), (Z.testbit m n).
Qed.

Lemma slot_eq c c' b b' : slot_of_step c b = slot_of_step c' b' ->
  Z.lxor (c mod 256) (b mod 256) = Z.lxor (c' mod 256) (b' mod 256).
Proof.
  unfold slot_of_step. rewrite !low_byte. intros E.
  pose proof (Z.mod_pos_bound (Z.lxor c b) 256). pose proof (Z.mod_pos_bound (Z.lxor c' b') 256).
  assert (E2 : Z.lxor c b mod 256 = Z.lxor c' b' mod 256) by lia.
  rewrite <- (low_byte (Z.lxor c b)), <- (low_byte (Z.lxor c' b')), !land_lxor in E2.
  by rewrite <- (low_byte c), <- (low_byte b), <- (low_byte c'), <- (low_byte b').
Qed.

Lemma crc_step_inj c c' b : word c -> word c' -> crc_step c b = crc_step c' b -> c = c'.
Proof.
  intros H H' E. destruct (step_slot _ _ _ _ H H' E) as [Es%slot_eq Eh].
  assert (El : c mod 256 = c' mod 256).
  { apply (f_equal (fun x => Z.lxor x (b mod 256))) in Es. by rewrite !Z.lxor_assoc, Z.lxor_nilpotent, !Z.lxor_0_r in Es. }
  rewrite !Z.shiftr_div_pow2 in Eh by lia. change (2 ^ 8) with 256 in Eh.
  rewrite (Z.div_mod c 256), (Z.div_mod c' 256) by lia. congruence.
Qed.

Lemma crc_step_byte c b b' : word c -> 0 <= b < 256 -> 0 <= b' < 256 -> crc_step c b = crc_step c b' -> b = b'.
Proof.
  intros H Hb Hb' E. destruct (step_slot _ _ _ _ H H E) as [Es%slot_eq _].
  apply (f_equal (Z.lxor (c mod 256))) in Es. rewrite <- !Z.lxor_assoc, Z.lxor_nilpotent, !Z.lxor_0_l in Es.
  rewrite !Z.mod_small in Es by done. done.
Qed.

Definition crc_fold (c : Z) (bytes : list byte) : Z := foldl (fun c b => crc_step c (byte_val b)) c bytes.

Lemma crc_fold_word c bytes : word c -> word (crc_fold c bytes).
Proof. revert c. induction bytes as [|b bytes IH]; intros c H; [done|]. cbn. by apply IH, crc_step_word. Qed.

Lemma crc_fold_inj bytes c c' : word c -> word c' -> crc_fold c bytes = crc_fold c' bytes -> c = c'.
Proof.
  revert c c'. induction bytes as [|b bytes IH]; intros c c' H H' E; [done|]. cbn in E.
  apply IH in E; [|by apply crc_step_word..]. by apply crc_step_inj in E.
Qed.

Lemma crc_range bytes : word (crc32_ieee bytes).
Proof. apply word_lxor; [by apply crc_fold_word|done]. Qed.

Lemma crc_byte_differs pre b b' post : b <> b' ->
  crc32_ieee (pre ++ b :: post) <> crc32_ieee (pre ++ b' :: post).
Proof.
  intros Hne E. apply Hne. unfold crc32_ieee in E. fold (crc_fold u32_max (pre ++ b :: post)) in E.
  fold (crc_fold u32_max (pre ++ b' :: post)) in E.
  apply (f_equal (fun x => Z.lxor x u32_max)) in E. rewrite !Z.lxor_assoc, Z.lxor_nilpotent, !Z.lxor_0_r in E.
  unfold crc_fold in E. rewrite !foldl_app in E. cbn [foldl] in E. fold (crc_fold u32_max pre) in E.
  set (c := crc_fold u32_max pre) in *. assert (Hc : word c) by (subst c; by apply crc_fold_word).
  apply crc_fold_inj in E; [|by apply crc_step_word..].
  apply crc_step_byte in E; [|done|apply byte_val_range..].
  by rewrite <- (byte_of_val b), <- (byte_of_val b'), E.
Qed.

Lemma changed_byte (bytes : list byte) p x y : bytes !! p = Some x ->
  bytes = take p bytes ++ x :: drop (S p) bytes /\ <[p := y]> bytes = take p bytes ++ y :: drop (S p) bytes.
Proof.
  intros H. split; [by rewrite take_drop_middle|]. apply insert_take_drop. by apply lookup_lt_Some in H.
Qed.

(** A record of [n] bytes and their sum: no byte of either can change alone. *)
Lemma trailing_sum_breaks (b : list byte) n p x y :
  length b = (n + 4)%nat -> crc32_ieee (take n b) = le_field b (Z.of_nat n) 4 ->
  b !! p = Some x -> y <> x ->
  crc32_ieee (take n (<[p := y]> b)) <> le_field (<[p := y]> b) (Z.of_nat n) 4.
Proof.
  intros Hl Hc Hx Hne E. unfold le_field in *. rewrite Nat2Z.id in *. pose proof (lookup_lt_Some _ _ _ Hx) as Hlt.
  destruct (decide (p < n)%nat) as [Hp|Hp].
  - rewrite drop_insert_lt, <- Hc, take_insert_lt in E by done.
    assert (Hx' : take n b !! p = Some x) by (rewrite lookup_take; by rewrite decide_True by lia).
    destruct (changed_byte _ _ _ y Hx') as [E1 E2]. rewrite E2 in E. clear E2.
    set (t := take n b) in *. clearbody t. rewrite E1 in E at 3. by apply crc_byte_differs in E.
  - rewrite take_insert_ge, Hc in E by lia. apply le_decode_inj in E.
    + apply (f_equal (fun l => l !! (p - n)%nat)) in E. rewrite !lookup_take, !lookup_drop, !decide_True in E by lia.
      replace (n + (p - n))%nat with p in E by lia. rewrite list_lookup_insert_eq in E by done. congruence.
    + by rewrite !length_take, !length_drop, length_insert.
Qed.

(** Changing one byte of a message always changes its checksum. *)
Theorem crc_detects_a_changed_byte pre b b' post : b <> b' ->
  crc32_ieee (pre ++ b :: post) <> crc32_ieee (pre ++ b' :: post).
Proof. apply crc_byte_differs. Qed.

Lemma crc_detects_a_changed_byte_witness :
  crc32_ieee (bytes_of [84; 86] ++ byte_of 85 :: bytes_of [82]) <> crc32_ieee (bytes_of [84; 86] ++ byte_of 84 :: bytes_of [82]).
Proof. apply crc_detects_a_changed_byte. vm_compute. discriminate. Defined.
