(* ===== verification/UnappliedRanges.v ===== *)
(** The bounded record of what the write-ahead log has not applied
    ([storage/src/wal_unapplied_ranges.rs]): at most 32 disjoint inclusive ranges
    of sequence numbers, their merging, trimming and clipping, and the side file
    they are kept in. *)
From S2P Require Import Prelude Bytes Crc32.
Local Open Scope Z_scope.

Definition UNAPPLIED_RANGE_SLOTS : Z := 32.
Definition REPLAY_REORDER_SLACK_SEQ : Z := 1000000000.

Abbreviation span := (Z * Z)%type.

(** The used slots; the source's array is zero past them. *)
Definition UnappliedRanges : Type := list span.

Definition no_ranges : UnappliedRanges := [].

(** [partition_point] over spans sorted and apart is the first whose end
    reaches [lo]. *)
Fixpoint spans_intersect (spans : list span) (lo hi : Z) : bool :=
  match spans with
  | [] => false
  | (a, b) :: spans => if b <? lo then spans_intersect spans lo hi else a <=? hi
  end.

(** The loop of [add_range_avoiding]: ranges that overlap or touch the new one
    grow it, the others are kept around it. *)
Fixpoint add_loop (l merged : list span) (new_lo new_hi : Z) (placed : bool) : list span :=
  match l with
  | [] => if placed then merged else merged ++ [(new_lo, new_hi)]
  | (a, b) :: l =>
      if u64_saturating_add b 1 <? new_lo then add_loop l (merged ++ [(a, b)]) new_lo new_hi placed
      else if u64_saturating_add new_hi 1 <? a then
        add_loop l ((if placed then merged else merged ++ [(new_lo, new_hi)]) ++ [(a, b)]) new_lo new_hi true
      else add_loop l merged (Z.min new_lo a) (Z.max new_hi b) placed
  end.

(** The lowest gap no span lies in; the lowest pair when every gap holds one. *)
Fixpoint free_gap (i : nat) (l spans : list span) : option nat :=
  match l with
  | (_, b) :: ((a', _) :: _) as rest =>
      if spans_intersect spans (b + 1) (a' - 1) then free_gap (S i) rest spans else Some i
  | _ => None
  end.

Definition close_gap (i : nat) (l : list span) : list span :=
  match l !! i, l !! S i with
  | Some (a, _), Some (_, b) => take i l ++ [(a, b)] ++ drop (S (S i)) l
  | _, _ => l
  end.

Definition covered_by (lo hi : Z) (l : UnappliedRanges) : bool :=
  existsb (fun r => (r.1 <=? lo) && (hi <=? r.2)) l.

Definition add_range_avoiding (lo hi : Z) (spans : list span) (r : UnappliedRanges) : bool * UnappliedRanges :=
  let lo := Z.max lo 1 in
  if hi <? lo then (false, r) else
  if covered_by lo hi r then (false, r) else
  let merged := add_loop r [] lo hi false in
  (true, if UNAPPLIED_RANGE_SLOTS <? zlen merged
         then close_gap (default 0%nat (free_gap 0 merged spans)) merged else merged).

Definition add_range (lo hi : Z) (r : UnappliedRanges) : bool * UnappliedRanges := add_range_avoiding lo hi [] r.

Definition intersects (lo hi : Z) (r : UnappliedRanges) : bool :=
  (lo <=? hi) && existsb (fun s => (s.1 <=? hi) && (lo <=? s.2)) r.

Definition trim_below (seq : Z) (r : UnappliedRanges) : bool * UnappliedRanges :=
  (existsb (fun s => s.1 <? seq) r,
   omap (fun s => if s.2 <? seq then None else if s.1 <? seq then Some (seq, s.2) else Some s) r).

Definition cut (lo hi : Z) (s : span) : list span :=
  if (s.2 <? lo) || (hi <? s.1) then [s]
  else (if s.1 <? lo then [(s.1, lo - 1)] else []) ++ (if hi <? s.2 then [(hi + 1, s.2)] else []).

(** [None] and nothing changed when the cut would need a slot too many. *)
Definition remove_span (lo hi : Z) (r : UnappliedRanges) : option bool * UnappliedRanges :=
  if hi <? lo then (Some false, r) else
  let out := r ≫= cut lo hi in
  if UNAPPLIED_RANGE_SLOTS <? zlen out then (None, r)
  else (Some (existsb (fun s => negb ((s.2 <? lo) || (hi <? s.1))) r), out).

Definition covers (r other : UnappliedRanges) : bool :=
  forallb (fun s => covered_by s.1 s.2 r) other.

(** The inner loop of [clip_to] for one range, over the spans not yet behind it. *)
Fixpoint clip_one (a b : Z) (l spans : list span) (out : UnappliedRanges) : UnappliedRanges :=
  match l with
  | [] => out
  | (s, t) :: l =>
      if b <? s then out else
      let lo := Z.max a s in
      let hi := Z.min b t in
      clip_one a b l spans (if lo <=? hi then (add_range_avoiding lo hi spans out).2 else out)
  end.

Fixpoint skip_spans (a : Z) (l : list span) : list span :=
  match l with
  | (_, t) :: rest => if t <? a then skip_spans a rest else l
  | [] => []
  end.

Fixpoint clip_loop (r : UnappliedRanges) (ahead spans : list span) (out : UnappliedRanges) : UnappliedRanges :=
  match r with
  | [] => out
  | (a, b) :: r =>
      let ahead := skip_spans a ahead in
      clip_loop r ahead spans (clip_one a b ahead spans out)
  end.

Definition clip_to (spans : list span) (r : UnappliedRanges) : bool * UnappliedRanges :=
  let out := clip_loop r spans spans [] in
  (negb (bool_decide (out = r)), out).

(** The spans of the waiting segments, sorted by start, merged. *)
Definition merge_span (merged : list span) (s : span) : list span :=
  match last merged with
  | Some prev => if s.1 <=? u64_saturating_add prev.2 1
                 then removelast merged ++ [(prev.1, Z.max prev.2 s.2)] else merged ++ [s]
  | None => [s]
  end.
Definition merge_spans (segments : list span) : list span := foldl merge_span [] segments.

Definition firsts_within_slack_of_running_max (firsts : list Z) : bool :=
  (foldl (fun acc first =>
     (acc.1 && negb (u64_saturating_add first REPLAY_REORDER_SLACK_SEQ <? acc.2), Z.max acc.2 first))
     (true, 0) firsts).1.

(** * Meaning: the sequence numbers covered *)

Fixpoint apart (from : Z) (l : list span) : Prop :=
  match l with
  | [] => True
  | (a, b) :: l => from <= a <= b /\ b <= u64_max /\ apart (b + 2) l
  end.

Definition ranges_ok (r : UnappliedRanges) : Prop := apart 1 r /\ zlen r <= UNAPPLIED_RANGE_SLOTS.

Definition inside (x : Z) (s : span) : Prop := s.1 <= x <= s.2.
Definition within (x : Z) (l : list span) : Prop := Exists (inside x) l.

Lemma within_cons x s l : within x (s :: l) <-> inside x s \/ within x l.
Proof. apply Exists_cons. Qed.
Lemma within_app x l l' : within x (l ++ l') <-> within x l \/ within x l'.
Proof. apply Exists_app. Qed.
Lemma within_nil x : ~ within x [].
Proof. by intros H%Exists_nil. Qed.

Lemma apart_weaken from from' l : from <= from' -> apart from' l -> apart from l.
Proof. destruct l as [|[a b] l]; [done|]. cbn. intros ? (? & ? & ?). split; [lia|done]. Qed.

(** Past the end of a list of ranges. *)
Definition past (from : Z) (l : list span) : Z := foldl (fun _ s => s.2 + 2) from l.

#[local] Arguments past : simpl never.

Lemma past_app from l s : past from (l ++ [s]) = s.2 + 2.
Proof. unfold past. by rewrite foldl_app. Qed.

Lemma past_ge from l : apart from l -> from <= past from l.
Proof.
  revert from. induction l as [|[a b] l IH]; intros from; [done|]. cbn. intros (? & ? & H%IH).
  change (past from ((a, b) :: l)) with (past (b + 2) l). lia.
Qed.

Lemma apart_app from l l' : apart from (l ++ l') <-> apart from l /\ apart (past from l) l'.
Proof.
  revert from. induction l as [|[a b] l IH]; intros from; cbn; [by cbn; tauto|].
  rewrite IH. change (past from ((a, b) :: l)) with (past (b + 2) l). tauto.
Qed.

Section adding.
Implicit Types (l merged : list span) (x : Z).

(** Once placed, the rest follows as it is. *)
Lemma add_loop_placed l merged nlo nhi : 1 <= nlo <= nhi -> nhi <= u64_max -> apart (nhi + 2) l ->
  add_loop l merged nlo nhi true = merged ++ l.
Proof.
  revert merged. induction l as [|[a b] l IH]; intros merged H0 Hu H; cbn; [by rewrite app_nil_r|].
  cbn in H. destruct H as (Ha & Hb & Hl).
  destruct (Z.ltb_spec (u64_saturating_add b 1) nlo); [zints|].
  destruct (Z.ltb_spec (u64_saturating_add nhi 1) a).
  - rewrite IH by first [done | eapply apart_weaken; [|exact Hl]; lia]. by rewrite <- app_assoc.
  - zints.
Qed.

(** The loop keeps the list apart, adds exactly the new range, and at most one
    slot. *)
Lemma add_loop_spec l merged nlo nhi :
  1 <= nlo <= nhi -> nhi <= u64_max -> apart 1 (merged ++ l) -> past 1 merged <= nlo ->
  let out := add_loop l merged nlo nhi false in
  apart 1 out /\ (forall x, within x out <-> within x (merged ++ l) \/ nlo <= x <= nhi) /\
  zlen out <= zlen (merged ++ l) + 1.
Proof.
  revert merged nlo nhi. induction l as [|[a b] l IH]; intros merged nlo nhi Hn Hu Hm Hp; cbv zeta.
  - cbn [add_loop]. rewrite app_nil_r in *. split; [apply apart_app; cbn; split; [done|lia]|]. split.
    + intros x. rewrite within_app, within_cons. unfold inside. cbn.
      split; [intros [?|[?|[]%within_nil]]; auto|intros [?|?]; auto].
    + rewrite zlen_app. done.
  - cbn [add_loop]. pose proof Hm as Hm'. apply apart_app in Hm' as [Hm1 Hm2]. cbn in Hm2. destruct Hm2 as (Ha & Hb & Hl).
    destruct (Z.ltb_spec (u64_saturating_add b 1) nlo) as [H1|H1].
    { replace (merged ++ (a, b) :: l) with ((merged ++ [(a, b)]) ++ l) in * by by rewrite <- app_assoc.
      apply IH; [done..|]. rewrite past_app. cbn. zints. }
    destruct (Z.ltb_spec (u64_saturating_add nhi 1) a) as [H2|H2].
    { assert (Hgap : apart (nhi + 2) ((a, b) :: l)).
      { cbn. split; [zints|]. done. }
      rewrite add_loop_placed by first [done | lia | eapply apart_weaken; [|exact Hl]; zints].
      rewrite <- !app_assoc. cbn [app]. split; [|split].
      - apply apart_app. split; [done|]. cbn. split; [lia|]. split; [done|]. split; [cbn in Hgap; lia|done].
      - intros x. rewrite !within_app, !within_cons. unfold inside. cbn. tauto.
      - rewrite !zlen_app, !zlen_cons. lia. }
    assert (Hmin : past 1 merged <= Z.min nlo a) by lia. pose proof (past_ge 1 merged Hm1).
    destruct (IH merged (Z.min nlo a) (Z.max nhi b)) as (I1 & I2 & I3); [lia|lia| |done|].
    { apply apart_app. split; [done|]. eapply apart_weaken; [|exact Hl]. lia. }
    split; [done|]. split.
    + intros x. rewrite I2, !within_app, within_cons. unfold inside. cbn.
      assert (Z.min nlo a <= x <= Z.max nhi b <-> nlo <= x <= nhi \/ a <= x <= b) by (zints). tauto.
    + rewrite zlen_app in *. rewrite zlen_cons. lia.
Qed.

Lemma close_gap_spec i l s1 s2 : l !! i = Some s1 -> l !! S i = Some s2 -> apart 1 l ->
  apart 1 (close_gap i l) /\ zlen (close_gap i l) = zlen l - 1 /\
  (forall x, within x (close_gap i l) <-> within x l \/ s1.2 + 1 <= x <= s2.1 - 1).
Proof.
  destruct s1 as [a1 b1], s2 as [a2 b2]. intros H1 H2 Hl. unfold close_gap. rewrite H1, H2.
  pose proof (take_drop_middle _ _ _ H1) as E. rewrite (drop_S _ _ _ H2) in E.
  set (p := take i l) in *. set (r := drop (S (S i)) l) in *. clearbody p r. rewrite <- E in Hl |- *. clear E H1 H2.
  apply apart_app in Hl as [Hp Hl]. cbn in Hl. destruct Hl as (? & ? & ? & ? & Hr). split; [|split].
  - apply apart_app. split; [done|]. cbn. split; [lia|]. by split.
  - repeat rewrite ?zlen_app, ?zlen_cons, ?zlen_nil. lia.
  - intros x. cbn [app]. rewrite !within_app, !within_cons. unfold inside. cbn.
    assert (a1 <= x <= b2 <-> a1 <= x <= b1 \/ a2 <= x <= b2 \/ b1 + 1 <= x <= a2 - 1) by lia. tauto.
Qed.

Lemma free_gap_spec k l spans :
  match free_gap k l spans with
  | Some i => exists s1 s2, (k <= i)%nat /\ l !! (i - k)%nat = Some s1 /\ l !! S (i - k)%nat = Some s2 /\
      spans_intersect spans (s1.2 + 1) (s2.1 - 1) = false
  | None => forall i s1 s2, l !! i = Some s1 -> l !! S i = Some s2 ->
      spans_intersect spans (s1.2 + 1) (s2.1 - 1) = true
  end.
Proof.
  revert k. induction l as [|[a b] l IH]; intros k; [done|]. destruct l as [|[a' b'] l].
  { cbn. intros i s1 s2. by destruct i. }
  change (free_gap k ((a, b) :: (a', b') :: l) spans) with
    (if spans_intersect spans (b + 1) (a' - 1) then free_gap (S k) ((a', b') :: l) spans else Some k).
  destruct (spans_intersect spans (b + 1) (a' - 1)) eqn:E.
  - specialize (IH (S k)). destruct (free_gap (S k) ((a', b') :: l) spans) as [i|].
    + destruct IH as (s1 & s2 & Hk & H1 & H2 & H3). exists s1, s2. split; [lia|].
      replace (i - k)%nat with (S (i - S k)) by lia. by cbn.
    + intros [|i] s1 s2 H1 H2; [by simplify_eq/=|]. by apply (IH i).
  - exists (a, b), (a', b'). by rewrite Nat.sub_diag.
Qed.
End adding.

(** Sorted spans that do not touch: what [partition_point] asks for. *)
Lemma spans_intersect_spec spans from lo hi : apart from spans -> lo <= hi ->
  spans_intersect spans lo hi = true <-> exists x, lo <= x <= hi /\ within x spans.
Proof.
  revert from. induction spans as [|[a b] l IH]; intros from H Hlo; cbn.
  { split; [done|]. by intros (x & _ & []%within_nil). }
  destruct H as (? & ? & Hl). destruct (Z.ltb_spec b lo).
  - rewrite (IH _ Hl Hlo). split; intros (x & Hx & Hw); exists x; (split; [done|]).
    + rewrite within_cons. by right.
    + apply within_cons in Hw as [Hw|]; [|done]. unfold inside in Hw. cbn in Hw. lia.
  - rewrite Z.leb_le. split.
    + intros Ha. exists (Z.max a lo). split; [lia|]. rewrite within_cons. left. unfold inside. cbn. lia.
    + intros (x & Hx & [Hw|Hw]%within_cons); [unfold inside in Hw; cbn in Hw; lia|].
      clear -Hl Hw Hx H H1. apply Exists_exists in Hw as ([a' b'] & Hin & Hi). unfold inside in Hi. cbn in Hi.
      enough (b + 2 <= a') by lia. revert Hin Hl. generalize (b + 2) as from'. clear.
      induction l as [|[c d] l IH]; intros f Hin Hl; [by apply elem_of_nil in Hin|]. cbn in Hl.
      destruct Hl as (? & ? & Hl). apply elem_of_cons in Hin as [[= -> ->]|Hin]; [lia|]. specialize (IH _ Hin Hl). lia.
Qed.

(** * The operations *)

Lemma covered_by_within lo hi r x : covered_by lo hi r = true -> lo <= x <= hi -> within x r.
Proof.
  intros H Hx. apply existsb_exists in H as (s & Hs & [H1%Z.leb_le H2%Z.leb_le]%andb_prop).
  apply Exists_exists. exists s. split; [by apply list_elem_of_In|]. unfold inside. lia.
Qed.

(** A maximal stretch between covered numbers. *)
Definition hole (P : Z -> Prop) (g1 g2 : Z) : Prop :=
  g1 <= g2 /\ P (g1 - 1) /\ P (g2 + 1) /\ forall x, g1 <= x <= g2 -> ~ P x.

Definition span_free (spans : list span) (g1 g2 : Z) : Prop := forall x, g1 <= x <= g2 -> ~ within x spans.

Lemma apart_after from l x : apart from l -> within x l -> from <= x <= u64_max.
Proof.
  revert from. induction l as [|[a b] l IH]; intros from; [by intros _ []%within_nil|]. cbn.
  intros (? & ? & Hl) [Hx|Hx]%within_cons; [unfold inside in Hx; cbn in Hx; lia|].
  specialize (IH _ Hl Hx). lia.
Qed.

(** The holes of a list kept apart are the gaps between its neighbours. *)
Lemma hole_gap from l i s1 s2 : apart from l -> l !! i = Some s1 -> l !! S i = Some s2 ->
  hole (fun x => within x l) (s1.2 + 1) (s2.1 - 1).
Proof.
  revert from i. induction l as [|[a b] l IH]; intros from i H H1 H2; [done|]. cbn in H. destruct H as (Ha & Hb & Hl).
  destruct i as [|i]; cbn in H1, H2.
  - injection H1 as <-. destruct l as [|[a' b'] l]; [done|]. injection H2 as <-. cbn in *. split; [lia|]. split; [|split].
    + rewrite within_cons. left. unfold inside. cbn. lia.
    + rewrite within_cons. right. rewrite within_cons. left. unfold inside. cbn. lia.
    + intros x Hx [Hi|[Hi|Hi]%within_cons]%within_cons; unfold inside in *; cbn in *; try lia.
      apply (apart_after (b' + 2)) in Hi; [lia|tauto].
  - destruct (IH _ _ Hl H1 H2) as (G1 & G2 & G3 & G4). split; [done|].
    pose proof (apart_after _ _ _ Hl G2). split; [rewrite within_cons; by right|]. split; [rewrite within_cons; by right|].
    intros x Hx [Hi|Hi]%within_cons; [unfold inside in Hi; cbn in Hi; lia|by apply (G4 x)].
Qed.

Lemma gap_of_hole from l g1 g2 : apart from l -> hole (fun x => within x l) g1 g2 ->
  exists i s1 s2, l !! i = Some s1 /\ l !! S i = Some s2 /\ g1 = s1.2 + 1 /\ g2 = s2.1 - 1.
Proof.
  revert from. induction l as [|[a b] l IH]; intros from H (H0 & H1 & H2 & H3); [by apply within_nil in H1|].
  cbn in H. destruct H as (Ha & Hb & Hl). apply within_cons in H1 as [H1|H1].
  - unfold inside in H1. cbn in H1. assert (g1 = b + 1).
    { destruct (decide (g1 <= b)); [|lia]. destruct (H3 g1); [lia|]. rewrite within_cons. left. unfold inside. cbn. lia. }
    apply within_cons in H2 as [H2|H2]; [unfold inside in H2; cbn in H2; lia|].
    destruct l as [|[a' b'] l]; [by apply within_nil in H2|]. exists 0%nat, (a, b), (a', b'). cbn in *.
    split; [done|]. split; [done|]. split; [done|].
    destruct Hl as (? & ? & Hl). destruct (decide (g2 + 1 <= a' - 1)).
    + apply within_cons in H2 as [H2|H2]; [unfold inside in H2; cbn in H2; lia|]. apply (apart_after (b' + 2)) in H2; [lia|done].
    + destruct (decide (a' <= g2)); [|lia]. destruct (H3 a'); [lia|].
      rewrite !within_cons. right. left. unfold inside. cbn. lia.
  - assert (Hg : hole (fun x => within x l) g1 g2).
    { pose proof (apart_after _ _ _ Hl H1). split; [done|]. split; [done|]. split.
      - apply within_cons in H2 as [H2|H2]; [unfold inside in H2; cbn in H2; lia|done].
      - intros x Hx Hi. apply (H3 x Hx). rewrite within_cons. by right. }
    destruct (IH _ Hl Hg) as (i & s1 & s2 & ? & ? & ? & ?). by exists (S i), s1, s2.
Qed.

Lemma spans_free_spec from spans lo hi : apart from spans -> lo <= hi ->
  spans_intersect spans lo hi = false <-> span_free spans lo hi.
Proof.
  intros Hs Hlo. pose proof (spans_intersect_spec spans from lo hi Hs Hlo) as H. unfold span_free.
  destruct (spans_intersect spans lo hi).
  - split; [done|]. intros Hf. destruct (proj1 H eq_refl) as (x & Hx & Hw). by destruct (Hf x Hx).
  - split; [|done]. intros _ x Hx Hw. by discriminate (proj2 H (ex_intro _ x (conj Hx Hw))).
Qed.

Section operations.
Context (r : UnappliedRanges) (Hr : ranges_ok r).

Lemma add_range_ok lo hi spans : in_u64 hi -> apart 1 spans ->
  let '(changed, r') := add_range_avoiding lo hi spans r in
  let want x := within x r \/ Z.max lo 1 <= x <= hi in
  ranges_ok r' /\ (changed = false -> r' = r) /\
  ((forall x, within x r' <-> want x) \/
   exists g1 g2, hole want g1 g2 /\ (forall x, within x r' <-> want x \/ g1 <= x <= g2) /\
     ((exists h1 h2, hole want h1 h2 /\ span_free spans h1 h2) -> span_free spans g1 g2)).
Proof.
  intros Hhi Hsp. unfold add_range_avoiding. set (lo' := Z.max lo 1). destruct Hr as [Ha Hlen].
  destruct (Z.ltb_spec hi lo').
  { split; [done|]. split; [done|]. left. intros x. split; [by left|intros [?|?]; [done|lia]]. }
  destruct (covered_by lo' hi r) eqn:Ec.
  { split; [done|]. split; [done|]. left. intros x. split; [by left|intros [?|?]; [done|]]. by apply (covered_by_within lo' hi). }
  destruct (add_loop_spec r [] lo' hi) as (M1 & M2 & M3); [lia|apply Hhi|done|unfold past, lo'; cbn; lia|].
  set (m := add_loop r [] lo' hi false) in *. clearbody m. cbn [app] in *.
  destruct (Z.ltb_spec UNAPPLIED_RANGE_SLOTS (zlen m)) as [Hbig|Hsmall].
  2: { split; [by split|]. split; [done|]. left. exact M2. }
  assert (Hin : forall i, (S i < length m)%nat -> exists s1 s2, m !! i = Some s1 /\ m !! S i = Some s2).
  { intros i Hi. destruct (lookup_lt_is_Some_2 m i ltac:(lia)) as [s1 ?], (lookup_lt_is_Some_2 m (S i) Hi) as [s2 ?]. eauto. }
  assert (Hhole : forall i s1 s2, m !! i = Some s1 -> m !! S i = Some s2 ->
    hole (fun x => within x r \/ lo' <= x <= hi) (s1.2 + 1) (s2.1 - 1)).
  { intros i s1 s2 H1 H2. destruct (hole_gap 1 m i s1 s2 M1 H1 H2) as (G1 & G2 & G3 & G4).
    split; [done|]. rewrite <- !M2. split; [done|]. split; [done|]. intros x Hx. rewrite <- M2. by apply G4. }
  assert (Hpick : exists i s1 s2, default 0%nat (free_gap 0 m spans) = i /\ m !! i = Some s1 /\ m !! S i = Some s2 /\
    ((exists h1 h2, hole (fun x => within x r \/ lo' <= x <= hi) h1 h2 /\ span_free spans h1 h2) ->
     span_free spans (s1.2 + 1) (s2.1 - 1))).
  { pose proof (free_gap_spec 0 m spans) as Hf. destruct (free_gap 0 m spans) as [i|].
    - destruct Hf as (s1 & s2 & _ & H1 & H2 & H3). rewrite Nat.sub_0_r in *. exists i, s1, s2. split_and!; try done.
      intros _. apply (spans_free_spec 1); [done| |done]. by destruct (Hhole i s1 s2 H1 H2).
    - destruct (Hin 0%nat) as (s1 & s2 & H1 & H2). { unfold UNAPPLIED_RANGE_SLOTS, zlen in Hbig. lia. }
      exists 0%nat, s1, s2. split_and!; try done. intros (h1 & h2 & Hh & Hfree). exfalso.
      destruct (gap_of_hole 1 m h1 h2 M1) as (i & t1 & t2 & T1 & T2 & -> & ->).
      + destruct Hh as (G1 & G2 & G3 & G4). split; [done|]. rewrite !M2. split; [done|]. split; [done|].
        intros x Hx. rewrite M2. by apply G4.
      + apply (spans_free_spec 1) in Hfree; [|done|by destruct Hh]. by rewrite (Hf i t1 t2 T1 T2) in Hfree. }
  destruct Hpick as (i & s1 & s2 & -> & H1 & H2 & Hfree).
  destruct (close_gap_spec i m s1 s2 H1 H2 M1) as (C1 & C2 & C3). split; [split; [done|]|].
  { rewrite C2. cbn in M3. lia. }
  split; [done|]. right. exists (s1.2 + 1), (s2.1 - 1). split; [by apply (Hhole i)|]. split; [|done].
  intros x. by rewrite C3, M2.
Qed.

Lemma intersects_ok lo hi : intersects lo hi r = true <-> exists x, lo <= x <= hi /\ within x r.
Proof.
  unfold intersects. destruct Hr as [Ha _]. split.
  - intros [Hlo%Z.leb_le H]%andb_prop. apply existsb_exists in H as ([a b] & Hin & [H1%Z.leb_le H2%Z.leb_le]%andb_prop).
    cbn in *. apply list_elem_of_In in Hin.
    assert (a <= b). { clear -Ha Hin. revert Ha. generalize 1 as from. induction r as [|[c d] l IH]; intros from; [by apply elem_of_nil in Hin|].
      cbn. intros (? & ? & Hl). apply elem_of_cons in Hin as [[= -> ->]|Hin]; [lia|by apply (IH Hin _ Hl)]. }
    exists (Z.max a lo). split; [lia|]. apply Exists_exists. exists (a, b). split; [done|]. unfold inside. cbn. lia.
  - intros (x & Hx & Hw). apply andb_true_intro. split; [lia|]. apply Exists_exists in Hw as (s & Hin & Hi).
    apply existsb_exists. exists s. split; [by apply list_elem_of_In|]. unfold inside in Hi. apply andb_true_intro. lia.
Qed.
End operations.

Lemma zlen_omap {A B} (f : A -> option B) l : zlen (omap f l) <= zlen l.
Proof.
  induction l as [|x l IH]; [done|]. simpl. change (list_omap A B f l) with (omap f l).
  rewrite (zlen_cons x). destruct (f x); rewrite ?zlen_cons; lia.
Qed.

Lemma trim_ok seq r : ranges_ok r -> let '(changed, r') := trim_below seq r in
  ranges_ok r' /\ (forall x, within x r' <-> within x r /\ seq <= x).
Proof.
  intros [Ha Hlen]. cbn. set (f := fun s : span => if s.2 <? seq then None else if s.1 <? seq then Some (seq, s.2) else Some s).
  assert (H : forall from, apart from r -> apart from (omap f r) /\ forall x, within x (omap f r) <-> within x r /\ seq <= x).
  { clear Ha Hlen. induction r as [|[a b] l IH]; intros from; [split; [done|]; intros x; split; [by intros ?%within_nil|by intros [?%within_nil _]]|].
    cbn [apart]. intros (H1 & H2 & Hl). destruct (IH _ Hl) as [I1 I2]. simpl.
    change (list_omap _ _ f l) with (omap f l).
    assert (Ef : f (a, b) = if b <? seq then None else if a <? seq then Some (seq, b) else Some (a, b)) by done.
    rewrite Ef. clear Ef.
    destruct (Z.ltb_spec b seq); [|destruct (Z.ltb_spec a seq)]; (split; [|intros x; rewrite ?within_cons, I2; unfold inside; cbn]).
    - by apply (apart_weaken _ (b + 2)); [lia|].
    - split; [tauto|]. intros [[?|?] ?]; [lia|done].
    - cbn. split; [lia|]. by split.
    - assert (seq <= x <= b <-> a <= x <= b /\ seq <= x) as -> by lia. tauto.
    - cbn. split; [lia|]. by split.
    - split; [intros [?|?]; [split; [by left|lia]|tauto]|tauto]. }
  destruct (H _ Ha) as [H1 H2]. split; [|done]. split; [done|]. pose proof (zlen_omap f r). lia.
Qed.

(** A list kept apart, piece by piece. *)
Ltac apart_goals :=
  cbn [apart]; repeat match goal with |- _ /\ _ => split end;
  first [done | lia | eapply apart_weaken; [|eassumption]; lia].

Lemma remove_ok lo hi r : ranges_ok r -> 0 <= lo -> let '(changed, r') := remove_span lo hi r in
  ranges_ok r' /\ match changed with
                  | Some _ => forall x, within x r' <-> within x r /\ ~ (lo <= x <= hi)
                  | None => r' = r
                  end.
Proof.
  intros [Ha Hlen] Hlo. unfold remove_span. destruct (Z.ltb_spec hi lo).
  { split; [done|]. intros x. split; [intros ?; split; [done|lia]|tauto]. }
  assert (H' : forall from, apart from r -> apart from (r ≫= cut lo hi) /\
    forall x, within x (r ≫= cut lo hi) <-> within x r /\ ~ (lo <= x <= hi)).
  { clear Ha Hlen. induction r as [|[a b] l IH]; intros from; [split; [done|]; intros x; split; [by intros ?%within_nil|by intros [?%within_nil _]]|].
    cbn [apart]. intros (H1 & H2 & Hl). destruct (IH _ Hl) as [I1 I2]. rewrite bind_cons. unfold cut at 1 3. cbn [fst snd].
    assert (Hx : forall x, within x ((a, b) :: l) /\ ~ (lo <= x <= hi) <->
      (a <= x <= b /\ ~ (lo <= x <= hi)) \/ (within x l /\ ~ (lo <= x <= hi))).
    { intros x. rewrite within_cons. unfold inside. cbn. tauto. }
    assert (Hc : forall x, a <= x <= b /\ ~ (lo <= x <= hi) <-> (a <= x <= b /\ (x < lo \/ hi < x))) by lia.
    setoid_rewrite Hx. setoid_rewrite <- I2. setoid_rewrite Hc.
    destruct (Z.ltb_spec b lo), (Z.ltb_spec hi a), (Z.ltb_spec a lo), (Z.ltb_spec hi b); try lia;
      cbn [orb app]; (split; [apart_goals|]); intros x; rewrite ?within_cons; unfold inside; cbn [fst snd]; intuition lia. }
  destruct (H' _ Ha) as [H1 H2]. destruct (Z.ltb_spec UNAPPLIED_RANGE_SLOTS (zlen (r ≫= cut lo hi))); [done|].
  split; [by split|done].
Qed.

Lemma add_range_grows lo hi spans r x : ranges_ok r -> in_u64 hi -> apart 1 spans ->
  within x r \/ Z.max lo 1 <= x <= hi -> within x (add_range_avoiding lo hi spans r).2.
Proof.
  intros Hr Hhi Hs Hx. pose proof (add_range_ok r Hr lo hi spans Hhi Hs) as H.
  destruct (add_range_avoiding lo hi spans r) as [changed r'], H as (_ & _ & [H|(g1 & g2 & _ & H & _)]); cbn; apply H; auto.
Qed.

Lemma add_range_inv lo hi spans r : ranges_ok r -> in_u64 hi -> apart 1 spans ->
  ranges_ok (add_range_avoiding lo hi spans r).2.
Proof.
  intros Hr Hhi Hs. pose proof (add_range_ok r Hr lo hi spans Hhi Hs) as H.
  by destruct (add_range_avoiding lo hi spans r) as [changed r'], H as [H _].
Qed.

Lemma clip_one_ok a b l spans out from : 1 <= a -> in_u64 b -> apart 1 spans -> apart from l -> 1 <= from ->
  ranges_ok out -> let out' := clip_one a b l spans out in
  ranges_ok out' /\ (forall x, within x out \/ a <= x <= b /\ within x l -> within x out').
Proof.
  intros Ha Hb Hs Hl Hf. revert from out Hl Hf. induction l as [|[s t] l IH]; intros from out Hl Hf Ho; cbn [clip_one].
  { split; [done|]. intros x [?|[_ []%within_nil]]; done. }
  cbn in Hl. destruct Hl as (H1 & H2 & Hl). destruct (Z.ltb_spec b s).
  { split; [done|]. intros x [?|[Hx [Hi|Hi]%within_cons]]; [done| |].
    - unfold inside in Hi. cbn in Hi. lia.
    - apply (apart_after _ _ _ Hl) in Hi. lia. }
  set (out1 := if _ <=? _ then _ else out).
  assert (H3 : ranges_ok out1 /\ forall x, within x out \/ (a <= x <= b /\ s <= x <= t) -> within x out1).
  { subst out1. assert (Hm : in_u64 (Z.min b t)) by zints. destruct (Z.leb_spec (Z.max a s) (Z.min b t)).
    - split; [by apply add_range_inv|]. intros x Hx. apply add_range_grows; [done..|]. destruct Hx; [by left|right; lia].
    - split; [done|]. intros x [?|?]; [done|lia]. }
  clearbody out1. destruct H3 as [H3 H4]. destruct (IH (t + 2) out1 Hl ltac:(lia) H3) as [H5 H6]. split; [done|].
  intros x [Hx|[Hx [Hi|Hi]%within_cons]]; apply H6; [left; apply H4; by left| |by right].
  left. apply H4. right. by split.
Qed.

Lemma skip_spans_spec a l from : apart from l -> exists from', from <= from' /\ apart from' (skip_spans a l) /\
  forall x, a <= x -> within x l -> within x (skip_spans a l).
Proof.
  revert from. induction l as [|[s t] l IH]; intros from H; [by exists from|]. cbn [skip_spans]. destruct (Z.ltb_spec t a).
  - cbn in H. destruct H as (? & ? & Hl). destruct (IH _ Hl) as (f & Hf & Hk & Hw). exists f. split; [lia|]. split; [done|].
    intros x Hx [Hi|Hi]%within_cons; [unfold inside in Hi; cbn in Hi; lia|by apply Hw].
  - exists from. split; [lia|]. by split.
Qed.

Lemma clip_ok spans r : ranges_ok r -> apart 1 spans -> let '(changed, r') := clip_to spans r in
  ranges_ok r' /\ forall x, within x r -> within x spans -> within x r'.
Proof.
  intros [Ha Hlen] Hs. cbn.
  enough (H : forall l ahead from fr out, 1 <= from -> 1 <= fr -> apart fr l -> apart from ahead -> ranges_ok out ->
    let out' := clip_loop l ahead spans out in
    ranges_ok out' /\ forall x, within x out \/ within x l /\ within x ahead -> within x out').
  { destruct (H r spans 1 1 [] ltac:(lia) ltac:(lia) Ha Hs) as [H1 H2]; [split; [done|by vm_compute]|].
    split; [done|]. intros x ? ?. apply H2. by right. }
  clear Ha Hlen r. induction l as [|[a b] l IH]; intros ahead from fr out Hf Hfr Hl Hah Ho; cbn [clip_loop].
  { split; [done|]. intros x [?|[[]%within_nil _]]; done. }
  cbn in Hl. destruct Hl as (H1 & H2 & Hl). destruct (skip_spans_spec a ahead from Hah) as (f & Hff & Hk & Hw).
  set (ah := skip_spans a ahead) in *. clearbody ah.
  destruct (clip_one_ok a b ah spans out f ltac:(lia) ltac:(zints) Hs Hk ltac:(lia) Ho) as [H3 H4].
  set (out1 := clip_one _ _ _ _ out) in *. clearbody out1.
  destruct (IH ah f (b + 2) out1 ltac:(lia) ltac:(lia) Hl Hk H3) as [H5 H6]. split; [done|].
  intros x [Hx|[[Hx|Hx]%within_cons Hx']]; apply H6; [left; apply H4; by left| |].
  - left. apply H4. right. unfold inside in Hx. cbn in Hx. split; [lia|]. apply Hw; [lia|done].
  - right. split; [done|]. apply Hw; [|done]. apply (apart_after _ _ _ Hl) in Hx. lia.
Qed.

(** * Runs *)

Inductive range_op : Type :=
  | RAdd (lo hi : Z) (spans : list span)
  | RTrim (seq : Z)
  | RRemove (lo hi : Z)
  | RClip (spans : list span).

Definition range_step (o : range_op) (r : UnappliedRanges) : UnappliedRanges :=
  match o with
  | RAdd lo hi spans => (add_range_avoiding lo hi spans r).2
  | RTrim seq => (trim_below seq r).2
  | RRemove lo hi => (remove_span lo hi r).2
  | RClip spans => (clip_to spans r).2
  end.

Definition range_op_ok (o : range_op) : Prop :=
  match o with
  | RAdd lo hi spans => in_u64 hi /\ apart 1 spans
  | RTrim _ => True
  | RRemove lo _ => 0 <= lo
  | RClip spans => apart 1 spans
  end.

(** The operations that may drop the number. *)
Definition drops (x : Z) (o : range_op) : Prop :=
  match o with
  | RAdd _ _ _ => False
  | RTrim seq => x < seq
  | RRemove lo hi => lo <= x <= hi
  | RClip spans => ~ within x spans
  end.

Lemma range_step_ok o r : range_op_ok o -> ranges_ok r ->
  ranges_ok (range_step o r) /\ forall x, within x r -> ~ drops x o -> within x (range_step o r).
Proof.
  destruct o; cbn [range_step range_op_ok drops].
  - intros [H1 H2] Hr. split; [by apply add_range_inv|]. intros x Hx _. apply add_range_grows; auto.
  - intros _ Hr. pose proof (trim_ok seq r Hr) as H. destruct (trim_below seq r) as [b r'], H as [H1 H2]. split; [done|].
    intros x Hx Hd. apply H2. split; [done|]. cbn in Hd. lia.
  - intros Hlo Hr. pose proof (remove_ok lo hi r Hr Hlo) as H. destruct (remove_span lo hi r) as [b r'], H as [H1 H2].
    split; [done|]. intros x Hx Hd. destruct b; [apply H2; by split|by subst].
  - intros Hs Hr. pose proof (clip_ok spans r Hr Hs) as H. destruct (clip_to spans r) as [b r'], H as [H1 H2].
    split; [done|]. intros x Hx Hd. apply H2; [done|]. destruct (decide (within x spans)) as [|Hn]; [done|]. by destruct Hd.
Qed.

Definition range_run (ops : list range_op) : UnappliedRanges := foldl (fun r o => range_step o r) no_ranges ops.

Lemma range_run_ok ops r : Forall range_op_ok ops -> ranges_ok r ->
  ranges_ok (foldl (fun r o => range_step o r) r ops) /\
  forall x, within x r -> Forall (fun o => ~ drops x o) ops -> within x (foldl (fun r o => range_step o r) r ops).
Proof.
  intros H. revert r. induction H as [|o ops Ho _ IH]; intros r Hr; [done|]. cbn [foldl].
  destruct (range_step_ok o r Ho Hr) as [H1 H2]. destruct (IH _ H1) as [H3 H4]. split; [done|].
  intros x Hx Hd. apply Forall_cons in Hd as [Hd Hd']. apply H4; [|done]. by apply H2.
Qed.

(** C33: After any additions, trims, removals and clips the record is a sorted
    list of at most 32 disjoint ranges, and a number once added stays covered
    until an operation that gives up that very number. *)
Theorem backlog_is_never_forgotten ops : Forall range_op_ok ops ->
  ranges_ok (range_run ops) /\
  forall pre lo hi spans post x, ops = pre ++ RAdd lo hi spans :: post -> Z.max lo 1 <= x <= hi ->
    Forall (fun o => ~ drops x o) post -> within x (range_run ops).
Proof.
  intros H. assert (H0 : ranges_ok no_ranges) by by split.
  split; [apply (range_run_ok ops no_ranges H H0)|]. intros pre lo hi spans post x -> Hx Hd.
  apply Forall_app in H as [Hpre Hpost]. apply Forall_cons in Hpost as [[Hhi Hs] Hpost].
  unfold range_run. rewrite foldl_app. cbn [foldl].
  destruct (range_run_ok pre no_ranges Hpre H0) as [H1 _]. set (r := foldl _ no_ranges pre) in *. clearbody r.
  apply range_run_ok; [done|by apply add_range_inv| |done]. apply add_range_grows; auto.
Qed.

(** Adding a range covers exactly it and what was covered, plus, when all 32
    slots are taken, one whole gap between neighbours, a gap no waiting segment
    lies in whenever there is one. *)
Theorem a_full_record_closes_a_free_gap r lo hi spans : ranges_ok r -> in_u64 hi -> apart 1 spans ->
  let '(changed, r') := add_range_avoiding lo hi spans r in
  let want x := within x r \/ Z.max lo 1 <= x <= hi in
  (changed = false -> r' = r) /\
  ((forall x, within x r' <-> want x) \/
   exists g1 g2, hole want g1 g2 /\ (forall x, within x r' <-> want x \/ g1 <= x <= g2) /\
     ((exists h1 h2, hole want h1 h2 /\ span_free spans h1 h2) -> span_free spans g1 g2)).
Proof.
  intros Hr Hhi Hs. pose proof (add_range_ok r Hr lo hi spans Hhi Hs) as H.
  destruct (add_range_avoiding lo hi spans r) as [changed r']. apply H.
Qed.

(** * The side file *)

Record UnappliedRangesFile : Type := mkRangesFile {
  ranges : UnappliedRanges;
  migrated_overflow : bool;
  migrated_span : option span;
  generation : Z;
  dir_tag : Z }.

Definition RANGES_MAGIC : list Z := [84; 86; 85; 82].
Definition RANGES_VERSION_V1 : Z := 1.
Definition RANGES_VERSION : Z := 2.
Definition FLAG_MIGRATED_OVERFLOW : Z := 1.
Definition RANGES_HEADER_LEN : Z := 20.
Definition RANGES_BODY_LEN : Z := UNAPPLIED_RANGE_SLOTS * 16.
Definition UNAPPLIED_RANGES_LEN_V1 : Z := RANGES_HEADER_LEN + RANGES_BODY_LEN + 4.
Definition UNAPPLIED_RANGES_LEN : Z := RANGES_HEADER_LEN + RANGES_BODY_LEN + 16 + 4.

(** The slots of the source's array, zero past the used ones. *)
Definition slot_at (r : UnappliedRanges) (i : nat) : span := nth i r (0, 0).

Definition file_format : list nat := [1; 1; 1; 1; 1; 1; 2; 4; 8]%nat ++ repeat 8%nat 64 ++ [8; 8]%nat.

Definition is_migrated (f : UnappliedRangesFile) : bool := migrated_overflow f || bool_decide (is_Some (migrated_span f)).

Definition file_values (f : UnappliedRangesFile) : list Z :=
  let span := if is_migrated f then default (1, u64_max) (migrated_span f) else (0, 0) in
  RANGES_MAGIC ++ [RANGES_VERSION; if is_migrated f then FLAG_MIGRATED_OVERFLOW else 0; generation f;
    zlen (ranges f); dir_tag f] ++
  (seq 0 32 ≫= fun i => [(slot_at (ranges f) i).1; (slot_at (ranges f) i).2]) ++ [span.1; span.2].

Definition to_bytes (f : UnappliedRangesFile) : list byte :=
  let out := pack file_format (file_values f) in out ++ le_encode 4 (crc32_ieee out).

Fixpoint from_pairs (prev_hi : option Z) (pairs : list span) : option UnappliedRanges :=
  match pairs with
  | [] => Some []
  | (lo, hi) :: rest =>
      if (lo =? 0) || (hi <? lo) then None
      else if match prev_hi with Some p => lo <=? u64_saturating_add p 1 | None => false end then None
      else r ← from_pairs (Some hi) rest; Some ((lo, hi) :: r)
  end.

Definition read_slot (bytes : list byte) (i : nat) : span :=
  let at_ := RANGES_HEADER_LEN + Z.of_nat i * 16 in (le_field bytes at_ 8, le_field bytes (at_ + 8) 8).

Definition from_bytes (bytes : list byte) : option UnappliedRangesFile :=
  if (zlen bytes <? 5) || negb (bool_decide (take 4 bytes = bytes_of RANGES_MAGIC)) then None else
  let version := le_field bytes 4 1 in
  span_len ← (if (version =? RANGES_VERSION) && (zlen bytes =? UNAPPLIED_RANGES_LEN) then Some 16
              else if (version =? RANGES_VERSION_V1) && (zlen bytes =? UNAPPLIED_RANGES_LEN_V1) then Some 0
              else None);
  let crc_at := RANGES_HEADER_LEN + RANGES_BODY_LEN + span_len in
  if negb (crc32_ieee (take (Z.to_nat crc_at) bytes) =? le_field bytes crc_at 4) then None else
  let generation := le_field bytes 6 2 in
  if generation =? 0 then None else
  let count := le_field bytes 8 4 in
  if UNAPPLIED_RANGE_SLOTS <? count then None else
  let dir_tag := le_field bytes 12 8 in
  let pairs := read_slot bytes <$> seq 0 32 in
  if existsb (fun s => negb (s.1 =? 0) || negb (s.2 =? 0)) (drop (Z.to_nat count) pairs) then None else
  let migrated := Z.odd (le_field bytes 5 1) in
  migrated_span ← (if span_len =? 0 then Some (if migrated then Some (1, u64_max) else None)
    else let at_ := RANGES_HEADER_LEN + RANGES_BODY_LEN in
         let lo := le_field bytes at_ 8 in
         let hi := le_field bytes (at_ + 8) 8 in
         if migrated then if (1 <=? lo) && (lo <=? hi) then Some (Some (lo, hi)) else None
         else if (lo =? 0) && (hi =? 0) then Some None else None);
  ranges ← from_pairs None (take (Z.to_nat count) pairs);
  Some (mkRangesFile ranges migrated migrated_span generation dir_tag).

Definition file_ok (f : UnappliedRangesFile) : Prop :=
  ranges_ok (ranges f) /\ 0 < generation f < 65536 /\ in_u64 (dir_tag f) /\
  match migrated_span f with Some (lo, hi) => 1 <= lo <= hi /\ hi <= u64_max | None => True end.

(** An overflow with no recorded span reads back as the unbounded one. *)
Definition normal (f : UnappliedRangesFile) : UnappliedRangesFile :=
  mkRangesFile (ranges f) (is_migrated f)
    (if is_migrated f then Some (default (1, u64_max) (migrated_span f)) else None) (generation f) (dir_tag f).

Lemma slots_spec r n : (length r <= n)%nat ->
  slot_at r <$> seq 0 n = r ++ replicate (n - length r) (0, 0).
Proof.
  revert n. induction r as [|s r IH]; intros n H.
  - cbn [length]. rewrite Nat.sub_0_r. clear H. cbn [app]. generalize 0%nat as k. induction n as [|n IH]; intros k; [done|].
    cbn. f_equal; [by destruct k|apply IH].
  - destruct n as [|n]; [cbn in H; lia|]. cbn [seq fmap list_fmap length app Nat.sub]. f_equal.
    rewrite <- (fmap_S_seq 0 n), <- list_fmap_compose. apply IH. cbn in H. lia.
Qed.

Lemma from_pairs_ok prev r : apart (match prev with Some p => p + 2 | None => 1 end) r ->
  match prev with Some p => 0 <= p | None => True end -> from_pairs prev r = Some r.
Proof.
  revert prev. induction r as [|[lo hi] r IH]; intros prev; [done|]. cbn [apart from_pairs]. intros (H1 & H2 & H3) Hp.
  assert (1 <= lo) by (destruct prev; lia).
  destruct (Z.eqb_spec lo 0); [lia|]. destruct (Z.ltb_spec hi lo); [lia|]. cbn [orb].
  replace (match prev with Some p => lo <=? u64_saturating_add p 1 | None => false end) with false.
  2: { destruct prev as [p|]; [|done]. destruct (Z.leb_spec lo (u64_saturating_add p 1)); [zints|done]. }
  rewrite (IH (Some hi)); [done|done|lia].
Qed.

Section codec.
Context (f : UnappliedRangesFile) (Hf : file_ok f).

Lemma ranges_in_u64 : Forall (fun s => in_u64 s.1 /\ in_u64 s.2) (ranges f).
Proof.
  destruct Hf as [[Ha _] _]. revert Ha. assert (H1 : 1 <= 1) by lia. revert H1. generalize 1 at 2 3 as from.
  induction (ranges f) as [|[a b] l IH]; intros from H1; [constructor|]. cbn. intros (? & ? & Hl).
  constructor; [cbn; zints|]. apply (IH (b + 2)); [lia|done].
Qed.

Lemma slot_in_u64 i : in_u64 (slot_at (ranges f) i).1 /\ in_u64 (slot_at (ranges f) i).2.
Proof.
  unfold slot_at. destruct (decide (i < length (ranges f))%nat) as [Hi|Hi].
  - pose proof ranges_in_u64 as H. rewrite Forall_lookup in H. apply (H i).
    destruct (lookup_lt_is_Some_2 _ _ Hi) as [s Hs]. rewrite Hs. f_equal. symmetry. by apply nth_lookup_Some.
  - rewrite nth_overflow by lia. split; cbn; zints.
Qed.

Definition field_ok (n : nat) (v : Z) : Prop := 0 <= v < 256 ^ Z.of_nat n.

Lemma field_u64 v : in_u64 v -> field_ok 8 v.
Proof. unfold field_ok. change (256 ^ Z.of_nat 8) with 18446744073709551616. zints. Qed.

Lemma span_values : let span := if is_migrated f then default (1, u64_max) (migrated_span f) else (0, 0) in
  in_u64 span.1 /\ in_u64 span.2.
Proof.
  destruct Hf as (_ & _ & _ & Hs). cbv zeta. destruct (is_migrated f); [|split; cbn; zints].
  destruct (migrated_span f) as [[lo hi]|]; cbn; zints.
Qed.

Lemma file_pack_ok : pack_ok file_format (file_values f).
Proof.
  unfold pack_ok. change (Forall2 field_ok file_format (file_values f)). destruct Hf as ([_ Hl] & Hg & Ht & _). pose proof span_values as [Hs1 Hs2].
  unfold file_format, file_values. cbn [RANGES_MAGIC app].
  do 4 (constructor; [by unfold field_ok|]). constructor; [by unfold field_ok|].
  constructor; [destruct (is_migrated f); by unfold field_ok|]. constructor; [unfold field_ok; change (256 ^ Z.of_nat 2) with 65536; lia|].
  constructor. { unfold field_ok. change (256 ^ Z.of_nat 4) with 4294967296. pose proof (zlen_nonneg (ranges f)). unfold UNAPPLIED_RANGE_SLOTS in Hl. lia. }
  constructor; [by apply field_u64|]. apply Forall2_app.
  - enough (H : forall n k, Forall2 field_ok (repeat 8%nat (n * 2))
      (seq k n ≫= fun i => [(slot_at (ranges f) i).1; (slot_at (ranges f) i).2])) by apply (H 32%nat).
    induction n as [|n IH]; intros k; [constructor|].
    cbn [Nat.mul Nat.add repeat seq]. rewrite bind_cons. cbn [app].
    constructor; [apply field_u64, slot_in_u64|]. constructor; [apply field_u64, slot_in_u64|]. apply IH.
  - constructor; [by apply field_u64|]. constructor; [by apply field_u64|]. constructor.
Qed.

Lemma file_zlen : zlen (pack file_format (file_values f)) = 548.
Proof. rewrite zlen_pack by apply file_pack_ok. reflexivity. Qed.

Lemma bytes_zlen : zlen (to_bytes f) = UNAPPLIED_RANGES_LEN.
Proof. unfold to_bytes. rewrite zlen_app, file_zlen, zlen_le_encode. reflexivity. Qed.

(** The [k]-th field of the file. *)
Lemma file_field k off n : file_format !! k = Some n -> fmt_size (take k file_format) = off ->
  le_field (to_bytes f) off n = nth k (file_values f) 0.
Proof. apply le_field_pack, file_pack_ok. Qed.

Lemma slot_read i : (i < 32)%nat -> read_slot (to_bytes f) i = slot_at (ranges f) i.
Proof.
  intros Hi. unfold read_slot.
  assert (H : file_format !! (9 + 2 * i)%nat = Some 8%nat /\ file_format !! (10 + 2 * i)%nat = Some 8%nat /\
    fmt_size (take (9 + 2 * i) file_format) = RANGES_HEADER_LEN + Z.of_nat i * 16 /\
    fmt_size (take (10 + 2 * i) file_format) = RANGES_HEADER_LEN + Z.of_nat i * 16 + 8 /\
    nth (9 + 2 * i) (file_values f) 0 = (slot_at (ranges f) i).1 /\
    nth (10 + 2 * i) (file_values f) 0 = (slot_at (ranges f) i).2).
  { do 32 (destruct i as [|i]; [by split_and!|]). lia. }
  destruct H as (H1 & H2 & H3 & H4 & H5 & H6). rewrite (file_field _ _ _ H1 H3), (file_field _ _ _ H2 H4), H5, H6.
  by destruct (slot_at _ _).
Qed.

Lemma crc_read : le_field (to_bytes f) 548 4 = crc32_ieee (take 548 (to_bytes f)).
Proof.
  unfold to_bytes. pose proof file_zlen as H. rewrite le_field_skip by lia. rewrite H.
  change (548 - 548) with 0. rewrite <- (app_nil_r (le_encode 4 _)), le_field_here by done. rewrite app_nil_r.
  rewrite take_app_length' by (unfold zlen in H; lia). apply Z.mod_small. apply crc_range.
Qed.

Lemma file_roundtrip : from_bytes (to_bytes f) = Some (normal f).
Proof.
  unfold from_bytes. rewrite bytes_zlen. change (UNAPPLIED_RANGES_LEN <? 5) with false.
  rewrite bool_decide_true by reflexivity. cbn [orb negb].
  rewrite (file_field 4 4 1) by reflexivity. change (nth 4 (file_values f) 0) with RANGES_VERSION.
  rewrite Z.eqb_refl. cbn [andb]. change (UNAPPLIED_RANGES_LEN =? UNAPPLIED_RANGES_LEN) with true. cbn [mbind option_bind].
  change (RANGES_HEADER_LEN + RANGES_BODY_LEN + 16) with 548. change (Z.to_nat 548) with 548%nat. rewrite crc_read, Z.eqb_refl. cbn [negb].
  rewrite (file_field 6 6 2), (file_field 7 8 4), (file_field 8 12 8), (file_field 5 5 1) by reflexivity.
  rewrite (file_field 73 _ 8), (file_field 74 _ 8) by reflexivity.
  assert (Hpairs : read_slot (to_bytes f) <$> seq 0 32 = ranges f ++ replicate (32 - length (ranges f)) (0, 0)).
  { destruct Hf as [[_ Hl] _]. rewrite <- slots_spec by (unfold zlen, UNAPPLIED_RANGE_SLOTS in Hl; lia).
    apply list_fmap_ext. intros k i Hk. apply slot_read. apply lookup_seq in Hk. lia. }
  rewrite Hpairs. destruct Hf as ([Ha Hl] & Hg & _ & Hs).
  change (nth 6 (file_values f) 0) with (generation f). change (nth 7 (file_values f) 0) with (zlen (ranges f)).
  change (nth 8 (file_values f) 0) with (dir_tag f).
  change (nth 5 (file_values f) 0) with (if is_migrated f then FLAG_MIGRATED_OVERFLOW else 0).
  destruct (Z.eqb_spec (generation f) 0); [lia|]. destruct (Z.ltb_spec UNAPPLIED_RANGE_SLOTS (zlen (ranges f))); [lia|].
  unfold zlen. rewrite Nat2Z.id, drop_app_length, take_app_length.
  replace (existsb _ (replicate _ _)) with false.
  2: { symmetry. apply not_true_is_false. intros Hx. apply existsb_exists in Hx as (x & Hx & Hn).
       by apply list_elem_of_In, elem_of_replicate in Hx as [-> _]. }
  rewrite (from_pairs_ok None) by done. change (16 =? 0) with false.
  set (s := if is_migrated f then default (1, u64_max) (migrated_span f) else (0, 0)).
  change (nth 73 (file_values f) 0) with s.1. change (nth 74 (file_values f) 0) with s.2. unfold normal.
  destruct (is_migrated f); subst s; cbn.
  - replace (_ && _) with true; [by destruct (default _ _)|]. symmetry. apply andb_true_intro.
    destruct (migrated_span f) as [[lo hi]|]; cbn; [lia|done].
  - done.
Qed.
End codec.

(** The side file of any well-formed record reads back to that record, its
    generation, its directory and its migrated span. *)
Theorem ranges_file_roundtrip f : file_ok f -> from_bytes (to_bytes f) = Some (normal f).
Proof. apply file_roundtrip. Qed.

(** What a file of the current length owes to its sum. *)
Lemma from_bytes_crc bytes f : from_bytes bytes = Some f -> zlen bytes = UNAPPLIED_RANGES_LEN ->
  crc32_ieee (take 548 bytes) = le_field bytes 548 4.
Proof.
  intros H Hl. unfold from_bytes in H. rewrite Hl in H. destruct (_ || _); [done|].
  change (UNAPPLIED_RANGES_LEN =? UNAPPLIED_RANGES_LEN_V1) with false in H. rewrite andb_false_r in H.
  rewrite Z.eqb_refl, andb_true_r in H. destruct (le_field bytes 4 1 =? RANGES_VERSION); [|done]. cbn [mbind option_bind] in H.
  change (RANGES_HEADER_LEN + RANGES_BODY_LEN + 16) with 548 in H. change (Z.to_nat 548) with 548%nat in H.
  destruct (Z.eqb_spec (crc32_ieee (take 548 bytes)) (le_field bytes 548 4)); done.
Qed.

(** A side file with any one byte changed is rejected. *)
Theorem a_corrupt_byte_is_rejected f p x y : file_ok f -> to_bytes f !! p = Some x -> y <> x ->
  from_bytes (<[p := y]> (to_bytes f)) = None.
Proof.
  intros Hf Hx Hne. destruct (from_bytes _) as [g|] eqn:E; [exfalso|done].
  pose proof (bytes_zlen f Hf) as Hl. apply from_bytes_crc in E; [|unfold zlen in *; by rewrite length_insert].
  revert E. apply (trailing_sum_breaks (to_bytes f) 548 p x y); try done.
  - symmetry. exact (crc_read f Hf).
Qed.

(** A record of three stretches whose file is a migrated overflow's. *)
Definition sample_ranges : UnappliedRanges := [(5, 9); (20, 20); (1000, 18446744073709551615)].
Definition sample_file : UnappliedRangesFile := mkRangesFile sample_ranges true None 7 99.

Lemma sample_ranges_ok : ranges_ok sample_ranges.
Proof. split; [|by vm_compute]. cbn. unfold u64_max. intuition lia. Qed.

Lemma sample_file_ok : file_ok sample_file.
Proof. split; [exact sample_ranges_ok|]. cbn. unfold in_u64, u64_max. lia. Qed.

Lemma ranges_file_roundtrip_witness : from_bytes (to_bytes sample_file) = Some (normal sample_file).
Proof. apply ranges_file_roundtrip. exact sample_file_ok. Defined.

Lemma a_corrupt_byte_is_rejected_witness :
  from_bytes (<[21%nat := byte_of 1]> (to_bytes sample_file)) = None.
Proof. apply (a_corrupt_byte_is_rejected sample_file 21 (byte_of 0)); [exact sample_file_ok|vm_compute; reflexivity|vm_compute; discriminate]. Defined.

Lemma backlog_is_never_forgotten_witness :
  within 25 (range_run [RAdd 20 30 []; RTrim 22; RAdd 100 200 []; RRemove 26 150]).
Proof.
  apply (backlog_is_never_forgotten [RAdd 20 30 []; RTrim 22; RAdd 100 200 []; RRemove 26 150])
    with (pre := []) (lo := 20) (hi := 30) (spans := []) (post := [RTrim 22; RAdd 100 200 []; RRemove 26 150]).
  - repeat constructor; cbn; unfold in_u64, u64_max; lia.
  - done.
  - lia.
  - repeat constructor; cbn; lia.
Defined.

(** Thirty-two stretches, and a 33rd: the gap no waiting span lies in is closed. *)
Definition full_record : UnappliedRanges := (fun i => (Z.of_nat i * 10 + 5, Z.of_nat i * 10 + 6)) <$> seq 0 32.

Lemma a_full_record_closes_a_free_gap_witness :
  add_range_avoiding 400 401 [(1, 30)] full_record = (true, (add_range_avoiding 400 401 [(1, 30)] full_record).2) /\
  ((add_range_avoiding 400 401 [(1, 30)] full_record).1 = false -> False).
Proof.
  assert (Hok : ranges_ok full_record).
  { split; [|by vm_compute]. vm_compute. repeat (split; [split; discriminate|split; [discriminate|]]). exact I. }
  pose proof (a_full_record_closes_a_free_gap full_record 400 401 [(1, 30)] Hok
    ltac:(unfold in_u64, u64_max; lia) ltac:(cbn; unfold u64_max; intuition lia)) as H.
  split; [by vm_compute|]. destruct (add_range_avoiding 400 401 [(1, 30)] full_record) as [c r'] eqn:E.
  destruct H as [H _]. intros Hc. cbn in Hc. apply H in Hc. subst r'. by vm_compute in E.
Defined.
