(* ===== verification/WalRecords.v ===== *)
(** The records of the frame log ([storage/src/ws_frame_spill.rs]): their codec,
    the walk that replays a segment past damaged bytes, and the sequence numbers
    stamped on frames and packets.  A segment is the list of its bytes. *)
From coqutil Require Import Datatypes.RecordSettersUsingExistingGetters.
From S2P Require Import Prelude Bytes SealRing Crc32.
Local Open Scope Z_scope.

Inductive WsType : Type := LiveFeed | WsOrderUpdate | TruedataFeed.
Inductive WalEndpoint : Type := MainFeed | Depth20 | Depth200 | EpOrderUpdate.
Inductive AppliedSink : Type := Ticks | Depth.

#[global] Instance WsType_eq_dec : EqDecision WsType.
Proof. solve_decision. Defined.
#[global] Instance WalEndpoint_eq_dec : EqDecision WalEndpoint.
Proof. solve_decision. Defined.

Definition ws_as_u8 (t : WsType) : Z := match t with LiveFeed => 1 | WsOrderUpdate => 4 | TruedataFeed => 5 end.
Definition ws_from_u8 (b : Z) : option WsType :=
  if b =? 1 then Some LiveFeed else if b =? 4 then Some WsOrderUpdate else if b =? 5 then Some TruedataFeed else None.
Definition owning_feed (t : WsType) : option Feed :=
  match t with LiveFeed => Some Dhan | TruedataFeed => Some Truedata | WsOrderUpdate => None end.

Definition endpoint_as_u8 (e : WalEndpoint) : Z :=
  match e with MainFeed => 0 | Depth20 => 1 | Depth200 => 2 | EpOrderUpdate => 3 end.
(** Total: an unknown byte is the main feed. *)
Definition endpoint_from_u8 (b : Z) : WalEndpoint :=
  if b =? 1 then Depth20 else if b =? 2 then Depth200 else if b =? 3 then EpOrderUpdate else MainFeed.

Definition applied_sink_for (e : WalEndpoint) : AppliedSink :=
  match e with Depth20 | Depth200 => Depth | MainFeed | EpOrderUpdate => Ticks end.
Definition frame_feeds_the_candle_fold (t : WsType) (e : WalEndpoint) : bool :=
  bool_decide (t = LiveFeed) && match e with MainFeed => true | _ => false end.

(** * Receipts *)

Definition WAL_RECEIPT_UNKNOWN_NANOS : Z := 0.
Definition MIN_PLAUSIBLE_RECEIPT_NANOS : Z := 1600000000000000000.
Definition MAX_PLAUSIBLE_RECEIPT_NANOS : Z := 2524608000000000000.
Definition WAL_REPLAY_PROCESS_GAP_NANOS : Z := 5000000000.

Definition plausible_receipt_nanos (n : Z) : Z :=
  if (MIN_PLAUSIBLE_RECEIPT_NANOS <=? n) && (n <=? MAX_PLAUSIBLE_RECEIPT_NANOS) then n else WAL_RECEIPT_UNKNOWN_NANOS.

Definition process_boundary_is_gap (previous_receipt receipt : Z) : bool :=
  let previous := plausible_receipt_nanos previous_receipt in
  let current := plausible_receipt_nanos receipt in
  negb (previous =? WAL_RECEIPT_UNKNOWN_NANOS) && negb (current =? WAL_RECEIPT_UNKNOWN_NANOS) &&
  (WAL_REPLAY_PROCESS_GAP_NANOS <? i64_saturating_sub current previous).

(** * The record *)

Definition WAL_MAGIC : list byte := bytes_of [84; 86; 87; 49].
Definition WAL_MAGIC_V2 : list byte := bytes_of [84; 86; 87; 50].
Definition WAL_MAGIC_V3 : list byte := bytes_of [84; 86; 87; 51].
Definition WAL_MAGIC_V4 : list byte := bytes_of [84; 86; 87; 52].
Definition WAL_MIN_RECORD_V1 : Z := 13.
Definition WAL_MIN_RECORD_V2 : Z := 21.
Definition WAL_MIN_RECORD_V3 : Z := 29.
Definition WAL_MIN_RECORD_V4 : Z := 30.
Definition WAL_RESYNC_MAX_FRAME_BYTES : Z := 4 * 1024 * 1024.

Record WalRecord : Type := mkWalRecord {
  wr_ws_type : WsType;
  wr_frame_seq : Z;
  wr_received_at_nanos : Z;
  wr_endpoint : WalEndpoint;
  wr_frame : list byte }.

Definition crc32_ieee_of (chunks : list (list byte)) : Z :=
  Z.lxor (foldl (fun c chunk => foldl (fun c b => crc_step c (byte_val b)) c chunk) u32_max chunks) u32_max.

(** The bytes [write_record] writes; it refuses a frame past the 32-bit length. *)
Definition write_record (r : WalRecord) : option (list byte) :=
  if u32_max <? zlen (wr_frame r) then None else
  let frame_len := zlen (wr_frame r) in
  let frame_seq := le_encode 8 (wr_frame_seq r) in
  let receipt := le_encode 8 (wr_received_at_nanos r) in
  let ws := [byte_of (ws_as_u8 (wr_ws_type r))] in
  let endpoint := [byte_of (endpoint_as_u8 (wr_endpoint r))] in
  let crc := crc32_ieee_of [ws; frame_seq; receipt; endpoint; le_encode 4 frame_len; wr_frame r] in
  Some (WAL_MAGIC_V4 ++ ws ++ frame_seq ++ receipt ++ endpoint ++ le_encode 4 frame_len ++ wr_frame r ++ le_encode 4 crc).

Definition record_disk_size (r : WalRecord) : Z := WAL_MIN_RECORD_V4 + zlen (wr_frame r).

Record DecodedRecord : Type := mkDecoded {
  dr_ws_type : WsType;
  dr_frame_seq : Z;
  dr_received_at_nanos : Z;
  dr_endpoint_byte : option Z;
  dr_frame : list byte;
  dr_end : Z }.

Inductive RecordDecode : Type :=
  | DRecord (r : DecodedRecord)
  | PastEnd (declared_len : option Z)
  | Bad (reason : string)
  | DPanic. (* a read outside the buffer: not a value of the enum, the process ends *)

(** Which of the four magics the bytes are, with the shortest record of that
    version, its header past the magic and the place of its length field. *)
Inductive WalVersion : Type := V1 | V2 | V3 | V4.

Definition version_of (magic : list byte) : option WalVersion :=
  if bool_decide (magic = WAL_MAGIC_V4) then Some V4 else if bool_decide (magic = WAL_MAGIC_V3) then Some V3
  else if bool_decide (magic = WAL_MAGIC_V2) then Some V2 else if bool_decide (magic = WAL_MAGIC) then Some V1 else None.
Definition min_record (v : WalVersion) : Z :=
  match v with V1 => WAL_MIN_RECORD_V1 | V2 => WAL_MIN_RECORD_V2 | V3 => WAL_MIN_RECORD_V3 | V4 => WAL_MIN_RECORD_V4 end.
Definition len_offset (v : WalVersion) : Z := match v with V1 => 5 | V2 => 13 | V3 => 21 | V4 => 22 end.

(** A field read by index or by slice: outside the buffer it panics. *)
Definition read_field (buf : list byte) (off : Z) (n : nat) : option Z :=
  le_decode <$> get_range buf off (off + Z.of_nat n).

Definition read_header (buf : list byte) (i : Z) (v : WalVersion) : option (Z * Z * option Z) :=
  match v with
  | V1 => Some (0, WAL_RECEIPT_UNKNOWN_NANOS, None)
  | V2 => seq ← read_field buf (i + 5) 8; Some (seq, WAL_RECEIPT_UNKNOWN_NANOS, None)
  | V3 =>
      seq ← read_field buf (i + 5) 8; received ← read_field buf (i + 13) 8;
      Some (seq, to_signed 64 received, None)
  | V4 =>
      seq ← read_field buf (i + 5) 8; received ← read_field buf (i + 13) 8; endpoint ← read_field buf (i + 21) 1;
      Some (seq, to_signed 64 received, Some endpoint)
  end.

(** What the sum of a record of this version runs over. *)
Definition crc_chunks (v : WalVersion) (ws_byte frame_seq received : Z) (endpoint_byte : option Z)
    (frame_len : Z) (frame : list byte) : list (list byte) :=
  let ws := [byte_of ws_byte] in
  match v with
  | V1 => [ws; le_encode 4 frame_len; frame]
  | V2 => [ws; le_encode 8 frame_seq; le_encode 4 frame_len; frame]
  | V3 => [ws; le_encode 8 frame_seq; le_encode 8 received; le_encode 4 frame_len; frame]
  | V4 => [ws; le_encode 8 frame_seq; le_encode 8 received; [byte_of (default 0 endpoint_byte)]; le_encode 4 frame_len; frame]
  end.

Definition decode_record_at (buf : list byte) (i max_frame_len : Z) : RecordDecode :=
  match get_range buf i (i + 4) with
  | None => PastEnd None
  | Some magic =>
    match version_of magic with
    | None => Bad "magic_mismatch"
    | Some v =>
      if zlen buf <? i + min_record v then PastEnd None else
      match read_field buf (i + 4) 1 with
      | None => DPanic
      | Some ws_byte =>
        match ws_from_u8 ws_byte with
        | None => Bad "unknown_ws_type"
        | Some ws_type =>
          let len_off := i + len_offset v in
          match read_header buf i v, read_field buf len_off 4 with
          | Some (frame_seq, received, endpoint_byte), Some frame_len =>
            if max_frame_len <? frame_len then Bad "length_over_ceiling" else
            let frame_off := len_off + 4 in
            match usize_checked_add frame_off frame_len ≫= fun e => usize_checked_add e 4 with
            | None => Bad "length_overflow"
            | Some record_end =>
              if zlen buf <? record_end then PastEnd (Some frame_len) else
              match get_range buf frame_off (frame_off + frame_len), read_field buf (frame_off + frame_len) 4 with
              | Some frame, Some expected =>
                if crc32_ieee_of (crc_chunks v ws_byte frame_seq received endpoint_byte frame_len frame) =? expected
                then DRecord (mkDecoded ws_type frame_seq received endpoint_byte frame record_end)
                else Bad "crc_mismatch"
              | _, _ => DPanic
              end
            end
          | _, _ => DPanic
          end
        end
      end
    end
  end.

(** The first magic at or after the head of the list. *)
Definition is_magic (l : list byte) : bool := bool_decide (is_Some (version_of (take 4 l))).
Fixpoint find_magic (l : list byte) : option nat :=
  match l with
  | [] => None
  | _ :: t => if is_magic l then Some O else S <$> find_magic t
  end.

(** [None]: a panic. *)
Fixpoint resync_loop (fuel : nat) (buf : list byte) (j : Z) : option (option Z) :=
  match fuel with
  | O => None
  | S fuel =>
      if zlen buf <? j + WAL_MIN_RECORD_V1 then Some None else
      match find_magic (drop (Z.to_nat j) buf) with
      | None => Some None
      | Some rel =>
        let at_ := j + Z.of_nat rel in
        match decode_record_at buf at_ WAL_RESYNC_MAX_FRAME_BYTES with
        | DRecord _ => Some (Some at_)
        | DPanic => None
        | PastEnd _ | Bad _ => resync_loop fuel buf (at_ + 1)
        end
      end
  end.

Definition resync_from (buf : list byte) (start : Z) : option (option Z) := resync_loop (S (length buf)) buf start.

(** * The walk over a segment *)

Record ReplayedFrame : Type := mkReplayed {
  rf_ws_type : WsType;
  rf_frame : list byte;
  rf_frame_seq : Z;
  rf_received_at_nanos : Z;
  rf_endpoint : WalEndpoint;
  rf_after_gap : bool;
  rf_first_in_segment : bool }.

Record ResyncTally : Type := mkTally {
  tally_gaps : Z;
  skipped_bytes : Z;
  tally_first : option (string * Z);
  frames_before_first_gap : option Z }.

Definition record_gap (reason : string) (bad_at next frames_so_far : Z) (t : ResyncTally) : ResyncTally :=
  mkTally (u64_saturating_add (tally_gaps t) 1)
    (u64_saturating_add (skipped_bytes t) (u64_saturating_sub next bad_at))
    (match tally_first t with None => Some (reason, bad_at) | f => f end)
    (match tally_first t with None => Some frames_so_far | _ => frames_before_first_gap t end).

Record WalkState : Type := mkWalk {
  wk_out : list ReplayedFrame;
  gap_pending : bool;
  wk_resync : ResyncTally;
  corrupted_at : option (string * Z);
  unreadable : bool;
  dropped_as_applied : Z;
  unknown_endpoint : Z }.

Definition walk_start : WalkState := mkWalk [] false (mkTally 0 0 None None) None false 0 0.

Record SegmentRead : Type := mkSegmentRead {
  sr_frames : list ReplayedFrame;
  sr_dropped_as_applied : Z;
  sr_damaged : bool;
  sr_trailing_gap : bool }.

Definition record_endpoint (r : DecodedRecord) : WalEndpoint :=
  match dr_endpoint_byte r with None => MainFeed | Some b => endpoint_from_u8 b end.
Definition endpoint_unknown (r : DecodedRecord) : bool :=
  match dr_endpoint_byte r with None => false | Some b => negb (endpoint_as_u8 (endpoint_from_u8 b) =? b) end.

(** [applied] is the watermark's test of a frame ([None]: no watermark), [keep]
    the caller's. *)
Definition is_applied (applied : option (AppliedSink -> Z -> bool)) (r : DecodedRecord) : bool :=
  match applied with
  | None => false
  | Some f => f (applied_sink_for (record_endpoint r)) (dr_frame_seq r)
  end.

Definition replayed (r : DecodedRecord) (after_gap first : bool) : ReplayedFrame :=
  mkReplayed (dr_ws_type r) (dr_frame r) (dr_frame_seq r) (dr_received_at_nanos r) (record_endpoint r) after_gap first.

Definition take_record (applied : option (AppliedSink -> Z -> bool)) (keep : Z -> WalEndpoint -> bool)
    (r : DecodedRecord) (w : WalkState) : WalkState :=
  let w := { w with unknown_endpoint ::= fun n => if endpoint_unknown r then u64_saturating_add n 1 else n } in
  if is_applied applied r then
    { w with dropped_as_applied ::= (fun n => u64_saturating_add n 1);
             gap_pending ::= fun g => g || frame_feeds_the_candle_fold (dr_ws_type r) (record_endpoint r) }
  else if negb (keep (dr_frame_seq r) (record_endpoint r)) then w
  else { w with wk_out ::= (fun out => out ++ [replayed r (gap_pending w) (bool_decide (out = []))]);
                gap_pending := false }.

Definition skip_to (reason : string) (i next : Z) (w : WalkState) : WalkState :=
  { w with wk_resync ::= (fun t => record_gap reason i next (zlen (wk_out w)) t); gap_pending := true }.

(** One turn of the loop: the next offset, or the end of the walk ([None]: a panic). *)
Definition walk_turn (buf : list byte) (applied : option (AppliedSink -> Z -> bool)) (keep : Z -> WalEndpoint -> bool)
    (i : Z) (w : WalkState) : option (option Z * WalkState) :=
  match decode_record_at buf i usize_max with
  | DPanic => None
  | DRecord r => Some (Some (dr_end r), take_record applied keep r w)
  | PastEnd declared_len =>
      found ← resync_from buf (i + 1);
      Some (match found with
      | Some next => (Some next, skip_to "length_past_eof" i next w)
      | None =>
          (None, if match declared_len with Some l => WAL_RESYNC_MAX_FRAME_BYTES <? l | None => false end
                 then { w with corrupted_at := Some ("length_past_eof"%string, i) } else w)
      end)
  | Bad reason =>
      found ← resync_from buf (i + 1);
      Some (match found with
      | Some next => (Some next, skip_to reason i next w)
      | None =>
          (None, if (i =? 0) && bool_decide (reason = "magic_mismatch"%string)
                 then { w with unreadable := true } else { w with corrupted_at := Some (reason, i) })
      end)
  end.

Fixpoint segment_walk (fuel : nat) (buf : list byte) (applied : option (AppliedSink -> Z -> bool))
    (keep : Z -> WalEndpoint -> bool) (i : Z) (w : WalkState) : option WalkState :=
  match fuel with
  | O => None
  | S fuel =>
      if zlen buf <? i + WAL_MIN_RECORD_V1 then Some w else
      '(next, w) ← walk_turn buf applied keep i w;
      match next with Some i => segment_walk fuel buf applied keep i w | None => Some w end
  end.

Definition replay_segment_core (buf : list byte) (applied : option (AppliedSink -> Z -> bool))
    (keep : Z -> WalEndpoint -> bool) : option SegmentRead :=
  w ← segment_walk (S (length buf)) buf applied keep 0 walk_start;
  Some (mkSegmentRead (wk_out w) (dropped_as_applied w)
    (unreadable w || bool_decide (is_Some (corrupted_at w)) || (0 <? tally_gaps (wk_resync w))) (gap_pending w)).

(** * What a decoded record is *)

Lemma ws_roundtrip t : ws_from_u8 (ws_as_u8 t) = Some t.
Proof. by destruct t. Qed.
Lemma endpoint_roundtrip e : endpoint_from_u8 (endpoint_as_u8 e) = e.
Proof. by destruct e. Qed.

Lemma crc_of_concat chunks : crc32_ieee_of chunks = crc32_ieee (concat chunks).
Proof.
  unfold crc32_ieee_of, crc32_ieee. f_equal. generalize u32_max as c.
  induction chunks as [|x chunks IH]; intros c; [done|]. cbn. rewrite foldl_app. apply IH.
Qed.

Lemma get_range_inv {A} (l : list A) i j m : get_range l i j = Some m ->
  0 <= i <= j /\ j <= zlen l /\ m = take (Z.to_nat (j - i)) (drop (Z.to_nat i) l).
Proof.
  unfold get_range. destruct (Z.leb_spec 0 i), (Z.leb_spec i j), (Z.leb_spec j (zlen l)); intros H'; simplify_eq/=. auto.
Qed.

Lemma le_field_bytes buf off n : 0 <= off -> off + Z.of_nat n <= zlen buf ->
  le_encode n (le_field buf off n) = take n (drop (Z.to_nat off) buf).
Proof.
  intros H1 H2. unfold le_field. set (b := take n _).
  assert (Hb : length b = n) by (subst b; rewrite length_take, length_drop; unfold zlen in H2; lia).
  rewrite <- Hb at 1. apply le_encode_decode.
Qed.

Lemma le_encode_mod n z : le_encode n (z mod 256 ^ Z.of_nat n) = le_encode n z.
Proof.
  apply le_decode_inj; [by rewrite !length_le_encode|]. rewrite !le_decode_encode.
  rewrite Z.mod_mod; [done|]. apply Z.pow_nonzero; lia.
Qed.

Lemma le_encode_signed z : 0 <= z < 2 ^ 64 -> le_encode 8 (to_signed 64 z) = le_encode 8 z.
Proof.
  intros H. unfold to_signed. destruct (Z.ltb_spec z (2 ^ (64 - 1))); [done|].
  rewrite <- (le_encode_mod 8 (z - 2 ^ 64)). change (256 ^ Z.of_nat 8) with (2 ^ 64).
  replace (z - 2 ^ 64) with (z + (-1) * 2 ^ 64) by lia. rewrite Z.mod_add by lia. by rewrite Z.mod_small.
Qed.

Lemma byte_of_mod z : byte_of (z mod 256) = byte_of z.
Proof. unfold byte_of. by rewrite Z.mod_mod by lia. Qed.

Lemma byte_field buf off : 0 <= off -> off + 1 <= zlen buf ->
  [byte_of (le_field buf off 1)] = take 1 (drop (Z.to_nat off) buf).
Proof. intros H1 H2. rewrite <- (le_field_bytes buf off 1) by lia. done. Qed.

Definition slice (buf : list byte) (a b : Z) : list byte := take (Z.to_nat (b - a)) (drop (Z.to_nat a) buf).

Lemma slice_app buf a b b' c : b = b' -> 0 <= a <= b -> b <= c -> slice buf a b ++ slice buf b' c = slice buf a c.
Proof.
  intros <- H1 H2. unfold slice. replace (Z.to_nat b) with (Z.to_nat a + Z.to_nat (b - a))%nat by lia.
  rewrite <- drop_drop. generalize (drop (Z.to_nat a) buf) as l. intros l.
  replace (Z.to_nat (c - a)) with (Z.to_nat (b - a) + Z.to_nat (c - b))%nat by lia.
  generalize (Z.to_nat (b - a)) as n, (Z.to_nat (c - b)) as m. intros n m. revert l.
  induction n as [|n IH]; intros [|x l]; cbn; rewrite ?take_nil, ?drop_nil; [done..|]. by rewrite IH.
Qed.

Lemma slice_field buf a n : 0 <= a -> a + Z.of_nat n <= zlen buf -> le_encode n (le_field buf a n) = slice buf a (a + Z.of_nat n).
Proof. intros. rewrite le_field_bytes by done. unfold slice. do 2 f_equal. lia. Qed.
Lemma slice_byte buf a : 0 <= a -> a + 1 <= zlen buf -> [byte_of (le_field buf a 1)] = slice buf a (a + 1).
Proof. intros. apply (slice_field buf a 1); lia. Qed.
Lemma slice_signed buf a : 0 <= a -> a + 8 <= zlen buf ->
  le_encode 8 (to_signed 64 (le_field buf a 8)) = slice buf a (a + 8).
Proof.
  intros. rewrite le_encode_signed; [by apply (slice_field buf a 8)|].
  change (2 ^ 64) with (256 ^ Z.of_nat 8). by apply le_field_range.
Qed.

(** The header fields of a record the buffer has room for. *)
Definition header_fields (buf : list byte) (i : Z) (v : WalVersion) : Z * Z * option Z :=
  match v with
  | V1 => (0, WAL_RECEIPT_UNKNOWN_NANOS, None)
  | V2 => (le_field buf (i + 5) 8, WAL_RECEIPT_UNKNOWN_NANOS, None)
  | V3 => (le_field buf (i + 5) 8, to_signed 64 (le_field buf (i + 13) 8), None)
  | V4 => (le_field buf (i + 5) 8, to_signed 64 (le_field buf (i + 13) 8), Some (le_field buf (i + 21) 1))
  end.

(** The pieces a record's sum runs over lie next to each other. *)
Lemma crc_chunks_contiguous buf i v frame_seq received endpoint_byte frame_len :
  0 <= i -> header_fields buf i v = (frame_seq, received, endpoint_byte) ->
  le_field buf (i + len_offset v) 4 = frame_len -> i + len_offset v + 4 + frame_len <= zlen buf ->
  concat (crc_chunks v (le_field buf (i + 4) 1) frame_seq received endpoint_byte frame_len
            (take (Z.to_nat frame_len) (drop (Z.to_nat (i + len_offset v + 4)) buf))) =
  slice buf (i + 4) (i + len_offset v + 4 + frame_len).
Proof.
  intros Hi Hh Hl Hb. assert (H0 : 0 <= frame_len) by (rewrite <- Hl; unfold le_field; apply le_decode_range).
  assert (H4 : i + len_offset v + 4 <= zlen buf) by lia.
  assert (E4 : le_encode 4 frame_len = slice buf (i + len_offset v) (i + len_offset v + 4))
    by (rewrite <- Hl; apply (slice_field buf _ 4); [destruct v; cbn; lia|lia]).
  assert (Ef : take (Z.to_nat frame_len) (drop (Z.to_nat (i + len_offset v + 4)) buf) =
    slice buf (i + len_offset v + 4) (i + len_offset v + 4 + frame_len)) by (unfold slice; do 2 f_equal; lia).
  unfold crc_chunks. rewrite E4, Ef, slice_byte by (destruct v; cbn in *; lia). clear E4 Ef Hl.
  destruct v; cbn [header_fields len_offset from_option id concat] in *; injection Hh as <- <- <-; rewrite app_nil_r;
    cbn [from_option id]; rewrite ?slice_signed, ?(slice_field _ _ 8), ?slice_byte by lia;
    rewrite !slice_app by lia; done.
Qed.

(** The record's frame and the place of its end. *)
Definition frame_len_at (buf : list byte) (i : Z) (v : WalVersion) : Z := le_field buf (i + len_offset v) 4.
Definition record_end_at (buf : list byte) (i : Z) (v : WalVersion) : Z := i + len_offset v + 4 + frame_len_at buf i v + 4.

Lemma version_bounds v : min_record v = len_offset v + 8 /\ 5 <= len_offset v <= 22.
Proof. by destruct v. Qed.

Lemma le_decode_nonneg bs : 0 <= le_decode bs.
Proof. apply le_decode_range. Qed.
Lemma frame_len_nonneg buf i v : 0 <= frame_len_at buf i v.
Proof. apply le_decode_nonneg. Qed.

(** The record at [i], read off the raw bytes. *)
Record intact (buf : list byte) (i max : Z) (v : WalVersion) (r : DecodedRecord) : Prop := mkIntact {
  in_magic : version_of (slice buf i (i + 4)) = Some v;
  in_start : 0 <= i;
  in_ws : ws_from_u8 (le_field buf (i + 4) 1) = Some (dr_ws_type r);
  in_header : header_fields buf i v = (dr_frame_seq r, dr_received_at_nanos r, dr_endpoint_byte r);
  in_cap : frame_len_at buf i v <= max;
  in_end : dr_end r = record_end_at buf i v;
  in_room : dr_end r <= zlen buf /\ dr_end r <= usize_max;
  in_frame : dr_frame r = slice buf (i + len_offset v + 4) (dr_end r - 4);
  in_sum : crc32_ieee (slice buf (i + 4) (dr_end r - 4)) = le_field buf (dr_end r - 4) 4 }.

Lemma read_field_some buf off n : 0 <= off -> off + Z.of_nat n <= zlen buf -> read_field buf off n = Some (le_field buf off n).
Proof. intros. unfold read_field, le_field. rewrite get_range_some by lia. cbn. do 3 f_equal. lia. Qed.

(** Behind the size guard every header field is there. *)
Lemma header_reads buf i v : 0 <= i -> i + min_record v <= zlen buf ->
  read_field buf (i + 4) 1 = Some (le_field buf (i + 4) 1) /\ read_header buf i v = Some (header_fields buf i v) /\
  read_field buf (i + len_offset v) 4 = Some (frame_len_at buf i v).
Proof.
  intros H1 H2. pose proof (version_bounds v). rewrite !read_field_some by lia. split_and!; [done| |done].
  destruct v; unfold WAL_MIN_RECORD_V1, WAL_MIN_RECORD_V2, WAL_MIN_RECORD_V3, WAL_MIN_RECORD_V4 in *; cbn in H2;
    unfold read_header; rewrite ?read_field_some by (unfold WAL_MIN_RECORD_V2, WAL_MIN_RECORD_V3, WAL_MIN_RECORD_V4 in *; lia); done.
Qed.

Lemma decode_intact buf i max r : decode_record_at buf i max = DRecord r <-> exists v, intact buf i max v r.
Proof.
  unfold decode_record_at. destruct (get_range buf i (i + 4)) as [magic|] eqn:Em.
  2: { split; [done|]. intros [v [? ? _ _ _ He [Hr _] _ _]]. pose proof (frame_len_nonneg buf i v).
       pose proof (version_bounds v). unfold record_end_at in He. rewrite get_range_some in Em by lia. done. }
  apply get_range_inv in Em as (Hi & Hm & ->). fold (slice buf i (i + 4)).
  destruct (version_of (slice buf i (i + 4))) as [v|] eqn:Ev; [|split; [done|intros [v [? _ _ _ _ _ _ _ _]]; congruence]].
  assert (Hv : forall v' r', intact buf i max v' r' -> v' = v) by (intros v' r' [? _ _ _ _ _ _ _ _]; congruence).
  pose proof (version_bounds v) as [Eb Hb]. pose proof (frame_len_nonneg buf i v) as Hl.
  destruct (Z.ltb_spec (zlen buf) (i + min_record v)).
  { split; [done|]. intros [v' H']. pose proof (Hv _ _ H') as ->. destruct H' as [_ _ _ _ _ He [Hr _] _ _]. unfold record_end_at in He. lia. }
  destruct (header_reads buf i v) as (-> & -> & ->); [lia..|]. destruct (ws_from_u8 _) as [ws|] eqn:Ew.
  2: { split; [done|]. intros [v' [_ _ H' _ _ _ _ _ _]]. congruence. }
  destruct (header_fields buf i v) as [[seq recv] ep] eqn:Eh.
  destruct (Z.ltb_spec max (frame_len_at buf i v)).
  { split; [done|]. intros [v' H']. pose proof (Hv _ _ H') as ->. destruct H' as [_ _ _ _ ? _ _ _ _]. lia. }
  unfold usize_checked_add. fold (record_end_at buf i v).
  assert (Hend : record_end_at buf i v = i + len_offset v + 4 + frame_len_at buf i v + 4) by done.
  destruct (Z.leb_spec (i + len_offset v + 4 + frame_len_at buf i v) usize_max) as [Hu|Hu]; cbn [mbind option_bind].
  2: { split; [done|]. intros [v' H']. pose proof (Hv _ _ H') as ->. destruct H' as [_ _ _ _ _ ? ? _ _]. lia. }
  destruct (Z.leb_spec (i + len_offset v + 4 + frame_len_at buf i v + 4) usize_max) as [Hu2|Hu2]; cbn [mbind option_bind].
  2: { split; [done|]. intros [v' H']. pose proof (Hv _ _ H') as ->. destruct H' as [_ _ _ _ _ ? ? _ _]. lia. }
  destruct (Z.ltb_spec (zlen buf) (i + len_offset v + 4 + frame_len_at buf i v + 4)).
  { split; [done|]. intros [v' H']. pose proof (Hv _ _ H') as ->. destruct H' as [_ _ _ _ _ ? [? _] _ _]. lia. }
  rewrite get_range_some, read_field_some by lia.
  replace (i + len_offset v + 4 + frame_len_at buf i v - (i + len_offset v + 4)) with (frame_len_at buf i v) by lia.
  rewrite crc_of_concat, (crc_chunks_contiguous buf i v) by (done || lia).
  assert (Ef : take (Z.to_nat (frame_len_at buf i v)) (drop (Z.to_nat (i + len_offset v + 4)) buf) =
    slice buf (i + len_offset v + 4) (record_end_at buf i v - 4)) by (unfold slice; do 2 f_equal; lia).
  rewrite Ef. clear Ef. replace (i + len_offset v + 4 + frame_len_at buf i v) with (record_end_at buf i v - 4) by lia.
  replace (record_end_at buf i v - 4 + 4) with (record_end_at buf i v) by lia.
  destruct (Z.eqb_spec (crc32_ieee (slice buf (i + 4) (record_end_at buf i v - 4))) (le_field buf (record_end_at buf i v - 4) 4)) as [Ec|Ec].
  - split.
    + intros [= <-]. exists v. constructor; cbn [dr_ws_type dr_frame_seq dr_received_at_nanos dr_endpoint_byte dr_end dr_frame]; try done; lia.
    + intros [v' H']. pose proof (Hv _ _ H') as ->. destruct H' as [_ _ Hw Hh' _ He _ Hf _]. destruct r. cbn in *. congruence.
  - split; [done|]. intros [v' H']. pose proof (Hv _ _ H') as ->. destruct H' as [_ _ _ _ _ He _ _ Hs]. congruence.
Qed.

(** The guards keep every read of the decoder inside the buffer. *)
Lemma decode_never_panics buf i max : decode_record_at buf i max <> DPanic.
Proof.
  unfold decode_record_at. destruct (get_range buf i (i + 4)) as [magic|] eqn:Em; [|done].
  apply get_range_inv in Em as (Hi & _ & _). destruct (version_of magic) as [v|]; [|done].
  pose proof (version_bounds v) as [_ Hb]. pose proof (frame_len_nonneg buf i v).
  destruct (Z.ltb_spec (zlen buf) (i + min_record v)); [done|].
  destruct (header_reads buf i v) as (-> & -> & ->); [lia..|]. destruct (ws_from_u8 _); [|done].
  destruct (header_fields buf i v) as [[seq recv] ep]. destruct (_ <? _); [done|].
  unfold usize_checked_add. destruct (_ <=? usize_max); [|done]. cbn [mbind option_bind]. destruct (_ <=? usize_max); [|done].
  destruct (Z.ltb_spec (zlen buf) (i + len_offset v + 4 + frame_len_at buf i v + 4)); [done|].
  rewrite get_range_some, read_field_some by lia. by destruct (_ =? _).
Qed.

(** * The resync scan *)

Definition readable (buf : list byte) (i : Z) : Prop := exists r, decode_record_at buf i WAL_RESYNC_MAX_FRAME_BYTES = DRecord r.

#[global] Instance readable_dec buf i : Decision (readable buf i).
Proof.
  refine (match decode_record_at buf i WAL_RESYNC_MAX_FRAME_BYTES as d return
    Decision (exists r, d = DRecord r) with DRecord r => left _ | _ => right _ end); [eauto|by intros []..].
Defined.

Lemma readable_room buf i : readable buf i -> 0 <= i /\ i + WAL_MIN_RECORD_V1 <= zlen buf /\ is_magic (drop (Z.to_nat i) buf) = true.
Proof.
  intros [r [v [Hm Hs _ _ _ He [Hr _] _ _]]%decode_intact].
  pose proof (version_bounds v). pose proof (frame_len_nonneg buf i v). unfold record_end_at, WAL_MIN_RECORD_V1 in *.
  split; [done|]. split; [lia|]. unfold slice in Hm. replace (Z.to_nat (i + 4 - i)) with 4%nat in Hm by lia.
  unfold is_magic. rewrite Hm. done.
Qed.

Lemma find_magic_spec l : match find_magic l with
  | Some k => is_magic (drop k l) = true /\ (k < length l)%nat /\ forall k', (k' < k)%nat -> is_magic (drop k' l) = false
  | None => forall k, is_magic (drop k l) = false
  end.
Proof.
  induction l as [|b l IH]; [by intros k; rewrite drop_nil|]. cbn [find_magic]. destruct (is_magic (b :: l)) eqn:E.
  - split; [done|]. split; [cbn; lia|lia].
  - destruct (find_magic l) as [k|]; cbn.
    + destruct IH as (H1 & H2 & H3). split; [done|]. split; [lia|]. intros [|k'] H; [done|]. cbn. apply H3. lia.
    + intros [|k]; [done|]. apply IH.
Qed.

(** The first readable position at or after [j], if there is one. *)
Definition resync_answer (buf : list byte) (j : Z) (found : option Z) : Prop :=
  match found with
  | Some next => j <= next /\ readable buf next /\ forall k, j <= k < next -> ~ readable buf k
  | None => forall k, j <= k -> ~ readable buf k
  end.

Lemma resync_further buf j at_ found : (forall k, j <= k < at_ -> ~ readable buf k) -> ~ readable buf at_ -> j <= at_ ->
  resync_answer buf (at_ + 1) found -> resync_answer buf j found.
Proof.
  intros Hb Hat Hj Hf. assert (Hb' : forall k, j <= k < at_ + 1 -> ~ readable buf k).
  { intros k Hk. destruct (decide (k = at_)) as [->|]; [done|]. apply Hb. lia. }
  destruct found as [next|].
  - destruct Hf as (H1 & H2 & H3). split; [lia|]. split; [done|]. intros k Hk.
    destruct (Z.lt_ge_cases k (at_ + 1)); [apply Hb'|apply H3]; lia.
  - intros k Hk. destruct (Z.lt_ge_cases k (at_ + 1)); [apply Hb'|apply Hf]; lia.
Qed.

Lemma resync_loop_spec fuel buf j : 0 <= j -> zlen buf - j < Z.of_nat fuel -> (0 < fuel)%nat ->
  exists found, resync_loop fuel buf j = Some found /\ resync_answer buf j found.
Proof.
  revert j. induction fuel as [|fuel IH]; intros j Hj Hf H0; [lia|]. clear H0.
  cbn [resync_loop]. destruct (Z.ltb_spec (zlen buf) (j + WAL_MIN_RECORD_V1)) as [|Hge].
  { eexists. split; [done|]. intros k Hk Hr%readable_room. lia. }
  pose proof (find_magic_spec (drop (Z.to_nat j) buf)) as Hm. destruct (find_magic _) as [rel|].
  2: { eexists. split; [done|]. intros k Hk Hr%readable_room. specialize (Hm (Z.to_nat (k - j))). rewrite drop_drop in Hm.
       replace (Z.to_nat j + Z.to_nat (k - j))%nat with (Z.to_nat k) in Hm by lia. destruct Hr as (_ & _ & Hr). congruence. }
  destruct Hm as (_ & Hlt & Hm). set (at_ := j + Z.of_nat rel).
  assert (Hbefore : forall k, j <= k < at_ -> ~ readable buf k).
  { intros k Hk Hr%readable_room. specialize (Hm (Z.to_nat (k - j))). rewrite drop_drop in Hm.
    replace (Z.to_nat j + Z.to_nat (k - j))%nat with (Z.to_nat k) in Hm by lia.
    destruct Hr as (_ & _ & Hr). rewrite Hm in Hr; [done|lia]. }
  pose proof (decode_never_panics buf at_ WAL_RESYNC_MAX_FRAME_BYTES) as Hp.
  destruct (decode_record_at buf at_ WAL_RESYNC_MAX_FRAME_BYTES) as [r| | |] eqn:E; [| | |done].
  { eexists. split; [done|]. split; [lia|]. split; [by exists r|]. exact Hbefore. }
  all: assert (Hat : ~ readable buf at_) by (intros [r Hr]; congruence); unfold WAL_MIN_RECORD_V1 in Hge;
    destruct (IH (at_ + 1) ltac:(lia) ltac:(lia) ltac:(lia)) as (found & -> & Hfound); exists found; (split; [done|]);
    apply (resync_further buf j at_); [done|done|lia|done].
Qed.

Lemma resync_from_spec buf j : 0 <= j -> exists found, resync_from buf j = Some found /\ resync_answer buf j found.
Proof. intros H. apply resync_loop_spec; [done|unfold zlen; lia|lia]. Qed.

(** * The walk against a reference

    [journey]: the records the walk visits from an offset on; between two of
    them, and after the last, no record is readable. *)

Definition stands (buf : list byte) (i : Z) : Prop := exists r, decode_record_at buf i usize_max = DRecord r.

Fixpoint journey (buf : list byte) (from : Z) (l : list (Z * DecodedRecord)) : Prop :=
  match l with
  | [] => ~ stands buf from /\ forall k, from <= k -> ~ readable buf k
  | (o, r) :: l =>
      from <= o /\ decode_record_at buf o usize_max = DRecord r /\ (from < o -> ~ stands buf from /\ readable buf o) /\
      (forall k, from < k < o -> ~ readable buf k) /\ journey buf (dr_end r) l
  end.

(** What is handed on of the records visited, and whether a gap is left open. *)
Fixpoint deliver (applied : option (AppliedSink -> Z -> bool)) (keep : Z -> WalEndpoint -> bool)
    (from : Z) (gap : bool) (out : list ReplayedFrame) (l : list (Z * DecodedRecord)) : list ReplayedFrame * bool :=
  match l with
  | [] => (out, gap)
  | (o, r) :: l =>
      let gap := gap || (from <? o) in
      if is_applied applied r then
        deliver applied keep (dr_end r) (gap || frame_feeds_the_candle_fold (dr_ws_type r) (record_endpoint r)) out l
      else if keep (dr_frame_seq r) (record_endpoint r) then
        deliver applied keep (dr_end r) false (out ++ [replayed r gap (bool_decide (out = []))]) l
      else deliver applied keep (dr_end r) gap out l
  end.

(** Nothing was skipped, and what is left is a record cut short by the end. *)
Fixpoint undamaged (buf : list byte) (from : Z) (l : list (Z * DecodedRecord)) : Prop :=
  match l with
  | [] => zlen buf < from + WAL_MIN_RECORD_V1 \/
      exists len, decode_record_at buf from usize_max = PastEnd len /\ forall n, len = Some n -> n <= WAL_RESYNC_MAX_FRAME_BYTES
  | (o, r) :: l => o = from /\ undamaged buf (dr_end r) l
  end.

Lemma intact_end buf i max v r : intact buf i max v r -> i + WAL_MIN_RECORD_V1 <= dr_end r <= zlen buf.
Proof.
  intros [_ _ _ _ _ He [Hr _] _ _]. pose proof (version_bounds v). pose proof (frame_len_nonneg buf i v).
  unfold record_end_at, WAL_MIN_RECORD_V1 in *. lia.
Qed.

Lemma readable_stands buf i : readable buf i -> stands buf i.
Proof.
  intros [r [v H]%decode_intact]. exists r. apply decode_intact. exists v. destruct H. constructor; try done.
  unfold WAL_RESYNC_MAX_FRAME_BYTES, usize_max, u64_max in *. lia.
Qed.

Lemma journey_head buf i r l : decode_record_at buf i usize_max = DRecord r -> journey buf i l ->
  exists l', l = (i, r) :: l' /\ journey buf (dr_end r) l'.
Proof.
  intros H. destruct l as [|[o r'] l]; cbn; [intros [Hn _]; destruct Hn; by exists r|].
  intros (H1 & H2 & H3 & _ & H5). destruct (decide (i = o)) as [<-|].
  { assert (r = r') as <- by congruence. eauto. }
  destruct H3 as [Hn _]; [lia|]. destruct Hn. by exists r.
Qed.

Lemma journey_skip buf i next l : i < next -> ~ stands buf i -> readable buf next ->
  (forall k, i + 1 <= k < next -> ~ readable buf k) -> journey buf next l -> journey buf i l.
Proof.
  intros Hlt Hn Hrd Hb Hj. pose proof Hrd as [r Hr]%readable_stands. destruct (journey_head _ _ _ _ Hr Hj) as (l' & -> & Hj').
  cbn. split_and!; [lia|done|done| |done]. intros k Hk. apply Hb. lia.
Qed.

Lemma deliver_skip applied keep i next gap out o r l : i < o -> next <= o ->
  deliver applied keep i gap out ((o, r) :: l) = deliver applied keep next true out ((o, r) :: l).
Proof. intros H1 H2. cbn. destruct (Z.ltb_spec i o); [|lia]. by rewrite orb_true_r. Qed.

Definition clean (w : WalkState) : bool :=
  negb (unreadable w || bool_decide (is_Some (corrupted_at w)) || (0 <? tally_gaps (wk_resync w))).

Lemma take_record_spec applied keep r w : exists n,
  take_record applied keep r w =
    let '(out, gap) := deliver applied keep 0 (gap_pending w) (wk_out w) [(0, r)] in
    mkWalk out gap (wk_resync w) (corrupted_at w) (unreadable w) n
      (if endpoint_unknown r then u64_saturating_add (unknown_endpoint w) 1 else unknown_endpoint w).
Proof.
  destruct w as [out gap t c u d n]. unfold take_record. cbn [deliver gap_pending wk_out].
  change (0 <? 0) with false. rewrite orb_false_r.
  exists (if is_applied applied r then u64_saturating_add d 1 else d).
  destruct (is_applied applied r); [done|]. by destruct (keep _ _).
Qed.

Lemma deliver_cons applied keep from gap out o r l : 
  deliver applied keep from gap out ((o, r) :: l) =
  let '(out', gap') := deliver applied keep 0 (gap || (from <? o)) out [(0, r)] in deliver applied keep (dr_end r) gap' out' l.
Proof.
  cbn. rewrite orb_false_r. destruct (is_applied applied r); [done|]. by destruct (keep _ _).
Qed.

Lemma tally_gaps_grow n : 0 <= n <= u64_max -> 0 < u64_saturating_add n 1 <= u64_max.
Proof. zints. Qed.

(** What one turn does: it visits a record, resyncs, or ends. *)
Lemma walk_turn_cases buf applied keep i w : 0 <= i ->
  match walk_turn buf applied keep i w with
  | None => False
  | Some (Some next, w') =>
      (exists r, decode_record_at buf i usize_max = DRecord r /\ next = dr_end r /\ w' = take_record applied keep r w) \/
      (exists reason, ~ stands buf i /\ i < next /\ readable buf next /\ (forall k, i + 1 <= k < next -> ~ readable buf k) /\
         w' = skip_to reason i next w)
  | Some (None, w') => ~ stands buf i /\ (forall k, i + 1 <= k -> ~ readable buf k) /\
      (exists c u, w' = mkWalk (wk_out w) (gap_pending w) (wk_resync w) c u (dropped_as_applied w) (unknown_endpoint w)) /\
      (clean w' = true <-> clean w = true /\ exists len, decode_record_at buf i usize_max = PastEnd len /\
         forall n, len = Some n -> n <= WAL_RESYNC_MAX_FRAME_BYTES)
  end.
Proof.
  intros Hi. unfold walk_turn. destruct (resync_from_spec buf (i + 1) ltac:(lia)) as (found & -> & Hs). cbn [mbind option_bind].
  pose proof (decode_never_panics buf i usize_max) as Hp.
  assert (Hns : forall d, decode_record_at buf i usize_max = d -> (forall r, d <> DRecord r) -> ~ stands buf i)
    by (intros d H1 H2 [r Hr]; apply (H2 r); congruence).
  destruct (decode_record_at buf i usize_max) as [r|len|reason|] eqn:E; [left; eauto| | |done].
  all: destruct found as [next|];
    [destruct Hs as (H1 & H2 & H3); right; eexists; split_and!; [exact (Hns _ eq_refl ltac:(done))|lia|done|done|done]|].
  - split; [exact (Hns _ eq_refl ltac:(done))|]. split; [done|]. destruct w as [out g t c u d n]. split.
    { destruct (match len with Some _ => _ | None => _ end); eauto. }
    destruct len as [l|]; cycle 1.
    { split; [intros Hc; split; [exact Hc|]; exists None; by split|by intros [? _]]. }
    destruct (Z.ltb_spec WAL_RESYNC_MAX_FRAME_BYTES l).
    { split; [unfold clean; cbn; by rewrite orb_true_r|]. intros (_ & len & [= <-] & Hn). specialize (Hn l eq_refl). lia. }
    split; [|by intros [? _]]. intros Hc. split; [done|]. exists (Some l). split; [done|]. by intros ? [= <-].
  - split; [exact (Hns _ eq_refl ltac:(done))|]. split; [done|]. destruct w as [out g t c u d n].
    destruct (_ && _); (split; [cbn; eauto|]); (split; [unfold clean; cbn; rewrite ?orb_true_r; done|by intros (_ & ? & ? & _)]).
Qed.

Lemma walk_spec buf applied keep fuel i w : 0 <= i -> zlen buf - i < Z.of_nat fuel -> (0 < fuel)%nat ->
  0 <= tally_gaps (wk_resync w) <= u64_max ->
  exists w' l, segment_walk fuel buf applied keep i w = Some w' /\ journey buf i l /\
    deliver applied keep i (gap_pending w) (wk_out w) l = (wk_out w', gap_pending w') /\
    (clean w' = true <-> clean w = true /\ undamaged buf i l).
Proof.
  revert i w. induction fuel as [|fuel IH]; intros i w Hi Hf H0 Ht; [lia|]. clear H0. cbn [segment_walk].
  destruct (Z.ltb_spec (zlen buf) (i + WAL_MIN_RECORD_V1)) as [Hlt|Hge].
  { exists w, []. split_and!; [done| |done|cbn; split; [by eauto|by intros [? _]]].
    split; [|by intros k Hk Hr%readable_room; lia]. intros [r [v H%intact_end]%decode_intact]. lia. }
  unfold WAL_MIN_RECORD_V1 in Hge. pose proof (walk_turn_cases buf applied keep i w Hi) as Hc.
  destruct (walk_turn buf applied keep i w) as [[[next|] w1]|]; [| |done]; cbn [mbind option_bind].
  2: { destruct Hc as (H1 & H2 & (c & u & ->) & H3). eexists _, []. split_and!; [done| |done|].
       - cbn. split; [done|]. intros k Hk Hr. destruct (decide (k = i)) as [->|]; [by apply H1, readable_stands|].
         apply (H2 k); [lia|done].
       - rewrite H3. cbn. split; [intros [? ?]; split; [done|by right]|]. intros [? [?|?]]; [unfold WAL_MIN_RECORD_V1 in *; lia|done]. }
  destruct Hc as [(r & Hr & -> & ->)|(reason & H1 & H2 & H3 & H4 & ->)].
  - pose proof Hr as [v Hv%intact_end]%decode_intact. unfold WAL_MIN_RECORD_V1 in Hv.
    destruct (take_record_spec applied keep r w) as [n ->].
    destruct (deliver applied keep 0 (gap_pending w) (wk_out w) [(0, r)]) as [out gap] eqn:Ed.
    match goal with |- context [segment_walk fuel buf applied keep _ ?x] => set (w1 := x) end.
    destruct (IH (dr_end r) w1) as (w' & l & H5 & H6 & H7 & H8); [lia..|done|].
    exists w', ((i, r) :: l). split_and!; [done| | |].
    + cbn. split_and!; [lia|done|lia|lia|done].
    + rewrite deliver_cons, Z.ltb_irrefl, orb_false_r, Ed. exact H7.
    + rewrite H8. cbn. change (clean w1) with (clean w). by split; [intros [? ?]|intros (? & _ & ?)].
  - destruct (IH next (skip_to reason i next w)) as (w' & l & H5 & H6 & H7 & H8); [lia..| |].
    { pose proof (tally_gaps_grow _ Ht). cbn. lia. }
    destruct (readable_stands _ _ H3) as [r Hr]. destruct (journey_head _ _ _ _ Hr H6) as (l' & -> & _).
    eexists w', _. split_and!; [done|by eapply journey_skip| |].
    + rewrite (deliver_skip _ _ i next) by lia. exact H7.
    + split; [|cbn; intros (_ & ? & _); lia]. intros [H9 _]%H8. exfalso. revert H9. unfold clean. cbn.
      pose proof (tally_gaps_grow _ Ht) as Hg.
      destruct (Z.ltb_spec 0 (u64_saturating_add (tally_gaps (wk_resync w)) 1)); [by rewrite orb_true_r|]. lia.
Qed.

(** A readable record is visited or lies inside one that is. *)
Definition visited (k : Z) (l : list (Z * DecodedRecord)) : Prop := Exists (fun p => p.1 <= k < dr_end p.2) l.

Lemma journey_covers buf i l k : journey buf i l -> i <= k -> readable buf k -> visited k l.
Proof.
  revert i. induction l as [|[o r] l IH]; intros i Hj Hk Hr; [by destruct Hj as [_ Hn]; destruct (Hn k)|].
  destruct Hj as (H1 & H2 & H3 & H4 & H5). unfold visited. apply Exists_cons. cbn.
  destruct (Z.lt_ge_cases k o) as [Hlt|Hge].
  - exfalso. destruct (decide (k = i)) as [->|]; [by destruct (H3 Hlt) as [[] _]; apply readable_stands|]. apply (H4 k); [lia|done].
  - destruct (Z.lt_ge_cases k (dr_end r)); [by left|]. right. by apply (IH (dr_end r)).
Qed.

Lemma replay_spec buf applied keep : exists read l,
  replay_segment_core buf applied keep = Some read /\ journey buf 0 l /\
  deliver applied keep 0 false [] l = (sr_frames read, sr_trailing_gap read) /\
  (sr_damaged read = false <-> undamaged buf 0 l).
Proof.
  destruct (walk_spec buf applied keep (S (length buf)) 0 walk_start) as (w & l & H1 & H2 & H3 & H4);
    [done|unfold zlen; lia|lia|done|]. unfold replay_segment_core. rewrite H1. cbn [mbind option_bind].
  eexists _, l. split_and!; [done|done|exact H3|]. cbn [sr_damaged]. transitivity (clean w = true); [unfold clean; by destruct (_ || _)|].
  rewrite H4. by split; [intros [_ ?]|].
Qed.

(** C8: Replaying any bytes ends without a panic, visits every position where
    a readable record starts that no other record read covers, delivers exactly
    the records visited that are not applied and are kept, each with its gap mark,
    and reports no damage exactly when no byte between records was skipped and
    what is left after the last one is shorter than the smallest record or a
    record cut short by the end, its length unread or of at most 4 MiB. *)
Theorem replay_finds_every_readable_record buf applied keep : exists read l,
  replay_segment_core buf applied keep = Some read /\ journey buf 0 l /\
  (forall k, 0 <= k -> readable buf k -> visited k l) /\
  deliver applied keep 0 false [] l = (sr_frames read, sr_trailing_gap read) /\
  (sr_damaged read = false <-> undamaged buf 0 l).
Proof.
  destruct (replay_spec buf applied keep) as (read & l & H1 & H2 & H3 & H4). exists read, l.
  split_and!; [done|done| |done|done]. intros k Hk. by apply (journey_covers _ 0).
Qed.

(** * What was written *)

Definition record_ok (r : WalRecord) : Prop := in_u64 (wr_frame_seq r) /\ in_i64 (wr_received_at_nanos r).

Definition decoded (r : WalRecord) (at_ : Z) : DecodedRecord :=
  mkDecoded (wr_ws_type r) (wr_frame_seq r) (wr_received_at_nanos r) (Some (endpoint_as_u8 (wr_endpoint r)))
    (wr_frame r) (at_ + record_disk_size r).

(** The bytes of a written record: the packed header, the frame, the sum. *)
Definition header_format : list nat := [1; 1; 1; 1; 1; 8; 8; 1; 4]%nat.
Definition header_values (r : WalRecord) : list Z :=
  [84; 86; 87; 52; ws_as_u8 (wr_ws_type r); wr_frame_seq r; wr_received_at_nanos r mod 2 ^ 64;
   endpoint_as_u8 (wr_endpoint r); zlen (wr_frame r)].

Lemma to_signed_mod x : in_i64 x -> to_signed 64 (x mod 2 ^ 64) = x.
Proof.
  unfold in_i64, i64_min, i64_max, to_signed. change (2 ^ (64 - 1)) with 9223372036854775808. change (2 ^ 64) with 18446744073709551616.
  intros H. destruct (Z.le_gt_cases 0 x).
  - rewrite Z.mod_small by lia. destruct (Z.ltb_spec x 9223372036854775808); lia.
  - replace (x mod 18446744073709551616) with (x + 18446744073709551616).
    + destruct (Z.ltb_spec (x + 18446744073709551616) 9223372036854775808); lia.
    + symmetry. rewrite <- (Z.mod_add x 1) by lia. apply Z.mod_small. lia.
Qed.

Lemma slice_skip pre t a b : 0 <= a -> slice (pre ++ t) (zlen pre + a) (zlen pre + b) = slice t a b.
Proof.
  intros H. unfold slice. replace (zlen pre + b - (zlen pre + a)) with (b - a) by lia. f_equal.
  unfold zlen. rewrite drop_app_ge by lia. f_equal. lia.
Qed.

Lemma slice_left t post a b : b <= zlen t -> 0 <= a <= b -> slice (t ++ post) a b = slice t a b.
Proof.
  intros H1 H2. unfold slice, zlen in *. rewrite drop_app_le by lia. rewrite take_app_le; [done|]. rewrite length_drop. lia.
Qed.

Lemma slice_all t : slice t 0 (zlen t) = t.
Proof. unfold slice, zlen. rewrite drop_0, take_ge; [done|lia]. Qed.

Section written.
Context (r : WalRecord) (b : list byte) (Hw : write_record r = Some b) (Hr : record_ok r).

Lemma header_ok : pack_ok header_format (header_values r).
Proof.
  destruct Hr as [H1 _]. unfold write_record in Hw. destruct (Z.ltb_spec u32_max (zlen (wr_frame r))); [done|].
  pose proof (zlen_nonneg (wr_frame r)). unfold pack_ok, header_format, header_values.
  pose proof (Z.mod_pos_bound (wr_received_at_nanos r) (2 ^ 64) ltac:(lia)). unfold in_u64, u64_max, u32_max in *.
  change (2 ^ 64) with 18446744073709551616 in *.
  repeat constructor; cbn [Z.of_nat Pos.of_succ_nat Pos.succ]; rewrite ?Z.pow_1_r; change (256 ^ 8) with 18446744073709551616; change (256 ^ 4) with 4294967296; 
    try lia; by destruct r as [[] ? ? [] ?].
Qed.

Definition body : list byte := pack header_format (header_values r) ++ wr_frame r.

Lemma body_zlen : zlen body = 26 + zlen (wr_frame r).
Proof. unfold body. rewrite zlen_app, (zlen_pack _ _ header_ok). done. Qed.

Lemma written_bytes : b = body ++ le_encode 4 (crc32_ieee (slice body 4 (zlen body))).
Proof.
  revert Hw. unfold write_record. destruct (u32_max <? zlen (wr_frame r)); [done|]. intros [= <-].
  assert (E : body = WAL_MAGIC_V4 ++ concat [[byte_of (ws_as_u8 (wr_ws_type r))]; le_encode 8 (wr_frame_seq r);
    le_encode 8 (wr_received_at_nanos r); [byte_of (endpoint_as_u8 (wr_endpoint r))]; le_encode 4 (zlen (wr_frame r)); wr_frame r]).
  { unfold body. rewrite <- (le_encode_mod 8 (wr_received_at_nanos r)). unfold pack, header_format, header_values.
    cbn [zip_with concat]. rewrite <- !app_assoc, !app_nil_r. done. }
  replace (slice body 4 (zlen body)) with (concat [[byte_of (ws_as_u8 (wr_ws_type r))]; le_encode 8 (wr_frame_seq r);
    le_encode 8 (wr_received_at_nanos r); [byte_of (endpoint_as_u8 (wr_endpoint r))]; le_encode 4 (zlen (wr_frame r)); wr_frame r]).
  - rewrite <- crc_of_concat, E. rewrite <- !app_assoc. do 2 f_equal. cbn [concat]. by rewrite app_nil_r, <- !app_assoc.
  - rewrite E. set (c := concat _). clearbody c. rewrite zlen_app.
    pose proof (slice_skip WAL_MAGIC_V4 c 0 (zlen c) ltac:(lia)) as Hs. rewrite slice_all in Hs. symmetry. exact Hs.
Qed.

Lemma written_zlen : zlen b = record_disk_size r.
Proof. rewrite written_bytes, zlen_app, body_zlen, zlen_le_encode. unfold record_disk_size, WAL_MIN_RECORD_V4. lia. Qed.

Lemma written_field k off n : header_format !! k = Some n -> fmt_size (take k header_format) = off ->
  le_field b off n = nth k (header_values r) 0.
Proof. intros. rewrite written_bytes. unfold body. rewrite <- app_assoc. by apply le_field_pack; [apply header_ok|..]. Qed.

Lemma written_intact : zlen b <= usize_max -> intact b 0 (zlen (wr_frame r)) V4 (decoded r 0).
Proof.
  intros Hu. pose proof written_zlen as Hz. pose proof body_zlen as Hb. unfold record_disk_size, WAL_MIN_RECORD_V4 in *.
  assert (Hl : frame_len_at b 0 V4 = zlen (wr_frame r)) by (apply (written_field 8 22 4); done).
  pose proof (zlen_nonneg (wr_frame r)) as Hp.
  constructor; cbn [decoded dr_ws_type dr_frame_seq dr_received_at_nanos dr_endpoint_byte dr_end dr_frame];
    unfold record_disk_size, record_end_at, WAL_MIN_RECORD_V4; rewrite ?Hl; cbn [len_offset]; try lia.
  - rewrite written_bytes. unfold body. rewrite <- app_assoc. done.
  - rewrite (written_field 4 (0 + 4) 1) by done. apply ws_roundtrip.
  - unfold header_fields. rewrite (written_field 5 (0 + 5) 8), (written_field 6 (0 + 13) 8), (written_field 7 (0 + 21) 1) by done.
    cbn [nth header_values]. rewrite to_signed_mod by apply Hr. done.
  - rewrite written_bytes, slice_left by lia. unfold body. set (h := pack _ _).
    assert (Hh : zlen h = 26) by (apply (zlen_pack _ _ header_ok)).
    replace (0 + 22 + 4) with (zlen h + 0) by lia. replace (0 + (30 + zlen (wr_frame r)) - 4) with (zlen h + zlen (wr_frame r)) by lia.
    by rewrite slice_skip, slice_all.
  - replace (0 + (30 + zlen (wr_frame r)) - 4) with (zlen body) by lia. rewrite written_bytes at 1.
    rewrite slice_left by lia. rewrite written_bytes, le_field_skip, Z.sub_diag by lia.
    rewrite <- (app_nil_r (le_encode 4 _)), le_field_here by done. symmetry. apply Z.mod_small, crc_range.
Qed.
End written.

(** ** A record moves with its bytes *)

Definition agree (buf : list byte) (i : Z) (buf' : list byte) (j len : Z) : Prop :=
  forall a b, 0 <= a <= b -> b <= len -> slice buf (i + a) (i + b) = slice buf' (j + a) (j + b).

Definition moved (r : DecodedRecord) (d : Z) : DecodedRecord :=
  mkDecoded (dr_ws_type r) (dr_frame_seq r) (dr_received_at_nanos r) (dr_endpoint_byte r) (dr_frame r) (dr_end r + d).

Lemma le_field_slice buf off n : le_field buf off n = le_decode (slice buf off (off + Z.of_nat n)).
Proof. unfold le_field, slice. do 3 f_equal. lia. Qed.

Lemma agree_field buf i buf' j len k n : agree buf i buf' j len -> 0 <= k -> k + Z.of_nat n <= len ->
  le_field buf (i + k) n = le_field buf' (j + k) n.
Proof. intros H H1 H2. rewrite !le_field_slice, <- !Z.add_assoc. f_equal. apply H; lia. Qed.

Lemma intact_moves buf i buf' j max v r : intact buf i max v r -> agree buf i buf' j (dr_end r - i) ->
  0 <= j -> j + (dr_end r - i) <= zlen buf' -> j + (dr_end r - i) <= usize_max -> intact buf' j max v (moved r (j - i)).
Proof.
  intros [Hm Hs Hw Hh Hc He Hroom Hf Hsum] Ha Hj Hz Hu. pose proof (frame_len_nonneg buf i v) as Hp.
  pose proof (version_bounds v) as [_ Hv]. unfold record_end_at in He.
  assert (Hl : frame_len_at buf' j v = frame_len_at buf i v) by (symmetry; eapply (agree_field buf i buf' j); [done|lia..]).
  constructor; cbn [moved dr_ws_type dr_frame_seq dr_received_at_nanos dr_endpoint_byte dr_end dr_frame].
  - specialize (Ha 0 4 ltac:(lia) ltac:(lia)). rewrite !Z.add_0_r in Ha. by rewrite <- Ha.
  - done.
  - by rewrite <- (agree_field _ _ _ _ _ 4 1 Ha) by lia.
  - rewrite <- Hh. destruct v; cbn in *; rewrite ?(agree_field _ _ _ _ _ 5 8 Ha), ?(agree_field _ _ _ _ _ 13 8 Ha), ?(agree_field _ _ _ _ _ 21 1 Ha) by lia; done.
  - by rewrite Hl.
  - unfold record_end_at. rewrite Hl. lia.
  - lia.
  - rewrite Hf. specialize (Ha (len_offset v + 4) (dr_end r - i - 4) ltac:(lia) ltac:(lia)).
    replace (i + (len_offset v + 4)) with (i + len_offset v + 4) in Ha by lia.
    replace (i + (dr_end r - i - 4)) with (dr_end r - 4) in Ha by lia. rewrite Ha. f_equal; lia.
  - replace (dr_end r + (j - i) - 4) with (j + (dr_end r - i - 4)) by lia.
    rewrite <- (agree_field _ _ _ _ _ (dr_end r - i - 4) 4 Ha) by lia.
    rewrite <- (Ha 4 (dr_end r - i - 4)) by lia. by replace (i + (dr_end r - i - 4)) with (dr_end r - 4) by lia.
Qed.

Lemma agree_inside pre t post k len : 0 <= k -> k + len <= zlen t ->
  agree t k (pre ++ t ++ post) (zlen pre + k) len.
Proof.
  intros H1 H2 a b H3 H4. rewrite <- !Z.add_assoc, slice_skip, slice_left by lia. done.
Qed.

Lemma agree_sym buf i buf' j len : agree buf i buf' j len -> agree buf' j buf i len.
Proof. intros H a b H1 H2. symmetry. by apply H. Qed.

Lemma decode_inside pre t post k max r : zlen (pre ++ t ++ post) <= usize_max ->
  decode_record_at t k max = DRecord r -> decode_record_at (pre ++ t ++ post) (zlen pre + k) max = DRecord (moved r (zlen pre)).
Proof.
  intros Hu [v H]%decode_intact. apply decode_intact. exists v. pose proof (intact_end _ _ _ _ _ H) as He.
  pose proof (in_start _ _ _ _ _ H). unfold WAL_MIN_RECORD_V1 in He. rewrite !zlen_app in Hu.
  pose proof (zlen_nonneg pre). pose proof (zlen_nonneg post).
  replace (zlen pre) with (zlen pre + k - k) at 2 by lia.
  apply (intact_moves t k); [done|apply agree_inside; lia|rewrite ?zlen_app; lia..].
Qed.

Lemma decode_suffix pre t k max r : 0 <= k -> decode_record_at (pre ++ t) (zlen pre + k) max = DRecord r ->
  decode_record_at t k max = DRecord (moved r (- zlen pre)).
Proof.
  intros Hk [v H]%decode_intact. apply decode_intact. exists v.
  pose proof (intact_end _ _ _ _ _ H) as He. pose proof (in_room _ _ _ _ _ H).
  unfold WAL_MIN_RECORD_V1 in He. rewrite zlen_app in He. pose proof (zlen_nonneg pre).
  replace (- zlen pre) with (k - (zlen pre + k)) by lia.
  apply (intact_moves (pre ++ t) (zlen pre + k)); [done| |lia..].
  apply agree_sym. rewrite <- (app_nil_r t) at 2. apply agree_inside; lia.
Qed.

(** ** A log is the concatenation of its records *)

Inductive logged : list WalRecord -> list byte -> Prop :=
  | logged_nil : logged [] []
  | logged_cons r b rs bs : write_record r = Some b -> record_ok r -> logged rs bs -> logged (r :: rs) (b ++ bs).

(** Where each record of the log lies, the log starting at [at_]. *)
Fixpoint places (at_ : Z) (rs : list WalRecord) : list (Z * DecodedRecord) :=
  match rs with
  | [] => []
  | r :: rs => (at_, decoded r at_) :: places (at_ + record_disk_size r) rs
  end.

Definition fits (r : WalRecord) : Prop := zlen (wr_frame r) <= WAL_RESYNC_MAX_FRAME_BYTES.

Lemma written_len r b : write_record r = Some b -> zlen (wr_frame r) <= usize_max.
Proof. unfold write_record. destruct (Z.ltb_spec u32_max (zlen (wr_frame r))); [done|]. intros _. zints. Qed.

(** A written record decodes wherever it stands. *)
Lemma written_decode pre r b post max : write_record r = Some b -> record_ok r -> zlen (pre ++ b ++ post) <= usize_max ->
  zlen (wr_frame r) <= max -> decode_record_at (pre ++ b ++ post) (zlen pre) max = DRecord (decoded r (zlen pre)).
Proof.
  intros Hw Hr Hu Hm. assert (Hd : decode_record_at b 0 max = DRecord (decoded r 0)).
  { apply decode_intact. exists V4. destruct (written_intact r b Hw Hr) as [? ? ? ? ? ? ? ? ?]; [|by constructor; try lia].
    rewrite !zlen_app in Hu. pose proof (zlen_nonneg pre). pose proof (zlen_nonneg post). lia. }
  apply (decode_inside pre b post) in Hd; [|done]. rewrite Z.add_0_r in Hd. rewrite Hd. f_equal.
  unfold moved, decoded. cbn. f_equal. lia.
Qed.

Lemma logged_journey rs bs pre post l : logged rs bs -> zlen (pre ++ bs ++ post) <= usize_max ->
  journey (pre ++ bs ++ post) (zlen pre) l ->
  exists l', l = places (zlen pre) rs ++ l' /\ journey (pre ++ bs ++ post) (zlen (pre ++ bs)) l'.
Proof.
  intros Hl. revert pre l. induction Hl as [|r b rs bs Hw Hr _ IH]; intros pre l Hu Hj.
  - exists l. by rewrite app_nil_r.
  - rewrite <- app_assoc in *. destruct (journey_head _ _ _ _ (written_decode pre r b (bs ++ post) _ Hw Hr Hu (written_len _ _ Hw)) Hj) as (l1 & -> & Hj1).
    cbn [decoded dr_end] in Hj1. rewrite <- (written_zlen r b Hw Hr), <- zlen_app, app_assoc in Hj1.
    rewrite app_assoc in Hu. destruct (IH _ _ Hu Hj1) as (l' & -> & Hj'). exists l'. cbn [places].
    rewrite zlen_app, (written_zlen r b Hw Hr) in *. split; [done|]. rewrite <- !app_assoc in *.
    replace (zlen (pre ++ b ++ bs)) with (zlen (pre ++ b) + zlen bs) by (rewrite !zlen_app; lia). exact Hj'.
Qed.

Definition frame_of (r : WalRecord) (after_gap first : bool) : ReplayedFrame :=
  mkReplayed (wr_ws_type r) (wr_frame r) (wr_frame_seq r) (wr_received_at_nanos r) (wr_endpoint r) after_gap first.

(** The frames of consecutive records; only the first can follow a gap. *)
Definition frames_of (rs : list WalRecord) (after_gap first : bool) : list ReplayedFrame :=
  match rs with
  | [] => []
  | r :: rs => frame_of r after_gap first :: ((fun r => frame_of r false false) <$> rs)
  end.

Definition keep_all (seq : Z) (e : WalEndpoint) : bool := true.

Lemma replayed_decoded r at_ gap first : replayed (decoded r at_) gap first = frame_of r gap first.
Proof. unfold replayed, decoded, frame_of, record_endpoint. cbn. by rewrite endpoint_roundtrip. Qed.

Lemma frames_of_cons r rs gap first : frames_of (r :: rs) gap first = frame_of r gap first :: frames_of rs false false.
Proof. by destruct rs. Qed.

Definition disk_size (rs : list WalRecord) : Z := foldr (fun r n => record_disk_size r + n) 0 rs.

Lemma logged_zlen rs bs : logged rs bs -> zlen bs = disk_size rs.
Proof.
  induction 1 as [|r b rs bs Hw Hr _ IH]; [done|]. cbn. by rewrite zlen_app, (written_zlen r b Hw Hr), IH.
Qed.

Lemma deliver_places at_ gap out rs l : deliver None keep_all at_ gap out (places at_ rs ++ l) =
  deliver None keep_all (at_ + disk_size rs) (match rs with [] => gap | _ => false end)
    (out ++ frames_of rs gap (bool_decide (out = []))) l.
Proof.
  revert at_ gap out. induction rs as [|r rs IH]; intros at_ gap out.
  - cbn. by rewrite Z.add_0_r, app_nil_r.
  - cbn [places app deliver is_applied disk_size foldr decoded dr_end]. rewrite Z.ltb_irrefl, orb_false_r, replayed_decoded, IH.
    fold (disk_size rs). rewrite frames_of_cons, Z.add_assoc, <- app_assoc. cbn [app].
    rewrite (bool_decide_false (_ ++ [_] = [])) by (by destruct out). by destruct rs.
Qed.

Lemma undamaged_places buf at_ rs l : undamaged buf at_ (places at_ rs ++ l) <-> undamaged buf (at_ + disk_size rs) l.
Proof.
  revert at_. induction rs as [|r rs IH]; intros at_; cbn [places app undamaged disk_size foldr]; [by rewrite Z.add_0_r|].
  cbn [decoded dr_end]. rewrite IH. fold (disk_size rs). rewrite Z.add_assoc. by split; [intros [_ ?]|].
Qed.

(** ** A record cut short *)

Lemma torn_past_end r b pre tail rest : write_record r = Some b -> record_ok r -> b = tail ++ rest -> rest <> [] ->
  zlen (pre ++ b) <= usize_max -> fits r ->
  exists len, decode_record_at (pre ++ tail) (zlen pre) usize_max = PastEnd len /\
    forall n, len = Some n -> n <= WAL_RESYNC_MAX_FRAME_BYTES.
Proof.
  intros Hw Hr Hb Hrest Hu Hfit. rewrite zlen_app in Hu. pose proof (zlen_nonneg pre).
  pose proof (written_intact r b Hw Hr ltac:(lia)) as Hi. pose proof (written_zlen r b Hw Hr) as Hz.
  assert (Hlt : zlen tail < zlen b).
  { rewrite Hb, zlen_app. destruct rest; [done|]. rewrite zlen_cons. pose proof (zlen_nonneg rest). lia. }
  unfold record_disk_size, WAL_MIN_RECORD_V4 in Hz. set (buf := pre ++ tail).
  assert (Hz' : zlen buf = zlen pre + zlen tail) by apply zlen_app. unfold decode_record_at.
  destruct (Z.le_gt_cases 4 (zlen tail)) as [H4|H4].
  2: { exists None. unfold get_range. by destruct (Z.leb_spec (zlen pre + 4) (zlen buf)); [lia|]; rewrite andb_false_r. }
  rewrite get_range_some by lia. fold (slice buf (zlen pre) (zlen pre + 4)).
  assert (Hs : forall k n, 0 <= k -> k + Z.of_nat n <= zlen tail -> le_field buf (zlen pre + k) n = le_field b k n).
  { intros k n ? ?. unfold buf. rewrite !le_field_slice, <- Z.add_assoc, slice_skip, Hb, slice_left by lia. done. }
  assert (Hm : version_of (slice buf (zlen pre) (zlen pre + 4)) = Some V4).
  { pose proof (in_magic _ _ _ _ _ Hi) as Hm. rewrite Hb, slice_left in Hm by lia.
    unfold buf. rewrite <- (Z.add_0_r (zlen pre)) at 1. by rewrite slice_skip. }
  rewrite Hm. clear Hm. cbn [min_record]. unfold WAL_MIN_RECORD_V4.
  destruct (Z.ltb_spec (zlen buf) (zlen pre + 30)) as [|H30]; [by exists None|].
  pose proof (in_ws _ _ _ _ _ Hi) as Hws. cbn [decoded dr_ws_type] in Hws. change (0 + 4) with 4 in Hws.
  destruct (header_reads buf (zlen pre) V4) as (-> & -> & ->); [lia|cbn; unfold WAL_MIN_RECORD_V4; lia|]. unfold frame_len_at.
  rewrite (Hs 4), Hws by lia. cbn [header_fields len_offset].
  assert (Hl : le_field buf (zlen pre + 22) 4 = zlen (wr_frame r)).
  { rewrite Hs by lia. by apply (written_field r b Hw Hr 8). }
  rewrite Hl. pose proof (written_len r b Hw). destruct (Z.ltb_spec usize_max (zlen (wr_frame r))); [lia|].
  unfold usize_checked_add. destruct (Z.leb_spec (zlen pre + 22 + 4 + zlen (wr_frame r)) usize_max); [|lia]. cbn [mbind option_bind].
  destruct (Z.leb_spec (zlen pre + 22 + 4 + zlen (wr_frame r) + 4) usize_max); [|lia].
  destruct (Z.ltb_spec (zlen buf) (zlen pre + 22 + 4 + zlen (wr_frame r) + 4)); [|lia].
  eexists. split; [done|]. by intros n [= <-].
Qed.

Lemma no_room buf i l : zlen buf < i + WAL_MIN_RECORD_V1 -> journey buf i l -> l = [].
Proof.
  destruct l as [|[o r] l]; [done|]. intros H (H1 & [v H2%intact_end]%decode_intact & _). lia.
Qed.

(** The records appended to a log, with a torn record at its end, replay to
    exactly those records in order, undamaged. *)
Theorem a_log_replays_to_what_was_written rs bs r b tail rest :
  logged rs bs -> write_record r = Some b -> record_ok r -> fits r -> b = tail ++ rest -> rest <> [] ->
  zlen (bs ++ b) <= usize_max -> (forall k, 0 < k -> ~ readable tail k) ->
  exists read, replay_segment_core (bs ++ tail) None keep_all = Some read /\
    sr_frames read = frames_of rs false true /\ sr_damaged read = false /\ sr_trailing_gap read = false.
Proof.
  intros Hl Hw Hr Hfit Hb Hrest Hu Hnone. rewrite zlen_app in Hu. pose proof (zlen_nonneg bs).
  assert (Htl : zlen tail <= zlen b) by (rewrite Hb, zlen_app; pose proof (zlen_nonneg rest); lia).
  destruct (torn_past_end r b bs tail rest Hw Hr Hb Hrest ltac:(rewrite zlen_app; lia) Hfit) as (len & Hlen & Hcap).
  destruct (replay_spec (bs ++ tail) None keep_all) as (read & l & H1 & H2 & H3 & H4). exists read. split; [done|].
  destruct (logged_journey rs bs [] tail l Hl) as (l' & -> & Hj); [cbn; rewrite zlen_app; lia|done|]. cbn [app] in *.
  assert (l' = []) as ->.
  { destruct l' as [|[o r'] l']; [done|]. destruct Hj as (Ho & Hd & Hskip & _).
    replace o with (zlen bs + (o - zlen bs)) in * by lia. destruct (Z.lt_ge_cases 0 (o - zlen bs)) as [Hk|Hk].
    - destruct Hskip as [_ [r'' Hrd]]; [lia|]. destruct (Hnone _ Hk). eexists. by apply decode_suffix in Hrd; [|lia].
    - replace (zlen bs + (o - zlen bs)) with (zlen bs) in Hd by lia. congruence. }
  change (zlen []) with 0 in *. rewrite deliver_places in H3. rewrite undamaged_places in H4. cbn in H3. injection H3 as H3 H5.
  split; [done|]. split; [|by rewrite <- H5; destruct rs]. apply H4. cbn. rewrite <- (logged_zlen rs bs Hl).
  destruct (Z.lt_ge_cases (zlen (bs ++ tail)) (zlen bs + WAL_MIN_RECORD_V1)); [by left|]. right. by exists len.
Qed.

(** ** One bad byte *)

Section damage.
Context (r : WalRecord) (b : list byte) (Hw : write_record r = Some b) (Hr : record_ok r).
Context (p : nat) (x y : byte) (Hx : b !! p = Some x) (Hne : y <> x).
Context (Hp : (4 <= p < 22 \/ 26 <= p)%nat).
Context (pre post : list byte).
Let bad : list byte := <[p := y]> b.
Let buf : list byte := pre ++ bad ++ post.
Context (Hu : zlen buf <= usize_max).

Lemma bad_zlen : zlen bad = record_disk_size r.
Proof. unfold bad, zlen. rewrite length_insert. exact (written_zlen r b Hw Hr). Qed.

Lemma b_le_usize : zlen b <= usize_max.
Proof.
  revert Hu. unfold buf. rewrite !zlen_app, bad_zlen, (written_zlen r b Hw Hr).
  pose proof (zlen_nonneg pre). pose proof (zlen_nonneg post). lia.
Qed.

(** The magic and the length field are untouched. *)
Lemma bad_slice k n : 0 <= k -> k + Z.of_nat n <= zlen bad -> (Z.of_nat p < k \/ k + Z.of_nat n <= Z.of_nat p) ->
  slice buf (zlen pre + k) (zlen pre + k + Z.of_nat n) = slice b k (k + Z.of_nat n).
Proof.
  intros H1 H2 H3. unfold buf. rewrite <- Z.add_assoc, slice_skip, slice_left by lia. unfold slice, bad.
  replace (Z.to_nat (k + Z.of_nat n - k)) with n by lia. destruct H3 as [H3|H3].
  - by rewrite drop_insert_lt by lia.
  - rewrite drop_insert_ge by lia. by rewrite take_insert_ge by lia.
Qed.

Lemma bad_header : version_of (slice buf (zlen pre) (zlen pre + 4)) = Some V4 /\
  frame_len_at buf (zlen pre) V4 = zlen (wr_frame r).
Proof.
  pose proof bad_zlen as Hz. unfold record_disk_size, WAL_MIN_RECORD_V4 in Hz. pose proof (zlen_nonneg (wr_frame r)).
  pose proof (written_intact r b Hw Hr b_le_usize) as Hi. split.
  - pose proof (bad_slice 0 4 ltac:(lia) ltac:(lia) ltac:(lia)) as Hs. rewrite !Z.add_0_r in Hs.
    change (Z.of_nat 4) with 4 in Hs. rewrite Hs. exact (in_magic _ _ _ _ _ Hi).
  - unfold frame_len_at. cbn [len_offset]. rewrite le_field_slice, bad_slice, <- le_field_slice by lia.
    by apply (written_field r b Hw Hr 8).
Qed.

Lemma bad_does_not_stand : ~ stands buf (zlen pre).
Proof.
  intros [r' [v H]%decode_intact]. destruct bad_header as [Hm Hl]. pose proof (in_magic _ _ _ _ _ H) as Hm'.
  assert (v = V4) as -> by congruence. pose proof (in_end _ _ _ _ _ H) as He. unfold record_end_at in He. rewrite Hl in He.
  pose proof bad_zlen as Hz. pose proof (written_zlen r b Hw Hr) as Hzb. pose proof (zlen_nonneg (wr_frame r)).
  unfold record_disk_size, WAL_MIN_RECORD_V4 in *. cbn [len_offset] in He.
  pose proof (in_sum _ _ _ _ _ H) as Hs. rewrite He in Hs.
  replace (zlen pre + 22 + 4 + zlen (wr_frame r) + 4 - 4) with (zlen pre + (26 + zlen (wr_frame r))) in Hs by lia.
  unfold buf in Hs. rewrite slice_skip, slice_left in Hs by lia.
  rewrite le_field_slice, <- Z.add_assoc, slice_skip, slice_left, <- le_field_slice in Hs by lia. revert Hs.
  set (n := Z.to_nat (22 + zlen (wr_frame r))).
  assert (E : forall c, zlen c = zlen b ->
    slice c 4 (26 + zlen (wr_frame r)) = take n (drop 4 c) /\
    le_field c (26 + zlen (wr_frame r)) 4 = le_field (drop 4 c) (Z.of_nat n) 4).
  { intros c Hc. split; [unfold slice; f_equal; lia|]. change 4%nat with (Z.to_nat 4) at 2.
    rewrite le_field_drop by lia. f_equal. lia. }
  assert (Hbad : zlen bad = zlen b) by lia. destruct (E bad Hbad) as [-> ->]. destruct (E b eq_refl) as [E1 E2].
  unfold bad. rewrite drop_insert_ge by lia. apply (trailing_sum_breaks _ _ _ x); [| | |done].
  - rewrite length_drop. unfold zlen in *. lia.
  - rewrite <- E1, <- E2. pose proof (in_sum _ _ _ _ _ (written_intact r b Hw Hr b_le_usize)) as Hs.
    cbn [decoded dr_end] in Hs. unfold record_disk_size, WAL_MIN_RECORD_V4 in Hs.
    replace (0 + (30 + zlen (wr_frame r)) - 4) with (26 + zlen (wr_frame r)) in Hs by lia. exact Hs.
  - rewrite lookup_drop. by replace (4 + (p - 4))%nat with p by lia.
Qed.

Lemma bad_is_no_tail len : decode_record_at buf (zlen pre) usize_max <> PastEnd len.
Proof.
  destruct bad_header as [Hm Hl]. pose proof bad_zlen as Hz. pose proof (zlen_nonneg (wr_frame r)).
  assert (Hzb : zlen buf = zlen pre + zlen bad + zlen post) by (unfold buf; rewrite !zlen_app; lia).
  pose proof (zlen_nonneg pre). pose proof (zlen_nonneg post). unfold record_disk_size, WAL_MIN_RECORD_V4 in *.
  unfold decode_record_at. rewrite get_range_some by lia. fold (slice buf (zlen pre) (zlen pre + 4)). rewrite Hm.
  cbn [min_record]. unfold WAL_MIN_RECORD_V4. destruct (Z.ltb_spec (zlen buf) (zlen pre + 30)); [lia|].
  destruct (header_reads buf (zlen pre) V4) as (-> & -> & ->); [lia|cbn; unfold WAL_MIN_RECORD_V4; lia|].
  destruct (ws_from_u8 _); [|done]. cbn [header_fields]. rewrite Hl.
  destruct (_ <? _); [done|]. unfold usize_checked_add. cbn [len_offset].
  destruct (Z.leb_spec (zlen pre + 22 + 4 + zlen (wr_frame r)) usize_max); [|lia]. cbn [mbind option_bind].
  destruct (Z.leb_spec (zlen pre + 22 + 4 + zlen (wr_frame r) + 4) usize_max); [|lia].
  destruct (Z.ltb_spec (zlen buf) (zlen pre + 22 + 4 + zlen (wr_frame r) + 4)); [lia|].
  rewrite get_range_some, read_field_some by lia. by destruct (_ =? _).
Qed.
End damage.

(** After damage the walk finds the next written record. *)
Lemma journey_resumes buf i pre rs bs l : buf = pre ++ bs -> logged rs bs -> Forall fits rs -> zlen buf <= usize_max ->
  i < zlen pre -> ~ stands buf i -> (forall k, i < k < zlen pre -> ~ readable buf k) -> journey buf i l ->
  l = places (zlen pre) rs.
Proof.
  intros -> Hl Hfit Hu Hi Hns Hnone Hj.
  assert (Hhead : forall o r l', l = (o, r) :: l' -> zlen pre <= o /\ readable (pre ++ bs) o /\ forall k, i < k < o -> ~ readable (pre ++ bs) k).
  { intros o r l' ->. destruct Hj as (Ho & Hd & Hskip & Hb & _). destruct (decide (o = i)) as [->|]; [by destruct Hns; exists r|].
    destruct Hskip as [_ Hrd]; [lia|]. split; [|done]. destruct (Z.lt_ge_cases o (zlen pre)); [|done]. by destruct (Hnone o); [lia|]. }
  destruct Hl as [|r b rs bs Hw Hr Hl].
  - destruct l as [|[o r] l]; [done|]. destruct (Hhead _ _ _ eq_refl) as (H1 & H2%readable_room & _). rewrite app_nil_r in H2.
    unfold WAL_MIN_RECORD_V1 in H2. lia.
  - apply Forall_cons in Hfit as [Hf _].
    assert (Hrd : readable (pre ++ b ++ bs) (zlen pre)) by (eexists; by apply written_decode).
    destruct l as [|[o r0] l]; [destruct Hj as [_ Hn]; by destruct (Hn (zlen pre)); [lia|]|].
    destruct (Hhead _ _ _ eq_refl) as (H1 & _ & H2).
    assert (o = zlen pre) as ->. { destruct (decide (o = zlen pre)); [done|]. by destruct (H2 (zlen pre)); [lia|]. }
    destruct Hj as (_ & Hd & _ & _ & Hj).
    assert (Hj' : journey (pre ++ b ++ bs) (zlen pre) ((zlen pre, r0) :: l)) by (cbn; split_and!; [lia|done|lia|lia|done]).
    rewrite <- (app_nil_r (b ++ bs)) in Hj', Hu.
    destruct (logged_journey (r :: rs) (b ++ bs) pre [] _ (logged_cons _ _ _ _ Hw Hr Hl) Hu Hj') as (l' & E & Hj2).
    rewrite E. apply no_room in Hj2 as ->; [by rewrite app_nil_r|]. rewrite app_nil_r. unfold WAL_MIN_RECORD_V1. lia.
Qed.

(** C27: One changed byte of a record, anywhere but in its magic or its
    length, loses that record alone: every record before and after it is replayed,
    the next one marked as after a gap, and the log is reported damaged. *)
Theorem one_bad_byte_costs_one_record rs1 bs1 r b rs2 bs2 p x y :
  logged rs1 bs1 -> write_record r = Some b -> record_ok r -> logged rs2 bs2 -> Forall fits rs2 ->
  b !! p = Some x -> y <> x -> (4 <= p < 22 \/ 26 <= p)%nat -> zlen (bs1 ++ <[p := y]> b ++ bs2) <= usize_max ->
  (forall k, zlen bs1 < k < zlen bs1 + zlen b -> ~ readable (bs1 ++ <[p := y]> b ++ bs2) k) ->
  exists read, replay_segment_core (bs1 ++ <[p := y]> b ++ bs2) None keep_all = Some read /\
    sr_frames read = frames_of rs1 false true ++ frames_of rs2 true (bool_decide (rs1 = [])) /\
    sr_damaged read = true.
Proof.
  intros Hl1 Hw Hr Hl2 Hfit Hx Hne Hp Hu Hnone. pose proof (bad_zlen r b Hw Hr p y) as Hz.
  pose proof (written_zlen r b Hw Hr) as Hzb. pose proof (bad_does_not_stand r b Hw Hr p x y Hx Hne Hp bs1 bs2 Hu) as Hns.
  pose proof (bad_is_no_tail r b Hw Hr p y Hp bs1 bs2 Hu) as Hnt.
  set (bad := <[p := y]> b) in *. set (buf := bs1 ++ bad ++ bs2) in *. pose proof (zlen_nonneg (wr_frame r)).
  assert (Hzbuf : zlen buf = zlen bs1 + zlen bad + zlen bs2) by (unfold buf; rewrite !zlen_app; lia).
  destruct (replay_spec buf None keep_all) as (read & l & H1 & H2 & H3 & H4). exists read. split; [done|].
  destruct (logged_journey rs1 bs1 [] (bad ++ bs2) l Hl1) as (l1 & -> & Hj); [done..|]. cbn [app] in Hj. fold buf in Hj.
  change (zlen []) with 0 in *. set (i2 := zlen bs1 + zlen bad) in *.
  assert (Hl1' : l1 = places i2 rs2).
  { unfold i2. rewrite <- zlen_app. apply (journey_resumes buf (zlen bs1) (bs1 ++ bad) rs2 bs2); [by unfold buf; rewrite app_assoc|done..| |done| |done].
    - rewrite zlen_app. unfold record_disk_size, WAL_MIN_RECORD_V4 in *. lia.
    - intros k. rewrite zlen_app, Hz, <- Hzb. apply Hnone. }
  rewrite deliver_places in H3. rewrite undamaged_places, <- (logged_zlen rs1 bs1 Hl1) in H4. rewrite <- (logged_zlen rs1 bs1 Hl1) in H3.
  cbn [Z.add app] in H3. rewrite (bool_decide_true ([] = [])) in H3 by done.
  unfold record_disk_size, WAL_MIN_RECORD_V4 in *. split.
  - destruct rs2 as [|r2 rs2]; rewrite Hl1' in H3; cbn [places] in H3; [injection H3 as <- _; cbn; by rewrite app_nil_r|].
    rewrite (deliver_skip _ _ _ i2) in H3 by lia. rewrite <- (app_nil_r (_ :: _)) in H3.
    change ((i2, decoded r2 i2) :: places (i2 + record_disk_size r2) rs2) with (places i2 (r2 :: rs2)) in H3.
    rewrite deliver_places in H3. cbn [deliver] in H3. injection H3 as <- _. f_equal. by destruct rs1.
  - destruct (sr_damaged read); [done|]. destruct H4 as [H4 _]. specialize (H4 eq_refl). rewrite Hl1' in H4.
    destruct rs2 as [|r2 rs2]; cbn [places undamaged Z.add] in H4; [|destruct H4 as [H4 _]; lia]. destruct H4 as [H4|(len & H4 & _)]; [unfold WAL_MIN_RECORD_V1 in H4; pose proof (zlen_nonneg bs2); lia|].
    by destruct (Hnt len).
Qed.

(** * Witnesses *)

Lemma none_readable t a n : forallb (fun k => negb (bool_decide (readable t k))) (seqZ a n) = true ->
  forall k, a <= k < a + n -> ~ readable t k.
Proof.
  intros H k Hk Hr. rewrite forallb_forall in H. specialize (H k). rewrite bool_decide_true in H by done.
  discriminate H. apply list_elem_of_In, elem_of_seqZ. lia.
Qed.

Definition sample_record : WalRecord := mkWalRecord LiveFeed 1754400000000000000 1754400000123456789 MainFeed (bytes_of [2; 16; 0; 1; 25]).
Definition sample_order : WalRecord := mkWalRecord WsOrderUpdate 1754400000000131072 (-1) EpOrderUpdate (bytes_of [123; 125]).
Definition sample_depth : WalRecord := mkWalRecord LiveFeed 1754400000000262144 0 Depth200 (bytes_of [1; 2; 3]).
Definition sample_bytes (r : WalRecord) : list byte := default [] (write_record r).

Lemma sample_logged (r : WalRecord) (rs : list WalRecord) (bs : list byte) : write_record r = Some (sample_bytes r) ->
  record_ok r -> logged rs bs -> logged (r :: rs) (sample_bytes r ++ bs).
Proof. apply logged_cons. Qed.

Lemma a_log_replays_to_what_was_written_witness :
  exists read, replay_segment_core ((sample_bytes sample_record ++ sample_bytes sample_order ++ []) ++ take 27 (sample_bytes sample_depth)) None keep_all = Some read /\
    sr_frames read = frames_of [sample_record; sample_order] false true /\ sr_damaged read = false /\ sr_trailing_gap read = false.
Proof.
  apply (a_log_replays_to_what_was_written _ _ sample_depth (sample_bytes sample_depth) _ (drop 27 (sample_bytes sample_depth))).
  - apply sample_logged; [by vm_compute|split; by vm_compute|]. apply sample_logged; [by vm_compute|split; by vm_compute|constructor].
  - by vm_compute.
  - split; by vm_compute.
  - by vm_compute.
  - by vm_compute.
  - by vm_compute.
  - by vm_compute.
  - intros k Hk. destruct (Z.lt_ge_cases k 30) as [Hlt|Hge].
    + apply (none_readable _ 1 29); [by vm_compute|lia].
    + intros Hr%readable_room. destruct Hr as (_ & Hr & _). revert Hr.
      change (zlen (take 27 (sample_bytes sample_depth))) with 27. unfold WAL_MIN_RECORD_V1. lia.
Defined.

Lemma one_bad_byte_costs_one_record_witness :
  exists read, replay_segment_core ((sample_bytes sample_record ++ []) ++ <[7%nat := byte_of 255]> (sample_bytes sample_order) ++ (sample_bytes sample_depth ++ [])) None keep_all = Some read /\
    sr_frames read = frames_of [sample_record] false true ++ frames_of [sample_depth] true false /\ sr_damaged read = true.
Proof.
  apply (one_bad_byte_costs_one_record [sample_record] (sample_bytes sample_record ++ []) sample_order (sample_bytes sample_order)
    [sample_depth] (sample_bytes sample_depth ++ []) 7 (byte_of 244) (byte_of 255)).
  - apply sample_logged; [by vm_compute|split; by vm_compute|constructor].
  - by vm_compute.
  - split; by vm_compute.
  - apply sample_logged; [by vm_compute|split; by vm_compute|constructor].
  - constructor; [by vm_compute|constructor].
  - vm_compute. reflexivity.
  - by vm_compute.
  - left. lia.
  - by vm_compute.
  - intros k Hk. apply (none_readable _ 36 31); [by vm_compute|]. revert Hk. vm_compute (zlen _ + zlen _). vm_compute (zlen _). lia.
Defined.
