(* ===== verification/WalSequence.v ===== *)
(** Frame sequence numbers ([storage/src/ws_frame_spill.rs]): minting, the
    sequence of a packet, the probe that reads the highest number back from a
    segment after a restart, and the prune decision. *)
From S2P Require Import Prelude Bytes Crc32 WalRecords.
Local Open Scope Z_scope.

Definition PACKET_INDEX_BITS : Z := 17.
Definition MAX_PACKET_INDEX : Z := Z.shiftl 1 PACKET_INDEX_BITS - 1.
(** The highest frame base, in base units. *)
Definition base_ceiling : Z := Z.shiftr u64_max PACKET_INDEX_BITS.

(** One successful exchange on the counter: the sequence handed out is its new value. *)
Definition next_frame_seq (now prev : Z) : Z :=
  Z.shiftl (Z.min (Z.max (u64_saturating_add (Z.shiftr prev PACKET_INDEX_BITS) 1) (Z.shiftr now PACKET_INDEX_BITS)) base_ceiling)
    PACKET_INDEX_BITS.

Definition ratchet_frame_seq_to (seq prev : Z) : Z := Z.max prev (Z.shiftl (Z.shiftr seq PACKET_INDEX_BITS) PACKET_INDEX_BITS).

Definition round_up_to_frame_base (seq : Z) : Z :=
  let round := if Z.land seq MAX_PACKET_INDEX =? 0 then 0 else 1 in
  let base := Z.shiftr seq PACKET_INDEX_BITS + round in
  Z.shiftl (if base_ceiling <? base then base_ceiling else base) PACKET_INDEX_BITS.

Definition packet_capture_seq (frame_seq packet_index : Z) : option Z :=
  if MAX_PACKET_INDEX <? packet_index then None
  else Some (Z.lor (Z.land frame_seq (Z.lxor u64_max MAX_PACKET_INDEX)) packet_index).

(** The counter's value after the boot seed, from what is on disk. *)
Definition seed_frame_seq (disk_high prev : Z) : Z :=
  if disk_high =? 0 then prev
  else Z.max prev (Z.shiftl (Z.min (u64_saturating_add (Z.shiftr disk_high PACKET_INDEX_BITS) 1) base_ceiling) PACKET_INDEX_BITS).

(** * Probes of a segment *)

Inductive RecordProbe : Type :=
  | Intact (frame_seq record_len : Z)
  | Corrupt (record_len : Z)
  | End_.

Definition RECORD_PROBE_MAX_FRAME_BYTES : Z := 64 * 1024 * 1024.

Definition probe_chunks (v : WalVersion) (record : list byte) (frame_len : Z) : list (list byte) :=
  let len_off := len_offset v in
  let tail := [slice record len_off (len_off + 4); slice record (len_off + 4) (len_off + 4 + frame_len)] in
  let head := [slice record 4 5; slice record 5 13] in
  match v with
  | V4 => head ++ [slice record 13 21; slice record 21 22] ++ tail
  | V3 => head ++ [slice record 13 21] ++ tail
  | _ => head ++ tail
  end.

Definition record_at_capped (buf : list byte) (offset max_frame_bytes : Z) : RecordProbe :=
  let head := take 30 (drop (Z.to_nat offset) buf) in
  match version_of (take 4 head) with
  | None => End_
  | Some v =>
    if zlen head <? min_record v then End_ else
    let frame_len := le_field head (len_offset v) 4 in
    if max_frame_bytes <? frame_len then End_ else
    let record_len := len_offset v + 4 + frame_len + 4 in
    match v with
    | V1 => Corrupt record_len
    | _ =>
      let frame_seq := le_field head 5 8 in
      let record := take (Z.to_nat record_len) (drop (Z.to_nat offset) buf) in
      if zlen record <? record_len then End_ else
      if crc32_ieee_of (probe_chunks v record frame_len) =? le_field record (record_len - 4) 4
      then Intact frame_seq record_len else Corrupt record_len
    end
  end.

Definition record_at (buf : list byte) (offset : Z) : RecordProbe := record_at_capped buf offset RECORD_PROBE_MAX_FRAME_BYTES.

Definition first_frame_seq_in_segment (buf : list byte) : Z :=
  match record_at buf 0 with Intact frame_seq _ => frame_seq | _ => 0 end.

Fixpoint verified_walk (fuel : nat) (buf : list byte) (offset highest : Z) : option Z :=
  match fuel with
  | O => None
  | S fuel =>
      match record_at buf offset with
      | Intact frame_seq len => verified_walk fuel buf (u64_saturating_add offset len) (Z.max highest frame_seq)
      | Corrupt len => verified_walk fuel buf (u64_saturating_add offset len) highest
      | End_ => Some highest
      end
  end.

Definition verified_walk_highest_frame_seq (buf : list byte) : option Z := verified_walk (S (length buf)) buf 0 0.

(** The walk over the headers alone: the highest sequence and where it stands. *)
Fixpoint header_walk (fuel : nat) (buf : list byte) (offset highest best : Z) : option (Z * Z) :=
  match fuel with
  | O => None
  | S fuel =>
      let head := take 30 (drop (Z.to_nat offset) buf) in
      if zlen head <? WAL_MIN_RECORD_V1 then Some (highest, best) else
      match version_of (take 4 head) with
      | None => Some (highest, best)
      | Some v =>
          if zlen head <? min_record v then Some (highest, best) else
          let seq := match v with V1 => 0 | _ => le_field head 5 8 end in
          let '(highest, best) := if highest <? seq then (seq, offset) else (highest, best) in
          header_walk fuel buf (u64_saturating_add offset (min_record v + le_field head (len_offset v) 4)) highest best
      end
  end.

Definition header_walk_highest_frame_seq (buf : list byte) : option (Z * Z) := header_walk (S (length buf)) buf 0 0 0.

Definition highest_frame_seq_in_segment (buf : list byte) : option Z :=
  p ← header_walk_highest_frame_seq buf;
  if p.1 =? 0 then Some 0 else
  match record_at buf p.2 with
  | Intact frame_seq _ => if frame_seq =? p.1 then Some p.1 else verified_walk_highest_frame_seq buf
  | _ => verified_walk_highest_frame_seq buf
  end.

(** * Pruning *)

Inductive SegmentAppliedState : Type := SegApplied | SegUnapplied | SegUnknown.
Inductive SegmentPruneDecision : Type :=
  | Keep
  | DeleteAged
  | DeleteForBytes
  | RefuseForBytes (unknown : bool)
  | RefuseNotUploaded.

Definition segment_prune_decision (aged : bool) (state : SegmentAppliedState) (byte_cap_exceeded uploaded : bool) : SegmentPruneDecision :=
  let applied := match state with SegApplied => true | _ => false end in
  if aged && applied && uploaded then DeleteAged
  else if byte_cap_exceeded && applied && uploaded then DeleteForBytes
  else if byte_cap_exceeded && applied then RefuseNotUploaded
  else if byte_cap_exceeded then RefuseForBytes (match state with SegUnknown => true | _ => false end)
  else Keep.

(** The prune deletes a segment exactly when its frames are applied, an
    uploaded copy exists, and it is old or the disk is over its cap. *)
Theorem only_applied_copies_are_deleted aged state byte_cap uploaded :
  (segment_prune_decision aged state byte_cap uploaded = DeleteAged \/
   segment_prune_decision aged state byte_cap uploaded = DeleteForBytes) <->
  state = SegApplied /\ uploaded = true /\ (aged = true \/ byte_cap = true).
Proof. destruct aged, state, byte_cap, uploaded; cbn; intuition congruence. Qed.

(** * Minting *)

Abbreviation BASE := 131072.

Lemma base_ceiling_val : base_ceiling = 140737488355327.
Proof. reflexivity. Qed.

Lemma up_base x : Z.shiftl x PACKET_INDEX_BITS = x * BASE.
Proof. rewrite Z.shiftl_mul_pow2 by done. done. Qed.
Lemma down_base x : Z.shiftr x PACKET_INDEX_BITS = x / BASE.
Proof. rewrite Z.shiftr_div_pow2 by done. done. Qed.

(** Dropping the packet index leaves the frame's base. *)
Lemma land_base f : in_u64 f -> Z.land f (Z.lxor u64_max MAX_PACKET_INDEX) = f / BASE * BASE.
Proof.
  intros Hf. change MAX_PACKET_INDEX with (Z.ones 17). change u64_max with (Z.ones 64).
  enough (Z.land f (Z.lxor (Z.ones 64) (Z.ones 17)) = Z.shiftl (Z.shiftr f 17) 17) as ->.
  { by rewrite Z.shiftl_mul_pow2, Z.shiftr_div_pow2 by lia. }
  apply Z.bits_inj'. intros n Hn. rewrite Z.land_spec, Z.lxor_spec, !Z.testbit_ones_nonneg by lia.
  destruct (Z.lt_ge_cases n 17).
  - rewrite Z.shiftl_spec_low by lia. destruct (Z.ltb_spec n 64), (Z.ltb_spec n 17); try lia. apply andb_false_r.
  - rewrite Z.shiftl_spec_high, Z.shiftr_spec by lia. replace (n - 17 + 17) with n by lia.
    destruct (Z.ltb_spec n 17); [lia|]. destruct (Z.ltb_spec n 64); [apply andb_true_r|]. cbn [xorb]. rewrite andb_false_r.
    symmetry. destruct (decide (f = 0)) as [->|]; [apply Z.testbit_0_l|].
    apply Z.bits_above_log2; [apply Hf|]. apply Z.lt_le_trans with 64; [|lia]. apply Z.log2_lt_pow2; unfold in_u64, u64_max in Hf; lia.
Qed.

(** A packet's number is its frame's base plus the packet's index. *)
Lemma capture_seq_val f p x : in_u64 f -> 0 <= p -> packet_capture_seq f p = Some x ->
  x = f / BASE * BASE + p /\ p < BASE.
Proof.
  intros Hf Hp. unfold packet_capture_seq. destruct (Z.ltb_spec MAX_PACKET_INDEX p) as [|Hm]; [done|]. intros [= <-].
  change MAX_PACKET_INDEX with 131071 in Hm. rewrite land_base by done. split; [|lia].
  assert (E2 : Z.land (f / BASE * BASE) p = 0).
  { change BASE with (2 ^ 17). rewrite <- Z.shiftl_mul_pow2 by done.
    apply Z.bits_inj'. intros n Hn. rewrite Z.land_spec, Z.bits_0. destruct (Z.lt_ge_cases n 17).
    - by rewrite Z.shiftl_spec_low by lia.
    - replace (Z.testbit p n) with false; [apply andb_false_r|]. symmetry.
      destruct (decide (p = 0)) as [->|]; [apply Z.testbit_0_l|].
      apply Z.bits_above_log2; [lia|]. apply Z.lt_le_trans with 17; [|lia]. apply Z.log2_lt_pow2; lia. }
  by rewrite <- Z.lxor_lor, <- Z.add_nocarry_lxor by done.
Qed.

Definition at_base (c : Z) : Prop := in_u64 c /\ c mod BASE = 0.

Lemma at_base_mul k : 0 <= k <= base_ceiling -> at_base (k * BASE).
Proof. rewrite base_ceiling_val. intros H. split; [unfold in_u64, u64_max; lia|]. by rewrite Z.mod_mul. Qed.

Lemma base_le x : 0 <= x -> x / BASE * BASE <= x < x / BASE * BASE + BASE.
Proof. intros H. pose proof (Z.div_mod x BASE). pose proof (Z.mod_pos_bound x BASE). lia. Qed.

Lemma base_range x : in_u64 x -> 0 <= x / BASE <= base_ceiling.
Proof. unfold in_u64, u64_max. rewrite base_ceiling_val. intros H. pose proof (base_le x). lia. Qed.

Lemma next_spec now prev : in_u64 now -> at_base prev ->
  at_base (next_frame_seq now prev) /\ prev <= next_frame_seq now prev /\
  (prev < base_ceiling * BASE -> prev + BASE <= next_frame_seq now prev).
Proof.
  intros Hn [Hp Hm]. unfold next_frame_seq. rewrite up_base, !down_base.
  pose proof (base_range now Hn). pose proof (base_range prev Hp). pose proof (Z.div_mod prev BASE). rewrite base_ceiling_val in *.
  unfold u64_saturating_add, clamp, u64_max. split; [apply at_base_mul; rewrite base_ceiling_val; lia|]. lia.
Qed.

Lemma ratchet_spec seq prev : in_u64 seq -> at_base prev ->
  at_base (ratchet_frame_seq_to seq prev) /\ prev <= ratchet_frame_seq_to seq prev.
Proof.
  intros Hs Hp. unfold ratchet_frame_seq_to. rewrite up_base, down_base. split; [|lia].
  destruct (Z.max_spec prev (seq / BASE * BASE)) as [[_ ->]|[_ ->]]; [|done]. by apply at_base_mul, base_range.
Qed.

Lemma seed_spec h prev : in_u64 h -> at_base prev -> at_base (seed_frame_seq h prev) /\ prev <= seed_frame_seq h prev /\
  (h < base_ceiling * BASE -> h <> 0 -> h / BASE * BASE + BASE <= seed_frame_seq h prev).
Proof.
  intros Hh Hp. unfold seed_frame_seq. destruct (Z.eqb_spec h 0); [split; [done|lia]|]. rewrite up_base, down_base.
  pose proof (base_range h Hh). pose proof (base_le h (proj1 Hh)). rewrite base_ceiling_val in *.
  unfold u64_saturating_add, clamp, u64_max. split; [|split; lia].
  match goal with |- at_base (Z.max _ ?x) => destruct (Z.max_spec prev x) as [[_ ->]|[_ ->]]; [|done] end.
  apply at_base_mul. rewrite base_ceiling_val. lia.
Qed.

Lemma at_base_step c : at_base c -> c < base_ceiling * BASE -> c + BASE <= base_ceiling * BASE.
Proof. intros [_ Hm] H. pose proof (Z.div_mod c BASE). rewrite base_ceiling_val in *. lia. Qed.

(** What moves the counter; each is one atomic step on it. *)
Inductive seq_op : Type := Mint (now : Z) | Ratchet (seq : Z) | Seed (disk_high : Z).

Definition op_ok (o : seq_op) : Prop := match o with Mint x | Ratchet x | Seed x => in_u64 x end.

Fixpoint minted (ops : list seq_op) (counter : Z) : list Z :=
  match ops with
  | [] => []
  | Mint now :: ops => next_frame_seq now counter :: minted ops (next_frame_seq now counter)
  | Ratchet seq :: ops => minted ops (ratchet_frame_seq_to seq counter)
  | Seed h :: ops => minted ops (seed_frame_seq h counter)
  end.

Lemma minted_above ops c k f : Forall op_ok ops -> at_base c -> minted ops c !! k = Some f ->
  at_base f /\ c <= f /\ (c < base_ceiling * BASE -> c + BASE <= f).
Proof.
  intros Ho. revert c k. induction Ho as [|o ops Hok Ho IH]; intros c k Hc; [done|]. pose proof (at_base_step c Hc) as Hstep. destruct o as [now|seq|h]; cbn [minted op_ok] in *.
  - destruct (next_spec now c Hok Hc) as (H1 & H2 & H3). destruct k as [|k]; [intros [= <-]; done|]. cbn [lookup list_lookup].
    intros Hf. destruct (IH _ _ H1 Hf) as (H4 & H5 & _). split; [done|]. lia.
  - destruct (ratchet_spec seq c Hok Hc) as (H1 & H2). intros Hf. destruct (IH _ _ H1 Hf) as (H4 & H5 & H6).
    split; [done|]. split; [lia|]. intros Hlt. specialize (Hstep Hlt). destruct (Z.lt_ge_cases (ratchet_frame_seq_to seq c) (base_ceiling * BASE)) as [Hb|Hb]; [specialize (H6 Hb)|]; lia.
  - destruct (seed_spec h c Hok Hc) as (H1 & H2 & _). intros Hf. destruct (IH _ _ H1 Hf) as (H4 & H5 & H6).
    split; [done|]. split; [lia|]. intros Hlt. specialize (Hstep Hlt). destruct (Z.lt_ge_cases (seed_frame_seq h c) (base_ceiling * BASE)) as [Hb|Hb]; [specialize (H6 Hb)|]; lia.
Qed.

Lemma minted_increase ops c j k f g : Forall op_ok ops -> at_base c -> (j < k)%nat ->
  minted ops c !! j = Some f -> minted ops c !! k = Some g -> f < base_ceiling * BASE -> f + BASE <= g.
Proof.
  intros Ho. revert c j k. induction Ho as [|o ops Hok Ho IH]; intros c j k Hc Hjk; [done|].
  destruct o as [now|seq|h]; cbn [minted op_ok] in *.
  - destruct (next_spec now c Hok Hc) as (H1 & _). destruct k as [|k]; [lia|]. destruct j as [|j].
    + intros [= <-] Hg Hlt. cbn [lookup list_lookup] in Hg. by apply (minted_above ops _ k g Ho H1).
    + cbn [lookup list_lookup]. apply IH; [done|lia].
  - by apply IH; [apply ratchet_spec|].
  - by apply IH; [apply seed_spec|].
Qed.

(** Whatever the clock does and however the counter is ratcheted or seeded in
    between, later frames and later packets of a frame get strictly larger
    sequence numbers, up to the counter's ceiling. *)
Theorem packet_numbers_never_repeat ops c j k f g p q x y : Forall op_ok ops -> at_base c ->
  minted ops c !! j = Some f -> minted ops c !! k = Some g -> f < base_ceiling * BASE -> 0 <= p -> 0 <= q ->
  packet_capture_seq f p = Some x -> packet_capture_seq g q = Some y ->
  (j < k)%nat \/ (j = k /\ p < q) -> x < y.
Proof.
  intros Ho Hc Hf Hg Hlt Hp Hq Hx Hy Hjk.
  destruct (minted_above _ _ _ _ Ho Hc Hf) as ((Hf1 & Hf2) & _), (minted_above _ _ _ _ Ho Hc Hg) as ((Hg1 & Hg2) & _).
  apply capture_seq_val in Hx as [-> Hpb]; [|done..]. apply capture_seq_val in Hy as [-> _]; [|done..].
  pose proof (Z.div_mod f BASE). pose proof (Z.div_mod g BASE). destruct Hjk as [Hjk|[-> Hpq]].
  - pose proof (minted_increase _ _ _ _ _ _ Ho Hc Hjk Hf Hg Hlt). lia.
  - assert (f = g) as -> by congruence. lia.
Qed.

Lemma packet_numbers_never_repeat_witness : 1754400000000000000 + 3 < 1754400000000131072 + 1.
Proof.
  apply (packet_numbers_never_repeat [Mint 1754400000000000000; Ratchet 5; Mint 1754399999000000000] 0 0 1 1754400000000000000 1754400000000131072 3 1);
    [|by split|by vm_compute|by vm_compute|by vm_compute|lia|lia|by vm_compute|by vm_compute|left; lia].
  repeat constructor; by vm_compute.
Defined.

(** * Reading the numbers back *)

Lemma head_slice buf off k : 0 <= off -> 0 <= k <= 30 ->
  take (Z.to_nat k) (take 30 (drop (Z.to_nat off) buf)) = slice buf off (off + k).
Proof. intros H1 H2. rewrite take_take. unfold slice. f_equal. lia. Qed.

Lemma head_field buf off k n : 0 <= off -> 0 <= k -> k + Z.of_nat n <= 30 ->
  le_field (take 30 (drop (Z.to_nat off) buf)) k n = le_field buf (off + k) n.
Proof. intros H1 H2 H3. change 30%nat with (Z.to_nat 30). rewrite le_field_take by lia. by rewrite le_field_drop by lia. Qed.

Lemma slice_slice buf i e a b : 0 <= i -> 0 <= a <= b -> b <= e - i -> slice (slice buf i e) a b = slice buf (i + a) (i + b).
Proof.
  intros H0 H1 H2. unfold slice. replace (Z.to_nat (e - i)) with (Z.to_nat a + Z.to_nat (e - i - a))%nat by lia.
  rewrite <- take_drop_commute, take_take, drop_drop. f_equal; [lia|]. f_equal. lia.
Qed.

Lemma probe_chunks_concat v record frame_len : v <> V1 -> 0 <= frame_len ->
  concat (probe_chunks v record frame_len) = slice record 4 (len_offset v + 4 + frame_len).
Proof.
  intros Hv Hl. destruct v; [done|..]; cbn [probe_chunks len_offset concat app]; rewrite app_nil_r, !slice_app by lia; done.
Qed.

Lemma probe_intact buf i max v r : intact buf i max v r -> v <> V1 ->
  record_at_capped buf i max = Intact (dr_frame_seq r) (dr_end r - i).
Proof.
  intros [Hm Hs Hws Hh Hc He [Hr _] Hf Hsum] Hv. pose proof (version_bounds v) as [Emin Hv2]. pose proof (frame_len_nonneg buf i v) as Hl.
  unfold record_end_at in He. unfold record_at_capped. change (take 4 (take 30 (drop (Z.to_nat i) buf))) with (take (Z.to_nat 4) (take 30 (drop (Z.to_nat i) buf))).
  rewrite head_slice, Hm by lia.
  assert (Hz : min_record v <= zlen (take 30 (drop (Z.to_nat i) buf))) by (unfold zlen in *; rewrite length_take, length_drop; lia).
  destruct (Z.ltb_spec (zlen (take 30 (drop (Z.to_nat i) buf))) (min_record v)); [lia|].
  rewrite head_field by lia. fold (frame_len_at buf i v). destruct (Z.ltb_spec max (frame_len_at buf i v)); [lia|].
  set (len := len_offset v + 4 + frame_len_at buf i v + 4). assert (Hlen : len = dr_end r - i) by (unfold len; lia).
  rewrite head_field by lia. replace (take (Z.to_nat len) (drop (Z.to_nat i) buf)) with (slice buf i (dr_end r)) by (unfold slice; f_equal; lia).
  assert (Hzs : zlen (slice buf i (dr_end r)) = len) by (unfold zlen, slice in *; rewrite length_take, length_drop; lia).
  assert (Hsub : forall a b, 0 <= a <= b -> b <= len -> slice (slice buf i (dr_end r)) a b = slice buf (i + a) (i + b)).
  { intros a b H1 H2. by apply slice_slice; lia. }
  replace (match v with V1 => _ | _ => _ end) with
    (if zlen (slice buf i (dr_end r)) <? len then End_ else
     if crc32_ieee_of (probe_chunks v (slice buf i (dr_end r)) (frame_len_at buf i v)) =? le_field (slice buf i (dr_end r)) (len - 4) 4
     then Intact (le_field buf (i + 5) 8) len else Corrupt len) by (by destruct v).
  rewrite Hzs, Z.ltb_irrefl, crc_of_concat, probe_chunks_concat by done. rewrite Hsub by lia.
  rewrite le_field_slice, Hsub by lia. 
  replace (i + (len_offset v + 4 + frame_len_at buf i v)) with (dr_end r - 4) by lia. rewrite Hsum, le_field_slice.
  replace (i + (len - 4)) with (dr_end r - 4) by lia. replace (i + (len - 4 + Z.of_nat 4)) with (dr_end r - 4 + Z.of_nat 4) by lia.
  rewrite Z.eqb_refl, Hlen. f_equal. destruct v; cbn in Hh; congruence.
Qed.

Definition probeable (r : WalRecord) : Prop := zlen (wr_frame r) <= RECORD_PROBE_MAX_FRAME_BYTES.

Lemma probe_written pre r b post : write_record r = Some b -> record_ok r -> zlen (pre ++ b ++ post) <= usize_max -> probeable r ->
  record_at (pre ++ b ++ post) (zlen pre) = Intact (wr_frame_seq r) (record_disk_size r).
Proof.
  intros Hw Hr Hu Hp. pose proof (written_decode pre r b post _ Hw Hr Hu Hp) as [v H]%decode_intact.
  unfold record_at. rewrite (probe_intact _ _ _ _ _ H).
  - cbn. f_equal. lia.
  - intros ->. pose proof (in_header _ _ _ _ _ H) as Hh. cbn in Hh. congruence.
Qed.

Lemma probe_len buf o max p : record_at_capped buf o max = p ->
  match p with Intact _ l | Corrupt l => WAL_MIN_RECORD_V1 <= l /\ o < zlen buf | End_ => True end.
Proof.
  intros <-. unfold record_at_capped. set (head := take 30 (drop (Z.to_nat o) buf)).
  destruct (version_of (take 4 head)) as [v|] eqn:Ev; [|done]. destruct (zlen head <? min_record v) eqn:E; [done|].
  apply Z.ltb_ge in E. assert (Ho : o < zlen buf).
  { destruct (Z.lt_ge_cases o (zlen buf)) as [|Hge]; [done|]. unfold head, zlen in *. rewrite drop_ge in E by lia.
    destruct v; cbn in E; unfold WAL_MIN_RECORD_V1, WAL_MIN_RECORD_V2, WAL_MIN_RECORD_V3, WAL_MIN_RECORD_V4 in E; lia. }
  pose proof (le_decode_nonneg (take 4 (drop (Z.to_nat (len_offset v)) head))) as Hl. fold (le_field head (len_offset v) 4) in Hl.
  pose proof (version_bounds v) as [_ Hv]. destruct (max <? _); [done|]. unfold WAL_MIN_RECORD_V1.
  destruct v; [split; lia|..]; (destruct (_ <? _); [done|]); (destruct (_ =? _); split; lia).
Qed.

Lemma offset_step (buf : list byte) o l fuel : 0 <= o < zlen buf -> WAL_MIN_RECORD_V1 <= l -> zlen buf <= usize_max ->
  zlen buf - o < Z.of_nat (S fuel) ->
  0 <= u64_saturating_add o l /\ zlen buf - u64_saturating_add o l < Z.of_nat fuel /\ (0 < fuel)%nat.
Proof. unfold WAL_MIN_RECORD_V1. intros. split_and!; zints. Qed.

Lemma verified_walk_total buf fuel o h : zlen buf <= usize_max -> 0 <= o -> zlen buf - o < Z.of_nat fuel -> (0 < fuel)%nat ->
  exists h', verified_walk fuel buf o h = Some h' /\ h <= h' /\ (h' = h \/ exists at_ len, record_at buf at_ = Intact h' len).
Proof.
  intros Hu. revert o h. induction fuel as [|fuel IH]; intros o h Ho Hf H0; [lia|]. cbn [verified_walk].
  pose proof (probe_len buf o RECORD_PROBE_MAX_FRAME_BYTES _ eq_refl) as Hl. fold (record_at buf o) in Hl.
  destruct (record_at buf o) as [s l|l|] eqn:E; [..|exists h; split_and!; [done|lia|by left]]; destruct Hl as [Hl Hlt];
    destruct (offset_step buf o l fuel ltac:(lia) Hl Hu Hf) as (H1 & H2 & H3).
  - destruct (IH _ (Z.max h s) H1 H2 H3) as (h' & H4 & H5 & H6). exists h'. split; [done|]. split; [lia|].
    destruct H6 as [->|H6]; [|by right]. destruct (Z.max_spec h s) as [[_ ->]|[_ ->]]; [right; eauto|by left].
  - destruct (IH _ h H1 H2 H3) as (h' & H4 & H5 & H6). eauto.
Qed.

Lemma header_len buf o v : version_of (take 4 (take 30 (drop (Z.to_nat o) buf))) = Some v ->
  min_record v <= zlen (take 30 (drop (Z.to_nat o) buf)) ->
  o < zlen buf /\ WAL_MIN_RECORD_V1 <= min_record v + le_field (take 30 (drop (Z.to_nat o) buf)) (len_offset v) 4.
Proof.
  intros _ H. pose proof (version_bounds v) as [E Hv]. unfold WAL_MIN_RECORD_V1. split.
  - destruct (Z.lt_ge_cases o (zlen buf)) as [|Hge]; [done|]. unfold zlen in *. rewrite drop_ge in H by lia. cbn in H. lia.
  - pose proof (le_decode_nonneg (take 4 (drop (Z.to_nat (len_offset v)) (take 30 (drop (Z.to_nat o) buf))))) as Hl.
    unfold le_field. lia.
Qed.

Lemma header_walk_total buf fuel o h best : zlen buf <= usize_max -> 0 <= o -> zlen buf - o < Z.of_nat fuel -> (0 < fuel)%nat ->
  exists h' best', header_walk fuel buf o h best = Some (h', best') /\ h <= h'.
Proof.
  intros Hu. revert o h best. induction fuel as [|fuel IH]; intros o h best Ho Hf H0; [lia|]. cbn [header_walk].
  destruct (_ <? WAL_MIN_RECORD_V1); [exists h, best; by split|].
  destruct (version_of _) as [v|] eqn:Ev; [|exists h, best; by split].
  destruct (Z.ltb_spec (zlen (take 30 (drop (Z.to_nat o) buf))) (min_record v)) as [|Hmin]; [exists h, best; by split|].
  destruct (header_len buf o v Ev Hmin) as [Hlt Hl].
  destruct (offset_step buf o _ fuel ltac:(lia) Hl Hu Hf) as (H1 & H2 & H3). set (seq := match v with V1 => 0 | _ => _ end).
  destruct (Z.ltb_spec h seq).
  - destruct (IH _ seq o H1 H2 H3) as (h' & b' & H4 & H5). exists h', b'. split; [done|lia].
  - exact (IH _ h best H1 H2 H3).
Qed.

(** ** Over a written log *)

Lemma sat_exact o l n : 0 <= o -> 0 <= l -> o + l <= n -> n <= usize_max -> u64_saturating_add o l = o + l.
Proof. intros. zints. Qed.

Lemma written_room pre r b post : write_record r = Some b -> record_ok r -> zlen (pre ++ b ++ post) <= usize_max ->
  u64_saturating_add (zlen pre) (record_disk_size r) = zlen (pre ++ b).
Proof.
  intros Hw Hr Hu. pose proof (written_zlen r b Hw Hr) as Hz. rewrite !zlen_app in *. rewrite <- Hz.
  pose proof (zlen_nonneg pre). pose proof (zlen_nonneg b). pose proof (zlen_nonneg post).
  apply (sat_exact _ _ (zlen pre + (zlen b + zlen post))); lia.
Qed.

Lemma verified_walk_log rs bs pre post fuel h h' : logged rs bs -> Forall probeable rs -> zlen (pre ++ bs ++ post) <= usize_max ->
  zlen (pre ++ bs ++ post) - zlen pre < Z.of_nat fuel -> (0 < fuel)%nat ->
  verified_walk fuel (pre ++ bs ++ post) (zlen pre) h = Some h' -> h <= h' /\ Forall (fun r => wr_frame_seq r <= h') rs.
Proof.
  intros Hl. revert pre fuel h. induction Hl as [|r b rs bs Hw Hr Hl IH]; intros pre fuel h Hp Hu Hf H0 H.
  - destruct (verified_walk_total _ fuel (zlen pre) h Hu ltac:(apply zlen_nonneg) Hf H0) as (h2 & E & Hle & _).
    split; [|constructor]. congruence.
  - apply Forall_cons in Hp as [Hp1 Hp]. rewrite <- app_assoc in *. destruct fuel as [|fuel]; [lia|]. cbn [verified_walk] in H.
    pose proof (written_zlen r b Hw Hr) as Hz. unfold record_disk_size, WAL_MIN_RECORD_V4 in Hz. pose proof (zlen_nonneg (wr_frame r)).
    pose proof (zlen_nonneg (bs ++ post)).
    rewrite (probe_written pre r b (bs ++ post)), (written_room pre r b (bs ++ post)) in H by done.
    rewrite (app_assoc pre) in *. rewrite zlen_app in Hf. rewrite (zlen_app pre b) in Hf.
    destruct (IH (pre ++ b) fuel _ Hp Hu ltac:(rewrite !zlen_app in *; lia) ltac:(lia) H) as [Hle Hall].
    split; [lia|]. constructor; [lia|done].
Qed.

Lemma header_written pre r b post : write_record r = Some b -> record_ok r -> zlen (pre ++ b ++ post) <= usize_max ->
  let head := take 30 (drop (Z.to_nat (zlen pre)) (pre ++ b ++ post)) in
  30 <= zlen head /\ version_of (take 4 head) = Some V4 /\ le_field head 5 8 = wr_frame_seq r /\
  min_record V4 + le_field head (len_offset V4) 4 = record_disk_size r.
Proof.
  intros Hw Hr Hu head. pose proof (zlen_nonneg pre) as H0.
  pose proof (written_decode pre r b post usize_max Hw Hr Hu (written_len _ _ Hw)) as [v H]%decode_intact.
  assert (v = V4) as ->. { pose proof (in_header _ _ _ _ _ H) as Hh. destruct v; cbn in Hh; congruence. }
  pose proof (in_magic _ _ _ _ _ H) as Hm. pose proof (in_header _ _ _ _ _ H) as Hh. pose proof (in_end _ _ _ _ _ H) as He.
  pose proof (in_room _ _ _ _ _ H) as [Hr1 _]. unfold record_end_at in He. cbn [len_offset decoded dr_end] in He, Hr1.
  pose proof (frame_len_nonneg (pre ++ b ++ post) (zlen pre) V4). unfold head. split_and!.
  - unfold zlen at 1. rewrite length_take, length_drop. unfold zlen in *. lia.
  - change (take 4 (take 30 ?x)) with (take (Z.to_nat 4) (take 30 x)). by rewrite head_slice by lia.
  - rewrite head_field by lia. cbn in Hh. congruence.
  - rewrite head_field by (cbn; lia). fold (frame_len_at (pre ++ b ++ post) (zlen pre) V4). cbn [min_record]. unfold WAL_MIN_RECORD_V4. lia.
Qed.

Lemma header_walk_log rs bs pre post fuel h best h' best' : logged rs bs -> zlen (pre ++ bs ++ post) <= usize_max ->
  zlen (pre ++ bs ++ post) - zlen pre < Z.of_nat fuel -> (0 < fuel)%nat ->
  header_walk fuel (pre ++ bs ++ post) (zlen pre) h best = Some (h', best') -> h <= h' /\ Forall (fun r => wr_frame_seq r <= h') rs.
Proof.
  intros Hl. revert pre fuel h best. induction Hl as [|r b rs bs Hw Hr Hl IH]; intros pre fuel h best Hu Hf H0 H.
  - destruct (header_walk_total _ fuel (zlen pre) h best Hu ltac:(apply zlen_nonneg) Hf H0) as (h2 & b2 & E & Hle).
    split; [|constructor]. assert (h2 = h') as <- by congruence. done.
  - rewrite <- app_assoc in *. destruct fuel as [|fuel]; [lia|]. cbn [header_walk] in H.
    pose proof (written_zlen r b Hw Hr) as Hz. unfold record_disk_size, WAL_MIN_RECORD_V4 in Hz. pose proof (zlen_nonneg (wr_frame r)).
    pose proof (zlen_nonneg (bs ++ post)). destruct (header_written pre r b (bs ++ post) Hw Hr Hu) as (H30 & Hm & Hs & Hlen).
    destruct (Z.ltb_spec (zlen (take 30 (drop (Z.to_nat (zlen pre)) (pre ++ b ++ bs ++ post)))) WAL_MIN_RECORD_V1); [unfold WAL_MIN_RECORD_V1 in *; lia|].
    rewrite Hm, Hlen, (written_room pre r b (bs ++ post)), Hs in H by done. cbn [min_record] in H.
    destruct (Z.ltb_spec (zlen (take 30 (drop (Z.to_nat (zlen pre)) (pre ++ b ++ bs ++ post)))) WAL_MIN_RECORD_V4); [unfold WAL_MIN_RECORD_V4 in *; lia|].
    rewrite (app_assoc pre) in *. rewrite zlen_app in Hf. rewrite (zlen_app pre b) in Hf.
    destruct (Z.ltb_spec h (wr_frame_seq r));
      (destruct (IH (pre ++ b) fuel _ _ Hu ltac:(rewrite !zlen_app in *; lia) ltac:(lia) H) as [Hle Hall]; split; [lia|]; constructor; [lia|done]).
Qed.

Lemma probe_of_log rs bs post : logged rs bs -> Forall probeable rs -> zlen (bs ++ post) <= usize_max ->
  exists h, highest_frame_seq_in_segment (bs ++ post) = Some h /\ Forall (fun r => wr_frame_seq r <= h) rs /\
    (h = 0 \/ exists at_ len, record_at (bs ++ post) at_ = Intact h len).
Proof.
  intros Hl Hp Hu. set (buf := bs ++ post) in *. unfold highest_frame_seq_in_segment, header_walk_highest_frame_seq, verified_walk_highest_frame_seq.
  assert (Hf : zlen buf - 0 < Z.of_nat (S (length buf))) by (unfold zlen; lia).
  destruct (header_walk_total buf (S (length buf)) 0 0 0 Hu ltac:(lia) Hf ltac:(lia)) as (h & best & Hh & H0). rewrite Hh. cbn [mbind option_bind fst snd].
  destruct (header_walk_log rs bs [] post _ 0 0 h best Hl Hu Hf ltac:(lia) Hh) as [_ Hall].
  destruct (Z.eqb_spec h 0) as [->|Hne]; [exists 0; auto|].
  destruct (verified_walk_total buf (S (length buf)) 0 0 Hu ltac:(lia) Hf ltac:(lia)) as (w & Hw & _ & Hin).
  destruct (verified_walk_log rs bs [] post _ 0 w Hl Hp Hu Hf ltac:(lia) Hw) as [_ Hall2].
  rewrite Hw. destruct (record_at buf best) as [s l| |] eqn:E; [destruct (Z.eqb_spec s h) as [->|]|..]; [|by exists w..].
  exists h. split_and!; [done|done|]. right. by exists best, l.
Qed.

Lemma probe_u64 buf o max s l : record_at_capped buf o max = Intact s l -> in_u64 s.
Proof.
  intros H. enough (Hs : s = le_field (take 30 (drop (Z.to_nat o) buf)) 5 8).
  { rewrite Hs. unfold le_field. set (b := take 8 _). pose proof (le_decode_range b) as Hr.
    assert (Hb : Z.of_nat (length b) <= 8) by (unfold b; rewrite length_take; lia).
    pose proof (Z.pow_le_mono_r 256 (Z.of_nat (length b)) 8 ltac:(lia) Hb). change (256 ^ 8) with 18446744073709551616 in *.
    unfold in_u64, u64_max. lia. }
  revert H. unfold record_at_capped. destruct (version_of _) as [v|]; [|done].
  destruct (_ <? min_record v); [done|]. destruct (max <? _); [done|].
  destruct v; [done|..]; (destruct (_ <? _); [done|]); (destruct (_ =? _); [by intros [= <- _]|done]).
Qed.

(** C26: A segment with any bytes after its records is read back to a highest
    sequence from which the counter restarts above every packet number those
    records can carry, so no packet number is issued twice across a restart. *)
Theorem a_restart_never_reissues rs bs post : logged rs bs -> Forall probeable rs -> zlen (bs ++ post) <= usize_max ->
  exists h, highest_frame_seq_in_segment (bs ++ post) = Some h /\
    (h = 0 \/ exists at_ len, record_at (bs ++ post) at_ = Intact h len) /\
    forall prev ops r p q x y k g, at_base prev -> Forall op_ok ops -> h < base_ceiling * BASE - BASE ->
      r ∈ rs -> wr_frame_seq r <> 0 -> 0 <= p -> 0 <= q -> packet_capture_seq (wr_frame_seq r) p = Some x ->
      minted ops (seed_frame_seq h prev) !! k = Some g -> packet_capture_seq g q = Some y -> x < y.
Proof.
  intros Hl Hp Hu. destruct (probe_of_log rs bs post Hl Hp Hu) as (h & H1 & H2 & H3). exists h. split; [done|]. split; [done|].
  intros prev ops r p q x y k g Hprev Hops Hlt Hr Hr0 Hp0 Hq Hx Hg Hy.
  assert (Hh : in_u64 h) by (destruct H3 as [->|(at_ & len & H3)]; [done|by apply probe_u64 in H3]).
  assert (Hru : in_u64 (wr_frame_seq r)).
  { clear -Hl Hr. induction Hl as [|r' b rs bs _ [Hok _] _ IH]; [by apply elem_of_nil in Hr|].
    apply elem_of_cons in Hr as [->|Hr]; [done|by apply IH]. }
  rewrite Forall_forall in H2. specialize (H2 r Hr). destruct (seed_spec h prev Hh Hprev) as (Hb & _ & Hs).
  destruct (minted_above _ _ _ _ Hops Hb Hg) as ((Hg1 & Hg2) & Hle & _).
  apply capture_seq_val in Hx as [-> Hpb]; [|done..]. apply capture_seq_val in Hy as [-> _]; [|done..].
  pose proof (Z.div_mod g BASE). specialize (Hs ltac:(lia) ltac:(unfold in_u64 in Hru; lia)).
  pose proof (Z.div_le_mono (wr_frame_seq r) h BASE ltac:(lia) H2). lia.
Qed.

Lemma a_restart_never_reissues_witness :
  exists h, highest_frame_seq_in_segment ((sample_bytes sample_record ++ sample_bytes sample_order ++ []) ++ bytes_of [84; 86; 87]) = Some h /\
    (h = 0 \/ exists at_ len, record_at ((sample_bytes sample_record ++ sample_bytes sample_order ++ []) ++ bytes_of [84; 86; 87]) at_ = Intact h len) /\
    forall prev ops r p q x y k g, at_base prev -> Forall op_ok ops -> h < base_ceiling * BASE - BASE ->
      r ∈ [sample_record; sample_order] -> wr_frame_seq r <> 0 -> 0 <= p -> 0 <= q -> packet_capture_seq (wr_frame_seq r) p = Some x ->
      minted ops (seed_frame_seq h prev) !! k = Some g -> packet_capture_seq g q = Some y -> x < y.
Proof.
  apply a_restart_never_reissues.
  - apply sample_logged; [by vm_compute|split; by vm_compute|]. apply sample_logged; [by vm_compute|split; by vm_compute|constructor].
  - constructor; [by vm_compute|]. constructor; [by vm_compute|constructor].
  - by vm_compute.
Defined.
