(* ===== verification/WalWatermark.v ===== *)
(** The applied watermark of the frame log ([storage/src/wal_applied_watermark.rs]):
    which captured frames are known to have reached the database, and so may be
    skipped by a replay or pruned.  The source guards this state with atomics, an
    ack gate and two mutexes; the model runs each method alone, on a watermark bound
    to its directory.  The sidecar's generation numbers and the writing of the two
    files are left out.  [now] is the probe's clock, [mono] the reading of the
    persist that follows it. *)
From coqutil Require Import Datatypes.RecordSettersUsingExistingGetters.
From S2P Require Import Prelude Bytes UnappliedRanges WalRecords WalSequence.
Local Open Scope Z_scope.

Definition UNAPPLIED_BUCKET_SHIFT : Z := 38.
Definition UNAPPLIED_BUCKETS : Z := 128.
Definition WATERMARK_DURABILITY_LAG_SECS : Z := 60.
Definition WATERMARK_DURABILITY_LAG_NANOS : Z := WATERMARK_DURABILITY_LAG_SECS * 1000000000.
Definition DURABILITY_SAMPLE_SLOTS : Z := 128.
Definition DURABILITY_SAMPLE_SPACING_NANOS : Z := 1000000000.
Definition RESCUE_FLOOR_SLOTS : Z := 16.
Definition PARKED_CONFIRM_CLEAN_PROBES : Z := 2.

Inductive ProbeVerdict : Type := Clean | LagOnly | Unsafe.

#[global] Instance ProbeVerdict_eq_dec : EqDecision ProbeVerdict.
Proof. solve_decision. Defined.

Definition u64_shl (x n : Z) : Z := Z.shiftl x n mod 18446744073709551616.

(** * The durability lag *)

Record DurabilitySample : Type := mkSample { taken_at : Z; ds_ticks : Z; ds_depth : Z }.

Record DurabilityLag : Type := mkLag {
  samples : list DurabilitySample;
  newest : Z;
  filled : Z;
  newest_opened_at : Z;
  durable_ticks : Z;
  durable_depth : Z }.

Definition new_lag : DurabilityLag := mkLag (replicate 128 (mkSample 0 0 0)) 0 0 0 0 0.

Definition lag_seed (hwm_ticks hwm_depth : Z) (l : DurabilityLag) : DurabilityLag :=
  { l with durable_ticks ::= Z.max hwm_ticks; durable_depth ::= Z.max hwm_depth }.

Definition lag_record (now hwm_ticks hwm_depth : Z) (l : DurabilityLag) : DurabilityLag :=
  let l :=
    if filled l =? 0 then { l with newest := 0; filled := 1; newest_opened_at := now }
    else if (now <? newest_opened_at l) || (u64_saturating_add (newest_opened_at l) DURABILITY_SAMPLE_SPACING_NANOS <=? now)
    then { l with newest ::= (fun n => (n + 1) mod DURABILITY_SAMPLE_SLOTS);
                  filled ::= (fun n => Z.min (n + 1) DURABILITY_SAMPLE_SLOTS); newest_opened_at := now }
    else l in
  { l with samples ::= <[Z.to_nat (newest l) := mkSample now hwm_ticks hwm_depth]> }.

(** The scan from the newest sample back, for the first one old enough. *)
Fixpoint old_enough (n : nat) (back now lag_nanos : Z) (l : DurabilityLag) : option DurabilitySample :=
  match n with
  | O => None
  | S n =>
      let at_ := (newest l + DURABILITY_SAMPLE_SLOTS - back) mod DURABILITY_SAMPLE_SLOTS in
      let s := nth (Z.to_nat at_) (samples l) (mkSample 0 0 0) in
      if (taken_at s <=? now) && (lag_nanos <=? now - taken_at s) then Some s
      else old_enough n (back + 1) now lag_nanos l
  end.

Definition durable_at (now lag_nanos : Z) (l : DurabilityLag) : (Z * Z) * DurabilityLag :=
  let l := match old_enough (Z.to_nat (filled l)) 0 now lag_nanos l with
           | Some s => { l with durable_ticks ::= (fun d => Z.max d (ds_ticks s)); durable_depth ::= fun d => Z.max d (ds_depth s) }
           | None => l
           end in
  ((durable_ticks l, durable_depth l), l).

(** * Margins *)

Definition reorder_reach_lo (first : Z) : Z :=
  if first =? 0 then 0 else let lo := u64_saturating_sub first REPLAY_REORDER_SLACK_SEQ in if lo =? 0 then 1 else lo.
Definition reorder_reach_hi (hi : Z) : Z := u64_saturating_add hi REPLAY_REORDER_SLACK_SEQ.
Definition cap_below_floor (hwm floor : Z) : Z :=
  if (floor =? u64_max) || (hwm <? floor) then hwm else u64_saturating_sub floor 1.
Definition frame_floor (seq : Z) : Z :=
  let base := Z.land seq (Z.lxor u64_max MAX_PACKET_INDEX) in if base =? 0 then 1 else base.
Definition suspension_range_lo (watermark : Z) : Z :=
  frame_floor (u64_saturating_sub watermark (2 * REPLAY_REORDER_SLACK_SEQ)).

(** * The snapshot and what it vouches for

    A migrated flag with no recorded span is the span (1, [u64_max]); the tag of
    the directory, the time of writing and the sidecar's generation are left out. *)

Record AppliedSnapshot : Type := mkSnapshot {
  sn_hwm_ticks : Z;
  sn_hwm_depth : Z;
  sn_depth_untracked : bool;
  sn_overflowed : bool;
  sn_buckets : list (Z * Z);
  sn_overflow_high_seq : Z;
  sn_ranges : UnappliedRanges;
  sn_migrated_span : option span;
  sn_frameless_gap : option span }.

Definition slot_of (bucket_id : Z) : nat := Z.to_nat (bucket_id mod UNAPPLIED_BUCKETS).
Definition bucket_id_at (buckets : list (Z * Z)) (slot : nat) : Z := (nth slot buckets (0, 0)).1.
Definition bucket_of (seq : Z) : Z := Z.shiftr seq UNAPPLIED_BUCKET_SHIFT.

Definition skip_below (sink : AppliedSink) (s : AppliedSnapshot) : Z :=
  let raw := match sink with
             | Depth => sn_hwm_depth s
             | Ticks => if sn_depth_untracked s then sn_hwm_ticks s else Z.min (sn_hwm_ticks s) (sn_hwm_depth s)
             end in
  u64_saturating_sub raw REPLAY_REORDER_SLACK_SEQ.

(** The look-up of the ids [id, id + 1, ...], as many as [n] says. *)
Fixpoint any_marked (n : nat) (id : Z) (buckets : list (Z * Z)) : bool :=
  match n with
  | O => false
  | S n => (bucket_id_at buckets (slot_of id) =? id) || any_marked n (id + 1) buckets
  end.

Definition unapplied_in (lo hi bucket_lo bucket_hi : Z) (s : AppliedSnapshot) : bool :=
  if hi <? lo then true else
  let bucket_lo := Z.min bucket_lo lo in
  let bucket_hi := Z.max bucket_hi hi in
  if sn_overflowed s && (bucket_lo <=? (if sn_overflow_high_seq s =? 0 then u64_max else sn_overflow_high_seq s)) then true
  else if intersects lo hi (sn_ranges s) then true
  else
    let first := if (bucket_of bucket_lo =? 0) && negb (bucket_of lo =? 0) then 1 else bucket_of bucket_lo in
    let last := bucket_of bucket_hi in
    if UNAPPLIED_BUCKETS <=? u64_saturating_sub last first then true
    else any_marked (S (Z.to_nat (last - first))) first (sn_buckets s).

Definition range_has_unapplied (lo hi : Z) (s : AppliedSnapshot) : bool := unapplied_in lo hi lo hi s.

Definition range_is_applied (sink : AppliedSink) (lo hi : Z) (s : AppliedSnapshot) : bool :=
  if (lo =? 0) || (hi <? lo) then false
  else
    let below := skip_below sink s in
    if (below =? 0) || (below <? hi) then false else negb (range_has_unapplied lo hi s).

Definition frame_is_applied (sink : AppliedSink) (seq : Z) (s : AppliedSnapshot) : bool := range_is_applied sink seq seq s.

Definition below_watermarks_by_a_slack (hi : Z) (s : AppliedSnapshot) : bool :=
  let reach := u64_saturating_add hi REPLAY_REORDER_SLACK_SEQ in
  (reach <? skip_below Ticks s) && (reach <? skip_below Depth s).

Definition segment_is_applied (first hi : Z) (s : AppliedSnapshot) : bool :=
  range_is_applied Ticks first hi s && range_is_applied Depth first hi s && below_watermarks_by_a_slack hi s &&
  negb (unapplied_in first hi (reorder_reach_lo first) (reorder_reach_hi hi) s).

(** * The watermark *)

Record ParkedConfirm : Type := mkParked {
  pc_lo : Z;
  pc_hi : Z;
  pc_ticks : Z;
  pc_depth : Z;
  ready_mono : Z;
  probes_needed : Z;
  episodes_at : Z;
  contaminated : bool }.

Record AppliedWatermark : Type := mkWatermark {
  hwm_ticks : Z;
  hwm_depth : Z;
  depth_untracked : bool;
  overflowed : bool;
  overflow_high_seq : Z;
  overflow_low_seq : Z;
  buckets : list (Z * Z);
  sink_suspect : bool;
  healthy_ticks : Z;
  healthy_depth : Z;
  suspect_max_ticks : Z;
  suspect_max_depth : Z;
  episode_lag_only : bool;
  clean_probes : Z;
  suspect_episodes : Z;
  floors_ticks : list Z;
  floors_depth : list Z;
  wm_ranges : UnappliedRanges;
  wm_migrated_span : option span;
  parked_confirm : option ParkedConfirm;
  boot_applied_floor : Z;
  boot_folded : bool;
  boot_own_floor : Z;
  boot_frame_high : Z;
  boot_gap : option span;
  lag : DurabilityLag }.

Definition new_watermark : AppliedWatermark :=
  mkWatermark 0 0 false false 0 u64_max (replicate 128 (0, 0)) false 0 0 0 0 false 0 0 (replicate 16 0) (replicate 16 0)
    no_ranges None None 0 false 0 0 None new_lag.

(** [RangesState::widen_migrated] and [settle_migrated]. *)
Definition widen_migrated (s : span) (w : AppliedWatermark) : AppliedWatermark :=
  { w with wm_migrated_span ::= fun m => Some (match m with Some (a, b) => (Z.min a s.1, Z.max b s.2) | None => s end) }.
Definition settle_migrated (w : AppliedWatermark) : AppliedWatermark :=
  match wm_migrated_span w with
  | Some (a, b) => if intersects a b (wm_ranges w) then w else { w with wm_migrated_span := None }
  | None => w
  end.

Definition note_add (lo hi : Z) (p : ParkedConfirm) : ParkedConfirm :=
  if (lo <=? hi) && (lo <=? pc_hi p) && (pc_lo p <=? hi) then { p with contaminated := true } else p.

Definition parked_confirm_span (hwm_ticks hwm_depth parked_ticks parked_depth : Z) : option span :=
  let parked_t := if hwm_ticks <? parked_ticks then parked_ticks else 0 in
  let parked_d := if hwm_depth <? parked_depth then parked_depth else 0 in
  let top := if parked_d <? parked_t then parked_t else parked_d in
  if top =? 0 then None else
  let entry_top := if hwm_depth <? hwm_ticks then hwm_ticks else hwm_depth in
  let lo := u64_saturating_add (u64_saturating_add entry_top REPLAY_REORDER_SLACK_SEQ) 1 in
  let hi := u64_saturating_add top REPLAY_REORDER_SLACK_SEQ in
  if hi <? lo then None else Some (lo, hi).

Definition boot_floor_of (s : AppliedSnapshot) : Z :=
  u64_saturating_sub (Z.min (sn_hwm_ticks s) (sn_hwm_depth s)) REPLAY_REORDER_SLACK_SEQ.
Definition boot_range_floor (w : AppliedWatermark) : Z :=
  frame_floor (u64_saturating_sub (boot_applied_floor w) REPLAY_REORDER_SLACK_SEQ).

Definition wm_add (lo hi : Z) (w : AppliedWatermark) : AppliedWatermark :=
  { w with wm_ranges ::= fun r => (add_range lo hi r).2 }.

(** [seed]: the loaded snapshot joins what the process holds. *)
Definition wm_seed (s : AppliedSnapshot) (w : AppliedWatermark) : AppliedWatermark :=
  let w := { w with hwm_ticks ::= Z.max (sn_hwm_ticks s); hwm_depth ::= Z.max (sn_hwm_depth s);
                    lag ::= lag_seed (sn_hwm_ticks s) (sn_hwm_depth s) } in
  let w := { w with healthy_ticks := hwm_ticks w; healthy_depth := hwm_depth w;
                    depth_untracked ::= orb (sn_depth_untracked s) } in
  let w := if sn_overflowed s then { w with overflow_high_seq := u64_max; overflowed := true } else w in
  let w := foldl (fun w p => wm_add p.1 p.2 w) w (sn_ranges s) in
  let w := match sn_migrated_span s with Some m => widen_migrated m w | None => w end in
  { w with buckets := sn_buckets s }.

(** [bind], the first call: the file's snapshot, when there is one. *)
Definition bind_wm (loaded : option AppliedSnapshot) (w : AppliedWatermark) : AppliedWatermark :=
  let w := { w with boot_applied_floor := match loaded with Some s => boot_floor_of s | None => 0 end } in
  match loaded with Some s => wm_seed s w | None => w end.

Definition note_ticks_acked (max_seq : Z) (w : AppliedWatermark) : AppliedWatermark :=
  if sink_suspect w then { w with suspect_max_ticks ::= Z.max max_seq } else { w with hwm_ticks ::= Z.max max_seq }.
Definition note_depth_acked (max_seq : Z) (w : AppliedWatermark) : AppliedWatermark :=
  if sink_suspect w then { w with suspect_max_depth ::= Z.max max_seq } else { w with hwm_depth ::= Z.max max_seq }.

(** [mark_slot] after the id is in place. *)
Definition mark_slot (slot : nat) (id : Z) (w : AppliedWatermark) : AppliedWatermark :=
  { w with buckets ::= fun b => <[slot := (id, if (nth slot b (0, 0)).2 =? 0 then 1 else (nth slot b (0, 0)).2)]> b }.

Definition note_unapplied (seq : Z) (w : AppliedWatermark) : AppliedWatermark :=
  let id := bucket_of seq in
  if id =? 0 then w else
  let current := bucket_id_at (buckets w) (slot_of id) in
  if (current =? id) || (current =? 0) then mark_slot (slot_of id) id w
  else
    let bucket_top := u64_saturating_sub (u64_shl (id + 1) UNAPPLIED_BUCKET_SHIFT) 1 in
    { w with overflow_low_seq ::= Z.min (u64_shl id UNAPPLIED_BUCKET_SHIFT); overflow_high_seq ::= Z.max bucket_top;
             overflowed := true }.

(** The ids [id, id + 1, ...], as many as [n] says. *)
Fixpoint note_ids (n : nat) (id : Z) (w : AppliedWatermark) : AppliedWatermark :=
  match n with
  | O => w
  | S n => note_ids n (id + 1) (note_unapplied (u64_shl id UNAPPLIED_BUCKET_SHIFT) w)
  end.

Definition note_unapplied_range (lo hi : Z) (w : AppliedWatermark) : AppliedWatermark :=
  if (lo =? 0) || (hi <? lo) then w else
  let first := bucket_of lo in
  let last := bucket_of hi in
  if UNAPPLIED_BUCKETS <=? u64_saturating_sub last first then
    { w with overflow_low_seq ::= Z.min lo; overflow_high_seq ::= Z.max hi; overflowed := true }
  else note_ids (S (Z.to_nat (last - first))) first w.

Definition add_unapplied_range (lo hi : Z) (w : AppliedWatermark) : bool * AppliedWatermark :=
  if hi <? lo then (false, w) else
  let w := { w with parked_confirm ::= fmap (note_add (frame_floor lo) hi) } in
  ((add_range (frame_floor lo) hi (wm_ranges w)).1, wm_add (frame_floor lo) hi w).

(** A known overflow becomes a range: the loop's one pass, run alone. *)
Definition bound_known_overflow (w : AppliedWatermark) : AppliedWatermark :=
  if negb (overflowed w) || (overflow_high_seq w =? 0) || (overflow_high_seq w =? u64_max) then w else
  let high := overflow_high_seq w in
  let low := overflow_low_seq w in
  let lo := if (low =? 0) || (high <? low) then 1 else low in
  let bound_lo := frame_floor (u64_saturating_sub lo REPLAY_REORDER_SLACK_SEQ) in
  let bound_hi := u64_saturating_add high REPLAY_REORDER_SLACK_SEQ in
  let w := { w with parked_confirm ::= fmap (note_add bound_lo bound_hi) } in
  { wm_add bound_lo bound_hi w with overflowed := false; overflow_high_seq := 0; overflow_low_seq := u64_max }.

Definition wm_floors (sink : AppliedSink) (w : AppliedWatermark) : list Z :=
  match sink with Ticks => floors_ticks w | Depth => floors_depth w end.
Definition set_floor (sink : AppliedSink) (slot : nat) (v : Z) (w : AppliedWatermark) : AppliedWatermark :=
  match sink with
  | Ticks => { w with floors_ticks ::= <[slot := v]> }
  | Depth => { w with floors_depth ::= <[slot := v]> }
  end.

Fixpoint free_slot (l : list Z) : option nat :=
  match l with [] => None | x :: l => if x =? 0 then Some O else S <$> free_slot l end.

Definition hold_rescue_floor (sink : AppliedSink) (min_seq max_seq : Z) (w : AppliedWatermark) : option nat * AppliedWatermark :=
  if min_seq =? 0 then (None, w) else
  match free_slot (wm_floors sink w) with
  | Some slot => (Some slot, set_floor sink slot min_seq w)
  | None => (None, note_unapplied_range min_seq (Z.max max_seq min_seq) w)
  end.
Definition release_rescue_floor (sink : AppliedSink) (slot : nat) (w : AppliedWatermark) : AppliedWatermark := set_floor sink slot 0 w.
Definition rescue_floor_min (sink : AppliedSink) (w : AppliedWatermark) : Z :=
  foldr (fun held lowest => if held =? 0 then lowest else Z.min held lowest) u64_max (wm_floors sink w).

Definition wm_snapshot (w : AppliedWatermark) : AppliedSnapshot :=
  mkSnapshot (hwm_ticks w) (hwm_depth w) (depth_untracked w) (overflowed w) (buckets w) (overflow_high_seq w)
    (wm_ranges w) (wm_migrated_span w) (boot_gap w).

(** The snapshot as it goes to disk. *)
Definition durable_view (mono_now : Z) (w : AppliedWatermark) : AppliedSnapshot * AppliedWatermark :=
  let '(durable, l) := durable_at mono_now WATERMARK_DURABILITY_LAG_NANOS (lag_record mono_now (hwm_ticks w) (hwm_depth w) (lag w)) in
  let s := wm_snapshot w in
  (mkSnapshot (cap_below_floor (Z.min durable.1 (hwm_ticks w)) (rescue_floor_min Ticks w))
     (cap_below_floor (Z.min durable.2 (hwm_depth w)) (rescue_floor_min Depth w))
     (sn_depth_untracked s) (sn_overflowed s) (sn_buckets s) (sn_overflow_high_seq s) (sn_ranges s) (sn_migrated_span s) (sn_frameless_gap s),
   { w with lag := l }).

Definition persist_at (mono_now : Z) (w : AppliedWatermark) : AppliedSnapshot * AppliedWatermark :=
  durable_view mono_now (bound_known_overflow w).

(** The exit of an episode: its ranges, and what may later confirm them. *)
Definition add_exit_ranges (l : list span) (pending : option ParkedConfirm) (w : AppliedWatermark) : AppliedWatermark :=
  let pending := (fun p => if intersects (pc_lo p) (pc_hi p) (wm_ranges w) then { p with contaminated := true } else p) <$> pending in
  let w := foldl (fun w p => if p.1 <=? p.2 then wm_add (frame_floor p.1) p.2 w else w) w l in
  { w with parked_confirm := pending }.

Definition confirm_parked_if_due (now mono : Z) (w : AppliedWatermark) : bool * AppliedWatermark :=
  match parked_confirm w with
  | None => (false, w)
  | Some p =>
      if negb (suspect_episodes w =? episodes_at p) || contaminated p then (false, { w with parked_confirm := None }) else
      if sink_suspect w || (now <? ready_mono p) || (clean_probes w <? probes_needed p) then (false, w) else
      match remove_span (pc_lo p) (pc_hi p) (wm_ranges w) with
      | (None, _) => (false, w)
      | (Some _, r) =>
          let w := settle_migrated { w with parked_confirm := None; wm_ranges := r } in
          (true, (persist_at mono { w with hwm_ticks ::= Z.max (pc_ticks p); hwm_depth ::= Z.max (pc_depth p) }).2)
      end
  end.

(** What a clean probe leaves of an episode. *)
Definition end_episode (now mono : Z) (w : AppliedWatermark) : AppliedWatermark :=
  let parked_t := suspect_max_ticks w in
  let parked_d := suspect_max_depth w in
  let lag_only := episode_lag_only w in
  let w := { w with sink_suspect := false; suspect_max_ticks := 0; suspect_max_depth := 0; episode_lag_only := false } in
  if (hwm_ticks w <? parked_t) || (hwm_depth w <? parked_d) then
    let pending :=
      if lag_only then
        (fun s => mkParked s.1 s.2 (if hwm_ticks w <? parked_t then parked_t else 0) (if hwm_depth w <? parked_d then parked_d else 0)
                    (u64_saturating_add now WATERMARK_DURABILITY_LAG_NANOS)
                    (u64_saturating_add (clean_probes w) PARKED_CONFIRM_CLEAN_PROBES) (suspect_episodes w) false)
        <$> parked_confirm_span (hwm_ticks w) (hwm_depth w) parked_t parked_d
      else None in
    let exit_range h p := if h <? p then (suspension_range_lo h, u64_saturating_add p REPLAY_REORDER_SLACK_SEQ) else (1, 0) in
    (persist_at mono (add_exit_ranges [exit_range (hwm_ticks w) parked_t; exit_range (hwm_depth w) parked_d] pending w)).2
  else w.

Definition clean_probe (basis : option (Z * Z)) (now mono : Z) (w : AppliedWatermark) : AppliedWatermark :=
  let w := { w with clean_probes ::= fun n => u64_saturating_add n 1 } in
  let w := if sink_suspect w then end_episode now mono w else w in
  let healthy := match basis with
                 | Some (t, d) => (Z.min t (hwm_ticks w), Z.min d (hwm_depth w))
                 | None => (hwm_ticks w, hwm_depth w)
                 end in
  (confirm_parked_if_due now mono { w with healthy_ticks := healthy.1; healthy_depth := healthy.2 }).2.

Definition begin_episode (lag_only : bool) (mono : Z) (w : AppliedWatermark) : AppliedWatermark :=
  let w := { w with sink_suspect := true; episode_lag_only := lag_only;
                    suspect_episodes ::= (fun n => u64_saturating_add n 1); parked_confirm := None } in
  let w := (add_unapplied_range (suspension_range_lo (healthy_ticks w)) (u64_saturating_add (hwm_ticks w) REPLAY_REORDER_SLACK_SEQ) w).2 in
  let w := (add_unapplied_range (suspension_range_lo (healthy_depth w)) (u64_saturating_add (hwm_depth w) REPLAY_REORDER_SLACK_SEQ) w).2 in
  (persist_at mono w).2.

Definition note_questdb_probe_full (verdict : ProbeVerdict) (basis : option (Z * Z)) (now mono : Z) (w : AppliedWatermark) : AppliedWatermark :=
  if bool_decide (verdict = Clean) then clean_probe basis now mono w
  else if sink_suspect w then
    if bool_decide (verdict = Unsafe) then { w with episode_lag_only := false } else w
  else begin_episode (bool_decide (verdict = LagOnly)) mono w.

Definition range_reset_ceiling (ceiling_seq : Z) (w : AppliedWatermark) : Z :=
  if (ceiling_seq =? u64_max) || negb (boot_folded w) then ceiling_seq
  else if boot_own_floor w <=? ceiling_seq then Z.max ceiling_seq (u64_saturating_add (boot_own_floor w) 1)
  else Z.max ceiling_seq (u64_saturating_add (boot_frame_high w) 1).

Definition reset_unapplied_below (ceiling_seq : Z) (w : AppliedWatermark) : AppliedWatermark :=
  let ceiling_id := bucket_of ceiling_seq in
  let kept := existsb (fun b => negb (b.1 =? 0) && (ceiling_id <=? b.1)) (buckets w) in
  let w := { w with buckets ::= fmap (fun b => if negb (b.1 =? 0) && (b.1 <? ceiling_id) then (0, 0) else b) } in
  let w := if negb kept && (overflow_high_seq w <? ceiling_seq)
           then { w with overflow_high_seq := 0; overflow_low_seq := u64_max; overflowed := false } else w in
  let range_ceiling := range_reset_ceiling ceiling_seq w in
  settle_migrated { w with wm_ranges ::= fun r => if range_ceiling =? u64_max then no_ranges else (trim_below range_ceiling r).2 }.

Definition clip_unapplied_ranges_to (spans : list span) (w : AppliedWatermark) : AppliedWatermark :=
  settle_migrated { w with wm_ranges ::= fun r => (clip_to spans r).2 }.
Definition trim_unapplied_ranges_below (seq : Z) (w : AppliedWatermark) : AppliedWatermark :=
  settle_migrated { w with wm_ranges ::= fun r => (trim_below seq r).2 }.

(** * The boot fold *)

Definition wm_add_avoiding (lo hi : Z) (spans : list span) (w : AppliedWatermark) : AppliedWatermark :=
  { w with wm_ranges ::= fun r => (add_range_avoiding lo hi spans r).2 }.

Definition fold_overflow (oldest_lo : option Z) (own_floor : Z) (spans : list span) (w : AppliedWatermark) : AppliedWatermark :=
  let height := overflow_high_seq w in
  if overflowed w && ((height =? u64_max) || (height <=? own_floor)) then
    let hi := if (height =? u64_max) || (height =? 0) then own_floor else height in
    let lo := clamp 1 (Z.max hi 1) (default 1 oldest_lo) in
    { widen_migrated (lo, hi) (wm_add_avoiding lo hi spans w) with
      overflow_high_seq := 0; overflow_low_seq := u64_max; overflowed := false }
  else w.

Definition fold_bucket (own_bucket : Z) (spans : list span) (w : AppliedWatermark) (slot : nat) : AppliedWatermark :=
  let id := bucket_id_at (buckets w) slot in
  if (id =? 0) || (own_bucket <=? id) then w else
  let lo := frame_floor (u64_saturating_sub (u64_shl id UNAPPLIED_BUCKET_SHIFT) REPLAY_REORDER_SLACK_SEQ) in
  let hi := u64_saturating_add (u64_saturating_sub (u64_shl (id + 1) UNAPPLIED_BUCKET_SHIFT) 1) REPLAY_REORDER_SLACK_SEQ in
  { wm_add_avoiding lo hi spans w with buckets ::= <[slot := (0, 0)]> }.

Definition fold_at_boot_with_spans (oldest_waiting : option Z) (frame_high own_floor : Z) (spans : list span)
    (w : AppliedWatermark) : AppliedWatermark :=
  if boot_folded w then w else
  let gap_lo := u64_saturating_add frame_high 1 in
  let w := { w with boot_folded := true; boot_own_floor := own_floor; boot_frame_high := frame_high;
                    boot_gap ::= fun g => if gap_lo <=? own_floor then Some (gap_lo, own_floor) else g } in
  let oldest_lo := (fun o => Z.max (u64_saturating_sub o REPLAY_REORDER_SLACK_SEQ) 1) <$> oldest_waiting in
  let w := fold_overflow oldest_lo own_floor spans w in
  let w := foldl (fold_bucket (bucket_of own_floor) spans) w (seq 0 128) in
  let tail_lo := Z.max (boot_range_floor w) (default 1 oldest_lo) in
  settle_migrated (if tail_lo <=? own_floor then wm_add_avoiding tail_lo own_floor spans w else w).
