(* ===== verification/WatermarkSafety.v ===== *)
(** What the applied watermark promises to the pruning and the replay of the
    frame log: a frame that is known not to have reached the database keeps its
    own record and every segment near it from being vouched for, whatever else
    happens to the watermark. *)
From coqutil Require Import Datatypes.RecordSettersUsingExistingGetters.
From S2P Require Import Prelude Bytes UnappliedRanges WalRecords WalSequence WalWatermark.
Local Open Scope Z_scope.

(** * The operations of one process, in the order it runs them *)

Inductive wm_op : Type :=
  | OAckTicks (max_seq : Z)
  | OAckDepth (max_seq : Z)
  | ONote (seq : Z)
  | ONoteRange (lo hi : Z)
  | OAdd (lo hi : Z)
  | OHold (sink : AppliedSink) (min_seq max_seq : Z)
  | ORelease (sink : AppliedSink) (slot : nat)
  | OProbe (verdict : ProbeVerdict) (basis : option (Z * Z)) (now mono : Z)
  | OReset (ceiling_seq : Z)
  | OTrim (seq : Z)
  | OClip (spans : list span)
  | OPersist (now : Z)
  | OFold (oldest_waiting : option Z) (frame_high own_floor : Z) (spans : list span).

Definition wm_step (o : wm_op) (w : AppliedWatermark) : AppliedWatermark :=
  match o with
  | OAckTicks n => note_ticks_acked n w
  | OAckDepth n => note_depth_acked n w
  | ONote s => note_unapplied s w
  | ONoteRange lo hi => note_unapplied_range lo hi w
  | OAdd lo hi => (add_unapplied_range lo hi w).2
  | OHold sink lo hi => (hold_rescue_floor sink lo hi w).2
  | ORelease sink slot => release_rescue_floor sink slot w
  | OProbe v basis now mono => note_questdb_probe_full v basis now mono w
  | OReset c => reset_unapplied_below c w
  | OTrim s => trim_unapplied_ranges_below s w
  | OClip spans => clip_unapplied_ranges_to spans w
  | OPersist now => (persist_at now w).2
  | OFold oldest high own spans => fold_at_boot_with_spans oldest high own spans w
  end.

Definition wm_run (ops : list wm_op) (w : AppliedWatermark) : AppliedWatermark := foldl (fun w o => wm_step o w) w ops.

(** The boot fold runs before the first probe, so nothing waits to be confirmed;
    spans are as [merge_spans] leaves them. *)
Definition wm_op_ok (o : wm_op) (w : AppliedWatermark) : Prop :=
  match o with
  | ONoteRange lo hi | OHold _ lo hi => in_u64 lo /\ in_u64 hi
  | OAdd lo hi => in_u64 lo /\ in_u64 hi
  | OClip spans => apart 1 spans
  | OFold oldest high own spans => parked_confirm w = None /\ apart 1 spans /\ in_u64 own
  | _ => True
  end.

Fixpoint wm_run_ok (ops : list wm_op) (w : AppliedWatermark) : Prop :=
  match ops with [] => True | o :: ops => wm_op_ok o w /\ wm_run_ok ops (wm_step o w) end.

(** A process begins with nothing known, or with the snapshot it loaded. *)
Definition booted (loaded : option AppliedSnapshot) : AppliedWatermark := bind_wm loaded new_watermark.

(** * What is owed

    [d] is how far around a frame its neighbours must be held back too: 0 for the
    frame alone, a reorder slack for the segments that may hold it. *)

(** Sequence numbers come from the clock: past 2^38, below 2^63. *)
Definition clock_seq (s : Z) : Prop := 274877906944 <= s <= i64_max.

Definition marked (l : list (Z * Z)) (s : Z) : Prop := bucket_id_at l (slot_of (bucket_of s)) = bucket_of s.

(** What a snapshot says about a frame. *)
Definition recorded (d : Z) (sn : AppliedSnapshot) (s : Z) : Prop :=
  marked (sn_buckets sn) s \/
  (sn_overflowed sn = true /\ (s <= sn_overflow_high_seq sn \/ sn_overflow_high_seq sn = 0)) \/
  (forall x, Z.max 1 (s - d) <= x <= s + d -> within x (sn_ranges sn)).

Definition around (d s lo hi : Z) : Prop := lo <= Z.max 1 (s - d) /\ s + d <= hi.

(** What was acknowledged while the tables were suspect, and a slack below. *)
Definition parked_near (w : AppliedWatermark) (s : Z) : Prop :=
  hwm_ticks w < suspect_max_ticks w /\ hwm_ticks w - REPLAY_REORDER_SLACK_SEQ <= s <= suspect_max_ticks w \/
  hwm_depth w < suspect_max_depth w /\ hwm_depth w - REPLAY_REORDER_SLACK_SEQ <= s <= suspect_max_depth w.

(** The operations that make a frame owed: it was shed or its write failed; it was
    acknowledged since the last clean probe when the tables turned suspect; or it
    was acknowledged while they were, and not for apply lag alone. *)
Definition owes (d : Z) (o : wm_op) (w : AppliedWatermark) (s : Z) : Prop :=
  match o with
  | ONote s' => s = s'
  | ONoteRange lo hi => 0 < lo <= s /\ s <= hi
  | OHold sink lo hi => free_slot (wm_floors sink w) = None /\ 0 < lo <= s /\ s <= hi
  | OAdd lo hi => around d s lo hi
  | OProbe v _ _ _ =>
      if bool_decide (v = Clean) then
        sink_suspect w = true /\ episode_lag_only w = false /\
        parked_near w s
      else
        sink_suspect w = false /\
        (healthy_ticks w - REPLAY_REORDER_SLACK_SEQ <= s <= hwm_ticks w \/ healthy_depth w - REPLAY_REORDER_SLACK_SEQ <= s <= hwm_depth w)
  | _ => False
  end.

(** What the boot fold turns a recorded overflow into. *)
Definition folded_lo (oldest : option Z) : Z := default 1 ((fun o => Z.max (u64_saturating_sub o REPLAY_REORDER_SLACK_SEQ) 1) <$> oldest).
Definition folded_hi (own : Z) (w : AppliedWatermark) : Z :=
  if (overflow_high_seq w =? u64_max) || (overflow_high_seq w =? 0) then own else overflow_high_seq w.

(** The operations that say it reached the database after all, or that no file
    holds it. *)
Definition settles (d : Z) (o : wm_op) (w : AppliedWatermark) (s : Z) : Prop :=
  match o with
  | OReset c => Z.max 1 (s - d) < range_reset_ceiling c w
  | OTrim q => Z.max 1 (s - d) < q
  | OClip spans => exists x, Z.max 1 (s - d) <= x <= s + d /\ ~ within x spans
  | OFold oldest _ own _ =>
      boot_folded w = false /\ overflowed w = true /\ (overflow_high_seq w = u64_max \/ overflow_high_seq w <= own) /\
      ~ around d s (folded_lo oldest) (folded_hi own w)
  | _ => False
  end.

Fixpoint owed (d : Z) (ops : list wm_op) (w : AppliedWatermark) (s : Z) (before : Prop) : Prop :=
  match ops with
  | [] => before
  | o :: ops => owed d ops (wm_step o w) s (owes d o w s \/ before /\ ~ settles d o w s)
  end.

(** * Reading a snapshot *)

Lemma bucket_val x : bucket_of x = x / 274877906944.
Proof. unfold bucket_of. by rewrite Z.shiftr_div_pow2. Qed.

Lemma bucket_mono x y : x <= y -> bucket_of x <= bucket_of y.
Proof. intros H. rewrite !bucket_val. by apply Z.div_le_mono. Qed.

Lemma clock_bucket s : clock_seq s -> 1 <= bucket_of s <= 33554431.
Proof.
  unfold clock_seq, i64_max. intros H. rewrite bucket_val.
  pose proof (Z.div_mod s 274877906944). pose proof (Z.mod_pos_bound s 274877906944). lia.
Qed.

Lemma any_marked_here n id l s : id <= s < id + Z.of_nat n -> bucket_id_at l (slot_of s) = s -> any_marked n id l = true.
Proof.
  revert id. induction n as [|n IH]; intros id H Hs; [lia|]. cbn. destruct (decide (id = s)) as [->|].
  - by rewrite Hs, Z.eqb_refl.
  - rewrite IH by first [done | lia]. apply orb_true_r.
Qed.

(** Whatever a snapshot records near a range is found when the range is read. *)
Lemma recorded_unapplied d sn s first hi blo bhi : clock_seq s -> recorded d sn s -> ranges_ok (sn_ranges sn) ->
  0 <= d -> 1 <= first -> first - d <= s <= hi + d -> Z.min blo first <= s <= Z.max bhi hi ->
  unapplied_in first hi blo bhi sn = true.
Proof.
  intros Hs Hrec Hr Hd Hf Hn Hb. unfold unapplied_in. destruct (Z.ltb_spec hi first) as [|Hfh]; [done|].
  destruct Hrec as [Hm|[[Ho Hh]|Hall]].
  - destruct (_ && _); [done|]. destruct (intersects _ _ _); [done|].
    pose proof (clock_bucket s Hs) as Hbs. pose proof (bucket_mono _ _ (proj1 Hb)). pose proof (bucket_mono _ _ (proj2 Hb)).
    set (b0 := bucket_of (Z.min blo first)) in *. set (b1 := bucket_of (Z.max bhi hi)) in *. clearbody b0 b1.
    set (b0' := if (b0 =? 0) && _ then 1 else b0).
    assert (b0' <= bucket_of s) by (subst b0'; destruct (_ && _); lia). clearbody b0'.
    destruct (Z.leb_spec UNAPPLIED_BUCKETS (u64_saturating_sub b1 b0')); [done|]. apply (any_marked_here _ _ _ (bucket_of s)); [lia|done].
  - rewrite Ho. replace (_ && _) with true; [done|]. symmetry. cbn [andb].
    unfold clock_seq in Hs. destruct (Z.eqb_spec (sn_overflow_high_seq sn) 0); zints.
  - destruct (_ && _); [done|]. replace (intersects first hi (sn_ranges sn)) with true; [done|]. symmetry.
    apply intersects_ok; [done|]. exists (Z.max first (Z.max 1 (s - d))). split; [|apply Hall]; unfold clock_seq in Hs; lia.
Qed.

(** So neither the frame nor a segment near it is vouched for. *)
Lemma recorded_pins d sn s first hi sink : clock_seq s -> recorded d sn s -> ranges_ok (sn_ranges sn) ->
  0 <= d <= REPLAY_REORDER_SLACK_SEQ -> 0 <= first -> first - d <= s <= hi + d ->
  frame_is_applied sink s sn = false /\ segment_is_applied first hi sn = false.
Proof.
  intros Hs Hrec Hr Hd Hf Hn. split.
  - unfold frame_is_applied, range_is_applied. destruct (_ || _); [done|]. destruct (_ || _); [done|].
    unfold range_has_unapplied. rewrite (recorded_unapplied d sn s); [done|done..|lia|unfold clock_seq in Hs; lia|lia|lia].
  - unfold segment_is_applied, range_is_applied at 1. destruct (Z.eqb_spec first 0); [done|].
    rewrite (recorded_unapplied d sn s first hi (reorder_reach_lo first)); [apply andb_false_r|done..|lia|lia|done|].
    unfold clock_seq, reorder_reach_lo, reorder_reach_hi, REPLAY_REORDER_SLACK_SEQ in *.
    destruct (Z.eqb_spec first 0); [done|]. destruct (Z.eqb_spec (u64_saturating_sub first 1000000000) 0); zints.
Qed.

(** * What the watermark holds on to

    The span of a pending confirmation will be cut out of the ranges, unless it
    is contaminated: a number outside it, or a contaminated one's, is safe. *)

Definition safe (p : option ParkedConfirm) (x : Z) : Prop :=
  match p with Some p => contaminated p = true \/ ~ (pc_lo p <= x <= pc_hi p) | None => True end.
Definition kept (w : AppliedWatermark) (x : Z) : Prop := within x (wm_ranges w) /\ safe (parked_confirm w) x.
Definition in_overflow (w : AppliedWatermark) (s : Z) : Prop :=
  overflowed w = true /\ s <= overflow_high_seq w /\ (overflow_high_seq w = u64_max \/ overflow_low_seq w <= s).

Definition covered (d : Z) (w : AppliedWatermark) (s : Z) : Prop :=
  marked (buckets w) s \/ in_overflow w s \/ forall x, Z.max 1 (s - d) <= x <= s + d -> kept w x.

Definition books_ok (w : AppliedWatermark) : Prop :=
  ranges_ok (wm_ranges w) /\ length (buckets w) = 128%nat /\ in_u64 (overflow_high_seq w) /\
  match parked_confirm w with Some p => 0 <= pc_lo p | None => True end.

Record advances (w w' : AppliedWatermark) : Prop := mkAdvances {
  adv_marked : forall s, clock_seq s -> marked (buckets w) s -> marked (buckets w') s;
  adv_overflow : forall s, in_overflow w s -> in_overflow w' s;
  adv_kept : forall x, kept w x -> kept w' x }.

(** A step between well-formed watermarks that forgets nothing. *)
Definition forgets_nothing (w w' : AppliedWatermark) : Prop := books_ok w -> books_ok w' /\ advances w w'.

#[export] Instance forgets_nothing_preorder : PreOrder forgets_nothing.
Proof.
  split.
  - intros w H. split; [done|]. by split.
  - intros w1 w2 w3 H1 H2 H. destruct (H1 H) as [B1 [A1 A2 A3]], (H2 B1) as [B2 [C1 C2 C3]]. split; [done|]. split; auto.
Qed.

Lemma advances_covered d w w' s : clock_seq s -> advances w w' -> covered d w s -> covered d w' s.
Proof. intros Hs [H1 H2 H3] [H|[H|H]]; [left|right; left|right; right]; auto. Qed.

(** Fields that none of this reads. *)
Lemma other_fields w w' : buckets w' = buckets w -> overflowed w' = overflowed w -> overflow_high_seq w' = overflow_high_seq w ->
  overflow_low_seq w' = overflow_low_seq w -> wm_ranges w' = wm_ranges w -> parked_confirm w' = parked_confirm w ->
  forgets_nothing w w'.
Proof.
  intros E1 E2 E3 E4 E5 E6. unfold forgets_nothing, books_ok. rewrite E1, E3, E5, E6. intros H. split; [done|].
  split; unfold kept, in_overflow; by rewrite ?E1, ?E2, ?E3, ?E4, ?E5, ?E6.
Qed.

Ltac untouched := apply other_fields; reflexivity.

Lemma settle_untouched w : forgets_nothing w (settle_migrated w) /\ parked_confirm (settle_migrated w) = parked_confirm w.
Proof.
  unfold settle_migrated. destruct (wm_migrated_span w) as [[a b]|]; [|done]. destruct (intersects _ _ _); [done|].
  split; [untouched|done].
Qed.

Lemma sat_add_in_u64 a b : in_u64 (u64_saturating_add a b).
Proof. zints. Qed.
#[local] Hint Resolve sat_add_in_u64 : core.

Lemma frame_floor_le x : in_u64 x -> frame_floor x <= Z.max 1 x.
Proof. intros H. unfold frame_floor. rewrite land_base by done. zcases; [lia|]. pose proof (base_le x (proj1 H)). lia. Qed.

Lemma safe_note_add lo hi p x : safe p x \/ lo <= x <= hi -> safe (note_add lo hi <$> p) x.
Proof.
  destruct p as [p|]; [|done]. cbn. unfold note_add. intros [[H|H]|H].
  - left. by destruct (_ && _).
  - destruct (_ && _); [by left|by right].
  - destruct (decide (pc_lo p <= x <= pc_hi p)); [|right; by destruct (_ && _)].
    replace (_ && _) with true; [by left|]. symmetry. rewrite !andb_true_iff. lia.
Qed.

Section adding.
Context (w : AppliedWatermark) (Hw : books_ok w).

Lemma add_avoiding_step lo hi spans : in_u64 hi -> apart 1 spans -> forgets_nothing w (wm_add_avoiding lo hi spans w).
Proof.
  intros Hhi Hs (H1 & H2 & H3 & H4). split; [split; [by apply add_range_inv|done]|]. split; [done|done|].
  intros x [Hx Hsafe]. split; [|done]. apply add_range_grows; auto.
Qed.

Lemma add_avoiding_kept lo hi spans x : in_u64 hi -> apart 1 spans -> Z.max lo 1 <= x <= hi -> safe (parked_confirm w) x ->
  kept (wm_add_avoiding lo hi spans w) x.
Proof. intros Hhi Hs Hx Hsafe. split; [|done]. apply add_range_grows; auto. apply Hw. Qed.
End adding.

Lemma wm_add_eq lo hi w : wm_add lo hi w = wm_add_avoiding lo hi [] w.
Proof. done. Qed.

(** Noting an addition to a pending confirmation only makes it safer. *)
Lemma note_add_step lo hi w : forgets_nothing w { w with parked_confirm ::= fmap (note_add lo hi) }.
Proof.
  intros (H1 & H2 & H3 & H4). split; [split; [done|split; [done|split; [done|]]]|split; [done|done|]].
  - cbn. destruct (parked_confirm w) as [p|]; [|done]. cbn. unfold note_add. by destruct (_ && _).
  - intros x [Hx Hs]. split; [done|]. apply safe_note_add. by left.
Qed.

(** The addition noted first: nothing is lost and what is added is safe. *)
Definition noted_add (lo hi : Z) (w : AppliedWatermark) : AppliedWatermark :=
  wm_add lo hi { w with parked_confirm ::= fmap (note_add lo hi) }.

Lemma noted_add_step lo hi w : in_u64 hi -> forgets_nothing w (noted_add lo hi w).
Proof.
  intros Hhi. transitivity { w with parked_confirm ::= fmap (note_add lo hi) }; [apply note_add_step|].
  intros H. unfold noted_add. rewrite wm_add_eq. by apply add_avoiding_step.
Qed.

Lemma noted_add_kept lo hi w x : books_ok w -> in_u64 hi -> 1 <= lo -> lo <= x <= hi -> kept (noted_add lo hi w) x.
Proof.
  intros Hw Hhi Hlo Hx. unfold noted_add. rewrite wm_add_eq. apply add_avoiding_kept; [by apply note_add_step|done|done|lia|].
  apply safe_note_add. by right.
Qed.

Lemma frame_floor_pos x : in_u64 x -> 1 <= frame_floor x.
Proof.
  intros H. unfold frame_floor. rewrite land_base by done. pose proof (Z.div_pos x BASE (proj1 H) ltac:(lia)). zcases; lia.
Qed.

Lemma add_unapplied_step lo hi w : in_u64 hi -> forgets_nothing w (add_unapplied_range lo hi w).2.
Proof. intros Hhi. unfold add_unapplied_range. zcases; [done|]. by apply noted_add_step. Qed.

Lemma add_unapplied_covers d lo hi w s : books_ok w -> in_u64 lo -> in_u64 hi -> clock_seq s -> 0 <= d -> around d s lo hi ->
  covered d (add_unapplied_range lo hi w).2 s.
Proof.
  intros Hw Hlo Hhi Hs Hd [H1 H2]. right. right. intros x Hx. unfold clock_seq in Hs. unfold add_unapplied_range.
  destruct (Z.ltb_spec hi lo); [lia|]. apply noted_add_kept; [done|done|by apply frame_floor_pos|].
  pose proof (frame_floor_le lo Hlo). lia.
Qed.

(** * Marking *)

Lemma slot_lt id : (slot_of id < 128)%nat.
Proof. unfold slot_of, UNAPPLIED_BUCKETS. pose proof (Z.mod_pos_bound id 128). lia. Qed.

Lemma bucket_id_insert l slot slot' id n : length l = 128%nat -> (slot < 128)%nat ->
  bucket_id_at (<[slot := (id, n)]> l) slot' = if decide (slot = slot') then id else bucket_id_at l slot'.
Proof.
  intros Hl Hs. unfold bucket_id_at. destruct (decide (slot = slot')) as [<-|Hne].
  - erewrite nth_lookup_Some; [|apply list_lookup_insert_eq; lia]. done.
  - rewrite !nth_lookup. by rewrite list_lookup_insert_ne by done.
Qed.

Lemma note_step s w : forgets_nothing w (note_unapplied s w).
Proof.
  unfold note_unapplied. destruct (Z.eqb_spec (bucket_of s) 0); [done|].
  set (id := bucket_of s) in *. clearbody id. set (cur := bucket_id_at (buckets w) (slot_of id)).
  destruct ((cur =? id) || (cur =? 0)) eqn:E.
  - intros (H1 & H2 & H3 & H4). split; [split; [done|split; [cbn; by rewrite length_insert|done]]|]. split; [|done|done].
    intros s' Hs' Hm. unfold marked, mark_slot in *. cbn. rewrite bucket_id_insert by first [done | apply slot_lt].
    destruct (decide _) as [Heq|]; [|done]. pose proof (clock_bucket s' Hs'). apply orb_true_iff in E.
    subst cur. rewrite Heq, Hm in E. lia.
  - intros (H1 & H2 & H3 & H4). split; [split; [done|split; [done|split; [cbn; zints|done]]]|]. split; [done| |done].
    intros s' (Ho & Hh & Hl). split; [done|]. cbn. split; [lia|]. destruct Hl as [->|Hl]; [left|right]; zints.
Qed.

Lemma shl_bucket id : 0 <= id < 67108864 -> u64_shl id UNAPPLIED_BUCKET_SHIFT = id * 274877906944.
Proof. intros H. unfold u64_shl. rewrite Z.shiftl_mul_pow2 by done. change (2 ^ UNAPPLIED_BUCKET_SHIFT) with 274877906944. apply Z.mod_small. lia. Qed.

Lemma note_covers d s s' w : books_ok w -> clock_seq s -> bucket_of s' = bucket_of s -> covered d (note_unapplied s' w) s.
Proof.
  intros (_ & Hl & Hh & _) Hs E. unfold note_unapplied. rewrite E. pose proof (clock_bucket s Hs) as Hb.
  destruct (Z.eqb_spec (bucket_of s) 0); [lia|]. destruct (_ || _).
  - left. unfold marked, mark_slot. cbn. rewrite bucket_id_insert by first [done | apply slot_lt]. by rewrite decide_True.
  - right. left. unfold in_overflow. cbn. rewrite !shl_bucket by lia. rewrite bucket_val in *. unfold clock_seq in Hs.
    pose proof (Z.div_mod s 274877906944). pose proof (Z.mod_pos_bound s 274877906944). split; [done|]. split; [zints|]. right. lia.
Qed.

Lemma note_ids_step n id w : forgets_nothing w (note_ids n id w).
Proof.
  revert id w. induction n as [|n IH]; intros id w; cbn; [done|]. etransitivity; [apply note_step|apply IH].
Qed.

Lemma note_ids_covers d n id s w : books_ok w -> clock_seq s -> 0 <= id <= bucket_of s -> bucket_of s < id + Z.of_nat n ->
  covered d (note_ids n id w) s.
Proof.
  intros Hw Hs. revert id w Hw. induction n as [|n IH]; intros id w Hw H1 H2; [lia|]. cbn. pose proof (clock_bucket s Hs) as Hb.
  destruct (note_step (u64_shl id UNAPPLIED_BUCKET_SHIFT) w Hw) as [Hw' _].
  destruct (decide (id = bucket_of s)) as [->|]; [|apply IH; by lia || done].
  destruct (note_ids_step n (bucket_of s + 1) _ Hw') as [_ Ha]. apply (advances_covered _ _ _ _ Hs Ha).
  apply note_covers; [done..|]. rewrite shl_bucket by lia. rewrite bucket_val at 1. by rewrite Z.div_mul.
Qed.

Lemma note_range_step lo hi w : in_u64 hi -> forgets_nothing w (note_unapplied_range lo hi w).
Proof.
  intros Hhi. unfold note_unapplied_range. destruct (_ || _); [done|]. destruct (_ <=? _); [|apply note_ids_step].
  intros (H1 & H2 & H3 & H4). split; [split; [done|split; [done|split; [cbn; zints|done]]]|]. split; [done| |done].
  intros s' (Ho & Hh & Hl). split; [done|]. cbn. split; [lia|]. destruct Hl as [->|Hl]; [left|right]; zints.
Qed.

Lemma note_range_covers d lo hi s w : books_ok w -> clock_seq s -> 0 < lo <= s -> s <= hi -> in_u64 hi ->
  covered d (note_unapplied_range lo hi w) s.
Proof.
  intros Hw Hs Hlo Hhi Hu. unfold note_unapplied_range. destruct (Z.eqb_spec lo 0); [lia|]. destruct (Z.ltb_spec hi lo); [lia|]. cbn [orb].
  pose proof (bucket_mono lo s ltac:(lia)). pose proof (bucket_mono s hi Hhi). pose proof (clock_bucket s Hs).
  assert (0 <= bucket_of lo) by (rewrite bucket_val; apply Z.div_pos; lia).
  destruct (_ <=? _); [|apply note_ids_covers; by lia || done].
  right. left. unfold in_overflow. cbn. split; [done|]. split; [|right]; lia.
Qed.

Lemma set_floor_step sink slot v w : forgets_nothing w (set_floor sink slot v w).
Proof. destruct sink; untouched. Qed.

(** * A known overflow turned into a range *)

Lemma bound_step w : books_ok w -> books_ok (bound_known_overflow w) /\
  forall d s, clock_seq s -> 0 <= d <= REPLAY_REORDER_SLACK_SEQ -> covered d w s -> covered d (bound_known_overflow w) s.
Proof.
  intros Hw. unfold bound_known_overflow. destruct (_ || _) eqn:E; [done|].
  apply orb_false_iff in E as [[_ _]%orb_false_iff Hmax%Z.eqb_neq].
  set (lo := if _ || _ then 1 else overflow_low_seq w). set (bl := frame_floor _). set (bh := u64_saturating_add _ _).
  change (wm_add bl bh _) with (noted_add bl bh w).
  assert (Hbh : in_u64 bh) by apply sat_add_in_u64.
  destruct (noted_add_step bl bh w Hbh Hw) as [(B1 & B2 & B3 & B4) [A1 A2 A3]].
  split; [split; [done|split; [done|split; [by (split; [done|by vm_compute])|done]]]|].
  intros d s Hs Hd [H|[(Ho & Hh & [Hl|Hl])|H]]; [left; by apply A1|done| |right; right; intros x Hx; apply A3, H, Hx].
  right. right. intros x Hx. unfold clock_seq in Hs.
  assert (Hlo : lo <= s) by (subst lo; destruct (_ || _); lia).
  assert (Hls : in_u64 (u64_saturating_sub lo REPLAY_REORDER_SLACK_SEQ)) by zints.
  apply noted_add_kept; [done|done|by apply frame_floor_pos|].
  pose proof (frame_floor_le _ Hls) as Hf. fold bl in Hf. destruct Hw as (_ & _ & Hu & _). subst bh. clearbody bl lo.
  unfold REPLAY_REORDER_SLACK_SEQ in *. zints.
Qed.

(** * What a step keeps: all the frames but those the caller gives up *)

Definition keeps_but (d : Z) (gone : Z -> Prop) (w w' : AppliedWatermark) : Prop :=
  books_ok w -> books_ok w' /\ forall s, clock_seq s -> ~ gone s -> covered d w s -> covered d w' s.
Definition keeps (d : Z) : AppliedWatermark -> AppliedWatermark -> Prop := keeps_but d (fun _ => False).

Lemma keeps_trans d gone w1 w2 w3 : keeps_but d gone w1 w2 -> keeps_but d gone w2 w3 -> keeps_but d gone w1 w3.
Proof. intros H1 H2 Hw. destruct (H1 Hw) as [B1 A1], (H2 B1) as [B2 A2]. split; [done|]. auto. Qed.

#[export] Instance keeps_preorder d : PreOrder (keeps d).
Proof. split; [by intros w Hw; split|]. intros w1 w2 w3. apply keeps_trans. Qed.

Lemma keeps_weaken d gone w w' : keeps d w w' -> keeps_but d gone w w'.
Proof. intros H Hw. destruct (H Hw) as [B A]. split; [done|]. auto. Qed.

Lemma forgets_nothing_keeps d gone w w' : forgets_nothing w w' -> keeps_but d gone w w'.
Proof. intros H Hw. destruct (H Hw) as [B A]. split; [done|]. intros s Hs _. by apply advances_covered. Qed.

Lemma keeps_covered d w w' s : keeps d w w' -> books_ok w -> clock_seq s -> covered d w s -> covered d w' s.
Proof. intros H Hw Hs Hc. destruct (H Hw) as [_ A]. apply A; tauto. Qed.

Lemma persist_keeps d mono w : 0 <= d <= REPLAY_REORDER_SLACK_SEQ -> keeps d w (persist_at mono w).2.
Proof.
  intros Hd Hw. destruct (bound_step w Hw) as [B A]. unfold persist_at, durable_view. destruct (durable_at _ _ _) as [dur l]. cbn [snd].
  match goal with |- books_ok ?x /\ _ => assert (F : forgets_nothing (bound_known_overflow w) x) by untouched end.
  destruct (F B) as [B' A']. split; [done|]. intros s Hs _ Hc. eapply advances_covered; [done|exact A'|]. by apply A.
Qed.

(** * Probes *)

Lemma remove_safe p r w : books_ok w -> parked_confirm w = Some p -> contaminated p = false ->
  (exists b, remove_span (pc_lo p) (pc_hi p) (wm_ranges w) = (Some b, r)) -> forgets_nothing w { w with parked_confirm := None; wm_ranges := r }.
Proof.
  intros Hw Ep Hc [b Er] (H1 & H2 & H3 & H4). rewrite Ep in H4. pose proof (remove_ok (pc_lo p) (pc_hi p) _ H1 H4) as Hr. rewrite Er in Hr.
  destruct Hr as [Hr1 Hr2]. split; [by split|]. split; [done|done|]. intros x [Hx Hs]. split; [|done]. apply Hr2. split; [done|].
  rewrite Ep in Hs. destruct Hs as [Hs|Hs]; [by rewrite Hc in Hs|done].
Qed.

Lemma confirm_keeps d now mono w : 0 <= d <= REPLAY_REORDER_SLACK_SEQ -> keeps d w (confirm_parked_if_due now mono w).2.
Proof.
  intros Hd. unfold confirm_parked_if_due. destruct (parked_confirm w) as [p|] eqn:Ep; [|done].
  assert (Hdrop : forgets_nothing w { w with parked_confirm := None }).
  { intros (H1 & H2 & H3 & H4). split; [by split|]. split; [done|done|]. intros x [Hx _]. by split. }
  destruct (negb _ || contaminated p) eqn:Ec; [by apply forgets_nothing_keeps|]. apply orb_false_iff in Ec as [_ Hc].
  destruct (_ || _ || _); [done|]. destruct (remove_span _ _ _) as [[b|] r] eqn:Er; [|done]. cbn [snd].
  etransitivity; [|by apply persist_keeps]. apply forgets_nothing_keeps.
  etransitivity; [|etransitivity; [apply settle_untouched|untouched]].
  intros Hw. apply (remove_safe p r w); eauto.
Qed.

Definition add_spans (l : list span) (w : AppliedWatermark) : AppliedWatermark :=
  foldl (fun w p => if p.1 <=? p.2 then wm_add (frame_floor p.1) p.2 w else w) w l.

Lemma add_spans_step l w : Forall (fun p => in_u64 p.2) l ->
  forgets_nothing w (add_spans l w) /\ parked_confirm (add_spans l w) = parked_confirm w.
Proof.
  intros Hl. unfold add_spans. revert w. induction Hl as [|p l Hp _ IH]; intros w; cbn [foldl]; [done|].
  destruct (IH (if p.1 <=? p.2 then wm_add (frame_floor p.1) p.2 w else w)) as [I1 I2]. split.
  - etransitivity; [|exact I1]. destruct (_ <=? _); [|done]. intros H. rewrite wm_add_eq. by apply add_avoiding_step.
  - rewrite I2. by destruct (_ <=? _).
Qed.

(** The same on the ranges alone. *)
Definition add_all (l : list span) (r : UnappliedRanges) : UnappliedRanges :=
  foldl (fun r p => if p.1 <=? p.2 then (add_range (frame_floor p.1) p.2 r).2 else r) r l.

Lemma add_spans_ranges l w : wm_ranges (add_spans l w) = add_all l (wm_ranges w).
Proof.
  unfold add_spans, add_all. revert w. induction l as [|p l IH]; intros w; [done|]. cbn [foldl]. rewrite IH. by destruct (_ <=? _).
Qed.

Lemma add_all_within l r x : Forall (fun p => in_u64 p.1 /\ in_u64 p.2) l -> ranges_ok r ->
  within x r \/ Exists (fun p => Z.max 1 p.1 <= x <= p.2) l -> within x (add_all l r).
Proof.
  intros Hl. unfold add_all. revert r. induction Hl as [|p l [Hp1 Hp2] _ IH]; intros r Hr; cbn [foldl].
  { intros [H|H%Exists_nil]; done. }
  pose proof (frame_floor_le _ Hp1). pose proof (frame_floor_pos _ Hp1). intros H'.
  assert (Hg : ranges_ok (if p.1 <=? p.2 then (add_range (frame_floor p.1) p.2 r).2 else r)).
  { destruct (_ <=? _); [|done]. by apply add_range_inv. }
  apply IH; [done|]. destruct H' as [H'|[H'|H']%Exists_cons]; [left|left|by right].
  - destruct (_ <=? _); [|done]. apply add_range_grows; by auto.
  - destruct (Z.leb_spec p.1 p.2); [|lia]. apply add_range_grows; [done..|]. right. lia.
Qed.

Lemma exit_step l pending w : Forall (fun p => in_u64 p.2) l -> match pending with Some p => 0 <= pc_lo p | None => True end ->
  forgets_nothing w (add_exit_ranges l pending w).
Proof.
  intros Hl Hp. unfold add_exit_ranges. fold (add_spans l w). destruct (add_spans_step l w Hl) as [S1 E1].
  intros Hw. destruct (S1 Hw) as [(B1 & B2 & B3 & B4) [A1 A2 A3]]. split.
  - split; [done|split; [done|split; [done|]]]. destruct pending as [p|]; [|done]. cbn. by destruct (intersects _ _ _).
  - split; [done|done|]. intros x Hx. destruct (A3 x Hx) as [Hin _]. split; [done|]. cbn. destruct pending as [p|]; [|done]. cbn.
    destruct (intersects (pc_lo p) (pc_hi p) (wm_ranges w)) eqn:E; [by left|]. right. intros Hc.
    enough (intersects (pc_lo p) (pc_hi p) (wm_ranges w) = true) by congruence. apply intersects_ok; [apply Hw|]. exists x. split; [done|apply Hx].
Qed.

Lemma parked_span_lo a b c d lo hi : parked_confirm_span a b c d = Some (lo, hi) -> 0 <= lo.
Proof.
  unfold parked_confirm_span. destruct (_ =? 0); [done|]. destruct (_ <? u64_saturating_add _ 1); [done|]. intros [= <- <-]. zints.
Qed.

Lemma suspension_lo_in_u64 h : in_u64 (suspension_range_lo h).
Proof.
  unfold suspension_range_lo. assert (H : in_u64 (u64_saturating_sub h (2 * REPLAY_REORDER_SLACK_SEQ))) by zints.
  pose proof (frame_floor_le _ H). pose proof (frame_floor_pos _ H). zints.
Qed.

Lemma suspension_lo_le h x : 0 <= x -> h - 2 * REPLAY_REORDER_SLACK_SEQ <= x -> suspension_range_lo h <= Z.max 1 x.
Proof.
  intros H0 Hx. unfold suspension_range_lo. assert (H : in_u64 (u64_saturating_sub h (2 * REPLAY_REORDER_SLACK_SEQ))) by zints.
  pose proof (frame_floor_le _ H). zints.
Qed.

(** A range from two slacks below [h] to a slack above [m] holds what is around
    every frame from a slack below [h] to [m]. *)
Lemma around_reach d s h m : clock_seq s -> 0 <= d <= REPLAY_REORDER_SLACK_SEQ -> h - REPLAY_REORDER_SLACK_SEQ <= s <= m ->
  around d s (suspension_range_lo h) (u64_saturating_add m REPLAY_REORDER_SLACK_SEQ).
Proof.
  intros Hs Hd H. unfold around, clock_seq, REPLAY_REORDER_SLACK_SEQ in *.
  pose proof (suspension_lo_le h (s - d)) as Hlo. unfold REPLAY_REORDER_SLACK_SEQ in Hlo. split; [apply Hlo; lia|zints].
Qed.

Lemma exit_range_in_u64 (b : bool) h m :
  let p := if b then (suspension_range_lo h, u64_saturating_add m REPLAY_REORDER_SLACK_SEQ) else (1, 0) in in_u64 p.1 /\ in_u64 p.2.
Proof. destruct b; cbn; [split; [apply suspension_lo_in_u64|auto]|split; zints]. Qed.

Section episodes.
Context (d : Z) (Hd : 0 <= d <= REPLAY_REORDER_SLACK_SEQ).

Lemma end_episode_keeps now mono w : keeps d w (end_episode now mono w).
Proof.
  unfold end_episode. set (w' := { w with sink_suspect := false; suspect_max_ticks := 0; suspect_max_depth := 0; episode_lag_only := false }).
  assert (H : forgets_nothing w w') by untouched. destruct (_ || _); [|by apply forgets_nothing_keeps].
  etransitivity; [|by apply persist_keeps]. apply forgets_nothing_keeps. etransitivity; [exact H|]. apply exit_step.
  - repeat constructor; destruct (_ <? _); cbn; solve [auto | zints].
  - destruct (episode_lag_only w); [|done]. destruct (parked_confirm_span _ _ _ _) as [[lo hi]|] eqn:E; [|done]. cbn.
    by apply parked_span_lo in E.
Qed.

Lemma end_episode_covers now mono w s : books_ok w -> clock_seq s -> episode_lag_only w = false -> parked_near w s ->
  covered d (end_episode now mono w) s.
Proof.
  intros Hw Hs Hlag Hn. unfold end_episode. rewrite Hlag. cbn [hwm_ticks hwm_depth suspect_max_ticks suspect_max_depth].
  set (w' := { w with sink_suspect := false; suspect_max_ticks := 0; suspect_max_depth := 0; episode_lag_only := false }).
  change (hwm_ticks w') with (hwm_ticks w). change (hwm_depth w') with (hwm_depth w).
  assert (Hw' : books_ok w') by exact Hw. replace (_ || _) with true by (symmetry; unfold parked_near in Hn; zcases; cbn; lia).
  set (l := [_; _]). assert (Hok : Forall (fun p => in_u64 p.1 /\ in_u64 p.2) l).
  { unfold l. rewrite !Forall_cons. split; [|split; [|done]]; apply exit_range_in_u64. }
  assert (Hstep : forgets_nothing w' (add_exit_ranges l None w')) by (apply exit_step; [by eapply Forall_impl; [exact Hok|tauto]|done]).
  apply (keeps_covered _ _ _ _ (persist_keeps d mono _ Hd)); [by apply Hstep|done|].
  right. right. intros x Hx. unfold add_exit_ranges. cbn [fmap option_fmap option_map].
  fold (add_spans l w'). split; [|done].
  change (within x (wm_ranges (add_spans l w'))). rewrite add_spans_ranges. apply add_all_within; [done|apply Hw|right].
  pose proof (fun h m => around_reach d s h m Hs Hd) as Ha. unfold around in Ha.
  destruct Hn as [[Hlt Hn]|[Hlt Hn]]; [apply Exists_cons_hd|apply Exists_cons_tl, Exists_cons_hd];
    apply Z.ltb_lt in Hlt; rewrite Hlt; cbn; specialize (Ha _ _ Hn); lia.
Qed.

Lemma begin_episode_keeps lag_only mono w : keeps d w (begin_episode lag_only mono w).
Proof.
  unfold begin_episode. etransitivity; [|by apply persist_keeps]. apply forgets_nothing_keeps.
  etransitivity; [|etransitivity; apply add_unapplied_step; auto].
  intros (H1 & H2 & H3 & H4). split; [by split|]. split; [done|done|]. intros x [Hx _]. by split.
Qed.

Lemma begin_episode_covers lag_only mono w s : books_ok w -> clock_seq s ->
  healthy_ticks w - REPLAY_REORDER_SLACK_SEQ <= s <= hwm_ticks w \/ healthy_depth w - REPLAY_REORDER_SLACK_SEQ <= s <= hwm_depth w ->
  covered d (begin_episode lag_only mono w) s.
Proof.
  intros (H1 & H2 & H3 & _) Hs Hn. unfold begin_episode.
  set (w0 := { w with sink_suspect := true; episode_lag_only := lag_only; suspect_episodes ::= fun n => u64_saturating_add n 1; parked_confirm := None }).
  assert (Hw0 : books_ok w0) by by split. set (w1 := (add_unapplied_range _ _ w0).2).
  assert (Hw1 : books_ok w1) by by apply add_unapplied_step. set (w2 := (add_unapplied_range _ _ w1).2).
  assert (Hw2 : books_ok w2) by by apply add_unapplied_step.
  apply (keeps_covered _ _ _ _ (persist_keeps d mono _ Hd)); [done|done|]. subst w2.
  change (hwm_ticks w0) with (hwm_ticks w) in *. change (healthy_ticks w0) with (healthy_ticks w) in *.
  replace (healthy_depth w1) with (healthy_depth w) by (subst w1; unfold add_unapplied_range; by destruct (_ <? _)).
  replace (hwm_depth w1) with (hwm_depth w) by (subst w1; unfold add_unapplied_range; by destruct (_ <? _)).
  destruct Hn as [Hn|Hn]; apply (around_reach d _ _ _ Hs Hd) in Hn.
  - eapply advances_covered; [done|by apply add_unapplied_step|]. apply add_unapplied_covers; [done|apply suspension_lo_in_u64|auto|done|lia|done].
  - apply add_unapplied_covers; [done|apply suspension_lo_in_u64|auto|done|lia|done].
Qed.

(** What is left of a clean probe once the episode has ended. *)
Lemma clean_tail_keeps basis now mono w : keeps d w
  (let healthy := match basis with Some (t, d) => (Z.min t (hwm_ticks w), Z.min d (hwm_depth w)) | None => (hwm_ticks w, hwm_depth w) end in
   (confirm_parked_if_due now mono { w with healthy_ticks := healthy.1; healthy_depth := healthy.2 }).2).
Proof. cbv zeta. etransitivity; [|by apply confirm_keeps]. apply forgets_nothing_keeps. untouched. Qed.

Lemma clean_probe_keeps basis now mono w : keeps d w (clean_probe basis now mono w).
Proof.
  unfold clean_probe. set (w1 := { w with clean_probes ::= _ }). transitivity w1; [apply forgets_nothing_keeps; untouched|].
  etransitivity; [|apply clean_tail_keeps]. destruct (sink_suspect w1); [apply end_episode_keeps|reflexivity].
Qed.

Lemma clean_probe_covers basis now mono w s : books_ok w -> clock_seq s -> sink_suspect w = true -> episode_lag_only w = false ->
  parked_near w s -> covered d (clean_probe basis now mono w) s.
Proof.
  intros Hw Hs Hsus Hlag Hn. unfold clean_probe. set (w1 := { w with clean_probes ::= _ }).
  change (sink_suspect w1) with (sink_suspect w). rewrite Hsus.
  apply (keeps_covered _ _ _ _ (clean_tail_keeps basis now mono _)); [by apply end_episode_keeps|done|]. by apply end_episode_covers.
Qed.
End episodes.

(** * Resets, trims and clips *)

Lemma range_ceiling_ge c w : c <= range_reset_ceiling c w.
Proof. unfold range_reset_ceiling. destruct (_ || _); [done|]. destruct (_ <=? _); lia. Qed.

Lemma bucket_id_map f l slot : f (0, 0) = (0, 0) -> bucket_id_at (f <$> l) slot = (f (nth slot l (0, 0))).1.
Proof.
  intros Hf. unfold bucket_id_at. rewrite !nth_lookup, list_lookup_fmap. destruct (l !! slot); cbn; [done|by rewrite Hf].
Qed.

Section giving_up.
Context (d : Z) (Hd : 0 <= d <= REPLAY_REORDER_SLACK_SEQ).

(** A step on the ranges alone. *)
Lemma ranges_step gone w f : (ranges_ok (wm_ranges w) -> ranges_ok (f (wm_ranges w)) /\
    forall s x, clock_seq s -> ~ gone s -> Z.max 1 (s - d) <= x <= s + d -> within x (wm_ranges w) -> within x (f (wm_ranges w))) ->
  keeps_but d gone w (settle_migrated { w with wm_ranges ::= f }).
Proof.
  intros Hf. eapply keeps_trans; [|apply forgets_nothing_keeps, settle_untouched].
  intros (H1 & H2 & H3 & H4). destruct (Hf H1) as [F1 F2]. split; [by split|].
  intros s Hs Hg [H|[H|H]]; [by left|by right; left|right; right]. intros x Hx. destruct (H x Hx) as [Hin Hsafe].
  split; [|done]. by apply (F2 s x).
Qed.

Lemma trim_within q r : ranges_ok r -> ranges_ok (trim_below q r).2 /\ forall x, within x r -> q <= x -> within x (trim_below q r).2.
Proof.
  intros Hr. pose proof (trim_ok q r Hr) as H. destruct (trim_below q r) as [b r'], H as [H1 H2]. split; [done|].
  intros x Hx Hq. by apply H2.
Qed.

Lemma trim_keeps q w : keeps_but d (fun s => Z.max 1 (s - d) < q) w (trim_unapplied_ranges_below q w).
Proof.
  apply ranges_step. intros Hr. destruct (trim_within q _ Hr) as [H1 H2]. split; [done|].
  intros s x _ Hg Hx Hin. apply H2; [done|lia].
Qed.

Lemma clip_keeps spans w : apart 1 spans ->
  keeps_but d (fun s => exists x, Z.max 1 (s - d) <= x <= s + d /\ ~ within x spans) w (clip_unapplied_ranges_to spans w).
Proof.
  intros Hs. apply ranges_step. intros Hr. pose proof (clip_ok spans _ Hr Hs) as H.
  destruct (clip_to spans _) as [b r'], H as [H1 H2]. split; [done|]. intros s x _ Hg Hx Hin. apply H2; [done|].
  destruct (decide (within x spans)) as [|Hn]; [done|]. destruct Hg. by exists x.
Qed.

Lemma reset_keeps c w : keeps_but d (fun s => Z.max 1 (s - d) < range_reset_ceiling c w) w (reset_unapplied_below c w).
Proof.
  unfold reset_unapplied_below. set (kept_ := existsb _ _). set (f := fun b : Z * Z => if negb (b.1 =? 0) && (b.1 <? bucket_of c) then (0, 0) else b).
  set (w1 := { w with buckets ::= fmap f }). set (w2 := if negb kept_ && _ then _ else w1).
  assert (E : range_reset_ceiling c w2 = range_reset_ceiling c w) by (subst w2; by destruct (_ && _)). rewrite E.
  pose proof (range_ceiling_ge c w) as Hge. set (rc := range_reset_ceiling c w) in *. clearbody rc. clear E.
  apply (keeps_trans _ _ _ w2).
  - intros (H1 & H2 & H3 & H4).
    assert (Hw1 : length (buckets w1) = 128%nat) by (cbn; by rewrite length_fmap).
    split; [subst w2; destruct (_ && _); (split; [done|split; [done|split; [|done]]]); [by split; [|by vm_compute]|done]|].
    intros s Hs Hg Hc. unfold clock_seq in Hs. destruct Hc as [Hm|[(Ho & Hh & Hl)|Hc]]; [left|right; left|right; right].
    + replace (buckets w2) with (f <$> buckets w) by (subst w2; by destruct (_ && _)). unfold marked in *. rewrite bucket_id_map by done.
      unfold bucket_id_at in Hm. set (b := nth _ _ _) in *. subst f. cbn.
      pose proof (bucket_mono c s ltac:(lia)). replace (_ && _) with false; [done|]. symmetry. rewrite Hm. apply andb_false_r || lia.
    + subst w2. replace (_ && _) with false; [done|]. symmetry. apply andb_false_iff. right. change (overflow_high_seq w1) with (overflow_high_seq w). lia.
    + intros x Hx. destruct (Hc x Hx) as [Hin Hsafe]. subst w2. by destruct (_ && _).
  - apply ranges_step. intros Hr. destruct (trim_within rc _ Hr) as [H1 H2]. destruct (Z.eqb_spec rc u64_max) as [->|].
    + split; [by split|]. intros s x Hs Hg. unfold clock_seq, i64_max, u64_max in *. lia.
    + split; [done|]. intros s x _ Hg Hx Hin. apply H2; [done|lia].
Qed.

(** * The boot fold *)

Lemma folded_hi_in_u64 own w : in_u64 own -> in_u64 (overflow_high_seq w) -> in_u64 (folded_hi own w).
Proof. intros H1 H2. unfold folded_hi. by destruct (_ || _). Qed.

(** The stages run with nothing waiting to be confirmed. *)
Definition fold_keeps (gone : Z -> Prop) (w w' : AppliedWatermark) : Prop :=
  parked_confirm w = None -> parked_confirm w' = None /\ keeps_but d gone w w'.

Lemma fold_keeps_trans gone w1 w2 w3 : fold_keeps gone w1 w2 -> fold_keeps gone w2 w3 -> fold_keeps gone w1 w3.
Proof. intros H1 H2 Hw. destruct (H1 Hw) as [B1 A1], (H2 B1) as [B2 A2]. split; [done|]. by eapply keeps_trans. Qed.

Lemma fold_add lo hi spans gone w : in_u64 hi -> apart 1 spans -> fold_keeps gone w (wm_add_avoiding lo hi spans w).
Proof. intros Hhi Hs Hp. split; [done|]. apply forgets_nothing_keeps. intros Hw. by apply add_avoiding_step. Qed.

Lemma fold_overflow_keeps oldest_lo own spans w : in_u64 own -> apart 1 spans -> 1 <= default 1 oldest_lo ->
  fold_keeps (fun s => overflowed w = true /\ (overflow_high_seq w = u64_max \/ overflow_high_seq w <= own) /\
    ~ around d s (default 1 oldest_lo) (folded_hi own w)) w (fold_overflow oldest_lo own spans w).
Proof.
  intros Hown Hs Hlo. unfold fold_overflow. destruct (overflowed w) eqn:Ho; cbn [andb]; [|by split; [|apply forgets_nothing_keeps]].
  destruct ((overflow_high_seq w =? u64_max) || (overflow_high_seq w <=? own)) eqn:Ef; [|by split; [|apply forgets_nothing_keeps]].
  fold (folded_hi own w). set (lo := clamp 1 _ _). intros Hp. split; [done|]. intros Hw.
  pose proof (folded_hi_in_u64 own w Hown (proj1 (proj2 (proj2 Hw)))) as Hhi.
  destruct (add_avoiding_step w lo (folded_hi own w) spans Hhi Hs Hw) as [(B1 & B2 & B3 & B4) [A1 A2 A3]].
  split; [split; [done|split; [done|split; [by split; [|by vm_compute]|done]]]|].
  intros s Hcs Hg Hc. destruct Hc as [Hm|[Hm|Hc]]; [left; by apply A1| |right; right; intros x Hx; by apply A3, Hc].
  right. right. intros x Hx. change (kept (wm_add_avoiding lo (folded_hi own w) spans w) x).
  unfold clock_seq in Hcs. assert (Ha : around d s (default 1 oldest_lo) (folded_hi own w)).
  { unfold around. destruct (decide (default 1 oldest_lo <= Z.max 1 (s - d) /\ s + d <= folded_hi own w)) as [|Hn]; [done|].
    destruct Hg. split; [done|]. split; [lia|exact Hn]. }
  destruct Ha as [Ha1 Ha2]. apply add_avoiding_kept; [done..| |by rewrite Hp]. subst lo. unfold clamp. lia.
Qed.

Lemma fold_bucket_keeps gone own_bucket spans w slot : apart 1 spans -> (slot < 128)%nat ->
  fold_keeps gone w (fold_bucket own_bucket spans w slot).
Proof.
  intros Hs Hslot. unfold fold_bucket. set (id := bucket_id_at (buckets w) slot).
  destruct (_ || _); [by split; [|apply forgets_nothing_keeps]|].
  set (hi := u64_saturating_add _ _). set (lo := frame_floor _). intros Hp. split; [done|]. intros Hw.
  assert (Hhi : in_u64 hi) by apply sat_add_in_u64.
  destruct (add_avoiding_step w lo hi spans Hhi Hs Hw) as [(B1 & B2 & B3 & B4) [A1 A2 A3]].
  split; [split; [done|split; [cbn; by rewrite length_insert|done]]|].
  intros s Hcs _ Hc. destruct Hc as [Hm|[Hm|Hc]]; [|right; left; by apply A2|right; right; intros x Hx; by apply A3, Hc].
  unfold marked in Hm. destruct (decide (slot = slot_of (bucket_of s))) as [->|Hne].
  2: { left. unfold marked. cbn. rewrite bucket_id_insert by first [done | apply Hw]. by rewrite decide_False. }
  right. right. intros x Hx. change (kept (wm_add_avoiding lo hi spans w) x). pose proof (clock_bucket s Hcs) as Hb.
  assert (Eid : id = bucket_of s) by exact Hm. unfold clock_seq, i64_max in Hcs.
  assert (Hls : in_u64 (u64_saturating_sub (u64_shl id UNAPPLIED_BUCKET_SHIFT) REPLAY_REORDER_SLACK_SEQ)) by (clear; zints).
  pose proof (frame_floor_le _ Hls) as Hf. fold lo in Hf. apply add_avoiding_kept; [done..| |by rewrite Hp].
  subst hi. clearbody lo id. subst id. rewrite !shl_bucket in * by lia. rewrite bucket_val in *.
  pose proof (Z.div_mod s 274877906944). pose proof (Z.mod_pos_bound s 274877906944).
  unfold REPLAY_REORDER_SLACK_SEQ in *. clear -Hf Hx H H0 Hb Hcs Hd. zints.
Qed.

Lemma fold_buckets_keeps gone own_bucket spans l w : apart 1 spans -> Forall (fun n => (n < 128)%nat) l ->
  fold_keeps gone w (foldl (fold_bucket own_bucket spans) w l).
Proof.
  intros Hs Hl. revert w. induction Hl as [|n l Hn _ IH]; intros w; cbn [foldl].
  - by split; [|apply forgets_nothing_keeps].
  - eapply fold_keeps_trans; [by apply fold_bucket_keeps|apply IH].
Qed.

Lemma fold_keeps_boot oldest high own spans w : parked_confirm w = None -> apart 1 spans -> in_u64 own ->
  keeps_but d (settles d (OFold oldest high own spans) w) w (fold_at_boot_with_spans oldest high own spans w).
Proof.
  intros Hp Hs Hown. unfold fold_at_boot_with_spans. cbn [settles]. destruct (boot_folded w) eqn:Hb; [by apply forgets_nothing_keeps|].
  set (w1 := { w with boot_folded := true; boot_own_floor := own; boot_frame_high := high; boot_gap ::= _ }).
  apply (keeps_trans _ _ _ w1); [apply forgets_nothing_keeps; untouched|].
  set (o := (fun o => Z.max _ 1) <$> oldest). assert (Ho : 1 <= default 1 o) by (subst o; destruct oldest; cbn; lia).
  pose proof (fold_overflow_keeps o own spans w1 Hown Hs Ho Hp) as [P2 K2]. set (w2 := fold_overflow o own spans w1) in *.
  apply (keeps_trans _ _ _ w2).
  { intros Hw. destruct (K2 Hw) as [B2 A2]. split; [done|]. intros s Hcs Hg. apply A2; [done|]. intros (G1 & G2 & G3). by apply Hg. }
  clearbody w2. assert (Hall : Forall (fun n => (n < 128)%nat) (seq 0 128)) by (apply Forall_forall; intros n Hn%elem_of_seq; lia).
  destruct (fold_buckets_keeps (fun _ => False) (bucket_of own) spans _ w2 Hs Hall P2) as [P3 K3].
  set (w3 := foldl _ w2 _) in *. clearbody w3. intros Hw. destruct (K3 Hw) as [B3 A3].
  clear K2. clearbody w1. set (w4 := if _ <=? own then _ else w3). assert (K4 : forgets_nothing w3 w4) by (subst w4; destruct (_ <=? own); [|done]; intros ?; by apply add_avoiding_step).
  destruct (K4 B3) as [B4 A4]. destruct (settle_untouched w4) as [K5 _]. destruct (K5 B4) as [B5 A5]. split; [done|].
  intros s Hcs _ Hc. eapply advances_covered; [done|exact A5|]. eapply advances_covered; [done|exact A4|]. apply A3; tauto.
Qed.

(** * One step *)

Lemma probe_keeps v basis now mono w : keeps d w (note_questdb_probe_full v basis now mono w).
Proof.
  unfold note_questdb_probe_full. destruct (bool_decide (v = Clean)); [by apply clean_probe_keeps|].
  destruct (sink_suspect w); [|by apply begin_episode_keeps]. destruct (bool_decide _); [apply forgets_nothing_keeps; untouched|reflexivity].
Qed.

Lemma wm_step_keeps o w : wm_op_ok o w -> keeps_but d (settles d o w) w (wm_step o w).
Proof.
  destruct o as [n|n|s|lo hi|lo hi|sink lo hi|sink slot|v basis now mono|c|q|spans|now|oldest high own spans]; cbn [wm_op_ok wm_step]; intros Hok.
  - apply forgets_nothing_keeps. unfold note_ticks_acked. destruct (sink_suspect w); untouched.
  - apply forgets_nothing_keeps. unfold note_depth_acked. destruct (sink_suspect w); untouched.
  - apply forgets_nothing_keeps, note_step.
  - apply forgets_nothing_keeps, note_range_step, Hok.
  - apply forgets_nothing_keeps, add_unapplied_step, Hok.
  - apply forgets_nothing_keeps. unfold hold_rescue_floor. destruct (lo =? 0); [done|]. destruct (free_slot _); [apply set_floor_step|].
    apply note_range_step. destruct Hok. zints.
  - apply forgets_nothing_keeps, set_floor_step.
  - apply keeps_weaken, probe_keeps.
  - apply reset_keeps.
  - apply trim_keeps.
  - by apply clip_keeps.
  - by apply keeps_weaken, persist_keeps.
  - destruct Hok as (? & ? & ?). by apply fold_keeps_boot.
Qed.

Lemma wm_step_owes o w s : wm_op_ok o w -> books_ok w -> clock_seq s -> owes d o w s -> covered d (wm_step o w) s.
Proof.
  intros Hok Hw Hs. destruct o as [n|n|s'|lo hi|lo hi|sink lo hi|sink slot|v basis now mono|c|q|spans|now|oldest high own spans]; cbn [owes wm_op_ok wm_step] in *; try done.
  - intros <-. by apply note_covers.
  - destruct Hok as [_ Hhi]. intros [? ?]. by apply note_range_covers.
  - destruct Hok as [Hlo Hhi]. intros H. apply add_unapplied_covers; [done..|lia|done].
  - intros (Hf & Hlo & Hhi). unfold hold_rescue_floor. destruct (Z.eqb_spec lo 0); [lia|]. rewrite Hf. destruct Hok.
    apply note_range_covers; [done|done|lia|cbn; lia|zints].
  - unfold note_questdb_probe_full. destruct (bool_decide (v = Clean)).
    + intros (H1 & H2 & H3). by apply clean_probe_covers.
    + intros [H1 H2]. rewrite H1. by apply begin_episode_covers.
Qed.

Lemma wm_run_covers ops w s before : wm_run_ok ops w -> books_ok w -> clock_seq s -> (before -> covered d w s) ->
  books_ok (wm_run ops w) /\ (owed d ops w s before -> covered d (wm_run ops w) s).
Proof.
  intros Hok Hw Hs. revert w before Hok Hw. induction ops as [|o ops IH]; intros w before Hok Hw Hb; [done|].
  destruct Hok as [Ho Hok]. destruct (wm_step_keeps o w Ho Hw) as [Hw' Hk]. cbn [wm_run foldl owed].
  apply IH; [done..|]. intros [Hn|[Hn Hset]]; [by apply wm_step_owes|]. apply Hk; auto.
Qed.
End giving_up.

(** * The boot *)

Definition loaded_ok (loaded : option AppliedSnapshot) : Prop :=
  match loaded with Some sn => ranges_ok (sn_ranges sn) /\ length (sn_buckets sn) = 128%nat | None => True end.

Definition recorded_at_boot (d : Z) (loaded : option AppliedSnapshot) (s : Z) : Prop :=
  match loaded with Some sn => recorded d sn s | None => False end.

Lemma ranges_entry r p : ranges_ok r -> p ∈ r -> 1 <= p.1 <= p.2 /\ in_u64 p.2.
Proof.
  intros [Ha _]. assert (H1 : 1 <= 1) by lia. revert H1 Ha. generalize 1 at 2 3 as from.
  induction r as [|[a b] r IH]; intros from Hf; cbn [apart]; [by intros _ []%elem_of_nil|].
  intros (H1 & H2 & H3) [->|Hp]%elem_of_cons; [cbn; zints|]. by apply (IH (b + 2)); [lia|..].
Qed.

Lemma booted_ranges l w : Forall (fun p => in_u64 p.2 /\ 1 <= p.1) l -> books_ok w -> parked_confirm w = None ->
  let w' := foldl (fun w p => wm_add p.1 p.2 w) w l in
  books_ok w' /\ parked_confirm w' = None /\ advances w w' /\ forall p x, p ∈ l -> p.1 <= x <= p.2 -> kept w' x.
Proof.
  intros Hl. revert w. induction Hl as [|p l [Hp1 Hp2] _ IH]; intros w Hw Hpk; cbn [foldl].
  { split; [done|]. split; [done|]. split; [by split|]. by intros p x Hp%elem_of_nil. }
  destruct (add_avoiding_step w p.1 p.2 [] Hp1 I Hw) as [Hw1 A1].
  destruct (IH (wm_add p.1 p.2 w) Hw1 Hpk) as (I1 & I2 & [J1 J2 J3] & I3). split; [done|]. split; [done|]. split.
  - destruct A1 as [A1 A2 A3]. by split; auto.
  - intros q x [->|Hq]%elem_of_cons Hx; [|by apply (I3 q)]. apply J3. rewrite wm_add_eq.
    apply add_avoiding_kept; [done|done|done|lia|by rewrite Hpk].
Qed.

Lemma booted_ok d loaded : loaded_ok loaded ->
  books_ok (booted loaded) /\ forall s, clock_seq s -> recorded_at_boot d loaded s -> covered d (booted loaded) s.
Proof.
  assert (H0 : books_ok new_watermark) by (repeat split; by vm_compute).
  destruct loaded as [sn|]; [|done]. intros [Hr Hl]. cbn [recorded_at_boot]. unfold booted, bind_wm, wm_seed.
  set (w0 := { new_watermark with boot_applied_floor := _ }). set (w1 := { w0 with hwm_ticks ::= _; hwm_depth ::= _; lag ::= _ }).
  set (w2 := { w1 with healthy_ticks := hwm_ticks w1; healthy_depth := hwm_depth w1; depth_untracked ::= orb (sn_depth_untracked sn) }).
  set (w3 := if sn_overflowed sn then _ else w2).
  assert (B3 : books_ok w3 /\ parked_confirm w3 = None).
  { subst w3. destruct (sn_overflowed sn); [|done]. split; [|done]. by repeat split; vm_compute. }
  assert (O3 : sn_overflowed sn = true -> forall s, clock_seq s -> in_overflow w3 s).
  { intros Ho s Hs. subst w3. rewrite Ho. split; [done|]. unfold clock_seq in Hs. split; [change (s <= u64_max); zints|by left]. }
  clearbody w3. destruct B3 as [B3 P3].
  assert (Hall : Forall (fun p => in_u64 p.2 /\ 1 <= p.1) (sn_ranges sn)).
  { apply Forall_forall. intros p Hp. pose proof (ranges_entry _ p Hr Hp). tauto. }
  destruct (booted_ranges _ w3 Hall B3 P3) as (B4 & P4 & [A1 A2 A3] & K4). set (w4 := foldl _ w3 _) in *. clearbody w4.
  assert (H5 : forall w5, wm_ranges w5 = wm_ranges w4 -> parked_confirm w5 = parked_confirm w4 -> overflowed w5 = overflowed w4 ->
    overflow_high_seq w5 = overflow_high_seq w4 -> overflow_low_seq w5 = overflow_low_seq w4 ->
    let w6 := { w5 with buckets := sn_buckets sn } in
    books_ok w6 /\ forall s, clock_seq s -> recorded d sn s -> covered d w6 s).
  { intros w5 E1 E2 E3 E4 E5. cbn zeta. destruct B4 as (G1 & G2 & G3 & G4). split.
    - unfold books_ok. cbn. rewrite E1, E2, E4. by split.
    - intros s Hs [Hm|[[Ho Hh]|Hall']]; [by left|right; left|right; right].
      + pose proof (A2 s (O3 Ho s Hs)) as Hin. unfold in_overflow in *. cbn. by rewrite E3, E4, E5.
      + intros x Hx. specialize (Hall' x Hx). apply Exists_exists in Hall' as (p & Hp & Hi). unfold kept. cbn. rewrite E1, E2. by apply (K4 p). }
  apply H5; by destruct (sn_migrated_span sn).
Qed.

(** A snapshot records what the watermark covers. *)
Lemma covered_recorded d w sn s : covered d w s -> sn_buckets sn = buckets w -> sn_overflowed sn = overflowed w ->
  sn_overflow_high_seq sn = overflow_high_seq w -> sn_ranges sn = wm_ranges w -> recorded d sn s.
Proof.
  intros [H|[(H1 & H2 & _)|H]] E1 E2 E3 E4; unfold recorded; rewrite E1, E2, E3, E4; [by left|right; left; tauto|right; right].
  intros x Hx. apply (H x Hx).
Qed.

Lemma persisted_fields now w : let sn := (persist_at now w).1 in let w' := bound_known_overflow w in
  sn_buckets sn = buckets w' /\ sn_overflowed sn = overflowed w' /\ sn_overflow_high_seq sn = overflow_high_seq w' /\ sn_ranges sn = wm_ranges w'.
Proof. unfold persist_at, durable_view. by destruct (durable_at _ _ _). Qed.

(** C7: Once a frame is known not to have reached the database (shed, a failed
    batch, acknowledged around a table outage, recorded in the loaded file), then
    after any further acknowledgements, probes, holds, persists, resets, trims,
    clips and the boot fold that do not give it up, neither the live nor the
    written watermark calls the frame applied, or any segment within the chosen
    reach of it, and the written one records it for the next process. *)
Theorem an_unapplied_frame_pins_its_segment d loaded ops s :
  0 <= d <= REPLAY_REORDER_SLACK_SEQ -> clock_seq s -> loaded_ok loaded -> wm_run_ok ops (booted loaded) ->
  owed d ops (booted loaded) s (recorded_at_boot d loaded s) ->
  forall now sn, (sn = wm_snapshot (wm_run ops (booted loaded)) \/ sn = (persist_at now (wm_run ops (booted loaded))).1) ->
    recorded d sn s /\ loaded_ok (Some sn) /\
    forall sink first hi, 0 <= first -> first - d <= s <= hi + d ->
      frame_is_applied sink s sn = false /\ segment_is_applied first hi sn = false.
Proof.
  intros Hd Hs Hl Hok Ho now sn Hsn. destruct (booted_ok d loaded Hl) as [B0 C0].
  destruct (wm_run_covers d Hd ops (booted loaded) s _ Hok B0 Hs (C0 s Hs)) as [B C]. specialize (C Ho).
  set (w := wm_run ops (booted loaded)) in *. clearbody w. destruct (bound_step w B) as [B' C'].
  assert (H : recorded d sn s /\ loaded_ok (Some sn)).
  { destruct Hsn; subst sn.
    - split; [by eapply covered_recorded|]. split; apply B.
    - destruct (persisted_fields now w) as (E1 & E2 & E3 & E4). split; [by eapply covered_recorded; [apply C'|..]|].
      cbn [loaded_ok]. rewrite E1, E4. split; apply B'. }
  destruct H as [Hr Hlo]. split; [done|]. split; [done|]. intros sink first hi Hf Hn. by apply (recorded_pins d sn s first hi sink Hs Hr (proj1 Hlo) Hd).
Qed.

(** A frame is shed, the tables fall behind and catch up, and the process moves
    on a hundred seconds: the shed frame's segment stays, a far one may go. *)
Definition sample_seq : Z := 1754400000000000000.
Definition sample_ops : list wm_op :=
  [OAckTicks sample_seq; OAckDepth sample_seq; OProbe Clean None 0 0; ONote sample_seq; OProbe LagOnly None 1 1;
   OAckTicks (sample_seq + 1000000000000); OAckDepth (sample_seq + 1000000000000); OProbe Clean None 2 2;
   OProbe Clean None 70000000000 70000000000; OProbe Clean None 80000000000 80000000000].

Lemma an_unapplied_frame_pins_its_segment_witness :
  segment_is_applied (sample_seq - 50) (sample_seq - 20) (wm_snapshot (wm_run sample_ops (booted None))) = false /\
  segment_is_applied (sample_seq + 600000000000) (sample_seq + 700000000000) (wm_snapshot (wm_run sample_ops (booted None))) = true.
Proof.
  split; [|vm_compute; reflexivity].
  apply (an_unapplied_frame_pins_its_segment REPLAY_REORDER_SLACK_SEQ None sample_ops sample_seq) with (now := 0) (sink := Ticks).
  - by vm_compute.
  - by vm_compute.
  - done.
  - by repeat split.
  - cbn [owed sample_ops]. do 6 (right; split; [|by intros []]). by left.
  - by left.
  - by vm_compute.
  - by vm_compute.
Defined.
