(* ===== verification/WatermarkLag.v ===== *)
(** What the applied watermark writes to disk: a high-water mark that was already
    reached a minute before, or loaded at the boot, and that lies below every
    rescue batch still queued. *)
From coqutil Require Import Datatypes.RecordSettersUsingExistingGetters.
From S2P Require Import Prelude Bytes UnappliedRanges WalRecords WalSequence WalWatermark WatermarkSafety.
Local Open Scope Z_scope.

(** * The two marks *)

Definition hwm_of (sink : AppliedSink) (w : AppliedWatermark) : Z := match sink with Ticks => hwm_ticks w | Depth => hwm_depth w end.
Definition durable_of (sink : AppliedSink) (l : DurabilityLag) : Z := match sink with Ticks => durable_ticks l | Depth => durable_depth l end.
Definition sample_of (sink : AppliedSink) (s : DurabilitySample) : Z := match sink with Ticks => ds_ticks s | Depth => ds_depth s end.
Definition written_hwm (sink : AppliedSink) (sn : AppliedSnapshot) : Z := match sink with Ticks => sn_hwm_ticks sn | Depth => sn_hwm_depth sn end.

Lemma bound_hwm w : hwm_ticks (bound_known_overflow w) = hwm_ticks w /\ hwm_depth (bound_known_overflow w) = hwm_depth w /\
  lag (bound_known_overflow w) = lag w /\ floors_ticks (bound_known_overflow w) = floors_ticks w /\ floors_depth (bound_known_overflow w) = floors_depth w.
Proof. unfold bound_known_overflow. by destruct (_ || _). Qed.

(** What a persist does to the lag. *)
Definition lag_persist (now : Z) (w : AppliedWatermark) : (Z * Z) * DurabilityLag :=
  durable_at now WATERMARK_DURABILITY_LAG_NANOS (lag_record now (hwm_ticks w) (hwm_depth w) (lag w)).

Lemma persist_lag now w : lag (persist_at now w).2 = (lag_persist now w).2.
Proof.
  unfold persist_at, durable_view, lag_persist. destruct (bound_hwm w) as (-> & -> & -> & _). by destruct (durable_at _ _ _).
Qed.

Lemma view_written sink now v : written_hwm sink (durable_view now v).1 =
  cap_below_floor (Z.min (durable_of sink (lag_persist now v).2) (hwm_of sink v)) (rescue_floor_min sink v).
Proof.
  unfold durable_view. change (durable_at now _ _) with (lag_persist now v).
  assert (D : (lag_persist now v).1 = (durable_ticks (lag_persist now v).2, durable_depth (lag_persist now v).2)) by done.
  destruct (lag_persist now v) as [p l]. cbn in D. subst p. by destruct sink.
Qed.

Lemma persist_written sink now w : written_hwm sink (persist_at now w).1 =
  cap_below_floor (Z.min (durable_of sink (lag_persist now w).2) (hwm_of sink w)) (rescue_floor_min sink w).
Proof.
  unfold persist_at. rewrite view_written. unfold lag_persist, rescue_floor_min, wm_floors, hwm_of.
  by destruct (bound_hwm w) as (-> & -> & -> & -> & ->).
Qed.

Lemma record_samples now t d l s : s ∈ samples (lag_record now t d l) -> s ∈ samples l \/ s = mkSample now t d.
Proof.
  unfold lag_record. set (l' := if filled l =? 0 then _ else _). replace (samples l) with (samples l').
  2: { subst l'. destruct (_ =? 0); [done|]. by destruct (_ || _). }
  cbn. intros [i Hi]%list_elem_of_lookup. apply list_lookup_insert_Some in Hi as [(_ & <- & _)|[_ Hi]]; [by right|left].
  by eapply list_elem_of_lookup_2.
Qed.

Lemma record_durable sink now t d l : durable_of sink (lag_record now t d l) = durable_of sink l.
Proof. unfold lag_record. destruct (_ =? 0); [by destruct sink|]. destruct (_ || _); by destruct sink. Qed.

Lemma old_enough_spec n back now lag_nanos l s : old_enough n back now lag_nanos l = Some s ->
  (s = mkSample 0 0 0 \/ s ∈ samples l) /\ taken_at s + lag_nanos <= now.
Proof.
  revert back. induction n as [|n IH]; intros back; cbn [old_enough]; [done|].
  set (i := Z.to_nat _). destruct (_ && _) eqn:E; [|apply IH]. intros [= <-]. split; [|lia].
  destruct (lt_dec i (length (samples l))) as [Hi|Hi].
  - right. apply list_elem_of_In. by apply nth_In.
  - left. apply nth_overflow. lia.
Qed.

(** The durable mark moves only to a sample old enough. *)
Lemma durable_step sink now lag_nanos l : let l' := (durable_at now lag_nanos l).2 in
  samples l' = samples l /\
  (durable_of sink l' = durable_of sink l \/
   exists s, (s = mkSample 0 0 0 \/ s ∈ samples l) /\ taken_at s + lag_nanos <= now /\ durable_of sink l' = Z.max (durable_of sink l) (sample_of sink s)).
Proof.
  unfold durable_at. destruct (old_enough _ _ _ _ l) as [s|] eqn:E; cbn [snd]; [|by split; [|left]].
  apply old_enough_spec in E as [E1 E2]. split; [done|]. right. exists s. split; [done|]. split; [done|]. by destruct sink.
Qed.

(** * What the lag holds

    [seen t v]: a persist at [t] found the mark at [v] or below; [asked t]: there
    was a persist at [t].  Every sample was taken by a persist, and the durable
    mark is what one a minute before a persist had found. *)

Record lag_ok (sink : AppliedSink) (seen : Z -> Z -> Prop) (asked : Z -> Prop) (base : Z) (l : DurabilityLag) : Prop := mkLagOk {
  samples_seen : forall s, s ∈ samples l -> s = mkSample 0 0 0 \/ exists v, seen (taken_at s) v /\ sample_of sink s <= v;
  durable_seen : durable_of sink l <= base \/
    exists at_ now v, seen at_ v /\ asked now /\ at_ + WATERMARK_DURABILITY_LAG_NANOS <= now /\ durable_of sink l <= v }.

Lemma lag_ok_more sink seen seen' (asked asked' : Z -> Prop) base l : (forall t v, seen t v -> seen' t v) -> (forall t, asked t -> asked' t) ->
  lag_ok sink seen asked base l -> lag_ok sink seen' asked' base l.
Proof.
  intros H1 H2 [S D]. split.
  - intros s Hs. destruct (S s Hs) as [?|(v & ? & ?)]; [by left|right; eauto].
  - destruct D as [?|(a & n & v & ? & ? & ?)]; [by left|right]. exists a, n, v. by auto.
Qed.

Lemma lag_ok_persist sink (seen : Z -> Z -> Prop) (asked : Z -> Prop) base mono v w : 0 <= base -> seen mono v -> asked mono -> hwm_of sink w <= v ->
  lag_ok sink seen asked base (lag w) -> lag_ok sink seen asked base (lag_persist mono w).2.
Proof.
  intros H0 Hseen Hask Hv [S D]. unfold lag_persist.
  pose proof (durable_step sink mono WATERMARK_DURABILITY_LAG_NANOS (lag_record mono (hwm_ticks w) (hwm_depth w) (lag w))) as [E M].
  set (l' := (durable_at _ _ _).2) in *. clearbody l'. rewrite !record_durable in M.
  assert (S' : forall s, s ∈ samples l' -> s = mkSample 0 0 0 \/ exists v, seen (taken_at s) v /\ sample_of sink s <= v).
  { rewrite E. intros s [Hs| ->]%record_samples; [by apply S|right]. exists v. split; [done|]. by destruct sink. }
  split; [done|]. destruct M as [->|(s & Hs & Ht & ->)]; [done|].
  destruct (Z.max_spec (durable_of sink (lag w)) (sample_of sink s)) as [[Hlt ->]|[_ ->]]; [|done].
  assert (Hs' : s = mkSample 0 0 0 \/ exists v, seen (taken_at s) v /\ sample_of sink s <= v).
  { destruct Hs as [->|Hs]; [by left|]. apply S'. by rewrite E. }
  destruct Hs' as [->|(v' & Hp & Hle)]; [left; by destruct sink|]. right. by exists (taken_at s), mono, v'.
Qed.

(** A step that reads the clock once or not at all. *)
Definition evolves (clock : option Z) (w w' : AppliedWatermark) : Prop :=
  (forall sink, hwm_of sink w <= hwm_of sink w') /\
  forall sink (seen : Z -> Z -> Prop) (asked : Z -> Prop) base v, 0 <= base -> hwm_of sink w' <= v ->
    (forall t, clock = Some t -> seen t v /\ asked t) ->
    lag_ok sink seen asked base (lag w) -> lag_ok sink seen asked base (lag w').

#[export] Instance evolves_preorder clock : PreOrder (evolves clock).
Proof.
  split; [by intros w; split|]. intros w1 w2 w3 [H1 L1] [H2 L2]. split; [intros sink; etransitivity; [apply H1|apply H2]|].
  intros sink seen asked base v H0 Hv Hc Hl. apply (L2 _ _ _ _ v); [done..|]. apply (L1 _ _ _ _ v); [done| |done..]. etransitivity; [apply H2|done].
Qed.

Definition same_marks (w w' : AppliedWatermark) : Prop := lag w' = lag w /\ hwm_ticks w' = hwm_ticks w /\ hwm_depth w' = hwm_depth w.

#[export] Instance same_marks_preorder : PreOrder same_marks.
Proof. split; [done|]. unfold same_marks. intros ??? (H1 & H2 & H3) (H4 & H5 & H6). by rewrite H4, H5, H6. Qed.

Lemma same_marks_evolve clock w w' : same_marks w w' -> evolves clock w w'.
Proof. intros (H1 & H2 & H3). split; [intros []; cbn; lia|]. by rewrite H1. Qed.

Lemma raise_evolves clock w w' : lag w' = lag w -> hwm_ticks w <= hwm_ticks w' -> hwm_depth w <= hwm_depth w' -> evolves clock w w'.
Proof. intros H1 H2 H3. split; [by intros []|]. by rewrite H1. Qed.

Lemma persist_evolves mono w : evolves (Some mono) w (persist_at mono w).2.
Proof.
  assert (E : forall sink, hwm_of sink (persist_at mono w).2 = hwm_of sink w).
  { unfold persist_at, durable_view. destruct (bound_hwm w) as (H1 & H2 & _). destruct (durable_at _ _ _). by intros []. }
  split; [intros sink; by rewrite E|]. intros sink seen asked base v H0 Hv Hc Hl. rewrite E in Hv. destruct (Hc mono eq_refl).
  rewrite persist_lag. by apply (lag_ok_persist _ _ _ _ _ v).
Qed.

(** * Only a persist touches the lag, only an acknowledgement or a confirmation the marks *)

Ltac marks_same := repeat first [done | progress case_match | progress cbn [snd]].

Lemma foldl_same_marks {A} (f : AppliedWatermark -> A -> AppliedWatermark) l w :
  (forall w a, same_marks w (f w a)) -> same_marks w (foldl f w l).
Proof.
  intros Hf. revert w. induction l as [|a l IH]; intros w; cbn [foldl]; [done|]. etransitivity; [apply Hf|apply IH].
Qed.

Lemma settle_marks w : same_marks w (settle_migrated w).
Proof. unfold settle_migrated. marks_same. Qed.
Lemma note_marks s w : same_marks w (note_unapplied s w).
Proof. unfold note_unapplied. marks_same. Qed.
Lemma note_ids_marks n id w : same_marks w (note_ids n id w).
Proof. revert id w. induction n as [|n IH]; intros id w; cbn; [done|]. etransitivity; [apply note_marks|apply IH]. Qed.
Lemma note_range_marks lo hi w : same_marks w (note_unapplied_range lo hi w).
Proof. unfold note_unapplied_range. destruct (_ || _); [done|]. destruct (_ <=? _); [done|apply note_ids_marks]. Qed.
Lemma add_marks lo hi w : same_marks w (add_unapplied_range lo hi w).2.
Proof. unfold add_unapplied_range. marks_same. Qed.
Lemma set_floor_marks sink slot v w : same_marks w (set_floor sink slot v w).
Proof. by destruct sink. Qed.
Lemma exit_marks l p w : same_marks w (add_exit_ranges l p w).
Proof.
  unfold add_exit_ranges. etransitivity; [|reflexivity]. apply foldl_same_marks. intros w' a. by destruct (_ <=? _).
Qed.

Lemma fold_marks oldest high own spans w : same_marks w (fold_at_boot_with_spans oldest high own spans w).
Proof.
  unfold fold_at_boot_with_spans. destruct (boot_folded w); [done|]. etransitivity; [|apply settle_marks]. generalize (seq 0 128) as l. intros l.
  match goal with |- same_marks w (if ?b then wm_add_avoiding ?x ?y ?z ?v else _) => transitivity v; [|by destruct b] end.
  etransitivity; [|apply foldl_same_marks; intros w' a; unfold fold_bucket; by destruct (_ || _)].
  unfold fold_overflow. by destruct (_ && _).
Qed.

Lemma confirm_evolves now mono w : evolves (Some mono) w (confirm_parked_if_due now mono w).2.
Proof.
  unfold confirm_parked_if_due. destruct (parked_confirm w); [|done]. destruct (_ || _); [by apply same_marks_evolve|].
  destruct (_ || _); [done|]. destruct (remove_span _ _ _) as [[b|] r]; [|done]. cbn [snd]. etransitivity; [|apply persist_evolves].
  match goal with |- context [settle_migrated ?x] => destruct (settle_marks x) as (E1 & E2 & E3); set (w1 := settle_migrated x) in * end.
  cbn in E1, E2, E3. clearbody w1. apply raise_evolves; cbn; [done|lia|lia].
Qed.

Lemma end_episode_evolves now mono w : evolves (Some mono) w (end_episode now mono w).
Proof.
  unfold end_episode. destruct (_ || _); [|by apply same_marks_evolve]. etransitivity; [|apply persist_evolves].
  apply same_marks_evolve. by etransitivity; [|apply exit_marks].
Qed.

Lemma clean_probe_evolves basis now mono w : evolves (Some mono) w (clean_probe basis now mono w).
Proof.
  unfold clean_probe. set (w1 := { w with clean_probes ::= _ }). assert (H1 : same_marks w w1) by done. clearbody w1.
  set (w2 := if sink_suspect w1 then _ else _).
  assert (H2 : evolves (Some mono) w1 w2) by (subst w2; destruct (sink_suspect w1); [apply end_episode_evolves|done]).
  clearbody w2. transitivity w1; [by apply same_marks_evolve|]. transitivity w2; [done|]. set (h := match basis with Some _ => _ | None => _ end). clearbody h.
  etransitivity; [|apply confirm_evolves]. by apply same_marks_evolve.
Qed.

Lemma begin_episode_evolves lag_only mono w : evolves (Some mono) w (begin_episode lag_only mono w).
Proof.
  unfold begin_episode. set (w1 := { w with sink_suspect := true; episode_lag_only := _; suspect_episodes ::= _; parked_confirm := _ }).
  assert (H1 : same_marks w w1) by done. clearbody w1. set (w2 := (add_unapplied_range _ _ w1).2).
  assert (H2 : same_marks w1 w2) by apply add_marks. clearbody w2. etransitivity; [|apply persist_evolves]. apply same_marks_evolve.
  transitivity w1; [done|]. transitivity w2; [done|apply add_marks].
Qed.

Lemma probe_evolves v basis now mono w : evolves (Some mono) w (note_questdb_probe_full v basis now mono w).
Proof.
  unfold note_questdb_probe_full. destruct (bool_decide (v = Clean)); [apply clean_probe_evolves|].
  destruct (sink_suspect w); [|apply begin_episode_evolves]. apply same_marks_evolve. by destruct (bool_decide _).
Qed.

(** When a step may persist. *)
Definition persist_clock (o : wm_op) : option Z := match o with OPersist t | OProbe _ _ _ t => Some t | _ => None end.

Lemma step_evolves o w : evolves (persist_clock o) w (wm_step o w).
Proof.
  destruct o; cbn [wm_step persist_clock].
  - unfold note_ticks_acked. destruct (sink_suspect w); [by apply same_marks_evolve|]. apply raise_evolves; cbn; [done|lia|lia].
  - unfold note_depth_acked. destruct (sink_suspect w); [by apply same_marks_evolve|]. apply raise_evolves; cbn; [done|lia|lia].
  - apply same_marks_evolve, note_marks.
  - apply same_marks_evolve, note_range_marks.
  - apply same_marks_evolve, add_marks.
  - apply same_marks_evolve. unfold hold_rescue_floor. destruct (_ =? 0); [done|]. destruct (free_slot _); [apply set_floor_marks|apply note_range_marks].
  - apply same_marks_evolve, set_floor_marks.
  - apply probe_evolves.
  - apply same_marks_evolve. unfold reset_unapplied_below. etransitivity; [|apply settle_marks]. cbn. by destruct (_ && _).
  - apply same_marks_evolve. by etransitivity; [|apply settle_marks].
  - apply same_marks_evolve. by etransitivity; [|apply settle_marks].
  - apply persist_evolves.
  - apply same_marks_evolve, fold_marks.
Qed.

(** * Runs *)

Section file.
Context (w0 : AppliedWatermark).

(** What the marks were at the end of a step that may have persisted at [t]. *)
Definition seen_in (sink : AppliedSink) (ops : list wm_op) (t v : Z) : Prop :=
  exists pre o post, ops = pre ++ o :: post /\ persist_clock o = Some t /\ v = hwm_of sink (wm_run (pre ++ [o]) w0).
Definition asked_in (ops : list wm_op) (t : Z) : Prop := exists o, o ∈ ops /\ persist_clock o = Some t.

Lemma run_snoc ops o w : wm_run (ops ++ [o]) w = wm_step o (wm_run ops w).
Proof. unfold wm_run. by rewrite foldl_app. Qed.

Lemma lag_ok_run sink ops : 0 <= hwm_of sink w0 -> lag_ok sink (seen_in sink []) (asked_in []) (hwm_of sink w0) (lag w0) ->
  lag_ok sink (seen_in sink ops) (asked_in ops) (hwm_of sink w0) (lag (wm_run ops w0)).
Proof.
  intros H0 Hi. induction ops as [|o ops IH] using rev_ind; [done|]. rewrite run_snoc. destruct (step_evolves o (wm_run ops w0)) as [_ L].
  apply (L _ _ _ _ (hwm_of sink (wm_step o (wm_run ops w0)))); [done..| |].
  - intros t Ht. split; [|exists o; split; [apply elem_of_app; right; by apply list_elem_of_singleton|done]].
    exists ops, o, []. by rewrite run_snoc.
  - eapply lag_ok_more; [| |exact IH].
    + intros t v (pre & o' & post & -> & Ht & Hv). exists pre, o', (post ++ [o]). by rewrite <- app_assoc.
    + intros t (o' & Ho & Ht). exists o'. split; [apply elem_of_app; by left|done].
Qed.
End file.

Lemma booted_hwm sink loaded : 0 <= hwm_of sink (booted loaded) /\
  lag_ok sink (seen_in (booted loaded) sink []) (asked_in []) (hwm_of sink (booted loaded)) (lag (booted loaded)).
Proof.
  assert (E : hwm_of sink (booted loaded) = durable_of sink (lag (booted loaded)) /\ samples (lag (booted loaded)) = samples new_lag /\ 0 <= hwm_of sink (booted loaded)).
  { destruct loaded as [sn|]; [|by destruct sink]. unfold booted, bind_wm, wm_seed.
    set (w00 := { new_watermark with boot_applied_floor := _ }). set (w1 := { w00 with hwm_ticks ::= _; hwm_depth ::= _; lag ::= _ }).
    set (w2 := { w1 with healthy_ticks := hwm_ticks w1; healthy_depth := hwm_depth w1; depth_untracked ::= orb (sn_depth_untracked sn) }).
    set (w3 := if sn_overflowed sn then _ else w2).
    assert (H3 : hwm_of sink w3 = durable_of sink (lag w3) /\ samples (lag w3) = samples new_lag /\ 0 <= hwm_of sink w3).
    { subst w3. destruct (sn_overflowed sn), sink; cbn; (split; [done|split; [done|lia]]). }
    clearbody w3. clear w1 w2. assert (H4 : forall l w, (hwm_of sink (foldl (fun w p => wm_add p.1 p.2 w) w l) = hwm_of sink w) /\ lag (foldl (fun w p => wm_add p.1 p.2 w) w l) = lag w).
    { induction l as [|p l IH]; intros w; [done|]. cbn [foldl]. destruct (IH (wm_add p.1 p.2 w)) as [-> ->]. by destruct sink. }
    destruct (H4 (sn_ranges sn) w3) as [E1 E2]. set (w4 := foldl _ w3 _) in *. clearbody w4.
    rewrite <- E1, <- E2 in H3. destruct (sn_migrated_span sn); by destruct sink. }
  destruct E as (E1 & E2 & E3). split; [done|]. split; [|left; lia].
  rewrite E2. intros s Hs. left. by apply elem_of_replicate in Hs as [-> _].
Qed.

Lemma floor_min_le l f : f ∈ l -> f <> 0 -> foldr (fun held lowest => if held =? 0 then lowest else Z.min held lowest) u64_max l <= f.
Proof.
  induction l as [|x l IH]; [by intros ?%elem_of_nil|]. intros [->|Hf]%elem_of_cons Hne; cbn [foldr].
  - destruct (Z.eqb_spec x 0); lia.
  - specialize (IH Hf Hne). destruct (x =? 0); lia.
Qed.

(** C25: Whatever the process does, the high-water mark it writes was loaded
    at the boot or had been reached at the end of a step that persisted at least a
    minute before, and lies below every rescue batch still held. *)
Theorem the_file_vouches_a_minute_late loaded ops now sink :
  Forall (fun o => match persist_clock o with Some t => t <= now | None => True end) ops ->
  let w := wm_run ops (booted loaded) in
  let written := written_hwm sink (persist_at now w).1 in
  (written <= hwm_of sink (booted loaded) \/
   exists pre o at_ post, ops = pre ++ o :: post /\ persist_clock o = Some at_ /\ at_ + 60000000000 <= now /\
     written <= hwm_of sink (wm_run (pre ++ [o]) (booted loaded))) /\
  forall f, f ∈ wm_floors sink w -> 0 < f < u64_max -> written < f.
Proof.
  intros Hmono w written. destruct (booted_hwm sink loaded) as [H0 Hi].
  pose proof (lag_ok_run (booted loaded) sink (ops ++ [OPersist now]) H0 Hi) as Hr. rewrite run_snoc in Hr. cbn [wm_step] in Hr.
  fold w in Hr. rewrite persist_lag in Hr. pose proof (persist_written sink now w) as Ew. fold written in Ew. clearbody written.
  set (l' := (lag_persist now w).2) in *. clearbody l'. split.
  - assert (Hle : written <= Z.max 0 (durable_of sink l')).
    { rewrite Ew. unfold cap_below_floor. set (fl := rescue_floor_min sink w). clearbody fl. destruct (_ || _) eqn:E; [lia|].
      apply orb_false_iff in E as [_ E]. zints. }
    destruct Hr as [_ [Hd|(a & n & v & (pre & o & post & Eo & Ha & ->) & (o' & Hn & Hn') & Hlag & Hd)]]; [left; lia|].
    destruct (Z.le_gt_cases written (hwm_of sink (booted loaded))); [by left|right].
    assert (Hnow : n <= now).
    { apply elem_of_app in Hn as [Hn|Hn]; [|apply list_elem_of_singleton in Hn; subst o'; injection Hn'; lia].
      rewrite Forall_forall in Hmono. specialize (Hmono _ Hn). by rewrite Hn' in Hmono. }
    change WATERMARK_DURABILITY_LAG_NANOS with 60000000000 in Hlag.
    destruct (decide (post = [])) as [->|Hpost].
    + apply app_inj_tail in Eo as [_ <-]. injection Ha. lia.
    + destruct (exists_last Hpost) as (post' & o2 & ->). rewrite app_comm_cons, app_assoc in Eo. apply app_inj_tail in Eo as [Eo _].
      exists pre, o, a, post'. split; [done|]. split; [done|]. split; [lia|]. cbn in Hle. lia.
  - intros f Hf Hb. pose proof (floor_min_le _ f Hf ltac:(lia)) as Hm. change (foldr _ _ _) with (rescue_floor_min sink w) in Hm.
    rewrite Ew. unfold cap_below_floor. destruct (_ || _) eqn:E; [|zints]. apply orb_true_iff in E. unfold u64_max in *. lia.
Qed.

(** Two persists a minute apart: the second writes what the first had seen, below
    the batch still held. *)
Lemma the_file_vouches_a_minute_late_witness :
  let ops := [OAckTicks 5000; OPersist 0; OAckTicks 9000; OHold Ticks 4000 4500] in
  let w := wm_run ops (booted None) in
  written_hwm Ticks (persist_at 60000000000 w).1 = 3999 /\
  (forall f, f ∈ wm_floors Ticks w -> 0 < f < u64_max -> written_hwm Ticks (persist_at 60000000000 w).1 < f).
Proof.
  split; [by vm_compute|]. apply the_file_vouches_a_minute_late. repeat constructor; cbn; lia.
Defined.
